(* ===== verification/_CoqProject ===== *)
-Q . S2P
Prelude.v
GoFloat.v
Backend.v
Errors.v
Http.v
Bytes.v
BackendPool.v
GoHash.v
NetIP.v
NetAddr.v
GoTime.v
CIDR.v
GoStrings.v
IPAccess.v
GoEncoding.v
Security.v
Middleware.v
Auth.v
AuthFacts.v
ResponseCache.v
ResponseCacheFacts.v
Coalesce.v
StaleCache.v
ClientAddress.v
CrossSite.v
ForceSSL.v
Retry.v
Timeout.v
HeaderPolicies.v
SecurityFacts.v
ConnManager.v
Balancers.v
BalancersFacts.v
PoolExamples.v
WeightedRR.v
HashRing.v
HashRingFacts.v
Maglev.v
Sticky.v
Radix.v
RadixFacts.v
Router.v
ConnPool.v
RingBuffer.v
CircuitBreaker.v
TokenBucket.v
TokenBucketFacts.v
Latency.v
Registry.v
YamlLexer.v
YamlParser.v
YamlRoundtrip.v
YamlReading.v
Config.v
ConfigFacts.v
WafRateLimit.v
WafRateLimitFacts.v
LRU.v
Bloom.v
ProxyProto.v
SNI.v
Health.v
Passive.v
L7Proxy.v
L7ProxyFacts.v
Engine.v
EngineFacts.v
EngineRollback.v
GossipEncoding.v
Gossip.v
GossipFacts.v
DistributedState.v
Raft.v
RaftFacts.v
RaftElection.v
RaftExamples.v
