(* ===== verification/Prelude.v ===== *)
(** * OpenLoadBalancer: a verification library

    This library models the core of OpenLoadBalancer, an HTTP/TCP load balancer
    written in Go, and proves the properties its parts rely on.  A request is matched
    to a route by the router, the route names a pool, the pool offers its available
    backends to a balancer, and the balancer selects one; middleware such as the
    circuit breaker, the rate limiters and the address lists decides before that whether
    the request is served at all, and the HTTP proxy repeats failed attempts.  Health
    checks move backends up and down, the layer 4 listeners read PROXY headers and TLS
    server names, and the nodes of a cluster share state by gossip and by Raft.  The
    engine builds all of it from a validated configuration, replaces it when the
    configuration is reloaded, and returns to the old one when the new one looks broken.

    ** The parts, and where they are modelled

    - [Prelude] (this file): machine integers with their wrap-around, Go slices,
      counting and summing, the tactics and hints of the library.
    - [GoFloat], [Http], [GoHash], [NetIP], [NetAddr], [GoStrings], [GoTime], [Bytes]:
      what the sources use of Go's standard library: [float64] (binary64 with rounding),
      requests, packages [strings] and [path], [time.ParseDuration], FNV-1a, CRC-32, [sort.Search] and the contract of [sort.Slice], the
      parsing and printing of addresses, networks and numbers, and byte slices with
      big-endian integers, where an index out of range is the result [Panic].
    - [Errors]: [pkg/errors/errors.go], the error codes, wrapping and [errors.Is].
    - [Backend]: [internal/backend/state.go], [backend.go], [stats.go].  A backend is a
      record of its atomic fields.  [Transition] and [AcquireConn]/[ReleaseConn] are
      modelled twice: as functions, and as program counters whose atomic accesses
      interleave ([trans_sys_step], [conn_sys_step]).
    - [BackendPool]: [pool.go] and [manager.go].  Backends are pointers into a heap that
      pools share.  The class [Balancer] is the Go interface, [BalancerLaws] and
      [BalancerTotal] what a pool expects of an implementation; the theorems about
      pools are proved against the classes and the balancers are their instances.
    - [Balancers], [BalancersFacts], [PoolExamples]: round robin, least connections
      (plain and weighted), power of two choices, IP hash, random (plain and weighted),
      rendezvous hashing, and the generator of [pkg/utils/fast_rand.go].
    - [WeightedRR]: smooth weighted round robin.
    - [HashRing], [HashRingFacts]: [consistent_hash.go] and [ring_hash.go].  The sort and
      the enumeration of a map are arguments (classes [SliceSort], [MapRange]), since Go
      leaves their result open; the theorems hold for every one.
    - [Maglev]: [maglev.go], with the size of the table as an argument; the code's size
      is [MaglevTableSize].
    - [Sticky]: [sticky.go], session affinity around any balancer.
    - [Latency]: [least_response_time.go] and [peak_ewma.go]; the window of samples as a
      function and, in [record_step], as memory accesses that interleave.
    - [Registry]: [balancer.go], the table of algorithms, and [AnyBalancer], the value
      of the interface type a pool holds at run time.
    - [Radix], [RadixFacts]: [internal/router/radix.go], the path trie.
    - [Router]: [internal/router/router.go].
    - [RingBuffer]: [pkg/utils/ring_buffer.go], as functions and as a producer and a
      consumer whose atomic accesses interleave ([spsc_step]).
    - [CircuitBreaker]: [internal/middleware/circuit_breaker.go]; a request is two
      critical sections ([admission], [record]) between which others run ([run_step]).
    - [CIDR], [IPAccess]: [pkg/utils/ip.go], the trie of networks; the address lists of
      [internal/waf/ipacl] and the IP filter of [internal/middleware], built on it.
    - [TokenBucket], [TokenBucketFacts], [WafRateLimit], [WafRateLimitFacts]: the rate
      limiters of [internal/middleware/rate_limiter.go] and [internal/waf/ratelimit]; the
      arithmetic of the buckets is a parameter, [float64] in the code and exact rationals
      in the theorems about rates.  Rules live in shared arrays behind slice headers.
    - [Security], [SecurityFacts]: [internal/security/security.go], checks of requests
      against smuggling and sanitizing of paths, hosts and header values.
    - [ConnManager]: [internal/conn/conn.go], connection tracking as steps that interleave.
    - [Bloom]: [pkg/utils/bloom_filter.go].
    - [LRU]: [pkg/utils/lru.go], with the elements of [container/list] as objects.
    - [ProxyProto]: [internal/proxy/l4/proxyproto.go], parser and writers of both
      versions, the listener and the buffered connection.
    - [SNI]: [internal/proxy/l4/sni.go], the ClientHello parser and the routing by name.
    - [Health], [Passive]: [internal/health/health.go] and [passive.go].
    - [L7Proxy], [L7ProxyFacts]: [internal/proxy/l7/proxy.go] and [shadow.go], the path of
      a request from validation to the answer.  What a backend answers is an argument,
      one [exchange] per attempt.
    - [Config], [ConfigFacts]: [internal/config/config.go], the configuration and its
      validation; [valid] says what a valid configuration is without its algorithm.
    - [Engine], [EngineFacts], [EngineRollback]: [internal/engine]: pools, router and proxy
      built from the configuration, reload, and the timers that roll a reload back.
    - [GossipEncoding], [Gossip], [GossipFacts]: [internal/cluster/gossip_encoding.go]
      and the membership protocol of [gossip.go], [gossip_handler.go],
      [gossip_probe.go], [gossip_broadcast.go]; [gossip_step] has one rule per event.
    - [DistributedState]: [internal/cluster/state.go]; JSON and HMAC are arguments.
    - [Raft], [RaftFacts]: one node of [internal/cluster/cluster.go] and
      [snapshot_ops.go], over any [StateMachine] (a class).  [RaftElection]: a cluster of
      nodes and a set of messages that may be lost, repeated and reordered.
      [RaftExamples]: a concrete state machine and cluster.

    State is passed explicitly: an operation takes the state of its component and
    returns the changed one.  Errors are values ([result], [option]).  The readings of
    the clock and of random sources are arguments.  A mutex makes its critical section
    one step; atomics make every access one step.

    ** What the theorems show

    - Backends: the life cycle follows [CanTransitionTo] and the connection limit holds
      under every interleaving.
    - Pools: map and slice agree; a selected backend is registered and up; selection
      succeeds exactly when a backend is up; a drained backend is not selected.
    - Balancers: what each algorithm promises: full rotation, exact proportionality over
      a period, minimal load, intervals of probability, affinity, minimal disruption of
      the hash rings, a Maglev table without empty positions, bounded sticky sessions.
    - Router: the trie refines a table from patterns to values; matching succeeds
      exactly when a pattern covers the path; failed insertions change nothing; [Swap]
      equals repeated [AddRoute]; an added literal route serves its requests.
    - Ring buffer and LRU cache: refinements of a bounded queue and of the list of
      entries in recency order.
    - Circuit breaker: the probe limit, and recovery whenever handlers return.
    - HTTP proxy: a request is answered once, by backends that are available and differ
      from attempt to attempt; connection slots are given back; a request reaches the
      first exchange that works; what headers a backend sees.
    - Engine: the validation is equivalent to a declarative description; a startable
      configuration starts, and afterwards every route leads to a configured backend;
      after a reload no backend is selected before a health check has passed.
    - Admission: the rate limiters admit no more than burst and rate allow, whatever the
      order of clock readings; the connection limits hold under every interleaving; the
      address lists answer by the rules in force; the trie of networks answers like the
      networks; sanitized paths consist of proper segments.
    - Wire formats: gossip messages, PROXY headers and ClientHello records are read back
      as written whatever follows them; no datagram and no accepted connection makes a
      decoder panic; a PROXY header counts only from a trusted network.
    - Health: the counters of the active checker compute the run-based status; the
      window of the passive checker refines the list of results.
    - Gossip: the membership invariant, the precedence rules of member states, and that
      a packet is processed like its messages one after the other.
    - Shared state: views converge under reordering and repetition; sessions are bounded.
    - Raft: the log is contiguous, AppendEntries merges and applies in order, and no two
      nodes are leaders of one term at the same time.
    - Defects of the code, each as a theorem next to the component it concerns: a cloned
      pool never selects a backend, reweighting a backend never rebuilds the ring-hash
      ring, routes that differ in a trailing slash shadow each other, lost probes wedge a
      half-open circuit, late successes close a circuit, length computations wrap around
      ([oversized_gossip_message_panics], [proxy_v2_length_wraps]), Raft elects two
      leaders of one term one after the other ([two_leaders_in_one_term]) and loses its
      place after compaction, a session with an empty key stops the eviction loop, a
      reload interrupts the service ([reload_serves_nothing_at_first]) and may be undone
      without any unhealthy backend ([slow_checks_roll_back]), address-based balancers do
      not see the client ([ip_hash_ignores_clients]), and others beside their components.

    ** Bounds and fuel

    Loops without a structural argument take fuel, and each has a bound that is enough:
    [sort.Search] halves an interval of length [n] ([Search_correct] with fuel [n]); the
    decimal and base-36 printers fill buffers of 20 and 32 bytes; the walk up a path
    shortens it every round ([prefix_match_fuel]); a Maglev permutation has [M] entries
    ([advance_spec] with fuel [M]), and [M] rounds fill the table ([fill_spec]);
    [Resize] removes one item per round; a gossip packet, a list of TLVs, of extensions
    or of names has at most as many items as bytes; the binary search in the Raft log
    halves an interval bounded by the length of the log; the eviction of sessions removes
    one per round ([enforce_loop_spec]) unless the key is empty; matching a pattern of
    package [path] and trimming a text are bounded by their lengths; the decoding of
    traversal sequences reaches its fixed point in one round ([replacer_once]); the retry
    loop of the proxy runs at most [maxRetries] times.

    ** Not modelled

    Network input and output (listeners, accept loops, dialling, TCP and UDP forwarding,
    the handlers of WebSocket, gRPC, SSE and HTTP/2), TLS and ACME, the configuration
    parsers, the transport, the files and the TLS of the cluster, the detectors of the web
    application firewall, the remaining middleware, metrics, discovery, administration.
    The plan continues with the connection pools, the framing of the cluster transport
    and its configuration state machine, the response cache and the parsers. *)
From stdpp Require Export base list gmap strings sorting relations pretty.
From Stdlib Require Export ZArith Lia.

Open Scope Z_scope.

(** ** Machine integers

    Go integers are kept as [Z] together with the wrap-around of their width:
    [u32], [u64] for the unsigned types and [i32], [i64] for the signed ones.
    Every operation of the models that can leave the range of its Go type
    applies the corresponding function to its result. *)

Definition u32 (z : Z) : Z := z mod 2 ^ 32.
Definition u64 (z : Z) : Z := z mod 2 ^ 64.
Definition i32 (z : Z) : Z := (z + 2 ^ 31) mod 2 ^ 32 - 2 ^ 31.
Definition i64 (z : Z) : Z := (z + 2 ^ 63) mod 2 ^ 64 - 2 ^ 63.

Definition MaxInt64 : Z := 2 ^ 63 - 1.

Definition in_i32 (z : Z) : Prop := - 2 ^ 31 <= z < 2 ^ 31.
Definition in_i64 (z : Z) : Prop := - 2 ^ 63 <= z < 2 ^ 63.
Definition in_u64 (z : Z) : Prop := 0 <= z < 2 ^ 64.
Definition in_u32 (z : Z) : Prop := 0 <= z < 2 ^ 32.

(** [Z.quot] is Go's [/] on signed integers, [Z.rem] its [%]. *)

(** A list indexed by a Go [int]: an index outside the slice panics, which is
    [None] here. *)
Definition slice_get {A} (l : list A) (i : Z) : option A :=
  if bool_decide (0 <= i) then l !! Z.to_nat i else None.

(** Number of elements of [l] that satisfy [f]. *)
Definition countb {A} (f : A -> bool) (l : list A) : nat :=
  length (List.filter f l).

(** Sum of a [Z]-valued function over a list. *)
Definition sumZ {A} (f : A -> Z) (l : list A) : Z :=
  foldr (fun x acc => f x + acc) 0 l.

(** The order in which [range] enumerates a map. *)
Class MapRange := {
  map_range {A} : gmap string A -> list (string * A);
  map_range_perm {A} (m : gmap string A) : map_range m ≡ₚ map_to_list m
}.

(** The order of stdpp's [map_to_list] is one. *)
Definition gmap_range : MapRange := {|
map_range A m := map_to_list m;
  map_range_perm A m := reflexivity (map_to_list m)
|}.

(** ** Tactics and hints *)

Create HintDb olb discriminated.

(** Case analysis on the first [if], [match] or [bool_decide] of the goal. *)
Ltac case_step :=
  match goal with
  | |- context [if bool_decide ?P then _ else _] =>
      destruct (bool_decide_reflect P)
  | |- context [if ?b then _ else _] => let E := fresh "E" in destruct b eqn:E
  | |- context [match ?x with _ => _ end] => let E := fresh "E" in destruct x eqn:E
  end.

(** The same on a hypothesis. *)
Ltac case_step_in H :=
  match type of H with
  | context [if bool_decide ?P then _ else _] =>
      destruct (bool_decide_reflect P)
  | context [if ?b then _ else _] => let E := fresh "E" in destruct b eqn:E
  | context [match ?x with _ => _ end] => let E := fresh "E" in destruct x eqn:E
  end.

(** Turn the boolean comparisons of the context into propositions. *)
Ltac b2p :=
  repeat match goal with
  | H : (_ && _)%bool = true |- _ => apply andb_true_iff in H; destruct H
  | H : (_ || _)%bool = false |- _ => apply orb_false_iff in H; destruct H
  | H : negb _ = true |- _ => apply negb_true_iff in H
  | H : negb _ = false |- _ => apply negb_false_iff in H
  | H : bool_decide _ = true |- _ => apply bool_decide_eq_true in H
  | H : bool_decide _ = false |- _ => apply bool_decide_eq_false in H
  | H : Z.eqb _ _ = true |- _ => apply Z.eqb_eq in H
  | H : Z.eqb _ _ = false |- _ => apply Z.eqb_neq in H
  | H : Z.ltb _ _ = true |- _ => apply Z.ltb_lt in H
  | H : Z.ltb _ _ = false |- _ => apply Z.ltb_ge in H
  | H : Z.leb _ _ = true |- _ => apply Z.leb_le in H
  | H : Z.leb _ _ = false |- _ => apply Z.leb_gt in H
  end.

(** ** Machine-integer lemmas *)

Lemma u64_range z : in_u64 (u64 z).
Proof. apply Z.mod_pos_bound. lia. Qed.

Lemma u32_range z : in_u32 (u32 z).
Proof. apply Z.mod_pos_bound. lia. Qed.

Lemma i32_range z : in_i32 (i32 z).
Proof. unfold in_i32, i32. pose proof (Z.mod_pos_bound (z + 2 ^ 31) (2 ^ 32)). lia. Qed.

Lemma i64_range z : in_i64 (i64 z).
Proof. unfold in_i64, i64. pose proof (Z.mod_pos_bound (z + 2 ^ 63) (2 ^ 64)). lia. Qed.

Lemma u64_small z : in_u64 z -> u64 z = z.
Proof. apply Z.mod_small. Qed.

Lemma u32_small z : in_u32 z -> u32 z = z.
Proof. apply Z.mod_small. Qed.

Lemma i32_small z : in_i32 z -> i32 z = z.
Proof. unfold in_i32, i32. intros H. rewrite Z.mod_small; lia. Qed.

Lemma i64_small z : in_i64 z -> i64 z = z.
Proof. unfold in_i64, i64. intros H. rewrite Z.mod_small; lia. Qed.

Lemma i64_add_l a b : i64 (i64 a + b) = i64 (a + b).
Proof.
  unfold i64. f_equal.
  replace ((a + 2 ^ 63) mod 2 ^ 64 - 2 ^ 63 + b + 2 ^ 63) with ((a + 2 ^ 63) mod 2 ^ 64 + b) by lia.
  rewrite Zplus_mod_idemp_l. f_equal. lia.
Qed.

Lemma i64_add_r a b : i64 (a + i64 b) = i64 (a + b).
Proof. by rewrite Z.add_comm, i64_add_l, Z.add_comm. Qed.

Lemma u64_u64_add a b : u64 (u64 a + b) = u64 (a + b).
Proof. apply Zplus_mod_idemp_l. Qed.

#[export] Hint Resolve u64_range u32_range i32_range i64_range : olb.

(** ** List lemmas *)

Lemma slice_get_Some {A} (l : list A) i x :
  slice_get l i = Some x <-> 0 <= i /\ l !! Z.to_nat i = Some x.
Proof. unfold slice_get. case_bool_decide; naive_solver. Qed.

Lemma slice_get_in {A} (l : list A) i x : slice_get l i = Some x -> x ∈ l.
Proof. intros [_ H]%slice_get_Some. by eapply list_elem_of_lookup_2. Qed.

Lemma slice_get_lt {A} (l : list A) i :
  0 <= i < Z.of_nat (length l) -> exists x, slice_get l i = Some x.
Proof.
  intros H. unfold slice_get. rewrite bool_decide_true by lia.
  apply lookup_lt_is_Some_2. lia.
Qed.

Lemma countb_snoc {A} (f : A -> bool) l x :
  countb f (l ++ [x]) = (countb f l + if f x then 1 else 0)%nat.
Proof. unfold countb. rewrite List.filter_app, length_app. simpl. by destruct (f x). Qed.

Lemma countb_cons {A} (f : A -> bool) x l :
  countb f (x :: l) = ((if f x then 1 else 0) + countb f l)%nat.
Proof. unfold countb. simpl. by destruct (f x). Qed.

Lemma countb_app {A} (f : A -> bool) l k :
  countb f (l ++ k) = (countb f l + countb f k)%nat.
Proof. unfold countb. by rewrite List.filter_app, length_app. Qed.

(** Replacing one element changes a count by the difference of its two
    contributions. *)
Lemma countb_insert {A} (f : A -> bool) (l : list A) i x y :
  l !! i = Some x ->
  (countb f (<[i:=y]> l) + (if f x then 1 else 0)
   = countb f l + (if f y then 1 else 0))%nat.
Proof.
  intros H. rewrite insert_take_drop by (by eapply lookup_lt_Some).
  rewrite <- (take_drop_middle l i x H) at 3.
  rewrite !countb_app, !countb_cons. lia.
Qed.

Lemma countb_le_length {A} (f : A -> bool) l : (countb f l <= length l)%nat.
Proof. apply List.filter_length_le. Qed.

Lemma countb_pos {A} (f : A -> bool) (l : list A) i x :
  l !! i = Some x -> f x = true -> (1 <= countb f l)%nat.
Proof.
  intros Hl Hf. rewrite <- (take_drop_middle l i x Hl), countb_app, countb_cons, Hf. lia.
Qed.

Lemma nodup_fmap_eq {A B} (f : A -> B) (l : list A) x y :
  NoDup (f <$> l) -> x ∈ l -> y ∈ l -> f x = f y -> x = y.
Proof.
  induction l as [|z l IH]; simpl; [set_solver|].
  intros [Hz Hnd]%NoDup_cons [->|Hx]%elem_of_cons [->|Hy]%elem_of_cons E; [done| | |by apply IH].
  - exfalso. apply Hz. rewrite E. by apply list_elem_of_fmap_2.
  - exfalso. apply Hz. rewrite <- E. by apply list_elem_of_fmap_2.
Qed.

Lemma sumZ_app {A} (f : A -> Z) l k : sumZ f (l ++ k) = sumZ f l + sumZ f k.
Proof. induction l; simpl; lia. Qed.

Lemma sumZ_ext {A} (f g : A -> Z) l :
  (forall x, x ∈ l -> f x = g x) -> sumZ f l = sumZ g l.
Proof.
  induction l as [|x l IH]; intros H; simpl; [done|].
  rewrite (H x) by set_solver. rewrite IH; [done|]. intros. apply H. set_solver.
Qed.

Lemma sumZ_nonneg {A} (f : A -> Z) l : (forall x, x ∈ l -> 0 <= f x) -> 0 <= sumZ f l.
Proof.
  induction l as [|x l IH]; intros H; simpl; [lia|].
  assert (0 <= f x) by (apply H; set_solver).
  assert (0 <= sumZ f l) by (apply IH; intros; apply H; set_solver). lia.
Qed.

(** ** Bit operations *)

Lemma lxor_range n a b :
  0 <= n -> 0 <= a < 2 ^ n -> 0 <= b < 2 ^ n -> 0 <= Z.lxor a b < 2 ^ n.
Proof.
  intros Hn Ha Hb.
  assert (E : Z.lxor a b = Z.land (Z.lxor a b) (Z.ones n)).
  { apply Z.bits_inj'. intros i Hi. rewrite Z.land_spec, Z.lxor_spec.
    destruct (Z.ltb_spec i n).
    - rewrite Z.ones_spec_low by lia. by rewrite andb_true_r.
    - rewrite Z.ones_spec_high by lia.
      rewrite <- (Z.mod_small a (2 ^ n)), <- (Z.mod_small b (2 ^ n)) by lia.
      by rewrite !Z.mod_pow2_bits_high by lia. }
  rewrite E, Z.land_ones by lia. apply Z.mod_pos_bound. lia.
Qed.

Lemma shiftr_range n a k : 0 <= k -> 0 <= a < 2 ^ n -> 0 <= Z.shiftr a k < 2 ^ n.
Proof.
  intros Hk Ha. rewrite Z.shiftr_div_pow2 by lia.
  split; [apply Z.div_pos; lia|]. apply Z.div_lt_upper_bound; [lia|].
  assert (1 <= 2 ^ k) by (pose proof (Z.pow_pos_nonneg 2 k); lia). nia.
Qed.

Lemma rem_range a n : 0 <= a -> 0 < n -> 0 <= Z.rem a n < n.
Proof. intros. by apply Z.rem_bound_pos. Qed.
