(* ===== verification/GoFloat.v ===== *)
(** * Go's [float64] as IEEE 754 binary64

    The balancers and statistics of the repository compute a few ratios and
    moving averages in [float64].  They are modelled with the executable
    reference semantics of the Standard Library ([SpecFloat]) at precision 53
    and maximal exponent 1024: each operation rounds to nearest, ties to even,
    and no multiplication is fused with an addition.  The file also shows that
    the comparison of finite floats is a strict weak order, which the minimum
    search of the weighted least-connections balancer relies on. *)
From S2P Require Import Prelude.
From Stdlib Require Export SpecFloat.

Definition float64 := spec_float.

Definition f64_of_Z (z : Z) : float64 := binary_normalize 53 1024 z 0 false.
Definition f64_add (x y : float64) : float64 := SFadd 53 1024 x y.
Definition f64_mul (x y : float64) : float64 := SFmul 53 1024 x y.
Definition f64_div (x y : float64) : float64 := SFdiv 53 1024 x y.
Definition f64_ltb (x y : float64) : bool := SFltb x y.
Definition f64_leb (x y : float64) : bool := SFleb x y.
Definition f64_eqb (x y : float64) : bool := SFeqb x y.

(** [math.MaxFloat64]. *)
Definition MaxFloat64 : float64 := S754_finite false 9007199254740991 971.

(** Conversion of a float to an integer type discards the fraction. *)
Definition f64_to_Z (x : float64) : Z :=
  match x with
  | S754_finite s m e =>
      let a := if 0 <=? e then Z.pos m * 2 ^ e else Z.pos m / 2 ^ (- e) in
      if s then - a else a
  | _ => 0
  end.

(** ** The order of comparable floats *)

Definition f64_is_nan (x : float64) : bool :=
  match x with S754_nan => true | _ => false end.

(** Rank of a float for which [SFcompare] is the lexicographic comparison:
    the class of the number first, then the exponent, then the mantissa. *)
Definition f64_rank (x : float64) : Z * Z * Z :=
  match x with
  | S754_infinity true => (-2, 0, 0)
  | S754_finite true m e => (-1, - e, - Z.pos m)
  | S754_zero _ => (0, 0, 0)
  | S754_finite false m e => (1, e, Z.pos m)
  | S754_infinity false => (2, 0, 0)
  | S754_nan => (3, 0, 0)
  end.

Definition rank_compare (a b : Z * Z * Z) : comparison :=
  match fst (fst a) ?= fst (fst b) with
  | Eq => match snd (fst a) ?= snd (fst b) with
          | Eq => snd a ?= snd b
          | c => c
          end
  | c => c
  end.

Lemma SFcompare_rank x y :
  f64_is_nan x = false -> f64_is_nan y = false ->
  SFcompare x y = Some (rank_compare (f64_rank x) (f64_rank y)).
Proof.
  destruct x as [sx|[]| |[] mx ex], y as [sy|[]| |[] my ey]; try done; intros _ _;
    unfold rank_compare; simpl; f_equal.
  destruct (Z.compare_spec ex ey) as [->|?|?].
  - by rewrite Z.compare_refl.
  - by rewrite (proj2 (Z.compare_gt_iff (- ex) (- ey))) by lia.
  - by rewrite (proj2 (Z.compare_lt_iff (- ex) (- ey))) by lia.
Qed.

Lemma rank_compare_lt a b :
  rank_compare a b = Lt <->
  (fst (fst a) < fst (fst b) \/ fst (fst a) = fst (fst b) /\
   (snd (fst a) < snd (fst b) \/ snd (fst a) = snd (fst b) /\ snd a < snd b)).
Proof.
  unfold rank_compare.
  destruct (Z.compare_spec (fst (fst a)) (fst (fst b)));
  destruct (Z.compare_spec (snd (fst a)) (snd (fst b)));
  destruct (Z.compare_spec (snd a) (snd b)); split; intros; try done; lia.
Qed.

Lemma f64_ltb_rank x y :
  f64_is_nan x = false -> f64_is_nan y = false ->
  f64_ltb x y = true <-> rank_compare (f64_rank x) (f64_rank y) = Lt.
Proof.
  intros Hx Hy. unfold f64_ltb, SFltb. rewrite SFcompare_rank by done.
  destruct (rank_compare _ _); naive_solver.
Qed.

(** A comparable float that is not below another one is at least as large as
    everything below that one. *)
Lemma f64_nlt_lt_trans x y z :
  f64_is_nan x = false -> f64_is_nan y = false -> f64_is_nan z = false ->
  f64_ltb x y = false -> f64_ltb z y = true -> f64_ltb x z = false.
Proof.
  intros Hx Hy Hz H1 H2. apply not_true_iff_false. intros H3.
  apply not_true_iff_false in H1. apply H1.
  rewrite f64_ltb_rank, rank_compare_lt in * by done. lia.
Qed.

Lemma f64_lt_nlt x y z :
  f64_is_nan x = false -> f64_is_nan y = false -> f64_is_nan z = false ->
  f64_ltb x y = true -> f64_ltb z y = false -> f64_ltb z x = false.
Proof.
  intros Hx Hy Hz H1 H2. apply not_true_iff_false. intros H3.
  apply not_true_iff_false in H2. apply H2.
  rewrite f64_ltb_rank, rank_compare_lt in * by done. lia.
Qed.

Lemma f64_ltb_irrefl x : f64_is_nan x = false -> f64_ltb x x = false.
Proof.
  intros Hx. apply not_true_iff_false. rewrite f64_ltb_rank, rank_compare_lt by done. lia.
Qed.
