(* ===== verification/Backend.v ===== *)
(** * Backends: [internal/backend/state.go], [backend.go], [stats.go]

    A backend server with its state machine, its counters and its metadata.
    The file holds the sequential semantics of every operation, and two
    interleaving models: of the compare-and-swap loop of
    [AtomicState.Transition], and of [AcquireConn]/[ReleaseConn] run by any
    number of goroutines. *)
From S2P Require Import Prelude GoFloat.

(** ** Backend states (state.go) *)

(** [type State int32] with its five constants; [StateOther n] is any other
    value of the underlying [int32]. *)
Inductive State :=
  | StateStarting
  | StateUp
  | StateDown
  | StateDraining
  | StateMaintenance
  | StateOther (n : Z).

#[export] Instance State_eq_dec : EqDecision State.
Proof. solve_decision. Defined.

Definition State_String (s : State) : string :=
  match s with
  | StateStarting => "starting"
  | StateUp => "up"
  | StateDown => "down"
  | StateDraining => "draining"
  | StateMaintenance => "maintenance"
  | StateOther n => "unknown(" +:+ pretty n +:+ ")"
  end.

Definition State_IsAvailable (s : State) : bool := bool_decide (s = StateUp).

Definition State_IsActive (s : State) : bool :=
  bool_decide (s = StateUp) || bool_decide (s = StateDraining)
  || bool_decide (s = StateMaintenance).

Definition CanTransitionTo (s newState : State) : bool :=
  match s with
  | StateStarting =>
      bool_decide (newState = StateUp) || bool_decide (newState = StateDown)
      || bool_decide (newState = StateMaintenance)
  | StateUp =>
      bool_decide (newState = StateDown) || bool_decide (newState = StateDraining)
      || bool_decide (newState = StateMaintenance)
  | StateDown =>
      bool_decide (newState = StateUp) || bool_decide (newState = StateMaintenance)
  | StateDraining =>
      bool_decide (newState = StateDown) || bool_decide (newState = StateMaintenance)
  | StateMaintenance =>
      bool_decide (newState = StateUp) || bool_decide (newState = StateDown)
  | StateOther _ => false
  end.

(** [AtomicState.CompareAndSwap] on the stored value. *)
Definition CompareAndSwap (v old new : State) : bool * State :=
  if bool_decide (v = old) then (true, new) else (false, v).

(** [AtomicState.Transition] run without interference: the loop ends in its
    first iteration. *)
Definition Transition (v newState : State) : bool * State :=
  if CanTransitionTo v newState then CompareAndSwap v v newState else (false, v).

(** *** The loop of [Transition] under interference *)

(** Where a goroutine stands in [Transition(newState)]: before the load, between
    the load of [current] and the compare-and-swap, or returned. *)
Inductive trans_pc :=
  | TLoad (newState : State)
  | TCas (newState current : State)
  | TDone (result : bool).

Definition Transition_step (v : State) (pc : trans_pc) : State * trans_pc :=
  match pc with
  | TLoad n => if CanTransitionTo v n then (v, TCas n v) else (v, TDone false)
  | TCas n current =>
      let '(ok, v') := CompareAndSwap v current n in
      (v', if ok then TDone true else TLoad n)
  | TDone r => (v, TDone r)
  end.

Inductive trans_sys_step : State * list trans_pc -> State * list trans_pc -> Prop :=
  | trans_sys_step_intro v ths i pc :
      ths !! i = Some pc ->
      trans_sys_step (v, ths)
        (fst (Transition_step v pc), <[i := snd (Transition_step v pc)]> ths).

(** ** Backends (backend.go) *)

Record Backend := mkBackend {
  ID : string;
  Address : string;
  Scheme : string;
  weight : Z;               (* int32 *)
  maxConns : Z;             (* int32 *)
  state : State;
  activeConns : Z;          (* int64 *)
  totalConns : Z;           (* int64 *)
  totalRequests : Z;        (* int64 *)
  totalErrors : Z;          (* int64 *)
  totalBytes : Z;           (* int64 *)
  avgLatency : Z;           (* time.Duration, int64 nanoseconds *)
  lastLatency : Z;
  lastCheck : option Z;     (* time of the last health check, if any *)
  checkFailCount : Z;       (* int32 *)
  metadata : gmap string string
}.

Definition NewBackend (id address : string) : Backend :=
  {| ID := id; Address := address; Scheme := "http"; weight := 1; maxConns := 0;
     state := StateStarting; activeConns := 0; totalConns := 0; totalRequests := 0;
     totalErrors := 0; totalBytes := 0; avgLatency := 0; lastLatency := 0;
     lastCheck := None; checkFailCount := 0; metadata := ∅ |}.

(** Field updates. *)
Definition set_state (s : State) (b : Backend) : Backend :=
  mkBackend (ID b) (Address b) (Scheme b) (weight b) (maxConns b) s (activeConns b)
    (totalConns b) (totalRequests b) (totalErrors b) (totalBytes b) (avgLatency b)
    (lastLatency b) (lastCheck b) (checkFailCount b) (metadata b).
Definition set_weight (w : Z) (b : Backend) : Backend :=
  mkBackend (ID b) (Address b) (Scheme b) w (maxConns b) (state b) (activeConns b)
    (totalConns b) (totalRequests b) (totalErrors b) (totalBytes b) (avgLatency b)
    (lastLatency b) (lastCheck b) (checkFailCount b) (metadata b).
Definition set_maxConns (n : Z) (b : Backend) : Backend :=
  mkBackend (ID b) (Address b) (Scheme b) (weight b) n (state b) (activeConns b)
    (totalConns b) (totalRequests b) (totalErrors b) (totalBytes b) (avgLatency b)
    (lastLatency b) (lastCheck b) (checkFailCount b) (metadata b).
Definition set_conns (active total : Z) (b : Backend) : Backend :=
  mkBackend (ID b) (Address b) (Scheme b) (weight b) (maxConns b) (state b) active
    total (totalRequests b) (totalErrors b) (totalBytes b) (avgLatency b)
    (lastLatency b) (lastCheck b) (checkFailCount b) (metadata b).
Definition set_requests (reqs errs bytes avg last : Z) (b : Backend) : Backend :=
  mkBackend (ID b) (Address b) (Scheme b) (weight b) (maxConns b) (state b)
    (activeConns b) (totalConns b) reqs errs bytes avg last
    (lastCheck b) (checkFailCount b) (metadata b).
Definition set_check (t : option Z) (fails : Z) (b : Backend) : Backend :=
  mkBackend (ID b) (Address b) (Scheme b) (weight b) (maxConns b) (state b)
    (activeConns b) (totalConns b) (totalRequests b) (totalErrors b) (totalBytes b)
    (avgLatency b) (lastLatency b) t fails (metadata b).
Definition set_metadata (m : gmap string string) (b : Backend) : Backend :=
  mkBackend (ID b) (Address b) (Scheme b) (weight b) (maxConns b) (state b)
    (activeConns b) (totalConns b) (totalRequests b) (totalErrors b) (totalBytes b)
    (avgLatency b) (lastLatency b) (lastCheck b) (checkFailCount b) m.

Definition SetState (s : State) (b : Backend) : Backend := set_state s b.

Definition TransitionState (newState : State) (b : Backend) : bool * Backend :=
  let '(ok, s') := Transition (state b) newState in (ok, set_state s' b).

Definition IsAvailable (b : Backend) : bool := State_IsAvailable (state b).
Definition IsHealthy (b : Backend) : bool := State_IsActive (state b).

Definition GetWeight (b : Backend) : Z := weight b.
Definition SetWeight (w : Z) (b : Backend) : Backend := set_weight w b.
Definition GetMaxConns (b : Backend) : Z := maxConns b.
Definition SetMaxConns (n : Z) (b : Backend) : Backend := set_maxConns n b.
Definition ActiveConns (b : Backend) : Z := activeConns b.

(** [AcquireConn] run without interference. *)
Definition AcquireConn (b : Backend) : bool * Backend :=
  let max := GetMaxConns b in
  if 0 <? max then
    let current := activeConns b in
    if max <=? current then (false, b)
    else (true, set_conns (i64 (current + 1)) (i64 (totalConns b + 1)) b)
  else (true, set_conns (i64 (activeConns b + 1)) (i64 (totalConns b + 1)) b).

Definition ReleaseConn (b : Backend) : Backend :=
  set_conns (i64 (activeConns b - 1)) (totalConns b) b.

(** The constants 0.9 and 0.1 of the moving average, as binary64. *)
Definition f64_0_9 : float64 := S754_finite false 8106479329266893 (-53).
Definition f64_0_1 : float64 := S754_finite false 7205759403792794 (-56).

Definition RecordRequest (latency bytes : Z) (b : Backend) : Backend :=
  let currentAvg := avgLatency b in
  let newAvg :=
    if currentAvg =? 0 then latency
    else f64_to_Z (f64_add (f64_mul f64_0_9 (f64_of_Z currentAvg))
                           (f64_mul f64_0_1 (f64_of_Z latency))) in
  set_requests (i64 (totalRequests b + 1)) (totalErrors b)
    (i64 (totalBytes b + bytes)) newAvg latency b.

Definition RecordError (b : Backend) : Backend :=
  set_requests (totalRequests b) (i64 (totalErrors b + 1)) (totalBytes b)
    (avgLatency b) (lastLatency b) b.

Definition RecordHealthCheck (now : Z) (success : bool) (b : Backend) : Backend :=
  set_check (Some now) (if success then 0 else i32 (checkFailCount b + 1)) b.

(** [LastCheck]: the zero time when no check was recorded. *)
Definition LastCheck (b : Backend) : Z := default 0 (lastCheck b).

(** Reading a missing key of a Go map gives the empty string. *)
Definition GetMetadata (key : string) (b : Backend) : string :=
  default "" (metadata b !! key).
Definition SetMetadata (key value : string) (b : Backend) : Backend :=
  set_metadata (<[key := value]> (metadata b)) b.
Definition GetAllMetadata (b : Backend) : gmap string string := metadata b.

(** stats.go *)
Record BackendStats := mkBackendStats {
  bs_ActiveConns : Z; bs_TotalRequests : Z; bs_TotalErrors : Z;
  bs_TotalBytes : Z; bs_AvgLatency : Z; bs_LastLatency : Z
}.

Definition Backend_Stats (b : Backend) : BackendStats :=
  mkBackendStats (activeConns b) (totalRequests b) (totalErrors b)
    (totalBytes b) (avgLatency b) (lastLatency b).

Definition Backend_String (b : Backend) : string := ID b +:+ "@" +:+ Address b.

(** ** [AcquireConn]/[ReleaseConn] run by many goroutines *)

(** Where a goroutine stands: outside, at the head of the retry loop with the
    limit it read, between its load of [activeConns] and its compare-and-swap,
    before the unconditional increment (no limit), before the increment of
    [totalConns], or holding a connection. *)
Inductive conn_pc :=
  | CIdle
  | CLoop (max : Z)
  | CCas (max current : Z)
  | CAddActive
  | CAddTotal
  | CHolding.

Definition conn_step_pc (b : Backend) (pc : conn_pc) : Backend * conn_pc :=
  match pc with
  | CIdle =>
      let max := GetMaxConns b in
      (b, if 0 <? max then CLoop max else CAddActive)
  | CLoop max =>
      let current := activeConns b in
      (b, if max <=? current then CIdle else CCas max current)
  | CCas max current =>
      if activeConns b =? current
      then (set_conns (i64 (current + 1)) (totalConns b) b, CAddTotal)
      else (b, CLoop max)
  | CAddActive => (set_conns (i64 (activeConns b + 1)) (totalConns b) b, CAddTotal)
  | CAddTotal => (set_conns (activeConns b) (i64 (totalConns b + 1)) b, CHolding)
  | CHolding => (ReleaseConn b, CIdle)
  end.

Inductive conn_sys_step : Backend * list conn_pc -> Backend * list conn_pc -> Prop :=
  | conn_sys_step_intro b ths i pc :
      ths !! i = Some pc ->
      conn_sys_step (b, ths)
        (fst (conn_step_pc b pc), <[i := snd (conn_step_pc b pc)]> ths).

(** A goroutine that counts in [activeConns]. *)
Definition holds_conn (pc : conn_pc) : bool :=
  match pc with CAddTotal | CHolding => true | _ => false end.

(** [n] consecutive steps of one goroutine. *)
Fixpoint conn_run (n : nat) (b : Backend) (pc : conn_pc) : Backend * conn_pc :=
  match n with
  | O => (b, pc)
  | S n => let '(b', pc') := conn_step_pc b pc in conn_run n b' pc'
  end.

(** ** Theorems *)

Definition can_transition (a b : State) : Prop := CanTransitionTo a b = true.

Definition trans_returned_true (pc : trans_pc) : bool :=
  match pc with TDone true => true | _ => false end.

Definition trans_fresh (pc : trans_pc) : Prop :=
  match pc with TLoad _ => True | _ => False end.

Definition trans_pc_ok (pc : trans_pc) : Prop :=
  match pc with TCas n current => can_transition current n | _ => True end.

(** [StateStarting] is the target of no transition. *)
Lemma no_transition_to_starting s : ~ can_transition s StateStarting.
Proof. by destruct s. Qed.

(** One step either leaves the stored state alone and lets nobody return
    [true], or is one legal transition after which its goroutine returns. *)
Lemma Transition_step_effect v pc :
  trans_pc_ok pc ->
  trans_pc_ok (snd (Transition_step v pc)) /\
  (fst (Transition_step v pc) = v /\
   trans_returned_true (snd (Transition_step v pc)) = trans_returned_true pc \/
   can_transition v (fst (Transition_step v pc)) /\
   trans_returned_true pc = false /\
   trans_returned_true (snd (Transition_step v pc)) = true).
Proof.
  destruct pc as [n|n c|r]; simpl; intros H.
  - destruct (CanTransitionTo v n) eqn:E; simpl; naive_solver.
  - unfold CompareAndSwap. case_bool_decide; simpl; naive_solver.
  - naive_solver.
Qed.

Lemma trans_sys_inv v0 ths0 c :
  Forall trans_fresh ths0 -> rtc trans_sys_step (v0, ths0) c ->
  Forall trans_pc_ok (snd c) /\
  nsteps can_transition (countb trans_returned_true (snd c)) v0 (fst c).
Proof.
  intros Hf Hr. revert c Hr. apply (rtc_ind_r (fun c => Forall trans_pc_ok (snd c) /\
    nsteps can_transition (countb trans_returned_true (snd c)) v0 (fst c))).
  - simpl. split.
    + eapply Forall_impl; [done|]. by intros [].
    + replace (countb trans_returned_true ths0) with 0%nat; [constructor|].
      induction Hf as [|pc l Hp _ IH]; [done|]. rewrite countb_cons, <- IH. by destruct pc.
  - intros c c' _ Hs [Hok Hn]. destruct Hs as [v ths i pc Hi]; simpl in *.
    assert (Hpc : trans_pc_ok pc) by (eapply Forall_lookup_1; eauto).
    destruct (Transition_step_effect v pc Hpc) as [Hok' Heff].
    split; [by apply Forall_insert|].
    pose proof (countb_insert trans_returned_true ths i pc
                  (snd (Transition_step v pc)) Hi) as Hc.
    destruct Heff as [[-> E]|(Hcan & E1 & E2)].
    + rewrite E in Hc. by replace (countb _ (<[_:=_]> _)) with (countb trans_returned_true ths) by lia.
    + rewrite E1, E2 in Hc.
      replace (countb _ (<[_:=_]> _)) with (S (countb trans_returned_true ths)) by lia.
      eapply nsteps_r; eauto.
Qed.

(** The invariant of the connection counters under a fixed positive limit. *)
Definition conn_pc_ok (limit : Z) (pc : conn_pc) : Prop :=
  match pc with
  | CLoop m => m = limit
  | CCas m c => m = limit /\ c < limit
  | CAddActive => False
  | _ => True
  end.

Definition conn_inv (limit : Z) (c : Backend * list conn_pc) : Prop :=
  maxConns (fst c) = limit /\
  activeConns (fst c) = Z.of_nat (countb holds_conn (snd c)) /\
  activeConns (fst c) <= limit /\
  Forall (conn_pc_ok limit) (snd c).

Lemma conn_step_inv limit c c' :
  0 < limit -> in_i32 limit -> conn_inv limit c -> conn_sys_step c c' -> conn_inv limit c'.
Proof.
  intros Hpos Hi32 (Hmax & Hact & Hle & Hok) Hs. destruct Hs as [b ths i pc Hi]; simpl in *.
  assert (Hpc : conn_pc_ok limit pc) by (eapply Forall_lookup_1; eauto).
  pose proof (countb_insert holds_conn ths i pc (snd (conn_step_pc b pc)) Hi) as Hc.
  assert (Hh : holds_conn pc = true -> (1 <= countb holds_conn ths)%nat)
    by (intros; by eapply countb_pos).
  assert (Hsmall : forall z, 0 <= z <= limit -> i64 z = z).
  { intros z Hz. apply i64_small. unfold in_i32, in_i64 in *. lia. }
  destruct pc as [|m|m cur| | |]; unfold conn_step_pc, ReleaseConn, GetMaxConns in *;
    simpl in *; unfold conn_inv; simpl; try done.
  - rewrite Hmax in *. rewrite (proj2 (Z.ltb_lt 0 limit)) in * by lia. simpl in *.
    rewrite Hact. split_and!; [done|lia|lia|by apply Forall_insert].
  - subst m. destruct (limit <=? activeConns b) eqn:E; b2p; simpl in *;
      (split_and!; [done|lia|lia|apply Forall_insert; simpl; auto with lia]).
  - destruct Hpc as [-> Hcur]. destruct (activeConns b =? cur) eqn:E; b2p; simpl in *.
    + rewrite Hsmall by lia. split_and!; [done|lia|lia|by apply Forall_insert].
    + split_and!; [done|lia|lia|by apply Forall_insert].
  - split_and!; [done|lia|lia|by apply Forall_insert].
  - rewrite Hsmall by lia. specialize (Hh eq_refl).
    split_and!; [done|lia|lia|by apply Forall_insert].
Qed.

(** C4: under every interleaving of any number of goroutines that acquire and
    release connections of a backend with a positive limit, [activeConns] is
    exactly the number of goroutines that hold (or have just reserved) a
    connection, and it never exceeds [maxConns]. *)
Theorem acquire_conn_respects_limit b n c :
  0 < maxConns b -> in_i32 (maxConns b) -> activeConns b = 0 ->
  rtc conn_sys_step (b, replicate n CIdle) c ->
  activeConns (fst c) = Z.of_nat (countb holds_conn (snd c)) /\
  activeConns (fst c) <= maxConns b.
Proof.
  intros Hpos Hi Ha Hr.
  assert (Hinv : conn_inv (maxConns b) c).
  { revert c Hr. apply (rtc_ind_r (conn_inv (maxConns b))).
    - unfold conn_inv; simpl. split_and!; [done| |lia|by apply Forall_replicate].
      rewrite Ha. by induction n.
    - intros. by eapply conn_step_inv. }
  destruct Hinv as (_ & H1 & H2 & _). done.
Qed.

(** under every interleaving of any number of goroutines calling
    [Transition], the stored state only ever moves along the edges of
    [CanTransitionTo], once per call that returned [true]. *)
Theorem transition_follows_state_machine v targets c :
  rtc trans_sys_step (v, TLoad <$> targets) c ->
  nsteps can_transition (countb trans_returned_true (snd c)) v (fst c).
Proof.
  intros Hr. eapply trans_sys_inv; [|done].
  apply Forall_fmap, Forall_true. done.
Qed.

(** A goroutine that is not interrupted computes [AcquireConn]: it holds a
    connection with the updated counters when [AcquireConn] returns [true], and
    is back outside with the backend unchanged when it returns [false]. *)
Theorem acquire_conn_solo b :
  exists n, (0 < n)%nat /\ conn_run n b CIdle =
    (snd (AcquireConn b), if fst (AcquireConn b) then CHolding else CIdle).
Proof.
  unfold AcquireConn, GetMaxConns.
  destruct (0 <? maxConns b) eqn:E1.
  - destruct (maxConns b <=? activeConns b) eqn:E2.
    + exists 2%nat. split; [lia|]. simpl. unfold GetMaxConns. rewrite E1. simpl. by rewrite E2.
    + exists 4%nat. split; [lia|]. simpl. unfold GetMaxConns. rewrite E1. simpl. rewrite E2. simpl.
      by rewrite Z.eqb_refl.
  - exists 3%nat. split; [lia|]. simpl. unfold GetMaxConns. by rewrite E1.
Qed.

(** ** Witnesses *)

Definition limited_backend : Backend := set_maxConns 1 (NewBackend "b1" "10.0.0.1:80").

(** Two goroutines race for the single slot: the first one gets it, the second
    one is refused. *)
Lemma acquire_conn_respects_limit_witness :
  rtc conn_sys_step (limited_backend, replicate 2 CIdle)
    (set_conns 1 0 limited_backend, [CAddTotal; CIdle]) /\ 1 <= maxConns limited_backend.
Proof.
  assert (H : rtc conn_sys_step (limited_backend, replicate 2 CIdle)
    (set_conns 1 0 limited_backend, [CAddTotal; CIdle])).
  { eapply rtc_l; [by apply (conn_sys_step_intro _ _ 0 CIdle)|].
    eapply rtc_l; [by apply (conn_sys_step_intro _ _ 0 (CLoop 1))|].
    eapply rtc_l; [by apply (conn_sys_step_intro _ _ 0 (CCas 1 0))|].
    eapply rtc_l; [by apply (conn_sys_step_intro _ _ 1 CIdle)|].
    eapply rtc_l; [by apply (conn_sys_step_intro _ _ 1 (CLoop 1))|].
    apply rtc_refl. }
  split; [exact H|].
  apply (acquire_conn_respects_limit limited_backend 2 _) in H; [|by vm_compute|by vm_compute|by vm_compute].
  apply H.
Defined.

(** Two goroutines drain and disable the same [Up] backend: both succeed, one
    after the other. *)
Lemma transition_follows_state_machine_witness :
  nsteps can_transition 2 StateUp StateMaintenance.
Proof.
  apply (transition_follows_state_machine StateUp [StateDraining; StateMaintenance]
    (StateMaintenance, [TDone true; TDone true])).
  eapply rtc_l; [by apply (trans_sys_step_intro _ _ 0 (TLoad StateDraining))|].
  eapply rtc_l; [by apply (trans_sys_step_intro _ _ 1 (TLoad StateMaintenance))|].
  eapply rtc_l; [by apply (trans_sys_step_intro _ _ 0 (TCas StateDraining StateUp))|].
  eapply rtc_l; [by apply (trans_sys_step_intro _ _ 1 (TCas StateMaintenance StateUp))|].
  eapply rtc_l; [by apply (trans_sys_step_intro _ _ 1 (TLoad StateMaintenance))|].
  eapply rtc_l; [by apply (trans_sys_step_intro _ _ 1 (TCas StateMaintenance StateDraining))|].
  apply rtc_refl.
Defined.
