(* ===== verification/Errors.v ===== *)
(** * Structured errors: [pkg/errors/errors.go]

    Error codes, the sentinel errors, wrapping, context fields and the matching
    functions [Is], [As], [CodeOf]. *)
From S2P Require Import Prelude.

(** [type Code int]: the named codes and any other integer. *)
Inductive Code :=
  | CodeUnknown
  | CodeInternal
  | CodeInvalidArg
  | CodeNotFound
  | CodeAlreadyExist
  | CodeUnavailable
  | CodeTimeout
  | CodeCanceled
  | CodeConfigInvalid
  | CodeConfigParseError
  | CodeConfigNotFound
  | CodeConfigValidation
  | CodeBackendNotFound
  | CodePoolNotFound
  | CodeRouteNotFound
  | CodeBackendUnavailable
  | CodeBackendUnhealthy
  | CodePoolEmpty
  | CodeConnectionRefused
  | CodeConnectionReset
  | CodeConnectionTimeout
  | CodeConnectionClosed
  | CodeTLSHandshake
  | CodeCertificate
  | CodeProtocolError
  | CodeInvalidRequest
  | CodeInvalidResponse
  | CodeHTTPError
  | CodeRateLimitExceeded
  | CodeCircuitOpen
  | CodeAuthRequired
  | CodeAuthFailed
  | CodeForbidden
  | CodeWAFBlocked
  | CodeClusterNotReady
  | CodeNodeNotFound
  | CodeRaftError
  | CodeGossipError
  | CodeOther (n : Z).

#[export] Instance Code_eq_dec : EqDecision Code.
Proof. solve_decision. Defined.

(** The integer value of a code. *)
Definition Code_int (c : Code) : Z :=
  match c with
  | CodeUnknown => 0
  | CodeInternal => 1
  | CodeInvalidArg => 2
  | CodeNotFound => 3
  | CodeAlreadyExist => 4
  | CodeUnavailable => 5
  | CodeTimeout => 6
  | CodeCanceled => 7
  | CodeConfigInvalid => 100
  | CodeConfigParseError => 101
  | CodeConfigNotFound => 102
  | CodeConfigValidation => 103
  | CodeBackendNotFound => 200
  | CodePoolNotFound => 201
  | CodeRouteNotFound => 202
  | CodeBackendUnavailable => 203
  | CodeBackendUnhealthy => 204
  | CodePoolEmpty => 205
  | CodeConnectionRefused => 300
  | CodeConnectionReset => 301
  | CodeConnectionTimeout => 302
  | CodeConnectionClosed => 303
  | CodeTLSHandshake => 304
  | CodeCertificate => 305
  | CodeProtocolError => 400
  | CodeInvalidRequest => 401
  | CodeInvalidResponse => 402
  | CodeHTTPError => 403
  | CodeRateLimitExceeded => 500
  | CodeCircuitOpen => 501
  | CodeAuthRequired => 502
  | CodeAuthFailed => 503
  | CodeForbidden => 504
  | CodeWAFBlocked => 505
  | CodeClusterNotReady => 600
  | CodeNodeNotFound => 601
  | CodeRaftError => 602
  | CodeGossipError => 603
  | CodeOther n => n
  end.

Definition Code_String (c : Code) : string :=
  match c with
  | CodeUnknown => "UNKNOWN"
  | CodeInternal => "INTERNAL"
  | CodeInvalidArg => "INVALID_ARGUMENT"
  | CodeNotFound => "NOT_FOUND"
  | CodeAlreadyExist => "ALREADY_EXISTS"
  | CodeUnavailable => "UNAVAILABLE"
  | CodeTimeout => "TIMEOUT"
  | CodeCanceled => "CANCELED"
  | CodeConfigInvalid => "CONFIG_INVALID"
  | CodeConfigParseError => "CONFIG_PARSE_ERROR"
  | CodeConfigNotFound => "CONFIG_NOT_FOUND"
  | CodeConfigValidation => "CONFIG_VALIDATION"
  | CodeBackendNotFound => "BACKEND_NOT_FOUND"
  | CodePoolNotFound => "POOL_NOT_FOUND"
  | CodeRouteNotFound => "ROUTE_NOT_FOUND"
  | CodeBackendUnavailable => "BACKEND_UNAVAILABLE"
  | CodeBackendUnhealthy => "BACKEND_UNHEALTHY"
  | CodePoolEmpty => "POOL_EMPTY"
  | CodeConnectionRefused => "CONNECTION_REFUSED"
  | CodeConnectionReset => "CONNECTION_RESET"
  | CodeConnectionTimeout => "CONNECTION_TIMEOUT"
  | CodeConnectionClosed => "CONNECTION_CLOSED"
  | CodeTLSHandshake => "TLS_HANDSHAKE"
  | CodeCertificate => "CERTIFICATE"
  | CodeProtocolError => "PROTOCOL_ERROR"
  | CodeInvalidRequest => "INVALID_REQUEST"
  | CodeInvalidResponse => "INVALID_RESPONSE"
  | CodeHTTPError => "HTTP_ERROR"
  | CodeRateLimitExceeded => "RATE_LIMIT_EXCEEDED"
  | CodeCircuitOpen => "CIRCUIT_OPEN"
  | CodeAuthRequired => "AUTH_REQUIRED"
  | CodeAuthFailed => "AUTH_FAILED"
  | CodeForbidden => "FORBIDDEN"
  | CodeWAFBlocked => "WAF_BLOCKED"
  | CodeClusterNotReady => "CLUSTER_NOT_READY"
  | CodeNodeNotFound => "NODE_NOT_FOUND"
  | CodeRaftError => "RAFT_ERROR"
  | CodeGossipError => "GOSSIP_ERROR"
  | CodeOther n => "CODE_" +:+ pretty n
  end.

(** An error value: [nil] is [None] of [option error]; [StdError i m] is an error
    of another type (one that wraps nothing), compared by identity [i], with text [m]; [OlbError] is an
    [*Error] with its code, message, cause and context. *)
Inductive error :=
  | StdError (ident : positive) (text : string)
  | OlbError (code : Code) (message : string) (cause : option error)
             (context : gmap string string).

(** [New] and [Wrap]. *)
Definition New (code : Code) (message : string) : error :=
  OlbError code message None ∅.

Definition Wrap (err : option error) (code : Code) (message : string) : option error :=
  match err with
  | None => None
  | Some e => Some (OlbError code message (Some e) ∅)
  end.

(** [(e *Error).Error]. *)
Fixpoint Error_string (e : error) : string :=
  match e with
  | StdError _ m => m
  | OlbError c m (Some cause) _ =>
      Code_String c +:+ ": " +:+ m +:+ ": " +:+ Error_string cause
  | OlbError c m None _ => Code_String c +:+ ": " +:+ m
  end.

(** [errors.WithContext]: adds a field to an [*Error], leaves any other error
    alone. *)
Definition WithContext (e : error) (key value : string) : error :=
  match e with
  | OlbError c m cause ctx => OlbError c m cause (<[key := value]> ctx)
  | StdError _ _ => e
  end.

(** [(e *Error).WithContextMap]: the new fields win over the old ones. *)
Definition WithContextMap (e : error) (ctx' : gmap string string) : error :=
  match e with
  | OlbError c m cause ctx => OlbError c m cause (ctx' ∪ ctx)
  | StdError _ _ => e
  end.

(** Identity of two error values, where it is not subsumed by the comparison of
    codes: pointers to the same [*Error] have the same code. *)
Definition same_std (e target : error) : bool :=
  match e, target with
  | StdError i _, StdError j _ => Pos.eqb i j
  | _, _ => false
  end.

Definition same_code (e target : error) : bool :=
  match e, target with
  | OlbError c _ _ _, OlbError c' _ _ _ => bool_decide (c = c')
  | _, _ => false
  end.

(** [(e *Error).Is]: the code, or the direct cause, or the cause chain while it
    consists of [*Error]s. *)
Fixpoint Error_Is (e target : error) : bool :=
  match e with
  | StdError _ _ => false
  | OlbError _ _ cause _ =>
      same_code e target ||
      match cause with
      | None => false
      | Some ce => same_std ce target || Error_Is ce target
      end
  end.

(** [errors.Is] on non-nil errors: identity, the [Is] method, then the unwrapped
    cause. *)
Fixpoint Is_nonnil (err target : error) : bool :=
  same_std err target || Error_Is err target ||
  match err with
  | OlbError _ _ (Some cause) _ => Is_nonnil cause target
  | _ => false
  end.

Definition Is (err target : option error) : bool :=
  match err, target with
  | None, None => false
  | _, None => false
  | None, Some _ => false
  | Some e, Some t => Is_nonnil e t
  end.

(** [errors.As] into an [*Error]: the first [*Error] of the chain. *)
Definition As (err : error) : option error :=
  match err with
  | OlbError _ _ _ _ => Some err
  | StdError _ _ => None
  end.

Definition CodeOf (err : option error) : Code :=
  match err with
  | Some (OlbError c _ _ _) => c
  | _ => CodeUnknown
  end.

Definition IsCode (err : option error) (code : Code) : bool :=
  bool_decide (CodeOf err = code).

(** The sentinel errors. *)
Definition ErrUnknown : error := New CodeUnknown "unknown error".
Definition ErrInternal : error := New CodeInternal "internal error".
Definition ErrInvalidArg : error := New CodeInvalidArg "invalid argument".
Definition ErrNotFound : error := New CodeNotFound "not found".
Definition ErrAlreadyExist : error := New CodeAlreadyExist "already exists".
Definition ErrUnavailable : error := New CodeUnavailable "unavailable".
Definition ErrTimeout : error := New CodeTimeout "timeout".
Definition ErrCanceled : error := New CodeCanceled "canceled".
Definition ErrConfigInvalid : error := New CodeConfigInvalid "invalid configuration".
Definition ErrConfigParseError : error := New CodeConfigParseError "configuration parse error".
Definition ErrConfigNotFound : error := New CodeConfigNotFound "configuration not found".
Definition ErrConfigValidation : error := New CodeConfigValidation "configuration validation failed".
Definition ErrBackendNotFound : error := New CodeBackendNotFound "backend not found".
Definition ErrPoolNotFound : error := New CodePoolNotFound "pool not found".
Definition ErrRouteNotFound : error := New CodeRouteNotFound "route not found".
Definition ErrBackendUnavailable : error := New CodeBackendUnavailable "backend unavailable".
Definition ErrBackendUnhealthy : error := New CodeBackendUnhealthy "backend unhealthy".
Definition ErrPoolEmpty : error := New CodePoolEmpty "pool is empty".
Definition ErrConnectionRefused : error := New CodeConnectionRefused "connection refused".
Definition ErrConnectionReset : error := New CodeConnectionReset "connection reset".
Definition ErrConnectionTimeout : error := New CodeConnectionTimeout "connection timeout".
Definition ErrConnectionClosed : error := New CodeConnectionClosed "connection closed".
Definition ErrTLSHandshake : error := New CodeTLSHandshake "TLS handshake failed".
Definition ErrCertificate : error := New CodeCertificate "certificate error".
Definition ErrProtocolError : error := New CodeProtocolError "protocol error".
Definition ErrInvalidRequest : error := New CodeInvalidRequest "invalid request".
Definition ErrInvalidResponse : error := New CodeInvalidResponse "invalid response".
Definition ErrHTTPError : error := New CodeHTTPError "HTTP error".
Definition ErrRateLimitExceeded : error := New CodeRateLimitExceeded "rate limit exceeded".
Definition ErrCircuitOpen : error := New CodeCircuitOpen "circuit breaker open".
Definition ErrAuthRequired : error := New CodeAuthRequired "authentication required".
Definition ErrAuthFailed : error := New CodeAuthFailed "authentication failed".
Definition ErrForbidden : error := New CodeForbidden "forbidden".
Definition ErrWAFBlocked : error := New CodeWAFBlocked "blocked by WAF".
Definition ErrClusterNotReady : error := New CodeClusterNotReady "cluster not ready".
Definition ErrNodeNotFound : error := New CodeNodeNotFound "node not found".
Definition ErrRaftError : error := New CodeRaftError "raft error".
Definition ErrGossipError : error := New CodeGossipError "gossip error".

(** Results of fallible operations. *)
Abbreviation result A := (error + A)%type.

(** ** Theorems *)

(** The causes of an error, outermost first, the error itself included. *)
Fixpoint chain (e : error) : list error :=
  e :: match e with
       | OlbError _ _ (Some cause) _ => chain cause
       | _ => []
       end.

Definition matches (target e : error) : Prop :=
  same_std e target = true \/ same_code e target = true.

(** Induction over the chain of causes. *)
Lemma error_chain_ind (P : error -> Prop) :
  (forall i m, P (StdError i m)) ->
  (forall c m ctx, P (OlbError c m None ctx)) ->
  (forall c m cause ctx, P cause -> P (OlbError c m (Some cause) ctx)) ->
  forall e, P e.
Proof.
  intros H1 H2 H3. fix IH 1. intros [i m|c m [cause|] ctx]; [apply H1| |apply H2].
  apply H3, IH.
Qed.

Lemma Error_Is_sound e target :
  Error_Is e target = true -> Exists (matches target) (chain e).
Proof.
  induction e as [i m|c m ctx|c m cause ctx IH] using error_chain_ind; simpl; intros H; [done| |].
  - rewrite orb_false_r in H. constructor. by right.
  - apply orb_true_iff in H as [H|[H|H]%orb_true_iff]; [constructor; by right| |].
    + apply Exists_cons_tl. destruct cause; simpl in *; constructor; by left.
    + apply Exists_cons_tl. by apply IH.
Qed.

(** [errors.Is] matches exactly when some error of the cause chain has the
    target's code or is the target itself. *)
Theorem is_matches_cause_chain err target :
  Is (Some err) (Some target) = true <-> Exists (matches target) (chain err).
Proof.
  simpl. induction err as [i m|c m ctx|c m cause ctx IH] using error_chain_ind; simpl.
  - rewrite !orb_false_r, Exists_cons, Exists_nil. unfold matches. simpl. naive_solver.
  - rewrite !orb_false_r, Exists_cons, Exists_nil. unfold matches. simpl. naive_solver.
  - rewrite Exists_cons, <- IH. unfold matches at 1. simpl.
    rewrite !orb_true_iff. split; [|naive_solver].
    assert (Hstd : same_std cause target = true -> Is_nonnil cause target = true).
    { intros H. apply IH. destruct cause; simpl; constructor; by left. }
    assert (Hm : Error_Is cause target = true -> Is_nonnil cause target = true).
    { intros H. apply IH. by apply Error_Is_sound. }
    naive_solver.
Qed.
