(* ===== verification/Http.v ===== *)
(** * HTTP requests and Go string functions

    The parts of Go's standard library that the request path of the repository
    uses: the fields of [http.Request] that routing and session affinity read,
    canonical header names, and the functions of package [strings]. *)
From S2P Require Import Prelude.
From Stdlib Require Import Ascii.

(** ** Characters *)

Definition byte_of (c : ascii) : Z := Z.of_nat (nat_of_ascii c).

Definition is_upper (c : ascii) : bool := (65 <=? byte_of c) && (byte_of c <=? 90).
Definition is_lower (c : ascii) : bool := (97 <=? byte_of c) && (byte_of c <=? 122).
Definition is_digit (c : ascii) : bool := (48 <=? byte_of c) && (byte_of c <=? 57).

Definition to_upper (c : ascii) : ascii :=
  if is_lower c then ascii_of_nat (nat_of_ascii c - 32) else c.
Definition to_lower (c : ascii) : ascii :=
  if is_upper c then ascii_of_nat (nat_of_ascii c + 32) else c.

(** ** Package [strings] *)

(** [s\[0\] == c] for a non-empty [s]; [false] on the empty string. *)
Definition starts_with (c : ascii) (s : string) : bool :=
  match s with
  | String a _ => Ascii.eqb a c
  | EmptyString => false
  end.

(** [s\[1:\]]. *)
Definition tail (s : string) : string :=
  match s with String _ r => r | EmptyString => EmptyString end.

(** [s\[len(s)-1\] == c] for a non-empty [s]. *)
Fixpoint ends_with (c : ascii) (s : string) : bool :=
  match s with
  | EmptyString => false
  | String a EmptyString => Ascii.eqb a c
  | String _ r => ends_with c r
  end.

(** [s\[:len(s)-1\]]. *)
Fixpoint init (s : string) : string :=
  match s with
  | EmptyString => EmptyString
  | String _ EmptyString => EmptyString
  | String a r => String a (init r)
  end.

(** [strings.Split(s, string(c))]: always at least one part. *)
Fixpoint Split (c : ascii) (s : string) : list string :=
  match s with
  | EmptyString => [EmptyString]
  | String a r =>
      if Ascii.eqb a c then EmptyString :: Split c r
      else match Split c r with
           | p :: ps => String a p :: ps
           | [] => [String a EmptyString]
           end
  end.

(** [strings.Join(parts, string(c))]. *)
Fixpoint Join (c : ascii) (parts : list string) : string :=
  match parts with
  | [] => EmptyString
  | [p] => p
  | p :: ps => p +:+ String c (Join c ps)
  end.

(** [strings.LastIndex(s, string(c))]: position of the last [c], if any. *)
Fixpoint LastIndex (c : ascii) (s : string) : option nat :=
  match s with
  | EmptyString => None
  | String a r =>
      match LastIndex c r with
      | Some n => Some (S n)
      | None => if Ascii.eqb a c then Some 0%nat else None
      end
  end.

(** [s\[:n\]]. *)
Fixpoint string_take (n : nat) (s : string) : string :=
  match n, s with
  | S n, String a r => String a (string_take n r)
  | _, _ => EmptyString
  end.

(** ** Requests *)

Record Request := mkRequest {
  Method : string;
  Host : string;
  URLHost : string;
  URLPath : string;
  Header : gmap string (list string);   (* canonical names *)
  Cookies : list (string * string);     (* as parsed from the Cookie headers *)
  Query : list (string * string)        (* as parsed from the raw query *)
}.

(** Bytes that may occur in a header field name. *)
Definition valid_header_byte (c : ascii) : bool :=
  is_upper c || is_lower c || is_digit c ||
  existsb (fun b => byte_of c =? b)
    [33; 35; 36; 37; 38; 39; 42; 43; 45; 46; 94; 95; 96; 124; 126].

Fixpoint canonical_bytes (upper : bool) (s : string) : string :=
  match s with
  | EmptyString => EmptyString
  | String a r =>
      String (if upper then to_upper a else to_lower a)
             (canonical_bytes (byte_of a =? 45) r)
  end.

Fixpoint all_valid (s : string) : bool :=
  match s with
  | EmptyString => true
  | String a r => valid_header_byte a && all_valid r
  end.

(** [textproto.CanonicalMIMEHeaderKey]. *)
Definition CanonicalMIMEHeaderKey (s : string) : string :=
  if all_valid s then canonical_bytes true s else s.

(** [Header.Get]: the first value under the canonical name, or the empty string. *)
Definition Header_Get (h : gmap string (list string)) (key : string) : string :=
  match h !! CanonicalMIMEHeaderKey key with
  | Some (v :: _) => v
  | _ => ""
  end.

(** [http.Header]: the keys are canonical when they come from these functions. *)
Notation headers := (gmap string (list string)).

Definition Header_Set (key value : string) (h : headers) : headers := <[CanonicalMIMEHeaderKey key := [value]]> h.
Definition Header_Add (key value : string) (h : headers) : headers :=
  <[CanonicalMIMEHeaderKey key := default [] (h !! CanonicalMIMEHeaderKey key) ++ [value]]> h.
Definition Header_Del (key : string) (h : headers) : headers := delete (CanonicalMIMEHeaderKey key) h.

(** [Header.Values]. *)
Definition Header_Values (h : headers) (key : string) : list string := default [] (h !! CanonicalMIMEHeaderKey key).

(** First value of a list of name/value pairs. *)
Fixpoint pair_get (name : string) (l : list (string * string)) : option string :=
  match l with
  | [] => None
  | (k, v) :: r => if bool_decide (k = name) then Some v else pair_get name r
  end.

(** [r.Cookie(name)]: [None] stands for [http.ErrNoCookie]. *)
Definition Cookie (name : string) (r : Request) : option string :=
  if bool_decide (name = "") then None else pair_get name (Cookies r).

(** [r.URL.Query().Get(name)]. *)
Definition Query_Get (name : string) (r : Request) : string :=
  default "" (pair_get name (Query r)).

(** ** Lemmas on [Split] and [Join] *)

Lemma Split_nonempty c s : Split c s <> [].
Proof. destruct s as [|a s]; simpl; [done|]. case_match; [done|]. by case_match. Qed.

Lemma Join_Split c s : Join c (Split c s) = s.
Proof.
  induction s as [|a s IH]; [done|]. simpl.
  pose proof (Split_nonempty c s) as Hne.
  destruct (Ascii.eqb_spec a c) as [->|]; destruct (Split c s) as [|p ps]; try done.
  - simpl. by rewrite <- IH.
  - rewrite <- IH. by destruct ps.
Qed.

Example canonical_example : CanonicalMIMEHeaderKey "x-bACKEND-id" = "X-Backend-Id".
Proof. reflexivity. Qed.
