(* ===== verification/Bytes.v ===== *)
(** * Byte slices and computations that can fail or panic

    What the wire formats of the repository use of Go: byte slices with their
    bounds checks, [encoding/binary] in big-endian order, [copy] into a buffer of
    fixed size, and functions that return an error or panic.  A byte is an integer
    below 256. *)
From S2P Require Import Prelude Http.
From Stdlib Require Import Ascii.

Declare Scope go_scope.
Delimit Scope go_scope with go.

(** ** Results *)

(** [Err e] is a returned error; [e] is the format string of its message.  [Panic]
    is a run-time panic, here an index or slice expression out of range. *)
Inductive go (A : Type) :=
  | Ok (a : A)
  | Err (e : string)
  | Panic.
Arguments Ok {A} a.
Arguments Err {A} e.
Arguments Panic {A}.

Definition go_bind {A B} (m : go A) (k : A -> go B) : go B :=
  match m with
  | Ok a => k a
  | Err e => Err e
  | Panic => Panic
  end.

Notation "'let*' x ':=' m 'in' k" := (go_bind m (fun x => k))
  (at level 10, x binder, m at level 100, k at level 200) : go_scope.
Open Scope go_scope.

(** [if cond { return fmt.Errorf(e) }]. *)
Definition check {A} (cond : bool) (e : string) (k : go A) : go A :=
  if cond then Err e else k.

(** ** Slices *)

Definition len {A} (l : list A) : Z := Z.of_nat (length l).

(** [l\[lo:hi\]].  The models never slice beyond the length into the spare capacity. *)
Definition slice {A} (l : list A) (lo hi : Z) : go (list A) :=
  if (0 <=? lo) && (lo <=? hi) && (hi <=? len l)
  then Ok (take (Z.to_nat (hi - lo)) (drop (Z.to_nat lo) l))
  else Panic.

(** [l\[lo:\]]. *)
Definition slice_from {A} (l : list A) (lo : Z) : go (list A) := slice l lo (len l).

(** [l\[i\]]. *)
Definition index {A} (l : list A) (i : Z) : go A :=
  match slice_get l i with
  | Some x => Ok x
  | None => Panic
  end.

(** [copy(buf\[off:off+len(src)\], src)]: the bytes of [src] written at [off]. *)
Definition write_at {A} (buf : list A) (off : Z) (src : list A) : go (list A) :=
  if (0 <=? off) && (off + len src <=? len buf)
  then Ok (take (Z.to_nat off) buf ++ src ++ drop (Z.to_nat (off + len src)) buf)
  else Panic.

(** ** Bytes and strings *)

Definition is_byte (b : Z) : Prop := 0 <= b < 256.

Definition u8 (z : Z) : Z := z mod 2 ^ 8.
Definition u16 (z : Z) : Z := z mod 2 ^ 16.

(** [\[\]byte(s)]. *)
Fixpoint bytes_of (s : string) : list Z :=
  match s with
  | EmptyString => []
  | String c r => byte_of c :: bytes_of r
  end.

(** [string(bs)]. *)
Fixpoint string_of (bs : list Z) : string :=
  match bs with
  | [] => EmptyString
  | b :: r => String (ascii_of_nat (Z.to_nat b)) (string_of r)
  end.

(** [len(s)]. *)
Definition slen (s : string) : Z := Z.of_nat (String.length s).

(** ** [encoding/binary], big-endian *)

Definition PutUint16 (v : Z) : list Z := [u8 (v / 2 ^ 8); u8 v].
Definition PutUint32 (v : Z) : list Z :=
  [u8 (v / 2 ^ 24); u8 (v / 2 ^ 16); u8 (v / 2 ^ 8); u8 v].

Definition Uint16 (b : list Z) : go Z :=
  let* b0 := index b 0 in
  let* b1 := index b 1 in
  Ok (b0 * 2 ^ 8 + b1).

Definition Uint32 (b : list Z) : go Z :=
  let* b0 := index b 0 in
  let* b1 := index b 1 in
  let* b2 := index b 2 in
  let* b3 := index b 3 in
  Ok (b0 * 2 ^ 24 + b1 * 2 ^ 16 + b2 * 2 ^ 8 + b3).

(** ** Lemmas *)

Lemma len_nonneg {A} (l : list A) : 0 <= len l.
Proof. unfold len. lia. Qed.

Lemma len_app {A} (l k : list A) : len (l ++ k) = len l + len k.
Proof. unfold len. rewrite length_app. lia. Qed.

Lemma len_cons {A} (x : A) l : len (x :: l) = 1 + len l.
Proof. unfold len. simpl. lia. Qed.

Lemma len_nil {A} : len (@nil A) = 0.
Proof. done. Qed.

Lemma len_replicate {A} n (x : A) : len (replicate n x) = Z.of_nat n.
Proof. unfold len. by rewrite length_replicate. Qed.

Lemma length_bytes_of s : length (bytes_of s) = String.length s.
Proof. induction s as [|c s IH]; simpl; [done|]. by rewrite IH. Qed.

Lemma len_bytes_of s : len (bytes_of s) = slen s.
Proof. unfold len, slen. by rewrite length_bytes_of. Qed.

Lemma slen_nonneg s : 0 <= slen s.
Proof. unfold slen. lia. Qed.

Lemma PutUint16_len v : len (PutUint16 v) = 2.
Proof. done. Qed.

Lemma PutUint32_len v : len (PutUint32 v) = 4.
Proof. done. Qed.

(** The rewriting rules that compute lengths. *)
Ltac lens :=
  repeat first [ rewrite len_app | rewrite len_cons | rewrite @len_nil
               | rewrite len_bytes_of | rewrite PutUint16_len | rewrite PutUint32_len
               | rewrite len_replicate ].

(** Brings the facts [0 <= len _] and [0 <= slen _] into scope. *)
Ltac len_facts :=
  repeat match goal with
  | |- context [len ?l] =>
      lazymatch goal with _ : 0 <= len l |- _ => fail | _ => pose proof (len_nonneg l) end
  | |- context [slen ?s] =>
      lazymatch goal with _ : 0 <= slen s |- _ => fail | _ => pose proof (slen_nonneg s) end
  end.

Ltac len_lia := lens; len_facts; unfold slen, len in *; lia.

Lemma byte_of_range c : is_byte (byte_of c).
Proof. unfold is_byte, byte_of. pose proof (nat_ascii_bounded c). lia. Qed.

Lemma bytes_of_bytes s : Forall is_byte (bytes_of s).
Proof. induction s; constructor; auto using byte_of_range. Qed.

Lemma string_of_bytes_of s : string_of (bytes_of s) = s.
Proof.
  induction s as [|c s IH]; simpl; [done|]. unfold byte_of.
  by rewrite Nat2Z.id, ascii_nat_embedding, IH.
Qed.

Lemma bytes_of_string_of bs : Forall is_byte bs -> bytes_of (string_of bs) = bs.
Proof.
  induction 1 as [|b bs Hb _ IH]; simpl; [done|]. rewrite IH. f_equal.
  unfold byte_of, is_byte in *. rewrite nat_ascii_embedding; lia.
Qed.

(** Slicing a slice that was built by concatenation. *)
Lemma slice_app {A} (p x r : list A) lo hi :
  lo = len p -> hi = len p + len x -> slice (p ++ x ++ r) lo hi = Ok x.
Proof.
  intros -> ->. unfold slice. pose proof (len_nonneg p). pose proof (len_nonneg x).
  pose proof (len_nonneg r).
  rewrite !(proj2 (Z.leb_le _ _)) by (try rewrite !len_app; lia). simpl. f_equal.
  replace (len p + len x - len p) with (len x) by lia. unfold len. rewrite !Nat2Z.id.
  rewrite drop_app_length. apply take_app_length.
Qed.

Lemma slice_from_app {A} (p r : list A) lo :
  lo = len p -> slice_from (p ++ r) lo = Ok r.
Proof.
  intros ->. unfold slice_from. rewrite len_app.
  rewrite <- (app_nil_r r) at 1. by apply slice_app.
Qed.

Lemma slice_all {A} (x r : list A) lo hi :
  lo = 0 -> hi = len x -> slice (x ++ r) lo hi = Ok x.
Proof. intros -> ->. apply (slice_app [] x r); done. Qed.

(** Writing the next field of a buffer that is filled from the left. *)
Lemma write_at_fill {A} (z : A) (p src : list A) n k off :
  off = len p -> Z.of_nat n = len src ->
  write_at (p ++ replicate (n + k) z) off src = Ok ((p ++ src) ++ replicate k z).
Proof.
  intros -> Hn. unfold write_at. pose proof (len_nonneg p). pose proof (len_nonneg src).
  rewrite !(proj2 (Z.leb_le _ _)) by (try rewrite len_app, len_replicate; lia).
  cbn [andb]. f_equal.
  rewrite <- Hn. unfold len. rewrite <- Nat2Z.inj_add, !Nat2Z.id.
  rewrite take_app_length, <- app_assoc. do 2 f_equal.
  rewrite replicate_add, app_assoc. apply drop_app_length'.
  rewrite length_app, length_replicate. done.
Qed.

Lemma u8_range z : is_byte (u8 z).
Proof. apply Z.mod_pos_bound. lia. Qed.

Lemma Uint16_cons b0 b1 r : Uint16 (b0 :: b1 :: r) = Ok (b0 * 2 ^ 8 + b1).
Proof. done. Qed.

Lemma Uint32_cons b0 b1 b2 b3 r :
  Uint32 (b0 :: b1 :: b2 :: b3 :: r) = Ok (b0 * 2 ^ 24 + b1 * 2 ^ 16 + b2 * 2 ^ 8 + b3).
Proof. done. Qed.

Lemma Uint16_Put v r : 0 <= v < 2 ^ 16 -> Uint16 (PutUint16 v ++ r) = Ok v.
Proof.
  intros H. unfold PutUint16, u8. simpl app. rewrite Uint16_cons. f_equal.
  Z.div_mod_to_equations. lia.
Qed.

Lemma Uint32_Put v r : 0 <= v < 2 ^ 32 -> Uint32 (PutUint32 v ++ r) = Ok v.
Proof.
  intros H. unfold PutUint32, u8. simpl app. rewrite Uint32_cons. f_equal.
  Z.div_mod_to_equations. lia.
Qed.

Lemma Uint16_Put_end v : 0 <= v < 2 ^ 16 -> Uint16 (PutUint16 v) = Ok v.
Proof. intros. rewrite <- (app_nil_r (PutUint16 v)). by apply Uint16_Put. Qed.

Lemma Uint32_Put_end v : 0 <= v < 2 ^ 32 -> Uint32 (PutUint32 v) = Ok v.
Proof. intros. rewrite <- (app_nil_r (PutUint32 v)). by apply Uint32_Put. Qed.

Lemma u16_small z : 0 <= z < 2 ^ 16 -> u16 z = z.
Proof. apply Z.mod_small. Qed.

(** Reading a field of a buffer that was built by concatenation: skip the fields
    before it, then take it. *)
Lemma slice_skip {A} (a l : list A) lo hi :
  len a <= lo -> slice (a ++ l) lo hi = slice l (lo - len a) (hi - len a).
Proof.
  intros H. unfold slice. pose proof (len_nonneg a). rewrite len_app.
  replace (0 <=? lo) with true by (symmetry; apply Z.leb_le; lia).
  replace (0 <=? lo - len a) with true by (symmetry; apply Z.leb_le; lia).
  replace (lo - len a <=? hi - len a) with (lo <=? hi) by
    (destruct (Z.leb_spec lo hi), (Z.leb_spec (lo - len a) (hi - len a)); lia || done).
  replace (hi - len a <=? len l) with (hi <=? len a + len l) by
    (destruct (Z.leb_spec hi (len a + len l)), (Z.leb_spec (hi - len a) (len l)); lia || done).
  case_match; [|done]. b2p. f_equal. f_equal; [lia|].
  rewrite drop_app_ge by (unfold len in *; lia). f_equal. unfold len in *. lia.
Qed.

Lemma slice_whole {A} (x : list A) lo hi : lo = 0 -> hi = len x -> slice x lo hi = Ok x.
Proof. intros. rewrite <- (app_nil_r x) at 1. by apply slice_all. Qed.

Lemma write_at_fill0 {A} (z : A) (src : list A) n k :
  Z.of_nat n = len src ->
  write_at (replicate (n + k) z) 0 src = Ok (src ++ replicate k z).
Proof. apply (write_at_fill z [] src n k 0); done. Qed.

Lemma write_at_fill_end {A} (z : A) (p src : list A) n off :
  off = len p -> Z.of_nat n = len src ->
  write_at (p ++ replicate n z) off src = Ok (p ++ src).
Proof.
  intros. rewrite <- (Nat.add_0_r n), write_at_fill by done. simpl. by rewrite app_nil_r.
Qed.

Lemma write_at_fill_end0 {A} (z : A) (src : list A) n :
  Z.of_nat n = len src -> write_at (replicate n z) 0 src = Ok src.
Proof. intros. by apply (write_at_fill_end z [] src n 0). Qed.

(** [rd]: evaluates the next slice of a concatenation. *)
Ltac rd :=
  repeat (rewrite slice_skip by len_lia);
  first [ rewrite slice_all by len_lia | rewrite slice_whole by len_lia ]; cbn [go_bind].

(** [wr]: evaluates the next write into a partly filled buffer. *)
Ltac wr :=
  first [ rewrite write_at_fill0 by len_lia
        | rewrite write_at_fill by len_lia
        | rewrite write_at_fill_end by len_lia
        | rewrite write_at_fill_end0 by len_lia ]; cbn [go_bind].

(** Decides the condition of the next length check. *)
Ltac chk :=
  unfold check at 1;
  first [ rewrite (proj2 (Z.ltb_ge _ _)) by len_lia
        | rewrite (proj2 (Z.ltb_lt _ _)) by len_lia ]; cbn [go_bind].

Lemma index_app_l {A} (x : A) r : index (x :: r) 0 = Ok x.
Proof. done. Qed.

(** Reading two bytes of a slice of bytes gives a 16-bit value. *)
Lemma Uint16_range b v : Forall is_byte b -> Uint16 b = Ok v -> 0 <= v < 2 ^ 16.
Proof.
  intros Hb. unfold Uint16, index, slice_get. cbn.
  destruct b as [|b0 [|b1 b]]; cbn; [done..|]. intros [= <-].
  apply Forall_cons in Hb as [H0 Hb]. apply Forall_cons in Hb as [H1 _].
  unfold is_byte in *. lia.
Qed.

Lemma slice_bytes b lo hi x : Forall is_byte b -> slice b lo hi = Ok x -> Forall is_byte x.
Proof.
  unfold slice. intros Hb. case_match; [|done]. intros [= <-]. by apply Forall_take, Forall_drop.
Qed.

Lemma slice_ok {A} (b : list A) lo hi :
  0 <= lo <= hi -> hi <= len b -> exists x, slice b lo hi = Ok x /\ len x = hi - lo.
Proof.
  intros H1 H2. unfold slice. rewrite !(proj2 (Z.leb_le _ _)) by lia. simpl.
  eexists. split; [done|]. unfold len in *. rewrite length_take, length_drop. lia.
Qed.

Lemma slice_panic {A} (b : list A) lo hi : hi < lo -> slice b lo hi = Panic.
Proof.
  intros H. unfold slice. rewrite (proj2 (Z.leb_gt lo hi)) by lia. by rewrite andb_false_r.
Qed.

Lemma Uint16_ok (b : list Z) : 2 <= len b -> exists v, Uint16 b = Ok v.
Proof.
  destruct b as [|b0 [|b1 b]]; unfold len; simpl; [lia..|]. eauto.
Qed.

Lemma Uint32_ok (b : list Z) : 4 <= len b -> exists v, Uint32 b = Ok v.
Proof.
  destruct b as [|b0 [|b1 [|b2 [|b3 b]]]]; unfold len; simpl; [lia..|]. eauto.
Qed.

Lemma slice_total b lo hi :
  Forall is_byte b -> 0 <= lo <= hi -> hi <= len b ->
  exists x, slice b lo hi = Ok x /\ len x = hi - lo /\ Forall is_byte x.
Proof.
  intros Hb H1 H2. destruct (slice_ok b lo hi H1 H2) as (x & E & Hx).
  eauto using slice_bytes.
Qed.

Lemma Uint16_total b :
  Forall is_byte b -> 2 <= len b -> exists v, Uint16 b = Ok v /\ 0 <= v < 2 ^ 16.
Proof. intros Hb H. destruct (Uint16_ok b H) as [v E]. eauto using Uint16_range. Qed.

Lemma index_total (b : list Z) i :
  Forall is_byte b -> 0 <= i < len b -> exists v, index b i = Ok v /\ is_byte v.
Proof.
  intros Hb H. destruct (slice_get_lt b i H) as [v Hv]. unfold index. rewrite Hv.
  exists v. split; [done|]. apply slice_get_in in Hv. by eapply Forall_forall in Hb.
Qed.

(** One step of a proof that a decoder does not panic: a length check is decided, or
    the next slice, index or number is evaluated; the facts about it are kept. *)
Ltac np :=
  match goal with
  | |- check ?c _ _ <> Panic =>
      unfold check at 1; let E := fresh "C" in destruct c eqn:E; [done|]; b2p
  | |- go_bind (slice ?b ?lo ?hi) _ <> Panic =>
      let x := fresh "x" in
      destruct (slice_total b lo hi) as (x & -> & ? & ?);
      [assumption|unfold len in *; lia|unfold len in *; lia|]; cbn [go_bind]
  | |- go_bind (slice_from ?b ?lo) _ <> Panic => unfold slice_from
  | |- go_bind (Uint16 ?b) _ <> Panic =>
      let v := fresh "v" in
      destruct (Uint16_total b) as (v & -> & ?); [assumption|lia|]; cbn [go_bind]
  | |- go_bind (Uint32 ?b) _ <> Panic =>
      let v := fresh "v" in
      destruct (Uint32_ok b) as (v & ->); [lia|]; cbn [go_bind]
  | |- go_bind (index ?b ?i) _ <> Panic =>
      let v := fresh "v" in
      destruct (index_total b i) as (v & -> & ?); [assumption|lia|]; cbn [go_bind]
  | |- Ok _ <> Panic => done
  end.

#[export] Hint Rewrite @len_app @len_cons @len_nil len_bytes_of PutUint16_len PutUint32_len
  @len_replicate : olb_len.
