(* ===== verification/BackendPool.v ===== *)
(** * Pools of backends: [internal/backend/pool.go], [manager.go]

    A pool owns a map and an ordered slice of pointers to shared backends and
    delegates selection to a balancer.  Backends are shared between the pool, its
    clones and the balancers, so pointers are explicit: a [heap] maps each
    pointer to the backend it points to, and every operation that mutates a
    backend mutates the heap.

    The balancer is an interface: the class [Balancer] has its operations, the
    class [BalancerLaws] the contract the pool relies on. *)
From S2P Require Import Prelude Errors Http Backend.

(** ** Shared backends *)

(** Pointers to backends; [nil] is [None] of [option ptr]. *)
Definition ptr := nat.

(** A non-nil pointer always points to a backend. *)
Definition heap := ptr -> Backend.

(** Store through a pointer. *)
Definition heap_set (h : heap) (p : ptr) (b : Backend) : heap :=
  fun q => if bool_decide (p = q) then b else h q.

(** ** The balancer interface *)

Record RequestContext := mkRequestContext {
  ClientIP : string;
  CtxRequest : option Request
}.

Class Balancer (S : Type) := {
  bal_Next : heap -> option RequestContext -> list ptr -> S -> option ptr * S;
  bal_Add : heap -> ptr -> S -> S;
  bal_Remove : heap -> string -> S -> S;
  bal_Update : heap -> ptr -> S -> S
}.

(** What the pool needs of a balancer: it answers with one of the backends it
    was offered. *)
Class BalancerLaws (S : Type) `{Balancer S} := {
  bal_Next_in h ctx bs s p s' :
    bal_Next h ctx bs s = (Some p, s') -> p ∈ bs
}.

(** A balancer that never declines a non-empty offer. *)
Class BalancerTotal (S : Type) `{Balancer S} := {
  bal_Next_some h ctx bs s : bs <> [] -> exists p s', bal_Next h ctx bs s = (Some p, s')
}.

(** ** Pools (pool.go) *)

Record HealthCheckConfig := mkHealthCheckConfig {
  hc_Enabled : bool; hc_Interval : Z; hc_Timeout : Z; hc_Path : string; hc_Port : Z
}.

Record Pool (S : Type) := mkPool {
  Name : string;
  Algorithm : string;
  Backends : gmap string ptr;
  order : list ptr;
  balancer : option S;
  HealthCheck : HealthCheckConfig
}.
Arguments mkPool {S}.
Arguments Name {S}.
Arguments Algorithm {S}.
Arguments Backends {S}.
Arguments order {S}.
Arguments balancer {S}.
Arguments HealthCheck {S}.

(** stats.go *)
Record PoolStats := mkPoolStats {
  ps_Name : string;
  ps_TotalBackends : Z;
  ps_HealthyBackends : Z;
  ps_BackendStats : gmap string BackendStats
}.

Section Pool.
Context {S : Type} `{Balancer S}.
Implicit Types (p : Pool S) (h : heap).

Definition NewPool (name algorithm : string) : Pool S :=
  {| Name := name; Algorithm := algorithm; Backends := ∅; order := [];
     balancer := None; HealthCheck := mkHealthCheckConfig false 0 0 "" 0 |}.

Definition SetBalancer (b : S) p : Pool S :=
  mkPool (Name p) (Algorithm p) (Backends p) (order p) (Some b) (HealthCheck p).

Definition set_balancer (b : option S) p : Pool S :=
  mkPool (Name p) (Algorithm p) (Backends p) (order p) b (HealthCheck p).

Definition AddBackend h p (backend : option ptr) : result (Pool S) :=
  match backend with
  | None => inl (WithContext ErrInvalidArg "reason" "backend is nil")
  | Some b =>
      if bool_decide (ID (h b) = "") then
        inl (WithContext ErrInvalidArg "reason" "backend ID is empty")
      else match Backends p !! ID (h b) with
      | Some _ => inl (WithContext ErrAlreadyExist "backend_id" (ID (h b)))
      | None =>
          inr (mkPool (Name p) (Algorithm p) (<[ID (h b) := b]> (Backends p))
                 (order p ++ [b]) (bal_Add h b <$> balancer p) (HealthCheck p))
      end
  end.

(** The loop of [RemoveBackend] over [p.order]: drops the first entry with the
    given ID. *)
Fixpoint remove_first h (id : string) (l : list ptr) : list ptr :=
  match l with
  | [] => []
  | b :: r => if bool_decide (ID (h b) = id) then r else b :: remove_first h id r
  end.

Definition RemoveBackend h p (id : string) : result (Pool S) :=
  if bool_decide (id = "") then
    inl (WithContext ErrInvalidArg "reason" "backend ID is empty")
  else match Backends p !! id with
  | None => inl (WithContext ErrBackendNotFound "backend_id" id)
  | Some _ =>
      inr (mkPool (Name p) (Algorithm p) (delete id (Backends p))
             (remove_first h id (order p)) (bal_Remove h id <$> balancer p) (HealthCheck p))
  end.

Definition GetBackend p (id : string) : option ptr := Backends p !! id.

Definition GetHealthyBackends h p : list ptr :=
  List.filter (fun b => IsAvailable (h b)) (order p).

(** [canceled] is [ctx.Err() != nil].  The balancer's state changes even when it
    declines. *)
Definition NextBackend h (canceled : bool) p : result ptr * Pool S :=
  if canceled then (inl ErrCanceled, p)
  else match balancer p with
  | None => (inl (WithContext ErrInternal "reason" "no balancer configured"), p)
  | Some bal =>
      let healthy := GetHealthyBackends h p in
      match healthy with
      | [] => (inl (WithContext ErrPoolEmpty "pool" (Name p)), p)
      | _ =>
          let '(b, bal') := bal_Next h None healthy bal in
          let p' := set_balancer (Some bal') p in
          match b with
          | None => (inl (WithContext ErrBackendUnavailable "pool" (Name p)), p')
          | Some b => (inr b, p')
          end
      end
  end.

(** The common body of [DrainBackend], [EnableBackend] and [DisableBackend]. *)
Definition set_backend_state (s : State) h p (id : string) : result (heap * Pool S) :=
  match Backends p !! id with
  | None => inl (WithContext ErrBackendNotFound "backend_id" id)
  | Some b =>
      let h' := heap_set h b (SetState s (h b)) in
      inr (h', set_balancer (bal_Update h' b <$> balancer p) p)
  end.

Definition DrainBackend := set_backend_state StateDraining.
Definition EnableBackend := set_backend_state StateUp.
Definition DisableBackend := set_backend_state StateMaintenance.

Definition BackendCount p : Z := Z.of_nat (size (Backends p)).

Definition HealthyCount h p : Z :=
  Z.of_nat (countb (fun kv => IsHealthy (h (snd kv))) (map_to_list (Backends p))).

Definition GetAllBackends p : list ptr := order p.

Definition Pool_Stats h p : PoolStats :=
  mkPoolStats (Name p) (Z.of_nat (size (Backends p))) (HealthyCount h p)
    ((fun b => Backend_Stats (h b)) <$> Backends p).

(** [Clone] copies the map, not the [order] slice, and no balancer. *)
Definition Clone p : Pool S :=
  mkPool (Name p) (Algorithm p) (Backends p) [] None (HealthCheck p).
End Pool.

(** ** The pool manager (manager.go) *)

(** Pools are shared through pointers as well. *)
Definition pool_heap (S : Type) := nat -> Pool S.

Record PoolManager := mkPoolManager { pools : gmap string nat }.

Section Manager.
Context {S : Type} `{Balancer S}.
Implicit Types (ph : pool_heap S) (pm : PoolManager) (h : heap).

Definition NewPoolManager : PoolManager := mkPoolManager ∅.

Definition AddPool ph pm (pool : option nat) : result PoolManager :=
  match pool with
  | None => inl (WithContext ErrInvalidArg "reason" "pool is nil")
  | Some q =>
      if bool_decide (Name (ph q) = "") then
        inl (WithContext ErrInvalidArg "reason" "pool name is empty")
      else match pools pm !! Name (ph q) with
      | Some _ => inl (WithContext ErrAlreadyExist "pool_name" (Name (ph q)))
      | None => inr (mkPoolManager (<[Name (ph q) := q]> (pools pm)))
      end
  end.

Definition RemovePool pm (name : string) : result PoolManager :=
  match pools pm !! name with
  | None => inl (WithContext ErrPoolNotFound "pool_name" name)
  | Some _ => inr (mkPoolManager (delete name (pools pm)))
  end.

Definition GetPool pm (name : string) : option nat := pools pm !! name.

Definition Manager_GetBackend ph pm (poolName backendID : string) : option ptr :=
  match GetPool pm poolName with
  | None => None
  | Some q => GetBackend (ph q) backendID
  end.

(** The iteration order of a Go map is arbitrary: [ord] is the order of one run,
    any permutation of the entries. *)
Fixpoint search_pools ph (backendID : string) (ord : list (string * nat))
    : option (ptr * string) :=
  match ord with
  | [] => None
  | (poolName, q) :: r =>
      match GetBackend (ph q) backendID with
      | Some b => Some (b, poolName)
      | None => search_pools ph backendID r
      end
  end.

Definition GetBackendAcrossPools ph (ord : list (string * nat)) (backendID : string)
    : option (ptr * string) := search_pools ph backendID ord.

Definition PoolExists pm (name : string) : bool :=
  match pools pm !! name with Some _ => true | None => false end.

Definition Manager_BackendCount ph pm : Z :=
  sumZ (fun kv => BackendCount (ph (snd kv))) (map_to_list (pools pm)).

Definition HealthyBackendCount h ph pm : Z :=
  sumZ (fun kv => HealthyCount h (ph (snd kv))) (map_to_list (pools pm)).

Definition Manager_BackendStats h ph pm : gmap string PoolStats :=
  (fun q => Pool_Stats h (ph q)) <$> pools pm.

Definition Snapshot ph pm : gmap string (Pool S) := (fun q => Clone (ph q)) <$> pools pm.

Definition Clear pm : PoolManager := mkPoolManager ∅.

Definition PoolCount pm : Z := Z.of_nat (size (pools pm)).

Definition GetBackendByAddress h ph (ord : list (string * nat)) (addr : string)
    : option ptr :=
  List.find (fun b => bool_decide (Address (h b) = addr))
    (concat ((fun kv => GetAllBackends (ph (snd kv))) <$> ord)).
End Manager.

(** ** The pool invariant *)

(** Every operation on a backend keeps its ID. *)
Definition same_ids (h h' : heap) : Prop := forall q, ID (h' q) = ID (h q).

Section PoolTheory.
Context {S : Type} `{Balancer S}.
Implicit Types (p : Pool S) (h : heap).

(** The map and the slice hold the same backends, once each, under their IDs. *)
Record pool_wf h p : Prop := {
  wf_ids id b : Backends p !! id = Some b -> ID (h b) = id /\ id <> "";
  wf_order b : b ∈ order p <-> Backends p !! ID (h b) = Some b;
  wf_nodup : NoDup (order p)
}.

(** One call on the pool, or a change of the backends themselves by anybody who
    shares them. *)
Inductive pool_step : heap * Pool S -> heap * Pool S -> Prop :=
  | step_add h p b p' : AddBackend h p b = inr p' -> pool_step (h, p) (h, p')
  | step_remove h p id p' : RemoveBackend h p id = inr p' -> pool_step (h, p) (h, p')
  | step_set_state s h p id h' p' :
      set_backend_state s h p id = inr (h', p') -> pool_step (h, p) (h', p')
  | step_next h p c r p' : NextBackend h c p = (r, p') -> pool_step (h, p) (h, p')
  | step_balancer h p b : pool_step (h, p) (h, SetBalancer b p)
  | step_backends h h' p : same_ids h h' -> pool_step (h, p) (h', p).

Lemma pool_wf_new h n a : pool_wf h (NewPool n a).
Proof.
  split; simpl.
  - intros id b Hb. by rewrite lookup_empty in Hb.
  - intros b. rewrite lookup_empty. set_solver.
  - constructor.
Qed.

Lemma pool_wf_heap h h' p : same_ids h h' -> pool_wf h p -> pool_wf h' p.
Proof.
  intros Hs [H1 H2 H3]. split; [|intros b; rewrite Hs; apply H2|done].
  intros id b. rewrite Hs. apply H1.
Qed.

Lemma heap_set_same_ids h q b : ID b = ID (h q) -> same_ids h (heap_set h q b).
Proof. intros E q'. unfold heap_set. case_bool_decide; by subst. Qed.

Lemma pool_wf_balancer h b p : pool_wf h p -> pool_wf h (set_balancer b p).
Proof. intros [H1 H2 H3]. by split. Qed.

Lemma elem_of_remove_first h id l b :
  (forall b', b ∈ l -> b' ∈ l -> ID (h b') = ID (h b) -> b' = b) ->
  NoDup l -> b ∈ remove_first h id l <-> b ∈ l /\ ID (h b) <> id.
Proof.
  intros Hinj Hnd. induction l as [|x l IH]; simpl; [set_solver|].
  apply NoDup_cons in Hnd as [Hx Hnd].
  case_bool_decide as E.
  - split; [|set_solver]. intros Hb. split; [set_solver|]. intros E'.
    assert (x = b) by (apply Hinj; [set_solver|set_solver|congruence]). by subst.
  - rewrite elem_of_cons, IH by (try done; intros; apply Hinj; set_solver). set_solver.
Qed.

Lemma remove_first_sublist h id l : remove_first h id l `sublist_of` l.
Proof. induction l as [|x l IH]; simpl; [done|]. case_bool_decide; by constructor. Qed.

Lemma pool_wf_add h p b p' : pool_wf h p -> AddBackend h p b = inr p' -> pool_wf h p'.
Proof.
  intros [H1 H2 H3] Ha. unfold AddBackend in Ha. destruct b as [b|]; [|done].
  case_bool_decide as Hid; [done|]. destruct (Backends p !! ID (h b)) as [|] eqn:E; [done|].
  injection Ha as <-. split; simpl.
  - intros id b'. rewrite lookup_insert. case_decide; [naive_solver|apply H1].
  - intros b'. rewrite elem_of_app, list_elem_of_singleton, H2, lookup_insert.
    case_decide as D; [|naive_solver]. rewrite <- D, E. naive_solver.
  - apply NoDup_app. split_and!; [done| |apply NoDup_singleton].
    intros b' Hb' ->%list_elem_of_singleton. apply H2 in Hb'. congruence.
Qed.

Lemma pool_wf_remove h p id p' :
  pool_wf h p -> RemoveBackend h p id = inr p' -> pool_wf h p'.
Proof.
  intros [H1 H2 H3] Hr. unfold RemoveBackend in Hr. case_bool_decide; [done|].
  destruct (Backends p !! id) as [b0|] eqn:E; [|done]. injection Hr as <-. split; simpl.
  - intros id' b' [_ Hb]%lookup_delete_Some. by apply H1.
  - intros b. rewrite elem_of_remove_first, H2, lookup_delete_Some by
      (try done; intros b' Hb Hb' Eid; apply H2 in Hb, Hb'; congruence).
    naive_solver.
  - eapply sublist_NoDup; [done|apply remove_first_sublist].
Qed.

Lemma pool_wf_set_state s h p id h' p' :
  pool_wf h p -> set_backend_state s h p id = inr (h', p') -> pool_wf h' p'.
Proof.
  intros Hwf Hs. unfold set_backend_state in Hs.
  destruct (Backends p !! id) as [b|]; [|done]. injection Hs as <- <-.
  apply pool_wf_balancer, (pool_wf_heap h); [by apply heap_set_same_ids|done].
Qed.

Lemma NextBackend_pool h c p r p' :
  NextBackend h c p = (r, p') -> exists bal, p' = set_balancer bal p.
Proof.
  unfold NextBackend. intros E. assert (Ep : p = set_balancer (balancer p) p) by by destruct p.
  destruct c; [naive_solver|]. destruct (balancer p) as [bal|] eqn:Eb; [|naive_solver].
  destruct (GetHealthyBackends h p); [naive_solver|].
  destruct (bal_Next h None _ bal) as [[|] ?]; naive_solver.
Qed.

Lemma pool_wf_step c c' :
  pool_step c c' -> pool_wf (fst c) (snd c) -> pool_wf (fst c') (snd c').
Proof.
  intros [h p b p' E|h p id p' E|s h p id h' p' E|h p c0 r p' E|h p b|h h' p E] Hwf; simpl in *.
  - by eapply pool_wf_add.
  - by eapply pool_wf_remove.
  - by eapply pool_wf_set_state.
  - apply NextBackend_pool in E as [bal ->]. by apply pool_wf_balancer.
  - by apply (pool_wf_balancer h (Some b)).
  - by eapply pool_wf_heap.
Qed.

(** C11: after any sequence of calls on a fresh pool, interleaved with arbitrary
    changes of the shared backends that keep their IDs, the map and the slice of
    the pool hold the same backends, each once and under its own ID. *)
Theorem pool_invariant h name alg c :
  rtc pool_step (h, NewPool name alg) c -> pool_wf (fst c) (snd c).
Proof.
  revert c. apply (rtc_ind_r (fun c => pool_wf (fst c) (snd c))).
  - apply pool_wf_new.
  - intros. by eapply pool_wf_step.
Qed.

Lemma GetHealthyBackends_in h p b :
  b ∈ GetHealthyBackends h p <-> b ∈ order p /\ IsAvailable (h b) = true.
Proof. unfold GetHealthyBackends. rewrite !list_elem_of_In, filter_In. done. Qed.
End PoolTheory.

Section PoolSelection.
Context {S : Type} `{BalancerLaws S}.
Implicit Types (p : Pool S) (h : heap).

Lemma NextBackend_in h c p b p' :
  NextBackend h c p = (inr b, p') -> b ∈ GetHealthyBackends h p.
Proof.
  unfold NextBackend. destruct c; [done|]. destruct (balancer p) as [bal|]; [|done].
  destruct (GetHealthyBackends h p) as [|x l] eqn:Eh; [done|].
  destruct (bal_Next h None (x :: l) bal) as [[b'|] bal'] eqn:En; [|done].
  intros [= <- _]. by eapply bal_Next_in.
Qed.

(** whatever balancer the pool uses, [NextBackend] hands out only backends of
    the pool, registered under their ID, whose state is [StateUp]. *)
Theorem next_backend_is_available h c p b p' :
  pool_wf h p -> NextBackend h c p = (inr b, p') ->
  Backends p !! ID (h b) = Some b /\ state (h b) = StateUp.
Proof.
  intros Hwf [Ho Ha]%NextBackend_in%GetHealthyBackends_in.
  split; [by apply (wf_order _ _ Hwf)|].
  unfold IsAvailable, State_IsAvailable in Ha. by b2p.
Qed.

(** once [DrainBackend] has succeeded, [NextBackend] does not return that
    backend, under any balancer. *)
Theorem drained_backend_not_selected h p id h' p' b c b' p'' :
  DrainBackend h p id = inr (h', p') -> Backends p !! id = Some b ->
  NextBackend h' c p' = (inr b', p'') -> b' <> b.
Proof.
  intros Hd Hb [_ Ha]%NextBackend_in%GetHealthyBackends_in ->.
  unfold DrainBackend, set_backend_state in Hd. rewrite Hb in Hd. injection Hd as <- _.
  unfold heap_set in Ha. by rewrite bool_decide_true in Ha by done.
Qed.
End PoolSelection.

Section PoolTotal.
Context {S : Type} `{BalancerTotal S}.
Implicit Types (p : Pool S) (h : heap).

(** with a configured balancer that never declines, [NextBackend] succeeds as
    soon as one backend of the pool is up, and returns [ErrPoolEmpty] otherwise. *)
Theorem next_backend_succeeds_iff_up h p bal :
  pool_wf h p -> balancer p = Some bal ->
  (exists b p', NextBackend h false p = (inr b, p')) <->
  (exists id b, Backends p !! id = Some b /\ state (h b) = StateUp).
Proof.
  intros Hwf Hbal. unfold NextBackend. rewrite Hbal.
  assert (Hup : (exists id b, Backends p !! id = Some b /\ state (h b) = StateUp) <->
                exists b, b ∈ GetHealthyBackends h p).
  { setoid_rewrite GetHealthyBackends_in. unfold IsAvailable, State_IsAvailable.
    setoid_rewrite bool_decide_eq_true. setoid_rewrite (wf_order _ _ Hwf).
    split; [|naive_solver]. intros (id & b & Hb & Hs). exists b.
    by destruct (wf_ids _ _ Hwf id b Hb) as [-> _]. }
  rewrite Hup. destruct (GetHealthyBackends h p) as [|x l]; [set_solver|].
  destruct (bal_Next_some h None (x :: l) bal) as (b & bal' & ->); [done|]. set_solver.
Qed.
End PoolTotal.

(** [Clone] drops the slice the selection works on: a clone keeps all
    registered backends, but every [NextBackend] on it, with any balancer, fails
    with [ErrPoolEmpty], and [GetAllBackends] is empty. *)
Theorem clone_never_selects {S} `{Balancer S} (h : heap) (p : Pool S) (bal : S) :
  Backends (Clone p) = Backends p /\ GetAllBackends (Clone p) = [] /\
  NextBackend h false (SetBalancer bal (Clone p)) =
    (inl (WithContext ErrPoolEmpty "pool" (Name p)), SetBalancer bal (Clone p)).
Proof. done. Qed.

Section ManagerTheory.
Context {S : Type} `{Balancer S}.
Implicit Types (ph : pool_heap S).

(** Whatever order the runtime iterates the pools in, [GetBackendAcrossPools]
    finds a backend exactly when some pool has it, and names a pool that does. *)
Theorem get_backend_across_pools_correct ph pm ord id :
  ord ≡ₚ map_to_list (pools pm) ->
  match GetBackendAcrossPools ph ord id with
  | Some (b, name) => Manager_GetBackend ph pm name id = Some b
  | None => forall name, Manager_GetBackend ph pm name id = None
  end.
Proof.
  intros Hord. unfold GetBackendAcrossPools, Manager_GetBackend, GetPool.
  assert (Hin : forall name q, (name, q) ∈ ord <-> pools pm !! name = Some q)
    by (intros; by rewrite Hord, elem_of_map_to_list).
  clear Hord. assert (Hs : match search_pools ph id ord with
    | Some (b, name) => exists q, (name, q) ∈ ord /\ GetBackend (ph q) id = Some b
    | None => forall name q, (name, q) ∈ ord -> GetBackend (ph q) id = None end).
  { clear Hin. induction ord as [|[name q] ord IH]; simpl; [set_solver|].
    destruct (GetBackend (ph q) id) as [b|] eqn:E; [set_solver|].
    destruct (search_pools ph id ord) as [[b n]|]; set_solver. }
  destruct (search_pools ph id ord) as [[b name]|].
  - destruct Hs as (q & Hq%Hin & Hb). by rewrite Hq.
  - intros name. destruct (pools pm !! name) as [q|] eqn:E; [|done].
    apply Hin in E. by apply Hs in E.
Qed.
End ManagerTheory.
