(* ===== verification/GoHash.v ===== *)
(** * Hash functions and sorting of Go's standard library

    FNV-1a (package [hash/fnv]) at 32 and 64 bits, CRC-32 with the IEEE
    polynomial (package [hash/crc32]), the binary search [sort.Search] and the
    contract of [sort.Slice], as the balancers use them. *)
From S2P Require Import Prelude Http.
From Stdlib Require Import Ascii.

(** ** FNV-1a *)

Definition fnv_offset32 : Z := 2166136261.
Definition fnv_prime32 : Z := 16777619.
Definition fnv_offset64 : Z := 14695981039346656037.
Definition fnv_prime64 : Z := 1099511628211.

(** [h.Write] continues a hash; a fresh hash starts at the offset basis. *)
Fixpoint fnv32a_write (h : Z) (s : string) : Z :=
  match s with
  | EmptyString => h
  | String c r => fnv32a_write (u32 (Z.lxor h (byte_of c) * fnv_prime32)) r
  end.

Fixpoint fnv64a_write (h : Z) (s : string) : Z :=
  match s with
  | EmptyString => h
  | String c r => fnv64a_write (u64 (Z.lxor h (byte_of c) * fnv_prime64)) r
  end.

Definition fnv32a (s : string) : Z := fnv32a_write fnv_offset32 s.
Definition fnv64a (s : string) : Z := fnv64a_write fnv_offset64 s.

(** The same on a list of byte values. *)
Fixpoint fnv32a_bytes (h : Z) (bs : list Z) : Z :=
  match bs with
  | [] => h
  | b :: r => fnv32a_bytes (u32 (Z.lxor h b * fnv_prime32)) r
  end.

(** ** CRC-32 (IEEE) *)

Definition crc_shift (c : Z) : Z :=
  if Z.testbit c 0 then Z.lxor (Z.shiftr c 1) 3988292384 else Z.shiftr c 1.

Definition crc_byte (crc b : Z) : Z := Nat.iter 8 crc_shift (Z.lxor crc b).

Fixpoint crc_update (crc : Z) (s : string) : Z :=
  match s with
  | EmptyString => crc
  | String c r => crc_update (crc_byte crc (byte_of c)) r
  end.

(** [crc32.ChecksumIEEE]. *)
Definition ChecksumIEEE (s : string) : Z := 4294967295 - crc_update 4294967295 s.

(** ** [sort.Search] *)

(** The loop of [sort.Search(n, f)] on [\[i, j)]; [fuel] bounds its iterations. *)
Fixpoint search_loop (fuel : nat) (f : nat -> bool) (i j : nat) : nat :=
  match fuel with
  | O => i
  | S fuel =>
      if (i <? j)%nat then
        let h := ((i + j) / 2)%nat in
        if f h then search_loop fuel f i h else search_loop fuel f (S h) j
      else i
  end.

(** Each iteration shortens the interval, so [n] iterations are enough. *)
Definition Search (n : nat) (f : nat -> bool) : nat := search_loop n f 0 n.

(** ** [sort.Slice] *)

(** [sort.Slice] is not stable: its result on equal keys is not specified.  A
    sorting function is any function that satisfies its documentation. *)
Class SliceSort (A : Type) (key : A -> Z) := {
  slice_sort : list A -> list A;
  slice_sort_perm l : slice_sort l ≡ₚ l;
  slice_sort_sorted l : StronglySorted (fun a b => key a <= key b) (slice_sort l)
}.

(** Merge sort is such a function. *)
Section MergeSort.
Context {A : Type} (key : A -> Z).
Let R (a b : A) : Prop := key a <= key b.
#[local] Instance R_dec a b : Decision (R a b) := decide (key a <= key b).
#[local] Instance R_trans : Transitive R.
Proof. intros a b c. unfold R. lia. Qed.
#[local] Instance R_total : Total R.
Proof. intros a b. unfold R. lia. Qed.

Definition merge_slice_sort : SliceSort A key := {|
  slice_sort := merge_sort R;
  slice_sort_perm := merge_sort_Permutation R;
  slice_sort_sorted := StronglySorted_merge_sort R
|}.
End MergeSort.

(** ** Lemmas *)

Lemma search_loop_correct f fuel i j n :
  (i <= j <= n)%nat -> (j - i <= fuel)%nat ->
  (forall a b, (a <= b < n)%nat -> f a = true -> f b = true) ->
  (forall a, (a < i)%nat -> f a = false) ->
  (forall a, (j <= a < n)%nat -> f a = true) ->
  (search_loop fuel f i j <= n)%nat /\
  (forall a, (a < search_loop fuel f i j)%nat -> f a = false) /\
  (forall a, (search_loop fuel f i j <= a < n)%nat -> f a = true).
Proof.
  revert i j. induction fuel as [|fuel IH]; intros i j Hij Hf Hmono Hlo Hhi;
    cbn [search_loop]; cbv zeta.
  { assert (i = j) by lia. subst. split_and!; [lia|done|done]. }
  destruct (Nat.ltb_spec i j); [|assert (i = j) by lia; subst; split_and!; [lia|done|done]].
  assert (Hh : (i <= (i + j) / 2 < j)%nat).
  { split; [apply Nat.div_le_lower_bound; lia|apply Nat.Div0.div_lt_upper_bound; lia]. }
  destruct (f ((i + j) / 2)%nat) eqn:E.
  - apply IH; try done; [lia|lia|]. intros a Ha. eapply Hmono; [|exact E]. lia.
  - apply IH; try done; [lia|lia|]. intros a Ha.
    destruct (f a) eqn:Ea; [|done]. rewrite (Hmono a ((i + j) / 2)%nat) in E; [done|lia|done].
Qed.

(** [sort.Search] finds the smallest index at which a monotone predicate holds,
    [n] when there is none. *)
Lemma Search_correct n f :
  (forall a b, (a <= b < n)%nat -> f a = true -> f b = true) ->
  (Search n f <= n)%nat /\
  (forall a, (a < Search n f)%nat -> f a = false) /\
  (forall a, (Search n f <= a < n)%nat -> f a = true).
Proof. intros. apply search_loop_correct; try done; lia. Qed.

Lemma fnv32a_bytes_range bs h : in_u32 h -> in_u32 (fnv32a_bytes h bs).
Proof. revert h. induction bs as [|b bs IH]; intros h Hh; simpl; [done|]. apply IH, u32_range. Qed.

Lemma fnv32a_write_range s h : in_u32 h -> in_u32 (fnv32a_write h s).
Proof. revert h. induction s as [|c s IH]; intros h Hh; simpl; [done|]. apply IH, u32_range. Qed.

Lemma fnv32a_range s : in_u32 (fnv32a s).
Proof. apply fnv32a_write_range. by vm_compute. Qed.

Lemma fnv64a_write_range s h : in_u64 h -> in_u64 (fnv64a_write h s).
Proof. revert h. induction s as [|c s IH]; intros h Hh; simpl; [done|]. apply IH, u64_range. Qed.

Lemma fnv64a_range s : in_u64 (fnv64a s).
Proof. apply fnv64a_write_range. by vm_compute. Qed.

(** Writing two pieces is writing their concatenation. *)
Lemma fnv64a_write_app h s t : fnv64a_write h (s +:+ t) = fnv64a_write (fnv64a_write h s) t.
Proof. revert h. induction s as [|c s IH]; intros h; simpl; [done|]. apply IH. Qed.

(** Published test vectors. *)
Example fnv32a_a : fnv32a "a" = 3826002220. Proof. reflexivity. Qed.
Example fnv64a_a : fnv64a "a" = 12638187200555641996. Proof. reflexivity. Qed.
Example crc32_check : ChecksumIEEE "123456789" = 3421780262. Proof. reflexivity. Qed.
