(* ===== verification/NetIP.v ===== *)
(** * IP addresses: [net.ParseIP], [net.IP.To4], [net.SplitHostPort]

    The address parser of Go's standard library, as the balancers, the router
    and the middleware use it.  Addresses are lists of 16 byte values. *)
From S2P Require Import Prelude Http.
From Stdlib Require Import Ascii.

(** ** IPv4 *)

(** [netip.parseIPv4Fields]: [val], [digLen] describe the field under way,
    [fields] the finished ones, [prev_dot] says that the previous character was a
    dot (or that there was none). *)
Fixpoint parseIPv4Fields (s : string) (val digLen : Z) (prev_dot : bool)
    (fields : list Z) : option (list Z) :=
  match s with
  | EmptyString =>
      if bool_decide (length fields = 3%nat) && negb prev_dot
      then Some (fields ++ [val]) else None
  | String c r =>
      if is_digit c then
        if (digLen =? 1) && (val =? 0) then None
        else
          let val' := val * 10 + (byte_of c - 48) in
          if 255 <? val' then None
          else parseIPv4Fields r val' (digLen + 1) false fields
      else if byte_of c =? 46 then
        if prev_dot || bool_decide (length fields = 3%nat) then None
        else parseIPv4Fields r 0 0 true (fields ++ [val])
      else None
  end.

Definition parseIPv4 (s : string) : option (list Z) := parseIPv4Fields s 0 0 true [].

(** The 16-byte form of an IPv4 address. *)
Definition v4InV6Prefix : list Z := [0;0;0;0;0;0;0;0;0;0;255;255].

(** ** IPv6 *)

Definition hex_digit (c : ascii) : option Z :=
  if is_digit c then Some (byte_of c - 48)
  else if (97 <=? byte_of c) && (byte_of c <=? 102) then Some (byte_of c - 97 + 10)
  else if (65 <=? byte_of c) && (byte_of c <=? 70) then Some (byte_of c - 65 + 10)
  else None.

(** Reads the hex digits at the front of [s]: the value, the number of digits and
    the rest; [None] on a fifth digit. *)
Fixpoint parse_hex (s : string) (acc : Z) (off : nat) : option (Z * nat * string) :=
  match s with
  | EmptyString => Some (acc, off, s)
  | String c r =>
      match hex_digit c with
      | Some d => if (3 <? off)%nat then None else parse_hex r (acc * 16 + d) (S off)
      | None => Some (acc, off, s)
      end
  end.

(** The loop of [netip.parseIPv6]: [ip] holds the bytes parsed so far (two per
    group), [ellipsis] the position of [::].  Eight iterations fill the address. *)
Fixpoint parseIPv6_loop (fuel : nat) (s : string) (ip : list Z) (ellipsis : option nat)
    : option (list Z * option nat * string) :=
  match fuel with
  | O => Some (ip, ellipsis, s)
  | S fuel =>
      match parse_hex s 0 0 with
      | None => None
      | Some (acc, off, rest) =>
          if (off =? 0)%nat then None
          else if starts_with "."%char rest then
            if match ellipsis with
               | None => negb (length ip =? 12)%nat
               | Some _ => (16 <? length ip + 4)%nat
               end then None
            else match parseIPv4Fields s 0 0 true [] with
                 | None => None
                 | Some q => Some (ip ++ q, ellipsis, EmptyString)
                 end
          else
            let ip' := ip ++ [acc / 256; acc mod 256] in
            match rest with
            | EmptyString => Some (ip', ellipsis, EmptyString)
            | String c r =>
                if negb (byte_of c =? 58) then None
                else match r with
                | EmptyString => None
                | String c2 r2 =>
                    if byte_of c2 =? 58 then
                      match ellipsis with
                      | Some _ => None
                      | None =>
                          if bool_decide (r2 = EmptyString)
                          then Some (ip', Some (length ip'), EmptyString)
                          else parseIPv6_loop fuel r2 ip' (Some (length ip'))
                      end
                    else parseIPv6_loop fuel r ip' ellipsis
                end
            end
      end
  end.

Definition parseIPv6 (s : string) : option (list Z) :=
  let '(s, ellipsis) :=
    match s with
    | String c1 (String c2 r) =>
        if (byte_of c1 =? 58) && (byte_of c2 =? 58) then (r, Some 0%nat) else (s, None)
    | _ => (s, None)
    end in
  if bool_decide (s = EmptyString) && bool_decide (ellipsis = Some 0%nat)
  then Some (replicate 16 0)
  else match parseIPv6_loop 8 s [] ellipsis with
  | None => None
  | Some (ip, ell, rest) =>
      if negb (bool_decide (rest = EmptyString)) then None
      else if (length ip <? 16)%nat then
        match ell with
        | None => None
        | Some e => Some (take e ip ++ replicate (16 - length ip) 0 ++ drop e ip)
        end
      else match ell with Some _ => None | None => Some ip end
  end.

(** [net.ParseIP]: the first [.], [:] or [%] decides; an address with a zone is
    refused. *)
Fixpoint addr_kind (s : string) : option ascii :=
  match s with
  | EmptyString => None
  | String c r =>
      if (byte_of c =? 46) || (byte_of c =? 58) || (byte_of c =? 37) then Some c
      else addr_kind r
  end.

Fixpoint has_char (c : ascii) (s : string) : bool :=
  match s with
  | EmptyString => false
  | String a r => Ascii.eqb a c || has_char c r
  end.

Definition ParseIP (s : string) : option (list Z) :=
  match addr_kind s with
  | Some c =>
      if byte_of c =? 46 then
        match parseIPv4 s with Some q => Some (v4InV6Prefix ++ q) | None => None end
      else if byte_of c =? 58 then
        if has_char "%"%char s then None else parseIPv6 s
      else None
  | None => None
  end.

(** [IP.To4]. *)
Definition To4 (ip : list Z) : option (list Z) :=
  if bool_decide (take 12 ip = v4InV6Prefix) then Some (drop 12 ip) else None.

(** ** [net.SplitHostPort] *)

(** Position of the first [c]. *)
Fixpoint IndexByte (c : ascii) (s : string) : option nat :=
  match s with
  | EmptyString => None
  | String a r => if Ascii.eqb a c then Some 0%nat else S <$> IndexByte c r
  end.

Fixpoint string_drop (n : nat) (s : string) : string :=
  match n, s with
  | S n, String _ r => string_drop n r
  | _, _ => s
  end.

(** [None] stands for an error. *)
Definition SplitHostPort (hostport : string) : option (string * string) :=
  match LastIndex ":"%char hostport with
  | None => None
  | Some i =>
      if starts_with "["%char hostport then
        match IndexByte "]"%char hostport with
        | None => None
        | Some e =>
            if (S e =? String.length hostport)%nat then None
            else if (S e =? i)%nat then
              let host := string_drop 1 (string_take e hostport) in
              let port := string_drop (S i) hostport in
              if has_char "["%char (string_drop 1 hostport)
                 || has_char "]"%char (string_drop (S e) hostport) then None
              else Some (host, port)
            else None
        end
      else
        let host := string_take i hostport in
        let port := string_drop (S i) hostport in
        if has_char ":"%char host then None
        else if has_char "["%char hostport || has_char "]"%char hostport then None
        else Some (host, port)
  end.

Example parse_v4 : ParseIP "192.168.0.1" = Some (v4InV6Prefix ++ [192; 168; 0; 1]).
Proof. reflexivity. Qed.
Example parse_v4_leading_zero : ParseIP "192.168.00.1" = None.
Proof. reflexivity. Qed.
Example parse_v6 :
  ParseIP "2001:db8::1" = Some [32; 1; 13; 184; 0; 0; 0; 0; 0; 0; 0; 0; 0; 0; 0; 1].
Proof. reflexivity. Qed.
Example parse_v6_mapped : ParseIP "::ffff:10.0.0.1" = ParseIP "10.0.0.1".
Proof. reflexivity. Qed.
Example parse_v6_zone : ParseIP "fe80::1%eth0" = None.
Proof. reflexivity. Qed.
Example split_v6 : SplitHostPort "[::1]:8080" = Some ("::1", "8080").
Proof. reflexivity. Qed.
Example split_noport : SplitHostPort "example.com" = None.
Proof. reflexivity. Qed.
Example split_ok : SplitHostPort "example.com:443" = Some ("example.com", "443").
Proof. reflexivity. Qed.
