(* ===== verification/NetAddr.v ===== *)
(** * Printing and parsing of numbers and addresses

    [strconv.Itoa] and [strconv.Atoi], [net.IP] in its two lengths with [String],
    [To4] and [To16], and networks in CIDR notation ([net.ParseCIDR],
    [IPNet.Contains]).  Printing and parsing are inverse to each other: decimal
    numbers, dotted and colon-separated addresses. *)
From S2P Require Import Prelude Http Bytes NetIP.
From Stdlib Require Import Ascii.

(** ** Numbers *)

(** The digit [d < 16] in lower case. *)
Definition digit_char (d : Z) : ascii :=
  ascii_of_nat (Z.to_nat (if d <? 10 then 48 + d else 87 + d)).

(** The digits of [n >= 0], [fuel] of them at most. *)
Fixpoint format_uint (base : Z) (fuel : nat) (n : Z) : string :=
  match fuel with
  | O => ""
  | S fuel =>
      if n <? base then String (digit_char n) ""
      else format_uint base fuel (n / base) +:+ String (digit_char (n mod base)) ""
  end.

(** [strconv.Itoa]: an [int] has at most 19 digits. *)
Definition Itoa (n : Z) : string :=
  if n <? 0 then "-" +:+ format_uint 10 20 (- n) else format_uint 10 20 n.

(** The value of a string of decimal digits. *)
Fixpoint parse_digits (s : string) (acc : Z) : option Z :=
  match s with
  | EmptyString => Some acc
  | String c r => if is_digit c then parse_digits r (acc * 10 + (byte_of c - 48)) else None
  end.

(** [strconv.Atoi]: [None] is an error (syntax or range). *)
Definition Atoi (s : string) : option Z :=
  let number (digits : string) : option Z :=
    if bool_decide (digits = "") then None else parse_digits digits 0 in
  let in_range (z : Z) : option Z :=
    if (- 2 ^ 63 <=? z) && (z <? 2 ^ 63) then Some z else None in
  match s with
  | String c r =>
      if byte_of c =? 45 then n ← number r; in_range (- n)
      else if byte_of c =? 43 then number r ≫= in_range
      else number s ≫= in_range
  | EmptyString => None
  end.

(** ** [net.IP]: a slice of 4 or 16 bytes *)

Definition IP_To4 (ip : list Z) : option (list Z) :=
  if bool_decide (length ip = 4%nat) then Some ip
  else if bool_decide (length ip = 16%nat) then To4 ip else None.

Definition IP_To16 (ip : list Z) : option (list Z) :=
  if bool_decide (length ip = 4%nat) then Some (v4InV6Prefix ++ ip)
  else if bool_decide (length ip = 16%nat) then Some ip else None.

Definition IP_Equal (a b : list Z) : bool := bool_decide (IP_To16 a = IP_To16 b).

(** The eight groups of an address. *)
Fixpoint groups (ip : list Z) : list Z :=
  match ip with
  | a :: b :: r => a * 256 + b :: groups r
  | _ => []
  end.

Fixpoint zero_run (gs : list Z) : nat :=
  match gs with
  | g :: r => if g =? 0 then S (zero_run r) else 0
  | [] => 0
  end.

(** The longest run of at least two zero groups, the first of several: start and end. *)
Fixpoint longest_run (gs : list Z) (i : nat) (best : nat * nat) : nat * nat :=
  match gs with
  | [] => best
  | _ :: r =>
      let l := zero_run gs in
      longest_run r (S i) (if (2 <=? l)%nat && (best.2 - best.1 <? l)%nat then (i, i + l)%nat else best)
  end.

Definition hex_groups (gs : list Z) : string := Join ":"%char (format_uint 16 4 <$> gs).

(** [netip.Addr.String] for an IPv6 address. *)
Definition v6_string (ip : list Z) : string :=
  let gs := groups ip in
  let '(zs, ze) := longest_run gs 0 (0, 0)%nat in
  if (zs =? ze)%nat then hex_groups gs
  else hex_groups (take zs gs) +:+ "::" +:+ hex_groups (drop ze gs).

Definition v4_string (ip : list Z) : string := Join "."%char (format_uint 10 3 <$> ip).

Definition IP_String (ip : list Z) : string :=
  match IP_To4 ip with
  | Some q => v4_string q
  | None =>
      if bool_decide (length ip = 16%nat) then v6_string ip
      else if bool_decide (ip = []) then "<nil>"
      else "?" +:+ foldr (fun b s => String (digit_char (b / 16)) (String (digit_char (b mod 16)) s)) "" ip
  end.

(** [net.JoinHostPort]. *)
Definition JoinHostPort (host port : string) : string :=
  if existsb (fun b => b =? 58) (bytes_of host)
  then "[" +:+ host +:+ "]:" +:+ port else host +:+ ":" +:+ port.

(** ** Networks *)

Record IPNet := mkIPNet { net_IP : list Z; net_Mask : list Z }.

(** [net.CIDRMask(ones, bits)]: the byte at position [i]. *)
Definition mask_byte (ones i : Z) : Z :=
  let k := Z.max 0 (Z.min 8 (ones - 8 * i)) in 256 - 2 ^ (8 - k).

Definition CIDRMask (ones : Z) (bytes : nat) : list Z :=
  (fun i => mask_byte ones (Z.of_nat i)) <$> seq 0 bytes.

Definition land_bytes (a m : list Z) : list Z := zip_with Z.land a m.

(** [dtoi]: the decimal number at the front; it must be below 0xFFFFFF. *)
Fixpoint dtoi_loop (s : string) (n : Z) : option (Z * string) :=
  match s with
  | EmptyString => Some (n, s)
  | String c r =>
      if is_digit c then
        let n := n * 10 + (byte_of c - 48) in
        if 16777215 <=? n then None else dtoi_loop r n
      else Some (n, s)
  end.

Definition dtoi (s : string) : option (Z * string) :=
  match s with
  | String c _ => if is_digit c then dtoi_loop s 0 else None
  | EmptyString => None
  end.

(** Is the text of an address in IPv4 notation? *)
Definition is_v4_text (s : string) : bool :=
  match addr_kind s with Some c => byte_of c =? 46 | None => false end.

(** [net.ParseCIDR]: the address, and the network. *)
Definition ParseCIDR (s : string) : option (list Z * IPNet) :=
  match IndexByte "/"%char s with
  | None => None
  | Some i =>
      let addr := string_take i s in
      let mask := string_drop (S i) s in
      match ParseIP addr with
      | None => None
      | Some ip =>
          let bits := if is_v4_text addr then 32 else 128 in
          match dtoi mask with
          | Some (n, EmptyString) =>
              if bits <? n then None
              else
                let m := CIDRMask n (Z.to_nat (bits / 8)) in
                (* [IP.Mask] applies a 4-byte mask to the IPv4 form *)
                let nn := if bits =? 32 then land_bytes (drop 12 ip) m else land_bytes ip m in
                Some (ip, mkIPNet nn m)
          | _ => None
          end
      end
  end.

(** [networkNumberAndMask] and [IPNet.Contains]. *)
Definition networkNumberAndMask (n : IPNet) : option (list Z * list Z) :=
  let ip := default (net_IP n) (IP_To4 (net_IP n)) in
  if bool_decide (length ip = 4%nat) then
    if bool_decide (length (net_Mask n) = 4%nat) then Some (ip, net_Mask n)
    else if bool_decide (length (net_Mask n) = 16%nat) then Some (ip, drop 12 (net_Mask n))
    else None
  else if bool_decide (length ip = 16%nat) && bool_decide (length (net_Mask n) = 16%nat)
  then Some (ip, net_Mask n) else None.

Definition Contains (n : IPNet) (ip : list Z) : bool :=
  match networkNumberAndMask n with
  | None => false
  | Some (nn, m) =>
      let ip := default ip (IP_To4 ip) in
      bool_decide (length ip = length nn) && bool_decide (land_bytes nn m = land_bytes ip m)
  end.

Example string_v4 : IP_String (v4InV6Prefix ++ [10; 0; 200; 1]) = "10.0.200.1".
Proof. reflexivity. Qed.
Example string_v6 :
  IP_String [32; 1; 13; 184; 0; 0; 0; 0; 0; 0; 0; 0; 0; 0; 0; 1] = "2001:db8::1".
Proof. reflexivity. Qed.
Example string_v6_one_zero :
  IP_String [32; 1; 0; 0; 0; 1; 0; 2; 0; 0; 0; 0; 0; 3; 0; 4] = "2001:0:1:2::3:4".
Proof. reflexivity. Qed.
Example string_loopback : IP_String (replicate 15 0 ++ [1]) = "::1".
Proof. reflexivity. Qed.
Example cidr_contains :
  match ParseCIDR "10.1.2.3/9" with
  | Some (_, n) => (Contains n [10; 127; 0; 1], Contains n [10; 128; 0; 1])
  | None => (false, false)
  end = (true, false).
Proof. reflexivity. Qed.
Example atoi_ex : (Atoi "443", Atoi "-7", Atoi "+7", Atoi "", Atoi "4x", Atoi "9223372036854775808")
  = (Some 443, Some (-7), Some 7, None, None, None).
Proof. reflexivity. Qed.

(** ** Printing and parsing: digits *)

(** [String.append] does not simplify by itself. *)
Lemma append_cons x (a b : string) : String x a +:+ b = String x (a +:+ b).
Proof. done. Qed.

Lemma append_nil (b : string) : "" +:+ b = b.
Proof. done. Qed.

Lemma app_assoc_string (a b c : string) : (a +:+ b) +:+ c = a +:+ (b +:+ c).
Proof. induction a as [|x a IH]; [done|]. by rewrite !append_cons, IH. Qed.

Lemma app_empty_r (s : string) : s +:+ "" = s.
Proof. induction s as [|x s IH]; [done|]. by rewrite append_cons, IH. Qed.

Lemma length_app_string (a b : string) :
  String.length (a +:+ b) = (String.length a + String.length b)%nat.
Proof. induction a as [|x a IH]; [done|]. rewrite append_cons. simpl. by rewrite IH. Qed.

#[export] Hint Rewrite append_cons append_nil app_assoc_string app_empty_r : olb_str.

Lemma byte_of_digit_char d :
  0 <= d < 16 -> byte_of (digit_char d) = if d <? 10 then 48 + d else 87 + d.
Proof.
  intros H. unfold digit_char, byte_of. rewrite nat_ascii_embedding; [|case_match; lia].
  case_match; lia.
Qed.

Lemma is_digit_char d : 0 <= d < 10 -> is_digit (digit_char d) = true.
Proof.
  intros H. unfold is_digit. rewrite byte_of_digit_char by lia.
  rewrite (proj2 (Z.ltb_lt _ _)) by lia. rewrite !(proj2 (Z.leb_le _ _)) by lia. done.
Qed.

Lemma digit_char_value d : 0 <= d < 10 -> byte_of (digit_char d) - 48 = d.
Proof.
  intros H. rewrite byte_of_digit_char, (proj2 (Z.ltb_lt _ _)) by lia. lia.
Qed.

Lemma hex_digit_char d : 0 <= d < 16 -> hex_digit (digit_char d) = Some d.
Proof.
  intros H. unfold hex_digit, is_digit. rewrite byte_of_digit_char by done.
  destruct (Z.ltb_spec d 10).
  - rewrite !(proj2 (Z.leb_le _ _)) by lia. simpl. f_equal. lia.
  - rewrite (proj2 (Z.leb_gt (87 + d) 57)) by lia. rewrite andb_false_r.
    rewrite !(proj2 (Z.leb_le _ _)) by lia. simpl. f_equal. lia.
Qed.

(** A printed number is not empty, starts with its leading digit and consists of digits. *)
Lemma format_uint_first base fuel n :
  1 < base -> 0 <= n ->
  exists d r, format_uint base (S fuel) n = String (digit_char d) r /\ 0 <= d < base.
Proof.
  intros Hb. revert n. induction fuel as [|fuel IH]; intros n Hn; simpl.
  - destruct (Z.ltb_spec n base); [eauto with lia|]. exists (n mod base), "". split; [done|].
    apply Z.mod_pos_bound. lia.
  - destruct (Z.ltb_spec n base); [eauto with lia|].
    destruct (IH (n / base)) as (d & r & E & Hd); [apply Z.div_pos; lia|].
    simpl in E. rewrite E, append_cons. eauto.
Qed.

Lemma format_uint_length base fuel n j :
  1 < base -> 0 <= n < base ^ Z.of_nat (S j) -> (String.length (format_uint base fuel n) <= S j)%nat.
Proof.
  intros Hb. revert n j. induction fuel as [|fuel IH]; intros n j Hn; simpl; [lia|].
  destruct (Z.ltb_spec n base); simpl; [lia|].
  rewrite length_app_string. simpl. destruct j as [|j].
  - rewrite Z.pow_1_r in Hn. lia.
  - assert (0 <= n / base < base ^ Z.of_nat (S j)) as Hq.
    { split; [apply Z.div_pos; lia|]. apply Z.div_lt_upper_bound; [lia|].
      rewrite Nat2Z.inj_succ, Z.pow_succ_r in Hn by lia. lia. }
    specialize (IH _ _ Hq). lia.
Qed.

(** Every character of a printed number is a digit of the base. *)
Fixpoint all_chars (P : ascii -> Prop) (s : string) : Prop :=
  match s with
  | EmptyString => True
  | String c r => P c /\ all_chars P r
  end.

Lemma all_chars_app P a b : all_chars P (a +:+ b) <-> all_chars P a /\ all_chars P b.
Proof. induction a as [|c a IH]; [simpl; tauto|]. rewrite append_cons. simpl. rewrite IH. tauto. Qed.

Lemma all_chars_impl (P Q : ascii -> Prop) s :
  (forall c, P c -> Q c) -> all_chars P s -> all_chars Q s.
Proof. intros HPQ. induction s; simpl; naive_solver. Qed.

Definition is_digit_of (base : Z) (c : ascii) : Prop :=
  exists d, 0 <= d < base /\ c = digit_char d.

Lemma format_uint_chars base fuel n :
  1 < base -> 0 <= n -> all_chars (is_digit_of base) (format_uint base fuel n).
Proof.
  intros Hb. revert n. induction fuel as [|fuel IH]; intros n Hn; simpl; [done|].
  destruct (Z.ltb_spec n base); simpl.
  - split; [exists n; split; [lia|done]|done].
  - apply all_chars_app. split; [apply IH, Z.div_pos; lia|]. simpl. split; [|done].
    exists (n mod base). split; [apply Z.mod_pos_bound; lia|done].
Qed.

Lemma digit_of_byte base c :
  base <= 16 -> is_digit_of base c -> 48 <= byte_of c <= 57 \/ 97 <= byte_of c <= 102.
Proof.
  intros Hb (d & Hd & ->). rewrite byte_of_digit_char by lia. case_match; b2p; lia.
Qed.

Lemma parse_digits_format fuel n rest acc :
  0 <= n < 10 ^ Z.of_nat fuel ->
  parse_digits (format_uint 10 fuel n +:+ rest) acc =
  parse_digits rest (acc * 10 ^ Z.of_nat (String.length (format_uint 10 fuel n)) + n).
Proof.
  revert n acc rest. induction fuel as [|fuel IH]; intros n acc rest Hn.
  - simpl in *. rewrite append_nil. f_equal. lia.
  - rewrite Nat2Z.inj_succ, Z.pow_succ_r in Hn by lia. simpl.
    destruct (Z.ltb_spec n 10).
    + rewrite append_cons, append_nil. simpl.
      rewrite is_digit_char, digit_char_value by lia. f_equal; lia.
    + rewrite app_assoc_string, IH.
      2:{ split; [apply Z.div_pos; lia|]. apply Z.div_lt_upper_bound; lia. }
      rewrite append_cons, append_nil. simpl. pose proof (Z.mod_pos_bound n 10 ltac:(lia)).
      rewrite is_digit_char, digit_char_value by lia. f_equal.
      rewrite length_app_string. simpl. rewrite Nat.add_1_r, Nat2Z.inj_succ, Z.pow_succ_r by lia.
      pose proof (Z.div_mod n 10). lia.
Qed.

Lemma Atoi_number n :
  0 <= n < 10 ^ 20 ->
  (if bool_decide (format_uint 10 20 n = "") then None else parse_digits (format_uint 10 20 n) 0)
  = Some n.
Proof.
  intros Hn. destruct (format_uint_first 10 19 n) as (d & r & E & _); [lia..|].
  rewrite bool_decide_eq_false_2 by (rewrite E; done).
  rewrite <- (app_empty_r (format_uint 10 20 n)), parse_digits_format by lia.
  simpl parse_digits. f_equal.
Qed.

(** Reading back a printed [int]. *)
Lemma Atoi_Itoa n : in_i64 n -> Atoi (Itoa n) = Some n.
Proof.
  intros Hn. unfold in_i64 in Hn. unfold Itoa. destruct (Z.ltb_spec n 0).
  - unfold Atoi. rewrite append_cons, append_nil. change (byte_of "-" =? 45) with true. cbv iota.
    rewrite Atoi_number by lia. simpl. rewrite Z.opp_involutive.
    by rewrite (proj2 (Z.leb_le _ _)), (proj2 (Z.ltb_lt _ _)) by lia.
  - pose proof (Atoi_number n ltac:(lia)) as Hp.
    destruct (format_uint_first 10 19 n) as (d & r & E & Hd); [lia..|].
    unfold Atoi. rewrite E in *.
    rewrite byte_of_digit_char by lia. rewrite (proj2 (Z.ltb_lt d 10)) by lia.
    rewrite !(proj2 (Z.eqb_neq _ _)) by lia. rewrite Hp. simpl.
    by rewrite (proj2 (Z.leb_le _ _)), (proj2 (Z.ltb_lt _ _)) by lia.
Qed.

(** ** Printing and parsing: IPv4 *)

Lemma parse_field_format fuel n pd rest fields :
  0 <= n <= 255 -> n < 10 ^ Z.of_nat (S fuel) ->
  exists k, parseIPv4Fields (format_uint 10 (S fuel) n +:+ rest) 0 0 pd fields =
    parseIPv4Fields rest n k false fields.
Proof.
  revert n rest. induction fuel as [|fuel IH]; intros n rest Hn Hf; simpl format_uint.
  - rewrite (proj2 (Z.ltb_lt _ _)) by lia. rewrite append_cons, append_nil. cbn [parseIPv4Fields].
    rewrite is_digit_char, digit_char_value by lia. cbn [Z.eqb andb].
    rewrite Z.mul_0_l, Z.add_0_l.
    rewrite (proj2 (Z.ltb_ge 255 n)) by lia. eauto.
  - destruct (Z.ltb_spec n 10).
    + rewrite append_cons, append_nil. cbn [parseIPv4Fields].
      rewrite is_digit_char, digit_char_value by lia. cbn [Z.eqb andb].
    rewrite Z.mul_0_l, Z.add_0_l.
      rewrite (proj2 (Z.ltb_ge 255 n)) by lia. eauto.
    + assert (1 <= n / 10) by (apply Z.div_le_lower_bound; lia).
      assert (n / 10 <= n) by (apply Z.div_le_upper_bound; lia).
      rewrite Nat2Z.inj_succ, Z.pow_succ_r in Hf by lia.
      assert (n / 10 < 10 ^ Z.of_nat (S fuel)) by (apply Z.div_lt_upper_bound; lia).
      rewrite app_assoc_string. destruct (IH (n / 10) (String (digit_char (n mod 10)) "" +:+ rest))
        as [k E]; [lia|lia|]. simpl format_uint in E. rewrite E, append_cons, append_nil. simpl.
      pose proof (Z.mod_pos_bound n 10 ltac:(lia)).
      rewrite is_digit_char, digit_char_value by lia.
      rewrite (proj2 (Z.eqb_neq (n / 10) 0)), andb_false_r by lia.
      pose proof (Z.div_mod n 10 ltac:(lia)).
      replace (n / 10 * 10 + n mod 10) with n by lia.
      rewrite (proj2 (Z.ltb_ge 255 n)) by lia. eauto.
Qed.

Lemma parse_dot r v k fields :
  parseIPv4Fields (String "." r) v k false fields =
  if bool_decide (length fields = 3%nat) then None else parseIPv4Fields r 0 0 true (fields ++ [v]).
Proof. done. Qed.

Lemma v4_string_fields a b c d :
  is_byte a -> is_byte b -> is_byte c -> is_byte d ->
  parseIPv4 (v4_string [a; b; c; d]) = Some [a; b; c; d].
Proof.
  unfold is_byte. intros Ha Hb Hc Hd. unfold parseIPv4, v4_string. cbn [fmap list_fmap Join].
  assert (P : forall n, 0 <= n < 256 -> 0 <= n <= 255 /\ n < 10 ^ Z.of_nat 3) by (simpl; lia).
  edestruct (parse_field_format 2 a) as [k1 ->]; [by apply P..|]. rewrite parse_dot.
  edestruct (parse_field_format 2 b) as [k2 ->]; [by apply P..|]. rewrite parse_dot.
  edestruct (parse_field_format 2 c) as [k3 ->]; [by apply P..|]. rewrite parse_dot.
  rewrite <- (app_empty_r (format_uint 10 3 d)).
  edestruct (parse_field_format 2 d) as [k4 ->]; [by apply P..|]. done.
Qed.

(** The characters that decide the kind of an address. *)
Lemma addr_kind_skip s c r :
  all_chars (is_digit_of 16) s -> (byte_of c =? 46) || (byte_of c =? 58) || (byte_of c =? 37) = true ->
  addr_kind (s +:+ String c r) = Some c.
Proof.
  intros Hs Hc. induction s as [|a s IH]; [rewrite append_nil; simpl; by rewrite Hc|].
  destruct Hs as [Ha Hs]. rewrite append_cons. simpl.
  apply digit_of_byte in Ha; [|lia].
  rewrite !(proj2 (Z.eqb_neq _ _)) by lia. simpl. auto.
Qed.

Lemma format_hex_chars base fuel n :
  1 < base <= 16 -> 0 <= n -> all_chars (is_digit_of 16) (format_uint base fuel n).
Proof.
  intros Hb Hn. eapply all_chars_impl; [|apply (format_uint_chars base); lia].
  intros c (d & Hd & ->). exists d. split; [lia|done].
Qed.

Lemma v4_string_kind a b c d :
  0 <= a -> addr_kind (v4_string [a; b; c; d]) = Some "."%char.
Proof.
  intros Ha. unfold v4_string. cbn [fmap list_fmap Join].
  apply addr_kind_skip; [apply format_hex_chars; lia|done].
Qed.

Lemma four_bytes (q : list Z) :
  length q = 4%nat -> Forall is_byte q ->
  exists a b c d, q = [a; b; c; d] /\ is_byte a /\ is_byte b /\ is_byte c /\ is_byte d.
Proof.
  destruct q as [|a [|b [|c [|d [|? ?]]]]]; try done. intros _ H.
  exists a, b, c, d. repeat (apply Forall_cons in H as [? H]). done.
Qed.

Lemma ParseIP_v4_string q :
  length q = 4%nat -> Forall is_byte q -> ParseIP (v4_string q) = Some (v4InV6Prefix ++ q).
Proof.
  intros Hl Hq. destruct (four_bytes q Hl Hq) as (a & b & c & d & -> & Ha & Hb & Hc & Hd).
  unfold ParseIP. rewrite v4_string_kind by (unfold is_byte in *; lia).
  change (byte_of "." =? 46) with true. cbv iota. by rewrite v4_string_fields.
Qed.

(** ** Printing and parsing: IPv6 *)

Definition is_group (g : Z) : Prop := 0 <= g < 65536.

Definition group_bytes (gs : list Z) : list Z := gs ≫= fun g => [g / 256; g mod 256].

Lemma group_bytes_length gs : length (group_bytes gs) = (2 * length gs)%nat.
Proof. induction gs as [|g gs IH]; simpl; [done|]. rewrite IH. lia. Qed.

Lemma groups_spec ip n :
  length ip = (2 * n)%nat -> Forall is_byte ip ->
  length (groups ip) = n /\ Forall is_group (groups ip) /\ group_bytes (groups ip) = ip.
Proof.
  revert ip. induction n as [|n IH]; intros ip Hl Hb.
  - destruct ip; [|done]. done.
  - destruct ip as [|a [|b ip]]; simpl in Hl; try lia.
    apply Forall_cons in Hb as [Ha Hb]. apply Forall_cons in Hb as [Hb Hip].
    destruct (IH ip) as (E1 & E2 & E3); [lia|done|]. unfold is_byte in *.
    simpl groups. split_and!.
    + simpl. by rewrite E1.
    + constructor; [unfold is_group; lia|done].
    + cbn [group_bytes mbind list_bind app]. unfold group_bytes in E3. rewrite E3.
      f_equal; [|f_equal]; Z.div_mod_to_equations; lia.
Qed.

Lemma parse_hex_format fuel n rest acc off :
  0 <= n < 16 ^ Z.of_nat fuel -> (off + String.length (format_uint 16 fuel n) <= 4)%nat ->
  parse_hex (format_uint 16 fuel n +:+ rest) acc off =
  parse_hex rest (acc * 16 ^ Z.of_nat (String.length (format_uint 16 fuel n)) + n)
    (off + String.length (format_uint 16 fuel n)).
Proof.
  revert n acc off rest. induction fuel as [|fuel IH]; intros n acc off rest Hn Hk.
  - simpl in *. rewrite append_nil. f_equal; lia.
  - rewrite Nat2Z.inj_succ, Z.pow_succ_r in Hn by lia. simpl format_uint in *.
    destruct (Z.ltb_spec n 16).
    + rewrite append_cons, append_nil. cbn [parse_hex String.length] in *.
      rewrite hex_digit_char by lia.
      rewrite (proj2 (Nat.ltb_ge 3 off)) by lia.
      change (16 ^ Z.of_nat 1) with 16. by rewrite Nat.add_1_r.
    + rewrite length_app_string in *. cbn [String.length] in *.
      rewrite app_assoc_string, IH.
      3: lia.
      2:{ split; [apply Z.div_pos; lia|]. apply Z.div_lt_upper_bound; lia. }
      set (k := String.length (format_uint 16 fuel (n / 16))) in *.
      rewrite append_cons, append_nil. cbn [parse_hex].
      pose proof (Z.mod_pos_bound n 16 ltac:(lia)). rewrite hex_digit_char by lia.
      rewrite (proj2 (Nat.ltb_ge 3 (off + k))) by lia.
      rewrite Nat.add_1_r, Nat2Z.inj_succ, Z.pow_succ_r, Nat.add_succ_r by lia. f_equal.
      pose proof (Z.div_mod n 16). lia.
Qed.

(** What may follow a group: nothing, or a character that is no hex digit. *)
Definition ends_group (s : string) : Prop :=
  match s with EmptyString => True | String c _ => hex_digit c = None end.

Lemma parse_hex_group g rest :
  is_group g -> ends_group rest ->
  exists k, (0 < k)%nat /\ parse_hex (format_uint 16 4 g +:+ rest) 0 0 = Some (g, k, rest).
Proof.
  intros Hg Hr. unfold is_group in Hg.
  pose proof (format_uint_length 16 4 g 3 ltac:(lia) ltac:(simpl; lia)) as Hl.
  exists (String.length (format_uint 16 4 g)).
  destruct (format_uint_first 16 3 g) as (d & r & E & _); [lia..|].
  split; [rewrite E; simpl; lia|].
  rewrite parse_hex_format by (change (16 ^ Z.of_nat 4) with 65536; lia). rewrite Z.mul_0_l, Z.add_0_l, Nat.add_0_l.
  destruct rest as [|c r']; simpl; [done|]. simpl in Hr. by rewrite Hr.
Qed.

(** One group and what follows it. *)
Lemma loop_group fuel g rest ip ell :
  is_group g -> ends_group rest -> starts_with "." rest = false ->
  parseIPv6_loop (S fuel) (format_uint 16 4 g +:+ rest) ip ell =
  let ip' := ip ++ [g / 256; g mod 256] in
  match rest with
  | EmptyString => Some (ip', ell, EmptyString)
  | String c r =>
      if negb (byte_of c =? 58) then None
      else match r with
      | EmptyString => None
      | String c2 r2 =>
          if byte_of c2 =? 58 then
            match ell with
            | Some _ => None
            | None =>
                if bool_decide (r2 = EmptyString)
                then Some (ip', Some (length ip'), EmptyString)
                else parseIPv6_loop fuel r2 ip' (Some (length ip'))
            end
          else parseIPv6_loop fuel r ip' ell
      end
  end.
Proof.
  intros Hg Hr Hd. destruct (parse_hex_group g rest Hg Hr) as (k & Hk & E).
  cbn [parseIPv6_loop]. rewrite E. rewrite (proj2 (Nat.eqb_neq k 0)) by lia. by rewrite Hd.
Qed.

Lemma hex_groups_cons g g' gs :
  hex_groups (g :: g' :: gs) = format_uint 16 4 g +:+ String ":" (hex_groups (g' :: gs)).
Proof. done. Qed.

Lemma hex_groups_first g gs :
  is_group g -> exists c r, hex_groups (g :: gs) = String c r /\ (byte_of c =? 58) = false.
Proof.
  intros Hg. unfold is_group in Hg.
  destruct (format_uint_first 16 3 g) as (d & r & E & Hd); [lia..|].
  assert (Hc : (byte_of (digit_char d) =? 58) = false).
  { apply Z.eqb_neq. rewrite byte_of_digit_char by lia. case_match; b2p; lia. }
  destruct gs as [|g' gs].
  - exists (digit_char d), r. split; [exact E|done].
  - rewrite hex_groups_cons, E, append_cons. eauto.
Qed.

(** A whole sequence of groups at the end of the address. *)
Lemma loop_groups gs fuel ip ell :
  gs <> [] -> Forall is_group gs -> (length gs <= fuel)%nat ->
  parseIPv6_loop fuel (hex_groups gs) ip ell = Some (ip ++ group_bytes gs, ell, "").
Proof.
  revert fuel ip. induction gs as [|g gs IH]; intros fuel ip Hne Hg Hf; [done|].
  apply Forall_cons in Hg as [Hg Hgs]. destruct fuel as [|fuel]; [simpl in Hf; lia|].
  destruct gs as [|g' gs].
  - change (hex_groups [g]) with (format_uint 16 4 g).
    rewrite <- (app_empty_r (format_uint 16 4 g)), loop_group by done. done.
  - rewrite hex_groups_cons, loop_group by done. cbv zeta.
    destruct (hex_groups_first g' gs) as (c & r & E & Hc); [by apply Forall_cons in Hgs as [? _]|].
    rewrite E, Hc, <- E, IH by (done || simpl in *; lia).
    change (byte_of ":" =? 58) with true. cbn [negb group_bytes mbind list_bind].
    by rewrite <- app_assoc.
Qed.

(** A sequence of groups before the ellipsis. *)
Lemma loop_ellipsis gs fuel ip tl :
  gs <> [] -> Forall is_group gs -> (length gs <= fuel)%nat ->
  let ip' := ip ++ group_bytes gs in
  parseIPv6_loop fuel (hex_groups gs +:+ "::" +:+ tl) ip None =
  if bool_decide (tl = "") then Some (ip', Some (length ip'), "")
  else parseIPv6_loop (fuel - length gs) tl ip' (Some (length ip')).
Proof.
  revert fuel ip. induction gs as [|g gs IH]; intros fuel ip Hne Hg Hf; [done|].
  apply Forall_cons in Hg as [Hg Hgs]. destruct fuel as [|fuel]; [simpl in Hf; lia|].
  destruct gs as [|g' gs].
  - change (hex_groups [g]) with (format_uint 16 4 g).
    rewrite !append_cons, append_nil, loop_group by done.
    change (byte_of ":" =? 58) with true. cbn [negb group_bytes mbind list_bind length].
    by replace (S fuel - 1)%nat with fuel by lia.
  - rewrite hex_groups_cons, app_assoc_string, append_cons, loop_group by done. cbv zeta.
    destruct (hex_groups_first g' gs) as (c & r & E & Hc); [by apply Forall_cons in Hgs as [? _]|].
    rewrite E, append_cons, Hc, <- append_cons, <- E, IH by (done || simpl in *; lia).
    change (byte_of ":" =? 58) with true. cbn [negb group_bytes mbind list_bind].
    rewrite <- app_assoc. cbn [length app]. by replace (S fuel - S (S (length gs)))%nat
      with (fuel - S (length gs))%nat by lia.
Qed.

Lemma zero_run_spec gs :
  (zero_run gs <= length gs)%nat /\ take (zero_run gs) gs = replicate (zero_run gs) 0.
Proof.
  induction gs as [|g gs [IH1 IH2]]; simpl; [done|].
  destruct (Z.eqb_spec g 0) as [->|]; simpl; [|split; [lia|done]].
  split; [lia|]. by rewrite IH2.
Qed.

(** A run of zero groups worth abbreviating, or none. *)
Definition good_run (gs : list Z) (r : nat * nat) : Prop :=
  r.1 = r.2 \/
  (r.1 + 2 <= r.2 /\ r.2 <= length gs)%nat /\
  take (r.2 - r.1) (drop r.1 gs) = replicate (r.2 - r.1) 0.

Lemma longest_run_spec gs i best :
  (i <= length gs)%nat -> good_run gs best -> good_run gs (longest_run (drop i gs) i best).
Proof.
  intros Hi. remember (drop i gs) as l eqn:El. revert i best Hi El.
  induction l as [|g l IH]; intros i best Hi El Hb; [done|]. cbn [longest_run].
  assert (Hlen : length (drop i gs) = S (length l)) by (by rewrite <- El).
  rewrite length_drop in Hlen.
  apply IH; [lia| |].
  - rewrite <- Nat.add_1_r, <- drop_drop, <- El. done.
  - destruct (Nat.leb_spec 2 (zero_run (g :: l))); cbn [andb]; [|done].
    destruct (best.2 - best.1 <? zero_run (g :: l))%nat; [|done].
    right. cbn [fst snd]. destruct (zero_run_spec (g :: l)) as [H1 H2].
    replace (i + zero_run (g :: l) - i)%nat with (zero_run (g :: l)) by lia.
    split; [simpl length in H1; lia|]. by rewrite <- El.
Qed.

Lemma group_bytes_app a b : group_bytes (a ++ b) = group_bytes a ++ group_bytes b.
Proof. apply bind_app. Qed.

Lemma group_bytes_zeros n : group_bytes (replicate n 0) = replicate (2 * n) 0.
Proof.
  induction n as [|n IH]; [done|]. cbn [replicate group_bytes mbind list_bind].
  unfold group_bytes in IH. rewrite IH. by replace (2 * S n)%nat with (S (S (2 * n))) by lia.
Qed.

(** The eight groups of the address, with the run abbreviated, give the address back. *)
Lemma parse_run gs zs ze :
  Forall is_group gs -> length gs = 8%nat -> (zs + 2 <= ze <= 8)%nat ->
  take (ze - zs) (drop zs gs) = replicate (ze - zs) 0 ->
  parseIPv6 (hex_groups (take zs gs) +:+ "::" +:+ hex_groups (drop ze gs)) = Some (group_bytes gs).
Proof.
  intros Hg Hl Hz Hzero.
  assert (Egs : gs = take zs gs ++ replicate (ze - zs) 0 ++ drop ze gs).
  { rewrite <- (take_drop zs gs) at 1. f_equal. rewrite <- Hzero.
    rewrite <- (take_drop (ze - zs) (drop zs gs)) at 1. f_equal. rewrite drop_drop. f_equal. lia. }
  set (A := take zs gs) in *. set (B := drop ze gs) in *.
  assert (HA : length A = zs) by (unfold A; rewrite length_take; lia).
  assert (HB : length B = (8 - ze)%nat) by (unfold B; rewrite length_drop; lia).
  assert (GA : Forall is_group A) by by apply Forall_take.
  assert (GB : Forall is_group B) by by apply Forall_drop.
  assert (Ebytes : group_bytes gs = group_bytes A ++ replicate (2 * (ze - zs)) 0 ++ group_bytes B).
  { rewrite Egs at 1. by rewrite !group_bytes_app, group_bytes_zeros. }
  assert (Efill : forall e, e = length (group_bytes A) ->
    take e (group_bytes A ++ group_bytes B) ++
      replicate (16 - length (group_bytes A ++ group_bytes B)) 0 ++
      drop e (group_bytes A ++ group_bytes B) = group_bytes gs).
  { intros e ->. rewrite take_app_length, drop_app_length, Ebytes, length_app, !group_bytes_length.
    do 3 f_equal. lia. }
  assert (Hshort : (length (group_bytes A ++ group_bytes B) <? 16)%nat = true).
  { apply Nat.ltb_lt. rewrite length_app, !group_bytes_length. lia. }
  unfold parseIPv6. destruct A as [|a A].
  - change (hex_groups []) with "". rewrite append_nil, !append_cons, append_nil.
    change ((byte_of ":" =? 58) && (byte_of ":" =? 58)) with true. cbv iota beta.
    destruct B as [|b B].
    + change (hex_groups []) with "". cbn -[replicate]. f_equal.
      rewrite <- (Efill 0%nat) by done. done.
    + destruct (hex_groups_first b B) as (c & r & E & _); [by apply Forall_cons in GB as [? _]|].
      rewrite bool_decide_eq_false_2 by (rewrite E; done). cbv iota beta.
      rewrite andb_false_l. rewrite loop_groups by (done || simpl in *; lia).
      rewrite bool_decide_eq_true_2 by done. cbn [negb].
      change (group_bytes []) with (@nil Z) in *.
      rewrite Hshort. f_equal. by apply Efill.
  - assert (Hhead : exists c r, hex_groups (a :: A) = String c r /\ (byte_of c =? 58) = false)
      by (apply hex_groups_first; by apply Forall_cons in GA as [? _]).
    destruct Hhead as (c & r & E & Hc).
    assert (Hs : match hex_groups (a :: A) +:+ "::" +:+ hex_groups B with
      | String c1 (String c2 r) =>
          if (byte_of c1 =? 58) && (byte_of c2 =? 58) then (r, Some 0%nat)
          else (hex_groups (a :: A) +:+ "::" +:+ hex_groups B, None)
      | _ => (hex_groups (a :: A) +:+ "::" +:+ hex_groups B, None)
      end = (hex_groups (a :: A) +:+ "::" +:+ hex_groups B, None)).
    { rewrite E, append_cons. case_match; [done|]. by rewrite Hc. }
    rewrite Hs. rewrite bool_decide_eq_false_2 by (rewrite E, append_cons; done).
    rewrite andb_false_l. rewrite loop_ellipsis by (done || simpl in *; lia).
    rewrite app_nil_l. destruct B as [|b B].
    + change (hex_groups []) with "". rewrite bool_decide_eq_true_2 by done.
      rewrite bool_decide_eq_true_2 by done. cbn [negb].
      change (group_bytes []) with (@nil Z) in *. rewrite app_nil_r in *.
      rewrite Hshort. f_equal. by apply Efill.
    + destruct (hex_groups_first b B) as (c' & r' & E' & _); [by apply Forall_cons in GB as [? _]|].
      rewrite bool_decide_eq_false_2 by (rewrite E'; done).
      rewrite loop_groups by (done || simpl in *; lia).
      rewrite bool_decide_eq_true_2 by done. cbn [negb].
      rewrite Hshort. f_equal. by apply Efill.
Qed.

Lemma parse_groups gs :
  Forall is_group gs -> length gs = 8%nat -> parseIPv6 (hex_groups gs) = Some (group_bytes gs).
Proof.
  intros Hg Hl. destruct gs as [|g gs]; [done|].
  destruct (hex_groups_first g gs) as (c & r & E & Hc); [by apply Forall_cons in Hg as [? _]|].
  unfold parseIPv6.
  assert (Hs : match hex_groups (g :: gs) with
    | String c1 (String c2 r) =>
        if (byte_of c1 =? 58) && (byte_of c2 =? 58) then (r, Some 0%nat)
        else (hex_groups (g :: gs), None)
    | _ => (hex_groups (g :: gs), None)
    end = (hex_groups (g :: gs), None)) by (rewrite E; case_match; [done|]; by rewrite Hc).
  rewrite Hs, bool_decide_eq_false_2 by (rewrite E; done). rewrite andb_false_l.
  rewrite loop_groups by (done || lia). rewrite bool_decide_eq_true_2 by done. cbn [negb].
  rewrite app_nil_l, group_bytes_length, Hl. done.
Qed.

Lemma hex_groups_chars gs :
  Forall is_group gs -> all_chars (fun c => is_digit_of 16 c \/ c = ":"%char) (hex_groups gs).
Proof.
  induction gs as [|g gs IH]; [done|]. intros [Hg Hgs]%Forall_cons. unfold is_group in Hg.
  assert (H : all_chars (fun c => is_digit_of 16 c \/ c = ":"%char) (format_uint 16 4 g)).
  { eapply all_chars_impl; [|apply (format_uint_chars 16 4 g); lia]. auto. }
  destruct gs as [|g' gs]; [exact H|]. rewrite hex_groups_cons. apply all_chars_app.
  split; [exact H|]. split; [by right|]. by apply IH.
Qed.

Lemma has_char_digits s :
  all_chars (fun c => is_digit_of 16 c \/ c = ":"%char) s -> has_char "%" s = false.
Proof.
  induction s as [|c s IH]; [done|]. intros [Hc Hs]. simpl. rewrite IH, orb_false_r by done.
  destruct (Ascii.eqb_spec c "%") as [->|]; [|done]. exfalso.
  destruct Hc as [Hc|Hc]; [|done]. apply digit_of_byte in Hc; [|lia].
  change (byte_of "%") with 37 in Hc. lia.
Qed.

Lemma hex_groups_kind g gs tl :
  is_group g -> gs <> [] -> addr_kind (hex_groups (g :: gs) +:+ tl) = Some ":"%char.
Proof.
  intros Hg Hne. unfold is_group in Hg. destruct gs as [|g' gs]; [done|].
  rewrite hex_groups_cons, app_assoc_string, append_cons.
  apply addr_kind_skip; [apply format_hex_chars; lia|done].
Qed.

Lemma ellipsis_kind gs tl :
  Forall is_group gs -> addr_kind (hex_groups gs +:+ String ":" tl) = Some ":"%char.
Proof.
  intros Hg. destruct gs as [|g [|g' gs]]; [done| |].
  - apply Forall_cons in Hg as [Hg _]. unfold is_group in Hg.
    apply addr_kind_skip; [apply format_hex_chars; lia|done].
  - apply Forall_cons in Hg as [Hg _]. by apply hex_groups_kind.
Qed.

Lemma ParseIP_v6_string ip :
  length ip = 16%nat -> Forall is_byte ip -> ParseIP (v6_string ip) = Some ip.
Proof.
  intros Hl Hb. destruct (groups_spec ip 8 Hl Hb) as (E1 & E2 & E3).
  unfold v6_string. pose proof (longest_run_spec (groups ip) 0 (0, 0)%nat ltac:(lia) ltac:(by left)) as Hr.
  rewrite drop_0 in Hr. destruct (longest_run (groups ip) 0 (0, 0)%nat) as [zs ze] eqn:Er.
  destruct (Nat.eqb_spec zs ze) as [Heq|Hne].
  - assert (Hk : addr_kind (hex_groups (groups ip)) = Some ":"%char).
    { destruct (groups ip) as [|g [|g' gs]]; try done. rewrite <- (app_empty_r (hex_groups _)).
      apply hex_groups_kind; [by apply Forall_cons in E2 as [? _]|done]. }
    unfold ParseIP. rewrite Hk. change (byte_of ":" =? 46) with false.
    change (byte_of ":" =? 58) with true. cbv iota.
    rewrite has_char_digits by (by apply hex_groups_chars). by rewrite parse_groups, E3.
  - destruct Hr as [Hr|[Hr1 Hr2]]; [simpl in Hr; done|]. cbn [fst snd] in Hr1, Hr2.
    assert (GA : Forall is_group (take zs (groups ip))) by by apply Forall_take.
    assert (GB : Forall is_group (drop ze (groups ip))) by by apply Forall_drop.
    unfold ParseIP. rewrite append_cons, ellipsis_kind by done.
    change (byte_of ":" =? 46) with false. change (byte_of ":" =? 58) with true. cbv iota.
    rewrite <- append_cons, has_char_digits.
    + rewrite parse_run by (done || lia). by rewrite E3.
    + apply all_chars_app. split; [by apply hex_groups_chars|].
      apply all_chars_app. split; [split; [by right|split; [by right|done]]|].
      by apply hex_groups_chars.
Qed.

(** An address of either length. *)
Definition valid_ip (ip : list Z) : Prop :=
  (length ip = 4%nat \/ length ip = 16%nat) /\ Forall is_byte ip.

(** Reading back a printed address gives its 16-byte form. *)
Lemma ParseIP_String ip : valid_ip ip -> ParseIP (IP_String ip) = IP_To16 ip.
Proof.
  intros [[Hl|Hl] Hb]; unfold IP_String, IP_To4, IP_To16; rewrite Hl; cbn [bool_decide decide_rel].
  - rewrite !bool_decide_eq_true_2 by done. by apply ParseIP_v4_string.
  - rewrite !(bool_decide_eq_false_2 (16%nat = 4%nat)), !(bool_decide_eq_true_2 (16%nat = 16%nat)) by done.
    unfold To4. case_bool_decide as Hp; [|by apply ParseIP_v6_string].
    rewrite ParseIP_v4_string; [|by rewrite length_drop, Hl|by apply Forall_drop].
    by rewrite <- Hp, take_drop.
Qed.

(** ** Strings of safe characters *)

Lemma Split_Join c parts :
  parts <> [] -> Forall (all_chars (fun a => a <> c)) parts -> Split c (Join c parts) = parts.
Proof.
  assert (Hone : forall p, all_chars (fun a => a <> c) p -> Split c p = [p]).
  { induction p as [|a p IH]; [done|]. intros [Ha Hp]. simpl.
    destruct (Ascii.eqb_spec a c); [done|]. by rewrite IH. }
  assert (Hcons : forall p r, all_chars (fun a => a <> c) p ->
    Split c (p +:+ String c r) = p :: Split c r).
  { induction p as [|a p IH]; intros r Hp.
    - rewrite append_nil. simpl. by rewrite Ascii.eqb_refl.
    - destruct Hp as [Ha Hp]. rewrite append_cons. simpl.
      destruct (Ascii.eqb_spec a c); [done|]. by rewrite IH. }
  induction parts as [|p parts IH]; [done|]. intros _ [Hp Hps]%Forall_cons.
  destruct parts as [|q parts]; [by apply Hone|].
  change (Join c (p :: q :: parts)) with (p +:+ String c (Join c (q :: parts))).
  rewrite Hcons by done. by rewrite IH.
Qed.

Lemma bytes_of_app a b : bytes_of (a +:+ b) = bytes_of a ++ bytes_of b.
Proof. induction a as [|c a IH]; [done|]. rewrite append_cons. simpl. by rewrite IH. Qed.

(** Characters above the space. *)
Definition visible (c : ascii) : Prop := 32 < byte_of c.

Lemma digit_visible base c : base <= 16 -> is_digit_of base c -> visible c.
Proof. intros Hb Hc. apply digit_of_byte in Hc; [|done]. unfold visible. lia. Qed.

Lemma format_visible base fuel n : 1 < base <= 16 -> 0 <= n -> all_chars visible (format_uint base fuel n).
Proof.
  intros Hb Hn. eapply all_chars_impl; [|apply (format_uint_chars base); lia].
  intros c. apply digit_visible. lia.
Qed.

Lemma Join_visible c parts :
  visible c -> Forall (all_chars visible) parts -> all_chars visible (Join c parts).
Proof.
  intros Hc. induction parts as [|p [|q parts] IH]; intros Hp; [done| |].
  - by apply Forall_cons in Hp as [? _].
  - apply Forall_cons in Hp as [Hp Hq].
    change (Join c (p :: q :: parts)) with (p +:+ String c (Join c (q :: parts))).
    apply all_chars_app. split; [done|]. split; [done|]. by apply IH.
Qed.

Lemma fmap_visible base fuel l :
  1 < base <= 16 -> Forall (fun n => 0 <= n) l -> Forall (all_chars visible) (format_uint base fuel <$> l).
Proof.
  intros Hb. induction 1; simpl; constructor; [|done]. by apply format_visible.
Qed.

Lemma hex_groups_visible gs : Forall is_group gs -> all_chars visible (hex_groups gs).
Proof.
  intros H. apply Join_visible; [done|]. apply fmap_visible; [lia|].
  eapply Forall_impl; [exact H|]. unfold is_group. intros; simpl in *; lia.
Qed.

Lemma v4_string_visible q : Forall is_byte q -> all_chars visible (v4_string q).
Proof.
  intros H. apply Join_visible; [done|]. apply fmap_visible; [lia|].
  eapply Forall_impl; [exact H|]. unfold is_byte. intros; simpl in *; lia.
Qed.

Lemma IP_String_visible ip : valid_ip ip -> all_chars visible (IP_String ip).
Proof.
  intros [Hl Hb]. unfold IP_String. destruct (IP_To4 ip) as [q|] eqn:E.
  - apply v4_string_visible. unfold IP_To4, To4 in E.
    repeat case_match; simplify_eq; by try apply Forall_drop.
  - unfold IP_To4 in E. case_bool_decide as H4; [done|].
    rewrite bool_decide_eq_true_2 by (destruct Hl; done).
    destruct (groups_spec ip 8) as (_ & Hg & _); [destruct Hl; lia|done|].
    unfold v6_string. destruct (longest_run _ _ _) as [zs ze].
    destruct (zs =? ze)%nat; [by apply hex_groups_visible|].
    rewrite !all_chars_app. split; [by apply hex_groups_visible, Forall_take|].
    split; [by repeat split|]. by apply hex_groups_visible, Forall_drop.
Qed.

Lemma Itoa_visible n : 0 <= n -> all_chars visible (Itoa n).
Proof.
  intros Hn. unfold Itoa. rewrite (proj2 (Z.ltb_ge _ _)) by done. by apply format_visible.
Qed.
