(* ===== verification/GoTime.v ===== *)
(** * Durations: [time.ParseDuration]

    The configuration writes durations as text.  The parser of Go's [time] package is
    modelled in full: signs, fractions in binary64, the unit names and the overflow checks
    in [uint64]. *)
From S2P Require Import Prelude GoFloat Http Bytes NetIP NetAddr.
From Stdlib Require Import Ascii.

(** [leadingInt]: the digits at the front; [None] is an overflow. *)
Fixpoint leadingInt (s : string) (x : Z) : option (Z * string) :=
  match s with
  | "" => Some (x, s)
  | String c rest =>
      if negb (is_digit c) then Some (x, s)
      else if 2 ^ 63 / 10 <? x then None
      else let x := x * 10 + (byte_of c - 48) in
           if 2 ^ 63 <? x then None else leadingInt rest x
  end.

(** [leadingFraction]: digits that do not fit are skipped. *)
Fixpoint leadingFraction (s : string) (x : Z) (scale : float64) (overflow : bool) : Z * float64 * string :=
  match s with
  | "" => (x, scale, s)
  | String c rest =>
      if negb (is_digit c) then (x, scale, s)
      else if overflow then leadingFraction rest x scale true
      else if (2 ^ 63 - 1) / 10 <? x then leadingFraction rest x scale true
      else let y := x * 10 + (byte_of c - 48) in
           if 2 ^ 63 <? y then leadingFraction rest x scale true
           else leadingFraction rest y (f64_mul scale (f64_of_Z 10)) false
  end.

(** The bytes of the two spellings of the micro sign. *)
Definition micro : string := String (ascii_of_nat 194) (String (ascii_of_nat 181) "s").
Definition greek_mu : string := String (ascii_of_nat 206) (String (ascii_of_nat 188) "s").

Definition unitMap (u : string) : option Z :=
  if bool_decide (u = "ns") then Some 1
  else if bool_decide (u = "us") || bool_decide (u = micro) || bool_decide (u = greek_mu) then Some 1000
  else if bool_decide (u = "ms") then Some 1000000
  else if bool_decide (u = "s") then Some 1000000000
  else if bool_decide (u = "m") then Some 60000000000
  else if bool_decide (u = "h") then Some 3600000000000
  else None.

Definition is_number_byte (c : ascii) : bool := Ascii.eqb c "."%char || is_digit c.

(** The unit: everything up to the next digit or dot. *)
Fixpoint take_unit (s : string) : string * string :=
  match s with
  | "" => ("", "")
  | String c rest =>
      if is_number_byte c then ("", s) else let '(u, r) := take_unit rest in (String c u, r)
  end.

(** One round of the loop: a number, a unit, and what is left. *)
Definition parse_component (s : string) : option (Z * string) :=
  match s with
  | "" => None
  | String c _ =>
      if negb (is_number_byte c) then None
      else
        match leadingInt s 0 with
        | None => None
        | Some (v, s1) =>
            let pre := negb (String.length s =? String.length s1)%nat in
            let '(f, scale, s2, post) :=
              if starts_with "."%char s1 then
                let s1 := tail s1 in
                let '(f, scale, s2) := leadingFraction s1 0 (f64_of_Z 1) false in
                (f, scale, s2, negb (String.length s1 =? String.length s2)%nat)
              else (0, f64_of_Z 1, s1, false) in
            if negb pre && negb post then None
            else
              let '(u, s3) := take_unit s2 in
              match unitMap u with
              | None => None
              | Some unit =>
                  if 2 ^ 63 / unit <? v then None
                  else
                    let v := v * unit in
                    if 0 <? f then
                      let v := u64 (v + f64_to_Z (f64_mul (f64_of_Z f) (f64_div (f64_of_Z unit) scale))) in
                      if 2 ^ 63 <? v then None else Some (v, s3)
                    else Some (v, s3)
              end
        end
  end.

(** Every round consumes at least the unit, so the length of the text bounds the rounds. *)
Fixpoint duration_loop (fuel : nat) (s : string) (d : Z) : option Z :=
  match fuel with
  | O => None
  | S fuel =>
      if bool_decide (s = "") then Some d
      else
        match parse_component s with
        | None => None
        | Some (v, s) =>
            let d := u64 (d + v) in
            if 2 ^ 63 <? d then None else duration_loop fuel s d
        end
  end.

Definition ParseDuration (s : string) : option Z :=
  let '(neg, s) :=
    match s with
    | String c rest =>
        if Ascii.eqb c "-"%char then (true, rest) else if Ascii.eqb c "+"%char then (false, rest) else (false, s)
    | "" => (false, s)
    end in
  if bool_decide (s = "0") then Some 0
  else if bool_decide (s = "") then None
  else
    match duration_loop (S (String.length s)) s 0 with
    | None => None
    | Some d => if neg then Some (i64 (- d)) else if 2 ^ 63 - 1 <? d then None else Some d
    end.

Example ParseDuration_ex :
  (ParseDuration "10s", ParseDuration "1h15m30.918s", ParseDuration "-1.5h", ParseDuration "1.5", ParseDuration "x",
   ParseDuration "", ParseDuration "9223372036854775808ns", ParseDuration ".5m")
  = (Some 10000000000, Some 4530918000000, Some (-5400000000000), None, None, None, None, Some 30000000000).
Proof. vm_compute. reflexivity. Qed.

(** ** Rounds of the loop *)

Lemma leadingInt_shrinks s x v r : leadingInt s x = Some (v, r) -> (String.length r <= String.length s)%nat.
Proof.
  revert x. induction s as [|c s IH]; intros x; simpl; [by intros [= _ <-]|].
  case_match; [by intros [= _ <-]|]. do 2 (case_match; [done|]). intros Hr%IH. lia.
Qed.

Lemma leadingFraction_shrinks s x sc o f sc' r :
  leadingFraction s x sc o = (f, sc', r) -> (String.length r <= String.length s)%nat.
Proof.
  revert x sc o. induction s as [|c s IH]; intros x sc o; simpl; [by intros [= _ _ <-]|].
  repeat case_match; intros Hr; first [apply IH in Hr; lia|by injection Hr as _ _ <-].
Qed.

Lemma take_unit_shrinks s u r :
  take_unit s = (u, r) -> String.length s = (String.length u + String.length r)%nat.
Proof.
  revert u. induction s as [|c s IH]; intros u; simpl; [by intros [= <- <-]|].
  case_match; [by intros [= <- <-]|]. destruct (take_unit s) as [u' r']. intros [= <- <-].
  simpl. by rewrite (IH u').
Qed.

Lemma unitMap_nonempty u z : unitMap u = Some z -> (0 < String.length u)%nat.
Proof. destruct u; [done|simpl; lia]. Qed.

(** A round leaves less text than it found, so [ParseDuration] stops on every input before
    the rounds run out. *)
Lemma parse_component_shrinks s v r : parse_component s = Some (v, r) -> (String.length r < String.length s)%nat.
Proof.
  destruct s as [|c s]; [done|]. unfold parse_component. set (s0 := String c s). case_match; [done|].
  destruct (leadingInt s0 0) as [[v1 s1]|] eqn:E1; [|done]. apply leadingInt_shrinks in E1.
  set (frac := if starts_with "."%char s1 then _ else _).
  assert (Hf : (String.length frac.1.2 <= String.length s1)%nat).
  { unfold frac. destruct s1 as [|c1 s1]; simpl; [lia|]. destruct (Ascii.eqb _ _); simpl; [|lia].
    destruct (leadingFraction s1 0 _ false) as [[f sc] s2] eqn:E2. apply leadingFraction_shrinks in E2. simpl. lia. }
  destruct frac as [[[f sc] s2] post]. simpl in Hf. case_match; [done|].
  destruct (take_unit s2) as [u s3] eqn:E3. apply take_unit_shrinks in E3.
  destruct (unitMap u) as [unit|] eqn:E4; [|done]. apply unitMap_nonempty in E4.
  repeat case_match; intros [= _ <-]; lia.
Qed.

Lemma duration_loop_fuel fuel fuel' s d :
  (String.length s < fuel)%nat -> (String.length s < fuel')%nat ->
  duration_loop fuel s d = duration_loop fuel' s d.
Proof.
  revert fuel' s d. induction fuel as [|fuel IH]; intros [|fuel'] s d H H'; try lia. simpl.
  case_bool_decide; [done|]. destruct (parse_component s) as [[v r]|] eqn:E; [|done].
  apply parse_component_shrinks in E. case_match; [done|]. apply IH; lia.
Qed.

(** ** Whole numbers of a unit *)

Lemma leadingInt_format fuel n rest :
  0 <= n < 10 ^ Z.of_nat fuel -> n <= 2 ^ 63 ->
  leadingInt (format_uint 10 fuel n +:+ rest) 0 = leadingInt rest n.
Proof.
  revert n rest. induction fuel as [|fuel IH]; intros n rest Hn Hmax.
  - simpl in *. rewrite append_nil. f_equal. lia.
  - rewrite Nat2Z.inj_succ, Z.pow_succ_r in Hn by lia. cbn [format_uint]. destruct (Z.ltb_spec n 10).
    + rewrite append_cons, append_nil. cbn [leadingInt]. rewrite is_digit_char, digit_char_value by lia.
      cbn [negb]. rewrite !(proj2 (Z.ltb_ge _ _)); [f_equal; lia|lia|].
      apply Z.div_pos; lia.
    + rewrite app_assoc_string, IH.
      2:{ split; [apply Z.div_pos; lia|]. apply Z.div_lt_upper_bound; lia. }
      2:{ apply Z.div_le_upper_bound; lia. }
      pose proof (Z.mod_pos_bound n 10 ltac:(lia)). pose proof (Z.div_mod n 10 ltac:(lia)).
      rewrite append_cons, append_nil. cbn [leadingInt]. rewrite is_digit_char, digit_char_value by lia.
      cbn [negb]. rewrite !(proj2 (Z.ltb_ge _ _)); [f_equal; lia|lia|].
      apply Z.div_le_mono; lia.
Qed.

Lemma unitMap_cases u unit :
  unitMap u = Some unit -> take_unit u = (u, "") /\ 0 < unit /\ starts_with "."%char u = false /\
    (forall n, leadingInt u n = Some (n, u)).
Proof.
  unfold unitMap.
  repeat match goal with |- context [bool_decide ?P] => destruct (bool_decide_reflect P) as [->|]; simpl end;
    intros [= <-]; repeat split; reflexivity.
Qed.

(** A whole number of a unit is parsed exactly, up to the range of [time.Duration]. *)
Theorem parse_duration_units n u unit
  (Hu : unitMap u = Some unit) (Hn : 0 <= n) (Hr : n * unit < 2 ^ 63) :
  ParseDuration (Itoa n +:+ u) = Some (n * unit).
Proof.
  destruct (unitMap_cases u unit Hu) as (Ht & Hpos & Hdot & Hlead).
  assert (Hn63 : n < 2 ^ 63) by nia.
  unfold Itoa. rewrite (proj2 (Z.ltb_ge _ _)) by done.
  destruct (format_uint_first 10 19 n) as (d & r & E & Hd); [lia..|]. change (S 19) with 20%nat in E.
  assert (Hdig : is_digit (digit_char d) = true) by (apply is_digit_char; lia).
  assert (Hlen : String.length (format_uint 10 20 n +:+ u) <> String.length u).
  { rewrite E, append_cons. simpl. rewrite length_app_string. lia. }
  assert (Hc : parse_component (format_uint 10 20 n +:+ u) = Some (n * unit, "")).
  { unfold parse_component. rewrite E, append_cons at 1. unfold is_number_byte. rewrite Hdig, orb_true_r. cbn [negb].
    rewrite leadingInt_format, Hlead by (simpl; lia). rewrite Hdot.
    rewrite (proj2 (Nat.eqb_neq _ _)) by done. cbn [negb andb]. rewrite Ht, Hu.
    rewrite (proj2 (Z.ltb_ge _ _)); [done|]. apply Z.div_le_lower_bound; lia. }
  assert (Hu0 : u <> "") by (intros ->; discriminate Hu).
  assert (Hs : format_uint 10 20 n +:+ u <> "0" /\ format_uint 10 20 n +:+ u <> "").
  { split; rewrite E, append_cons; [|done]. intros [= _ E0]. destruct r; [done|discriminate E0]. }
  unfold ParseDuration. rewrite E, append_cons at 1.
  assert (Hm : Ascii.eqb (digit_char d) "-"%char = false /\ Ascii.eqb (digit_char d) "+"%char = false).
  { split; apply Ascii.eqb_neq; intros Ed; rewrite Ed in Hdig; discriminate. }
  destruct Hm as [-> ->].
  rewrite !bool_decide_eq_false_2 by (by destruct Hs). cbn [duration_loop].
  rewrite bool_decide_eq_false_2 by (by destruct Hs). rewrite Hc, u64_small by (unfold in_u64; nia).
  rewrite (proj2 (Z.ltb_ge _ _)) by nia.
  rewrite (duration_loop_fuel _ 1) by (rewrite ?E, ?append_cons; simpl; lia). simpl.
  rewrite (proj2 (Z.ltb_ge _ _)) by lia. done.
Qed.

Lemma parse_duration_units_witness : ParseDuration "90m" = Some (90 * 60000000000).
Proof. apply (parse_duration_units 90 "m" 60000000000); [reflexivity|lia|lia]. Defined.
