(* ===== verification/CIDR.v ===== *)
(** * Address utilities: [pkg/utils/ip.go]

    The binary trie of networks ([CIDRMatcher]) that the address filter and the access
    lists of the firewall search, and the helpers for ports and private addresses.  The
    trie answers like the networks themselves ([cidr_matcher_refines]): an address
    matches exactly when [IPNet.Contains] holds for one of the networks added.  Networks
    written in the IPv4-mapped notation are the exception ([mapped_network_one_address]). *)
From S2P Require Import Prelude Http Bytes NetIP NetAddr.
From Stdlib Require Import Ascii.

(** ** The trie *)

(** [cidrNode]: two children and a flag. *)
Inductive cidrNode := Node (child0 child1 : option cidrNode) (isLeaf : bool).

Definition isLeaf (n : cidrNode) : bool := let 'Node _ _ l := n in l.
Definition child (n : cidrNode) (bit : Z) : option cidrNode :=
  let 'Node c0 c1 _ := n in if bit =? 0 then c0 else c1.
Definition set_child (n : cidrNode) (bit : Z) (c : cidrNode) : cidrNode :=
  let 'Node c0 c1 l := n in if bit =? 0 then Node (Some c) c1 l else Node c0 (Some c) l.
Definition empty_node : cidrNode := Node None None false.

Record CIDRMatcher := mkCIDRMatcher { root4 : cidrNode; root6 : cidrNode }.

Definition NewCIDRMatcher : CIDRMatcher := mkCIDRMatcher empty_node empty_node.

(** [(ip[i/8] >> (7 - i%8)) & 1]; the callers keep [i] below [len(ip)*8]. *)
Definition ip_bit (ip : list Z) (i : nat) : Z :=
  Z.land (Z.shiftr (nth (i / 8) ip 0) (7 - Z.of_nat (i mod 8))) 1.

(** [IPMask.Size]: the number of leading ones, 0 when the mask is not canonical. *)
Fixpoint byte_ones (fuel : nat) (v n : Z) : Z * Z :=
  match fuel with
  | O => (v, n)
  | S fuel => if Z.land v 128 =? 0 then (v, n) else byte_ones fuel (u8 (Z.shiftl v 1)) (n + 1)
  end.

Fixpoint simpleMaskLength (mask : list Z) (n : Z) : option Z :=
  match mask with
  | [] => Some n
  | v :: rest =>
      if v =? 255 then simpleMaskLength rest (n + 8)
      else
        let '(v, n) := byte_ones 8 v n in
        if (v =? 0) && forallb (Z.eqb 0) rest then Some n else None
  end.

Definition mask_Size (mask : list Z) : Z := default 0 (simpleMaskLength mask 0).

(** The loop of [addCIDR]; [todo] bits remain, [i] is the next one. *)
Fixpoint addCIDR_loop (todo : nat) (ip : list Z) (i : nat) (node : cidrNode) : cidrNode :=
  match todo with
  | O => let 'Node c0 c1 _ := node in Node c0 c1 true
  | S todo =>
      let bit := ip_bit ip i in
      let c := default empty_node (child node bit) in
      set_child node bit (addCIDR_loop todo ip (S i) c)
  end.

Definition addCIDR (root : cidrNode) (ip mask : list Z) : cidrNode :=
  addCIDR_loop (Nat.min (Z.to_nat (mask_Size mask)) (length ip * 8)) ip 0 root.

(** [None] is the error of [net.ParseCIDR]. *)
Definition Add (cidr : string) (cm : CIDRMatcher) : option CIDRMatcher :=
  match ParseCIDR cidr with
  | None => None
  | Some (_, ipnet) =>
      match IP_To4 (net_IP ipnet) with
      | Some ip => Some (mkCIDRMatcher (addCIDR (root4 cm) ip (net_Mask ipnet)) (root6 cm))
      | None =>
          let ip := default [] (IP_To16 (net_IP ipnet)) in
          Some (mkCIDRMatcher (root4 cm) (addCIDR (root6 cm) ip (net_Mask ipnet)))
      end
  end.

(** The loop of [match]; a node is tested when it is reached. *)
Fixpoint match_loop (todo : nat) (ip : list Z) (i : nat) (node : cidrNode) : bool :=
  match todo with
  | O => isLeaf node
  | S todo =>
      match child node (ip_bit ip i) with
      | None => isLeaf node
      | Some c => if isLeaf c then true else match_loop todo ip (S i) c
      end
  end.

Definition match_ (root : cidrNode) (ip : list Z) : bool :=
  if isLeaf root then true else match_loop (length ip * 8) ip 0 root.

Definition ContainsIP (ip : list Z) (cm : CIDRMatcher) : bool :=
  match IP_To4 ip with
  | Some ip4 => match_ (root4 cm) ip4
  | None => match_ (root6 cm) (default [] (IP_To16 ip))
  end.

Definition Matcher_Contains (ip : string) (cm : CIDRMatcher) : bool :=
  match ParseIP ip with
  | None => false
  | Some parsedIP => ContainsIP parsedIP cm
  end.

Fixpoint count (node : cidrNode) : Z :=
  let 'Node c0 c1 l := node in
  if l then 1
  else match c0 with Some c => count c | None => 0 end
       + match c1 with Some c => count c | None => 0 end.

Definition Len (cm : CIDRMatcher) : Z := count (root4 cm) + count (root6 cm).

Definition Clear (cm : CIDRMatcher) : CIDRMatcher := NewCIDRMatcher.

(** ** The other helpers *)

Definition ExtractIP (addr : string) : string :=
  if has_char ":"%char addr then
    match SplitHostPort addr with Some (host, _) => host | None => addr end
  else addr.

Fixpoint parseUint16_loop (s : string) (n : Z) : Z :=
  match s with
  | EmptyString => n
  | String c r =>
      if is_digit c then
        let n := u32 (n * 10 + (byte_of c - 48)) in
        if 65535 <? n then 0 else parseUint16_loop r n
      else 0
  end.

Definition ParsePort (port : string) : Z :=
  if bool_decide (port = "") then 0 else parseUint16_loop port 0.

Definition IsPrivateIP (ipStr : string) : bool :=
  match ParseIP ipStr with
  | None => false
  | Some ip =>
      match IP_To4 ip with
      | Some ip4 =>
          let b0 := nth 0 ip4 0 in
          let b1 := nth 1 ip4 0 in
          (b0 =? 10) || ((b0 =? 172) && (16 <=? b1) && (b1 <=? 31))
          || ((b0 =? 192) && (b1 =? 168)) || (b0 =? 127)
          || ((b0 =? 169) && (b1 =? 254))
      | None =>
          let b0 := nth 0 ip 0 in
          let b1 := nth 1 ip 0 in
          bool_decide (Some ip = ParseIP "::1")
          || (Z.land b0 254 =? 252)
          || ((b0 =? 254) && (Z.land b1 192 =? 128))
      end
  end.

Definition IPToUint32 (ipStr : string) : Z :=
  match ParseIP ipStr with
  | None => 0
  | Some ip =>
      match IP_To4 ip with
      | Some ip4 => match Uint32 ip4 with Ok v => v | _ => 0 end
      | None => 0
      end
  end.

Definition Uint32ToIP (n : Z) : string := IP_String (PutUint32 n).

Definition IsValidIP (ipStr : string) : bool := bool_decide (is_Some (ParseIP ipStr)).
Definition IsIPv4 (ipStr : string) : bool :=
  match ParseIP ipStr with None => false | Some ip => bool_decide (is_Some (IP_To4 ip)) end.
Definition IsIPv6 (ipStr : string) : bool :=
  match ParseIP ipStr with
  | None => false
  | Some ip => bool_decide (IP_To4 ip = None) && bool_decide (is_Some (IP_To16 ip))
  end.

(** ** Bits of addresses *)

(** The bits of a byte, the most significant first, and of an address. *)
Definition byte_bits (b : Z) : list bool := (fun i => Z.testbit b (7 - Z.of_nat i)) <$> seq 0 8.
Definition bits (ip : list Z) : list bool := ip ≫= byte_bits.

Lemma byte_bits_length b : length (byte_bits b) = 8%nat.
Proof. done. Qed.

Lemma bits_cons b ip : bits (b :: ip) = byte_bits b ++ bits ip.
Proof. done. Qed.

Lemma bits_length ip : length (bits ip) = (length ip * 8)%nat.
Proof.
  induction ip as [|b ip IH]; [done|]. rewrite bits_cons, length_app, IH, byte_bits_length. simpl. lia.
Qed.

Lemma bits_nth ip i :
  (i < length ip * 8)%nat -> bits ip !! i = Some (Z.testbit (nth (i / 8) ip 0) (7 - Z.of_nat (i mod 8))).
Proof.
  revert i. induction ip as [|b ip IH]; intros i Hi; simpl in Hi; [lia|].
  rewrite bits_cons. destruct (decide (i < 8)%nat) as [H|H].
  - rewrite lookup_app_l by (rewrite byte_bits_length; lia).
    rewrite Nat.div_small, Nat.mod_small by lia. unfold byte_bits.
    rewrite list_lookup_fmap, lookup_seq_lt by lia. done.
  - rewrite lookup_app_r by (rewrite byte_bits_length; lia).
    rewrite byte_bits_length, IH by lia.
    assert (E : (i = i - 8 + 1 * 8)%nat) by lia. set (j := (i - 8)%nat) in *. rewrite E.
    rewrite Nat.div_add, Nat.Div0.mod_add, Nat.add_1_r by lia. done.
Qed.

Lemma ip_bit_bits ip i b : bits ip !! i = Some b -> ip_bit ip i = Z.b2z b.
Proof.
  intros H. pose proof (lookup_lt_Some _ _ _ H) as Hl. rewrite bits_length in Hl.
  rewrite bits_nth in H by done. injection H as <-. unfold ip_bit.
  rewrite Z.testbit_spec' by (pose proof (Nat.mod_upper_bound i 8); lia).
  rewrite Z.shiftr_div_pow2 by (pose proof (Nat.mod_upper_bound i 8); lia).
  by rewrite (Z.land_ones _ 1) by lia.
Qed.

(** ** The trie as a set of prefixes *)

(** The trie searched by a list of bits. *)
Fixpoint covers (node : cidrNode) (p : list bool) {struct p} : bool :=
  isLeaf node ||
  match p with
  | [] => false
  | b :: p => match child node (Z.b2z b) with Some c => covers c p | None => false end
  end.

(** The trie with the prefix [p] marked. *)
Fixpoint mark (p : list bool) (node : cidrNode) {struct p} : cidrNode :=
  match p with
  | [] => let 'Node c0 c1 _ := node in Node c0 c1 true
  | b :: p => set_child node (Z.b2z b) (mark p (default empty_node (child node (Z.b2z b))))
  end.

Lemma addCIDR_loop_mark todo ip i node :
  (i + todo <= length ip * 8)%nat ->
  addCIDR_loop todo ip i node = mark (take todo (drop i (bits ip))) node.
Proof.
  revert i node. induction todo as [|todo IH]; intros i node Hi; [done|].
  destruct (lookup_lt_is_Some_2 (bits ip) i) as [b Hb]; [rewrite bits_length; lia|].
  rewrite (drop_S _ _ _ Hb). simpl. rewrite (ip_bit_bits _ _ _ Hb), IH by lia. done.
Qed.

Lemma match_loop_covers todo ip i node :
  (i + todo = length ip * 8)%nat ->
  isLeaf node = false -> match_loop todo ip i node = covers node (drop i (bits ip)).
Proof.
  revert i node. induction todo as [|todo IH]; intros i node Hi Hn; simpl.
  - rewrite drop_ge by (rewrite bits_length; lia). simpl. by rewrite Hn.
  - destruct (lookup_lt_is_Some_2 (bits ip) i) as [b Hb]; [rewrite bits_length; lia|].
    rewrite (drop_S _ _ _ Hb), (ip_bit_bits _ _ _ Hb). simpl. rewrite Hn. simpl.
    destruct (child node (Z.b2z b)) as [c|]; [|done].
    destruct (isLeaf c) eqn:Hc; [|apply IH; [lia|done]].
    destruct (drop (S i) (bits ip)); simpl; by rewrite Hc.
Qed.

Lemma match_covers root ip : match_ root ip = covers root (bits ip).
Proof.
  unfold match_. destruct (isLeaf root) eqn:Hr.
  - destruct (bits ip); simpl; by rewrite Hr.
  - by rewrite match_loop_covers.
Qed.

Lemma covers_empty p : covers empty_node p = false.
Proof. destruct p as [|[] p]; done. Qed.

Lemma child_set_eq n b c : child (set_child n b c) b = Some c.
Proof. destruct n. unfold child, set_child. by destruct (b =? 0) eqn:E; rewrite ?E. Qed.

Lemma child_set_ne n b b' c : child (set_child n (Z.b2z b) c) (Z.b2z b') =
  if bool_decide (b = b') then Some c else child n (Z.b2z b').
Proof. by destruct n, b, b'. Qed.

Lemma isLeaf_set n b c : isLeaf (set_child n b c) = isLeaf n.
Proof. destruct n. unfold set_child. by destruct (b =? 0). Qed.

(** [p] is a prefix of [q]. *)
Definition is_prefix (p q : list bool) : bool := bool_decide (take (length p) q = p).

Lemma is_prefix_cons b p c q : is_prefix (b :: p) (c :: q) = bool_decide (b = c) && is_prefix p q.
Proof.
  unfold is_prefix. simpl. apply eq_true_iff_eq. rewrite andb_true_iff, !bool_decide_eq_true.
  split; [intros H; by injection H as -> ->|]. by intros [-> ->].
Qed.

Lemma covers_mark p node q : covers (mark p node) q = covers node q || is_prefix p q.
Proof.
  revert node q. induction p as [|b p IH]; intros node q.
  - destruct node as [c0 c1 l]. replace (is_prefix [] q) with true by done.
    rewrite orb_true_r. by destruct q.
  - destruct q as [|c q].
    + simpl. rewrite isLeaf_set. unfold is_prefix. simpl. by rewrite !orb_false_r.
    + rewrite is_prefix_cons. cbn [mark covers]. rewrite isLeaf_set, child_set_ne.
      destruct (isLeaf node); [done|]. cbn [orb]. case_bool_decide as Hbc.
      * subst c. rewrite IH. destruct (child node (Z.b2z b)); cbn [default andb]; [done|].
        cbn. by rewrite covers_empty.
      * by rewrite orb_false_r.
Qed.

(** ** Masks *)

Definition from_bits (l : list bool) : Z := foldl (fun z b => 2 * z + Z.b2z b) 0 l.

(** A property of all bytes, by evaluation. *)
Lemma forall_bytes (f : Z -> bool) :
  forallb f (Z.of_nat <$> seq 0 256) = true -> forall b, is_byte b -> f b = true.
Proof.
  intros H b Hb. rewrite forallb_forall in H. apply H. apply list_elem_of_In.
  apply list_elem_of_fmap. exists (Z.to_nat b). unfold is_byte in Hb.
  split; [lia|]. apply elem_of_seq. lia.
Qed.

Lemma land_mask b k :
  is_byte b -> (k <= 8)%nat ->
  Z.land b (256 - 2 ^ (8 - Z.of_nat k)) = from_bits (take k (byte_bits b) ++ replicate (8 - k) false).
Proof.
  intros Hb Hk. apply Z.eqb_eq. revert b Hb. apply forall_bytes.
  do 9 (destruct k as [|k]; [vm_compute; reflexivity|]). lia.
Qed.

Lemma from_bits_app l x : from_bits (l ++ [x]) = 2 * from_bits l + Z.b2z x.
Proof. unfold from_bits. by rewrite foldl_app. Qed.

Lemma from_bits_inj l k : length l = length k -> from_bits l = from_bits k -> l = k.
Proof.
  revert k. induction l as [|x l IH] using rev_ind; intros k Hl He.
  - by destruct k.
  - destruct k as [|y k _] using rev_ind; rewrite ?length_app in Hl; [simpl in Hl; lia|].
    rewrite !from_bits_app in He. simpl in Hl.
    assert (Hx : x = y) by (destruct x, y; simpl in He; lia || done). subst y.
    rewrite (IH k); [done|lia|lia].
Qed.

Lemma land_mask_eq a b k :
  is_byte a -> is_byte b -> (k <= 8)%nat ->
  Z.land a (256 - 2 ^ (8 - Z.of_nat k)) = Z.land b (256 - 2 ^ (8 - Z.of_nat k)) <->
  take k (byte_bits a) = take k (byte_bits b).
Proof.
  intros Ha Hb Hk. rewrite !land_mask by done. split; [|by intros ->].
  intros H. apply from_bits_inj in H; [by apply app_inv_tail in H|].
  rewrite !length_app, !length_take, !byte_bits_length. lia.
Qed.

Lemma bits_inj a b :
  length a = length b -> Forall is_byte a -> Forall is_byte b -> bits a = bits b -> a = b.
Proof.
  assert (Hby : forall x, is_byte x -> from_bits (byte_bits x) = x).
  { intros x Hx. apply Z.eqb_eq. revert x Hx. apply forall_bytes. vm_compute. reflexivity. }
  revert b. induction a as [|x a IH]; intros [|y b] Hl Ha Hb E; try done.
  apply Forall_cons in Ha as [Hx Ha]. apply Forall_cons in Hb as [Hy Hb].
  rewrite !bits_cons in E. apply app_inj_1 in E as [E1 E2]; [|done].
  f_equal; [by rewrite <- (Hby x), <- (Hby y), E1|]. apply IH; auto.
Qed.

Lemma CIDRMask_S n k : CIDRMask n (S k) = mask_byte n 0 :: CIDRMask (n - 8) k.
Proof.
  unfold CIDRMask. cbn [seq fmap list_fmap]. f_equal.
  rewrite <- (fmap_S_seq 0 k), <- list_fmap_compose. apply list_fmap_ext. intros i x _.
  unfold compose, mask_byte. do 3 f_equal. lia.
Qed.

Lemma CIDRMask_length n k : length (CIDRMask n k) = k.
Proof. unfold CIDRMask. by rewrite length_fmap, length_seq. Qed.

Lemma mask_byte_clamp n : mask_byte n 0 = 256 - 2 ^ (8 - Z.of_nat (Nat.min 8 (Z.to_nat n))).
Proof. unfold mask_byte. do 3 f_equal. lia. Qed.

(** Masked addresses agree exactly when their first bits do. *)
Lemma masked_prefix n a b :
  length a = length b -> Forall is_byte a -> Forall is_byte b ->
  land_bytes a (CIDRMask n (length a)) = land_bytes b (CIDRMask n (length a)) <->
  take (Z.to_nat n) (bits a) = take (Z.to_nat n) (bits b).
Proof.
  revert n b. induction a as [|x a IH]; intros n b Hl Ha Hb; destruct b as [|y b]; try done.
  apply Forall_cons in Ha as [Hx Ha]. apply Forall_cons in Hb as [Hy Hb].
  cbn [length] in *. rewrite CIDRMask_S. unfold land_bytes. cbn [zip_with].
  fold (land_bytes a (CIDRMask (n - 8) (length a))). fold (land_bytes b (CIDRMask (n - 8) (length a))).
  rewrite !bits_cons, !take_app, !byte_bits_length.
  replace (Z.to_nat n - 8)%nat with (Z.to_nat (n - 8)) by lia.
  specialize (IH (n - 8) b ltac:(lia) Ha Hb).
  pose proof (land_mask_eq x y (Nat.min 8 (Z.to_nat n)) Hx Hy ltac:(lia)) as Hm.
  rewrite <- mask_byte_clamp in Hm.
  assert (Ht : forall z, take (Nat.min 8 (Z.to_nat n)) (byte_bits z) = take (Z.to_nat n) (byte_bits z)).
  { intros z. rewrite <- (firstn_all (byte_bits z)) at 2. rewrite take_take, byte_bits_length.
    f_equal. lia. }
  rewrite !Ht in Hm. split.
  - intros H. injection H as H1 H2. f_equal; [by apply Hm|by apply IH].
  - intros H. apply app_inj_1 in H as [H1 H2]; [|by rewrite !length_take, !byte_bits_length].
    f_equal; [by apply Hm|by apply IH].
Qed.

Lemma mask_zero n k : n <= 0 -> forallb (Z.eqb 0) (CIDRMask n k) = true.
Proof.
  revert n. induction k as [|k IH]; intros n Hn; [done|]. rewrite CIDRMask_S. cbn [forallb].
  rewrite IH by lia. rewrite mask_byte_clamp. by replace (Z.to_nat n) with 0%nat by lia.
Qed.

Lemma simpleMaskLength_CIDRMask k n acc :
  simpleMaskLength (CIDRMask n k) acc = Some (acc + Z.max 0 (Z.min n (8 * Z.of_nat k))).
Proof.
  revert n acc. induction k as [|k IH]; intros n acc; [simpl; f_equal; lia|].
  rewrite CIDRMask_S. cbn [simpleMaskLength]. rewrite mask_byte_clamp.
  destruct (decide (8 <= n)).
  - replace (Nat.min 8 (Z.to_nat n)) with 8%nat by lia. cbn. rewrite IH. f_equal. lia.
  - rewrite mask_zero by lia.
    assert (Hc : (Z.to_nat n <= 7)%nat) by lia. remember (Z.to_nat n) as c.
    replace (Z.max 0 (Z.min n (8 * Z.of_nat (S k)))) with (Z.of_nat c) by lia. clear -Hc.
    do 8 (destruct c as [|c]; [cbn -[Z.add]; f_equal; lia|]). lia.
Qed.

Lemma mask_Size_CIDRMask n k : 0 <= n <= 8 * Z.of_nat k -> mask_Size (CIDRMask n k) = n.
Proof. intros H. unfold mask_Size. rewrite simpleMaskLength_CIDRMask. simpl. lia. Qed.

(** ** Parsed addresses and networks *)

Lemma digit_value c : is_digit c = true -> 0 <= byte_of c - 48 <= 9.
Proof. unfold is_digit. intros H. b2p. lia. Qed.

Lemma parseIPv4Fields_valid s val digLen pd fields q :
  parseIPv4Fields s val digLen pd fields = Some q ->
  0 <= val <= 255 -> Forall is_byte fields -> length q = 4%nat /\ Forall is_byte q.
Proof.
  revert val digLen pd fields. induction s as [|c s IH]; intros val digLen pd fields H Hv Hf; simpl in H.
  - case_match eqn:C; [|done]. b2p. injection H as <-. rewrite length_app.
    split; [simpl; lia|]. apply Forall_app. split; [done|]. apply Forall_singleton. unfold is_byte. lia.
  - destruct (is_digit c) eqn:Hd.
    + apply digit_value in Hd. case_match; [done|]. case_match eqn:C; [done|]. b2p.
      apply (IH _ _ _ _ H); [lia|done].
    + case_match; [|done]. case_match; [done|]. apply (IH _ _ _ _ H); [lia|].
      apply Forall_app. split; [done|]. apply Forall_singleton. unfold is_byte. lia.
Qed.

Lemma hex_digit_range c d : hex_digit c = Some d -> 0 <= d < 16.
Proof.
  unfold hex_digit. intros H. case_match eqn:C; [apply digit_value in C; injection H as <-; lia|].
  repeat (case_match; [b2p; injection H as <-; lia|]). done.
Qed.

Lemma parse_hex_range s acc off acc' off' rest :
  parse_hex s acc off = Some (acc', off', rest) -> 0 <= acc < 16 ^ Z.of_nat off -> (off <= 4)%nat ->
  0 <= acc' < 65536.
Proof.
  revert acc off. induction s as [|c s IH]; intros acc off H Ha Ho.
  - simpl in H. injection H as <- _ _.
    pose proof (Z.pow_le_mono_r 16 (Z.of_nat off) 4). lia.
  - simpl in H. destruct (hex_digit c) as [d|] eqn:Hd.
    + case_match eqn:C; [done|]. apply Nat.ltb_ge in C. apply hex_digit_range in Hd.
      apply (IH _ _ H); [|lia]. rewrite Nat2Z.inj_succ, Z.pow_succ_r by lia. lia.
    + injection H as <- _ _. pose proof (Z.pow_le_mono_r 16 (Z.of_nat off) 4). lia.
Qed.

Lemma group_is_bytes acc : 0 <= acc < 65536 -> Forall is_byte [acc / 256; acc mod 256].
Proof.
  intros H. pose proof (Z.mod_pos_bound acc 256).
  repeat (apply Forall_cons; split); [unfold is_byte; split; [apply Z.div_pos|apply Z.div_lt_upper_bound]; lia|unfold is_byte; lia|done].
Qed.

Lemma parseIPv6_loop_valid fuel s ip ell ip' ell' rest :
  parseIPv6_loop fuel s ip ell = Some (ip', ell', rest) ->
  (length ip + 2 * fuel <= 16)%nat -> Forall is_byte ip ->
  (forall e, ell = Some e -> (e <= length ip)%nat) ->
  (length ip' <= 16)%nat /\ Forall is_byte ip' /\ (forall e, ell' = Some e -> (e <= length ip')%nat).
Proof.
  revert s ip ell. induction fuel as [|fuel IH]; intros s ip ell H Hl Hb He; cbn [parseIPv6_loop] in H.
  { injection H as <- <- _. split_and!; [lia|done..]. }
  destruct (parse_hex s 0 0) as [[[acc off] r]|] eqn:Hp; [|done].
  apply parse_hex_range in Hp; [|simpl; lia|lia]. apply group_is_bytes in Hp.
  case_match; [done|]. case_match.
  { case_match eqn:C; [done|]. destruct (parseIPv4Fields s 0 0 true []) as [q|] eqn:Hq; [|done].
    apply parseIPv4Fields_valid in Hq as [Hq1 Hq2]; [|lia|done]. injection H as <- <- _.
    rewrite length_app, Hq1. split_and!.
    - destruct ell; [apply Nat.ltb_ge in C; lia|]. apply negb_false_iff, Nat.eqb_eq in C. lia.
    - by apply Forall_app.
    - intros e Ee. specialize (He e Ee). lia. }
  assert (Hb' : Forall is_byte (ip ++ [acc / 256; acc mod 256])) by by apply Forall_app.
  destruct r as [|c r]; [injection H as <- <- _; rewrite length_app; simpl; split_and!; [lia|done|];
    intros e Ee; specialize (He e Ee); lia|].
  case_match; [done|]. destruct r as [|c2 r2]; [done|]. case_match.
  - destruct ell; [done|]. case_match.
    + injection H as <- <- _. split_and!; [rewrite length_app; simpl; lia|done|]. intros e [= <-]. lia.
    + apply (IH _ _ _ H); [rewrite length_app; simpl; lia|done|]. intros e [= <-]. lia.
  - apply (IH _ _ _ H); [rewrite length_app; simpl; lia|done|].
    intros e Ee. specialize (He e Ee). rewrite length_app. lia.
Qed.

Lemma parseIPv6_valid s ip : parseIPv6 s = Some ip -> length ip = 16%nat /\ Forall is_byte ip.
Proof.
  assert (Hz : forall n, Forall is_byte (replicate n 0)).
  { intros n. apply Forall_replicate. unfold is_byte. lia. }
  unfold parseIPv6. set (init := match s with String _ _ => _ | _ => _ end).
  destruct init as [s' ell] eqn:Hi. intros H.
  case_match eqn:C; [injection H as <-; split; [done|exact (Hz 16%nat)]|].
  destruct (parseIPv6_loop 8 s' [] ell) as [[[ip' ell'] rest]|] eqn:Hloop; [|done].
  apply parseIPv6_loop_valid in Hloop as (H1 & H2 & H3); [|simpl; lia|done|].
  - case_match; [done|]. case_match eqn:C2.
    + apply Nat.ltb_lt in C2. destruct ell' as [e|]; [|done]. specialize (H3 e eq_refl).
      injection H as <-. split.
      * rewrite !length_app, length_take, length_drop, length_replicate. lia.
      * repeat (apply Forall_app; split); [by apply Forall_take|apply Hz|by apply Forall_drop].
    + apply Nat.ltb_ge in C2. destruct ell'; [done|]. injection H as <-. split; [lia|done].
  - intros e ->. unfold init in Hi. repeat case_match; simplify_eq; simpl; lia.
Qed.

Lemma ParseIP_valid s ip : ParseIP s = Some ip -> length ip = 16%nat /\ Forall is_byte ip.
Proof.
  unfold ParseIP. intros H. repeat (case_match; [|done]).
  case_match.
  - destruct (parseIPv4 s) as [q|] eqn:Hq; [|done].
    assert (ip = v4InV6Prefix ++ q) as -> by congruence.
    apply parseIPv4Fields_valid in Hq as [Hq1 Hq2]; [|lia|done]. rewrite length_app, Hq1.
    split; [done|]. apply Forall_app. split; [|done].
    repeat (apply Forall_cons; split); unfold is_byte; lia || done.
  - case_match; [|done]. case_match; [done|]. by apply (parseIPv6_valid s).
Qed.

Lemma dtoi_loop_nonneg s n m r : dtoi_loop s n = Some (m, r) -> 0 <= n -> 0 <= m.
Proof.
  revert n. induction s as [|c s IH]; intros n H Hn; simpl in H; [by simplify_eq|].
  destruct (is_digit c) eqn:Hd; [|by simplify_eq].
  apply digit_value in Hd. case_match; [done|]. apply (IH _ H). lia.
Qed.

Lemma land_bytes_length a m : length a = length m -> length (land_bytes a m) = length a.
Proof. intros H. unfold land_bytes. by rewrite length_zip_with_l_eq. Qed.

Lemma land_byte a m : is_byte a -> 0 <= m -> is_byte (Z.land a m).
Proof.
  unfold is_byte. intros [H1 H2] Hm. split; [by apply Z.land_nonneg; left|].
  destruct (decide (Z.land a m = 0)) as [->|Hz]; [lia|].
  assert (0 <= Z.land a m) by by apply Z.land_nonneg; left.
  apply Z.log2_lt_cancel. change (Z.log2 256) with 8.
  eapply Z.le_lt_trans; [apply Z.log2_land; lia|].
  assert (Z.log2 a <= Z.log2 255) by (apply Z.log2_le_mono; lia). change (Z.log2 255) with 7 in *. lia.
Qed.

Lemma land_bytes_bytes a n k : Forall is_byte a -> Forall is_byte (land_bytes a (CIDRMask n k)).
Proof.
  intros Ha. revert n k. induction Ha as [|x a Hx Ha IH]; intros n k; [done|].
  destruct k as [|k]; [done|]. rewrite CIDRMask_S. unfold land_bytes. cbn [zip_with].
  apply Forall_cons. split; [|apply IH]. apply land_byte; [done|]. rewrite mask_byte_clamp.
  pose proof (Z.pow_le_mono_r 2 (8 - Z.of_nat (Nat.min 8 (Z.to_nat n))) 8). lia.
Qed.

(** The shape of a parsed network. *)
Definition network (k : nat) (ones : Z) (n : IPNet) : Prop :=
  (k = 4%nat \/ k = 16%nat) /\ 0 <= ones <= 8 * Z.of_nat k /\
  net_Mask n = CIDRMask ones k /\ length (net_IP n) = k /\ Forall is_byte (net_IP n) /\
  land_bytes (net_IP n) (net_Mask n) = net_IP n.

Lemma land_bytes_idem a m : land_bytes (land_bytes a m) m = land_bytes a m.
Proof.
  revert m. induction a as [|x a IH]; intros [|y m]; try done. unfold land_bytes in *. simpl.
  rewrite IH. f_equal. by rewrite <- Z.land_assoc, Z.land_diag.
Qed.

Lemma ParseCIDR_network s ip n : ParseCIDR s = Some (ip, n) -> exists k ones, network k ones n.
Proof.
  unfold ParseCIDR. intros H. destruct (IndexByte _ s); [|done].
  destruct (ParseIP _) as [a|] eqn:Ha; [|done]. apply ParseIP_valid in Ha as [Hl Hb].
  set (nt := if is_v4_text _ then _ else _) in H.
  destruct (dtoi _) as [[ones []]|] eqn:Hd; [|done..].
  assert (H0 : 0 <= ones).
  { unfold dtoi in Hd. destruct (string_drop _ _) as [|c r]; [done|].
    destruct (is_digit c); [|done]. by apply (dtoi_loop_nonneg _ _ _ _ Hd). }
  case_match eqn:C; [done|]. b2p. injection H as _ <-.
  assert (Hnt : nt = 32 \/ nt = 128) by (unfold nt; case_match; auto).
  exists (Z.to_nat (nt / 8)), ones. unfold network. cbn [net_IP net_Mask].
  clearbody nt. destruct Hnt as [-> | ->];
    [change (Z.to_nat (32 / 8)) with 4%nat|change (Z.to_nat (128 / 8)) with 16%nat];
    cbn [Z.eqb Pos.eqb]; (split_and!; [auto|lia|lia|done| | |apply land_bytes_idem]).
  1,3: rewrite land_bytes_length; rewrite ?length_drop, ?CIDRMask_length, ?Hl; done.
  all: apply land_bytes_bytes; try apply Forall_drop; done.
Qed.

(** A network whose trie is that of its mask: not an IPv4 network in IPv6 notation. *)
Definition plain (n : IPNet) : bool :=
  bool_decide (IP_To4 (net_IP n) = None) || bool_decide (length (net_Mask n) = 4%nat).

(** Does the network [cidr] contain the address? *)
Definition cidr_contains (cidr : string) (ip : list Z) : bool :=
  match ParseCIDR cidr with Some (_, n) => Contains n ip | None => false end.

Definition plain_cidr (cidr : string) : bool :=
  match ParseCIDR cidr with Some (_, n) => plain n | None => true end.

Lemma addCIDR_mark root ip ones k :
  length ip = k -> 0 <= ones <= 8 * Z.of_nat k ->
  addCIDR root ip (CIDRMask ones k) = mark (take (Z.to_nat ones) (bits ip)) root.
Proof.
  intros Hl Ho. unfold addCIDR. rewrite mask_Size_CIDRMask by done.
  rewrite addCIDR_loop_mark by lia. rewrite drop_0. f_equal. f_equal. lia.
Qed.

Lemma prefix_masked nn ip ones k :
  length nn = k -> length ip = k -> 0 <= ones <= 8 * Z.of_nat k ->
  Forall is_byte nn -> Forall is_byte ip ->
  is_prefix (take (Z.to_nat ones) (bits nn)) (bits ip) =
  bool_decide (land_bytes nn (CIDRMask ones k) = land_bytes ip (CIDRMask ones k)).
Proof.
  intros Hn Hi Ho Hbn Hbi. unfold is_prefix. apply bool_decide_ext. subst k.
  rewrite masked_prefix by done.
  rewrite length_take, bits_length. replace (Nat.min _ _) with (Z.to_nat ones) by lia. naive_solver.
Qed.

(** The two families of addresses. *)
Lemma ip_family ip : valid_ip ip ->
  (exists ip4, IP_To4 ip = Some ip4 /\ length ip4 = 4%nat /\ Forall is_byte ip4) \/
  (IP_To4 ip = None /\ IP_To16 ip = Some ip /\ length ip = 16%nat).
Proof.
  intros [[Hl|Hl] Hb]; unfold IP_To4, IP_To16; rewrite Hl; simpl.
  - left. eauto.
  - unfold To4. case_bool_decide; [left|by right]. exists (drop 12 ip). rewrite length_drop, Hl.
    split_and!; [done..|]. by apply Forall_drop.
Qed.

(** Adding a network adds exactly the addresses it contains. *)
Lemma Add_contains cidr ip0 n cm :
  ParseCIDR cidr = Some (ip0, n) -> plain n = true ->
  exists cm', Add cidr cm = Some cm' /\
    forall ip, valid_ip ip -> ContainsIP ip cm' = ContainsIP ip cm || Contains n ip.
Proof.
  intros Hp Hplain. destruct (ParseCIDR_network _ _ _ Hp) as (k & ones & Hk & Ho & Hm & Hl & Hb & _).
  unfold Add. rewrite Hp. destruct (IP_To4 (net_IP n)) as [nn|] eqn:H4.
  - assert (k = 4%nat) as ->.
    { unfold plain in Hplain. rewrite H4, Hm, CIDRMask_length in Hplain. apply orb_true_iff in Hplain.
      rewrite !bool_decide_eq_true in Hplain. by destruct Hplain. }
    assert (nn = net_IP n) as ->.
    { unfold IP_To4 in H4. rewrite Hl, bool_decide_eq_true_2 in H4 by done. congruence. }
    eexists. split; [done|]. intros ip Hip. unfold ContainsIP, Contains, networkNumberAndMask.
    rewrite H4. simpl. rewrite Hl, Hm, CIDRMask_length, !(bool_decide_eq_true_2 (4%nat = 4%nat)) by done.
    rewrite addCIDR_mark by done.
    destruct (ip_family ip Hip) as [(ip4 & -> & Hl4 & Hb4)|(-> & -> & Hl16)]; simpl.
    + rewrite !match_covers, covers_mark, (prefix_masked _ _ _ 4) by done.
      by rewrite Hl4, Hl.
    + rewrite Hl16, Hl, orb_comm. done.
  - assert (k = 16%nat) as ->.
    { destruct Hk as [-> | ->]; [|done]. unfold IP_To4 in H4.
      by rewrite Hl, bool_decide_eq_true_2 in H4. }
    assert (H16 : IP_To16 (net_IP n) = Some (net_IP n)).
    { unfold IP_To16. by rewrite Hl. }
    rewrite H16. eexists. split; [done|]. intros ip Hip.
    unfold ContainsIP, Contains, networkNumberAndMask.
    rewrite H4. simpl. rewrite Hl, Hm, CIDRMask_length.
    rewrite (bool_decide_eq_false_2 (16%nat = 4%nat)), !(bool_decide_eq_true_2 (16%nat = 16%nat)) by done.
    rewrite addCIDR_mark by done. simpl.
    destruct (ip_family ip Hip) as [(ip4 & -> & Hl4 & Hb4)|(-> & -> & Hl16)]; simpl.
    + rewrite Hl4, Hl, orb_comm. done.
    + rewrite !match_covers, covers_mark, (prefix_masked _ _ _ 16) by (done || apply Hip).
      by rewrite Hl16, Hl.
Qed.

Lemma Add_None cidr cm : ParseCIDR cidr = None -> Add cidr cm = None.
Proof. unfold Add. by intros ->. Qed.

Lemma ContainsIP_new ip : ContainsIP ip NewCIDRMatcher = false.
Proof. unfold ContainsIP. by destruct (IP_To4 ip); rewrite match_covers, covers_empty. Qed.

(** The addresses that the trie stores for one network. *)
Definition stored (cidr : string) (ip : list Z) : bool :=
  match Add cidr NewCIDRMatcher with Some cm => ContainsIP ip cm | None => false end.

Lemma Add_stored cidr cm cm' ip :
  Add cidr cm = Some cm' -> ContainsIP ip cm' = ContainsIP ip cm || stored cidr ip.
Proof.
  unfold stored, Add. destruct (ParseCIDR cidr) as [[a n]|]; [|done].
  destruct (IP_To4 (net_IP n)); intros [= <-]; unfold ContainsIP, addCIDR; cbn [root4 root6];
    destruct (IP_To4 ip); rewrite !match_covers, ?addCIDR_loop_mark by lia;
    cbn [NewCIDRMatcher root4 root6]; by rewrite ?covers_mark, ?covers_empty, ?orb_false_r.
Qed.

Lemma Add_success cidr cm : is_Some (Add cidr cm) <-> is_Some (ParseCIDR cidr).
Proof.
  unfold Add. destruct (ParseCIDR cidr) as [[a n]|]; [|done]. by destruct (IP_To4 (net_IP n)).
Qed.

Lemma stored_plain cidr ip : plain_cidr cidr = true -> valid_ip ip -> stored cidr ip = cidr_contains cidr ip.
Proof.
  intros Hp Hip. unfold stored, cidr_contains, plain_cidr in *.
  destruct (ParseCIDR cidr) as [[a n]|] eqn:Hc; [|by rewrite Add_None].
  destruct (Add_contains cidr a n NewCIDRMatcher Hc Hp) as (cm & -> & E).
  by rewrite E, ContainsIP_new.
Qed.

(** Networks added one after the other. *)
Definition Add_all (cidrs : list string) (cm : CIDRMatcher) : option CIDRMatcher :=
  foldl (fun o c => cm ← o; Add c cm) (Some cm) cidrs.

Lemma Add_all_snoc cidrs c cm : Add_all (cidrs ++ [c]) cm = cm' ← Add_all cidrs cm; Add c cm'.
Proof. unfold Add_all. by rewrite foldl_app. Qed.

Lemma Add_all_stored cidrs cm cm' ip :
  Add_all cidrs cm = Some cm' ->
  ContainsIP ip cm' = ContainsIP ip cm || existsb (fun c => stored c ip) cidrs.
Proof.
  revert cm'. induction cidrs as [|c cidrs IH] using rev_ind; intros cm' Ha.
  - injection Ha as <-. by rewrite orb_false_r.
  - rewrite Add_all_snoc in Ha. destruct (Add_all cidrs cm) as [cm1|]; [|done]. simpl in Ha.
    rewrite existsb_app. simpl. rewrite orb_false_r, orb_assoc, <- (IH cm1 eq_refl).
    by apply Add_stored.
Qed.

Lemma existsb_ext_in {A} (f g : A -> bool) l :
  (forall x, In x l -> f x = g x) -> existsb f l = existsb g l.
Proof. intros H. induction l as [|x l IH]; [done|]. simpl. rewrite H by (by left). f_equal. apply IH. intros; apply H; by right. Qed.

Lemma existsb_stored cidrs ip :
  forallb plain_cidr cidrs = true -> valid_ip ip ->
  existsb (fun c => stored c ip) cidrs = existsb (fun c => cidr_contains c ip) cidrs.
Proof.
  intros Hp Hip. rewrite forallb_forall in Hp. apply existsb_ext_in. intros c Hc.
  apply stored_plain; auto.
Qed.


(** The mask of a network of IPv4-mapped addresses covers their prefix. *)
Lemma mapped_ones n ones nn :
  network 16 ones n -> IP_To4 (net_IP n) = Some nn -> 96 <= ones.
Proof.
  intros (_ & Ho & Hm & Hl & _ & Hland) H4. unfold IP_To4, To4 in H4. rewrite Hl in H4. simpl in H4.
  case_bool_decide as Hp; [|done].
  assert (H11 : net_IP n !! 11%nat = Some 255).
  { rewrite <- (lookup_take_lt _ 12) by lia. by rewrite Hp. }
  rewrite <- Hland, Hm in H11. unfold land_bytes, CIDRMask in H11.
  rewrite lookup_zip_with, list_lookup_fmap, lookup_seq_lt in H11 by lia. simpl in H11.
  destruct (net_IP n !! 11%nat) as [x|] eqn:Hx; [|done]. simpl in H11. injection H11 as H11.
  unfold mask_byte in H11.
  destruct (decide (96 <= ones)) as [|Hlt]; [done|exfalso].
  set (k := Z.max 0 (Z.min 8 (ones - 8 * Z.of_nat 11))) in *.
  assert (Hk : 0 <= k <= 7) by lia. clearbody k.
  apply (f_equal (fun z => Z.testbit z 0)) in H11. rewrite Z.land_spec in H11.
  replace (256 - 2 ^ (8 - k)) with (2 * (128 - 2 ^ (7 - k))) in H11
    by (replace (8 - k) with (Z.succ (7 - k)) by lia; rewrite Z.pow_succ_r by lia; lia).
  by rewrite Z.testbit_even_0, andb_false_r in H11.
Qed.

(** A network of IPv4-mapped addresses is stored as one address: the mask of up to 128
    bits is cut to the 32 bits of the address. *)
Theorem mapped_network_one_address cidr ip0 n cm ip
  (Hp : ParseCIDR cidr = Some (ip0, n)) (Hmapped : plain n = false) (Hip : valid_ip ip) :
  exists cm' nn, Add cidr cm = Some cm' /\ IP_To4 (net_IP n) = Some nn /\
    ContainsIP ip cm' = ContainsIP ip cm || bool_decide (IP_To4 ip = Some nn).
Proof.
  destruct (ParseCIDR_network _ _ _ Hp) as (k & ones & Hn). pose proof Hn as (Hk & Ho & Hm & Hl & Hb & _).
  unfold plain in Hmapped. apply orb_false_iff in Hmapped as [H4 Hk4].
  rewrite bool_decide_eq_false in H4. rewrite Hm, CIDRMask_length, bool_decide_eq_false in Hk4.
  destruct Hk as [|Hk]; [done|]. subst k.
  destruct (ip_family (net_IP n)) as [(nn & E4 & Hl4 & Hb4)|(? & _)]; [by split; auto| |done].
  pose proof (mapped_ones _ _ _ Hn E4) as H96.
  unfold Add. rewrite Hp, E4. eexists _, nn. split_and!; [done..|].
  unfold ContainsIP, addCIDR. rewrite Hm, mask_Size_CIDRMask by lia. rewrite Hl4.
  replace (Nat.min _ _) with 32%nat by lia. rewrite addCIDR_loop_mark, drop_0 by lia.
  rewrite take_ge by (rewrite bits_length; lia). cbn [root4 root6].
  destruct (ip_family ip Hip) as [(ip4 & -> & Hl4' & Hb4')|(-> & -> & Hl16)]; [|by rewrite orb_comm].
  rewrite !match_covers, covers_mark. f_equal.
  pose proof (prefix_masked nn ip4 32 4 Hl4 Hl4' ltac:(lia) Hb4 Hb4') as Hpm.
  rewrite take_ge in Hpm by (rewrite bits_length; lia). rewrite Hpm. apply bool_decide_ext.
  pose proof (masked_prefix 32 nn ip4) as Hmp. rewrite Hl4 in Hmp. rewrite Hmp by done.
  rewrite !take_ge by (rewrite bits_length; lia). split; [|by intros [= ->]].
  intros E. f_equal. symmetry. apply bits_inj; [congruence|done..].
Qed.

(** ** The other helpers *)

(** The number of an IPv4 address and its text are inverse to each other. *)
Theorem uint32_ip_roundtrip n (Hn : in_u32 n) : IPToUint32 (Uint32ToIP n) = n.
Proof.
  unfold IPToUint32, Uint32ToIP.
  assert (Hv : valid_ip (PutUint32 n)).
  { split; [by left|]. unfold PutUint32. repeat (apply Forall_cons; split); try apply u8_range. done. }
  rewrite ParseIP_String by done. unfold IP_To16. cbn [length PutUint32 bool_decide decide_rel].
  rewrite bool_decide_eq_true_2 by done. unfold IP_To4. rewrite length_app. cbn [length PutUint32 v4InV6Prefix].
  rewrite bool_decide_eq_false_2, bool_decide_eq_true_2 by done. unfold To4.
  rewrite bool_decide_eq_true_2 by done.
  change (drop 12 (v4InV6Prefix ++ PutUint32 n)) with (PutUint32 n).
  by rewrite Uint32_Put_end.
Qed.

(** [ParsePort] reads every port number back and answers 0 for everything that is not
    the decimal text of a number from 1 to 65535. *)
Lemma parseUint16_loop_spec s n :
  0 <= n <= 65535 ->
  parseUint16_loop s n =
  match parse_digits s n with Some m => if 65535 <? m then 0 else m | None => 0 end.
Proof.
  revert n. induction s as [|c s IH]; intros n Hn; cbn [parseUint16_loop parse_digits].
  { by rewrite (proj2 (Z.ltb_ge _ _)) by lia. }
  destruct (is_digit c) eqn:Hd; [|done]. apply digit_value in Hd.
  rewrite u32_small by (unfold in_u32; lia). destruct (Z.ltb_spec 65535 (n * 10 + (byte_of c - 48))) as [Hlt|].
  - assert (Hmono : forall s n m, parse_digits s n = Some m -> 0 <= n -> n <= m).
    { clear. induction s as [|c s IH]; intros n m H Hn; simpl in H; [simplify_eq; lia|].
      destruct (is_digit c) eqn:Hd; [|done]. apply digit_value in Hd. apply IH in H; lia. }
    destruct (parse_digits s _) as [m|] eqn:Hp; [|done].
    apply Hmono in Hp; [|lia]. by rewrite (proj2 (Z.ltb_lt _ _)) by lia.
  - apply IH. lia.
Qed.

Theorem parse_port_spec s :
  ParsePort s = match parse_digits s 0 with Some n => if 65535 <? n then 0 else n | None => 0 end.
Proof.
  unfold ParsePort. case_bool_decide as Hs; [by subst|]. by apply parseUint16_loop_spec.
Qed.

(** ** Examples *)

(** [Len] counts the networks that are not inside another one, not the networks added. *)
Example len_counts_outermost :
  Len <$> Add_all ["10.0.0.0/8"; "10.1.0.0/16"; "10.1.2.0/24"] NewCIDRMatcher = Some 1 /\
  Len <$> Add_all ["10.1.2.0/24"; "10.1.0.0/16"; "10.1.2.0/24"] NewCIDRMatcher = Some 1.
Proof. split; reflexivity. Qed.


Lemma mapped_network_one_address_witness :
  exists cm' nn, Add "::ffff:10.0.0.0/104" NewCIDRMatcher = Some cm' /\
    IP_To4 (net_IP (mkIPNet (v4InV6Prefix ++ [10; 0; 0; 0]) (CIDRMask 104 16))) = Some nn /\
    ContainsIP [10; 1; 2; 3] cm' = ContainsIP [10; 1; 2; 3] NewCIDRMatcher || bool_decide (IP_To4 [10; 1; 2; 3] = Some nn).
Proof.
  apply (mapped_network_one_address "::ffff:10.0.0.0/104" (v4InV6Prefix ++ [10; 0; 0; 0])).
  - reflexivity.
  - reflexivity.
  - split; [by left|]. repeat (apply Forall_cons; split); unfold is_byte; lia || done.
Defined.

Lemma uint32_ip_roundtrip_witness : IPToUint32 (Uint32ToIP 3232235777) = 3232235777.
Proof. apply uint32_ip_roundtrip. unfold in_u32. lia. Defined.
