(* ===== verification/GoStrings.v ===== *)
(** * Package [strings]: the functions the middleware uses

    [TrimSpace] removes the white space of Unicode in its UTF-8 encoding at both ends.
    The functions work on the bytes of a string. *)
From S2P Require Import Prelude Http Bytes NetIP.
From Stdlib Require Import Ascii.

(** The encodings of the characters for which [unicode.IsSpace] holds. *)
Definition space_encodings : list (list Z) :=
  [[9]; [10]; [11]; [12]; [13]; [32]; [194; 133]; [194; 160]; [225; 154; 128]] ++
  ((fun i => [226; 128; 128 + Z.of_nat i]) <$> seq 0 11) ++
  [[226; 128; 168]; [226; 128; 169]; [226; 128; 175]; [226; 129; 159]; [227; 128; 128]].

(** The rest of [l] after the prefix [p]. *)
Fixpoint strip (p l : list Z) : option (list Z) :=
  match p, l with
  | [], _ => Some l
  | x :: p, y :: l => if x =? y then strip p l else None
  | _, [] => None
  end.

Fixpoint strip_any (ps : list (list Z)) (l : list Z) : option (list Z) :=
  match ps with
  | [] => None
  | p :: ps => match strip p l with Some r => Some r | None => strip_any ps l end
  end.

(** Removes encodings from the front as long as there are any. *)
Fixpoint trim_front (fuel : nat) (ps : list (list Z)) (l : list Z) : list Z :=
  match fuel with
  | O => l
  | S fuel => match strip_any ps l with Some r => trim_front fuel ps r | None => l end
  end.

Definition trim_left (ps : list (list Z)) (l : list Z) : list Z := trim_front (length l) ps l.

Definition TrimSpace (s : string) : string :=
  let l := trim_left space_encodings (bytes_of s) in
  string_of (rev (trim_left (rev (A:=Z) <$> space_encodings) (rev l))).

Example trim_example : TrimSpace " 10.0.0.1  " = "10.0.0.1".
Proof. reflexivity. Qed.

(** [ToLower] on ASCII letters.  Its uses compare the result with ASCII texts without the
    letters i and k, the only ones that other characters become. *)
Fixpoint ToLower (s : string) : string :=
  match s with
  | EmptyString => EmptyString
  | String c r => String (to_lower c) (ToLower r)
  end.

(** [strings.Contains]. *)
Fixpoint strings_Contains (s sub : string) : bool :=
  String.prefix sub s || match s with String _ r => strings_Contains r sub | EmptyString => false end.

(** [strings.EqualFold] with an ASCII text: besides the letters of ASCII only the Kelvin
    sign and the long s fold to ASCII letters. *)
Fixpoint fold_text (s : string) : string :=
  match s with
  | EmptyString => ""
  | String a r =>
      match r with
      | String b r' =>
          if (byte_of a =? 197) && (byte_of b =? 191) then String "s" (fold_text r')
          else match r' with
               | String c r'' =>
                   if (byte_of a =? 226) && (byte_of b =? 132) && (byte_of c =? 170)
                   then String "k" (fold_text r'') else String (to_lower a) (fold_text r)
               | EmptyString => String (to_lower a) (fold_text r)
               end
      | EmptyString => String (to_lower a) ""
      end
  end.

Definition HasPrefix (s p : string) : bool := String.prefix p s.

Definition HasSuffix (s p : string) : bool :=
  (String.length p <=? String.length s)%nat &&
  bool_decide (string_drop (String.length s - String.length p) s = p).

(** [TrimSuffix]. *)
Definition TrimSuffix (s p : string) : string :=
  if HasSuffix s p then string_take (String.length s - String.length p) s else s.

(** ** UTF-8: [utf8.DecodeRune] *)

(** The rune at the front and its width; a malformed encoding is [RuneError] of width 1. *)
Definition RuneError : Z := 65533.

Definition is_cont (b : Z) : bool := (128 <=? b) && (b <=? 191).

Definition DecodeRune (l : list Z) : Z * nat :=
  match l with
  | [] => (RuneError, 0%nat)
  | b0 :: r =>
      let bad := (RuneError, 1%nat) in
      if b0 <? 128 then (b0, 1%nat)
      else if (194 <=? b0) && (b0 <=? 223) then
        match r with
        | b1 :: _ => if is_cont b1 then (Z.land b0 31 * 64 + Z.land b1 63, 2%nat) else bad
        | _ => bad
        end
      else if (224 <=? b0) && (b0 <=? 239) then
        match r with
        | b1 :: b2 :: _ =>
            let lo := if b0 =? 224 then 160 else 128 in
            let hi := if b0 =? 237 then 159 else 191 in
            if (lo <=? b1) && (b1 <=? hi) && is_cont b2
            then (Z.land b0 15 * 4096 + Z.land b1 63 * 64 + Z.land b2 63, 3%nat) else bad
        | _ => bad
        end
      else if (240 <=? b0) && (b0 <=? 244) then
        match r with
        | b1 :: b2 :: b3 :: _ =>
            let lo := if b0 =? 240 then 144 else 128 in
            let hi := if b0 =? 244 then 143 else 191 in
            if (lo <=? b1) && (b1 <=? hi) && is_cont b2 && is_cont b3
            then (Z.land b0 7 * 262144 + Z.land b1 63 * 4096 + Z.land b2 63 * 64 + Z.land b3 63, 4%nat)
            else bad
        | _ => bad
        end
      else bad
  end.

(** ** [path.Match]

    The shell patterns of package [path], on the bytes of the pattern and the name.  An
    error is [None]. *)

(** Reads a possibly escaped character of a class. *)
Definition getEsc (chunk : list Z) : option (Z * list Z) :=
  match chunk with
  | [] => None
  | c :: r =>
      if (c =? 45) || (c =? 93) then None
      else
        let chunk := if c =? 92 then r else chunk in
        match chunk with
        | [] => None
        | _ =>
            let '(rune, n) := DecodeRune chunk in
            if (rune =? RuneError) && (n =? 1)%nat then None
            else match drop n chunk with [] => None | nchunk => Some (rune, nchunk) end
        end
  end.

(** The ranges of a class, up to the closing bracket. *)
Fixpoint match_ranges (fuel : nat) (chunk : list Z) (r : Z) (matched : bool) (nrange : nat)
    : option (bool * list Z) :=
  match fuel with
  | O => None
  | S fuel =>
      match chunk with
      | c :: rest =>
          if (c =? 93) && (0 <? nrange)%nat then Some (matched, rest)
          else
            match getEsc chunk with
            | None => None
            | Some (lo, chunk) =>
                match
                  match chunk with
                  | d :: rest => if d =? 45 then getEsc rest else Some (lo, chunk)
                  | [] => Some (lo, chunk)
                  end
                with
                | None => None
                | Some (hi, chunk) =>
                    match_ranges fuel chunk r (matched || ((lo <=? r) && (r <=? hi))) (S nrange)
                end
            end
      | [] => None
      end
  end.

(** [matchChunk]: the rest of the name after the chunk, or [None] when it does not match. *)
Fixpoint matchChunk (fuel : nat) (chunk s : list Z) (failed : bool) : option (option (list Z)) :=
  match fuel with
  | O => Some None
  | S fuel =>
      match chunk with
      | [] => Some (if failed then None else Some s)
      | c :: rest =>
          let failed := failed || bool_decide (s = []) in
          if c =? 91 then
            let '(r, s) :=
              if failed then (0, s) else let '(r, n) := DecodeRune s in (r, drop n s) in
            let '(negated, rest) :=
              match rest with
              | 94 :: rest' => (true, rest')
              | _ => (false, rest)
              end in
            match match_ranges (S (length rest)) rest r false 0 with
            | None => None
            | Some (m, rest) => matchChunk fuel rest s (failed || Bool.eqb m negated)
            end
          else if c =? 63 then
            if failed then matchChunk fuel rest s true
            else
              let slash := bool_decide (head s = Some 47) in
              matchChunk fuel rest (drop (DecodeRune s).2 s) slash
          else
            let lit (c : Z) (rest : list Z) :=
              if failed then matchChunk fuel rest s true
              else matchChunk fuel rest (tl s) (negb (bool_decide (head s = Some c))) in
            if c =? 92 then match rest with [] => None | c' :: rest' => lit c' rest' end
            else lit c rest
      end
  end.

(** [scanChunk]: the position of the next star outside a class. *)
Fixpoint scan (pattern : list Z) (inrange : bool) : list Z * list Z :=
  match pattern with
  | [] => ([], [])
  | c :: r =>
      if c =? 92 then
        match r with
        | [] => ([c], [])
        | d :: r' => let '(a, b) := scan r' inrange in (c :: d :: a, b)
        end
      else if (c =? 42) && negb inrange then ([], pattern)
      else
        let '(a, b) := scan r (if c =? 91 then true else if c =? 93 then false else inrange) in
        (c :: a, b)
  end.

Fixpoint skip_stars (pattern : list Z) : bool * list Z :=
  match pattern with
  | c :: r => if c =? 42 then (true, (skip_stars r).2) else (false, pattern)
  | [] => (false, [])
  end.

Definition scanChunk (pattern : list Z) : bool * list Z * list Z :=
  let '(star, p) := skip_stars pattern in
  let '(chunk, rest) := scan p false in (star, chunk, rest).

Definition match_chunk (chunk s : list Z) : option (option (list Z)) :=
  matchChunk (S (length chunk)) chunk s false.

(** The search for a later match of a chunk after a star; the star does not cross [/]. *)
Fixpoint star_match (chunk name : list Z) (last : bool) : option (option (list Z)) :=
  match name with
  | [] => Some None
  | c :: name' =>
      if c =? 47 then Some None
      else
        match match_chunk chunk name' with
        | None => None
        | Some (Some t) =>
            if last && negb (bool_decide (t = [])) then star_match chunk name' last else Some (Some t)
        | Some None => star_match chunk name' last
        end
  end.

Fixpoint match_loop (fuel : nat) (pattern name : list Z) : bool :=
  match fuel with
  | O => false
  | S fuel =>
      match pattern with
      | [] => bool_decide (name = [])
      | _ =>
          let '(star, chunk, pattern) := scanChunk pattern in
          if star && bool_decide (chunk = []) then negb (existsb (Z.eqb 47) name)
          else
            match match_chunk chunk name with
            | None => false
            | Some r =>
                match r with
                | Some t =>
                    if bool_decide (t = []) || negb (bool_decide (pattern = []))
                    then match_loop fuel pattern t
                    else if star then
                      match star_match chunk name (bool_decide (pattern = [])) with
                      | Some (Some t) => match_loop fuel pattern t
                      | _ => false
                      end
                    else false
                | None =>
                    if star then
                      match star_match chunk name (bool_decide (pattern = [])) with
                      | Some (Some t) => match_loop fuel pattern t
                      | _ => false
                      end
                    else false
                end
            end
      end
  end.

(** Whether the name matches; errors count as no match. *)
Definition path_Match (pattern name : string) : bool :=
  match_loop (S (String.length pattern)) (bytes_of pattern) (bytes_of name).

Example match_star : path_Match "/api/*" "/api/users" = true.
Proof. reflexivity. Qed.
Example match_star_slash : path_Match "/api/*" "/api/users/1" = false.
Proof. reflexivity. Qed.
Example match_class : path_Match "/v[0-9]/?*.html" "/v2/ab.html" = true.
Proof. reflexivity. Qed.
Example match_bad : path_Match "/v[" "/v[" = false.
Proof. reflexivity. Qed.
Example match_negated : path_Match "a[^b-d]*\*" "axyz*" = true.
Proof. reflexivity. Qed.
Example match_retry : path_Match "*aab" "aaaab" = true.
Proof. reflexivity. Qed.

(** ** Trimmed strings *)

(** A string that neither starts nor ends with white space. *)
Definition trimmed (s : string) : bool :=
  bool_decide (strip_any space_encodings (bytes_of s) = None) &&
  bool_decide (strip_any (rev (A:=Z) <$> space_encodings) (rev (bytes_of s)) = None).

Lemma trim_left_id ps l : strip_any ps l = None -> trim_left ps l = l.
Proof. intros H. unfold trim_left. destruct l; [done|]. cbn [length trim_front]. by rewrite H. Qed.

Lemma TrimSpace_trimmed s : trimmed s = true -> TrimSpace s = s.
Proof.
  unfold trimmed, TrimSpace. intros H. b2p.
  rewrite (trim_left_id space_encodings) by done. rewrite trim_left_id by done.
  by rewrite rev_involutive, string_of_bytes_of.
Qed.
