(* ===== verification/IPAccess.v ===== *)
(** * Address filters: [internal/waf/ipacl/ipacl.go] and [internal/middleware/ip_filter.go]

    The access lists of the firewall keep a trie of networks per list beside a map of
    rules; the theorems show that the two never disagree, so that [Check] follows the
    rules.  The filter of the middleware is built once from two lists and answers by
    them: deny first, then allow, then the default. *)
From S2P Require Import Prelude Http Bytes GoStrings NetIP NetAddr CIDR.
From Stdlib Require Import Ascii.

(** ** Access lists *)

Module ACL.

Inductive Action := ActionAllow | ActionBlock | ActionBypass.

(** A point in time; [None] is the zero time, which means never. *)
Definition Time := option Z.

Record RuleMetadata := mkRule {
  ID : string; r_CIDR : string; CreatedAt : Z; ExpiresAt : Time; Reason : string; Source : string
}.

Definition IsExpired (now : Z) (r : RuleMetadata) : bool :=
  match ExpiresAt r with None => false | Some e => e <? now end.

Record AutoBanConfig := mkAutoBan { Enabled : bool; DefaultTTL : Z; MaxTTL : Z }.
Record EntryConfig := mkEntry { e_CIDR : string; e_Reason : string; e_Expires : Time }.
Record Config := mkConfig {
  Whitelist : list EntryConfig; Blacklist : list EntryConfig; AutoBan : AutoBanConfig
}.

Record IPAccessList := mkACL {
  whitelist : CIDRMatcher; blacklist : CIDRMatcher;
  whiteMeta : gmap string RuleMetadata; blackMeta : gmap string RuleMetadata;
  autoBan : AutoBanConfig; idCounter : Z
}.

(** The digits of a positive counter, the least significant first. *)
Fixpoint id_digits (fuel : nat) (n : Z) : list Z :=
  match fuel with
  | O => []
  | S fuel => if 0 <? n then (48 + n mod 10) :: id_digits fuel (n / 10) else []
  end.

Definition formatID (prefix : string) (counter : Z) : string :=
  let s := prefix +:+ "-" in
  if counter =? 0 then s +:+ "0" else s +:+ string_of (rev (id_digits 19 counter)).

Definition Check (ip : string) (acl : IPAccessList) : Action :=
  if Matcher_Contains ip (whitelist acl) then ActionBypass
  else if Matcher_Contains ip (blacklist acl) then ActionBlock
  else ActionAllow.

(** The rule an operation adds under [cidr]. *)
Definition add_white (now : Z) (cidr reason : string) (expires : Time) (acl : IPAccessList)
    : option IPAccessList :=
  match Add cidr (whitelist acl) with
  | None => None
  | Some cm =>
      let id := i64 (idCounter acl + 1) in
      Some (mkACL cm (blacklist acl)
        (<[cidr := mkRule (formatID "wl" id) cidr now expires reason "manual"]> (whiteMeta acl))
        (blackMeta acl) (autoBan acl) id)
  end.

Definition AddWhitelist := add_white.

Definition add_black (now : Z) (pre source cidr reason : string) (expires : Time)
    (acl : IPAccessList) : option IPAccessList :=
  match Add cidr (blacklist acl) with
  | None => None
  | Some cm =>
      let id := i64 (idCounter acl + 1) in
      Some (mkACL (whitelist acl) cm (whiteMeta acl)
        (<[cidr := mkRule (formatID pre id) cidr now expires reason source]> (blackMeta acl))
        (autoBan acl) id)
  end.

Definition AddBlacklist (now : Z) (cidr reason : string) (expires : Time) (acl : IPAccessList)
    : option IPAccessList := add_black now "bl" "manual" cidr reason expires acl.

(** The effective time to live of a ban. *)
Definition ban_ttl (ttl : Z) (cfg : AutoBanConfig) : Z :=
  let ttl := if (MaxTTL cfg <? ttl) && (0 <? MaxTTL cfg) then MaxTTL cfg else ttl in
  let ttl := if ttl <=? 0 then DefaultTTL cfg else ttl in
  if ttl <=? 0 then 3600 * 10 ^ 9 else ttl.

Definition Ban (now : Z) (ip : string) (ttl : Z) (reason : string) (acl : IPAccessList)
    : option IPAccessList :=
  if Enabled (autoBan acl) then
    add_black now "ab" "auto-ban" (ip +:+ "/32") reason (Some (now + ban_ttl ttl (autoBan acl))) acl
  else Some acl.

Section Rules.
Context `{MapRange}.

(** [Clear] and one [Add] per key; the errors of [Add] are ignored. *)
Definition rebuild (meta : gmap string RuleMetadata) : CIDRMatcher :=
  foldl (fun cm r => default cm (Add r.1 cm)) NewCIDRMatcher (map_range meta).

Definition rebuildBlacklist (acl : IPAccessList) : IPAccessList :=
  mkACL (whitelist acl) (rebuild (blackMeta acl)) (whiteMeta acl) (blackMeta acl)
    (autoBan acl) (idCounter acl).

Definition rebuildWhitelist (acl : IPAccessList) : IPAccessList :=
  mkACL (rebuild (whiteMeta acl)) (blacklist acl) (whiteMeta acl) (blackMeta acl)
    (autoBan acl) (idCounter acl).

Definition set_white (m : gmap string RuleMetadata) (acl : IPAccessList) : IPAccessList :=
  mkACL (whitelist acl) (blacklist acl) m (blackMeta acl) (autoBan acl) (idCounter acl).
Definition set_black (m : gmap string RuleMetadata) (acl : IPAccessList) : IPAccessList :=
  mkACL (whitelist acl) (blacklist acl) (whiteMeta acl) m (autoBan acl) (idCounter acl).

Definition RemoveWhitelist (cidr : string) (acl : IPAccessList) : bool * IPAccessList :=
  match whiteMeta acl !! cidr with
  | None => (false, acl)
  | Some _ => (true, rebuildWhitelist (set_white (delete cidr (whiteMeta acl)) acl))
  end.

Definition RemoveBlacklist (cidr : string) (acl : IPAccessList) : bool * IPAccessList :=
  match blackMeta acl !! cidr with
  | None => (false, acl)
  | Some _ => (true, rebuildBlacklist (set_black (delete cidr (blackMeta acl)) acl))
  end.

(** The rules that have not expired. *)
Definition unexpired (now : Z) (m : gmap string RuleMetadata) : gmap string RuleMetadata :=
  filter (fun r => IsExpired now r.2 = false) m.

Definition any_expired (now : Z) (m : gmap string RuleMetadata) : bool :=
  existsb (fun r => IsExpired now r.2) (map_range m).

Definition cleanupExpired (now : Z) (acl : IPAccessList) : IPAccessList :=
  let acl :=
    if any_expired now (blackMeta acl)
    then rebuildBlacklist (set_black (unexpired now (blackMeta acl)) acl) else acl in
  if any_expired now (whiteMeta acl)
  then rebuildWhitelist (set_white (unexpired now (whiteMeta acl)) acl) else acl.

(** [None] is the error of the first entry that does not parse. *)
Definition New (now : Z) (cfg : Config) : option IPAccessList :=
  let acl := mkACL NewCIDRMatcher NewCIDRMatcher ∅ ∅ (AutoBan cfg) 0 in
  acl ← foldl (fun o e => acl ← o; AddWhitelist now (e_CIDR e) (e_Reason e) (e_Expires e) acl)
          (Some acl) (Whitelist cfg);
  foldl (fun o e => acl ← o; AddBlacklist now (e_CIDR e) (e_Reason e) (e_Expires e) acl)
    (Some acl) (Blacklist cfg).

Definition ListRules (listType : string) (acl : IPAccessList) : list RuleMetadata :=
  let all := bool_decide (listType = "") || bool_decide (listType = "all") in
  (if all || bool_decide (listType = "whitelist") then snd <$> map_range (whiteMeta acl) else []) ++
  (if all || bool_decide (listType = "blacklist") then snd <$> map_range (blackMeta acl) else []).

End Rules.

(** *** The lists follow the rules *)

Section Facts.
Context `{MapRange}.

(** A trie that matches exactly what the rules of a map store. *)
Definition in_step (cm : CIDRMatcher) (m : gmap string RuleMetadata) : Prop :=
  forall ip, ContainsIP ip cm = true <-> exists c r, m !! c = Some r /\ stored c ip = true.

Lemma in_step_new : in_step NewCIDRMatcher ∅.
Proof.
  intros ip. rewrite ContainsIP_new. split; [done|]. intros (c & r & Hr & _).
  by rewrite lookup_empty in Hr.
Qed.

Lemma in_step_add c r cm cm' m : in_step cm m -> Add c cm = Some cm' -> in_step cm' (<[c := r]> m).
Proof.
  intros Hi Ha ip. rewrite (Add_stored _ _ _ ip Ha), orb_true_iff, (Hi ip). split.
  - intros [(k & r' & Hk & Hs)|Hs]; [|exists c, r; by rewrite lookup_insert_eq].
    destruct (decide (k = c)) as [->|Hne]; [exists c, r; by rewrite lookup_insert_eq|].
    exists k, r'. by rewrite lookup_insert_ne.
  - intros (k & r' & Hk & Hs). apply lookup_insert_Some in Hk as [[<- <-]|[Hne Hk]]; eauto.
Qed.

Lemma rebuild_fold l cm ip :
  ContainsIP ip (foldl (fun cm (r : string * RuleMetadata) => default cm (Add r.1 cm)) cm l) =
  ContainsIP ip cm || existsb (fun r => stored r.1 ip) l.
Proof.
  revert cm. induction l as [|r l IH]; intros cm; simpl; [by rewrite orb_false_r|].
  rewrite IH, orb_assoc. f_equal. destruct (Add r.1 cm) as [cm'|] eqn:Ha; simpl; [by apply Add_stored|].
  assert (ParseCIDR r.1 = None) as Hn.
  { apply eq_None_not_Some. rewrite <- Add_success, Ha. by intros [? ?]. }
  unfold stored. rewrite Add_None by done. by rewrite orb_false_r.
Qed.

Lemma in_step_rebuild m : in_step (rebuild m) m.
Proof.
  intros ip. unfold rebuild. rewrite rebuild_fold, ContainsIP_new, orb_false_l, existsb_exists. split.
  - intros ([c r] & Hin & Hs). apply list_elem_of_In in Hin. rewrite map_range_perm in Hin.
    apply elem_of_map_to_list in Hin. eauto.
  - intros (c & r & Hr & Hs). exists (c, r). split; [|done]. apply list_elem_of_In.
    rewrite map_range_perm. by apply elem_of_map_to_list.
Qed.

Definition acl_inv (acl : IPAccessList) : Prop :=
  in_step (whitelist acl) (whiteMeta acl) /\ in_step (blacklist acl) (blackMeta acl).

(** The operations of the access list; [time] is the reading of the clock. *)
Inductive acl_step : IPAccessList -> IPAccessList -> Prop :=
  | step_white now c reason e acl acl' :
      AddWhitelist now c reason e acl = Some acl' -> acl_step acl acl'
  | step_black now c reason e acl acl' :
      AddBlacklist now c reason e acl = Some acl' -> acl_step acl acl'
  | step_ban now ip ttl reason acl acl' :
      Ban now ip ttl reason acl = Some acl' -> acl_step acl acl'
  | step_unwhite c acl : acl_step acl (RemoveWhitelist c acl).2
  | step_unblack c acl : acl_step acl (RemoveBlacklist c acl).2
  | step_cleanup now acl : acl_step acl (cleanupExpired now acl).

Definition acl_reachable (acl : IPAccessList) : Prop :=
  exists now cfg acl0, New now cfg = Some acl0 /\ rtc acl_step acl0 acl.

Lemma add_white_inv now c reason e acl acl' :
  add_white now c reason e acl = Some acl' -> acl_inv acl -> acl_inv acl'.
Proof.
  unfold add_white. destruct (Add c (whitelist acl)) as [cm|] eqn:Ha; [|done]. intros [= <-] [Hw Hb].
  split; [|done]. by eapply in_step_add.
Qed.

Lemma add_black_inv now pre src c reason e acl acl' :
  add_black now pre src c reason e acl = Some acl' -> acl_inv acl -> acl_inv acl'.
Proof.
  unfold add_black. destruct (Add c (blacklist acl)) as [cm|] eqn:Ha; [|done]. intros [= <-] [Hw Hb].
  split; [done|]. by eapply in_step_add.
Qed.

Lemma acl_step_inv acl acl' : acl_step acl acl' -> acl_inv acl -> acl_inv acl'.
Proof.
  intros [] Hi.
  - by eapply add_white_inv.
  - by eapply add_black_inv.
  - unfold Ban in *. case_match; [by eapply add_black_inv|by simplify_eq].
  - unfold RemoveWhitelist. case_match; [|done]. split; [apply in_step_rebuild|apply Hi].
  - unfold RemoveBlacklist. case_match; [|done]. split; [apply Hi|apply in_step_rebuild].
  - unfold cleanupExpired. destruct Hi as [Hw Hb].
    destruct (any_expired now (blackMeta acl0)); cbn; case_match; split;
      first [done|apply in_step_rebuild].
Qed.

Lemma fold_add_inv (add : string -> string -> Time -> IPAccessList -> option IPAccessList) l acl acl' :
  (forall c r e a a', add c r e a = Some a' -> acl_inv a -> acl_inv a') ->
  foldl (fun o e => acl ← o; add (e_CIDR e) (e_Reason e) (e_Expires e) acl) (Some acl) l = Some acl' ->
  acl_inv acl -> acl_inv acl'.
Proof.
  intros Hadd. revert acl'. induction l as [|e l IH] using rev_ind; intros acl' Hf Hi.
  - by injection Hf as <-.
  - rewrite foldl_app in Hf. simpl in Hf. destruct (foldl _ _ _) as [a|]; [|done]. simpl in Hf.
    apply (Hadd _ _ _ _ _ Hf), IH; done.
Qed.

Lemma acl_reachable_inv acl : acl_reachable acl -> acl_inv acl.
Proof.
  intros (now & cfg & acl0 & Hn & Hr).
  assert (H0 : acl_inv acl0).
  { unfold New in Hn. destruct (foldl _ _ (Whitelist cfg)) as [a|] eqn:Hw; [|done]. simpl in Hn.
    apply (fold_add_inv _ _ _ _ (fun c r e a a' => add_black_inv now "bl" "manual" c r e a a') Hn).
    apply (fold_add_inv _ _ _ _ (fun c r e a a' => add_white_inv now c r e a a') Hw).
    split; apply in_step_new. }
  clear Hn. induction Hr as [|a1 a2 a3 Hs _ IH]; [done|]. apply IH. by eapply acl_step_inv.
Qed.

(** Does a rule of the map cover the address? *)
Definition rule_covers (m : gmap string RuleMetadata) (ip : list Z) : bool :=
  existsb (fun r => cidr_contains r.1 ip) (map_to_list m).

Definition plain_rules (m : gmap string RuleMetadata) : Prop :=
  map_Forall (fun c _ => plain_cidr c = true) m.

Lemma in_step_covers cm m s ip :
  in_step cm m -> plain_rules m -> ParseIP s = Some ip -> Matcher_Contains s cm = rule_covers m ip.
Proof.
  intros Hi Hp Hs. unfold Matcher_Contains. rewrite Hs. apply ParseIP_valid in Hs as [Hl Hb].
  apply eq_true_iff_eq. rewrite (Hi ip). unfold rule_covers. rewrite existsb_exists. split.
  - intros (c & r & Hr & Hst). exists (c, r). split; [by apply list_elem_of_In, elem_of_map_to_list|].
    simpl. rewrite <- stored_plain; [done|exact (Hp c r Hr)|by split; auto].
  - intros ([c r] & Hin & Hc). apply list_elem_of_In, elem_of_map_to_list in Hin.
    exists c, r. split; [done|]. simpl in Hc. rewrite stored_plain; [done|exact (Hp c r Hin)|by split; auto].
Qed.

Definition check_rules (acl : IPAccessList) (s : string) : Action :=
  match ParseIP s with
  | None => ActionAllow
  | Some ip =>
      if rule_covers (whiteMeta acl) ip then ActionBypass
      else if rule_covers (blackMeta acl) ip then ActionBlock else ActionAllow
  end.

Lemma Check_rules acl s :
  acl_inv acl -> plain_rules (whiteMeta acl) -> plain_rules (blackMeta acl) ->
  Check s acl = check_rules acl s.
Proof.
  intros [Iw Ib] Hw Hb. unfold Check, check_rules.
  destruct (ParseIP s) as [ip|] eqn:Hs; [|by unfold Matcher_Contains; rewrite Hs].
  by rewrite (in_step_covers _ _ _ _ Iw Hw Hs), (in_step_covers _ _ _ _ Ib Hb Hs).
Qed.


Lemma no_expired now m : any_expired now m = false -> unexpired now m = m.
Proof.
  intros He. apply map_filter_id. intros c r Hr. simpl.
  destruct (IsExpired now r) eqn:E; [|done]. exfalso. revert He.
  apply not_false_iff_true. unfold any_expired. rewrite existsb_exists.
  exists (c, r). split; [|done]. apply list_elem_of_In. rewrite map_range_perm.
  by apply elem_of_map_to_list.
Qed.

(** A clean-up removes exactly the expired rules from both lists. *)
Lemma cleanup_meta now acl :
  whiteMeta (cleanupExpired now acl) = unexpired now (whiteMeta acl) /\
  blackMeta (cleanupExpired now acl) = unexpired now (blackMeta acl).
Proof.
  unfold cleanupExpired.
  destruct (any_expired now (blackMeta acl)) eqn:Eb; cbn;
    destruct (any_expired now (whiteMeta acl)) eqn:Ew; cbn;
    by rewrite ?(no_expired _ _ Eb), ?(no_expired _ _ Ew).
Qed.

(** An address that is blocked right after a clean-up is covered by a rule that has not
    expired. *)
Theorem acl_cleanup_enforces_expiry now acl s
  (Hr : acl_reachable acl) (Hw : plain_rules (whiteMeta acl)) (Hb : plain_rules (blackMeta acl))
  (Hc : Check s (cleanupExpired now acl) = ActionBlock) :
  exists ip c r, ParseIP s = Some ip /\ blackMeta acl !! c = Some r /\
    IsExpired now r = false /\ cidr_contains c ip = true.
Proof.
  destruct (cleanup_meta now acl) as [Ew Eb].
  assert (Hp : forall m, plain_rules m -> plain_rules (unexpired now m)).
  { intros m Hm c r Hf. apply map_lookup_filter_Some in Hf as [Hf _]. by apply (Hm c r). }
  assert (Hi : acl_inv (cleanupExpired now acl)).
  { eapply acl_step_inv; [apply step_cleanup|]. by apply acl_reachable_inv. }
  rewrite Check_rules in Hc; [|done|rewrite Ew; auto|rewrite Eb; auto]. unfold check_rules in Hc.
  destruct (ParseIP s) as [ip|]; [|done]. rewrite Ew, Eb in Hc.
  destruct (rule_covers (unexpired now (whiteMeta acl)) ip); [done|].
  destruct (rule_covers (unexpired now (blackMeta acl)) ip) eqn:Hcov; [|done].
  apply existsb_exists in Hcov as ([c r] & Hin & Hcov).
  apply list_elem_of_In, elem_of_map_to_list, map_lookup_filter_Some in Hin as [Hin He].
  exists ip, c, r. done.
Qed.

(** A ban replaces the rule of the same address: a permanent manual rule is gone after
    the ban expires. *)
Theorem ban_replaces_manual_rule now later ip ttl reason acl acl'
  (He : Enabled (autoBan acl) = true) (Hb : Ban now ip ttl reason acl = Some acl')
  (Hl : now + ban_ttl ttl (autoBan acl) < later) :
  blackMeta (cleanupExpired later acl') !! (ip +:+ "/32") = None.
Proof.
  destruct (cleanup_meta later acl') as [_ ->]. unfold Ban, add_black in Hb. rewrite He in Hb.
  destruct (Add _ _); [|done]. injection Hb as <-. simpl.
  apply map_lookup_filter_None. right. intros r Hr. rewrite lookup_insert_eq in Hr. injection Hr as <-.
  unfold IsExpired. simpl. rewrite (proj2 (Z.ltb_lt _ _)) by lia. done.
Qed.

(** The address an automatic ban names is extended by a mask of 32 bits, also for IPv6:
    a ban of one address blocks the whole network of its first 32 bits. *)
Theorem ipv6_ban_blocks_network now ttl reason acl acl' rest
  (He : Enabled (autoBan acl) = true) (Hl : length rest = 12%nat) (Hb : Forall is_byte rest)
  (Hban : Ban now "2001:db8::1" ttl reason acl = Some acl')
  (Hw : Matcher_Contains (IP_String ([32; 1; 13; 184] ++ rest)) (whitelist acl) = false) :
  Check (IP_String ([32; 1; 13; 184] ++ rest)) acl' = ActionBlock.
Proof.
  unfold Ban, add_black in Hban. rewrite He in Hban.
  destruct (Add _ (blacklist acl)) as [cm|] eqn:Ha; [|done]. injection Hban as <-.
  unfold Check. cbn [whitelist blacklist]. rewrite Hw. unfold Matcher_Contains.
  set (v := [32; 1; 13; 184] ++ rest) in *.
  assert (Hv : valid_ip v).
  { split; [right; unfold v; rewrite length_app, Hl; done|]. apply Forall_app. split; [|done].
    repeat (apply Forall_cons; split); unfold is_byte; lia || done. }
  assert (Hl16 : length v = 16%nat) by (unfold v; rewrite length_app, Hl; done).
  rewrite ParseIP_String by done. replace (IP_To16 v) with (Some v) by (unfold IP_To16; by rewrite Hl16).
  rewrite (Add_stored _ _ _ v Ha), stored_plain; [|reflexivity|done].
  replace (cidr_contains ("2001:db8::1" +:+ "/32") v) with true; [by rewrite orb_true_r|].
  set (nn := [32; 1; 13; 184; 0; 0; 0; 0; 0; 0; 0; 0; 0; 0; 0; 0]).
  unfold cidr_contains.
  replace (ParseCIDR _) with (Some ([32; 1; 13; 184; 0; 0; 0; 0; 0; 0; 0; 0; 0; 0; 0; 1],
    mkIPNet nn (CIDRMask 32 (length nn)))) by reflexivity.
  unfold Contains. replace (networkNumberAndMask _) with (Some (nn, CIDRMask 32 (length nn))) by reflexivity.
  replace (IP_To4 v) with (@None (list Z)) by (unfold IP_To4; by rewrite Hl16). cbn [default].
  rewrite Hl16. symmetry. apply andb_true_iff. split; [done|]. apply bool_decide_eq_true.
  apply masked_prefix; [by rewrite Hl16| |apply Hv|].
  { repeat (apply Forall_cons; split); unfold is_byte; lia || done. }
  unfold v, bits. rewrite bind_app. rewrite take_app_le by (vm_compute; lia). done.
Qed.

End Facts.

End ACL.

(** ** The filter of the middleware *)

Module IPFilter.

Record IPFilterConfig := mkConfig {
  AllowList : list string; DenyList : list string; DefaultAction : string;
  TrustXForwardedFor : bool
}.

Record IPFilterMiddleware := mkFilter {
  config : IPFilterConfig;
  allowMatcher : CIDRMatcher; denyMatcher : CIDRMatcher;
  allowIPs : gset string; denyIPs : gset string;
  hasAllow : bool; hasDeny : bool
}.

Inductive FilterError := InvalidAction (a : string) | InvalidCIDR (e : string) | InvalidIP (e : string).

Definition isCIDR (s : string) : bool := has_char "/"%char s.

(** One entry of a list. *)
Definition parse_entry (entry : string) (acc : CIDRMatcher * gset string)
    : FilterError + CIDRMatcher * gset string :=
  let entry := TrimSpace entry in
  if bool_decide (entry = "") then inr acc
  else if isCIDR entry then
    match Add entry acc.1 with
    | Some cm => inr (cm, acc.2)
    | None => inl (InvalidCIDR entry)
    end
  else
    match ParseIP entry with
    | Some ip => inr (acc.1, {[IP_String ip]} ∪ acc.2)
    | None => inl (InvalidIP entry)
    end.

Fixpoint parse_list (l : list string) (acc : CIDRMatcher * gset string)
    : FilterError + CIDRMatcher * gset string :=
  match l with
  | [] => inr acc
  | e :: l =>
      match parse_entry e acc with
      | inr acc => parse_list l acc
      | inl err => inl err
      end
  end.

Definition buildMatchers (allowList denyList : list string) (config : IPFilterConfig)
    : FilterError + IPFilterMiddleware :=
  match parse_list allowList (NewCIDRMatcher, ∅) with
  | inl err => inl err
  | inr (am, ai) =>
      match parse_list denyList (NewCIDRMatcher, ∅) with
      | inl err => inl err
      | inr (dm, di) =>
          inr (mkFilter config am dm ai di (0 <? len allowList) (0 <? len denyList))
      end
  end.

Definition NewIPFilterMiddleware (c : IPFilterConfig) : FilterError + IPFilterMiddleware :=
  let a := if bool_decide (DefaultAction c = "") then "allow" else DefaultAction c in
  let a := ToLower a in
  let c := mkConfig (AllowList c) (DenyList c) a (TrustXForwardedFor c) in
  if negb (bool_decide (a = "allow")) && negb (bool_decide (a = "deny")) then inl (InvalidAction a)
  else buildMatchers (AllowList c) (DenyList c) c.

(** [UpdateLists] builds everything before it changes the filter. *)
Definition UpdateLists (allowList denyList : list string) (m : IPFilterMiddleware)
    : FilterError + IPFilterMiddleware :=
  buildMatchers allowList denyList
    (mkConfig allowList denyList (DefaultAction (config m)) (TrustXForwardedFor (config m))).

Definition isAllowed (ip : string) (m : IPFilterMiddleware) : bool :=
  match ParseIP ip with
  | None => bool_decide (DefaultAction (config m) = "allow")
  | Some parsedIP =>
      let normalizedIP := IP_String parsedIP in
      if hasDeny m && (bool_decide (normalizedIP ∈ denyIPs m)
                       || Matcher_Contains normalizedIP (denyMatcher m)) then false
      else if hasAllow m then
        bool_decide (normalizedIP ∈ allowIPs m) || Matcher_Contains normalizedIP (allowMatcher m)
      else bool_decide (DefaultAction (config m) = "allow")
  end.

(** [net.IP.IsPrivate] and [IsLoopback]. *)
Definition IsPrivate (ip : list Z) : bool :=
  match IP_To4 ip with
  | Some ip4 =>
      (nth 0 ip4 0 =? 10) || ((nth 0 ip4 0 =? 172) && (Z.land (nth 1 ip4 0) 240 =? 16))
      || ((nth 0 ip4 0 =? 192) && (nth 1 ip4 0 =? 168))
  | None => bool_decide (length ip = 16%nat) && (Z.land (nth 0 ip 0) 254 =? 252)
  end.

Definition IsLoopback (ip : list Z) : bool :=
  match IP_To4 ip with
  | Some ip4 => nth 0 ip4 0 =? 127
  | None => bool_decide (ip = replicate 15 0 ++ [1])
  end.

Definition extractClientIP (remoteAddr : string) (r : Request) (m : IPFilterMiddleware) : string :=
  let direct := ExtractIP remoteAddr in
  if TrustXForwardedFor (config m) then
    match ParseIP direct with
    | Some peer =>
        if IsPrivate peer || IsLoopback peer then
          let xff := Header_Get (Header r) "X-Forwarded-For" in
          if bool_decide (xff = "") then direct
          else
            let ip := TrimSpace (default "" (head (Split ","%char xff))) in
            if bool_decide (ip = "") then direct else ip
        else direct
    | None => direct
    end
  else direct.

(** [Wrap]: the status the middleware answers itself, or [None] when the next handler
    serves the request. *)
Definition Wrap (remoteAddr : string) (r : Request) (m : IPFilterMiddleware) : option Z :=
  if isAllowed (extractClientIP remoteAddr r m) m then None else Some 403.

(** *** The filter follows its lists *)

(** Does an entry of a list cover the address? *)
Definition entry_covers (ip : list Z) (entry : string) : bool :=
  let entry := TrimSpace entry in
  if bool_decide (entry = "") then false
  else if isCIDR entry then cidr_contains entry ip
  else bool_decide (ParseIP entry = Some ip).

Definition plain_entries (l : list string) : bool := forallb (fun e => plain_cidr (TrimSpace e)) l.

(** The address is among the parsed entries. *)
Definition hit (ip : list Z) (acc : CIDRMatcher * gset string) : bool :=
  bool_decide (IP_String ip ∈ acc.2) || ContainsIP ip acc.1.

Lemma IP_String_inj p q :
  length p = 16%nat -> Forall is_byte p -> length q = 16%nat -> Forall is_byte q ->
  IP_String p = IP_String q -> p = q.
Proof.
  intros Hp Hbp Hq Hbq E. apply (f_equal ParseIP) in E.
  rewrite !ParseIP_String in E by (split; auto). unfold IP_To16 in E. rewrite Hp, Hq in E.
  by injection E.
Qed.

Lemma parse_entry_hit e acc acc' ip :
  parse_entry e acc = inr acc' -> plain_cidr (TrimSpace e) = true ->
  length ip = 16%nat -> Forall is_byte ip -> hit ip acc' = hit ip acc || entry_covers ip e.
Proof.
  unfold parse_entry, entry_covers, hit. intros H Hp Hl Hb.
  case_bool_decide; [injection H as <-; by rewrite orb_false_r|].
  destruct (isCIDR (TrimSpace e)).
  - destruct (Add _ _) as [cm|] eqn:Ha; [|done]. injection H as <-. simpl.
    rewrite (Add_stored _ _ _ ip Ha), stored_plain by (done || by split; auto). by rewrite orb_assoc.
  - destruct (ParseIP (TrimSpace e)) as [q|] eqn:Hq; [|done]. injection H as <-. simpl.
    apply ParseIP_valid in Hq as Hv. destruct Hv as [Hql Hqb].
    rewrite <- orb_assoc, (orb_comm (ContainsIP _ _)), orb_assoc. f_equal.
    rewrite <- bool_decide_or. apply bool_decide_ext. rewrite elem_of_union, elem_of_singleton.
    split; [intros [E|?]; [right|by left]|intros [?|[= ->]]; auto].
    f_equal. symmetry. by apply IP_String_inj.
Qed.

Lemma parse_list_hit l acc acc' ip :
  parse_list l acc = inr acc' -> plain_entries l = true ->
  length ip = 16%nat -> Forall is_byte ip -> hit ip acc' = hit ip acc || existsb (entry_covers ip) l.
Proof.
  revert acc. induction l as [|e l IH]; intros acc H Hp Hl Hb; simpl in *.
  - injection H as <-. by rewrite orb_false_r.
  - apply andb_true_iff in Hp as [Hp1 Hp2]. destruct (parse_entry e acc) as [|acc1] eqn:He; [done|].
    rewrite (IH acc1), (parse_entry_hit e acc acc1), orb_assoc by done. done.
Qed.

Lemma hit_new ip : hit ip (NewCIDRMatcher, ∅) = false.
Proof. unfold hit. simpl. rewrite ContainsIP_new, bool_decide_eq_false_2; [done|]. set_solver. Qed.

(** What a pair of lists decides about an address in text form. *)
Definition decision (allow deny : list string) (defaultAllow : bool) (s : string) : bool :=
  match ParseIP s with
  | None => defaultAllow
  | Some ip =>
      negb (existsb (entry_covers ip) deny) &&
      match allow with [] => defaultAllow | _ => existsb (entry_covers ip) allow end
  end.

Lemma buildMatchers_decision allow deny c m s :
  buildMatchers allow deny c = inr m -> plain_entries allow = true -> plain_entries deny = true ->
  isAllowed s m = decision allow deny (bool_decide (DefaultAction c = "allow")) s.
Proof.
  unfold buildMatchers. intros H Ha Hd.
  destruct (parse_list allow _) as [|[am ai]] eqn:Ea; [done|].
  destruct (parse_list deny _) as [|[dm di]] eqn:Ed; [done|]. injection H as <-.
  unfold isAllowed, decision. cbn [config hasDeny hasAllow denyIPs denyMatcher allowIPs allowMatcher].
  destruct (ParseIP s) as [ip|] eqn:Hs; [|done]. apply ParseIP_valid in Hs as [Hl Hb].
  pose proof (parse_list_hit _ _ _ ip Ea Ha Hl Hb) as Hha. rewrite hit_new in Hha.
  pose proof (parse_list_hit _ _ _ ip Ed Hd Hl Hb) as Hhd. rewrite hit_new in Hhd.
  unfold hit in Hha, Hhd. simpl in Hha, Hhd. unfold Matcher_Contains.
  assert (Hp : ParseIP (IP_String ip) = Some ip).
  { rewrite ParseIP_String by (split; auto). unfold IP_To16. by rewrite Hl. }
  rewrite Hp, Hha, Hhd. 
  destruct deny as [|e0 deny]; [by destruct allow|].
  by destruct (existsb (entry_covers ip) (e0 :: deny)), allow.
Qed.

Lemma buildMatchers_config allow deny c m : buildMatchers allow deny c = inr m -> config m = c.
Proof.
  unfold buildMatchers. destruct (parse_list allow _) as [|[]]; [done|].
  destruct (parse_list deny _) as [|[]]; [done|]. by intros [= <-].
Qed.

(** A request is allowed exactly when its address is in no entry of the deny list and,
    if there is an allow list, in one of its entries; without an allow list the default
    action decides.  Entries may be written with surrounding white space, as addresses
    in any spelling or as networks. *)
Theorem ip_filter_follows_lists c m s
  (Hnew : NewIPFilterMiddleware c = inr m)
  (Ha : plain_entries (AllowList c) = true) (Hd : plain_entries (DenyList c) = true) :
  isAllowed s m =
  decision (AllowList c) (DenyList c)
    (bool_decide (DefaultAction c = "") || bool_decide (ToLower (DefaultAction c) = "allow")) s.
Proof.
  unfold NewIPFilterMiddleware in Hnew. case_match; [done|].
  rewrite (buildMatchers_decision _ _ _ _ _ Hnew) by done. simpl. f_equal.
  case_bool_decide as E; [done|]. simpl. done.
Qed.

(** Updating the lists gives the filter that the new lists would have built, and an
    invalid entry leaves the filter as it is. *)
Theorem ip_filter_update c m allow deny m' s
  (Hnew : NewIPFilterMiddleware c = inr m) (Hup : UpdateLists allow deny m = inr m')
  (Ha : plain_entries allow = true) (Hd : plain_entries deny = true) :
  isAllowed s m' =
  decision allow deny
    (bool_decide (DefaultAction c = "") || bool_decide (ToLower (DefaultAction c) = "allow")) s.
Proof.
  unfold UpdateLists in Hup. rewrite (buildMatchers_decision _ _ _ _ _ Hup) by done. simpl. f_equal.
  unfold NewIPFilterMiddleware in Hnew. case_match; [done|].
  rewrite (buildMatchers_config _ _ _ _ Hnew). simpl. by case_bool_decide.
Qed.

(** A client address that does not parse skips both lists: with the default action
    "allow" it is served whatever the lists say. *)
Theorem unparsable_client_allowed s m
  (Hs : ParseIP s = None) (Hd : DefaultAction (config m) = "allow") : isAllowed s m = true.
Proof. unfold isAllowed. rewrite Hs, Hd. done. Qed.

(** With [TrustXForwardedFor] off, or for a peer that is not private, the headers of the
    request do not matter. *)
Theorem direct_peer_decides remoteAddr r m peer
  (Hp : ParseIP (ExtractIP remoteAddr) = Some peer)
  (Hpub : TrustXForwardedFor (config m) = false \/ IsPrivate peer || IsLoopback peer = false) :
  extractClientIP remoteAddr r m = ExtractIP remoteAddr.
Proof.
  unfold extractClientIP. destruct (TrustXForwardedFor (config m)); [|done].
  rewrite Hp. destruct Hpub as [?| ->]; [done|]. done.
Qed.

End IPFilter.

(** ** Examples *)

Section Examples.
Import ACL IPFilter.
#[local] Existing Instance gmap_range.

Definition demo_acl_cfg : ACL.Config :=
  ACL.mkConfig [mkEntry "10.0.0.0/8" "office" None]
    [mkEntry "10.66.0.0/16" "lab" None; mkEntry "203.0.113.0/24" "abuse" (Some 100)]
    (mkAutoBan true 60 3600).

Definition demo_acl : IPAccessList := default (mkACL NewCIDRMatcher NewCIDRMatcher ∅ ∅ (mkAutoBan true 60 3600) 0) (New 0 demo_acl_cfg).

Lemma demo_acl_reachable : acl_reachable demo_acl.
Proof. exists 0, demo_acl_cfg, demo_acl. split; [reflexivity|apply rtc_refl]. Qed.

Lemma demo_acl_plain : plain_rules (whiteMeta demo_acl) /\ plain_rules (blackMeta demo_acl).
Proof. split; apply (bool_decide_eq_true_1 _); vm_compute; reflexivity. Qed.


Lemma acl_cleanup_enforces_expiry_witness :
  exists ip c r, ParseIP "203.0.113.9" = Some ip /\ blackMeta demo_acl !! c = Some r /\
    IsExpired 50 r = false /\ cidr_contains c ip = true.
Proof.
  apply (acl_cleanup_enforces_expiry 50 demo_acl _ demo_acl_reachable (proj1 demo_acl_plain)
    (proj2 demo_acl_plain)). vm_compute. reflexivity.
Defined.

Definition demo_manual : IPAccessList :=
  default demo_acl (AddBlacklist 0 "192.0.2.1/32" "forever" None demo_acl).
Definition demo_banned : IPAccessList := default demo_manual (Ban 10 "192.0.2.1" 5 "scan" demo_manual).

Lemma ban_replaces_manual_rule_witness :
  ExpiresAt <$> blackMeta demo_manual !! "192.0.2.1/32" = Some None /\
  blackMeta (cleanupExpired 20 demo_banned) !! ("192.0.2.1" +:+ "/32") = None.
Proof.
  split; [vm_compute; reflexivity|].
  apply (ban_replaces_manual_rule 10 20 "192.0.2.1" 5 "scan" demo_manual);
    [reflexivity|reflexivity|vm_compute; reflexivity].
Defined.

Lemma ipv6_ban_blocks_network_witness :
  exists acl', Ban 0 "2001:db8::1" 5 "scan" demo_acl = Some acl' /\
    Check (IP_String ([32; 1; 13; 184] ++ replicate 12 9)) acl' = ActionBlock.
Proof.
  eexists. split; [reflexivity|].
  eapply (ipv6_ban_blocks_network 0 5 "scan" demo_acl); [reflexivity|reflexivity| |reflexivity|reflexivity].
  apply Forall_replicate. unfold is_byte. lia.
Defined.

Definition demo_filter : IPFilterConfig :=
  IPFilter.mkConfig ["10.0.0.0/8"; " 192.0.2.7 "] ["10.66.0.0/16"] "" true.

Lemma ip_filter_follows_lists_witness :
  exists m, NewIPFilterMiddleware demo_filter = inr m /\
    isAllowed "::ffff:192.0.2.7" m = true /\ isAllowed "10.66.0.1" m = false.
Proof.
  eexists. split; [reflexivity|].
  split; erewrite (ip_filter_follows_lists demo_filter); reflexivity.
Defined.

Lemma ip_filter_update_witness :
  exists m m', NewIPFilterMiddleware demo_filter = inr m /\ UpdateLists [] ["10.0.0.0/8"] m = inr m' /\
    isAllowed "10.1.1.1" m' = false /\ isAllowed "192.0.2.8" m' = true.
Proof.
  eexists _, _. split; [reflexivity|]. split; [reflexivity|].
  split; erewrite (ip_filter_update demo_filter _ [] ["10.0.0.0/8"]); reflexivity.
Defined.

(** Behind a private proxy the first name of [X-Forwarded-For] is taken as it is: a client
    that sends no address there passes both lists. *)
Lemma unparsable_client_allowed_witness :
  exists m, NewIPFilterMiddleware demo_filter = inr m /\
    Wrap "10.66.0.1:4711"
      (mkRequest "GET" "h" "" "/" {["X-Forwarded-For" := ["unknown"]]} [] []) m = None.
Proof.
  eexists. split; [reflexivity|]. unfold Wrap.
  erewrite (unparsable_client_allowed _ _); [reflexivity|vm_compute; reflexivity|reflexivity].
Defined.

Lemma direct_peer_decides_witness :
  exists m, NewIPFilterMiddleware demo_filter = inr m /\
    extractClientIP "198.51.100.1:4711"
      (mkRequest "GET" "h" "" "/" {["X-Forwarded-For" := ["10.0.0.1"]]} [] []) m = "198.51.100.1".
Proof.
  eexists. split; [reflexivity|].
  apply (direct_peer_decides "198.51.100.1:4711" _ _ (v4InV6Prefix ++ [198; 51; 100; 1]));
    [reflexivity|right; reflexivity].
Defined.

End Examples.
