(* ===== verification/GoEncoding.v ===== *)
(** * Packages [encoding/base64], [encoding/hex] and [net/url]

    What the middleware uses of them: the decoders of base64 with and without padding, which
    skip line ends and ignore stray bits at the end, the encoder, hexadecimal digits, and
    the text of a URL whose path may carry its own encoding. *)
From S2P Require Import Prelude Http Bytes NetIP NetAddr GoStrings.
From Stdlib Require Import Ascii.

Definition chars (s : string) : list ascii := String.list_ascii_of_string s.
Definition text_of (l : list ascii) : string := String.string_of_list_ascii l.

Definition char_of (z : Z) : ascii := ascii_of_nat (Z.to_nat z).

(** ** Package [strings] *)

(** [strings.TrimPrefix]. *)
Definition TrimPrefix (s p : string) : string := if HasPrefix s p then string_drop (String.length p) s else s.

(** [strings.SplitN(s, string(c), 2)] with two parts, or [None]. *)
Fixpoint Cut (c : ascii) (s : string) : option (string * string) :=
  match s with
  | EmptyString => None
  | String a r => if Ascii.eqb a c then Some ("", r) else (fun '(x, y) => (String a x, y)) <$> Cut c r
  end.

(** ** Package [encoding/hex] *)

Definition hex_digit (d : Z) : ascii := if d <? 10 then char_of (48 + d) else char_of (87 + d).

Definition hex_encode (s : string) : string :=
  text_of (chars s ≫= fun c => [hex_digit (byte_of c / 16); hex_digit (byte_of c mod 16)]).

(** ** Package [encoding/base64] *)

(** The last two characters of the alphabet tell the standard one from that of URLs. *)
Record encoding := mkEncoding { char62 : ascii; char63 : ascii; padded : bool }.
Definition StdEncoding : encoding := mkEncoding "+" "/" true.
Definition RawURLEncoding : encoding := mkEncoding "-" "_" false.

Definition sextet (e : encoding) (c : ascii) : option Z :=
  let b := byte_of c in
  if is_upper c then Some (b - 65)
  else if is_lower c then Some (b - 71)
  else if is_digit c then Some (b + 4)
  else if Ascii.eqb c (char62 e) then Some 62
  else if Ascii.eqb c (char63 e) then Some 63
  else None.

Definition symbol (e : encoding) (v : Z) : ascii :=
  if v <? 26 then char_of (65 + v)
  else if v <? 52 then char_of (71 + v)
  else if v <? 62 then char_of (v - 4)
  else if v =? 62 then char62 e else char63 e.

Definition byte1 (a b : Z) : ascii := char_of (a * 4 + b / 16).
Definition byte2 (b c : Z) : ascii := char_of (b mod 16 * 16 + c / 4).
Definition byte3 (c d : Z) : ascii := char_of (c mod 4 * 64 + d).

Definition pad_char : ascii := "=".

(** The last quantum of an encoding without padding, and the errors of one with padding. *)
Definition decode_end (e : encoding) (s : list ascii) : option (list ascii) :=
  match s with
  | [] => Some []
  | [a; b] => if padded e then None else x ← sextet e a; y ← sextet e b; Some [byte1 x y]
  | [a; b; c] =>
      if padded e then None
      else x ← sextet e a; y ← sextet e b; z ← sextet e c; Some [byte1 x y; byte2 y z]
  | _ => None
  end.

(** [decodeQuantum] on a text without line ends. *)
Fixpoint decode_quanta (e : encoding) (s : list ascii) : option (list ascii) :=
  match s with
  | a :: b :: c :: d :: r =>
      x ← sextet e a;
      y ← sextet e b;
      if padded e && Ascii.eqb c pad_char then
        if Ascii.eqb d pad_char && bool_decide (r = []) then Some [byte1 x y] else None
      else
        z ← sextet e c;
        if padded e && Ascii.eqb d pad_char then
          if bool_decide (r = []) then Some [byte1 x y; byte2 y z] else None
        else
          v ← sextet e d;
          rest ← decode_quanta e r;
          Some (byte1 x y :: byte2 y z :: byte3 z v :: rest)
  | _ => decode_end e s
  end.

Definition line_end (c : ascii) : bool := (byte_of c =? 10) || (byte_of c =? 13).

Definition DecodeString (e : encoding) (s : string) : option string :=
  text_of <$> decode_quanta e (List.filter (fun c => negb (line_end c)) (chars s)).

(** The six-bit groups of three bytes. *)
Definition group1 (a : Z) : Z := a / 4.
Definition group2 (a b : Z) : Z := a mod 4 * 16 + b / 16.
Definition group3 (b c : Z) : Z := b mod 16 * 4 + c / 64.
Definition group4 (c : Z) : Z := c mod 64.

Definition pads (e : encoding) (n : nat) : list ascii := if padded e then replicate n pad_char else [].

Fixpoint encode_chars (e : encoding) (s : list ascii) : list ascii :=
  match s with
  | a :: b :: c :: r =>
      let '(x, y, z) := (byte_of a, byte_of b, byte_of c) in
      symbol e (group1 x) :: symbol e (group2 x y) :: symbol e (group3 y z) :: symbol e (group4 z) :: encode_chars e r
  | [a; b] =>
      let '(x, y) := (byte_of a, byte_of b) in
      [symbol e (group1 x); symbol e (group2 x y); symbol e (group3 y 0)] ++ pads e 1
  | [a] => let x := byte_of a in [symbol e (group1 x); symbol e (group2 x 0)] ++ pads e 2
  | [] => []
  end.

Definition EncodeToString (e : encoding) (s : string) : string := text_of (encode_chars e (chars s)).

(** ** Package [net/url] *)

(** [shouldEscape] for paths, and for the other characters that may stand in an encoded path. *)
Definition path_char (c : ascii) : bool :=
  is_upper c || is_lower c || is_digit c ||
  existsb (Ascii.eqb c) ["-"; "_"; "."; "~"; "$"; "&"; "+"; ","; "/"; ":"; ";"; "="; "@"]%char.

Definition upper_hex (d : Z) : ascii := if d <? 10 then char_of (48 + d) else char_of (55 + d).

Definition escape_path (s : string) : string :=
  text_of (chars s ≫= fun c =>
    if path_char c then [c] else ["%"%char; upper_hex (byte_of c / 16); upper_hex (byte_of c mod 16)]).

Definition unhex (c : ascii) : option Z :=
  let b := byte_of c in
  if is_digit c then Some (b - 48)
  else if (97 <=? b) && (b <=? 102) then Some (b - 87)
  else if (65 <=? b) && (b <=? 70) then Some (b - 55)
  else None.

Fixpoint unescape_chars (s : list ascii) : option (list ascii) :=
  match s with
  | [] => Some []
  | c :: r =>
      if Ascii.eqb c "%" then
        match r with
        | a :: b :: r => x ← unhex a; y ← unhex b; rest ← unescape_chars r; Some (char_of (16 * x + y) :: rest)
        | _ => None
        end
      else rest ← unescape_chars r; Some (c :: rest)
  end.

(** [validEncoded] for paths. *)
Definition valid_encoded (s : string) : bool :=
  forallb (fun c => path_char c || existsb (Ascii.eqb c) ["!"; "'"; "("; ")"; "*"; "["; "]"; "%"]%char) (chars s).

Definition EscapedPath (path raw : string) : string :=
  if negb (bool_decide (raw = "")) && valid_encoded raw && bool_decide (unescape_chars (chars raw) = Some (chars path)) then raw
  else if bool_decide (path = "*") then "*" else escape_path path.

(** [URL.String] of the URL of a request in origin form: no scheme, host or fragment. *)
Definition URL_String (path raw query : string) : string :=
  let p := EscapedPath path raw in
  let first := default p (fst <$> Cut "/" p) in
  (if strings_Contains first ":" then "./" else "") +:+ p +:+ (if bool_decide (query = "") then "" else "?" +:+ query).

(** ** Prefixes *)

Lemma string_drop_app a b : string_drop (String.length a) (a +:+ b) = b.
Proof. induction a as [|c a IH]; [done|]. exact IH. Qed.

Lemma HasPrefix_app p s : HasPrefix (p +:+ s) p = true.
Proof. unfold HasPrefix. induction p as [|c p IH]; [by destruct s|]. rewrite append_cons. cbn [String.prefix]. by destruct (ascii_dec c c). Qed.

Lemma TrimPrefix_app p s : TrimPrefix (p +:+ s) p = s.
Proof. unfold TrimPrefix. by rewrite HasPrefix_app, string_drop_app. Qed.

Lemma Cut_app c a b : all_chars (fun x => x <> c) a -> Cut c (a +:+ String c b) = Some (a, b).
Proof.
  induction a as [|x a IH]; [rewrite append_nil; cbn [Cut]; by rewrite Ascii.eqb_refl|]. intros [Hx Ha]. rewrite append_cons. cbn [Cut].
  destruct (Ascii.eqb_spec x c); [done|]. by rewrite IH.
Qed.

(** ** The decoder undoes the encoder *)

Lemma byte_range c : 0 <= byte_of c < 256.
Proof. unfold byte_of. pose proof (nat_ascii_bounded c). lia. Qed.

Lemma char_of_byte c : char_of (byte_of c) = c.
Proof. unfold char_of, byte_of. by rewrite Nat2Z.id, ascii_nat_embedding. Qed.

Lemma byte_of_char z : 0 <= z < 256 -> byte_of (char_of z) = z.
Proof. intros H. unfold char_of, byte_of. rewrite nat_ascii_embedding; lia. Qed.

(** A property of the numbers below a bound, checked one by one. *)
Lemma forall_below (P : Z -> bool) n :
  forallb P (Z.of_nat <$> seq 0 n) = true -> forall z, 0 <= z < Z.of_nat n -> P z = true.
Proof.
  intros H z Hz. rewrite forallb_forall in H. apply H. apply list_elem_of_In, list_elem_of_fmap.
  exists (Z.to_nat z). split; [lia|]. apply elem_of_seq. lia.
Qed.

Definition usual (e : encoding) : Prop := e = StdEncoding \/ e = RawURLEncoding.

Lemma sextet_symbol e v : usual e -> 0 <= v < 64 ->
  sextet e (symbol e v) = Some v /\ Ascii.eqb (symbol e v) pad_char = false /\ line_end (symbol e v) = false.
Proof.
  intros He Hv.
  pose (P := fun v => bool_decide (sextet e (symbol e v) = Some v) && negb (Ascii.eqb (symbol e v) pad_char) && negb (line_end (symbol e v))).
  assert (P v = true) as H by (apply (forall_below P 64); [destruct He; subst e; vm_compute; reflexivity|lia]).
  unfold P in H. b2p. done.
Qed.

Lemma groups_range a b c : 0 <= a < 256 -> 0 <= b < 256 -> 0 <= c < 256 ->
  0 <= group1 a < 64 /\ 0 <= group2 a b < 64 /\ 0 <= group3 b c < 64 /\ 0 <= group4 c < 64.
Proof. intros. unfold group1, group2, group3, group4. Z.div_mod_to_equations. lia. Qed.

Lemma join_groups a b c : 0 <= a < 256 -> 0 <= b < 256 -> 0 <= c < 256 ->
  group1 a * 4 + group2 a b / 16 = a /\ group2 a b mod 16 * 16 + group3 b c / 4 = b /\
  group3 b c mod 4 * 64 + group4 c = c.
Proof. intros. unfold group1, group2, group3, group4. Z.div_mod_to_equations. lia. Qed.

(** Induction by three elements. *)
Lemma list_triple_ind {A} (P : list A -> Prop) :
  P [] -> (forall a, P [a]) -> (forall a b, P [a; b]) -> (forall a b c r, P r -> P (a :: b :: c :: r)) -> forall l, P l.
Proof.
  intros H0 H1 H2 H3 l. remember (length l) as n eqn:E. assert (length l <= n)%nat as Hn by lia. clear E.
  revert l Hn. induction n as [|n IH]; intros [|a [|b [|c r]]] Hn; cbn in Hn; try done; try lia.
  apply H3, IH. lia.
Qed.

Lemma decode_encode_chars e s : usual e -> decode_quanta e (encode_chars e s) = Some s.
Proof.
  intros He. assert (0 <= 0 < 256) as H0 by lia.
  induction s as [|a|a b|a b c r IH] using list_triple_ind.
  - by destruct He; subst e.
  - cbn [encode_chars]. pose proof (byte_range a) as Ha. set (x := byte_of a) in *.
    destruct (groups_range x 0 0) as (G1 & G2 & _); [done..|].
    destruct (sextet_symbol e _ He G1) as (E1 & _ & _). destruct (sextet_symbol e _ He G2) as (E2 & _ & _).
    destruct (join_groups x 0 0) as (J & _ & _); [done..|].
    assert (byte1 (group1 x) (group2 x 0) = a) as Eb by (unfold byte1; rewrite J; apply char_of_byte).
    destruct He; subst e; cbn -[symbol sextet byte1]; rewrite E1; cbn -[symbol sextet byte1]; rewrite E2; cbn -[byte1];
      by rewrite Eb.
  - cbn [encode_chars]. pose proof (byte_range a) as Ha. pose proof (byte_range b) as Hb.
    set (x := byte_of a) in *. set (y := byte_of b) in *.
    destruct (groups_range x y 0) as (G1 & G2 & G3 & _); [done..|].
    destruct (sextet_symbol e _ He G1) as (E1 & _ & _). destruct (sextet_symbol e _ He G2) as (E2 & _ & _).
    destruct (sextet_symbol e _ He G3) as (E3 & P3 & _).
    destruct (join_groups x y 0) as (J1 & J2 & _); [done..|].
    assert (byte1 (group1 x) (group2 x y) = a) as Eb by (unfold byte1; rewrite J1; apply char_of_byte).
    assert (byte2 (group2 x y) (group3 y 0) = b) as Eb2 by (unfold byte2; rewrite J2; apply char_of_byte).
    destruct He; subst e; cbn -[symbol sextet byte1 byte2]; rewrite E1; cbn -[symbol sextet byte1 byte2]; rewrite E2;
      cbn -[symbol sextet byte1 byte2]; rewrite ?P3; cbn -[symbol sextet byte1 byte2]; rewrite E3; cbn -[byte1 byte2];
      by rewrite Eb, Eb2.
  - cbn [encode_chars]. pose proof (byte_range a) as Ha. pose proof (byte_range b) as Hb. pose proof (byte_range c) as Hc.
    set (x := byte_of a) in *. set (y := byte_of b) in *. set (z := byte_of c) in *.
    destruct (groups_range x y z) as (G1 & G2 & G3 & G4); [done..|].
    destruct (sextet_symbol e _ He G1) as (E1 & _ & _). destruct (sextet_symbol e _ He G2) as (E2 & _ & _).
    destruct (sextet_symbol e _ He G3) as (E3 & P3 & _). destruct (sextet_symbol e _ He G4) as (E4 & P4 & _).
    destruct (join_groups x y z) as (J1 & J2 & J3); [done..|].
    cbn [decode_quanta]. rewrite E1, E2, P3, P4, E3, E4, !andb_false_r. cbn -[decode_quanta encode_chars byte1 byte2 byte3].
    rewrite IH. cbn -[byte1 byte2 byte3]. unfold byte1, byte2, byte3. rewrite J1, J2, J3. unfold x, y, z. by rewrite !char_of_byte.
Qed.

Lemma encode_no_line_end e s : usual e -> List.filter (fun c => negb (line_end c)) (encode_chars e s) = encode_chars e s.
Proof.
  intros He. assert (forall v, 0 <= v < 64 -> negb (line_end (symbol e v)) = true) as Hs.
  { intros v Hv. destruct (sextet_symbol e v He Hv) as (_ & _ & ->). done. }
  assert (0 <= 0 < 256) as H0 by lia.
  induction s as [|a|a b|a b c r IH] using list_triple_ind; [done|..]; cbn [encode_chars].
  - destruct (groups_range (byte_of a) 0 0) as (G1 & G2 & _); [apply byte_range|done..|].
    cbn [List.filter app]. rewrite !Hs by done. by destruct He; subst e.
  - destruct (groups_range (byte_of a) (byte_of b) 0) as (G1 & G2 & G3 & _); [apply byte_range..|done|].
    cbn [List.filter app]. rewrite !Hs by done. by destruct He; subst e.
  - destruct (groups_range (byte_of a) (byte_of b) (byte_of c)) as (G1 & G2 & G3 & G4); [apply byte_range..|].
    cbn [List.filter]. rewrite !Hs by done. by rewrite IH.
Qed.

Lemma chars_text l : chars (text_of l) = l.
Proof. apply String.list_ascii_of_string_of_list_ascii. Qed.

Lemma text_chars s : text_of (chars s) = s.
Proof. apply String.string_of_list_ascii_of_string. Qed.

Lemma base64_roundtrip e s : usual e -> DecodeString e (EncodeToString e s) = Some s.
Proof.
  intros He. unfold DecodeString, EncodeToString. rewrite chars_text, encode_no_line_end, decode_encode_chars by done.
  cbn. by rewrite text_chars.
Qed.

Example base64_examples :
  DecodeString StdEncoding "dXNlcjpwYXNz" = Some "user:pass" /\ DecodeString StdEncoding "dQ=" = None /\
  DecodeString RawURLEncoding "dQ" = Some "u" /\ DecodeString StdEncoding "dR==" = Some "u" /\
  hex_encode "AZ" = "415a" /\ URL_String "/a b" "" "q=1" = "/a%20b?q=1".
Proof. vm_compute. done. Qed.

(** The alphabet of URLs has no full stop. *)
Lemma encode_all_chars e s c : usual e -> (forall v, 0 <= v < 64 -> symbol e v <> c) -> c <> pad_char ->
  all_chars (fun x => x <> c) (EncodeToString e s).
Proof.
  intros He Hs Hc. assert (0 <= 0 < 256) as H0 by lia.
  assert (Forall (fun x => x <> c) (encode_chars e (chars s))) as Hf.
  { generalize (chars s). intros l. assert (forall n, Forall (fun x => x <> c) (pads e n)) as Hp.
    { intros n. unfold pads. destruct (padded e); [|done]. apply Forall_replicate. congruence. }
    induction l as [|a|a b|a b d r IH] using list_triple_ind; [done|..]; cbn [encode_chars].
    - destruct (groups_range (byte_of a) 0 0) as (G1 & G2 & _); [apply byte_range|done..|].
      apply Forall_app. split; [|done]. repeat constructor; by apply Hs.
    - destruct (groups_range (byte_of a) (byte_of b) 0) as (G1 & G2 & G3 & _); [apply byte_range..|done|].
      apply Forall_app. split; [|done]. repeat constructor; by apply Hs.
    - destruct (groups_range (byte_of a) (byte_of b) (byte_of d)) as (G1 & G2 & G3 & G4); [apply byte_range..|].
      repeat constructor; try done; by apply Hs. }
  unfold EncodeToString, text_of. induction Hf as [|x l Hx _ IH]; done.
Qed.

Lemma raw_url_no_dot s : all_chars (fun x => x <> "."%char) (EncodeToString RawURLEncoding s).
Proof.
  apply encode_all_chars; [by right| |done]. intros v Hv E.
  pose (P := fun v => negb (Ascii.eqb (symbol RawURLEncoding v) ".")).
  assert (P v = true) as H by (apply (forall_below P 64); [vm_compute; reflexivity|lia]).
  unfold P in H. by rewrite E in H.
Qed.
