(* ===== verification/Security.v ===== *)
(** * Request hardening: [internal/security/security.go]

    The checks against request smuggling, the sanitizers of header values and paths, and
    the validation of host names.  The protocol version of a request is an input.  An
    error is its name or text. *)
From S2P Require Import Prelude Http Bytes NetIP NetAddr GoStrings.
From Stdlib Require Import Ascii.

(** ** Strings *)

Fixpoint string_forallb (f : ascii -> bool) (s : string) : bool :=
  match s with EmptyString => true | String c r => f c && string_forallb f r end.

Fixpoint string_filter (f : ascii -> bool) (s : string) : string :=
  match s with
  | EmptyString => ""
  | String c r => if f c then String c (string_filter f r) else string_filter f r
  end.

(** [strings.ToLower] compared with ASCII texts: besides the letters of ASCII only the
    Kelvin sign and the dotted capital I become ASCII letters. *)
Fixpoint lower_text (s : string) : string :=
  match s with
  | EmptyString => ""
  | String a r =>
      match r with
      | String b r' =>
          if (byte_of a =? 196) && (byte_of b =? 176) then String "i" (lower_text r')
          else match r' with
               | String c r'' =>
                   if (byte_of a =? 226) && (byte_of b =? 132) && (byte_of c =? 170)
                   then String "k" (lower_text r'') else String (to_lower a) (lower_text r)
               | EmptyString => String (to_lower a) (lower_text r)
               end
      | EmptyString => String (to_lower a) ""
      end
  end.

(** ** [path.Clean]

    The segments are processed from left to right; [acc] holds those kept, newest first. *)
Fixpoint clean_segments (rooted : bool) (acc segs : list string) : list string :=
  match segs with
  | [] => rev acc
  | s :: rest =>
      if bool_decide (s = "") || bool_decide (s = ".") then clean_segments rooted acc rest
      else if bool_decide (s = "..") then
        match acc with
        | [] => clean_segments rooted (if rooted then [] else [".."]) rest
        | x :: acc' =>
            if bool_decide (x = "..") then clean_segments rooted (".." :: acc) rest
            else clean_segments rooted acc' rest
        end
      else clean_segments rooted (s :: acc) rest
  end.

Definition path_Clean (p : string) : string :=
  if bool_decide (p = "") then "."
  else
    let rooted := starts_with "/"%char p in
    let out := Join "/"%char (clean_segments rooted [] (Split "/"%char p)) in
    if rooted then "/" +:+ out else if bool_decide (out = "") then "." else out.

(** ** Paths *)

(** The replacement at the front of a string, by the pairs of the replacer. *)
Definition replace_at (s : string) : option (ascii * string) :=
  match s with
  | String a (String b (String c r)) =>
      if Ascii.eqb a "%"%char then
        if Ascii.eqb b "2"%char && (Ascii.eqb c "e"%char || Ascii.eqb c "E"%char) then Some ("."%char, r)
        else if Ascii.eqb b "2"%char && (Ascii.eqb c "f"%char || Ascii.eqb c "F"%char) then Some ("/"%char, r)
        else if Ascii.eqb b "5"%char && (Ascii.eqb c "c"%char || Ascii.eqb c "C"%char) then Some ("/"%char, r)
        else None
      else None
  | _ => None
  end.

(** [Replacer.Replace]: leftmost, without overlaps. *)
Fixpoint replacer_Replace (s : string) : string :=
  match s with
  | String a r =>
      match r with
      | String _ (String _ r') =>
          match replace_at s with
          | Some (x, _) => String x (replacer_Replace r')
          | None => String a (replacer_Replace r)
          end
      | _ => String a (replacer_Replace r)
      end
  | EmptyString => ""
  end.

(** The loop ends when nothing changes; every change shortens the string. *)
Fixpoint replace_loop (fuel : nat) (s : string) : string :=
  match fuel with
  | O => s
  | S fuel => let next := replacer_Replace s in if bool_decide (next = s) then s else replace_loop fuel next
  end.

(** [strings.ReplaceAll] of a backslash by a slash. *)
Definition slash_of (c : ascii) : ascii := if byte_of c =? 92 then "/"%char else c.
Fixpoint slashes (s : string) : string :=
  match s with EmptyString => "" | String c r => String (slash_of c) (slashes r) end.

Definition decodeTraversalSequences (s : string) : string := slashes (replace_loop (S (String.length s)) s).

Definition SanitizePath (p : string) : string :=
  if bool_decide (p = "") then "/"
  else
    let cleaned := path_Clean (decodeTraversalSequences p) in
    if starts_with "/"%char cleaned then cleaned else "/" +:+ cleaned.

(** ** Header values and names *)

Definition clean_byte (c : ascii) : bool :=
  negb (byte_of c =? 13) && negb (byte_of c =? 10) && negb (byte_of c =? 0).

Definition SanitizeHeaderValue (value : string) : string := string_filter clean_byte value.

Definition isTokenChar (c : ascii) : bool :=
  is_upper c || is_lower c || is_digit c ||
  existsb (fun b => byte_of c =? b) [33; 35; 36; 37; 38; 39; 42; 43; 45; 46; 94; 95; 96; 124; 126].

Definition ValidateHeaderName (name : string) : bool :=
  negb (bool_decide (name = "")) && string_forallb isTokenChar name.

(** ** Host names *)

Definition host_byte (c : ascii) : bool :=
  is_lower c || is_upper c || is_digit c || (byte_of c =? 45) || (byte_of c =? 46).

Definition dot_or_hyphen (c : ascii) : bool := (byte_of c =? 46) || (byte_of c =? 45).

Definition ValidateHostHeader (host : string) : bool :=
  if bool_decide (host = "") then false
  else if negb (string_forallb (fun c => (32 <? byte_of c) && negb (byte_of c =? 127)) host) then false
  else if has_char "@"%char host then false
  else if has_char "\"%char host then false
  else
    let '(hostname, portStr) := default (host, "") (SplitHostPort host) in
    let port_ok :=
      if bool_decide (portStr = "") then true
      else match Atoi portStr with Some port => negb ((port <? 1) || (65535 <? port)) | None => false end in
    if negb port_ok then false
    else if bool_decide (hostname = "") then false
    else if starts_with "["%char hostname && ends_with "]"%char hostname then
      match ParseIP (init (tail hostname)) with Some _ => true | None => false end
    else if negb (string_forallb host_byte hostname) then false
    else negb (starts_with "."%char hostname || starts_with "-"%char hostname ||
               ends_with "."%char hostname || ends_with "-"%char hostname).

(** ** Content lengths *)

Definition ValidateContentLength (cl : string) : string + Z :=
  let cl := TrimSpace cl in
  if bool_decide (cl = "") then inl "empty Content-Length value"
  else if (1 <? Z.of_nat (String.length cl)) && starts_with "0"%char cl then inl "Content-Length has leading zeros"
  else if negb (string_forallb is_digit cl) then inl "Content-Length contains non-digit character"
  else match Atoi cl with
       | None => inl "invalid Content-Length"
       | Some n => if n <? 0 then inl "negative Content-Length" else inr n
       end.

(** The parts of all Content-Length headers against the first value, [-1] before it. *)
Fixpoint check_lengths (firstVal : Z) (parts : list string) : option string :=
  match parts with
  | [] => None
  | part :: rest =>
      match Atoi (TrimSpace part) with
      | None => Some "ErrMalformedContentLen"
      | Some n =>
          if n <? 0 then Some "ErrNegativeContentLen"
          else if firstVal =? -1 then check_lengths n rest
          else if negb (n =? firstVal) then Some "ErrDuplicateContentLen"
          else check_lengths firstVal rest
      end
  end.

(** ** Smuggling *)

Definition te_encodings (teValues : list string) : list string :=
  List.filter (fun enc => negb (bool_decide (enc = "")))
    ((fun part => TrimSpace (lower_text part)) <$> (teValues ≫= Split ","%char)).

Definition allowedEncodings : list string := ["chunked"; "identity"; "gzip"; "compress"; "deflate"].

(** "chunked" anywhere but at the end. *)
Fixpoint chunked_not_final (encs : list string) : bool :=
  match encs with
  | [] => false
  | enc :: rest => (bool_decide (enc = "chunked") && negb (bool_decide (rest = []))) || chunked_not_final rest
  end.

Definition set_path (p : string) (r : Request) : Request :=
  mkRequest (Method r) (Host r) (URLHost r) p (Header r) (Cookies r) (Query r).

(** The error, or the request with its path sanitized; [http11] is [ProtoAtLeast(1, 1)]. *)
Definition ValidateRequest (http11 : bool) (r : Request) : string + Request :=
  let clValues := Header_Values (Header r) "Content-Length" in
  let teValues := Header_Values (Header r) "Transfer-Encoding" in
  if negb (bool_decide (clValues = [])) && negb (bool_decide (teValues = [])) then inl "ErrConflictingHeaders"
  else match check_lengths (-1) (clValues ≫= Split ","%char) with
  | Some err => inl err
  | None =>
      if negb (bool_decide (teValues = [])) && negb http11 then inl "ErrHTTP10TransferEnc"
      else
        let encodings := te_encodings teValues in
        if negb (forallb (fun enc => bool_decide (enc ∈ allowedEncodings)) encodings) then inl "ErrInvalidTransferEnc"
        else if chunked_not_final encodings then inl "ErrChunkedNotFinal"
        else if negb (bool_decide (Host r = "")) && negb (ValidateHostHeader (Host r)) then inl "invalid Host header"
        else inr (set_path (SanitizePath (URLPath r)) r)
  end.

Example sanitize_examples :
  SanitizePath "/a/%2e%2E/b\..//c/" = "/c" /\ SanitizePath "/a/%252e%252e/b" = "/a/%252e%252e/b" /\ SanitizePath "../../etc" = "/../../etc" /\
  SanitizePath "/docs/" = "/docs".
Proof. split_and!; vm_compute; reflexivity. Qed.

Example host_examples :
  ValidateHostHeader "example.com:8080" = true /\ ValidateHostHeader "[::1]" = true /\
  ValidateHostHeader "[::1]:8080" = false /\ ValidateHostHeader "a@b" = false.
Proof. split_and!; vm_compute; reflexivity. Qed.
