(* ===== verification/Middleware.v ===== *)
(** * HTTP handlers and the middleware chain: [internal/middleware/chain.go]

    A handler takes a request, the state of the world (which holds the state of every
    middleware and of the backends) and the response writer, and returns or panics.  The
    writer is the one of [net/http]: the header map stays open to changes, but the client
    gets a copy of it as of the first call of [WriteHeader]; only final status codes are
    written here.  The class [Part] says that the state of a middleware is a part of the
    world, [Clock] that the world has a clock.

    Besides the chain the file has the middlewares that need nothing else: recovery from
    panics, the limit on bodies, and the stripping of a path prefix. *)
From S2P Require Import Prelude Http Bytes NetIP NetAddr GoStrings GoEncoding Security.
From Stdlib Require Import Ascii.

(** ** Requests *)

(** Values that middlewares leave in the context of a request. *)
Inductive ctx_value :=
  | CtxText (s : string)
  | CtxKeyInfo (name : string) (permissions : list string)
  | CtxClaims (subject issuer : string) (audience : list string).

Record http_request := mkHttpRequest {
  r_req : Request;
  r_rawpath : string;               (* URL.RawPath *)
  r_rawquery : string;              (* URL.RawQuery *)
  r_remote : string;                (* RemoteAddr *)
  r_tls : bool;
  r_body : string;
  r_length : Z;                     (* ContentLength; -1 when unknown *)
  r_limit : option Z;               (* of the enclosing [MaxBytesReader] *)
  r_ctx : list (string * ctx_value) (* newest first *)
}.

Definition r_path (r : http_request) : string := URLPath (r_req r).
Definition r_method (r : http_request) : string := Method (r_req r).
Definition r_header (r : http_request) (key : string) : string := Header_Get (Header (r_req r)) key.

Definition with_path (p : string) (q : Request) : Request :=
  mkRequest (Method q) (Host q) (URLHost q) p (Header q) (Cookies q) (Query q).
Definition with_headers (h : headers) (q : Request) : Request :=
  mkRequest (Method q) (Host q) (URLHost q) (URLPath q) h (Cookies q) (Query q).

Definition set_req (q : Request) (r : http_request) : http_request :=
  mkHttpRequest q (r_rawpath r) (r_rawquery r) (r_remote r) (r_tls r) (r_body r) (r_length r) (r_limit r) (r_ctx r).
Definition set_limit (n : option Z) (r : http_request) : http_request :=
  mkHttpRequest (r_req r) (r_rawpath r) (r_rawquery r) (r_remote r) (r_tls r) (r_body r) (r_length r) n (r_ctx r).
Definition WithValue (key : string) (v : ctx_value) (r : http_request) : http_request :=
  mkHttpRequest (r_req r) (r_rawpath r) (r_rawquery r) (r_remote r) (r_tls r) (r_body r) (r_length r) (r_limit r)
    ((key, v) :: r_ctx r).

Fixpoint ctx_lookup (key : string) (l : list (string * ctx_value)) : option ctx_value :=
  match l with
  | [] => None
  | (k, v) :: l => if bool_decide (k = key) then Some v else ctx_lookup key l
  end.

Definition request_url (r : http_request) : string := URL_String (r_path r) (r_rawpath r) (r_rawquery r).

(** [io.ReadAll] on the body: a [MaxBytesReader] fails once more than its limit is read. *)
Definition read_body (r : http_request) : option string :=
  match r_limit r with
  | Some n => if Z.of_nat (String.length (r_body r)) <=? n then Some (r_body r) else None
  | None => Some (r_body r)
  end.

(** ** The response writer *)

Record ResponseWriter := mkWriter {
  w_header : headers;
  w_sent : option (Z * headers);   (* status and headers as the client gets them *)
  w_body : string
}.

Definition fresh_writer : ResponseWriter := mkWriter ∅ None "".

Definition on_header (f : headers -> headers) (w : ResponseWriter) : ResponseWriter :=
  mkWriter (f (w_header w)) (w_sent w) (w_body w).
Definition set_header (key value : string) : ResponseWriter -> ResponseWriter := on_header (Header_Set key value).

Definition WriteHeader (code : Z) (w : ResponseWriter) : ResponseWriter :=
  match w_sent w with
  | None => mkWriter (w_header w) (Some (code, w_header w)) (w_body w)
  | Some _ => w
  end.

Definition Write (text : string) (w : ResponseWriter) : ResponseWriter :=
  let w := WriteHeader 200 w in mkWriter (w_header w) (w_sent w) (w_body w +:+ text).

Definition line_feed : string := String "010" "".

(** [http.Error]. *)
Definition http_Error (text : string) (code : Z) (w : ResponseWriter) : ResponseWriter :=
  let w := on_header (Header_Del "Content-Length") w in
  let w := set_header "Content-Type" "text/plain; charset=utf-8" w in
  let w := set_header "X-Content-Type-Options" "nosniff" w in
  Write (text +:+ line_feed) (WriteHeader code w).

(** What the client receives when the handler is done: a handler that wrote nothing leaves
    an empty answer with status 200. *)
Definition answer (w : ResponseWriter) : Z * headers * string :=
  match w_sent w with
  | Some (code, h) => (code, h, w_body w)
  | None => (200, w_header w, w_body w)
  end.

(** ** Handlers and middlewares *)

Inductive ending := Returned | Panicked.

Class Part (S W : Type) := {
  part : W -> S;
  set_part : S -> W -> W;
  part_set s w : part (set_part s w) = s;
  set_part_part w : set_part (part w) w = w;
  set_part_set s s' w : set_part s (set_part s' w) = set_part s w
}.

Class Clock (W : Type) := now : W -> Z.

(** The test that every middleware with excluded paths makes.  [None]: an empty entry makes
    it index before the start of the entry, for a path without a leading slash. *)
Definition excludes (p path : string) : option bool :=
  if HasPrefix path p then
    let n := String.length p in
    if (String.length path =? n)%nat then Some true
    else match String.get n path with
         | Some c => if Ascii.eqb c "/" then Some true
                     else match n with O => None | S m => Some (bool_decide (String.get m p = Some "/"%char)) end
         | None => Some false
         end
  else Some false.

Fixpoint excluded (paths : list string) (path : string) : option bool :=
  match paths with
  | [] => Some false
  | p :: paths =>
      match excludes p path with
      | None => None
      | Some true => Some true
      | Some false => excluded paths path
      end
  end.

Section Handlers.
Context {W : Type}.

Definition Handler : Type := http_request -> W -> ResponseWriter -> ending * W * ResponseWriter.

(** A handler that passes requests on unless the path is excluded from its work. *)
Definition unless_excluded (paths : list string) (next work : Handler) : Handler := fun r s w =>
  match excluded paths (r_path r) with
  | None => (Panicked, s, w)
  | Some true => next r s w
  | Some false => work r s w
  end.

(** The interface [Middleware], with the optional [ZeroSecrets]. *)
Record Middleware := mkMiddleware {
  Name : string;
  Priority : Z;
  Wrap : Handler -> Handler;
  Zero : option (W -> W)
}.

(** ** The chain *)

(** [sorted] caches the list in order of priority; [None] is the nil slice. *)
Record Chain := mkChain { middlewares : list Middleware; sorted : option (list Middleware) }.

Definition NewChain : Chain := mkChain [] None.

Definition Use (m : Middleware) (c : Chain) : Chain := mkChain (middlewares c ++ [m]) None.
Definition Remove (name : string) (c : Chain) : Chain :=
  mkChain (List.filter (fun m => negb (bool_decide (Name m = name))) (middlewares c)) None.
Definition Clear (c : Chain) : Chain := mkChain [] None.
Definition Clone (c : Chain) : Chain := mkChain (middlewares c) None.
Definition Len (c : Chain) : Z := Z.of_nat (length (middlewares c)).
Definition Get (name : string) (c : Chain) : option Middleware :=
  List.find (fun m => bool_decide (Name m = name)) (middlewares c).

(** [sort.SliceStable] by priority: its result is determined ([stable_sort_unique]). *)
Fixpoint insert_mw (m : Middleware) (l : list Middleware) : list Middleware :=
  match l with
  | [] => [m]
  | x :: r => if Priority m <? Priority x then m :: l else x :: insert_mw m r
  end.
Definition stable_sort (l : list Middleware) : list Middleware := foldl (fun acc m => insert_mw m acc) [] l.

Definition sortedMiddlewares (c : Chain) : list Middleware * Chain :=
  match sorted c with
  | Some s => (s, c)
  | None => let s := stable_sort (middlewares c) in (s, mkChain (middlewares c) (Some s))
  end.

(** [Then]; the handler is given, so the default one of [net/http] is not used. *)
Definition Then (h : Handler) (c : Chain) : Handler * Chain :=
  let '(s, c) := sortedMiddlewares c in (foldr (fun m h => Wrap m h) h s, c).

Definition ZeroSecrets (c : Chain) (s : W) : W :=
  foldl (fun s m => match Zero m with Some f => f s | None => s end) s (middlewares c).

(** ** Recovery: [internal/middleware/recovery.go] *)

Definition recovery_wrap (next : Handler) : Handler := fun r s w =>
  match next r s w with
  | (Returned, s, w) => (Returned, s, w)
  | (Panicked, s, w) =>
      let w := set_header "Content-Type" "text/plain; charset=utf-8" w in
      (Returned, s, Write ("internal server error" +:+ line_feed) (WriteHeader 500 w))
  end.
Definition RecoveryMiddleware : Middleware := mkMiddleware "recovery" 1 recovery_wrap None.

(** ** The limit on bodies: [internal/middleware/body_limit.go] *)

Definition body_limit_wrap (MaxSize : Z) (next : Handler) : Handler := fun r s w =>
  if MaxSize <? r_length r then (Returned, s, http_Error "request body too large" 413 w)
  else next (set_limit (Some (match r_limit r with Some n => Z.min n MaxSize | None => MaxSize end)) r) s w.
Definition BodyLimitMiddleware (MaxSize : Z) : Middleware :=
  let MaxSize := if MaxSize <=? 0 then 10 * 1024 * 1024 else MaxSize in
  mkMiddleware "body_limit" 50 (body_limit_wrap MaxSize) None.

(** ** Stripping a prefix: [internal/middleware/strip_prefix.go] *)

(** [http.Redirect] is a parameter. *)
Definition strip_prefix_wrap (redirect : string -> Z -> http_request -> ResponseWriter -> ResponseWriter)
    (prefix : string) (RedirectSlash : bool) (next : Handler) : Handler :=
  if bool_decide (prefix = "") then next
  else fun r s w =>
    if negb (HasPrefix (r_path r) prefix) then next r s w
    else if RedirectSlash && bool_decide (r_path r = prefix) then (Returned, s, redirect (prefix +:+ "/") 301 r w)
    else
      let newPath := TrimPrefix (r_path r) prefix in
      let newPath := if bool_decide (newPath = "") then "/" else newPath in
      next (set_req (with_path newPath (r_req r)) r) s w.

Definition strip_prefix_of (Prefix : string) : string :=
  let prefix := if negb (bool_decide (Prefix = "")) && negb (HasPrefix Prefix "/") then "/" +:+ Prefix else Prefix in
  TrimSuffix prefix "/".

Definition StripPrefixMiddleware redirect (Prefix : string) (RedirectSlash : bool) : Middleware :=
  mkMiddleware "strip_prefix" 150 (strip_prefix_wrap redirect (strip_prefix_of Prefix) RedirectSlash) None.

End Handlers.
Arguments Handler W : clear implicits.
Arguments Middleware W : clear implicits.
Arguments Chain W : clear implicits.

(** ** The sorted list *)

Section Sorting.
Context {W : Type}.
Implicit Types (l : list (Middleware W)) (m : Middleware W).

Definition before (m m' : Middleware W) : Prop := Priority m <= Priority m'.
Definition with_priority (p : Z) l : list (Middleware W) := List.filter (fun m => Priority m =? p) l.

(** [l'] holds what [l] holds, in order of priority, and what has the same priority in the
    order of [l]. *)
Record sorted_stably l l' : Prop := {
  ss_sorted : StronglySorted before l';
  ss_stable : forall p, with_priority p l' = with_priority p l
}.

Lemma with_priority_app p l l' : with_priority p (l ++ l') = with_priority p l ++ with_priority p l'.
Proof. apply List.filter_app. Qed.

Lemma insert_elem m l x : x ∈ insert_mw m l <-> x = m \/ x ∈ l.
Proof. induction l as [|y l IH]; cbn; [set_solver|]. destruct (_ <? _); set_solver. Qed.

Lemma insert_sorted m l : StronglySorted before l -> StronglySorted before (insert_mw m l).
Proof.
  induction 1 as [|x l Hs IH Hx]; cbn; [repeat constructor|]. destruct (Z.ltb_spec (Priority m) (Priority x)).
  - constructor; [by constructor|]. constructor; [unfold before; lia|].
    eapply Forall_impl; [exact Hx|]. unfold before. intros; lia.
  - constructor; [done|]. rewrite Forall_forall in *. intros y [->|Hy]%insert_elem; [unfold before; lia|by apply Hx].
Qed.

Lemma insert_stable m l p : StronglySorted before l ->
  with_priority p (insert_mw m l) = with_priority p l ++ with_priority p [m].
Proof.
  induction 1 as [|x l Hs IH Hx]; [done|]. cbn [insert_mw]. destruct (Z.ltb_spec (Priority m) (Priority x)).
  - assert (Priority m = p -> with_priority p (x :: l) = []) as Hn.
    { intros <-. unfold with_priority. cbn. rewrite (proj2 (Z.eqb_neq _ _)) by lia.
      clear IH. induction Hx as [|y l Hy _ IH]; [done|]. cbn. unfold before in Hy. rewrite (proj2 (Z.eqb_neq _ _)) by lia.
      apply IH. by inversion Hs. }
    assert (forall m' l', with_priority p (m' :: l') = if Priority m' =? p then m' :: with_priority p l' else with_priority p l') as Hc by done.
    rewrite (Hc m), (Hc m []). destruct (Z.eqb_spec (Priority m) p) as [E|]; [by rewrite Hn|by rewrite app_nil_r].
  - unfold with_priority in *. cbn. rewrite IH. by destruct (Priority x =? p).
Qed.

Lemma stable_sort_from acc l : StronglySorted before acc ->
  StronglySorted before (foldl (fun acc m => insert_mw m acc) acc l) /\
  forall p, with_priority p (foldl (fun acc m => insert_mw m acc) acc l) = with_priority p acc ++ with_priority p l.
Proof.
  revert acc. induction l as [|m l IH]; intros acc Ha; cbn [foldl]; [split; [done|]; intros p; by rewrite app_nil_r|].
  destruct (IH (insert_mw m acc)) as [H1 H2]; [by apply insert_sorted|]. split; [done|]. intros p.
  rewrite H2, insert_stable by done. rewrite <- app_assoc. change (m :: l) with ([m] ++ l). by rewrite (with_priority_app p [m] l).
Qed.

Lemma stable_sort_sorts l : sorted_stably l (stable_sort l).
Proof. destruct (stable_sort_from [] l) as [H1 H2]; [constructor|]. by split. Qed.

Lemma with_priority_head p m l l' : with_priority p l = m :: l' -> m ∈ l /\ Priority m = p.
Proof.
  intros H. assert (m ∈ with_priority p l) as Hm by (rewrite H; left). unfold with_priority in Hm.
  apply list_elem_of_In, filter_In in Hm as [Hm E]. apply list_elem_of_In in Hm. b2p. done.
Qed.

(** Only one list is sorted and keeps the order within every priority. *)
Lemma sorted_unique l1 l2 :
  StronglySorted before l1 -> StronglySorted before l2 -> (forall p, with_priority p l1 = with_priority p l2) -> l1 = l2.
Proof.
  intros H1. revert l2. induction H1 as [|x l1 Hs IH Hx]; intros l2 H2 Hp.
  - destruct l2 as [|y l2]; [done|]. specialize (Hp (Priority y)). unfold with_priority in Hp. cbn in Hp. by rewrite Z.eqb_refl in Hp.
  - destruct H2 as [|y l2 Hs2 Hy].
    { specialize (Hp (Priority x)). unfold with_priority in Hp. cbn in Hp. by rewrite Z.eqb_refl in Hp. }
    assert (Priority x = Priority y) as E.
    { pose proof (Hp (Priority x)) as Hx'. pose proof (Hp (Priority y)) as Hy'.
      assert (with_priority (Priority x) (x :: l1) = x :: with_priority (Priority x) l1) as E1
        by (unfold with_priority; cbn; by rewrite Z.eqb_refl).
      assert (with_priority (Priority y) (y :: l2) = y :: with_priority (Priority y) l2) as E2
        by (unfold with_priority; cbn; by rewrite Z.eqb_refl).
      rewrite E1 in Hx'. rewrite E2 in Hy'. symmetry in Hx'.
      apply with_priority_head in Hx' as [Hx1 _]. apply with_priority_head in Hy' as [Hy1 _].
      rewrite Forall_forall in Hx, Hy. unfold before in *.
      apply elem_of_cons in Hx1 as [->|Hx1]; [done|]. apply elem_of_cons in Hy1 as [->|Hy1]; [done|].
      specialize (Hx _ Hy1). specialize (Hy _ Hx1). lia. }
    assert (x = y) as ->.
    { specialize (Hp (Priority x)). unfold with_priority in Hp. cbn in Hp. rewrite <- E, Z.eqb_refl in Hp. by injection Hp. }
    f_equal. apply IH; [done|]. intros p. specialize (Hp p). unfold with_priority in *. cbn in Hp.
    destruct (Priority y =? p); [by injection Hp|done].
Qed.

Lemma stable_sort_unique l l' : sorted_stably l l' -> l' = stable_sort l.
Proof.
  intros [H1 H2]. destruct (stable_sort_sorts l) as [H3 H4]. apply sorted_unique; [done..|]. intros p. by rewrite H2, H4.
Qed.

(** ** The chain keeps its cache up to date *)

Definition cache_ok (c : Chain W) : Prop := forall s, sorted c = Some s -> s = stable_sort (middlewares c).

(** Chains are built with the operations of the interface, and used in between. *)
Inductive built : Chain W -> Prop :=
  | built_new : built NewChain
  | built_use m c : built c -> built (Use m c)
  | built_remove name c : built c -> built (Remove name c)
  | built_clear c : built c -> built (Clear c)
  | built_clone c : built c -> built (Clone c)
  | built_then h c : built c -> built (snd (Then h c)).

Lemma sortedMiddlewares_ok c : cache_ok c ->
  sortedMiddlewares c = (stable_sort (middlewares c), mkChain (middlewares c) (Some (stable_sort (middlewares c)))).
Proof.
  intros H. unfold sortedMiddlewares. destruct c as [l [s|]]; cbn in *; [|done]. rewrite (H s); done.
Qed.

Lemma built_ok c : built c -> cache_ok c.
Proof.
  induction 1 as [|m c _ IH|n c _ IH|c _ IH|c _ IH|h c _ IH]; intros s; cbn; try done.
  unfold Then. rewrite sortedMiddlewares_ok by done. cbn. by intros [= <-].
Qed.

Lemma Then_sorted c h l : built c -> sorted_stably (middlewares c) l ->
  fst (Then h c) = foldr (fun m h => Wrap m h) h l /\ middlewares (snd (Then h c)) = middlewares c.
Proof.
  intros Hb Ho. apply stable_sort_unique in Ho as ->. unfold Then. by rewrite sortedMiddlewares_ok by (by apply built_ok).
Qed.

(** C38: Whatever the history of a chain, the handler it builds runs the middlewares from the
    lowest priority to the highest, and those of equal priority in the order in which they
    were added.  There is such an order and only one, so the order of registration matters
    only among equal priorities. *)
Theorem chain_runs_by_priority c h (Hbuilt : built c) :
  exists l, sorted_stably (middlewares c) l /\
    fst (Then h c) = foldr (fun m h => Wrap m h) h l /\
    middlewares (snd (Then h c)) = middlewares c /\
    forall c', built c' -> (forall p, with_priority p (middlewares c') = with_priority p (middlewares c)) ->
      fst (Then h c') = fst (Then h c).
Proof.
  pose proof (stable_sort_sorts (middlewares c)) as Hs. exists (stable_sort (middlewares c)).
  destruct (Then_sorted c h _ Hbuilt Hs) as [E1 E2]. split_and!; [done..|]. intros c' Hc' Hp.
  destruct Hs as [H1 H2]. destruct (Then_sorted c' h (stable_sort (middlewares c)) Hc') as [-> _]; [|done].
  split; [done|]. intros p. by rewrite H2.
Qed.
End Sorting.

(** A handler that notes that it was called, in the name of the middleware. *)
Definition noting (name : string) (priority : Z) : Middleware (list string) :=
  mkMiddleware name priority (fun next r s w => next r (s ++ [name]) w) None.

Definition demo_request : http_request :=
  mkHttpRequest (mkRequest "GET" "example.com" "" "/" ∅ [] []) "" "" "192.0.2.1:4000" false "" 0 None [].

Definition demo_chain : Chain (list string) :=
  Use (noting "auth" 200) (Use (noting "a" 100) (Use (noting "b" 100) (snd (Then (fun _ s w => (Returned, s, w))
    (Use (noting "gone" 1) NewChain))))).

Definition stop {W} : Handler W := fun _ s w => (Returned, s, w).

Lemma chain_runs_by_priority_witness :
  snd (fst (fst (Then stop demo_chain) demo_request [] fresh_writer)) = ["gone"; "b"; "a"; "auth"] /\
  exists l, sorted_stably (middlewares demo_chain) l /\
    fst (Then stop demo_chain) = foldr (fun m h => Wrap m h) stop l /\
    middlewares (snd (Then stop demo_chain)) = middlewares demo_chain /\
    forall c', built c' -> (forall p, with_priority p (middlewares c') = with_priority p (middlewares demo_chain)) ->
      fst (Then stop c') = fst (Then stop demo_chain).
Proof.
  split; [vm_compute; reflexivity|]. apply (chain_runs_by_priority demo_chain stop). unfold demo_chain. repeat constructor.
Defined.

(** ** Recovery *)

(** Behind the recovery middleware no panic gets through, and a handler that returns is not
    changed. *)
Lemma recovery_returns {W} (next : Handler W) r s w :
  fst (fst (recovery_wrap next r s w)) = Returned /\
  (fst (fst (next r s w)) = Returned -> recovery_wrap next r s w = next r s w).
Proof. unfold recovery_wrap. by destruct (next r s w) as [[[] ?] ?]. Qed.

(** It writes its message also when an answer is on its way: the text ends up behind what the
    handler wrote, under the handler's status. *)
Example recovery_appends_to_answer :
  answer (snd (recovery_wrap (fun _ (s : unit) w => (Panicked, s, Write "rows: [1, 2" w)) demo_request tt fresh_writer)) =
  (200, ∅, "rows: [1, 2internal server error" +:+ line_feed).
Proof. vm_compute. reflexivity. Qed.

(** ** Stripping a prefix *)

Definition no_redirect (_ : string) (_ : Z) (_ : http_request) (w : ResponseWriter) : ResponseWriter := w.

(** The test of the prefix does not look at the end of the segment: a longer segment is cut in
    the middle, and then the path that is passed on has no leading slash. *)
Lemma strip_prefix_splits_segment {W} (next : Handler W) r s w rest :
  rest <> "" -> r_path r = "/api" +:+ rest ->
  strip_prefix_wrap no_redirect "/api" false next r s w = next (set_req (with_path rest (r_req r)) r) s w.
Proof.
  intros Hne Hp. unfold strip_prefix_wrap, TrimPrefix. rewrite (bool_decide_false ("/api" = "")) by done. rewrite Hp.
  replace (HasPrefix ("/api" +:+ rest) "/api") with true by (cbn; by destruct rest).
  change (string_drop (String.length "/api") ("/api" +:+ rest)) with (string_drop 0 rest). cbn [negb andb string_drop].
  by rewrite bool_decide_false.
Qed.
