(* ===== verification/Auth.v ===== *)
(** * Authentication: [internal/middleware/basic], [apikey], [jwt] and [hmac]

    The four middlewares that let a request through only with credentials.  Their secrets
    are parts of the world, since [ZeroSecrets] clears them; the keyed hashes, bcrypt,
    Ed25519, JSON and the RFC 3339 dates are parameters.  Comparisons in constant time are
    comparisons. *)
From S2P Require Import Prelude GoTime Http Bytes NetIP NetAddr GoStrings GoEncoding Security Middleware.
From Stdlib Require Import Ascii.

Definition dquote : ascii := "034".
Definition quoted (s : string) : string := String dquote (s +:+ String dquote "").

(** The JSON of the error answers; the texts need no escapes. *)
Definition error_json (message : string) : string :=
  "{" +:+ quoted "error" +:+ ":" +:+ quoted "unauthorized" +:+ "," +:+ quoted "message" +:+ ":" +:+ quoted message +:+ "}".

(** ** Configurations *)

Module Basic.
Record Config := mkConfig {
  Enabled : bool; AllowPlaintext : bool; Users : gmap string string; Realm : string;
  ExcludePaths : list string; Hash : string
}.
Record Secrets := mkSecrets { hashes : gmap string string }.
End Basic.

Module APIKey.
Record KeyInfo := mkKeyInfo { ki_Name : string; Permissions : list string }.
Record Config := mkConfig {
  Enabled : bool; Keys : gmap string string; Header : string; ExcludePaths : list string; Hash : string;
  KeyMetadata : gmap string KeyInfo
}.
Record Secrets := mkSecrets { hashes : gmap string string }.
End APIKey.

Module JWT.
Record Claims := mkClaims {
  Subject : string; Issuer : string; Audience : list string; ExpiresAt : Z; NotBefore : Z; IssuedAt : Z
}.
Record Config := mkConfig {
  Enabled : bool; Secret : string; PublicKey : string; Algorithm : string; Header : string; Prefix : string;
  Required : bool; ExcludePaths : list string;
  c_Issuer : string; c_Audience : string; RequireExpiration : bool
}.
Definition DefaultConfig : Config := mkConfig false "" "" "HS256" "Authorization" "Bearer " true [] "" "" true.
End JWT.

Module HMAC.
Record Config := mkConfig {
  Enabled : bool; Secret : string; Algorithm : string; Header : string; Prefix : string; Encoding : string;
  UseBody : bool; ExcludePaths : list string; TimestampHeader : string; MaxAge : string
}.
(** What [ZeroSecrets] changes. *)
Record Secrets := mkSecrets { secret : string; enabled : bool }.
End HMAC.

Section Auth.
Context {W : Type} `{!Clock W, !Part Basic.Secrets W, !Part APIKey.Secrets W, !Part HMAC.Secrets W, !MapRange}.

(** Packages [crypto/hmac] with [crypto/sha256] and [crypto/sha512], [bcrypt], [ed25519],
    [encoding/json] and [time.Parse]. *)
Variable hmac_sum : string -> string -> string -> string.
Variable bcrypt_matches : string -> string -> bool.
Variable ed25519_Verify : string -> string -> string -> bool.
Variable json_header : string -> option string.
Variable json_claims : string -> option JWT.Claims.
Variable parse_rfc3339 : string -> option Z.

Definition unix (s : W) : Z := now s / 10 ^ 9.

(** ** Basic authentication *)

Definition Basic_New (c : Basic.Config) : string + Basic.Secrets :=
  if negb (Basic.Enabled c) then inr (Basic.mkSecrets ∅)
  else if bool_decide (Basic.Users c = ∅) then inr (Basic.mkSecrets ∅)
  else if bool_decide (Basic.Hash c = "sha256") then
    inr (Basic.mkSecrets (map_imap (fun user pass => Some (hmac_sum "sha256" user pass)) (Basic.Users c)))
  else if bool_decide (Basic.Hash c = "plain") then
    if Basic.AllowPlaintext c then inr (Basic.mkSecrets (Basic.Users c)) else inl "plaintext passwords rejected"
  else if bool_decide (Basic.Hash c = "bcrypt") then inr (Basic.mkSecrets (Basic.Users c))
  else inl "unsupported hash algorithm %q".

Definition Basic_ZeroSecrets (s : W) : W := set_part (Basic.mkSecrets ∅) s.

Definition extractCredentials (r : http_request) : option (string * string) :=
  let auth := r_header r "Authorization" in
  if bool_decide (auth = "") then None
  else if negb (HasPrefix auth "Basic ") then None
  else
    decoded ← DecodeString StdEncoding (TrimPrefix auth "Basic ");
    Cut ":" decoded.

Definition validateCredentials (c : Basic.Config) (s : W) (username password : string) : bool :=
  match Basic.hashes (part s) !! username with
  | None => false
  | Some expected =>
      if bool_decide (Basic.Hash c = "sha256") then bool_decide (hmac_sum "sha256" username password = expected)
      else if bool_decide (Basic.Hash c = "plain") then bool_decide (password = expected)
      else if bool_decide (Basic.Hash c = "bcrypt") then bcrypt_matches expected password
      else false
  end.

Definition basic_unauthorized (realm : string) (w : ResponseWriter) : ResponseWriter :=
  let w := set_header "WWW-Authenticate" ("Basic realm=" +:+ quoted realm) w in
  let w := set_header "Content-Type" "application/json" w in
  Write (error_json "authentication required") (WriteHeader 401 w).

Definition Basic_Wrap (c : Basic.Config) (next : Handler W) : Handler W :=
  if negb (Basic.Enabled c) then next
  else
    let realm := if bool_decide (Basic.Realm c = "") then "Restricted" else Basic.Realm c in
    unless_excluded (Basic.ExcludePaths c) next (fun r s w =>
      match extractCredentials r with
      | None => (Returned, s, basic_unauthorized realm w)
      | Some (username, password) =>
          if validateCredentials c s username password
          then next (WithValue "username" (CtxText username) r) s w
          else (Returned, s, basic_unauthorized realm w)
      end).

Definition BasicMiddleware (c : Basic.Config) : Middleware W :=
  mkMiddleware "basic_auth" 220 (Basic_Wrap c) (Some Basic_ZeroSecrets).

(** ** API keys *)

Definition APIKey_New (c : APIKey.Config) : string + APIKey.Secrets :=
  if negb (APIKey.Enabled c) then inr (APIKey.mkSecrets ∅)
  else if bool_decide (APIKey.Keys c = ∅) then inr (APIKey.mkSecrets ∅)
  else if bool_decide (APIKey.Hash c = "sha256") then
    inr (APIKey.mkSecrets (map_imap (fun keyID key => Some (hmac_sum "sha256" key keyID)) (APIKey.Keys c)))
  else if bool_decide (APIKey.Hash c = "plain") then inr (APIKey.mkSecrets (APIKey.Keys c))
  else inl "unsupported hash algorithm %q".

Definition APIKey_ZeroSecrets (s : W) : W := set_part (APIKey.mkSecrets ∅) s.

Definition extractAPIKey (r : http_request) (header : string) : string :=
  if bool_decide (header = "") then "" else r_header r header.

(** The first key that matches, in the order of the map. *)
Definition validateKey (c : APIKey.Config) (s : W) (apiKey : string) : option string :=
  let l := map_range (APIKey.hashes (part s)) in
  if bool_decide (APIKey.Hash c = "sha256") then
    fst <$> List.find (fun '(keyID, expected) => bool_decide (hmac_sum "sha256" apiKey keyID = expected)) l
  else if bool_decide (APIKey.Hash c = "plain") then
    fst <$> List.find (fun '(keyID, expected) => bool_decide (apiKey = expected)) l
  else None.

Definition apikey_unauthorized (message : string) (w : ResponseWriter) : ResponseWriter :=
  Write (error_json message +:+ line_feed) (WriteHeader 401 (set_header "Content-Type" "application/json" w)).

Definition APIKey_Wrap (c : APIKey.Config) (next : Handler W) : Handler W :=
  if negb (APIKey.Enabled c) then next
  else
    let header := if bool_decide (APIKey.Header c = "") then "X-API-Key" else APIKey.Header c in
    unless_excluded (APIKey.ExcludePaths c) next (fun r s w =>
      let apiKey := extractAPIKey r header in
      if bool_decide (apiKey = "") then (Returned, s, apikey_unauthorized "API key required" w)
      else match validateKey c s apiKey with
           | None => (Returned, s, apikey_unauthorized "invalid API key" w)
           | Some keyID =>
               let r := WithValue "api_key_id" (CtxText keyID) r in
               let r := match APIKey.KeyMetadata c !! keyID with
                        | Some i => WithValue "key_info" (CtxKeyInfo (APIKey.ki_Name i) (APIKey.Permissions i)) r
                        | None => r
                        end in
               next r s w
           end).

Definition APIKeyMiddleware (c : APIKey.Config) : Middleware W :=
  mkMiddleware "api_key" 215 (APIKey_Wrap c) (Some APIKey_ZeroSecrets).

Definition HasPermission (r : http_request) (permission : string) : bool :=
  match ctx_lookup "key_info" (r_ctx r) with
  | Some (CtxKeyInfo _ ps) => existsb (fun p => bool_decide (p = permission) || bool_decide (p = "*")) ps
  | _ => false
  end.

(** ** JWT *)

Definition allowedAlgorithms : list string := ["HS256"; "HS384"; "HS512"; "EdDSA"].
Definition hmac_algorithm (a : string) : bool := bool_decide (a ∈ ["HS256"; "HS384"; "HS512"]).

(** The error, if any. *)
Definition JWT_New (c : JWT.Config) : option string :=
  if negb (JWT.Enabled c) then None
  else if negb (bool_decide (JWT.Algorithm c ∈ allowedAlgorithms)) then Some "unsupported JWT algorithm: %s"
  else if hmac_algorithm (JWT.Algorithm c) && bool_decide (JWT.Secret c = "")
  then Some "JWT HMAC algorithm requires a non-empty secret"
  else if bool_decide (JWT.Algorithm c = "EdDSA") && negb (String.length (JWT.PublicKey c) =? 32)%nat
  then Some "invalid Ed25519 public key"
  else None.

Definition extractToken (c : JWT.Config) (r : http_request) : string + string :=
  let auth := r_header r (JWT.Header c) in
  if bool_decide (auth = "") then inl "authorization header missing"
  else if bool_decide (JWT.Prefix c = "") then inr auth
  else if negb (HasPrefix auth (JWT.Prefix c)) then inl "invalid token format"
  else inr (TrimPrefix auth (JWT.Prefix c)).

Definition validateClaims (c : JWT.Config) (s : W) (k : JWT.Claims) : bool :=
  let now := unix s in
  negb (JWT.RequireExpiration c && (JWT.ExpiresAt k <=? 0)) &&
  negb ((0 <? JWT.ExpiresAt k) && (JWT.ExpiresAt k <? now)) &&
  negb ((0 <? JWT.NotBefore k) && (now <? JWT.NotBefore k)) &&
  negb ((0 <? JWT.IssuedAt k) && (now <? JWT.IssuedAt k)) &&
  (bool_decide (JWT.c_Issuer c = "") || bool_decide (JWT.Issuer k = JWT.c_Issuer c)) &&
  (bool_decide (JWT.c_Audience c = "") || existsb (fun a => bool_decide (a = JWT.c_Audience c)) (JWT.Audience k)).

Definition computeHMAC (data secret algorithm : string) : string :=
  hmac_sum (if bool_decide (algorithm = "HS384") then "sha384"
            else if bool_decide (algorithm = "HS512") then "sha512" else "sha256") secret data.

Definition verifySignature (c : JWT.Config) (header claims signature : string) : bool :=
  match DecodeString RawURLEncoding signature with
  | None => false
  | Some sig =>
      let data := header +:+ "." +:+ claims in
      if hmac_algorithm (JWT.Algorithm c) then bool_decide (sig = computeHMAC data (JWT.Secret c) (JWT.Algorithm c))
      else if bool_decide (JWT.Algorithm c = "EdDSA") then ed25519_Verify (JWT.PublicKey c) data sig
      else false
  end.

Definition validateToken (c : JWT.Config) (s : W) (token : string) : option JWT.Claims :=
  match Split "." token with
  | [h; p; sig] =>
      alg ← DecodeString RawURLEncoding h ≫= json_header;
      if bool_decide (alg = "") || bool_decide (alg = "none") || negb (bool_decide (alg = JWT.Algorithm c)) then None
      else
        claims ← DecodeString RawURLEncoding p ≫= json_claims;
        if validateClaims c s claims && verifySignature c h p sig then Some claims else None
  | _ => None
  end.

Definition jwt_unauthorized (message : string) (w : ResponseWriter) : ResponseWriter :=
  let w := set_header "Content-Type" "application/json" w in
  let w := set_header "WWW-Authenticate" "Bearer" w in
  Write (error_json message) (WriteHeader 401 w).

(** What [Wrap] does for a path that is not excluded. *)
Definition jwt_work (c : JWT.Config) (next : Handler W) : Handler W := fun r s w =>
  match extractToken c r with
  | inl err => if JWT.Required c then (Returned, s, jwt_unauthorized err w) else next r s w
  | inr token =>
      match validateToken c s token with
      | None => (Returned, s, jwt_unauthorized "invalid token" w)
      | Some k => next (WithValue "claims" (CtxClaims (JWT.Subject k) (JWT.Issuer k) (JWT.Audience k)) r) s w
      end
  end.

Definition JWT_Wrap (c : JWT.Config) (next : Handler W) : Handler W :=
  if negb (JWT.Enabled c) then next else unless_excluded (JWT.ExcludePaths c) next (jwt_work c next).

Definition JWTMiddleware (c : JWT.Config) : Middleware W := mkMiddleware "jwt" 210 (JWT_Wrap c) None.

(** ** HMAC signatures *)

(** The secrets and the parsed [MaxAge]. *)
Definition HMAC_New (c : HMAC.Config) : string + HMAC.Secrets * Z :=
  if negb (HMAC.Enabled c) then inr (HMAC.mkSecrets (HMAC.Secret c) false, 0)
  else if bool_decide (HMAC.Secret c = "") then inl "hmac: secret must not be empty when enabled"
  else
    let st := HMAC.mkSecrets (HMAC.Secret c) true in
    if bool_decide (HMAC.MaxAge c = "") then inr (st, 0)
    else match ParseDuration (HMAC.MaxAge c) with
         | Some d => inr (st, d)
         | None => inl "hmac: invalid max_age duration: "
         end.

Definition HMAC_ZeroSecrets (s : W) : W := set_part (HMAC.mkSecrets "" false) s.

Definition hasher (c : HMAC.Config) : string :=
  if bool_decide (ToLower (HMAC.Algorithm c) = "sha512") then "sha512" else "sha256".

Definition extractSignature (c : HMAC.Config) (r : http_request) : option string :=
  let sig := r_header r (HMAC.Header c) in
  if bool_decide (sig = "") then None
  else Some (if bool_decide (HMAC.Prefix c = "") then sig else TrimPrefix sig (HMAC.Prefix c)).

Definition maxBodySize : Z := 10 * 2 ^ 20.

(** [None]: the body cannot be read, or is too long. *)
Definition signed_message (c : HMAC.Config) (r : http_request) : option string :=
  let m := r_method r +:+ line_feed +:+ r_path r +:+ line_feed in
  let m := if bool_decide (r_rawquery r = "") then m else m +:+ r_rawquery r +:+ line_feed in
  let m := if bool_decide (HMAC.TimestampHeader c = "") then m else m +:+ r_header r (HMAC.TimestampHeader c) +:+ line_feed in
  if HMAC.UseBody c then
    body ← read_body r;
    if maxBodySize <? Z.of_nat (String.length body) then None else Some (m +:+ body)
  else Some m.

Definition computeSignature (c : HMAC.Config) (s : W) (r : http_request) : option string :=
  m ← signed_message c r;
  let sum := hmac_sum (hasher c) (HMAC.secret (part s)) m in
  Some (if bool_decide (HMAC.Encoding c = "base64") then EncodeToString StdEncoding sum else hex_encode sum).

(** The protection against replay: what is wrong with the timestamp, if anything. *)
Definition timestamp_error (c : HMAC.Config) (maxAge : Z) (s : W) (r : http_request) : option string :=
  if bool_decide (HMAC.TimestampHeader c = "") || (maxAge <=? 0) then None
  else
    let ts := r_header r (HMAC.TimestampHeader c) in
    if bool_decide (ts = "") then Some "missing timestamp"
    else
      match (match Atoi ts with Some n => Some n | None => parse_rfc3339 ts end) with
      | None => Some "invalid timestamp format"
      | Some n =>
          let diff := i64 (unix s - n) in
          let diff := if diff <? 0 then i64 (- diff) else diff in
          if maxAge <? i64 (diff * 10 ^ 9) then Some "request timestamp expired" else None
      end.

Definition HMAC_Wrap (c : HMAC.Config) (maxAge : Z) (next : Handler W) : Handler W :=
  if negb (HMAC.Enabled c) then next
  else unless_excluded (HMAC.ExcludePaths c) next (fun r s w =>
    match extractSignature c r with
    | None => (Returned, s, apikey_unauthorized "missing signature" w)
    | Some signature =>
        match timestamp_error c maxAge s r with
        | Some err => (Returned, s, apikey_unauthorized err w)
        | None =>
            match computeSignature c s r with
            | None => (Returned, s, apikey_unauthorized "failed to compute signature" w)
            | Some expected =>
                if bool_decide (signature = expected) then next r s w
                else (Returned, s, apikey_unauthorized "invalid signature" w)
            end
        end
    end).

Definition HMACMiddleware (c : HMAC.Config) (maxAge : Z) : Middleware W :=
  mkMiddleware "hmac" 213 (HMAC_Wrap c maxAge) (Some HMAC_ZeroSecrets).
End Auth.
