(* ===== verification/AuthFacts.v ===== *)
(** * What the authentication middlewares let through

    A middleware guards a condition when the handler behind it is called only for requests
    that meet it: changing the handler on other requests changes nothing.  A chain guards
    what any of its middlewares guards, whatever the others do. *)
From S2P Require Import Prelude GoTime Http Bytes NetIP NetAddr GoStrings GoEncoding Security Middleware Auth.
From Stdlib Require Import Ascii.

Section Guards.
Context {W : Type}.
Implicit Types (F : Handler W -> Handler W) (P : http_request -> W -> Prop).

Definition same_on P (h h' : Handler W) : Prop := forall r s w, P r s -> h r s w = h' r s w.
Definition same (h h' : Handler W) : Prop := forall r s w, h r s w = h' r s w.

(** [guards P F]: the handler behind [F] is called only where [P] holds. *)
Definition guards P F : Prop := forall h h', same_on P h h' -> same (F h) (F h').
(** [keeps P F]: from where [P] holds, [F] calls the handler only where [P] holds. *)
Definition keeps P F : Prop := forall h h', same_on P h h' -> same_on P (F h) (F h').
Definition respects F : Prop := forall h h', same h h' -> same (F h) (F h').

Definition nest (l : list (Middleware W)) (h : Handler W) : Handler W := foldr (fun m h => Wrap m h) h l.

Lemma nest_keeps P l : Forall (fun m => keeps P (Wrap m)) l -> keeps P (nest l).
Proof. induction 1 as [|m l Hm _ IH]; [by intros ???|]. intros h h' H. apply Hm, IH, H. Qed.

Lemma nest_respects l : Forall (fun m => respects (Wrap m)) l -> respects (nest l).
Proof. induction 1 as [|m l Hm _ IH]; [by intros ???|]. intros h h' H. apply Hm, IH, H. Qed.

Lemma nest_guards P l1 m l2 :
  Forall (fun m => respects (Wrap m)) l1 -> guards P (Wrap m) -> Forall (fun m => keeps P (Wrap m)) l2 ->
  guards P (nest (l1 ++ m :: l2)).
Proof.
  intros H1 Hm H2 h h' H. unfold nest. rewrite !foldr_app. apply (nest_respects _ H1). cbn [foldr].
  apply Hm. by apply (nest_keeps P l2 H2).
Qed.

Lemma chain_guards P c l1 m l2 : built c -> sorted_stably (middlewares c) (l1 ++ m :: l2) ->
  Forall (fun m => respects (Wrap m)) l1 -> guards P (Wrap m) -> Forall (fun m => keeps P (Wrap m)) l2 ->
  guards P (fun h => fst (Then h c)).
Proof.
  intros Hb Hs H1 Hm H2 h h' H. destruct (Then_sorted c h _ Hb Hs) as [-> _]. destruct (Then_sorted c h' _ Hb Hs) as [-> _].
  by apply (nest_guards P l1 m l2).
Qed.

(** *** The middlewares that need no state *)

Lemma recovery_respects : respects recovery_wrap.
Proof. intros h h' H r s w. unfold recovery_wrap. by rewrite H. Qed.

Lemma body_limit_respects n : respects (body_limit_wrap n).
Proof. intros h h' H r s w. unfold body_limit_wrap. by destruct (_ <? _). Qed.

Lemma unless_excluded_guards P paths F :
  (forall h h', same_on P h h' -> forall r s w, excluded paths (r_path r) = Some false -> F h r s w = F h' r s w) ->
  guards (fun r s => excluded paths (r_path r) = Some true \/ P r s) (fun h => unless_excluded paths h (F h)).
Proof.
  intros HF h h' H r s w. unfold unless_excluded. destruct (excluded paths (r_path r)) as [[|]|] eqn:E; [|..|done].
  - apply H. by left.
  - apply HF; [|done]. intros r' s' w' HP. apply H. by right.
Qed.
End Guards.

Section JWTFacts.
Context {W : Type} `{!Clock W}.
Variable hmac_sum : string -> string -> string -> string.
Variable ed25519_Verify : string -> string -> string -> bool.
Variable json_header : string -> option string.
Variable json_claims : string -> option JWT.Claims.

Notation JWT_Wrap := (JWT_Wrap hmac_sum ed25519_Verify json_header json_claims).
Notation JWTMiddleware := (JWTMiddleware hmac_sum ed25519_Verify json_header json_claims).

(** ** JWT *)

(** The claims say that the token may be used at a time. *)
Record claims_valid (c : JWT.Config) (time : Z) (k : JWT.Claims) : Prop := {
  cv_present : JWT.RequireExpiration c = true -> 0 < JWT.ExpiresAt k;
  cv_expires : 0 < JWT.ExpiresAt k -> time <= JWT.ExpiresAt k;
  cv_not_before : 0 < JWT.NotBefore k -> JWT.NotBefore k <= time;
  cv_issued : 0 < JWT.IssuedAt k -> JWT.IssuedAt k <= time;
  cv_issuer : JWT.c_Issuer c <> "" -> JWT.Issuer k = JWT.c_Issuer c;
  cv_audience : JWT.c_Audience c <> "" -> JWT.c_Audience c ∈ JWT.Audience k
}.

Lemma validateClaims_iff c (s : W) k : validateClaims c s k = true <-> claims_valid c (unix s) k.
Proof.
  assert (existsb (fun a => bool_decide (a = JWT.c_Audience c)) (JWT.Audience k) = true <-> JWT.c_Audience c ∈ JWT.Audience k) as Ha.
  { rewrite existsb_exists. setoid_rewrite bool_decide_eq_true. split; [intros (x & Hx & ->); by apply list_elem_of_In|].
    intros H. eexists. split; [by apply list_elem_of_In|done]. }
  unfold validateClaims. rewrite !andb_true_iff, !negb_true_iff, !andb_false_iff, !orb_true_iff, !bool_decide_eq_true, Ha.
  rewrite !Z.leb_gt, !Z.ltb_ge. split.
  - intros (((((H1 & H2) & H3) & H4) & H5) & H6). split; intros; try (destruct H5; [done|tauto]); try (destruct H6; [done|tauto]);
      [destruct H1; [congruence|lia]|lia..].
  - intros [H1 H2 H3 H4 H5 H6]. split_and!; try lia.
    + destruct (JWT.RequireExpiration c); [right; by apply H1|by left].
    + destruct (decide (JWT.c_Issuer c = "")); [by left|right; by apply H5].
    + destruct (decide (JWT.c_Audience c = "")); [by left|right; by apply H6].
Qed.

(** The signature is the one of the configured algorithm over the header and the claims. *)
Definition signed (c : JWT.Config) (h p sig : string) : Prop :=
  exists bytes, DecodeString RawURLEncoding sig = Some bytes /\
    let data := h +:+ "." +:+ p in
    (hmac_algorithm (JWT.Algorithm c) = true /\ bytes = computeHMAC hmac_sum data (JWT.Secret c) (JWT.Algorithm c)) \/
    (JWT.Algorithm c = "EdDSA" /\ ed25519_Verify (JWT.PublicKey c) data bytes = true).

Lemma verifySignature_iff c h p sig :
  verifySignature hmac_sum ed25519_Verify c h p sig = true <-> signed c h p sig.
Proof.
  unfold verifySignature, signed. destruct (DecodeString RawURLEncoding sig) as [b|]; [|naive_solver].
  destruct (hmac_algorithm (JWT.Algorithm c)) eqn:Ea.
  - rewrite bool_decide_eq_true. split; [intros ->; eexists; split; [done|]; by left|].
    intros (? & [= <-] & [[_ ->]|[E _]]); [done|]. by rewrite E in Ea.
  - destruct (bool_decide_reflect (JWT.Algorithm c = "EdDSA")) as [E|E].
    + split; [intros H; eexists; split; [done|]; by right|]. intros (? & [= <-] & [[? _]|[_ H]]); done.
    + split; [done|]. intros (? & _ & [[? _]|[? _]]); done.
Qed.

(** A token of the configured algorithm that is signed and whose claims hold at a time. *)
Record token_valid (c : JWT.Config) (time : Z) (token : string) (k : JWT.Claims) : Prop := {
  tv_valid : exists h p sig text claims,
    Split "." token = [h; p; sig] /\
    DecodeString RawURLEncoding h = Some text /\ json_header text = Some (JWT.Algorithm c) /\
    DecodeString RawURLEncoding p = Some claims /\ json_claims claims = Some k /\
    signed c h p sig;
  tv_claims : claims_valid c time k
}.

Lemma validateToken_iff c (s : W) token k : JWT.Algorithm c ∈ allowedAlgorithms ->
  validateToken hmac_sum ed25519_Verify json_header json_claims c s token = Some k <-> token_valid c (unix s) token k.
Proof.
  intros Halg. assert (JWT.Algorithm c <> "" /\ JWT.Algorithm c <> "none") as [Hn1 Hn2].
  { split; intros E; rewrite E in Halg; set_solver. }
  unfold validateToken. split.
  - intros H. destruct (Split "." token) as [|h [|p [|sig [|]]]] eqn:Es; try done.
    destruct (DecodeString RawURLEncoding h) as [text|] eqn:Eh; [|done]. cbn [mbind option_bind] in H.
    destruct (json_header text) as [alg|] eqn:Ej; [|done]. cbn [mbind option_bind] in H.
    destruct (_ || _) eqn:Eo; [done|]. b2p. subst alg.
    destruct (DecodeString RawURLEncoding p) as [cl|] eqn:Ep; [|done]. cbn [mbind option_bind] in H.
    destruct (json_claims cl) as [k'|] eqn:Ek; [|done]. cbn [mbind option_bind] in H.
    destruct (validateClaims c s k' && _) eqn:Ev; [|done]. injection H as <-. b2p.
    split; [|by apply validateClaims_iff]. exists h, p, sig, text, cl. split_and!; try done. by apply verifySignature_iff.
  - intros [(h & p & sig & text & cl & -> & Eh & Ej & Ep & Ek & Hs) Hc]. rewrite Eh. cbn [mbind option_bind]. rewrite Ej. cbn [mbind option_bind].
    rewrite !bool_decide_false by done. rewrite bool_decide_true by done. cbn [orb negb]. rewrite Ep. cbn [mbind option_bind]. rewrite Ek. cbn [mbind option_bind].
    by rewrite (proj2 (validateClaims_iff c s k) Hc), (proj2 (verifySignature_iff c h p sig) Hs).
Qed.

(** The requests that the middleware passes on. *)
Definition jwt_passes (c : JWT.Config) (r : http_request) (s : W) : Prop :=
  (JWT.Required c = false /\ exists e, extractToken c r = inl e) \/
  exists token k, extractToken c r = inr token /\ token_valid c (unix s) token k /\
    ctx_lookup "claims" (r_ctx r) = Some (CtxClaims (JWT.Subject k) (JWT.Issuer k) (JWT.Audience k)).
Definition jwt_admitted (c : JWT.Config) (r : http_request) (s : W) : Prop :=
  excluded (JWT.ExcludePaths c) (r_path r) = Some true \/ jwt_passes c r s.

Lemma jwt_guards c : JWT.Enabled c = true -> JWT_New c = None -> guards (jwt_admitted c) (JWT_Wrap c).
Proof.
  intros He Hnew. assert (JWT.Algorithm c ∈ allowedAlgorithms) as Ha.
  { unfold JWT_New in Hnew. rewrite He in Hnew. cbn [negb] in Hnew.
    destruct (bool_decide_reflect (JWT.Algorithm c ∈ allowedAlgorithms)); [done|by cbn in Hnew]. }
  unfold Auth.JWT_Wrap. rewrite He. cbn [negb]. apply (unless_excluded_guards (jwt_passes c)).
  intros h h' H r s w _. unfold jwt_work. destruct (extractToken c r) as [e|token] eqn:Et.
  - destruct (JWT.Required c) eqn:Er; [done|]. apply H. left. split; [done|]. by exists e.
  - destruct (validateToken _ _ _ _ c s token) as [k|] eqn:Ev; [|done]. apply H. right. exists token, k.
    split_and!; [done|by apply validateToken_iff|]. cbn [WithValue r_ctx ctx_lookup]. by rewrite bool_decide_true.
Qed.

(** C25: In a chain with the JWT middleware the handler behind the chain is reached only by
    requests to excluded paths, by requests without a token where none is required, and by
    requests with a token that is signed and valid at the time of the request, whose claims
    are in their context: on all other requests the handler makes no difference to the answer and to the state.  The
    middlewares that run before may do what they like; those that run after must not invent
    requests of their own. *)
Theorem jwt_protects_chain cfg c h h' l1 l2
  (Henabled : JWT.Enabled cfg = true) (Hnew : JWT_New cfg = None) (Hbuilt : built c)
  (Horder : sorted_stably (middlewares c) (l1 ++ JWTMiddleware cfg :: l2))
  (Hbefore : Forall (fun m => respects (Wrap m)) l1)
  (Hafter : Forall (fun m => keeps (jwt_admitted cfg) (Wrap m)) l2)
  (Hsame : same_on (jwt_admitted cfg) h h') :
  same (fst (Then h c)) (fst (Then h' c)).
Proof. by apply (chain_guards _ _ _ _ _ Hbuilt Horder Hbefore (jwt_guards cfg Henabled Hnew) Hafter). Qed.

(** *** Signed tokens are accepted *)

(** How an issuer writes a token. *)
Definition sign_token (c : JWT.Config) (header claims : string) : string :=
  let h := EncodeToString RawURLEncoding header in
  let p := EncodeToString RawURLEncoding claims in
  h +:+ "." +:+ p +:+ "." +:+
    EncodeToString RawURLEncoding (computeHMAC hmac_sum (h +:+ "." +:+ p) (JWT.Secret c) (JWT.Algorithm c)).

Lemma sign_token_valid c header claims k time :
  hmac_algorithm (JWT.Algorithm c) = true -> json_header header = Some (JWT.Algorithm c) ->
  json_claims claims = Some k -> claims_valid c time k -> token_valid c time (sign_token c header claims) k.
Proof.
  intros Ha Hh Hc Hv. split; [|done]. unfold sign_token.
  set (h := EncodeToString RawURLEncoding header). set (p := EncodeToString RawURLEncoding claims).
  set (sum := computeHMAC hmac_sum _ _ _).
  exists h, p, (EncodeToString RawURLEncoding sum), header, claims. split_and!; try done.
  - change (h +:+ "." +:+ p +:+ "." +:+ EncodeToString RawURLEncoding sum)
      with (Join "." [h; p; EncodeToString RawURLEncoding sum]).
    apply Split_Join; [done|]. repeat constructor; apply raw_url_no_dot.
  - by apply base64_roundtrip; right.
  - by apply base64_roundtrip; right.
  - exists sum. split; [by apply base64_roundtrip; right|]. by left.
Qed.

(** A token written by an issuer that shares the secret gets its bearer through, with the
    claims it was written with in the context of the request. *)
Theorem jwt_accepts_signed_token c next r s w header claims k
  (Henabled : JWT.Enabled c = true) (Halg : hmac_algorithm (JWT.Algorithm c) = true)
  (Hprefix : JWT.Prefix c <> "")
  (Hheader : json_header header = Some (JWT.Algorithm c)) (Hclaims : json_claims claims = Some k)
  (Hvalid : claims_valid c (unix s) k)
  (Hexcluded : excluded (JWT.ExcludePaths c) (r_path r) = Some false)
  (Hr : r_header r (JWT.Header c) = JWT.Prefix c +:+ sign_token c header claims) :
  JWT_Wrap c next r s w = next (WithValue "claims" (CtxClaims (JWT.Subject k) (JWT.Issuer k) (JWT.Audience k)) r) s w.
Proof.
  assert (JWT.Algorithm c ∈ allowedAlgorithms) as Ha.
  { unfold hmac_algorithm in Halg. b2p. set_solver. }
  unfold Auth.JWT_Wrap. rewrite Henabled. cbn [negb]. unfold unless_excluded. rewrite Hexcluded.
  unfold jwt_work, extractToken. rewrite Hr. rewrite (bool_decide_false (_ = "")); [|by destruct (JWT.Prefix c)].
  rewrite (bool_decide_false (JWT.Prefix c = "")) by done. rewrite HasPrefix_app, TrimPrefix_app. cbn [negb].
  pose proof (sign_token_valid c header claims k _ Halg Hheader Hclaims Hvalid) as Ht.
  apply (validateToken_iff c s _ _ Ha) in Ht. by rewrite Ht.
Qed.

End JWTFacts.

(** ** Basic authentication *)

Section BasicFacts.
Context {W : Type} `{!Part Basic.Secrets W}.
Variable hmac_sum : string -> string -> string -> string.
Variable bcrypt_matches : string -> string -> bool.
Notation Basic_Wrap := (Basic_Wrap hmac_sum bcrypt_matches).

(** A user of the configuration is let in under their name with the password configured. *)
Lemma basic_accepts_user c (next : Handler W) r s w user pass :
  Basic.Enabled c = true -> Basic.Hash c = "sha256" \/ (Basic.Hash c = "plain" /\ Basic.AllowPlaintext c = true) ->
  Basic_New hmac_sum c = inr (part s) -> Basic.Users c !! user = Some pass -> all_chars (fun x => x <> ":"%char) user ->
  excluded (Basic.ExcludePaths c) (r_path r) = Some false ->
  r_header r "Authorization" = "Basic " +:+ EncodeToString StdEncoding (user +:+ String ":" pass) ->
  Basic_Wrap c next r s w = next (WithValue "username" (CtxText user) r) s w.
Proof.
  intros He Hh Hnew Hu Huser Hex Hr. unfold Auth.Basic_Wrap. rewrite He. cbn [negb]. unfold unless_excluded. rewrite Hex.
  unfold extractCredentials. rewrite Hr. rewrite (bool_decide_false (_ = "")) by done. rewrite HasPrefix_app, TrimPrefix_app.
  cbn [negb]. rewrite base64_roundtrip by (by left). cbn [mbind option_bind]. rewrite Cut_app by done.
  assert (validateCredentials hmac_sum bcrypt_matches c s user pass = true) as ->; [|done].
  unfold Basic_New in Hnew. rewrite He in Hnew. cbn [negb] in Hnew.
  rewrite (bool_decide_false (Basic.Users c = ∅)) in Hnew by (intros E; by rewrite E, lookup_empty in Hu).
  unfold validateCredentials. destruct Hh as [Hh|[Hh Hp]]; rewrite Hh in Hnew |- *.
  - rewrite bool_decide_true in Hnew |- * by done. injection Hnew as <-. cbn [Basic.hashes].
    rewrite map_lookup_imap, Hu. cbn. by rewrite bool_decide_true.
  - rewrite bool_decide_false, bool_decide_true, Hp in Hnew by done. injection Hnew as <-. cbn [Basic.hashes].
    rewrite Hu. rewrite (bool_decide_false ("plain" = "sha256")), !bool_decide_true by done. done.
Qed.

(** Once the secrets have been zeroed nobody is let in. *)
Lemma basic_zeroed_rejects c (s : W) user pass :
  validateCredentials hmac_sum bcrypt_matches c (Basic_ZeroSecrets s) user pass = false.
Proof. unfold validateCredentials, Basic_ZeroSecrets. rewrite part_set. cbn [Basic.hashes]. by rewrite lookup_empty. Qed.

End BasicFacts.

(** ** HMAC signatures *)

(** The signed message does not say where the query ends: a signature for a request without
    a query also signs the request whose query is the first line of that body. *)
Theorem hmac_confuses_query_and_body `{!Part HMAC.Secrets W} hmac_sum c (s : W) r1 r2 query body
  (Hts : HMAC.TimestampHeader c = "") (Hbody : HMAC.UseBody c = true) (Hquery : query <> "")
  (Hm : r_method r1 = r_method r2) (Hp : r_path r1 = r_path r2)
  (Hq1 : r_rawquery r1 = "") (Hq2 : r_rawquery r2 = query)
  (Hb1 : r_body r1 = query +:+ line_feed +:+ body) (Hb2 : r_body r2 = body)
  (Hl1 : r_limit r1 = None) (Hl2 : r_limit r2 = None)
  (Hlen : Z.of_nat (String.length (r_body r1)) <= maxBodySize) :
  computeSignature hmac_sum c s r1 = computeSignature hmac_sum c s r2.
Proof.
  unfold computeSignature. replace (signed_message c r1) with (signed_message c r2); [done|].
  unfold signed_message, read_body. rewrite Hts, Hbody, Hm, Hp, Hq1, Hq2, Hl1, Hl2. cbn [mbind option_bind].
  rewrite (bool_decide_false (query = "")) by done. rewrite !(bool_decide_true (_ = "")) by done.
  rewrite (proj2 (Z.ltb_ge _ _)); [|rewrite Hb1, !length_app_string in Hlen; rewrite Hb2; lia].
  rewrite (proj2 (Z.ltb_ge _ _)) by done. rewrite Hb1, Hb2. by rewrite !app_assoc_string.
Qed.

(** ** Examples *)

(** A stand-in for the cryptography and the JSON of the theorems: the texts themselves. *)
Definition demo_sum (algorithm key message : string) : string := algorithm +:+ ":" +:+ key +:+ ":" +:+ message.
Definition demo_json (s : string) : option string := Some s.
Definition demo_claims (s : string) : option JWT.Claims := Some (JWT.mkClaims s "issuer" [] 2000 0 0).
Definition no_ed25519 (_ _ _ : string) : bool := false.

(** The world is the clock. *)
#[local] Instance clock_world : Clock Z := fun t => t * 10 ^ 9.

Definition demo_jwt : JWT.Config := JWT.mkConfig true "key" "" "HS256" "Authorization" "Bearer " true ["/public"] "" "" true.

Definition with_header (k v : string) (r : http_request) : http_request :=
  set_req (with_headers (Header_Set k v (Header (r_req r))) (r_req r)) r.

Definition demo_bearer : http_request :=
  with_header "Authorization" ("Bearer " +:+ sign_token demo_sum demo_jwt "HS256" "alice") demo_request.

Lemma jwt_accepts_signed_token_witness :
  JWT_Wrap demo_sum no_ed25519 demo_json demo_claims demo_jwt (stop (W:=Z)) demo_bearer 1000 fresh_writer =
  stop (WithValue "claims" (CtxClaims "alice" "issuer" []) demo_bearer) 1000 fresh_writer.
Proof.
  apply (jwt_accepts_signed_token demo_sum no_ed25519 demo_json demo_claims demo_jwt stop demo_bearer 1000 fresh_writer
    "HS256" "alice" (JWT.mkClaims "alice" "issuer" [] 2000 0 0)); try (vm_compute; reflexivity); [done|].
  split; cbn; try done; try (intros; lia); intros _; vm_compute; discriminate.
Defined.

(** A chain of three middlewares around a handler with something to hide; the last one notes
    a number in the context. *)
Definition traced : Middleware Z := mkMiddleware "trace" 750 (fun next r s w => next (WithValue "trace" (CtxText "1") r) s w) None.
Definition demo_protected : Chain Z :=
  Use traced (Use (JWTMiddleware demo_sum no_ed25519 demo_json demo_claims demo_jwt) (Use RecoveryMiddleware NewChain)).

Definition hidden : Handler Z := fun r s w => (Returned, s, Write "secret" w).
Definition careful : Handler Z := fun r s w =>
  match excluded ["/public"] (r_path r), ctx_lookup "claims" (r_ctx r) with
  | Some true, _ | _, Some _ => (Returned, s, Write "secret" w)
  | _, _ => (Panicked, s, w)
  end.

Lemma jwt_protects_chain_witness :
  same (fst (Then hidden demo_protected)) (fst (Then careful demo_protected)).
Proof.
  apply (jwt_protects_chain demo_sum no_ed25519 demo_json demo_claims demo_jwt demo_protected hidden careful
    [RecoveryMiddleware] [traced]); [done..| | | | |].
  - repeat constructor.
  - change ([RecoveryMiddleware] ++ JWTMiddleware demo_sum no_ed25519 demo_json demo_claims demo_jwt :: [traced])
      with (stable_sort (middlewares demo_protected)).
    apply stable_sort_sorts.
  - repeat constructor. apply recovery_respects.
  - repeat constructor. intros h h' H r s w HP. cbn. apply H. destruct HP as [HP|[[? _]|(token & k & Ht & Hv & Hc)]]; [by left|done|].
    right. right. exists token, k. split_and!; [done..|]. cbn [WithValue r_ctx ctx_lookup]. by rewrite bool_decide_false.
  - intros r s w [HP|[[? _]|(token & k & _ & _ & Hc)]]; [|done|].
    + unfold careful, hidden. change ["/public"] with (JWT.ExcludePaths demo_jwt). by rewrite HP.
    + unfold careful, hidden. rewrite Hc. by destruct (excluded _ _) as [[|]|].
Defined.

(** Exclusion looks at the path as the client wrote it, the proxy sends the sanitized one: with
    dot segments behind an excluded prefix any path can be asked for without a token. *)
Example excluded_prefix_opens_all :
  let r := set_req (with_path "/public/../admin" (r_req demo_request)) demo_request in
  JWT_Wrap demo_sum no_ed25519 demo_json demo_claims demo_jwt hidden r 1000 fresh_writer = hidden r 1000 fresh_writer /\
  SanitizePath (r_path r) = "/admin".
Proof. vm_compute. done. Qed.

Definition demo_hmac : HMAC.Config := HMAC.mkConfig true "key" "sha256" "X-Signature" "" "hex" true [] "X-Time" "5m".

(** A timestamp some six hundred years away makes the age overflow and counts as fresh. *)
Example ancient_timestamp_accepted :
  timestamp_error (fun _ => None) demo_hmac (5 * 60 * 10 ^ 9) (1700000000 : Z)
    (with_header "X-Time" "-16746744074" demo_request) = None /\
  timestamp_error (fun _ => None) demo_hmac (5 * 60 * 10 ^ 9) (1700000000 : Z)
    (with_header "X-Time" "1699999000" demo_request) = Some "request timestamp expired".
Proof. vm_compute. done. Qed.

(** The same signature for two requests. *)
Example hmac_query_or_body :
  let post q b := mkHttpRequest (mkRequest "POST" "h" "" "/pay" ∅ [] []) "" q "" false b 0 None [] in
  let c := HMAC.mkConfig true "key" "sha256" "X-Signature" "" "hex" true [] "" "" in
  signed_message c (post "" ("to=eve" +:+ line_feed +:+ "sum=1")) = signed_message c (post "to=eve" "sum=1").
Proof. vm_compute. done. Qed.
