(* ===== verification/ResponseCache.v ===== *)
(** * The response cache: [internal/middleware/cache/cache.go]

    The cache keeps complete answers under a key made from the request.  A miss runs the
    handler on a recorder of its own and copies the recording to the client.  SHA-256 and
    the parsing of HTTP dates are parameters; sizes are sums of lengths in memory and do
    not wrap around.  The order in which a map is enumerated is that of [MapRange]. *)
From S2P Require Import Prelude Http Bytes NetIP NetAddr GoStrings GoEncoding Security Middleware.
From Stdlib Require Import Ascii.

Record Config := mkConfig {
  Enabled : bool;
  TTL : Z;
  MaxSize : Z;
  MaxEntries : Z;
  KeyFunc : http_request -> string;
  Methods : list string;
  StatusCodes : list Z;
  ExcludePaths : list string;
  ExcludeHeaders : gmap string string;
  CachePrivate : bool;
  CacheCookies : bool
}.

(** [DefaultKeyFunc]: neither the host nor any credentials are part of the key. *)
Definition DefaultKeyFunc (r : http_request) : string :=
  let key := r_method r +:+ ":" +:+ request_url r in
  let enc := r_header r "Accept-Encoding" in
  let key := if bool_decide (enc = "") then key else key +:+ ":" +:+ enc in
  let accept := r_header r "Accept" in
  if bool_decide (accept = "") then key else key +:+ ":" +:+ accept.

Definition minutes (n : Z) : Z := n * 60 * 10 ^ 9.
Definition default_codes : list Z := [200; 203; 204; 206; 300; 301; 404; 405; 410; 414; 501].

Definition DefaultConfig : Config :=
  mkConfig false (minutes 5) (100 * 1024 * 1024) 10000 DefaultKeyFunc ["GET"; "HEAD"] default_codes [] ∅ false false.

(** The defaults that [New] fills in. *)
Definition New (c : Config) : Config :=
  mkConfig (Enabled c) (if TTL c =? 0 then minutes 5 else TTL c) (MaxSize c) (MaxEntries c) (KeyFunc c)
    (if bool_decide (Methods c = []) then ["GET"; "HEAD"] else Methods c)
    (if bool_decide (StatusCodes c = []) then default_codes else StatusCodes c)
    (ExcludePaths c) (ExcludeHeaders c) (CachePrivate c) (CacheCookies c).

Record cachedResponse := mkCached {
  StatusCode : Z; c_Header : headers; Body : string; Timestamp : Z; c_TTL : Z; ETag : string
}.

Definition isExpired (now : Z) (e : cachedResponse) : bool := c_TTL e <? now - Timestamp e.

Definition text_size (s : string) : Z := Z.of_nat (String.length s).
Definition size_of (e : cachedResponse) : Z :=
  text_size (Body e) + sumZ (fun '(key, values) => text_size key + sumZ text_size values) (map_to_list (c_Header e)).

Record Cache := mkCache { entries : gmap string cachedResponse; size : Z }.

(** ** What may be cached *)

Definition isMethodCacheable (c : Config) (method : string) : bool := bool_decide (method ∈ Methods c).
Definition isStatusCacheable (c : Config) (status : Z) : bool := bool_decide (status ∈ StatusCodes c).

(** The recorder of [httptest]: its header map is the live one. *)
Definition rec_code (rec : ResponseWriter) : Z := match w_sent rec with Some (code, _) => code | None => 200 end.
Definition rec_header (rec : ResponseWriter) (key : string) : string := Header_Get (w_header rec) key.

Definition isCacheable (c : Config) (rec : ResponseWriter) (r : http_request) : bool :=
  let cc := rec_header rec "Cache-Control" in
  isStatusCacheable c (rec_code rec) &&
  (bool_decide (cc = "") ||
   (negb (strings_Contains cc "no-store") &&
    negb (strings_Contains cc "private" && negb (CachePrivate c)) &&
    negb (strings_Contains cc "no-cache" && bool_decide (rec_header rec "ETag" = "") &&
          bool_decide (rec_header rec "Last-Modified" = "")))) &&
  (CacheCookies c || (bool_decide (rec_header rec "Set-Cookie" = "") && bool_decide (r_header r "Cookie" = ""))) &&
  negb (existsb (fun '(header, pattern) =>
    negb (bool_decide (rec_header rec header = "")) &&
    (bool_decide (pattern = "") || strings_Contains (rec_header rec header) pattern)) (map_to_list (ExcludeHeaders c))) &&
  negb (bool_decide (rec_header rec "Vary" = "*")) &&
  negb ((0 <? MaxSize c) && (MaxSize c <? text_size (w_body rec))).

(** The text behind the first occurrence of [sub]. *)
Fixpoint after_first (sub s : string) : option string :=
  if HasPrefix s sub then Some (string_drop (String.length sub) s)
  else match s with String _ r => after_first sub r | EmptyString => None end.

Fixpoint take_digits (s : string) : string :=
  match s with
  | String c r => if is_digit c then String c (take_digits r) else ""
  | EmptyString => ""
  end.

Definition parseMaxAge (cc : string) : Z :=
  match after_first "max-age=" cc with
  | None => 0
  | Some r => let digits := take_digits r in if bool_decide (digits = "") then 0 else default 0 (Atoi digits)
  end.

Section Cache.
Context `{MR : !MapRange}.
Variable sha256_hex : string -> string.
Variable ParseTime : string -> option Z.
Variable cfg : Config.

(** ** The store *)

Definition get (now : Z) (key : string) (m : Cache) : option cachedResponse :=
  e ← entries m !! key; if isExpired now e then None else Some e.

(** [make_entry] is what [store] makes of a recording. *)
Definition make_entry (now : Z) (rec : ResponseWriter) : cachedResponse :=
  let body := w_body rec in
  let etag := rec_header rec "ETag" in
  let '(etag, header) :=
    if bool_decide (etag = "") && negb (bool_decide (body = ""))
    then let etag := string_take 16 (sha256_hex body) in (etag, Header_Set "ETag" etag (w_header rec))
    else (etag, w_header rec) in
  let cc := rec_header rec "Cache-Control" in
  let ttl := if negb (bool_decide (cc = "")) && (0 <? parseMaxAge cc) then i64 (parseMaxAge cc * 10 ^ 9) else TTL cfg in
  mkCached (rec_code rec) header body now ttl etag.

(** The search of [evictOldestUnderLock]: the empty key counts as none. *)
Definition oldest (l : list (string * cachedResponse)) : string :=
  fst (foldl (fun '(k, t) '(key, e) =>
    if bool_decide (k = "") || (Timestamp e <? t) then (key, Timestamp e) else (k, t)) ("", 0) l).

Definition remove_key (key : string) (m : Cache) : Cache :=
  match entries m !! key with
  | Some e => mkCache (delete key (entries m)) (size m - size_of e)
  | None => m
  end.

Definition evictOldest (m : Cache) : Cache :=
  let k := oldest (map_range (entries m)) in
  if bool_decide (k = "") then m else remove_key k m.

(** The loop that makes room; [None]: it does not end. *)
Fixpoint make_room (fuel : nat) (need : Z) (m : Cache) : option Cache :=
  if (MaxSize cfg <? size m + need) && negb (bool_decide (entries m = ∅)) then
    match fuel with
    | O => None
    | S fuel => make_room fuel need (evictOldest m)
    end
  else Some m.

Definition count (m : Cache) : nat := length (map_to_list (entries m)).

Definition insert_entry (key : string) (e : cachedResponse) (m : Cache) : Cache :=
  mkCache (<[key := e]> (entries m)) (size m + size_of e).

Definition store (now : Z) (key : string) (rec : ResponseWriter) (m : Cache) : option Cache :=
  let m := if (0 <? MaxEntries cfg) && (MaxEntries cfg <=? Z.of_nat (count m)) then evictOldest m else m in
  if (0 <? MaxSize cfg) && (MaxSize cfg <? text_size (w_body rec)) then Some m
  else
    let e := make_entry now rec in
    if (0 <? MaxSize cfg) && (MaxSize cfg <? size m + size_of e) then
      m ← make_room (count m) (size_of e) m;
      if MaxSize cfg <? size m + size_of e then Some m else Some (insert_entry key e m)
    else Some (insert_entry key e m).

Definition Purge (prefix : string) (m : Cache) : Z * Cache :=
  let gone := List.filter (fun '(key, _) => HasPrefix key prefix) (map_to_list (entries m)) in
  (Z.of_nat (length gone), foldl (fun m '(key, _) => remove_key key m) m gone).

Definition Clear (m : Cache) : Cache := mkCache ∅ 0.

(** ** Answers *)

Definition isNotModified (now : Z) (r : http_request) (e : cachedResponse) : bool :=
  let inm := r_header r "If-None-Match" in
  let ims := r_header r "If-Modified-Since" in
  (negb (bool_decide (inm = "")) && (bool_decide (inm = ETag e) || bool_decide (inm = "*"))) ||
  (negb (bool_decide (ims = "")) &&
   match ParseTime ims with Some t => now - Timestamp e <? now - t | None => false end).

(** The loops that add every value of a header map. *)
Definition add_headers (src : headers) (h : headers) : headers :=
  foldl (fun h '(key, values) => foldl (fun h v => Header_Add key v h) h values) h (map_range src).

Definition serveFromCache (now : Z) (r : http_request) (e : cachedResponse) (w : ResponseWriter) : ResponseWriter :=
  let w := on_header (add_headers (c_Header e)) w in
  let w := set_header "X-Cache" "HIT" w in
  let w := set_header "Age" (Itoa (Z.quot (now - Timestamp e) (10 ^ 9))) w in
  let w := WriteHeader (StatusCode e) w in
  if bool_decide (r_method r = "HEAD") then w else Write (Body e) w.

Definition writeResponse (rec : ResponseWriter) (w : ResponseWriter) : ResponseWriter :=
  let w := on_header (add_headers (w_header rec)) w in
  let w := set_header "X-Cache" "MISS" w in
  Write (w_body rec) (WriteHeader (rec_code rec) w).

(** ** The middleware *)

Definition no_cache_request (r : http_request) : bool :=
  let cc := r_header r "Cache-Control" in
  strings_Contains cc "no-cache" || strings_Contains cc "no-store".

Section Handler.
Context {W : Type} `{!Clock W, !Part Cache W}.

(** A hang of [store] holds the lock of the cache for ever; it is a panic here. *)
Definition serve (next : Handler W) : Handler W := fun r s w =>
  let key := KeyFunc cfg r in
  match get (now s) key (part s) with
  | Some e =>
      if isNotModified (now s) r e then (Returned, s, WriteHeader 304 w)
      else (Returned, s, serveFromCache (now s) r e w)
  | None =>
      match next r s fresh_writer with
      | (Panicked, s, _) => (Panicked, s, w)
      | (Returned, s, rec) =>
          if isCacheable cfg rec r then
            match store (now s) key rec (part s) with
            | Some m => (Returned, set_part m s, writeResponse rec w)
            | None => (Panicked, s, w)
            end
          else (Returned, s, writeResponse rec w)
      end
  end.

Definition Cache_Wrap (next : Handler W) : Handler W :=
  if negb (Enabled cfg) then next
  else fun r s w =>
    if negb (isMethodCacheable cfg (r_method r)) then next r s w
    else unless_excluded (ExcludePaths cfg) next (fun r s w =>
      if no_cache_request r then next r s w else serve next r s w) r s w.

Definition CacheMiddleware : Middleware W := mkMiddleware "cache" 55 Cache_Wrap None.
End Handler.
End Cache.
