(* ===== verification/ResponseCacheFacts.v ===== *)
(** * What the response cache guarantees

    Its size stays within the limits and storing always comes to an end; what it serves was
    recorded for a request with the same key.  The recorded size only grows apart from the
    real one when an answer is stored again, so the cache fills up with nothing; and the key
    leaves out the host and the credentials of a request. *)
From S2P Require Import Prelude Http Bytes NetIP NetAddr GoStrings GoEncoding Security Middleware Auth AuthFacts ResponseCache.
From Stdlib Require Import Ascii.

(** ** Sums over maps *)

Lemma sumZ_perm {A} (f : A -> Z) l l' : l ≡ₚ l' -> sumZ f l = sumZ f l'.
Proof. unfold sumZ. induction 1; cbn; try lia; congruence. Qed.

Definition mapZ {A} (f : A -> Z) (m : gmap string A) : Z := sumZ (fun '(_, x) => f x) (map_to_list m).

Section MapSum.
Context {A : Type} (f : A -> Z).
Implicit Types m : gmap string A.

Lemma mapZ_empty : mapZ f ∅ = 0.
Proof. unfold mapZ. by rewrite map_to_list_empty. Qed.

Lemma mapZ_insert_new k x m : m !! k = None -> mapZ f (<[k := x]> m) = f x + mapZ f m.
Proof. intros H. unfold mapZ. by rewrite (sumZ_perm _ _ _ (map_to_list_insert _ _ _ H)). Qed.

Lemma mapZ_delete k x m : m !! k = Some x -> mapZ f m = f x + mapZ f (delete k m).
Proof. intros H. rewrite <- (insert_delete_id m k x) at 1 by done. by rewrite mapZ_insert_new by apply lookup_delete_eq. Qed.

Lemma mapZ_insert_old k x y m : m !! k = Some x -> mapZ f (<[k := y]> m) = f y + mapZ f m - f x.
Proof.
  intros H. rewrite (mapZ_delete k x m H). rewrite <- insert_delete_eq. rewrite mapZ_insert_new by apply lookup_delete_eq. lia.
Qed.

Lemma mapZ_nonneg m : (forall x, 0 <= f x) -> 0 <= mapZ f m.
Proof. intros H. apply sumZ_nonneg. by intros [k x] _. Qed.
End MapSum.

Lemma size_of_nonneg e : 0 <= size_of e.
Proof.
  unfold size_of, text_size. assert (0 <= sumZ (fun '(key, values) => Z.of_nat (String.length key) +
    sumZ (fun s => Z.of_nat (String.length s)) values) (map_to_list (c_Header e))); [|lia].
  apply sumZ_nonneg. intros [k vs] _. assert (0 <= sumZ (fun s => Z.of_nat (String.length s)) vs); [|lia].
  apply sumZ_nonneg. intros; lia.
Qed.

Section CacheFacts.
Context `{MR : !MapRange}.
Variable sha256_hex : string -> string.
Variable cfg : Config.
Implicit Types m : Cache.
Notation store := (store sha256_hex cfg).
Notation make_entry := (make_entry sha256_hex cfg).

(** ** Accounting *)

Definition total m : Z := mapZ size_of (entries m).
(** What the recorded size is too large by. *)
Definition drift m : Z := size m - total m.
Definition keyed m : Prop := entries m !! "" = None.

Lemma count_size m : count m = base.size (entries m).
Proof. unfold count. by rewrite length_map_to_list. Qed.

Lemma remove_key_drift k m : drift (remove_key k m) = drift m.
Proof.
  unfold remove_key. destruct (entries m !! k) as [e|] eqn:E; [|done]. unfold drift, total. cbn.
  rewrite (mapZ_delete size_of k e (entries m) E). lia.
Qed.

Lemma remove_key_keyed k m : keyed m -> keyed (remove_key k m).
Proof. unfold remove_key, keyed. intros H. destruct (entries m !! k); [|done]. cbn. by rewrite lookup_delete_None; right. Qed.

Lemma remove_key_sub k m : entries (remove_key k m) ⊆ entries m.
Proof. unfold remove_key. destruct (entries m !! k); [apply delete_subseteq|done]. Qed.

Lemma remove_key_size k m : size (remove_key k m) <= size m.
Proof. unfold remove_key. destruct (entries m !! k) as [e|]; cbn; [pose proof (size_of_nonneg e)|]; lia. Qed.

Lemma evict_drift m : drift (evictOldest m) = drift m.
Proof. unfold evictOldest. case_bool_decide; [done|apply remove_key_drift]. Qed.
Lemma evict_keyed m : keyed m -> keyed (evictOldest m).
Proof. unfold evictOldest. case_bool_decide; [done|apply remove_key_keyed]. Qed.
Lemma evict_sub m : entries (evictOldest m) ⊆ entries m.
Proof. unfold evictOldest. case_bool_decide; [done|apply remove_key_sub]. Qed.
Lemma evict_size m : size (evictOldest m) <= size m.
Proof. unfold evictOldest. case_bool_decide; [lia|apply remove_key_size]. Qed.

(** The fold finds one of the keys. *)
Lemma oldest_elem l : (forall kv, kv ∈ l -> kv.1 <> "") -> l <> [] -> oldest l ∈ l.*1.
Proof.
  intros Hk Hne. unfold oldest.
  set (f := fun '(k, t) '(key, e) => if bool_decide (k = "") || (Timestamp e <? t) then (key, Timestamp e) else (k, t)).
  assert (forall l' (a : string * Z), (forall kv, kv ∈ l' -> kv.1 <> "") ->
    fst (foldl f a l') = fst a \/ fst (foldl f a l') ∈ l'.*1) as Hf.
  { induction l' as [|[k e] l' IH]; intros [k0 t0] Hl; [by left|]. cbn [foldl].
    destruct (IH (f (k0, t0) (k, e))) as [E|E]; [intros; apply Hl; by right| |right; by right].
    rewrite E. unfold f. destruct (_ || _); cbn; [right; left|by left]. }
  destruct l as [|[k e] l]; [done|]. cbn [foldl fmap list_fmap fst].
  replace (f ("", 0) (k, e)) with (k, Timestamp e) by done.
  destruct (Hf l (k, Timestamp e)) as [E|E]; [intros; apply Hk; by right|rewrite E; left|by right].
Qed.

Lemma evict_removes m : keyed m -> entries m <> ∅ -> S (count (evictOldest m)) = count m.
Proof.
  intros Hk Hne. unfold evictOldest. pose proof (map_range_perm (entries m)) as Hp.
  assert (oldest (map_range (entries m)) ∈ (map_range (entries m)).*1) as Hin.
  { apply oldest_elem.
    - intros [k e] Hkv. rewrite Hp in Hkv. apply elem_of_map_to_list in Hkv. cbn. intros ->. by rewrite Hk in Hkv.
    - intros E. rewrite E in Hp. apply Permutation_nil_l in Hp. symmetry in Hp. by apply map_to_list_empty_iff in Hp. }
  apply list_elem_of_fmap in Hin as ([k e] & -> & Hin). rewrite Hp in Hin. apply elem_of_map_to_list in Hin. cbn.
  rewrite bool_decide_false by (intros ->; by rewrite Hk in Hin). unfold remove_key. rewrite Hin. rewrite !count_size. cbn.
  rewrite <- (insert_delete_id (entries m) k e) at 2 by done. by rewrite map_size_insert_None by apply lookup_delete_eq.
Qed.

Lemma make_room_spec fuel need m : keyed m -> (count m <= fuel)%nat ->
  exists m', make_room cfg fuel need m = Some m' /\ keyed m' /\ drift m' = drift m /\ entries m' ⊆ entries m /\
    size m' <= size m /\ (size m' + need <= MaxSize cfg \/ entries m' = ∅).
Proof.
  revert m. induction fuel as [|fuel IH]; intros m Hk Hc; cbn [make_room];
    destruct (Z.ltb_spec (MaxSize cfg) (size m + need)); cbn [andb];
    try (eexists; split; [done|]; split_and!; [done..|lia|left; lia]);
    destruct (bool_decide_reflect (entries m = ∅)) as [E|E]; cbn [negb];
    try (eexists; split; [done|]; split_and!; [done..|lia|by right]).
  - exfalso. apply E. apply map_size_empty_inv. rewrite <- count_size. lia.
  - pose proof (evict_removes m Hk E). destruct (IH (evictOldest m)) as (m' & H1 & H2 & H3 & H4 & H5 & H6); [by apply evict_keyed|lia|].
    exists m'. pose proof (evict_size m). split_and!; [done|done| | |lia|done].
    + by rewrite H3, evict_drift.
    + etrans; [exact H4|apply evict_sub].
Qed.

Lemma insert_drift k e m : drift m <= drift (insert_entry k e m).
Proof.
  unfold drift, total, insert_entry. cbn. destruct (entries m !! k) as [e0|] eqn:E.
  - rewrite (mapZ_insert_old size_of k e0) by done. pose proof (size_of_nonneg e0). lia.
  - rewrite mapZ_insert_new by done. lia.
Qed.

Lemma insert_keyed k e m : k <> "" -> keyed m -> keyed (insert_entry k e m).
Proof. unfold keyed, insert_entry. cbn. intros. by rewrite lookup_insert_ne. Qed.

Lemma count_insert k e m : (count (insert_entry k e m) <= S (count m))%nat.
Proof.
  rewrite !count_size. unfold insert_entry. cbn. destruct (entries m !! k) as [e0|] eqn:E.
  - rewrite map_size_insert_Some by (by eexists). lia.
  - by rewrite map_size_insert_None.
Qed.

Lemma count_sub m m' : entries m' ⊆ entries m -> (count m' <= count m)%nat.
Proof. intros H. rewrite !count_size. by apply map_subseteq_size. Qed.

(** The cache as [store] sees it after the check of the number of entries. *)
Definition trimmed m : Cache :=
  if (0 <? MaxEntries cfg) && (MaxEntries cfg <=? Z.of_nat (count m)) then evictOldest m else m.

Lemma trimmed_spec m : keyed m -> 0 < MaxEntries cfg -> Z.of_nat (count m) <= MaxEntries cfg ->
  Z.of_nat (count (trimmed m)) < MaxEntries cfg.
Proof.
  intros Hk Hm Hc. unfold trimmed. rewrite (proj2 (Z.ltb_lt _ _)) by done. cbn [andb].
  destruct (Z.leb_spec (MaxEntries cfg) (Z.of_nat (count m))); [|lia].
  assert (entries m <> ∅) as Hne. { intros E. rewrite count_size, E, map_size_empty in *. lia. }
  pose proof (evict_removes m Hk Hne). lia.
Qed.

Lemma trimmed_keyed m : keyed m -> keyed (trimmed m).
Proof. unfold trimmed. destruct (_ && _); [apply evict_keyed|done]. Qed.
Lemma trimmed_drift m : drift (trimmed m) = drift m.
Proof. unfold trimmed. destruct (_ && _); [apply evict_drift|done]. Qed.
Lemma trimmed_sub m : entries (trimmed m) ⊆ entries m.
Proof. unfold trimmed. destruct (_ && _); [apply evict_sub|done]. Qed.
Lemma trimmed_size m : size (trimmed m) <= size m.
Proof. unfold trimmed. destruct (_ && _); [apply evict_size|lia]. Qed.

(** [store] either drops the answer, or adds it to what is left after it has made room. *)
Inductive stored (now : Z) (key : string) (rec : ResponseWriter) m : Cache -> Prop :=
  | stored_not m' : keyed m' -> drift m' = drift m -> entries m' ⊆ entries (trimmed m) -> size m' <= size m ->
      stored now key rec m m'
  | stored_new m' : keyed m' -> drift m' = drift m -> entries m' ⊆ entries (trimmed m) -> size m' <= size m ->
      (0 < MaxSize cfg -> size m' + size_of (make_entry now rec) <= MaxSize cfg) ->
      stored now key rec m (insert_entry key (make_entry now rec) m').

Lemma store_spec now key rec m : keyed m -> exists m', store now key rec m = Some m' /\ stored now key rec m m'.
Proof.
  intros Hk. unfold ResponseCache.store. fold (trimmed m). pose proof (trimmed_keyed m Hk) as Hk'.
  pose proof (trimmed_drift m). pose proof (trimmed_size m).
  destruct ((0 <? MaxSize cfg) && (MaxSize cfg <? text_size (w_body rec))); [eexists; split; [done|]; by apply stored_not|].
  destruct (Z.ltb_spec 0 (MaxSize cfg)); cbn [andb];
    [destruct (Z.ltb_spec (MaxSize cfg) (size (trimmed m) + size_of (make_entry now rec)))|];
    try (eexists; split; [done|]; apply stored_new; done || intros; lia).
  destruct (make_room_spec (count (trimmed m)) (size_of (make_entry now rec)) (trimmed m) Hk' (le_n _))
    as (m' & -> & R2 & R3 & R4 & R5 & R6). cbn [mbind option_bind].
  destruct (Z.ltb_spec (MaxSize cfg) (size m' + size_of (make_entry now rec))); eexists; (split; [done|]).
  - apply stored_not; [done|congruence|done|lia].
  - apply stored_new; [done|congruence|done|lia|lia].
Qed.

(** ** Histories *)

(** What happens to the cache: cacheable answers are stored, entries are purged, everything
    is cleared. *)
Inductive plain_step : Cache -> Cache -> Prop :=
  | step_store now r rec m m' : isCacheable cfg rec r = true -> KeyFunc cfg r <> "" ->
      store now (KeyFunc cfg r) rec m = Some m' -> plain_step m m'
  | step_purge prefix m : plain_step m (snd (Purge prefix m)).
Inductive cache_step : Cache -> Cache -> Prop :=
  | step_plain m m' : plain_step m m' -> cache_step m m'
  | step_clear m : cache_step m (Clear m).

Definition empty_cache : Cache := mkCache ∅ 0.
Definition reachable m : Prop := rtc cache_step empty_cache m.

Lemma purge_spec prefix m : keyed m -> let m' := snd (Purge prefix m) in
  keyed m' /\ drift m' = drift m /\ entries m' ⊆ entries m /\ size m' <= size m.
Proof.
  unfold Purge. cbn [snd]. generalize (List.filter (fun '(key, _) => HasPrefix key prefix) (map_to_list (entries m))).
  intros l. revert m. induction l as [|[k e] l IH]; intros m Hk; cbn [foldl]; [split_and!; done || lia|].
  destruct (IH (remove_key k m)) as (H1 & H2 & H3 & H4); [by apply remove_key_keyed|]. pose proof (remove_key_size k m).
  split_and!; [done|by rewrite H2, remove_key_drift|etrans; [exact H3|apply remove_key_sub]|lia].
Qed.

(** What holds of the cache at all times. *)
Record cache_ok m : Prop := {
  ok_keyed : keyed m;
  ok_drift : 0 <= drift m;
  ok_size : 0 < MaxSize cfg -> size m <= MaxSize cfg;
  ok_count : 0 < MaxEntries cfg -> Z.of_nat (count m) <= MaxEntries cfg
}.

Lemma stored_ok now key rec m m' : key <> "" -> cache_ok m -> stored now key rec m m' -> cache_ok m'.
Proof.
  intros Hkey [Hk Hd Hs Hc]. intros [m0 H1 H2 H3 H4|m0 H1 H2 H3 H4 H5].
  - split; [done|lia|lia|]. intros Hm. specialize (Hc Hm). pose proof (count_sub _ _ H3). pose proof (count_sub _ _ (trimmed_sub m)). lia.
  - split; [by apply insert_keyed| |cbn; lia|].
    + pose proof (insert_drift key (make_entry now rec) m0). lia.
    + intros Hm. pose proof (trimmed_spec m Hk Hm (Hc Hm)). pose proof (count_sub _ _ H3). pose proof (count_insert key (make_entry now rec) m0). lia.
Qed.

Lemma cache_step_ok m m' : cache_ok m -> cache_step m m' -> cache_ok m'.
Proof.
  intros Hok Hs. destruct Hs as [m m' [now r rec m1 m1' _ Hkey Hst|prefix m1]|m].
  - destruct (store_spec now (KeyFunc cfg r) rec m1 (ok_keyed _ Hok)) as (m0 & E & H0). rewrite E in Hst. injection Hst as ->.
    by eapply stored_ok.
  - destruct (purge_spec prefix m1 (ok_keyed _ Hok)) as (H1 & H2 & H3 & H4). destruct Hok as [Hk Hd Hz Hc].
    split; [done|lia|lia|]. pose proof (count_sub _ _ H3). lia.
  - split; cbn; [apply lookup_empty|unfold drift, total; cbn; rewrite mapZ_empty; lia|lia|]. rewrite count_size. cbn. rewrite map_size_empty. lia.
Qed.

Lemma reachable_ok m : reachable m -> cache_ok m.
Proof.
  intros Hr. assert (cache_ok empty_cache) as H0.
  { split; cbn; [apply lookup_empty|unfold drift, total; cbn; rewrite mapZ_empty; lia|lia|]. rewrite count_size. cbn. rewrite map_size_empty. lia. }
  induction Hr as [|x y z Hxy _ IH]; [done|]. apply IH. by eapply cache_step_ok.
Qed.

(** Whatever has been stored and purged, the next answer is stored in bounded time, and then
    the limits hold: at most [MaxEntries] answers, whose real sizes add up to no more than
    the recorded size, which is no more than [MaxSize]. *)
Theorem response_cache_bounded m now r rec
  (Hreach : reachable m) (Hrec : isCacheable cfg rec r = true) (Hkey : KeyFunc cfg r <> "") :
  exists m', store now (KeyFunc cfg r) rec m = Some m' /\
    total m' <= size m' /\
    (0 < MaxSize cfg -> size m' <= MaxSize cfg) /\
    (0 < MaxEntries cfg -> Z.of_nat (count m') <= MaxEntries cfg).
Proof.
  pose proof (reachable_ok m Hreach) as Hok. destruct (store_spec now (KeyFunc cfg r) rec m (ok_keyed _ Hok)) as (m' & E & Hst).
  exists m'. split; [done|]. destruct (stored_ok _ _ _ _ _ Hkey Hok Hst) as [_ Hd Hs Hc]. unfold drift in Hd. split_and!; [lia|done..].
Qed.

(** *** The recorded size drifts away *)

(** Storing an answer under a key that is still there, expired or not, adds its size without
    taking off that of the answer it replaces. *)
Lemma restore_drifts now key rec m e m' : keyed m -> 
  (MaxEntries cfg <= 0 \/ Z.of_nat (count m) < MaxEntries cfg) -> entries m !! key = Some e ->
  (MaxSize cfg <= 0 \/ (text_size (w_body rec) <= MaxSize cfg /\ size m + size_of (make_entry now rec) <= MaxSize cfg)) ->
  store now key rec m = Some m' -> drift m' = drift m + size_of e.
Proof.
  intros Hk Hc He Hs. unfold ResponseCache.store. fold (trimmed m).
  assert (trimmed m = m) as ->.
  { unfold trimmed. destruct Hc; [by rewrite (proj2 (Z.ltb_ge _ _))|]. rewrite (proj2 (Z.leb_gt _ _)) by done. by rewrite andb_false_r. }
  assert ((0 <? MaxSize cfg) && (MaxSize cfg <? text_size (w_body rec)) = false) as ->.
  { destruct Hs as [?|[? _]]; [by rewrite (proj2 (Z.ltb_ge _ _))|]. rewrite (proj2 (Z.ltb_ge (MaxSize cfg) _)) by done. by rewrite andb_false_r. }
  assert ((0 <? MaxSize cfg) && (MaxSize cfg <? size m + size_of (make_entry now rec)) = false) as ->.
  { destruct Hs as [?|[_ ?]]; [by rewrite (proj2 (Z.ltb_ge _ _))|]. rewrite (proj2 (Z.ltb_ge (MaxSize cfg) _)) by done. by rewrite andb_false_r. }
  intros [= <-]. unfold drift, total, insert_entry. cbn. rewrite (mapZ_insert_old size_of key e) by done. lia.
Qed.

Lemma plain_step_drift m m' : keyed m -> plain_step m m' -> keyed m' /\ drift m <= drift m'.
Proof.
  intros Hk Hs. destruct Hs as [now r rec m m' _ Hkey Hst|prefix m].
  - destruct (store_spec now (KeyFunc cfg r) rec m Hk) as (m0 & E & H0). rewrite E in Hst. injection Hst as ->.
    destruct H0 as [m0 H1 H2 _ _|m0 H1 H2 _ _ _]; [split; [done|lia]|]. split; [by apply insert_keyed|].
    pose proof (insert_drift (KeyFunc cfg r) (make_entry now rec) m0). lia.
  - destruct (purge_spec prefix m Hk) as (H1 & H2 & _). split; [done|lia].
Qed.

(** The drift never goes back as long as nobody clears the cache.  Once it has used up the
    limit, no answer of a given size is stored any more, however empty the cache is. *)
Theorem drift_wedges_cache m m' now key rec m''
  (Hk : keyed m) (Hlimit : 0 < MaxSize cfg)
  (Hfull : MaxSize cfg < drift m + size_of (make_entry now rec))
  (Hrun : rtc plain_step m m') (Hst : store now key rec m' = Some m'') :
  entries m'' ⊆ entries m'.
Proof.
  assert (keyed m' /\ drift m <= drift m') as [Hk' Hd].
  { clear Hfull Hst. induction Hrun as [x|x y z Hxy _ IH]; [split; [done|lia]|].
    destruct (plain_step_drift _ _ Hk Hxy) as [Hky Hdy]. destruct (IH Hky). split; [done|lia]. }
  destruct (store_spec now key rec m' Hk') as (m0 & E & H0). rewrite E in Hst. injection Hst as ->.
  destruct H0 as [m0 H1 H2 H3 H4|m0 H1 H2 H3 H4 H5]; [etrans; [exact H3|apply trimmed_sub]|].
  specialize (H5 Hlimit). assert (0 <= total m0) by (apply mapZ_nonneg, size_of_nonneg). unfold drift in *. lia.
Qed.

(** ** What is served *)

(** An entry is what [store] made of a cacheable recording, under the key of its request. *)
Definition recorded (key : string) (e : cachedResponse) : Prop :=
  exists r rec time, KeyFunc cfg r = key /\ isCacheable cfg rec r = true /\ e = make_entry time rec.

Lemma reachable_recorded m key e : reachable m -> entries m !! key = Some e -> recorded key e.
Proof.
  intros Hr. assert (keyed empty_cache) as Hk by apply lookup_empty. revert key e.
  assert (forall key e, entries empty_cache !! key = Some e -> recorded key e) as H0 by (intros k e; cbn; by rewrite lookup_empty).
  induction Hr as [|x y z Hxy _ IH]; [done|].
  assert (keyed y /\ forall key e, entries y !! key = Some e -> recorded key e) as [Hy1 Hy2]; [|by apply IH].
  assert (forall m, entries m ⊆ entries x -> forall key e, entries m !! key = Some e -> recorded key e) as Hsub.
  { intros m Hm k e He. by eapply H0, lookup_weaken. }
  destruct Hxy as [x y [now r rec x' y' Hrec Hkey Hst|prefix x']|x].
  - destruct (store_spec now (KeyFunc cfg r) rec x' Hk) as (m0 & E & Hm). rewrite E in Hst. injection Hst as ->.
    pose proof (trimmed_sub x') as Ht. destruct Hm as [m0 H1 _ H3 _|m0 H1 _ H3 _ _].
    + split; [done|]. apply Hsub. by etrans.
    + split; [by apply insert_keyed|]. intros k e. unfold insert_entry. cbn. rewrite lookup_insert_Some.
      intros [[<- <-]|[_ He]]; [by exists r, rec, now|]. eapply (Hsub m0); [by etrans|done].
  - destruct (purge_spec prefix x' Hk) as (H1 & _ & H3 & _). split; [done|]. by apply Hsub.
  - split; [apply lookup_empty|]. intros k e. cbn. by rewrite lookup_empty.
Qed.

Section Served.
Context {W : Type} `{!Clock W, !Part Cache W}.
Variable ParseTime : string -> option Z.
Notation serve := (serve sha256_hex ParseTime cfg).

(** An answer that does not come from the handler was recorded for a cacheable answer to a
    request with the same key, and has not expired. *)
Theorem cache_replays_recorded next r s w (Hreach : reachable (part s)) :
  (exists r0 rec time,
    KeyFunc cfg r0 = KeyFunc cfg r /\ isCacheable cfg rec r0 = true /\
    now s - time <= c_TTL (make_entry time rec) /\
    (serve next r s w = (Returned, s, serveFromCache (now s) r (make_entry time rec) w) \/
     (isNotModified ParseTime (now s) r (make_entry time rec) = true /\
      serve next r s w = (Returned, s, WriteHeader 304 w)))) \/
  (get (now s) (KeyFunc cfg r) (part s) = None /\
   forall s' rec, next r s fresh_writer = (Returned, s', rec) -> reachable (part s') -> KeyFunc cfg r <> "" ->
     exists s'', serve next r s w = (Returned, s'', writeResponse rec w) /\ reachable (part s'')).
Proof.
  unfold ResponseCache.serve. destruct (get (now s) (KeyFunc cfg r) (part s)) as [e|] eqn:E.
  - left. unfold get in E. destruct (entries (part s) !! KeyFunc cfg r) as [e0|] eqn:Ee; [|done]. cbn [mbind option_bind] in E.
    destruct (isExpired (now s) e0) eqn:Ex; [done|]. injection E as ->.
    destruct (reachable_recorded _ _ _ Hreach Ee) as (r0 & rec & time & Hkey & Hrec & ->).
    exists r0, rec, time. split_and!; [done..| |].
    + unfold isExpired in Ex. b2p. replace (Timestamp (make_entry time rec)) with time in Ex; [lia|].
      unfold ResponseCache.make_entry. by destruct (_ && _).
    + destruct (isNotModified _ _ _ _); [by right|by left].
  - right. split; [done|]. intros s' rec -> Hr Hkey. destruct (isCacheable cfg rec r) eqn:Hc; [|by exists s'].
    destruct (store_spec (now s') (KeyFunc cfg r) rec (part s') (ok_keyed _ (reachable_ok _ Hr))) as (m' & Em & _). rewrite Em.
    eexists. split; [done|]. rewrite part_set. eapply rtc_r; [exact Hr|]. apply step_plain. by eapply step_store.
Qed.
End Served.
End CacheFacts.

(** ** The default key *)

Lemma DefaultKeyFunc_nonempty r : DefaultKeyFunc r <> "".
Proof.
  unfold DefaultKeyFunc. assert (forall a b, a +:+ ":" +:+ b <> "") as H by (intros [] ?; done).
  repeat case_match; rewrite ?app_assoc_string; apply H.
Qed.

(** Requests for the same URL with the same [Accept] headers share their answers, whatever
    their host, their credentials and their range are. *)
Lemma default_key_same r r' :
  r_method r = r_method r' -> request_url r = request_url r' ->
  r_header r "Accept-Encoding" = r_header r' "Accept-Encoding" -> r_header r "Accept" = r_header r' "Accept" ->
  DefaultKeyFunc r = DefaultKeyFunc r'.
Proof. intros H1 H2 H3 H4. unfold DefaultKeyFunc. by rewrite H1, H2, H3, H4. Qed.

(** ** Examples *)

#[local] Instance demo_range : MapRange := gmap_range.
Definition demo_hex (s : string) : string := "0123456789abcdef0123".
Definition demo_date (s : string) : option Z := Atoi s.

Definition demo_config (limit : Z) : Config :=
  mkConfig true (minutes 5) limit 2 DefaultKeyFunc ["GET"] [200; 206] [] ∅ false false.

Record demo_world := mkWorld { dw_time : Z; dw_cache : Cache }.
#[local] Instance demo_clock : Clock demo_world := dw_time.
#[local] Program Instance demo_part : Part Cache demo_world := {|
  part := dw_cache;
  set_part c s := mkWorld (dw_time s) c
|}.
Next Obligation. done. Qed.
Next Obligation. by intros []. Qed.
Next Obligation. done. Qed.

Definition asks (path : string) : http_request := set_req (with_path path (r_req demo_request)) demo_request.
Definition says (header : headers) (text : string) : Handler demo_world := fun _ s _ =>
  (Returned, mkWorld (dw_time s) (dw_cache s), Write text (WriteHeader 200 (mkWriter header None ""))).
Definition later (d : Z) (s : demo_world) : demo_world := mkWorld (dw_time s + d) (dw_cache s).
Definition demo_serve (limit : Z) := Cache_Wrap demo_hex demo_date (demo_config limit).
Definition state_of (x : ending * demo_world * ResponseWriter) : demo_world := snd (fst x).
Definition new_world : demo_world := mkWorld 0 empty_cache.
Definition body_of (x : ending * demo_world * ResponseWriter) : Z * string := let '(code, _, b) := answer (snd x) in (code, b).

Definition recording (text : string) : ResponseWriter := Write text (WriteHeader 200 fresh_writer).

Lemma response_cache_bounded_witness : exists m',
  store demo_hex (demo_config 60) 5 (DefaultKeyFunc (asks "/b")) (recording "world") empty_cache = Some m' /\
    total m' <= size m' /\
    (0 < MaxSize (demo_config 60) -> size m' <= MaxSize (demo_config 60)) /\
    (0 < MaxEntries (demo_config 60) -> Z.of_nat (count m') <= MaxEntries (demo_config 60)).
Proof.
  apply (response_cache_bounded demo_hex (demo_config 60) empty_cache 5 (asks "/b") (recording "world"));
    [apply rtc_refl|vm_compute; reflexivity|vm_compute; discriminate].
Defined.

Lemma cache_replays_recorded_witness :
  (exists r0 rec time,
    KeyFunc (demo_config 60) r0 = KeyFunc (demo_config 60) (asks "/a") /\ isCacheable (demo_config 60) rec r0 = true /\
    now new_world - time <= c_TTL (make_entry demo_hex (demo_config 60) time rec) /\
    (serve demo_hex demo_date (demo_config 60) (says ∅ "x") (asks "/a") new_world fresh_writer =
       (Returned, new_world, serveFromCache (now new_world) (asks "/a") (make_entry demo_hex (demo_config 60) time rec) fresh_writer) \/
     (isNotModified demo_date (now new_world) (asks "/a") (make_entry demo_hex (demo_config 60) time rec) = true /\
      serve demo_hex demo_date (demo_config 60) (says ∅ "x") (asks "/a") new_world fresh_writer = (Returned, new_world, WriteHeader 304 fresh_writer)))) \/
  (get (now new_world) (KeyFunc (demo_config 60) (asks "/a")) (part new_world) = None /\
   forall s' rec, says ∅ "x" (asks "/a") new_world fresh_writer = (Returned, s', rec) ->
     reachable demo_hex (demo_config 60) (part s') -> KeyFunc (demo_config 60) (asks "/a") <> "" ->
     exists s'', serve demo_hex demo_date (demo_config 60) (says ∅ "x") (asks "/a") new_world fresh_writer =
       (Returned, s'', writeResponse rec fresh_writer) /\ reachable demo_hex (demo_config 60) (part s'')).
Proof. apply (cache_replays_recorded demo_hex (demo_config 60) demo_date (says ∅ "x") (asks "/a") new_world fresh_writer). apply rtc_refl. Defined.

(** One small page that is fetched again every time it expires uses up the limit; then a page
    that would fit is not cached any more, although the cache is all but empty. *)
Definition after_refreshes (n : nat) : demo_world :=
  Nat.iter n (fun s => later (minutes 6) (state_of (demo_serve 60 (says ∅ "hello") (asks "/a") s fresh_writer))) new_world.

Example refreshes_use_up_the_limit :
  let big := "a page of forty characters or a few more" in
  let fetch s := entries (dw_cache (state_of (demo_serve 60 (says ∅ big) (asks "/b") s fresh_writer))) !! DefaultKeyFunc (asks "/b") in
  drift (dw_cache (after_refreshes 3)) = 25 /\ bool_decide (is_Some (fetch new_world)) = true /\ fetch (after_refreshes 3) = None.
Proof. vm_compute. done. Qed.

(** Behind the priorities of the middlewares the cache answers before anybody asks for a
    token: what one client got with a token, the next one gets without. *)
Definition leaky_chain : Chain demo_world :=
  Use (CacheMiddleware demo_hex demo_date (demo_config 1000))
    (Use (JWTMiddleware demo_sum no_ed25519 demo_json demo_claims demo_jwt) NewChain).

Example cache_answers_before_authentication :
  let serve := fst (Then (says ∅ "account of alice") leaky_chain) in
  let s := state_of (serve demo_bearer new_world fresh_writer) in
  body_of (serve demo_request new_world fresh_writer) = (401, error_json "authorization header missing") /\
  body_of (serve demo_request (later 1 s) fresh_writer) = (200, "account of alice").
Proof. vm_compute. done. Qed.

(** A page of one virtual host is the answer for the same path on every other. *)
Example cache_mixes_hosts :
  let ask host := set_req (mkRequest "GET" host "" "/" ∅ [] []) demo_request in
  let s := state_of (demo_serve 1000 (says ∅ "page of a.example") (ask "a.example") new_world fresh_writer) in
  body_of (demo_serve 1000 (says ∅ "page of b.example") (ask "b.example") s fresh_writer) = (200, "page of a.example").
Proof. vm_compute. done. Qed.

(** A part of a page that was asked for with a range is served as the page. *)
Example partial_answer_replayed :
  let part : Handler demo_world := fun _ s _ => (Returned, s, Write "first" (WriteHeader 206 fresh_writer)) in
  let s := state_of (demo_serve 1000 part (with_header "Range" "bytes=0-4" (asks "/a")) new_world fresh_writer) in
  body_of (demo_serve 1000 (says ∅ "first and last") (asks "/a") s fresh_writer) = (206, "first").
Proof. vm_compute. done. Qed.

(** The directives are compared in lower case only, and an age of zero counts as none. *)
Example directives_misread :
  let header v := Header_Set "Cache-Control" v ∅ in
  let kept v := bool_decide (is_Some (entries (dw_cache (state_of (demo_serve 1000 (says (header v) "x") (asks "/a") new_world fresh_writer)))
    !! DefaultKeyFunc (asks "/a"))) in
  kept "private" = false /\ kept "Private" = true /\ kept "No-Store" = true /\ kept "max-age=0" = true.
Proof. vm_compute. done. Qed.

(** [If-Modified-Since] works the wrong way round: a client whose copy is older than the entry
    is told that nothing has changed, and one whose copy is newer gets the page again. *)
Example older_copy_not_modified :
  let r date := with_header "If-Modified-Since" date (asks "/a") in
  let e := make_entry demo_hex (demo_config 1000) 100 (recording "new") in
  isNotModified demo_date 150 (r "50") e = true /\ isNotModified demo_date 150 (r "120") e = false.
Proof. vm_compute. done. Qed.
