(* ===== verification/Coalesce.v ===== *)
(** * Request coalescing: [internal/middleware/coalesce/coalesce.go]

    Requests with the same key that arrive while one of them is being served wait for its
    answer.  A request becomes the leader of an entry of the table, joins an entry, or passes
    by when the table is full.  The entries are objects: the table, the leader and the
    waiters share them.  Critical sections are steps that interleave ([step]); a leader
    whose handler panics ends without a step of its own.  SHA-256 is a parameter. *)
From S2P Require Import Prelude Http Bytes NetIP NetAddr GoStrings GoEncoding Security Middleware.
From Stdlib Require Import Ascii.

(** ** Keys *)

(** The text that [DefaultKeyFunc] hashes; the host is not part of it. *)
Definition key_text (r : http_request) : string :=
  let add label header (key : string) : string :=
    let v := r_header r header in if bool_decide (v = "") then key else key +:+ label +:+ v in
  let key := r_method r +:+ "|" +:+ r_path r +:+ "|" +:+ r_rawquery r in
  let key := add "|cookie:" "Cookie" key in
  let key := add "|auth:" "Authorization" key in
  let key := add "|etag:" "If-None-Match" key in
  let key := add "|ims:" "If-Modified-Since" key in
  add "|accept:" "Accept" key.

Definition DefaultKeyFunc (sha256 : string -> string) (r : http_request) : string := hex_encode (sha256 (key_text r)).

Record Config := mkConfig { Enabled : bool; TTL : Z; MaxRequests : Z; ExcludePaths : list string }.

(** The defaults of [New]. *)
Definition New (c : Config) : Config :=
  mkConfig (Enabled c) (if TTL c =? 0 then 100 * 10 ^ 6 else TTL c) (if MaxRequests c <=? 0 then 5000 else MaxRequests c)
    (ExcludePaths c).

Definition maxInflightEntries : nat := 10000.

(** A recorded answer: status, headers, body. *)
Definition recorded : Type := Z * headers * string.

Record inflight := mkInflight { done : bool; response : option recorded; waiters : Z }.

(** The table holds the names of objects; [fresh] is the next name. *)
Record coalescer := mkCoalescer { table : gmap string nat; objects : gmap nat inflight; fresh : nat }.

Definition empty_coalescer : coalescer := mkCoalescer ∅ ∅ 0.

Definition object (m : coalescer) (id : nat) : inflight := default (mkInflight false None 0) (objects m !! id).
Definition set_object (id : nat) (f : inflight) (m : coalescer) : coalescer :=
  mkCoalescer (table m) (<[id := f]> (objects m)) (fresh m).

(** What becomes of a request. *)
Inductive role := Leader (id : nat) | Waiter (id : nat) | PassBy.

Definition create (key : string) (m : coalescer) : role * coalescer :=
  if (maxInflightEntries <=? base.size (table m))%nat then (PassBy, m)
  else (Leader (fresh m),
        mkCoalescer (<[key := fresh m]> (table m)) (<[fresh m := mkInflight false None 0]> (objects m)) (S (fresh m))).

Definition getOrCreateInflight (c : Config) (key : string) (m : coalescer) : role * coalescer :=
  match table m !! key with
  | Some id =>
      let f := object m id in
      if done f || ((0 <? MaxRequests c) && (MaxRequests c <=? waiters f)) then create key m
      else (Waiter id, set_object id (mkInflight (done f) (response f) (waiters f + 1)) m)
  | None => create key m
  end.

(** The end of [executeRequest]: the answer is there for the waiters. *)
Definition complete (id : nat) (a : recorded) (m : coalescer) : coalescer :=
  set_object id (mkInflight true (Some a) (waiters (object m id))) m.

(** The goroutine that tidies up after [TTL]: it deletes the key, whoever holds it by then. *)
Definition cleanup (key : string) (m : coalescer) : coalescer :=
  mkCoalescer (delete key (table m)) (objects m) (fresh m).

(** ** Answers *)

Definition set_cookie (key : string) : bool := bool_decide (fold_text key = "set-cookie").

Section Answers.
Context `{!MapRange}.

Definition serveFromInflight (r : http_request) (f : inflight) (w : ResponseWriter) : ResponseWriter :=
  match response f with
  | None => http_Error "Coalescing error" 500 w
  | Some (code, h, body) =>
      let w := on_header (fun h0 => foldl (fun h0 '(key, values) =>
        if set_cookie key then h0 else foldl (fun h0 v => Header_Add key v h0) h0 values) h0 (map_range h)) w in
      let w := WriteHeader code (set_header "X-Coalesced" "true" w) in
      if bool_decide (r_method r = "HEAD") then w else Write body w
  end.

Definition writeResponse (a : recorded) (w : ResponseWriter) : ResponseWriter :=
  let '(code, h, body) := a in
  let w := on_header (fun h0 => foldl (fun h0 '(key, values) => foldl (fun h0 v => Header_Add key v h0) h0 values) h0 (map_range h)) w in
  Write body (WriteHeader code (set_header "X-Coalesced" "false" w)).
End Answers.

(** The recording of [httptest]. *)
Definition recording_of (rec : ResponseWriter) : recorded :=
  (match w_sent rec with Some (code, _) => code | None => 200 end, w_header rec, w_body rec).

(** [Wrap] up to the table: whether a request is coalesced at all; [None] is a panic. *)
Definition coalesces (c : Config) (r : http_request) : option bool :=
  match excluded (ExcludePaths c) (r_path r) with
  | None => None
  | Some true => Some false
  | Some false => Some (Enabled c && (bool_decide (r_method r = "GET") || bool_decide (r_method r = "HEAD")))
  end.

(** ** Interleavings *)

(** Requests are numbered.  [leading] and [waiting] are those at work, [tidying] the keys of the
    goroutines that are yet to tidy up; [finished] notes what leaders answered and [served]
    what waiters got. *)
Record system := mkSystem {
  co : coalescer;
  leading : gmap nat (string * nat);
  waiting : gmap nat (string * nat);
  tidying : list string;
  finished : list (nat * string * recorded);
  served : list (nat * string * recorded)
}.

Definition start : system := mkSystem empty_coalescer ∅ ∅ [] [] [].

(** The number of a new request is not in use. *)
Definition unused (q : nat) (s : system) : Prop := leading s !! q = None /\ waiting s !! q = None.

Inductive step (c : Config) : system -> system -> Prop :=
  | step_lead q key id m s : unused q s -> getOrCreateInflight c key (co s) = (Leader id, m) ->
      step c s (mkSystem m (<[q := (key, id)]> (leading s)) (waiting s) (tidying s) (finished s) (served s))
  | step_join q key id m s : unused q s -> getOrCreateInflight c key (co s) = (Waiter id, m) ->
      step c s (mkSystem m (leading s) (<[q := (key, id)]> (waiting s)) (tidying s) (finished s) (served s))
  | step_finish q key id a s : leading s !! q = Some (key, id) ->
      step c s (mkSystem (complete id a (co s)) (delete q (leading s)) (waiting s) (key :: tidying s)
                  ((q, key, a) :: finished s) (served s))
  | step_panic q key id s : leading s !! q = Some (key, id) ->
      step c s (mkSystem (co s) (delete q (leading s)) (waiting s) (tidying s) (finished s) (served s))
  | step_serve q key id a s : waiting s !! q = Some (key, id) -> done (object (co s) id) = true ->
      response (object (co s) id) = Some a ->
      step c s (mkSystem (co s) (leading s) (delete q (waiting s)) (tidying s) (finished s) ((q, key, a) :: served s))
  | step_tidy key l1 l2 s : tidying s = l1 ++ key :: l2 ->
      step c s (mkSystem (cleanup key (co s)) (leading s) (waiting s) (l1 ++ l2) (finished s) (served s)).

(** ** Waiters get the answer of a leader with their key *)

(** Every object belongs to one key; its leader, if any, and its waiters asked for it.  An
    object is done exactly when it has an answer, and then a leader gave that answer. *)
Record coalesced_ok (owner : nat -> string) (s : system) : Prop := {
  co_fresh id : (fresh (co s) <= id)%nat -> objects (co s) !! id = None;
  co_table key id : table (co s) !! key = Some id -> owner id = key /\ (id < fresh (co s))%nat;
  co_leading q key id : leading s !! q = Some (key, id) -> owner id = key /\ (id < fresh (co s))%nat;
  co_waiting q key id : waiting s !! q = Some (key, id) -> owner id = key /\ (id < fresh (co s))%nat;
  co_answer id f a : objects (co s) !! id = Some f -> response f = Some a -> exists q, (q, owner id, a) ∈ finished s;
  co_served q key a : (q, key, a) ∈ served s -> exists q', (q', key, a) ∈ finished s
}.

Lemma object_response m id a : response (object m id) = Some a -> exists f, objects m !! id = Some f /\ response f = Some a.
Proof. unfold object. destruct (objects m !! id) as [f|]; [by exists f|done]. Qed.

(** The owner of a new object. *)
Definition give (owner : nat -> string) (id : nat) (key : string) (n : nat) : string := if (n =? id)%nat then key else owner n.

Lemma give_other owner id key n : (n < id)%nat -> give owner id key n = owner n.
Proof. intros H. unfold give. by rewrite (proj2 (Nat.eqb_neq _ _)) by lia. Qed.

Lemma give_same owner id key : give owner id key id = key.
Proof. unfold give. by rewrite Nat.eqb_refl. Qed.

Lemma create_ok owner s q key id m : coalesced_ok owner s -> create key (co s) = (Leader id, m) ->
  coalesced_ok (give owner id key)
    (mkSystem m (<[q := (key, id)]> (leading s)) (waiting s) (tidying s) (finished s) (served s)).
Proof.
  intros [H1 H2 H3 H4 H5 H6]. unfold create. destruct (_ <=? _)%nat; [done|]. intros [= <- <-].
  split; cbn [co table objects fresh leading waiting finished served].
  - intros id Hid. rewrite lookup_insert_ne by lia. apply H1. lia.
  - intros k id. rewrite lookup_insert_Some. intros [[<- <-]|[_ Hk]]; [rewrite give_same; split; [done|lia]|].
    destruct (H2 _ _ Hk). rewrite give_other by done. split; [done|lia].
  - intros q' k id. rewrite lookup_insert_Some. intros [[_ [= <- <-]]|[_ Hk]]; [rewrite give_same; split; [done|lia]|].
    destruct (H3 _ _ _ Hk). rewrite give_other by done. split; [done|lia].
  - intros q' k id Hk. destruct (H4 _ _ _ Hk). rewrite give_other by done. split; [done|lia].
  - intros id f a. rewrite lookup_insert_Some. intros [[_ <-]|[_ Hf]]; [done|]. intros Ha.
    assert (id < fresh (co s))%nat. { apply Nat.nle_gt. intros Hle. by rewrite H1 in Hf. }
    rewrite give_other by done. by eapply H5.
  - done.
Qed.

(** Changing an object without changing its answer. *)
Lemma update_ok owner s id f : coalesced_ok owner s -> (id < fresh (co s))%nat -> response f = response (object (co s) id) ->
  coalesced_ok owner (mkSystem (set_object id f (co s)) (leading s) (waiting s) (tidying s) (finished s) (served s)).
Proof.
  intros [H1 H2 H3 H4 H5 H6] Hid Hf. split; cbn [co set_object table objects fresh leading waiting finished served]; try done.
  - intros i Hi. rewrite lookup_insert_ne by lia. by apply H1.
  - intros i g a. rewrite lookup_insert_Some. intros [[<- <-]|[_ Hg]] Ha; [|by eapply H5].
    rewrite Hf in Ha. apply object_response in Ha as (g & Hg & Ha). by eapply H5.
Qed.

Lemma step_ok c owner s s' : coalesced_ok owner s -> step c s s' -> exists owner', coalesced_ok owner' s'.
Proof.
  intros Hok Hs. destruct Hs as [q key id m s _ E|q key id m s _ E|q key id a s Hq|q key id s Hq|q key id a s Hq Hd Ha|key l1 l2 s Ht].
  - exists (give owner id key). apply create_ok; [done|]. unfold getOrCreateInflight in E.
    destruct (table (co s) !! key) as [i|]; [|done]. by destruct (_ || _).
  - exists owner. unfold getOrCreateInflight in E. destruct (table (co s) !! key) as [i|] eqn:Et.
    2:{ unfold create in E. by destruct (_ <=? _)%nat. }
    destruct (_ || _); [unfold create in E; by destruct (_ <=? _)%nat|]. injection E as <- <-.
    destruct (co_table _ _ Hok _ _ Et) as [Ho Hi].
    pose proof (update_ok owner s i (mkInflight (done (object (co s) i)) (response (object (co s) i)) (waiters (object (co s) i) + 1))
      Hok Hi eq_refl) as [H1 H2 H3 H4 H5 H6].
    split; try done. intros q' k j. cbn [waiting co]. rewrite lookup_insert_Some. intros [[_ [= <- <-]]|[_ Hk]]; [done|by eapply H4].
  - exists owner. destruct Hok as [H1 H2 H3 H4 H5 H6]. destruct (H3 _ _ _ Hq) as [Ho Hi].
    split; cbn [co complete set_object table objects fresh leading waiting finished served].
    + intros i Hle. rewrite lookup_insert_ne by lia. by apply H1.
    + done.
    + intros q' k j. rewrite lookup_delete_Some. intros [_ Hk]. by eapply H3.
    + done.
    + intros i f b. rewrite lookup_insert_Some. intros [[<- <-]|[_ Hf]] Hb.
      * injection Hb as <-. exists q. rewrite Ho. left.
      * destruct (H5 _ _ _ Hf Hb) as [q' Hq']. exists q'. by right.
    + intros q' k b Hb. destruct (H6 _ _ _ Hb) as [q'' Hq'']. exists q''. by right.
  - exists owner. destruct Hok as [H1 H2 H3 H4 H5 H6]. split; cbn [co leading waiting finished served]; try done.
    intros q' k j. rewrite lookup_delete_Some. intros [_ Hk]. by eapply H3.
  - exists owner. destruct Hok as [H1 H2 H3 H4 H5 H6]. split; cbn [co leading waiting finished served]; try done.
    + intros q' k j. rewrite lookup_delete_Some. intros [_ Hk]. by eapply H4.
    + intros q' k b. rewrite elem_of_cons. intros [[= -> -> ->]|Hb]; [|by eapply H6].
      apply object_response in Ha as (f & Hf & Ha). destruct (H4 _ _ _ Hq) as [<- _]. by eapply H5.
  - exists owner. destruct Hok as [H1 H2 H3 H4 H5 H6]. split; cbn [co cleanup table objects fresh leading waiting finished served]; try done.
    intros k i. rewrite lookup_delete_Some. intros [_ Hk]. by eapply H2.
Qed.

Lemma start_ok : coalesced_ok (fun _ => "") start.
Proof. split; cbn; intros *; rewrite ?lookup_empty, ?elem_of_nil; done. Qed.

Lemma reachable_coalesced c s : rtc (step c) start s -> exists owner, coalesced_ok owner s.
Proof.
  intros Hr. assert (exists owner, coalesced_ok owner start) as H by (eexists; apply start_ok).
  induction Hr as [x|x y z Hxy _ IH]; [done|]. apply IH. destruct H as [owner H]. by eapply step_ok.
Qed.

(** C40: However requests, answers, panics and the tidying up interleave, a waiter is served
    nothing but the answer that some leader gave to a request with the same key. *)
Theorem coalesced_answer_of_same_key c s q key a
  (Hreach : rtc (step c) start s) (Hserved : (q, key, a) ∈ served s) :
  exists q', (q', key, a) ∈ finished s.
Proof. destruct (reachable_coalesced c s Hreach) as [owner Hok]. by eapply co_served. Qed.

(** ** A panic leaves the waiters behind *)

(** An object that is not done has at most one leader, one that is done has none. *)
Record leaders_ok (s : system) : Prop := {
  lo_unique q q' k k' id : leading s !! q = Some (k, id) -> leading s !! q' = Some (k', id) -> q = q';
  lo_running q k id : leading s !! q = Some (k, id) -> done (object (co s) id) = false /\ (id < fresh (co s))%nat
}.

Lemma object_set id i f m : object (set_object i f m) id = if decide (i = id) then f else object m id.
Proof. unfold object, set_object. cbn. destruct (decide (i = id)) as [->|]; [by rewrite lookup_insert_eq|by rewrite lookup_insert_ne]. Qed.

Lemma getOrCreate_cases c key m r m' : getOrCreateInflight c key m = (r, m') ->
  (exists id, table m !! key = Some id /\ done (object m id) = false /\ r = Waiter id /\
    m' = set_object id (mkInflight (done (object m id)) (response (object m id)) (waiters (object m id) + 1)) m) \/
  (r = Leader (fresh m) /\ m' = mkCoalescer (<[key := fresh m]> (table m))
    (<[fresh m := mkInflight false None 0]> (objects m)) (S (fresh m))) \/
  (r = PassBy /\ m' = m).
Proof.
  assert (create key m = (r, m') -> (r = Leader (fresh m) /\ m' = mkCoalescer (<[key := fresh m]> (table m))
    (<[fresh m := mkInflight false None 0]> (objects m)) (S (fresh m))) \/ (r = PassBy /\ m' = m)) as Hc.
  { unfold create. destruct (_ <=? _)%nat; intros [= <- <-]; [by right|by left]. }
  unfold getOrCreateInflight. destruct (table m !! key) as [id|] eqn:Et; [|intros H; right; by apply Hc].
  destruct (_ || _) eqn:E; [intros H; right; by apply Hc|]. intros [= <- <-]. left. exists id. apply orb_false_iff in E as [E _]. done.
Qed.

(** What a step does to the objects: a finished one stays so, and only its leader finishes it. *)
Lemma step_objects c s s' id : step c s s' -> (id < fresh (co s))%nat ->
  (id < fresh (co s'))%nat /\
  (done (object (co s') id) = done (object (co s) id) \/ exists q k, leading s !! q = Some (k, id)).
Proof.
  intros Hs Hid. destruct Hs as [q key i m s _ E|q key i m s _ E|q key i a s Hq|q key i s Hq|q key i a s Hq Hd Ha|key l1 l2 s Ht];
    cbn [co]; try (split; [done|by left]).
  - destruct (getOrCreate_cases _ _ _ _ _ E) as [(j & _ & _ & [=] & _)|[[_ ->]|[[=] _]]].
    cbn [fresh]. split; [lia|]. left. unfold object. cbn. by rewrite lookup_insert_ne by lia.
  - destruct (getOrCreate_cases _ _ _ _ _ E) as [(j & Hj & _ & _ & ->)|[[[=] _]|[[=] _]]].
    split; [done|]. left. rewrite object_set. destruct (decide (j = id)) as [->|]; done.
  - split; [done|]. unfold complete. rewrite object_set. destruct (decide (i = id)) as [->|]; [right; by exists q, key|by left].
Qed.

Lemma step_leaders c s s' : leaders_ok s -> step c s s' -> leaders_ok s'.
Proof.
  intros [Hu Hr] Hs. pose proof (fun id => step_objects c s s' id Hs) as Ho.
  assert (forall l', (forall q k id, l' !! q = Some (k, id) -> leading s !! q = Some (k, id)) ->
    (forall q k id, l' !! q = Some (k, id) -> done (object (co s') id) = false) -> l' = leading s' -> leaders_ok s') as Hsub.
  { intros l' H1 H2 ->. split; [intros q q' k k' id A B; eapply Hu; by apply H1|].
    intros q k id A. split; [by eapply H2|]. apply Ho. by eapply Hr, H1. }
  assert (forall q k id, leading s !! q = Some (k, id) -> leading s' !! q = Some (k, id) ->
    done (object (co s') id) = done (object (co s) id) -> done (object (co s') id) = false) as Hd.
  { intros q k id A _ ->. by eapply Hr. }
  destruct Hs as [q key i m s Hun E|q key i m s _ E|q key i a s Hq|q key i s Hq|q key i a s Hq Hdn Ha|key l1 l2 s Ht]; cbn [co leading] in *.
  - destruct (getOrCreate_cases _ _ _ _ _ E) as [(j & _ & _ & [=] & _)|[[[= ->] ->]|[[=] _]]]. clear Hsub Hd. split; cbn [co leading fresh].
    + intros q1 q2 k1 k2 id. rewrite !lookup_insert_Some. intros [[<- [= <- <-]]|[_ A]] [[<- B]|[_ B]]; [done|..].
      * destruct (Hr _ _ _ B). lia.
      * injection B as <- <-. destruct (Hr _ _ _ A). lia.
      * by eapply Hu.
    + intros q1 k1 id. unfold object. cbn. rewrite lookup_insert_Some. intros [[_ [= <- <-]]|[_ A]].
      * rewrite lookup_insert_eq. cbn. split; [done|lia].
      * destruct (Hr _ _ _ A) as [B ?]. rewrite lookup_insert_ne by lia. split; [done|lia].
  - apply (Hsub (leading s)); [done| |done]. intros q1 k1 id A. destruct (Hr _ _ _ A) as [B Hlt].
    destruct (getOrCreate_cases _ _ _ _ _ E) as [(j & _ & Hj & _ & ->)|[[[=] _]|[[=] _]]].
    rewrite object_set. by destruct (decide (j = id)) as [->|].
  - apply (Hsub (delete q (leading s))); [intros q1 k1 id; by rewrite lookup_delete_Some; intros [_ ?]| |done].
    intros q1 k1 id. rewrite lookup_delete_Some. intros [Hne A]. unfold complete. rewrite object_set.
    destruct (decide (i = id)) as [->|]; [by destruct Hne; eapply Hu|]. by eapply Hr.
  - apply (Hsub (delete q (leading s))); [intros q1 k1 id; by rewrite lookup_delete_Some; intros [_ ?]| |done].
    intros q1 k1 id. rewrite lookup_delete_Some. intros [_ A]. by eapply Hr.
  - apply (Hsub (leading s)); [done| |done]. intros q1 k1 id A. by eapply Hr.
  - apply (Hsub (leading s)); [done| |done]. intros q1 k1 id A. by eapply Hr.
Qed.

Lemma reachable_leaders c s : rtc (step c) start s -> leaders_ok s.
Proof.
  intros Hr. assert (leaders_ok start) as H by (split; cbn; intros *; by rewrite lookup_empty).
  induction Hr as [|x y z Hxy _ IH]; [done|]. apply IH. by eapply step_leaders.
Qed.

(** An object without a leader that is not done. *)
Definition stranded (id : nat) (s : system) : Prop :=
  (id < fresh (co s))%nat /\ done (object (co s) id) = false /\ forall q k, leading s !! q <> Some (k, id).

Lemma stranded_step c id s s' : stranded id s -> step c s s' -> stranded id s'.
Proof.
  intros (Hid & Hd & Hl) Hs. destruct (step_objects c s s' id Hs Hid) as [Hid' [Hd'|(q & k & Hq)]]; [|by destruct (Hl q k)].
  split; [done|]. split; [congruence|]. intros q0 k0.
  destruct Hs as [q key i m s _ E|q key i m s _ E|q key i a s Hq|q key i s Hq|q key i a s Hq Hdn Ha|key l1 l2 s Ht]; cbn [leading]; try apply Hl.
  - destruct (getOrCreate_cases _ _ _ _ _ E) as [(j & _ & _ & [=] & _)|[[[= ->] ->]|[[=] _]]].
    rewrite lookup_insert_Some. intros [[_ [= <- <-]]|[_ A]]; [lia|]. by apply (Hl q0 k0).
  - rewrite lookup_delete_Some. intros [_ A]. by apply (Hl q0 k0).
  - rewrite lookup_delete_Some. intros [_ A]. by apply (Hl q0 k0).
Qed.

Lemma stranded_waits c id s s' w key : stranded id s -> rtc (step c) s s' -> waiting s !! w = Some (key, id) -> waiting s' !! w = Some (key, id).
Proof.
  intros Hst Hr. revert Hst. induction Hr as [|x y z Hxy _ IH]; [done|]. intros Hst Hw.
  apply IH; [by eapply stranded_step|]. destruct Hst as (Hid & Hd & Hl).
  destruct Hxy as [q key' i m s Hun E|q key' i m s Hun E|q key' i a s Hq|q key' i s Hq|q key' i a s Hq Hdn Ha|key' l1 l2 s Ht]; cbn [waiting]; try done.
  - rewrite lookup_insert_ne; [done|]. intros ->. destruct Hun as [_ Hun]. by rewrite Hun in Hw.
  - rewrite lookup_delete_ne; [done|]. intros ->. rewrite Hq in Hw. injection Hw as -> ->. by rewrite Hd in Hdn.
Qed.

(** When the handler of a leader panics, every request that waits for its answer, and every one
    that joins it afterwards, waits for ever. *)
Theorem panic_strands_waiters c s s1 s2 q key id w k
  (Hreach : rtc (step c) start s) (Hleader : leading s !! q = Some (key, id))
  (Hpanic : s1 = mkSystem (co s) (delete q (leading s)) (waiting s) (tidying s) (finished s) (served s))
  (Hrun : rtc (step c) s1 s2) (Hwait : waiting s2 !! w = Some (k, id)) :
  forall s3, rtc (step c) s2 s3 -> waiting s3 !! w = Some (k, id).
Proof.
  destruct (reachable_leaders c s Hreach) as [Hu Hr]. destruct (Hr _ _ _ Hleader) as [Hd Hid].
  assert (stranded id s1) as Hst.
  { subst s1. split; [done|]. split; [done|]. intros q' k'. cbn [leading]. rewrite lookup_delete_Some. intros [Hne A].
    apply Hne. by eapply Hu. }
  assert (stranded id s2) as Hst2. { clear Hwait Hpanic. induction Hrun as [|x y z Hxy _ IH]; [done|]. apply IH. by eapply stranded_step. }
  intros s3 H3. by eapply stranded_waits.
Qed.

(** ** Examples *)

Definition demo_config : Config := New (mkConfig true 0 0 []).
Definition demo_answer : recorded := (200, ∅, "page").

Lemma coalesced_answer_of_same_key_witness :
  exists q', (q', "k", demo_answer) ∈ [(1%nat, "k", demo_answer)].
Proof.
  pose (m1 := snd (getOrCreateInflight demo_config "k" empty_coalescer)).
  pose (m2 := snd (getOrCreateInflight demo_config "k" m1)).
  apply (coalesced_answer_of_same_key demo_config
    (mkSystem (complete 0 demo_answer m2) (delete 1%nat (<[1%nat := ("k", 0%nat)]> ∅)) (delete 2%nat (<[2%nat := ("k", 0%nat)]> ∅)) ["k"]
       [(1%nat, "k", demo_answer)] [(2%nat, "k", demo_answer)]) 2 "k" demo_answer); [|left].
  eapply rtc_l; [apply (step_lead _ 1 "k" 0 m1); [done|vm_compute; reflexivity]|].
  eapply rtc_l; [apply (step_join _ 2 "k" 0 m2); [done|vm_compute; reflexivity]|].
  eapply rtc_l; [apply (step_finish _ 1 "k" 0 demo_answer); vm_compute; reflexivity|].
  eapply rtc_l; [apply (step_serve _ 2 "k" 0 demo_answer); vm_compute; reflexivity|]. apply rtc_refl.
Defined.

(** Requests for the same path of two virtual hosts have the same key. *)
Example key_ignores_host :
  let ask host := set_req (mkRequest "GET" host "" "/" ∅ [] []) demo_request in
  key_text (ask "a.example") = key_text (ask "b.example").
Proof. vm_compute. done. Qed.

(** The goroutine that tidies up after one leader removes the entry of the next: while that one
    is at work, a third request becomes a leader of its own. *)
Example tidying_removes_next_leader :
  let m1 := snd (getOrCreateInflight demo_config "k" empty_coalescer) in
  let m2 := complete 0 demo_answer m1 in
  let '(r, m3) := getOrCreateInflight demo_config "k" m2 in
  r = Leader 1 /\ fst (getOrCreateInflight demo_config "k" m3) = Waiter 1 /\
  fst (getOrCreateInflight demo_config "k" (cleanup "k" m3)) = Leader 2.
Proof. vm_compute. done. Qed.
