(* ===== verification/StaleCache.v ===== *)
(** * The cache with revalidation: [internal/middleware/cache.go]

    Answers are kept in order of use, up to a number of entries and a total size; an answer
    that has expired may be served for a while longer, while a goroutine fetches it anew.
    SHA-256 is a parameter; sizes do not wrap around.  The critical sections are functions
    on the cache; the set [revalidating] is part of it. *)
From S2P Require Import Prelude Http Bytes NetIP NetAddr GoStrings GoEncoding Security Middleware ResponseCacheFacts.
From Stdlib Require Import Ascii.

Record CacheConfig := mkConfig {
  MaxSize : Z; MaxEntries : Z; DefaultTTL : Z; MinResponseSize : Z; MaxResponseSize : Z;
  CacheableMethods : list string; CacheableStatuses : list Z; RespectCacheControl : bool;
  StaleWhileRevalidate : Z; CacheAuthenticatedRequests : bool
}.

Definition seconds (n : Z) : Z := n * 10 ^ 9.

Definition DefaultCacheConfig : CacheConfig :=
  mkConfig 104857600 10000 (seconds 300) 0 10485760 ["GET"; "HEAD"] [200; 301; 404] true (seconds 30) false.

(** The defaults of [NewCacheMiddleware]. *)
Definition resolve (c : CacheConfig) : CacheConfig :=
  let or_default x d := if x <=? 0 then d else x in
  mkConfig (or_default (MaxSize c) 104857600) (or_default (MaxEntries c) 10000) (or_default (DefaultTTL c) (seconds 300))
    (MinResponseSize c) (or_default (MaxResponseSize c) 10485760)
    (if bool_decide (CacheableMethods c = []) then ["GET"; "HEAD"] else CacheableMethods c)
    (if bool_decide (CacheableStatuses c = []) then [200; 301; 404] else CacheableStatuses c)
    (RespectCacheControl c) (Z.max 0 (StaleWhileRevalidate c)) (CacheAuthenticatedRequests c).

Record CachedResponse := mkCached {
  StatusCode : Z; Headers : headers; Body : string; CachedAt : Z; TTL : Z; Stale : bool
}.

Definition Expired (now : Z) (e : CachedResponse) : bool := TTL e <? now - CachedAt e.

(** [order] has the most recently used key first; [ent_size] is the length of the body. *)
Record cacheEntry := mkEntry { ent_response : CachedResponse; ent_size : Z }.
Record CacheMiddleware := mkCache {
  entries : gmap string cacheEntry; order : list string; currentSize : Z; currentCount : Z;
  revalidating : gset string; hits : Z; misses : Z
}.

Definition NewCache : CacheMiddleware := mkCache ∅ [] 0 0 ∅ 0 0.

(** ** Cache-Control *)

Record cacheDirectives := mkDirectives { noCache : bool; noStore : bool; private : bool; maxAge : Z; sMaxAge : Z }.
Definition no_directives : cacheDirectives := mkDirectives false false false 0 0.

Definition directive_age (digits : string) (old : Z) : Z :=
  match Atoi digits with
  | Some n => if 0 <=? n then i64 (n * 10 ^ 9) else old
  | None => old
  end.

Definition directive (d : cacheDirectives) (part : string) : cacheDirectives :=
  let lower := lower_text (TrimSpace part) in
  if bool_decide (lower = "no-cache") then mkDirectives true (noStore d) (private d) (maxAge d) (sMaxAge d)
  else if bool_decide (lower = "no-store") then mkDirectives (noCache d) true (private d) (maxAge d) (sMaxAge d)
  else if bool_decide (lower = "private") then mkDirectives (noCache d) (noStore d) true (maxAge d) (sMaxAge d)
  else if HasPrefix lower "s-maxage=" then
    mkDirectives (noCache d) (noStore d) (private d) (maxAge d) (directive_age (TrimPrefix lower "s-maxage=") (sMaxAge d))
  else if HasPrefix lower "max-age=" then
    mkDirectives (noCache d) (noStore d) (private d) (directive_age (TrimPrefix lower "max-age=") (maxAge d)) (sMaxAge d)
  else d.

Definition parseCacheControl (value : string) : cacheDirectives :=
  if bool_decide (value = "") then no_directives else foldl directive no_directives (Split "," value).

(** ** Keys *)

(** [strings.ToUpper] on ASCII, for the names of methods. *)
Fixpoint ToUpper (s : string) : string :=
  match s with
  | EmptyString => EmptyString
  | String c r => String (to_upper c) (ToUpper r)
  end.

(** [sort.Strings], by insertion. *)
Fixpoint insert_string (x : string) (l : list string) : list string :=
  match l with
  | [] => [x]
  | y :: r => if String.leb x y then x :: l else y :: insert_string x r
  end.
Definition sort_strings (l : list string) : list string := foldr insert_string [] l.

(** The names in the query, each once, and the values of a name. *)
Definition query_keys (q : list (string * string)) : list string := sort_strings (elements (list_to_set q.*1 : gset string)).
Definition query_values (q : list (string * string)) (k : string) : list string :=
  snd <$> List.filter (fun '(name, _) => bool_decide (name = k)) q.

(** The text that [CacheKey] hashes. *)
Definition key_text (r : http_request) : string :=
  let q := Query (r_req r) in
  let query := foldr (fun k acc => foldr (fun v acc => k +:+ "=" +:+ v +:+ "&" +:+ acc) acc (sort_strings (query_values q k)))
                 "" (query_keys q) in
  let auth := r_header r "Authorization" in
  r_method r +:+ "|" +:+ Host (r_req r) +:+ "|" +:+ r_path r +:+ "|" +:+ query +:+
    (if bool_decide (auth = "") then "" else String "000" ("auth=" +:+ auth)).

Definition CacheKey (sha256 : string -> string) (r : http_request) : string := hex_encode (sha256 (key_text r)).

(** ** The order of use *)

(** The first occurrence of [key] is taken out. *)
Fixpoint remove_first (key : string) (l : list string) : list string :=
  match l with
  | [] => []
  | k :: r => if bool_decide (k = key) then r else k :: remove_first key r
  end.

Definition with_order (o : list string) (m : CacheMiddleware) : CacheMiddleware :=
  mkCache (entries m) o (currentSize m) (currentCount m) (revalidating m) (hits m) (misses m).

Definition promoteKey (key : string) (m : CacheMiddleware) : CacheMiddleware :=
  if bool_decide (key ∈ order m) then with_order (key :: remove_first key (order m)) m else m.

Definition removeFromOrder (key : string) (m : CacheMiddleware) : CacheMiddleware :=
  with_order (remove_first key (order m)) m.

Definition drop_entry (key : string) (e : cacheEntry) (m : CacheMiddleware) : CacheMiddleware :=
  mkCache (delete key (entries m)) (order m) (currentSize m - ent_size e) (currentCount m - 1) (revalidating m) (hits m) (misses m).

Definition removeKeyLocked (key : string) (m : CacheMiddleware) : CacheMiddleware :=
  match entries m !! key with
  | Some e => removeFromOrder key (drop_entry key e m)
  | None => m
  end.

Definition evictOldestLocked (m : CacheMiddleware) : CacheMiddleware :=
  match last (order m) with
  | None => m
  | Some oldest =>
      let m := with_order (take (length (order m) - 1) (order m)) m in
      match entries m !! oldest with
      | Some e => drop_entry oldest e m
      | None => m
      end
  end.

(** The loops [for cond && len(c.order) > 0]: one round per key of the order. *)
Fixpoint evict_while (fuel : nat) (full : CacheMiddleware -> bool) (m : CacheMiddleware) : CacheMiddleware :=
  match fuel with
  | O => m
  | S fuel => if full m && negb (bool_decide (order m = [])) then evict_while fuel full (evictOldestLocked m) else m
  end.
Definition evict_until (full : CacheMiddleware -> bool) (m : CacheMiddleware) : CacheMiddleware :=
  evict_while (length (order m)) full m.

(** ** Operations *)

Inductive CacheStatus := CacheHit | CacheMiss | CacheStale.

Definition add_hit (m : CacheMiddleware) : CacheMiddleware :=
  mkCache (entries m) (order m) (currentSize m) (currentCount m) (revalidating m) (hits m + 1) (misses m).
Definition add_miss (m : CacheMiddleware) : CacheMiddleware :=
  mkCache (entries m) (order m) (currentSize m) (currentCount m) (revalidating m) (hits m) (misses m + 1).

Section Operations.
Variable cfg : CacheConfig.

Definition get (now : Z) (key : string) (m : CacheMiddleware) : option (CachedResponse * CacheStatus) * CacheMiddleware :=
  match entries m !! key with
  | None => (None, m)
  | Some e =>
      let resp := ent_response e in
      if negb (Expired now resp) then (Some (resp, CacheHit), add_hit (promoteKey key m))
      else if now <? CachedAt resp + TTL resp + StaleWhileRevalidate cfg then
        (Some (mkCached (StatusCode resp) (Headers resp) (Body resp) (CachedAt resp) (TTL resp) true, CacheStale),
         add_hit (promoteKey key m))
      else (None, removeKeyLocked key m)
  end.

Definition put (key : string) (resp : CachedResponse) (m : CacheMiddleware) : CacheMiddleware :=
  let size := Z.of_nat (String.length (Body resp)) in
  let m := match entries m !! key with
           | Some old => removeFromOrder key (mkCache (entries m) (order m) (currentSize m - ent_size old) (currentCount m - 1)
                           (revalidating m) (hits m) (misses m))
           | None => m
           end in
  let m := evict_until (fun m => MaxEntries cfg <=? currentCount m) m in
  let m := evict_until (fun m => MaxSize cfg <? currentSize m + size) m in
  mkCache (<[key := mkEntry resp size]> (entries m)) (key :: order m) (currentSize m + size) (currentCount m + 1)
    (revalidating m) (hits m) (misses m).

Definition Purge (key : string) (m : CacheMiddleware) : bool * CacheMiddleware :=
  match entries m !! key with None => (false, m) | Some _ => (true, removeKeyLocked key m) end.

Definition PurgeAll (m : CacheMiddleware) : CacheMiddleware := mkCache ∅ [] 0 0 (revalidating m) (hits m) (misses m).

Definition determineTTL (cc : string) : Z :=
  if negb (RespectCacheControl cfg) then DefaultTTL cfg
  else
    let d := parseCacheControl cc in
    if noStore d then 0
    else if 0 <? sMaxAge d then sMaxAge d
    else if 0 <? maxAge d then maxAge d
    else DefaultTTL cfg.

Definition isRequestCacheable (r : http_request) : bool :=
  bool_decide (r_method r ∈ ToUpper <$> CacheableMethods cfg) &&
  (CacheAuthenticatedRequests cfg || bool_decide (r_header r "Authorization" = "")) &&
  (negb (RespectCacheControl cfg) ||
   let d := parseCacheControl (r_header r "Cache-Control") in negb (noStore d) && negb (noCache d)).

(** What the capturer saw: the status it was told, the live headers, the body. *)
Definition captured_code (rec : ResponseWriter) : Z := match w_sent rec with Some (code, _) => code | None => 200 end.

Definition stored_response (now : Z) (rec : ResponseWriter) : option CachedResponse :=
  let cc := Header_Get (w_header rec) "Cache-Control" in
  let size := Z.of_nat (String.length (w_body rec)) in
  let ttl := determineTTL cc in
  if negb (bool_decide (captured_code rec ∈ CacheableStatuses cfg)) then None
  else if (size <? MinResponseSize cfg) || (MaxResponseSize cfg <? size) then None
  else if ttl <=? 0 then None
  else if RespectCacheControl cfg && (noStore (parseCacheControl cc) || private (parseCacheControl cc)) then None
  else if negb (bool_decide (Header_Values (w_header rec) "Set-Cookie" = [])) then None
  else
    let h := Header_Del "Transfer-Encoding" (Header_Del "Keep-Alive" (Header_Del "Connection" (w_header rec))) in
    Some (mkCached (captured_code rec) h (w_body rec) now ttl false).

Definition maybeCacheResponse (now : Z) (key : string) (rec : ResponseWriter) (m : CacheMiddleware) : CacheMiddleware :=
  match stored_response now rec with
  | Some resp => put key resp m
  | None => m
  end.

(** [LoadOrStore] before the goroutine starts, and the end of the goroutine; [None]: the handler
    panicked. *)
Definition begin_revalidate (key : string) (m : CacheMiddleware) : bool * CacheMiddleware :=
  if bool_decide (key ∈ revalidating m) then (false, m)
  else (true, mkCache (entries m) (order m) (currentSize m) (currentCount m) ({[key]} ∪ revalidating m) (hits m) (misses m)).
Definition end_revalidate (now : Z) (key : string) (rec : option ResponseWriter) (m : CacheMiddleware) : CacheMiddleware :=
  let m := match rec with Some rec => maybeCacheResponse now key rec m | None => m end in
  mkCache (entries m) (order m) (currentSize m) (currentCount m) (revalidating m ∖ {[key]}) (hits m) (misses m).
End Operations.

(** ** The middleware *)

Section Handler.
Context `{!MapRange} {W : Type} `{!Clock W, !Part CacheMiddleware W}.
Variable sha256 : string -> string.
Variable cfg : CacheConfig.

Definition status_text (st : CacheStatus) : string :=
  match st with CacheHit => "HIT" | CacheMiss => "MISS" | CacheStale => "STALE" end.

Definition serveCached (now : Z) (e : CachedResponse) (st : CacheStatus) (w : ResponseWriter) : ResponseWriter :=
  let w := on_header (fun h => foldl (fun h '(k, vs) => foldl (fun h v => Header_Add k v h) h vs) h (map_range (Headers e))) w in
  let w := set_header "X-Cache" (status_text st) w in
  let w := set_header "Age" (Itoa (Z.max 0 (Z.quot (now - CachedAt e) (10 ^ 9)))) w in
  let w := WriteHeader (StatusCode e) w in
  if bool_decide (Body e = "") then w else Write (Body e) w.

(** The capturer writes through to the client; the handler sees the client's header map. *)
Definition forward (rec w : ResponseWriter) : ResponseWriter :=
  mkWriter (w_header rec) (match w_sent w with Some x => Some x | None => w_sent rec end) (w_body w +:+ w_body rec).

(** A stale answer starts a goroutine, whose end is the later event [end_revalidate]. *)
Definition Cache_Wrap (next : Handler W) : Handler W := fun r s w =>
  if negb (isRequestCacheable cfg r) then next r s (set_header "X-Cache" "MISS" w)
  else
    let key := CacheKey sha256 r in
    match get cfg (now s) key (part s) with
    | (Some (e, st), m) =>
        let m := match st with CacheStale => snd (begin_revalidate key m) | _ => m end in
        (Returned, set_part m s, serveCached (now s) e st w)
    | (None, m) =>
        match next r (set_part (add_miss m) s) (mkWriter (w_header w) None "") with
        | (Panicked, s, rec) => (Panicked, s, forward rec w)
        | (Returned, s, rec) =>
            (Returned, set_part (maybeCacheResponse cfg (now s) key rec (part s)) s,
             set_header "X-Cache" "MISS" (forward rec w))
        end
    end.
End Handler.

(** ** The cache is consistent and bounded *)

Definition total (m : CacheMiddleware) : Z := mapZ ent_size (entries m).

(** Map, order and counters agree. *)
Record cache_ok (m : CacheMiddleware) : Prop := {
  ok_nodup : NoDup (order m);
  ok_keys key : key ∈ order m <-> is_Some (entries m !! key);
  ok_size : currentSize m = total m;
  ok_count : currentCount m = Z.of_nat (length (order m));
  ok_sizes key e : entries m !! key = Some e -> ent_size e = Z.of_nat (String.length (Body (ent_response e)))
}.

Lemma remove_first_elem k x l : NoDup l -> x ∈ remove_first k l <-> x ∈ l /\ x <> k.
Proof.
  induction 1 as [|y l Hy Hn IH]; cbn; [set_solver|]. case_bool_decide as E; [subst; set_solver|]. rewrite !elem_of_cons, IH. set_solver.
Qed.

Lemma remove_first_nodup k l : NoDup l -> NoDup (remove_first k l).
Proof.
  induction 1 as [|y l Hy Hn IH]; cbn; [constructor|]. case_bool_decide; [done|]. constructor; [|done]. rewrite remove_first_elem by done. by intros [? _].
Qed.

Lemma remove_first_length k l : k ∈ l -> length l = S (length (remove_first k l)).
Proof.
  induction l as [|y l IH]; [by intros ?%elem_of_nil|]. cbn. case_bool_decide as E; [done|]. intros [->|Hk]%elem_of_cons; [done|].
  cbn. by rewrite IH.
Qed.

Lemma remove_first_none k l : k ∉ l -> remove_first k l = l.
Proof. induction l as [|y l IH]; [done|]. intros H. cbn. rewrite bool_decide_false by set_solver. rewrite IH by set_solver. done. Qed.

Lemma promote_ok key m : cache_ok m -> cache_ok (promoteKey key m).
Proof.
  intros [H1 H2 H3 H4 H5]. unfold promoteKey. case_bool_decide as Hk; [|by split]. split; cbn; try done.
  - constructor; [rewrite remove_first_elem by done; by intros [_ ?]|by apply remove_first_nodup].
  - intros k. rewrite elem_of_cons, remove_first_elem by done. rewrite <- H2. destruct (decide (k = key)) as [->|]; tauto.
  - rewrite H4. rewrite (remove_first_length key (order m)) by done. done.
Qed.

Lemma drop_ok key e m o : cache_ok m -> entries m !! key = Some e -> NoDup o ->
  (forall k, k ∈ o <-> k ∈ order m /\ k <> key) -> length (order m) = S (length o) -> cache_ok (with_order o (drop_entry key e m)).
Proof.
  intros [H1 H2 H3 H4 H5] He Hn Ho Hl. split; cbn; [done|..].
  - intros k. rewrite Ho, H2. destruct (decide (k = key)) as [->|Hne]; [rewrite lookup_delete_eq|rewrite lookup_delete_ne by done]; [|tauto].
    split; [by intros [_ ?]|by intros [? ?]].
  - rewrite H3. unfold total. cbn. rewrite (mapZ_delete ent_size key e (entries m) He). lia.
  - lia.
  - intros k e'. rewrite lookup_delete_Some. intros [_ Hk]. by eapply H5.
Qed.

Lemma remove_ok key m : cache_ok m -> cache_ok (removeKeyLocked key m).
Proof.
  intros Hok. pose proof Hok as [H1 H2 H3 H4 H5]. unfold removeKeyLocked. destruct (entries m !! key) as [e|] eqn:E; [|done].
  apply drop_ok; [done..|by apply remove_first_nodup|intros k; by apply remove_first_elem|].
  apply remove_first_length. apply H2. by rewrite E.
Qed.

Lemma order_last (m : CacheMiddleware) x : last (order m) = Some x ->
  order m = take (length (order m) - 1) (order m) ++ [x].
Proof. intros [l ->]%last_Some. rewrite length_app. cbn. by rewrite Nat.add_sub, take_app_length. Qed.

Lemma evict_oldest_ok m : cache_ok m -> cache_ok (evictOldestLocked m).
Proof.
  intros Hok. pose proof Hok as [H1 H2 H3 H4 H5]. unfold evictOldestLocked. destruct (last (order m)) as [x|] eqn:El; [|done].
  pose proof (order_last m x El) as Eo. set (o := take _ _) in *. cbn [entries with_order].
  assert (is_Some (entries m !! x)) as [e E] by (apply H2; rewrite Eo; set_solver). rewrite E.
  change (drop_entry x e (with_order o m)) with (with_order o (drop_entry x e m)).
  rewrite Eo in H1. apply NoDup_app in H1 as (Ho & Hx & _). apply drop_ok; try done.
  - intros k. rewrite Eo. rewrite elem_of_app, list_elem_of_singleton. split; [intros Hk; split; [by left|]; intros ->; by apply (Hx x Hk); left|].
    intros [[?| ->] ?]; done.
  - rewrite Eo at 1. rewrite length_app. cbn. lia.
Qed.

Lemma evict_while_spec full n m : cache_ok m -> (length (order m) <= n)%nat ->
  cache_ok (evict_while n full m) /\ entries (evict_while n full m) ⊆ entries m /\
  (full (evict_while n full m) = false \/ order (evict_while n full m) = []).
Proof.
  revert m. induction n as [|n IH]; intros m Hok Hn; cbn [evict_while].
  - split; [done|]. split; [done|]. right. destruct (order m); [done|cbn in Hn; lia].
  - destruct (full m) eqn:Ef; cbn [andb]; [|by split; [|split; [|left]]].
    destruct (bool_decide_reflect (order m = [])) as [E|E]; cbn [negb]; [by split; [|split; [|right]]|].
    assert (length (order (evictOldestLocked m)) <= n /\ entries (evictOldestLocked m) ⊆ entries m)%nat as [Hl Hs].
    { unfold evictOldestLocked. destruct (last (order m)) as [x|] eqn:El; [|apply last_None in El; done].
      cbn [entries with_order]. destruct (entries m !! x); cbn; rewrite length_take; (split; [lia|]); [apply delete_subseteq|done]. }
    destruct (IH (evictOldestLocked m)) as (A & B & C); [by apply evict_oldest_ok|done|]. split; [done|]. split; [by etrans|done].
Qed.

(** A key that is in the map but no longer in the order, as in the middle of [put]. *)
Definition forget (key : string) (m : CacheMiddleware) : CacheMiddleware :=
  mkCache (delete key (entries m)) (order m) (currentSize m) (currentCount m) (revalidating m) (hits m) (misses m).

Lemma forget_evict key m : key ∉ order m -> forget key (evictOldestLocked m) = evictOldestLocked (forget key m).
Proof.
  intros Hk. unfold evictOldestLocked, forget. cbn. destruct (last (order m)) as [x|] eqn:El; [|done]. cbn.
  assert (x <> key) as Hx. { intros ->. apply Hk. rewrite (order_last m key El). set_solver. }
  rewrite lookup_delete_ne by done. destruct (entries m !! x); cbn; [|done]. by rewrite delete_delete.
Qed.

Lemma evict_order m : order (evictOldestLocked m) = take (length (order m) - 1) (order m).
Proof.
  unfold evictOldestLocked. destruct (last (order m)) as [x|] eqn:El; [|apply last_None in El; by rewrite El].
  cbn. by destruct (entries m !! x).
Qed.

Lemma forget_evict_while key full n m : key ∉ order m -> (forall m, full (forget key m) = full m) ->
  forget key (evict_while n full m) = evict_while n full (forget key m) /\ key ∉ order (evict_while n full m).
Proof.
  intros Hk Hf. revert m Hk. induction n as [|n IH]; intros m Hk; cbn [evict_while]; [done|]. rewrite Hf. cbn [forget order].
  destruct (full m && _); [|done]. rewrite <- forget_evict by done. apply IH. rewrite evict_order. intros H. by apply elem_of_take in H as (i & H & _); apply list_elem_of_lookup_2 in H.
Qed.

(** What [put] does with its own key first. *)
Definition without (key : string) (m : CacheMiddleware) : CacheMiddleware :=
  match entries m !! key with
  | Some old => removeFromOrder key (mkCache (entries m) (order m) (currentSize m - ent_size old) (currentCount m - 1)
                  (revalidating m) (hits m) (misses m))
  | None => m
  end.

Lemma without_spec key m : cache_ok m -> cache_ok (forget key (without key m)) /\ key ∉ order (without key m).
Proof.
  intros Hok. pose proof Hok as [H1 H2 H3 H4 H5]. unfold without. destruct (entries m !! key) as [e|] eqn:E.
  - pose proof (remove_ok key m Hok) as Hr. unfold removeKeyLocked in Hr. rewrite E in Hr. split; [exact Hr|].
    cbn. rewrite remove_first_elem by done. by intros [_ ?].
  - assert (forget key m = m) as ->. { unfold forget. rewrite delete_id by done. by destruct m. } split; [done|].
    rewrite H2, E. by intros [? ?].
Qed.

Section Bounds.
Variable cfg : CacheConfig.
Implicit Types m : CacheMiddleware.

Definition body_size (e : CachedResponse) : Z := Z.of_nat (String.length (Body e)).

Lemma put_spec key resp m : cache_ok m -> 0 < MaxEntries cfg ->
  exists m', cache_ok m' /\ entries m' !! key = None /\ entries m' ⊆ entries m /\ currentCount m' < MaxEntries cfg /\
    (currentSize m' + body_size resp <= MaxSize cfg \/ entries m' = ∅) /\
    put cfg key resp m = mkCache (<[key := mkEntry resp (body_size resp)]> (entries m')) (key :: order m')
      (currentSize m' + body_size resp) (currentCount m' + 1) (revalidating m') (hits m') (misses m').
Proof.
  intros Hok Hmax. unfold put. fold (without key m). fold (body_size resp). destruct (without_spec key m Hok) as [Hw Hn].
  assert (entries (forget key (without key m)) ⊆ entries m) as Hs0.
  { unfold forget, without. destruct (entries m !! key); cbn; apply delete_subseteq. }
  set (m1 := without key m) in *. unfold evict_until.
  set (f1 := fun m => MaxEntries cfg <=? currentCount m). set (f2 := fun m => MaxSize cfg <? currentSize m + body_size resp).
  set (m2 := evict_while (length (order m1)) f1 m1).
  destruct (forget_evict_while key f1 (length (order m1)) m1 Hn (fun _ => eq_refl)) as [F1 N1]. fold m2 in F1, N1.
  destruct (evict_while_spec f1 (length (order m1)) (forget key m1) Hw (le_n _)) as (A1 & B1 & C1). rewrite <- F1 in A1, B1, C1.
  set (m3 := evict_while (length (order m2)) f2 m2).
  destruct (forget_evict_while key f2 (length (order m2)) m2 N1 (fun _ => eq_refl)) as [F2 N2]. fold m3 in F2, N2.
  destruct (evict_while_spec f2 (length (order m2)) (forget key m2) A1 (le_n _)) as (A2 & B2 & C2). rewrite <- F2 in A2, B2, C2.
  exists (forget key m3). split; [done|]. split; [cbn; by rewrite lookup_delete_eq|]. split; [etrans; [exact B2|etrans; [exact B1|done]]|].
  assert (order (forget key m3) = [] -> entries (forget key m3) = ∅) as He.
  { intros E. apply map_eq. intros k. rewrite lookup_empty. destruct (entries (forget key m3) !! k) as [e|] eqn:Ek; [|done].
    assert (k ∈ order (forget key m3)) as Hin by (apply (ok_keys _ A2); by rewrite Ek). rewrite E in Hin. by apply elem_of_nil in Hin. }
  split_and!.
  - assert (currentCount (forget key m3) <= currentCount (forget key m2)) as Hle.
    { rewrite (ok_count _ A2), (ok_count _ A1). pose proof (map_subseteq_size _ _ B2).
      assert (forall m, cache_ok m -> length (order m) = base.size (entries m)) as Hl.
      { intros m0 [O1 O2 _ _ _]. assert (order m0 ≡ₚ (map_to_list (entries m0)).*1) as Hp.
        { apply NoDup_Permutation; [done|apply NoDup_fst_map_to_list|]. intros k. rewrite O2. split.
          - intros [e Hk]. apply list_elem_of_fmap. exists (k, e). split; [done|]. by apply elem_of_map_to_list.
          - intros ([k' e] & -> & Hk)%list_elem_of_fmap. apply elem_of_map_to_list in Hk. by eexists. }
        by rewrite Hp, length_fmap, length_map_to_list. }
      rewrite (Hl _ A2), (Hl _ A1). lia. }
    destruct C1 as [C1|C1].
    + apply Z.leb_gt in C1. change (currentCount (forget key m2) < MaxEntries cfg) in C1. lia.
    + assert (currentCount (forget key m2) = 0) as E0 by (rewrite (ok_count _ A1), C1; done). change (currentCount (forget key m3) < MaxEntries cfg). rewrite E0 in Hle. lia.
  - destruct C2 as [C2|C2]; [left|right; by apply He]. unfold f2 in C2. apply Z.ltb_ge in C2. exact C2.
  - unfold forget. cbn. by rewrite insert_delete_eq.
Qed.

Lemma put_ok key resp m : cache_ok m -> 0 < MaxEntries cfg -> cache_ok (put cfg key resp m).
Proof.
  intros Hok Hmax. destruct (put_spec key resp m Hok Hmax) as (m' & [H1 H2 H3 H4 H5] & Hn & _ & _ & _ & ->).
  assert (key ∉ order m') as Hk by (rewrite H2, Hn; by intros [? ?]). split; cbn.
  - by constructor.
  - intros k. rewrite elem_of_cons, H2, lookup_insert_is_Some'. naive_solver.
  - rewrite H3. unfold total. cbn. rewrite mapZ_insert_new by done. cbn. lia.
  - lia.
  - intros k e. rewrite lookup_insert_Some. intros [[<- <-]|[_ Hk']]; [done|by eapply H5].
Qed.

(** *** Reachable caches *)

Inductive cache_step : CacheMiddleware -> CacheMiddleware -> Prop :=
  | step_get now key m : cache_step m (snd (get cfg now key m))
  | step_miss m : cache_step m (add_miss m)
  | step_store now key rec m : cache_step m (maybeCacheResponse cfg now key rec m)
  | step_purge key m : cache_step m (snd (Purge key m))
  | step_purge_all m : cache_step m (PurgeAll m)
  | step_begin key m : cache_step m (snd (begin_revalidate key m))
  | step_end now key rec m : cache_step m (end_revalidate cfg now key rec m).

(** What may be stored, by the status, the size, the lifetime and the headers. *)
Record storable (e : CachedResponse) : Prop := {
  st_status : StatusCode e ∈ CacheableStatuses cfg;
  st_size : MinResponseSize cfg <= body_size e <= MaxResponseSize cfg;
  st_ttl : 0 < TTL e;
  st_cookie : Header_Values (Headers e) "Set-Cookie" = [];
  st_hop : Header_Values (Headers e) "Connection" = [] /\ Header_Values (Headers e) "Transfer-Encoding" = [];
  st_private : RespectCacheControl cfg = true ->
    let d := parseCacheControl (Header_Get (Headers e) "Cache-Control") in noStore d = false /\ private d = false
}.

Record bounded_ok m : Prop := {
  b_ok : cache_ok m;
  b_count : currentCount m <= MaxEntries cfg;
  b_size : MaxResponseSize cfg <= MaxSize cfg -> currentSize m <= MaxSize cfg;
  b_storable key e : entries m !! key = Some e -> storable (ent_response e)
}.

Lemma Header_Values_del k k' h : CanonicalMIMEHeaderKey k <> CanonicalMIMEHeaderKey k' ->
  Header_Values (Header_Del k h) k' = Header_Values h k'.
Proof. intros Hne. unfold Header_Values, Header_Del. by rewrite lookup_delete_ne by done. Qed.

Lemma Header_Values_deleted k h : Header_Values (Header_Del k h) k = [].
Proof. unfold Header_Values, Header_Del. by rewrite lookup_delete_eq. Qed.

Lemma Header_Get_del k k' h : CanonicalMIMEHeaderKey k <> CanonicalMIMEHeaderKey k' ->
  Header_Get (Header_Del k h) k' = Header_Get h k'.
Proof. intros Hne. unfold Header_Get, Header_Del. by rewrite lookup_delete_ne by done. Qed.

Lemma stored_storable now rec e : stored_response cfg now rec = Some e -> storable e.
Proof.
  unfold stored_response. case_bool_decide as Hst; [cbn [negb]|done]. destruct ((_ <? _) || _) eqn:Hsize; [done|].
  destruct (_ <=? 0) eqn:Httl; [done|]. destruct (RespectCacheControl cfg && _) eqn:Hcc; [done|].
  case_bool_decide as Hck; [cbn [negb]|done]. intros [= <-]. apply orb_false_iff in Hsize as [S1 S2].
  apply Z.ltb_ge in S1, S2. apply Z.leb_gt in Httl. split; cbn [StatusCode Headers Body TTL]; try done.
  - rewrite !Header_Values_del by (by vm_compute). done.
  - split; [rewrite !Header_Values_del by (by vm_compute)|]; apply Header_Values_deleted.
  - intros Hr. rewrite Hr in Hcc. cbn in Hcc. apply orb_false_iff in Hcc. rewrite !Header_Get_del by (by vm_compute). done.
Qed.

Lemma bounded_same m m' : bounded_ok m -> entries m' = entries m -> order m' = order m -> currentSize m' = currentSize m ->
  currentCount m' = currentCount m -> bounded_ok m'.
Proof.
  intros [[H1 H2 H3 H4 H5] B1 B2 B3] E1 E2 E3 E4. split; [split|..]; unfold total in *; rewrite ?E1, ?E2, ?E3, ?E4; done.
Qed.

Lemma bounded_less m m' : bounded_ok m -> cache_ok m' -> entries m' ⊆ entries m -> currentSize m' <= currentSize m ->
  currentCount m' <= currentCount m -> bounded_ok m'.
Proof.
  intros [H1 B1 B2 B3] Hok Hs Hz Hc. split; [done|lia|intros Hm; specialize (B2 Hm); lia|].
  intros k e Hk. eapply B3. by eapply lookup_weaken.
Qed.

Lemma remove_bounded key m : bounded_ok m -> bounded_ok (removeKeyLocked key m).
Proof.
  intros Hb. pose proof (b_ok _ Hb) as Hok. eapply bounded_less; [done|by apply remove_ok|..]; unfold removeKeyLocked;
    destruct (entries m !! key) as [e|] eqn:E; cbn; try done; try lia; [apply delete_subseteq|].
  pose proof (ok_sizes _ Hok _ _ E). lia.
Qed.

Lemma promote_bounded key m : bounded_ok m -> bounded_ok (promoteKey key m).
Proof.
  intros Hb. eapply bounded_less; [done|apply promote_ok, Hb|..]; unfold promoteKey; case_bool_decide; cbn; done || lia.
Qed.

Lemma put_bounded key resp m : 0 < MaxEntries cfg -> storable resp -> bounded_ok m -> bounded_ok (put cfg key resp m).
Proof.
  intros Hmax Hst [Hok B1 B2 B3]. pose proof (put_ok key resp m Hok Hmax) as Hok'.
  destruct (put_spec key resp m Hok Hmax) as (m' & Hm' & Hn & Hsub & Hc & Hs & E). rewrite E in *. split; [done|cbn; lia|..].
  - intros Hz. cbn. destruct Hs as [Hs|Hs]; [done|]. assert (currentSize m' = 0) as ->; [|pose proof (st_size _ Hst); lia].
    rewrite (ok_size _ Hm'). unfold total. rewrite Hs. apply mapZ_empty.
  - intros k e. cbn. rewrite lookup_insert_Some. intros [[<- <-]|[_ Hk]]; [done|]. eapply B3. by eapply lookup_weaken.
Qed.

Lemma store_bounded now key rec m : 0 < MaxEntries cfg -> bounded_ok m -> bounded_ok (maybeCacheResponse cfg now key rec m).
Proof.
  intros Hmax Hb. unfold maybeCacheResponse. destruct (stored_response cfg now rec) as [e|] eqn:E; [|done].
  apply put_bounded; [done| |done]. by eapply stored_storable.
Qed.

Lemma new_bounded : 0 < MaxEntries cfg -> 0 < MaxSize cfg -> bounded_ok NewCache.
Proof.
  intros P1 P2. split; [split|..]; cbn; try done; try lia; [constructor|]. intros k. rewrite lookup_empty.
  split; [by intros ?%elem_of_nil|by intros [? ?]].
Qed.

Lemma step_bounded m m' : 0 < MaxEntries cfg -> 0 < MaxSize cfg -> cache_step m m' -> bounded_ok m -> bounded_ok m'.
Proof.
  intros Hmax Hms Hs Hb. destruct Hs as [now key m|m|now key rec m|key m|m|key m|now key rec m].
  - unfold get. destruct (entries m !! key) as [e|]; [|done]. destruct (negb _); [|case_match; [|by apply remove_bounded]];
      (eapply bounded_same; [by apply (promote_bounded key)|done..]).
  - by eapply bounded_same.
  - by apply store_bounded.
  - unfold Purge. destruct (entries m !! key); [by apply remove_bounded|done].
  - eapply bounded_same; [by apply new_bounded|done..].
  - unfold begin_revalidate. case_bool_decide; [done|]. by eapply bounded_same.
  - unfold end_revalidate. destruct rec as [rec|]; [apply (bounded_same (maybeCacheResponse cfg now key rec m))|apply (bounded_same m)]; try done; by apply store_bounded.
Qed.

End Bounds.

Lemma resolve_positive c : 0 < MaxEntries (resolve c) /\ 0 < MaxSize (resolve c).
Proof. cbn. split; destruct (Z.leb_spec (MaxEntries c) 0), (Z.leb_spec (MaxSize c) 0); lia. Qed.


(** ** Examples *)

#[local] Instance stale_range : MapRange := gmap_range.
Record stale_world := mkStaleWorld { sw_time : Z; sw_cache : CacheMiddleware }.
#[local] Instance stale_clock : Clock stale_world := sw_time.
#[local] Program Instance stale_part : Part CacheMiddleware stale_world := {|
  part := sw_cache;
  set_part c s := mkStaleWorld (sw_time s) c
|}.
Next Obligation. done. Qed.
Next Obligation. by intros []. Qed.
Next Obligation. done. Qed.

Definition plain_key (s : string) : string := s.
Definition answering (h : headers) (text : string) : Handler stale_world := fun _ s w =>
  (Returned, s, Write text (WriteHeader 200 (on_header (fun _ => h) w))).
Definition stale_serve (h : headers) (text : string) (r : http_request) (s : stale_world) :=
  Cache_Wrap plain_key DefaultCacheConfig (answering h text) r s fresh_writer.
Definition stale_asks (query : list (string * string)) : http_request :=
  set_req (mkRequest "GET" "a.example" "" "/" ∅ [] query) demo_request.
Definition new_stale_world : stale_world := mkStaleWorld 0 NewCache.

Definition recorded_answer (h : headers) (text : string) : ResponseWriter := Write text (WriteHeader 200 (mkWriter h None "")).
Definition two_pages : CacheMiddleware :=
  maybeCacheResponse (resolve DefaultCacheConfig) 5 "b" (recorded_answer ∅ "second")
    (maybeCacheResponse (resolve DefaultCacheConfig) 0 "a" (recorded_answer ∅ "first") NewCache).


(** A lifetime of zero seconds counts as none given: the answer is kept for the default time. *)
Example zero_lifetime_kept :
  let h := Header_Set "Cache-Control" "max-age=0" ∅ in
  let m := sw_cache (snd (fst (stale_serve h "x" (stale_asks []) new_stale_world))) in
  (fun e => TTL (ent_response e)) <$> entries m !! CacheKey plain_key (stale_asks []) = Some (seconds 300).
Proof. vm_compute. done. Qed.

(** The header that marks a miss is set after the answer went out: only a hit shows it. *)
Example miss_header_not_sent :
  let '(_, s, w) := stale_serve ∅ "x" (stale_asks []) new_stale_world in
  let '(_, _, w') := stale_serve ∅ "x" (stale_asks []) s in
  ((fun '(_, h) => Header_Get h "X-Cache") <$> w_sent w) = Some "" /\
  ((fun '(_, h) => Header_Get h "X-Cache") <$> w_sent w') = Some "HIT".
Proof. vm_compute. done. Qed.

(** The values of the query are joined as they are: one value with [&b=2] in it is the same as
    two, and what was answered to one request goes out to the other. *)
Example cache_key_confuses_queries :
  key_text (stale_asks [("a", "1&b=2")]) = key_text (stale_asks [("a", "1"); ("b", "2")]) /\
  (let '(_, s, _) := stale_serve ∅ "page of one" (stale_asks [("a", "1&b=2")]) new_stale_world in
   w_body (snd (stale_serve ∅ "page of two" (stale_asks [("a", "1"); ("b", "2")]) s))) = "page of one".
Proof. vm_compute. done. Qed.

(** An answer ten seconds past its time may still be served when a goroutine fetches it; while
    that one is at work, no other is started. *)
Example one_revalidation_at_a_time :
  let cfg := resolve DefaultCacheConfig in
  let m := maybeCacheResponse cfg 0 "a" (recorded_answer ∅ "old") NewCache in
  let later := seconds 310 in
  (fun '(e, st) => (Body e, Stale e, st)) <$> fst (get cfg later "a" m) = Some ("old", true, CacheStale) /\
  fst (begin_revalidate "a" m) = true /\ fst (begin_revalidate "a" (snd (begin_revalidate "a" m))) = false /\
  (fun '(e, st) => (Body e, st)) <$>
    fst (get cfg later "a" (end_revalidate cfg later "a" (Some (recorded_answer ∅ "new")) (snd (begin_revalidate "a" m)))) = Some ("new", CacheHit).
Proof. vm_compute. done. Qed.
