(* ===== verification/ClientAddress.v ===== *)
(** * The address of the client: [middleware/realip], [middleware/real_ip.go]

    Behind a proxy the peer of a connection is not the client.  The middleware [realip]
    replaces the remote address of requests of trusted peers by an address from a header and
    wipes the headers of all others; the older [real_ip.go], which nothing registers, leaves
    the address it finds in the context.  The address filter, which decides by the remote
    address, appears here as a handler that runs behind them. *)
From S2P Require Import Prelude Http Bytes NetIP NetAddr GoStrings CIDR IPAccess GoEncoding Security Middleware.
From Stdlib Require Import Ascii.

Definition set_remote (addr : string) (r : http_request) : http_request :=
  mkHttpRequest (r_req r) (r_rawpath r) (r_rawquery r) addr (r_tls r) (r_body r) (r_length r) (r_limit r) (r_ctx r).
Definition on_request_header (f : headers -> headers) (r : http_request) : http_request :=
  set_req (with_headers (f (Header (r_req r))) (r_req r)) r.

(** The host of an address with or without a port. *)
Definition host_part (addr : string) : string := match SplitHostPort addr with Some (h, _) => h | None => addr end.

(** ** The middleware [realip] *)

Module RealIP.

Record Config := mkConfig {
  Enabled : bool; Headers : list string; TrustedProxies : list string; RejectUntrusted : bool; DefaultTrusted : list string
}.

Definition private_ranges : list string :=
  ["10.0.0.0/8"; "172.16.0.0/12"; "192.168.0.0/16"; "127.0.0.0/8"; "fc00::/7"; "::1/128"].

Definition DefaultConfig : Config :=
  mkConfig false
    ["CF-Connecting-IP"; "X-Real-IP"; "X-Forwarded-For"; "X-Original-Forwarded-For"; "True-Client-IP"; "X-Client-IP";
     "X-Forwarded"; "Forwarded-For"] [] false private_ranges.

(** [New]: the trusted networks; entries that do not parse are skipped. *)
Definition New (c : Config) : list IPNet :=
  let defaults := if bool_decide (TrustedProxies c = []) && bool_decide (DefaultTrusted c = [])
                  then private_ranges else DefaultTrusted c in
  omap (fun cidr => snd <$> ParseCIDR cidr) (if bool_decide (TrustedProxies c = []) then defaults else TrustedProxies c).

Definition isTrustedProxy (nets : list IPNet) (remoteAddr : string) : bool :=
  match ParseIP (host_part remoteAddr) with
  | None => false
  | Some ip => existsb (fun n => Contains n ip) nets
  end.

(** [strings.Trim] by one character. *)
Fixpoint trim_front (c : ascii) (s : string) : string :=
  match s with String a r => if Ascii.eqb a c then trim_front c r else s | EmptyString => EmptyString end.
Fixpoint trim_back (c : ascii) (s : string) : string :=
  match s with
  | String a r => let r := trim_back c r in if Ascii.eqb a c && bool_decide (r = EmptyString) then EmptyString else String a r
  | EmptyString => EmptyString
  end.
Definition Trim (c : ascii) (s : string) : string := trim_back c (trim_front c s).

Definition parses (s : string) : bool := bool_decide (is_Some (ParseIP s)).

Definition forwarded_part (part : string) : option string :=
  let part := TrimSpace part in
  if HasPrefix part "for=" then
    let ip := Trim "034" (TrimPrefix part "for=") in
    let ip := if HasPrefix ip "[" then
                match LastIndex "]" ip with Some i => string_drop 1 (string_take i ip) | None => ip end
              else ip in
    if parses ip then Some ip else None
  else None.

(** The first result of a list of attempts. *)
Fixpoint first_of {A B} (f : A -> option B) (l : list A) : option B :=
  match l with [] => None | x :: l => match f x with Some y => Some y | None => first_of f l end end.

Definition parseForwardedHeader (value : string) : string := default "" (first_of forwarded_part (Split ";" value)).

Definition header_address (r : http_request) (header : string) : option string :=
  let value := r_header r header in
  if bool_decide (value = "") then None
  else if bool_decide (header = "X-Forwarded-For") || bool_decide (header = "X-Original-Forwarded-For") then
    List.find parses (TrimSpace <$> Split "," value)
  else if bool_decide (header = "Forwarded") then
    let ip := parseForwardedHeader value in if bool_decide (ip = "") then None else Some ip
  else
    let ip := TrimSpace value in if parses ip then Some ip else None.

Definition extractRealIP (c : Config) (r : http_request) : string := default "" (first_of (header_address r) (Headers c)).

Definition forward_peer (c : Config) (r : http_request) : http_request :=
  let realIP := extractRealIP c r in
  if bool_decide (realIP = "") then r
  else
    let addr := match SplitHostPort (r_remote r) with Some (_, port) => JoinHostPort realIP port | None => realIP end in
    on_request_header (Header_Set "X-Real-IP" realIP) (set_remote addr (WithValue "original_ip" (CtxText (r_remote r)) r)).

Definition wipe (c : Config) (h : headers) : headers := foldl (fun h header => Header_Del header h) h (Headers c).
Definition untrusted_peer (c : Config) (r : http_request) : http_request :=
  on_request_header (fun h => Header_Set "X-Real-IP" (host_part (r_remote r)) (wipe c h)) r.

Definition Wrap {W} (c : Config) (nets : list IPNet) (next : Handler W) : Handler W :=
  if negb (Enabled c) then next
  else fun r s w =>
    let trusted := isTrustedProxy nets (r_remote r) in
    if negb trusted && RejectUntrusted c then (Returned, s, http_Error "Untrusted proxy" 403 w)
    else next (if trusted then forward_peer c r else untrusted_peer c r) s w.

Definition RealIPMiddleware {W} (c : Config) : Middleware W := mkMiddleware "realip" 15 (Wrap c (New c)) None.
End RealIP.

(** ** The older middleware *)

Module OldRealIP.

Record RealIPConfig := mkConfig { TrustedProxies : list string; Header : string; RealIPHeader : string }.
Record RealIPMiddleware := mkRealIP { config : RealIPConfig; trusted : CIDRMatcher }.

Definition NewRealIPMiddleware (c : RealIPConfig) : option RealIPMiddleware :=
  let or_default x d := if bool_decide (x = "") then d else x in
  cm ← foldl (fun acc cidr => acc ≫= Add cidr) (Some NewCIDRMatcher) (TrustedProxies c);
  Some (mkRealIP (mkConfig (TrustedProxies c) (or_default (Header c) "X-Forwarded-For") (or_default (RealIPHeader c) "X-Real-Ip")) cm).

Definition parseXForwardedFor (value : string) : list string :=
  if bool_decide (value = "") then []
  else List.filter (fun ip => negb (bool_decide (ip = ""))) (TrimSpace <$> Split "," value).

Definition extractClientIP (m : RealIPMiddleware) (r : http_request) : string :=
  let remoteIP := ExtractIP (r_remote r) in
  if (CIDR.Len (trusted m) =? 0) || negb (Matcher_Contains remoteIP (trusted m)) then remoteIP
  else
    let ips := parseXForwardedFor (r_header r (Header (config m))) in
    match List.find (fun ip => negb (Matcher_Contains (TrimSpace ip) (trusted m))) (rev ips) with
    | Some ip => TrimSpace ip
    | None =>
        match ips with
        | ip :: _ => TrimSpace ip
        | [] =>
            let realIP := r_header r (RealIPHeader (config m)) in
            if bool_decide (realIP = "") then remoteIP else TrimSpace realIP
        end
    end.

Definition RealIP_Wrap {W} (m : RealIPMiddleware) (next : Handler W) : Handler W := fun r s w =>
  next (WithValue "client_ip" (CtxText (extractClientIP m r)) r) s w.
End OldRealIP.

(** ** The address filter as a handler *)

Definition IPFilter_Wrap {W} (m : IPFilter.IPFilterMiddleware) (next : Handler W) : Handler W := fun r s w =>
  if IPFilter.isAllowed (IPFilter.extractClientIP (r_remote r) (r_req r) m) m then next r s w
  else (Returned, s, http_Error "Forbidden" 403 w).

Definition IPFilterMW {W} (m : IPFilter.IPFilterMiddleware) : Middleware W := mkMiddleware "ip-filter" 100 (IPFilter_Wrap m) None.

(** ** Addresses *)

Definition address_char (c : ascii) : Prop := is_Some (NetIP.hex_digit c) \/ c = ":"%char \/ c = "."%char.

Lemma digit_is_hex c : is_digit c = true -> is_Some (NetIP.hex_digit c).
Proof. intros H. unfold NetIP.hex_digit. rewrite H. by eexists. Qed.

Lemma byte_char c d : byte_of c = byte_of d -> c = d.
Proof. intros H. rewrite <- (char_of_byte c), <- (char_of_byte d). by rewrite H. Qed.

Lemma parseIPv4Fields_chars s val n pd fields q : parseIPv4Fields s val n pd fields = Some q -> all_chars address_char s.
Proof.
  revert val n pd fields. induction s as [|c s IH]; intros val n pd fields; [done|]. cbn [parseIPv4Fields all_chars].
  destruct (is_digit c) eqn:Hd.
  - case_match; [done|]. case_match; [done|]. intros H'. split; [left; by apply digit_is_hex|by eapply IH].
  - destruct (Z.eqb_spec (byte_of c) 46) as [E|]; [|done]. case_match; [done|]. intros H'. split; [right; right; by apply byte_char|by eapply IH].
Qed.

Lemma parse_hex_chars s acc off acc' off' rest :
  parse_hex s acc off = Some (acc', off', rest) -> all_chars address_char rest -> all_chars address_char s.
Proof.
  revert acc off. induction s as [|c s IH]; intros acc off; [done|]. cbn [parse_hex]. destruct (NetIP.hex_digit c) as [d|] eqn:E.
  - case_match; [done|]. intros H' Hr. split; [left; by rewrite E|by eapply IH].
  - intros [= _ _ <-]. done.
Qed.

Lemma parseIPv6_loop_chars fuel s ip ell ip' ell' :
  parseIPv6_loop fuel s ip ell = Some (ip', ell', EmptyString) -> all_chars address_char s.
Proof.
  revert s ip ell. induction fuel as [|fuel IH]; intros s ip ell; cbn [parseIPv6_loop]; [by intros [= _ _ ->]|].
  destruct (parse_hex s 0 0) as [[[acc off] rest]|] eqn:Hp; [|done]. case_match; [done|]. case_match.
  { case_match; [done|]. destruct (parseIPv4Fields s 0 0 true []) eqn:Hq; [|done]. intros _. by eapply parseIPv4Fields_chars. }
  intros Hl. eapply parse_hex_chars; [exact Hp|]. destruct rest as [|c r]; [done|].
  destruct (Z.eqb_spec (byte_of c) 58) as [E|]; cbn [negb] in Hl; [|done]. apply (byte_char c ":"%char) in E as ->.
  destruct r as [|c2 r2]; [done|]. split; [by right; left|].
  destruct (Z.eqb_spec (byte_of c2) 58) as [E|].
  - apply (byte_char c2 ":"%char) in E as ->. destruct ell; [done|]. split; [by right; left|]. case_bool_decide as E'; [by rewrite E'|by eapply IH].
  - by eapply IH.
Qed.

Lemma ParseIP_chars s ip : ParseIP s = Some ip -> all_chars address_char s.
Proof.
  unfold ParseIP. destruct (addr_kind s) as [c|]; [|done]. case_match.
  { destruct (parseIPv4 s) eqn:E; [|done]. intros _. by eapply parseIPv4Fields_chars. }
  case_match; [|done]. case_match; [done|]. unfold parseIPv6.
  set (init := match s with String _ _ => _ | _ => _ end). destruct init as [s' ell] eqn:Ei. intros Hp.
  assert (all_chars address_char s') as Hs'.
  { case_match eqn:Ee; [apply andb_true_iff in Ee as [Ee _]; apply bool_decide_eq_true in Ee; by rewrite Ee|].
    destruct (parseIPv6_loop 8 s' [] ell) as [[[ip' ell'] rest]|] eqn:El; [|done].
    destruct (bool_decide_reflect (rest = "")) as [->|]; [|done]. by eapply parseIPv6_loop_chars. }
  assert (s = s' \/ s = String ":" (String ":" s')) as [->| ->]; [|done|cbn; split_and!; [by right; left..|done]].
  clear Hp Hs'. unfold init in Ei. clear init. destruct s as [|c1 [|c2 r]]; [left; congruence..|]. case_match eqn:Ec; [|left; congruence].
  right. apply andb_true_iff in Ec as [E1 E2]. apply Z.eqb_eq in E1, E2.
  apply (byte_char c1 ":"%char) in E1 as ->. apply (byte_char c2 ":"%char) in E2 as ->. congruence.
Qed.

Lemma all_chars_no (P : ascii -> Prop) s c : all_chars P s -> ~ P c -> has_char c s = false.
Proof.
  induction s as [|a s IH]; [done|]. cbn. intros [Ha Hs] Hc. destruct (Ascii.eqb_spec a c) as [->|]; [done|]. by apply IH.
Qed.

(** ** Joining and splitting *)

Lemma has_char_app c a b : has_char c (a +:+ b) = has_char c a || has_char c b.
Proof. induction a as [|x a IH]; [done|]. rewrite append_cons. cbn. by rewrite IH, orb_assoc. Qed.

Lemma has_char_drop c n s : has_char c s = false -> has_char c (string_drop n s) = false.
Proof.
  revert s. induction n as [|n IH]; intros [|a s]; [done..|]. cbn. intros H. apply orb_false_iff in H as [_ H]. by apply IH.
Qed.

Lemma LastIndex_none c s : has_char c s = false -> LastIndex c s = None.
Proof. induction s as [|a s IH]; [done|]. cbn. intros H. apply orb_false_iff in H as [-> H]. by rewrite IH. Qed.

Lemma LastIndex_app c a b : has_char c b = false -> LastIndex c (a +:+ String c b) = Some (String.length a).
Proof.
  intros H. induction a as [|x a IH]; [change (LastIndex c (String c b) = Some 0%nat)|].
  - cbn. rewrite LastIndex_none by done. by rewrite Ascii.eqb_refl.
  - rewrite append_cons. cbn. by rewrite IH.
Qed.

Lemma LastIndex_last c s i : LastIndex c s = Some i -> has_char c (string_drop (S i) s) = false.
Proof.
  revert i. induction s as [|a s IH]; intros i; [done|]. cbn. destruct (LastIndex c s) as [n|] eqn:E; [intros [= <-]; by apply (IH n)|].
  destruct (Ascii.eqb a c); [|done]. intros [= <-]. clear IH. cbn. induction s as [|b s IH]; [done|]. cbn in E |- *.
  destruct (LastIndex c s); [done|]. destruct (Ascii.eqb b c); [done|]. by apply IH.
Qed.

Lemma string_take_app a b : string_take (String.length a) (a +:+ b) = a.
Proof. induction a as [|x a IH]; [by destruct b|]. rewrite append_cons. cbn. by rewrite IH. Qed.

Lemma string_drop_drop n m s : string_drop n (string_drop m s) = string_drop (m + n) s.
Proof. revert s. induction m as [|m IH]; intros s; [done|]. destruct s as [|a s]; [by destruct n|]. cbn. apply IH. Qed.

Lemma string_drop_S i s : string_drop (S i) s = string_drop 1 (string_drop i s).
Proof. rewrite string_drop_drop. f_equal. lia. Qed.

(** A port, as [SplitHostPort] gives it, has none of the characters that separate it. *)
Definition port_text (port : string) : Prop :=
  has_char ":" port = false /\ has_char "[" port = false /\ has_char "]" port = false.

Lemma SplitHostPort_port s host port : SplitHostPort s = Some (host, port) -> port_text port.
Proof.
  unfold SplitHostPort, port_text. destruct (LastIndex ":" s) as [i|] eqn:Ei; [|done]. pose proof (LastIndex_last _ _ _ Ei) as Hc.
  destruct (starts_with "[" s).
  - destruct (IndexByte "]" s) as [e|]; [|done]. case_match; [done|]. destruct (Nat.eqb_spec (S e) i) as [->|]; [|done].
    destruct (has_char "[" (string_drop 1 s)) eqn:E1; [done|]. destruct (has_char "]" (string_drop i s)) eqn:E2; [done|].
    cbn [orb]. intros Hp.
    assert (port = string_drop (S i) s) as -> by congruence. split_and!; [done|..].
    + replace (string_drop (S i) s) with (string_drop i (string_drop 1 s)) by (by rewrite string_drop_drop). by apply has_char_drop.
    + rewrite string_drop_S. by apply has_char_drop.
  - destruct (has_char ":" (string_take i s)); [done|]. destruct (has_char "[" s) eqn:E1; [done|]. destruct (has_char "]" s) eqn:E2; [done|].
    cbn [orb]. intros Hp.
    assert (port = string_drop (S i) s) as -> by congruence. split_and!; [done|by apply has_char_drop..].
Qed.

Lemma starts_with_has c s : has_char c s = false -> starts_with c s = false.
Proof. destruct s as [|a s]; [done|]. cbn. by intros [? _]%orb_false_iff. Qed.

Lemma IndexByte_app c a b : has_char c a = false -> IndexByte c (a +:+ String c b) = Some (String.length a).
Proof.
  induction a as [|x a IH]; [intros _; change (IndexByte c (String c b) = Some 0%nat); cbn; by rewrite Ascii.eqb_refl|]. rewrite append_cons. cbn.
  intros H. apply orb_false_iff in H as [-> H]. by rewrite IH.
Qed.

Lemma colon_bytes s : existsb (fun b => b =? 58) (bytes_of s) = has_char ":" s.
Proof.
  induction s as [|a s IH]; [done|]. cbn. rewrite <- IH. f_equal. destruct (Ascii.eqb_spec a ":") as [->|Hn]; [done|].
  apply Z.eqb_neq. intros E. apply Hn. by apply byte_char.
Qed.

Lemma SplitHostPort_Join ip a port : ParseIP ip = Some a -> port_text port -> SplitHostPort (JoinHostPort ip port) = Some (ip, port).
Proof.
  intros Hip (P1 & P2 & P3). apply ParseIP_chars in Hip.
  assert (forall c, ~ address_char c -> has_char c ip = false) as Hno by (intros c; by apply all_chars_no).
  assert (has_char "[" ip = false) as N1 by (apply Hno; intros [[d Hd]|[?|?]]; by vm_compute in Hd || done).
  assert (has_char "]" ip = false) as N2 by (apply Hno; intros [[d Hd]|[?|?]]; by vm_compute in Hd || done).
  unfold JoinHostPort. rewrite colon_bytes. destruct (has_char ":" ip) eqn:Hc; unfold SplitHostPort.
  - change ("]:" +:+ port) with (String "]" (String ":" port)). change ("[" +:+ ip +:+ String "]" (String ":" port)) with (String "[" (ip +:+ String "]" (String ":" port))).
    set (s := String "[" _). assert (s = String "[" (ip +:+ "]") +:+ String ":" port) as Es.
    { unfold s. rewrite append_cons. f_equal. by rewrite app_assoc_string. }
    assert (LastIndex ":" s = Some (S (S (String.length ip)))) as ->.
    { rewrite Es, LastIndex_app by done. cbn. rewrite length_app_string. cbn. f_equal. lia. }
    cbn [starts_with s]. change (Ascii.eqb "[" "[") with true. cbv iota.
    assert (IndexByte "]" s = Some (S (String.length ip))) as ->.
    { unfold s. cbn [IndexByte]. change (Ascii.eqb "[" "]") with false. cbv iota. by rewrite (IndexByte_app "]" ip (String ":" port) N2). }
    assert (String.length s = S (S (S (String.length ip + String.length port)))) as ->.
    { unfold s. cbn. rewrite length_app_string. cbn. lia. }
    replace (S (S (String.length ip)) =? S (S (S (String.length ip + String.length port))))%nat with false by (symmetry; apply Nat.eqb_neq; lia).
    rewrite Nat.eqb_refl. assert (string_drop 1 s = ip +:+ String "]" (String ":" port)) as -> by done.
    assert (string_drop (S (S (String.length ip))) s = String ":" port) as Ed.
    { change (string_drop (S (String.length ip)) (ip +:+ String "]" (String ":" port)) = String ":" port). by rewrite string_drop_S, string_drop_app. }
    assert (string_drop (S (S (S (String.length ip)))) s = port) as ->.
    { by rewrite string_drop_S, Ed. }
    rewrite Ed, !has_char_app, N1. cbn. rewrite P2, P3. cbn.
    f_equal. f_equal. destruct (String.length ip) eqn:El; [by destruct ip|]. rewrite <- El. apply string_take_app.
  - change (":" +:+ port) with (String ":" port). rewrite LastIndex_app by done. rewrite starts_with_has.
    2:{ rewrite has_char_app, N1. cbn. by rewrite P2. }
    rewrite string_take_app, Hc, string_drop_S, string_drop_app, !has_char_app, N1, N2. cbn. by rewrite P2, P3.
Qed.

(** ** What reaches the handlers behind *)

Lemma first_of_Some {A B} (f : A -> option B) l y : RealIP.first_of f l = Some y -> exists x, x ∈ l /\ f x = Some y.
Proof.
  induction l as [|x l IH]; [done|]. cbn. destruct (f x) as [z|] eqn:E; [intros [= ->]; exists x; split; [by left|done]|].
  intros H. destruct (IH H) as (x' & Hx & E'). exists x'. split; [by right|done].
Qed.

Lemma find_parses l ip : List.find RealIP.parses l = Some ip -> is_Some (ParseIP ip).
Proof. intros H. apply List.find_some in H as [_ H]. by apply bool_decide_eq_true in H. Qed.

Lemma extractRealIP_parses c r : RealIP.extractRealIP c r <> "" -> is_Some (ParseIP (RealIP.extractRealIP c r)).
Proof.
  unfold RealIP.extractRealIP. destruct (RealIP.first_of _ _) as [ip|] eqn:E; [|done]. intros _. cbn.
  apply first_of_Some in E as (header & _ & E). unfold RealIP.header_address in E. case_bool_decide; [done|].
  case_match; [by apply find_parses in E|]. case_bool_decide.
  - case_bool_decide as Hne; [done|]. injection E as <-. unfold RealIP.parseForwardedHeader in *.
    destruct (RealIP.first_of _ _) as [ip|] eqn:Ef; [|done]. cbn. apply first_of_Some in Ef as (part & _ & Ef).
    unfold RealIP.forwarded_part in Ef. case_match; [|done]. case_match eqn:Ep; [|done]. injection Ef as <-. by apply bool_decide_eq_true in Ep.
  - case_match eqn:Ep; [|done]. injection E as <-. by apply bool_decide_eq_true in Ep.
Qed.

Lemma ExtractIP_host addr host port : SplitHostPort addr = Some (host, port) -> ExtractIP addr = host.
Proof.
  intros H. unfold ExtractIP. rewrite H. destruct (has_char ":" addr) eqn:E; [done|].
  unfold SplitHostPort in H. by rewrite LastIndex_none in H.
Qed.

Lemma wipe_lookup c h k : RealIP.wipe c h !! k = if decide (k ∈ CanonicalMIMEHeaderKey <$> RealIP.Headers c) then None else h !! k.
Proof.
  unfold RealIP.wipe. revert h. induction (RealIP.Headers c) as [|x l IH]; intros h; [done|]. cbn [foldl]. rewrite IH. cbn [fmap list_fmap].
  unfold Header_Del. destruct (decide (k = CanonicalMIMEHeaderKey x)) as [->|Hn].
  - rewrite lookup_delete_eq. destruct (decide (_ ∈ _ :: _)) as [|Hx]; [by case_decide|]. exfalso. apply Hx. by left.
  - rewrite lookup_delete_ne by done. destruct (decide (k ∈ _ <$> l)) as [Hk|Hk].
    + rewrite decide_True by (by right). done.
    + rewrite decide_False; [done|]. rewrite elem_of_cons. tauto.
Qed.

Lemma untrusted_peer_same c r h :
  (forall k, k ∉ CanonicalMIMEHeaderKey <$> "X-Real-IP" :: RealIP.Headers c -> h !! k = Header (r_req r) !! k) ->
  RealIP.untrusted_peer c (on_request_header (fun _ => h) r) = RealIP.untrusted_peer c r.
Proof.
  intros Hh. unfold RealIP.untrusted_peer, on_request_header. destruct r as [q rp rq rem tls b n lim ctx]. cbn in *. unfold set_req. cbn. f_equal.
  unfold with_headers. cbn. f_equal. apply map_eq. intros k. unfold Header_Set.
  destruct (decide (k = CanonicalMIMEHeaderKey "X-Real-IP")) as [->|Hn]; [by rewrite !lookup_insert_eq|]. rewrite !lookup_insert_ne by done.
  rewrite !wipe_lookup. case_decide as Hd; [done|]. apply Hh. cbn. rewrite elem_of_cons. intros [?|?]; [by apply Hn|done].
Qed.

Section Filtered.
Context {W : Type}.
Variable c : RealIP.Config.
Variable m : IPFilter.IPFilterMiddleware.
Definition filtered (next : Handler W) : Handler W := RealIP.Wrap c (RealIP.New c) (IPFilter_Wrap m next).

(** A peer that is no trusted proxy is filtered by the address it connects from: whatever it
    writes into the headers that carry addresses changes neither the decision nor anything
    else, and when its address is refused nothing behind the filter runs. *)
Theorem forged_address_powerless next r h s w peer port
  (Henabled : RealIP.Enabled c = true)
  (Huntrusted : RealIP.isTrustedProxy (RealIP.New c) (r_remote r) = false)
  (Hremote : SplitHostPort (r_remote r) = Some (peer, port))
  (Hdirect : IPFilter.TrustXForwardedFor (IPFilter.config m) = false)
  (Hsame : forall k, k ∉ CanonicalMIMEHeaderKey <$> "X-Real-IP" :: RealIP.Headers c -> h !! k = Header (r_req r) !! k) :
  filtered next (on_request_header (fun _ => h) r) s w = filtered next r s w /\
  (IPFilter.isAllowed peer m = false -> exists text, filtered next r s w = (Returned, s, http_Error text 403 w)) /\
  (IPFilter.isAllowed peer m = true -> RealIP.RejectUntrusted c = false -> filtered next r s w = next (RealIP.untrusted_peer c r) s w).
Proof.
  unfold filtered, RealIP.Wrap. rewrite Henabled. cbn [negb]. change (r_remote (on_request_header _ r)) with (r_remote r).
  rewrite Huntrusted, untrusted_peer_same by done. cbn [negb andb]. split; [done|]. unfold IPFilter_Wrap, IPFilter.extractClientIP.
  rewrite Hdirect. change (r_remote (RealIP.untrusted_peer c r)) with (r_remote r). rewrite (ExtractIP_host _ _ _ Hremote). split.
  - intros ->. destruct (RealIP.RejectUntrusted c); by eexists.
  - by intros -> ->.
Qed.

(** The peer may also be a proxy: in any case what runs behind the filter sees only requests
    whose remote address has a host that is an address and that the lists allow.  The branch
    of the filter for texts that are no addresses is out of reach. *)
Theorem filter_decides_on_addresses next next' r s w peer port ip
  (Henabled : RealIP.Enabled c = true)
  (Hremote : SplitHostPort (r_remote r) = Some (peer, port)) (Hpeer : ParseIP peer = Some ip)
  (Hdirect : IPFilter.TrustXForwardedFor (IPFilter.config m) = false)
  (Hagree : forall r' s w host ip', SplitHostPort (r_remote r') = Some (host, port) -> ParseIP host = Some ip' ->
    IPFilter.isAllowed host m = true -> next r' s w = next' r' s w) :
  filtered next r s w = filtered next' r s w.
Proof.
  unfold filtered, RealIP.Wrap. rewrite Henabled. cbn [negb]. destruct (_ && _); [done|].
  set (r' := if RealIP.isTrustedProxy _ _ then _ else _).
  assert (exists host ip', SplitHostPort (r_remote r') = Some (host, port) /\ ParseIP host = Some ip') as (host & ip' & H1 & H2).
  { unfold r'. destruct (RealIP.isTrustedProxy _ _); [|by exists peer, ip]. unfold RealIP.forward_peer.
    case_bool_decide as He; [by exists peer, ip|]. destruct (extractRealIP_parses c r He) as [ip' Hip].
    exists (RealIP.extractRealIP c r), ip'. split; [|done]. rewrite Hremote. cbn [r_remote on_request_header set_req set_remote].
    eapply SplitHostPort_Join; [done|]. by eapply SplitHostPort_port. }
  unfold IPFilter_Wrap, IPFilter.extractClientIP. rewrite Hdirect, (ExtractIP_host _ _ _ H1).
  destruct (IPFilter.isAllowed host m) eqn:Ea; [by eapply Hagree|done].
Qed.
End Filtered.

(** The older middleware reads the chain of proxies from its end: what comes before the last
    address that is not a trusted proxy has no influence. *)
Theorem forwarded_prefix_ignored m r forged real proxies
  (Hpeer : Matcher_Contains (ExtractIP (r_remote r)) (OldRealIP.trusted m) = true)
  (Hlen : CIDR.Len (OldRealIP.trusted m) <> 0)
  (Hchain : TrimSpace <$> Split "," (r_header r (OldRealIP.Header (OldRealIP.config m))) = forged ++ real :: proxies)
  (Hreal : trimmed real = true /\ real <> "" /\ Matcher_Contains real (OldRealIP.trusted m) = false)
  (Hproxies : Forall (fun p => trimmed p = true /\ Matcher_Contains p (OldRealIP.trusted m) = true) proxies) :
  OldRealIP.extractClientIP m r = real.
Proof.
  destruct Hreal as (T1 & T2 & T3). unfold OldRealIP.extractClientIP. rewrite Hpeer. rewrite (proj2 (Z.eqb_neq _ _) Hlen). cbn [orb negb].
  unfold OldRealIP.parseXForwardedFor. case_bool_decide as He.
  { rewrite He in Hchain. cbn in Hchain. destruct forged as [|? [|]]; [|done..]. injection Hchain as E _. change (TrimSpace "") with "" in E. by subst. }
  rewrite Hchain, List.filter_app, rev_app_distr. cbn [List.filter]. rewrite (bool_decide_false (real = "")) by done. cbn [negb rev].
  set (ps := List.filter _ proxies). assert (forall p, In p (rev ps) -> negb (Matcher_Contains (TrimSpace p) (OldRealIP.trusted m)) = false) as Hps.
  { intros p Hp. rewrite <- in_rev in Hp. apply List.filter_In in Hp as [Hp _]. apply list_elem_of_In in Hp.
    rewrite Forall_forall in Hproxies. destruct (Hproxies p Hp) as [Tp Cp]. by rewrite TrimSpace_trimmed, Cp. }
  rewrite <- app_assoc. revert Hps. generalize (rev ps). intros l Hps. induction l as [|p l IH]; cbn.
  - rewrite (TrimSpace_trimmed real T1), T3. cbn. by apply TrimSpace_trimmed.
  - rewrite (Hps p) by (by left). apply IH. intros q Hq. apply Hps. by right.
Qed.

(** ** Examples *)

Definition default_real_ip : RealIP.Config :=
  RealIP.mkConfig true (RealIP.Headers RealIP.DefaultConfig) [] false RealIP.private_ranges.
Definition deny_one : IPFilter.IPFilterMiddleware :=
  match IPFilter.NewIPFilterMiddleware (IPFilter.mkConfig [] ["203.0.113.9"] "" false) with
  | inr m => m
  | inl _ => IPFilter.mkFilter (IPFilter.mkConfig [] [] "" false) NewCIDRMatcher NewCIDRMatcher ∅ ∅ false false
  end.
Definition request_from (remote : string) (h : headers) : http_request :=
  set_remote remote (set_req (mkRequest "GET" "a.example" "" "/" h [] []) demo_request).
Definition status_of {W} (x : ending * W * ResponseWriter) : Z := let '(code, _, _) := answer (snd x) in code.
Definition serves {W} : Handler W := fun _ s w => (Returned, s, Write "hello" w).

(** A client behind a trusted proxy puts an address of its choice in front of the one the
    proxy appends, and passes the filter that denies its own. *)
Example first_hop_forged :
  let h v := Header_Set "X-Forwarded-For" v ∅ in
  let serve v := status_of (filtered default_real_ip deny_one serves (request_from "10.0.0.5:999" (h v)) tt fresh_writer) in
  serve "203.0.113.9" = 403 /\ serve "192.0.2.1, 203.0.113.9" = 200.
Proof. vm_compute. done. Qed.

Definition old_real_ip : OldRealIP.RealIPMiddleware :=
  default (OldRealIP.mkRealIP (OldRealIP.mkConfig [] "" "") NewCIDRMatcher)
    (OldRealIP.NewRealIPMiddleware (OldRealIP.mkConfig ["10.0.0.0/8"] "" "")).

Lemma forwarded_prefix_ignored_witness :
  OldRealIP.extractClientIP old_real_ip
    (request_from "10.0.0.5:999" (Header_Set "X-Forwarded-For" "192.0.2.1, 203.0.113.9, 10.1.1.1" ∅)) = "203.0.113.9".
Proof.
  apply (forwarded_prefix_ignored old_real_ip _ ["192.0.2.1"] "203.0.113.9" ["10.1.1.1"]);
    [vm_compute; reflexivity|vm_compute; discriminate|vm_compute; reflexivity| |].
  - split_and!; [vm_compute; reflexivity|discriminate|vm_compute; reflexivity].
  - repeat constructor; vm_compute; reflexivity.
Defined.

Definition forged_headers : headers := Header_Set "X-Forwarded-For" "192.0.2.1" (Header_Set "X-Real-IP" "192.0.2.1" ∅).

Lemma forged_address_powerless_witness :
  let r := request_from "203.0.113.9:4000" ∅ in
  filtered default_real_ip deny_one serves (on_request_header (fun _ => forged_headers) r) tt fresh_writer =
    filtered default_real_ip deny_one serves r tt fresh_writer /\
  (IPFilter.isAllowed "203.0.113.9" deny_one = false ->
   exists text, filtered default_real_ip deny_one serves r tt fresh_writer = (Returned, tt, http_Error text 403 fresh_writer)) /\
  (IPFilter.isAllowed "203.0.113.9" deny_one = true -> RealIP.RejectUntrusted default_real_ip = false ->
   filtered default_real_ip deny_one serves r tt fresh_writer = serves (RealIP.untrusted_peer default_real_ip r) tt fresh_writer).
Proof.
  apply (forged_address_powerless default_real_ip deny_one serves (request_from "203.0.113.9:4000" ∅) forged_headers tt fresh_writer "203.0.113.9" "4000");
    [vm_compute; reflexivity..|].
  intros k Hk. unfold forged_headers, Header_Set. cbn [Header request_from set_remote set_req r_req].
  rewrite !lookup_insert_ne, lookup_empty; [done|..]; intros <-; apply Hk; refine (proj1 (bool_decide_eq_true (_ ∈ _)) _); vm_compute; reflexivity.
Defined.

Lemma filter_decides_on_addresses_witness :
  let r := request_from "10.0.0.5:999" (Header_Set "X-Forwarded-For" "not an address" ∅) in
  filtered default_real_ip deny_one serves r tt fresh_writer =
  filtered default_real_ip deny_one (fun r s w =>
    match SplitHostPort (r_remote r) with
    | Some (host, _) => if RealIP.parses host then serves r s w else (Panicked, s, w)
    | None => (Panicked, s, w)
    end) r tt fresh_writer.
Proof.
  apply (filter_decides_on_addresses default_real_ip deny_one serves _
           (request_from "10.0.0.5:999" (Header_Set "X-Forwarded-For" "not an address" ∅)) tt fresh_writer "10.0.0.5" "999"
           (v4InV6Prefix ++ [10; 0; 0; 5])); [vm_compute; reflexivity..|].
  intros r' s w host ip' Hs Hp _. rewrite Hs. unfold RealIP.parses. rewrite Hp. reflexivity.
Defined.
