(* ===== verification/CrossSite.v ===== *)
(** * Requests from other sites: [middleware/cors.go], [middleware/csrf/csrf.go]

    [cors.go] says which origins may read answers, [csrf.go] asks unsafe requests for the
    token of a cookie.  Random numbers, the parsing of media types and of multipart forms are
    parameters; URL-encoded forms are parsed here.  Origins are texts of ASCII characters. *)
From S2P Require Import Prelude Http Bytes NetIP NetAddr GoStrings GoEncoding Security Middleware AuthFacts ClientAddress StaleCache.
From Stdlib Require Import Ascii.

(** [strings.Join] with a separator of several characters. *)
Fixpoint join_with (sep : string) (l : list string) : string :=
  match l with [] => "" | [x] => x | x :: l => x +:+ sep +:+ join_with sep l end.

(** ** CORS *)

Module CORS.

Record CORSConfig := mkConfig {
  AllowedOrigins : list string; AllowedMethods : list string; AllowedHeaders : list string;
  ExposedHeaders : list string; AllowCredentials : bool; MaxAge : Z
}.

Record CORSMiddleware := mkCORS {
  config : CORSConfig; allowAllOrigins : bool; allowedOrigins : gset string; allowedHeaders : gset string
}.

(** The loop over the origins stops at the first [*]. *)
Fixpoint read_origins (l : list string) (acc : gset string) : bool * gset string :=
  match l with
  | [] => (false, acc)
  | o :: l => if bool_decide (o = "*") then (true, acc) else read_origins l ({[ToLower o]} ∪ acc)
  end.

(** [None]: the error for the wildcard with credentials. *)
Definition NewCORSMiddleware (c : CORSConfig) : option CORSMiddleware :=
  if AllowCredentials c && bool_decide ("*" ∈ AllowedOrigins c) then None
  else
    let '(all, origins) := read_origins (AllowedOrigins c) ∅ in
    Some (mkCORS c all origins (list_to_set (CanonicalMIMEHeaderKey <$> AllowedHeaders c))).

Definition isOriginAllowed (m : CORSMiddleware) (origin : string) : bool :=
  allowAllOrigins m || bool_decide (ToLower origin ∈ allowedOrigins m).

(** The headers that grant access. *)
Definition grant (m : CORSMiddleware) (origin : string) (w : ResponseWriter) : ResponseWriter :=
  let w := if allowAllOrigins m && negb (AllowCredentials (config m))
           then set_header "Access-Control-Allow-Origin" "*" w else set_header "Access-Control-Allow-Origin" origin w in
  if AllowCredentials (config m) then set_header "Access-Control-Allow-Credentials" "true" w else w.

Definition set_if (b : bool) (key value : string) (w : ResponseWriter) : ResponseWriter := if b then set_header key value w else w.
Definition some {A} (l : list A) : bool := match l with [] => false | _ => true end.

Definition handlePreflight (m : CORSMiddleware) (r : http_request) (w : ResponseWriter) : ResponseWriter :=
  let origin := r_header r "Origin" in
  let w := on_header (Header_Add "Vary" "Origin") w in
  if negb (isOriginAllowed m origin) then WriteHeader 204 w
  else
    let w := grant m origin w in
    let w := set_if (some (AllowedMethods (config m))) "Access-Control-Allow-Methods" (join_with ", " (AllowedMethods (config m))) w in
    let requested := r_header r "Access-Control-Request-Headers" in
    let allowed := List.filter (fun h => bool_decide (CanonicalMIMEHeaderKey h ∈ allowedHeaders m) || allowAllOrigins m)
                     (TrimSpace <$> Split "," requested) in
    let w := if negb (bool_decide (requested = ""))
             then set_if (some allowed) "Access-Control-Allow-Headers" (join_with ", " allowed) w
             else set_if (some (AllowedHeaders (config m))) "Access-Control-Allow-Headers" (join_with ", " (AllowedHeaders (config m))) w in
    let w := set_if (0 <? MaxAge (config m)) "Access-Control-Max-Age" (Itoa (Z.quot (MaxAge (config m)) (10 ^ 9))) w in
    WriteHeader 204 w.

(** What [handleActual] does before it calls the next handler. *)
Definition handleActual (m : CORSMiddleware) (r : http_request) (w : ResponseWriter) : ResponseWriter :=
  let origin := r_header r "Origin" in
  let w := on_header (Header_Add "Vary" "Origin") w in
  if negb (isOriginAllowed m origin) then w
  else set_if (some (ExposedHeaders (config m))) "Access-Control-Expose-Headers" (join_with ", " (ExposedHeaders (config m))) (grant m origin w).

Definition CORS_Wrap {W} (m : CORSMiddleware) (next : Handler W) : Handler W := fun r s w =>
  if bool_decide (r_method r = "OPTIONS") then (Returned, s, handlePreflight m r w) else next r s (handleActual m r w).

Definition CORSMW {W} (m : CORSMiddleware) : Middleware W := mkMiddleware "cors" 600 (CORS_Wrap m) None.

(** *** Who may read answers *)

Definition listed (c : CORSConfig) (origin : string) : Prop := exists o, o ∈ AllowedOrigins c /\ o <> "*" /\ ToLower o = ToLower origin.

Lemma read_origins_spec l acc all origins : read_origins l acc = (all, origins) ->
  (all = true -> "*" ∈ l) /\ forall x, x ∈ origins -> x ∈ acc \/ exists o, o ∈ l /\ o <> "*" /\ ToLower o = x.
Proof.
  revert acc. induction l as [|o l IH]; intros acc; cbn; [intros [= <- <-]; split; [done|by left]|].
  case_bool_decide as E; [intros [= <- <-]; split; [intros _; subst o; by left|by left]|]. intros H. destruct (IH _ H) as [A B]. split.
  - intros Ha. right. by apply A.
  - intros x Hx. destruct (B x Hx) as [Hacc|(o' & Ho & E1 & E2)]; [|right; exists o'; split; [by right|done]].
    apply elem_of_union in Hacc as [->%elem_of_singleton|]; [right; exists o; split; [by left|done]|by left].
Qed.

Lemma New_spec c m : NewCORSMiddleware c = Some m ->
  config m = c /\ (allowAllOrigins m = true -> "*" ∈ AllowedOrigins c /\ AllowCredentials c = false) /\
  forall origin, isOriginAllowed m origin = true -> allowAllOrigins m = true \/ listed c origin.
Proof.
  unfold NewCORSMiddleware. destruct (AllowCredentials c && _) eqn:Hw; [done|].
  destruct (read_origins (AllowedOrigins c) ∅) as [all origins] eqn:E. intros [= <-]. apply read_origins_spec in E as [A B]. cbn. split; [done|]. split.
  - intros Ha. split; [by apply A|]. destruct (AllowCredentials c); [|done]. cbn in Hw. apply bool_decide_eq_false in Hw. by destruct Hw; apply A.
  - intros origin. unfold isOriginAllowed. cbn. destruct all; [by left|]. cbn. intros Ho%bool_decide_eq_true. right.
    destruct (B _ Ho) as [?%elem_of_empty|(o & H1 & H2 & H3)]; [done|]. by exists o.
Qed.

(** The origin headers of the answer, as far as this middleware sets them. *)
Definition origins_of (w : ResponseWriter) : list string := Header_Values (w_header w) "Access-Control-Allow-Origin".
Definition credentials_of (w : ResponseWriter) : list string := Header_Values (w_header w) "Access-Control-Allow-Credentials".

Lemma values_set_ne k k' v h : CanonicalMIMEHeaderKey k' <> CanonicalMIMEHeaderKey k -> Header_Values (Header_Set k' v h) k = Header_Values h k.
Proof. intros Hn. unfold Header_Values, Header_Set. by rewrite lookup_insert_ne. Qed.
Lemma values_set k v h : Header_Values (Header_Set k v h) k = [v].
Proof. unfold Header_Values, Header_Set. by rewrite lookup_insert_eq. Qed.
Lemma values_add_ne k k' v h : CanonicalMIMEHeaderKey k' <> CanonicalMIMEHeaderKey k -> Header_Values (Header_Add k' v h) k = Header_Values h k.
Proof. intros Hn. unfold Header_Values, Header_Add. by rewrite lookup_insert_ne. Qed.

(** Both as a pair; most steps leave it alone. *)
Definition grants (w : ResponseWriter) : list string * list string := (origins_of w, credentials_of w).
Definition other_key (k : string) : bool :=
  negb (bool_decide (CanonicalMIMEHeaderKey k ∈ ["Access-Control-Allow-Origin"; "Access-Control-Allow-Credentials"])).

Lemma other_key_ne k : other_key k = true ->
  CanonicalMIMEHeaderKey k <> CanonicalMIMEHeaderKey "Access-Control-Allow-Origin" /\
  CanonicalMIMEHeaderKey k <> CanonicalMIMEHeaderKey "Access-Control-Allow-Credentials".
Proof.
  unfold other_key. intros H%negb_true_iff%bool_decide_eq_false.
  change (CanonicalMIMEHeaderKey "Access-Control-Allow-Origin") with "Access-Control-Allow-Origin".
  change (CanonicalMIMEHeaderKey "Access-Control-Allow-Credentials") with "Access-Control-Allow-Credentials".
  split; intros E; apply H; rewrite E; set_solver.
Qed.

Lemma grants_set_if b k v w : other_key k = true -> grants (set_if b k v w) = grants w.
Proof.
  intros H. apply other_key_ne in H as [A B]. destruct b; [|done]. unfold grants, origins_of, credentials_of. cbn [set_if set_header on_header w_header].
  by rewrite !values_set_ne.
Qed.

Lemma grants_add k v w : other_key k = true -> grants (on_header (Header_Add k v) w) = grants w.
Proof. intros H. apply other_key_ne in H as [A B]. unfold grants, origins_of, credentials_of. cbn [on_header w_header]. by rewrite !values_add_ne. Qed.

Lemma grants_WriteHeader n w : grants (WriteHeader n w) = grants w.
Proof. unfold WriteHeader. by destruct (w_sent w). Qed.

Lemma grants_grant m origin w :
  grants (grant m origin w) = ([if allowAllOrigins m && negb (AllowCredentials (config m)) then "*" else origin],
                               if AllowCredentials (config m) then ["true"] else credentials_of w).
Proof.
  unfold grants, grant, origins_of, credentials_of. destruct (AllowCredentials (config m)), (allowAllOrigins m); cbn [andb negb set_header on_header w_header];
    f_equal; rewrite ?values_set; try done; rewrite values_set_ne by (by vm_compute); rewrite ?values_set; done.
Qed.

(** The writer that leaves the middleware: the answer to a preflight, or the writer of the
    next handler. *)
Definition answered (m : CORSMiddleware) (r : http_request) (w : ResponseWriter) : ResponseWriter :=
  if bool_decide (r_method r = "OPTIONS") then handlePreflight m r w else handleActual m r w.

Lemma grants_answered m r w :
  grants (answered m r w) =
  if isOriginAllowed m (r_header r "Origin")
  then ([if allowAllOrigins m && negb (AllowCredentials (config m)) then "*" else r_header r "Origin"],
        if AllowCredentials (config m) then ["true"] else credentials_of w)
  else grants w.
Proof.
  pose proof (grants_add "Vary" "Origin" w eq_refl) as Hv. unfold answered, handlePreflight, handleActual.
  set (w0 := on_header _ w) in *. assert (credentials_of w0 = credentials_of w) as Hc by (by injection Hv). rewrite <- Hc, <- Hv.
  destruct (isOriginAllowed m _); cbn [negb]; case_bool_decide; rewrite ?grants_WriteHeader; try done.
  - rewrite grants_set_if by done. destruct (negb _); rewrite !grants_set_if by done; apply grants_grant.
  - rewrite grants_set_if by done. apply grants_grant.
Qed.

(** Unless the answer had such headers before, an origin may read it only when the
    configuration lists the origin or the wildcard, and with its credentials only when it is
    listed itself: then the answer names this one origin and never the wildcard. *)
Theorem cors_grants_only_listed {W} c m (next : Handler W) r s w
  (Hnew : NewCORSMiddleware c = Some m) (Hfresh : grants w = ([], [])) :
  CORS_Wrap m next r s w = (if bool_decide (r_method r = "OPTIONS") then (Returned, s, answered m r w) else next r s (answered m r w)) /\
  (forall o, o ∈ origins_of (answered m r w) ->
     (o = "*" /\ "*" ∈ AllowedOrigins c) \/ (o = r_header r "Origin" /\ listed c o)) /\
  (credentials_of (answered m r w) <> [] ->
     AllowCredentials c = true /\ origins_of (answered m r w) = [r_header r "Origin"] /\ listed c (r_header r "Origin")).
Proof.
  apply New_spec in Hnew as (Hcfg & Hall & Hallowed). split; [unfold CORS_Wrap, answered; by case_bool_decide|].
  pose proof (grants_answered m r w) as E. rewrite Hfresh in E. unfold grants in E. injection Hfresh as _ Hcred. rewrite Hcred, Hcfg in E.
  destruct (isOriginAllowed m (r_header r "Origin")) eqn:Ho; injection E as -> ->; [|split; [by intros o ?%elem_of_nil|done]].
  destruct (Hallowed _ Ho) as [Ha|Hl]; [|split].
  - destruct (Hall Ha) as [Hstar Hc]. rewrite Ha, Hc. cbn. split; [|done]. intros o ->%list_elem_of_singleton. by left.
  - intros o Hin%list_elem_of_singleton. destruct (allowAllOrigins m) eqn:Ha, (AllowCredentials c) eqn:Hc; cbn in Hin; subst; try by right.
    left. split; [done|]. by apply Hall.
  - destruct (AllowCredentials c) eqn:Hc; [|done]. intros _. split; [done|]. rewrite andb_false_r. done.
Qed.
End CORS.

Definition demo_cors : CORS.CORSConfig := CORS.mkConfig ["https://app.example"] ["GET"] ["X-Token"] [] true 0.
Definition demo_cors_mw : CORS.CORSMiddleware := default (CORS.mkCORS demo_cors false ∅ ∅) (CORS.NewCORSMiddleware demo_cors).
Definition from_origin (method origin : string) : http_request :=
  set_req (mkRequest method "a.example" "" "/" (Header_Set "Origin" origin ∅) [] []) demo_request.

Lemma cors_grants_only_listed_witness :
  let r := from_origin "GET" "https://APP.example" in
  CORS.CORS_Wrap demo_cors_mw serves r tt fresh_writer =
    (if bool_decide (r_method r = "OPTIONS") then (Returned, tt, CORS.answered demo_cors_mw r fresh_writer)
     else serves r tt (CORS.answered demo_cors_mw r fresh_writer)) /\
  (forall o, o ∈ CORS.origins_of (CORS.answered demo_cors_mw r fresh_writer) ->
     (o = "*" /\ "*" ∈ CORS.AllowedOrigins demo_cors) \/ (o = r_header r "Origin" /\ CORS.listed demo_cors o)) /\
  (CORS.credentials_of (CORS.answered demo_cors_mw r fresh_writer) <> [] ->
     CORS.AllowCredentials demo_cors = true /\ CORS.origins_of (CORS.answered demo_cors_mw r fresh_writer) = [r_header r "Origin"] /\
     CORS.listed demo_cors (r_header r "Origin")).
Proof.
  apply (CORS.cors_grants_only_listed demo_cors demo_cors_mw serves (from_origin "GET" "https://APP.example") tt fresh_writer);
    vm_compute; reflexivity.
Defined.

(** Every OPTIONS request is answered here, also one that is no preflight and one from an
    origin that is not allowed: it never reaches a backend. *)
Example options_never_forwarded :
  let serve origin := status_of (CORS.CORS_Wrap demo_cors_mw serves (from_origin "OPTIONS" origin) tt fresh_writer) in
  serve "https://app.example" = 204 /\ serve "https://other.example" = 204 /\ serve "" = 204.
Proof. vm_compute. done. Qed.

(** ** CSRF *)

Module CSRF.

Record Config := mkConfig {
  Enabled : bool; CookieName : string; HeaderName : string; FieldName : string; ExcludePaths : list string;
  ExcludeMethods : list string; CookiePath : string; CookieDomain : string; CookieMaxAge : Z;
  CookieSecure : bool; CookieHTTPOnly : bool; TokenLength : Z
}.

Definition safe_methods : list string := ["GET"; "HEAD"; "OPTIONS"; "TRACE"].
Definition DefaultConfig : Config :=
  mkConfig true "csrf_token" "X-CSRF-Token" "csrf_token" [] safe_methods "/" "" 86400 true true 32.

Definition New (c : Config) : Config :=
  let or_default x d := if bool_decide (x = "") then d else x in
  mkConfig (Enabled c) (or_default (CookieName c) "csrf_token") (or_default (HeaderName c) "X-CSRF-Token")
    (or_default (FieldName c) "csrf_token") (ExcludePaths c)
    (if bool_decide (ExcludeMethods c = []) then safe_methods else ExcludeMethods c)
    (or_default (CookiePath c) "/") (CookieDomain c) (CookieMaxAge c) (CookieSecure c) (CookieHTTPOnly c)
    (if TokenLength c =? 0 then 32 else TokenLength c).

Definition requiresValidation (c : Config) (method : string) : bool :=
  negb (existsb (fun x => bool_decide (ToUpper method = ToUpper x)) (ExcludeMethods c)).

(** *** Cookies of [net/http] *)

Definition cookie_byte (c : ascii) : bool :=
  let b := byte_of c in (32 <=? b) && (b <? 127) && negb (b =? 59).

(** [isCookieDomainName]: the state is the last byte, whether a letter was seen, and the
    length of the part. *)
Fixpoint domain_loop (s : string) (last : ascii) (ok : bool) (partlen : Z) : bool :=
  match s with
  | EmptyString => negb (Ascii.eqb last "-") && (partlen <=? 63) && ok
  | String c r =>
      if is_upper c || is_lower c then domain_loop r c true (partlen + 1)
      else if is_digit c then domain_loop r c ok (partlen + 1)
      else if Ascii.eqb c "-" then if Ascii.eqb last "." then false else domain_loop r c ok (partlen + 1)
      else if Ascii.eqb c "." then
        if Ascii.eqb last "." || Ascii.eqb last "-" then false
        else if (63 <? partlen) || (partlen =? 0) then false else domain_loop r c ok 0
      else false
  end.
Definition validCookieDomain (v : string) : bool :=
  (negb (bool_decide (v = "")) && (Z.of_nat (String.length v) <=? 255) &&
   domain_loop (if starts_with "." v then tail v else v) "." false 0) ||
  (bool_decide (is_Some (ParseIP v)) && negb (has_char ":" v)).

(** [Cookie.String] for a value without special characters. *)
Definition cookie_string (c : Config) (value : string) : string :=
  let name := CookieName c in
  if bool_decide (name = "") || negb (string_forallb isTokenChar name) then ""
  else
    let path := string_filter cookie_byte (CookiePath c) in
    name +:+ "=" +:+ value +:+
    (if bool_decide (CookiePath c = "") then "" else "; Path=" +:+ path) +:+
    (if bool_decide (CookieDomain c = "") || negb (validCookieDomain (CookieDomain c)) then ""
     else "; Domain=" +:+ (if starts_with "." (CookieDomain c) then tail (CookieDomain c) else CookieDomain c)) +:+
    (if 0 <? CookieMaxAge c then "; Max-Age=" +:+ Itoa (CookieMaxAge c) else if CookieMaxAge c <? 0 then "; Max-Age=0" else "") +:+
    (if CookieHTTPOnly c then "; HttpOnly" else "") +:+ (if CookieSecure c then "; Secure" else "") +:+ "; SameSite=Strict".

Definition SetCookie (text : string) (w : ResponseWriter) : ResponseWriter :=
  if bool_decide (text = "") then w else on_header (Header_Add "Set-Cookie" text) w.

(** *** URL-encoded forms *)

Definition plus_to_space (c : ascii) : ascii := if Ascii.eqb c "+" then " " else c.
Definition QueryUnescape (s : string) : option string := text_of <$> unescape_chars (plus_to_space <$> chars s).

(** [url.ParseQuery]; pairs that do not parse are skipped. *)
Definition parse_pair (p : string) : option (string * string) :=
  if bool_decide (p = "") || has_char ";" p then None
  else
    let '(k, v) := default (p, "") (Cut "=" p) in
    k ← QueryUnescape k; v ← QueryUnescape v; Some (k, v).
Definition ParseQuery (s : string) : list (string * string) := omap parse_pair (Split "&" s).

(** [FormValue] after [ParseForm]: the body comes before the query. *)
Definition form_value (field body : string) (query : list (string * string)) : string :=
  default "" (pair_get field (ParseQuery body ++ query)).

Definition URLEncoding : encoding := mkEncoding "-" "_" true.
Definition maxCSRFFormScanBytes : Z := 2 ^ 20.

Definition compareTokens (a b : string) : bool :=
  match DecodeString URLEncoding a, DecodeString URLEncoding b with
  | Some x, Some y => bool_decide (x = y)
  | _, _ => bool_decide (a = b)
  end.

(** What [io.ReadAll] gives of the body up to a length, its error dropped: a limit on the
    body cuts it short. *)
Definition scanned (n : Z) (r : http_request) : string :=
  string_take (Z.to_nat (match r_limit r with Some l => Z.min n (Z.max 0 l) | None => n end)) (r_body r).

(** The body is replaced by what was read; it has no limit then. *)
Definition set_body (body : string) (r : http_request) : http_request :=
  mkHttpRequest (r_req r) (r_rawpath r) (r_rawquery r) (r_remote r) (r_tls r) body (r_length r) None (r_ctx r).

Section CSRF.
Context {W : Type}.
Variable rand_bytes : Z -> W -> option string * W.
Variable ParseMediaType : string -> option string.
Variable multipart_value : string -> http_request -> string.
Variable c : Config.

Definition form_methods : list string := ["POST"; "PUT"; "PATCH"].

Definition extractToken (r : http_request) : string * http_request :=
  let token := r_header r (HeaderName c) in
  if negb (bool_decide (token = "")) then (token, r)
  else if negb (bool_decide (r_method r ∈ form_methods)) then ("", r)
  else
    match ParseMediaType (r_header r "Content-Type") with
    | None => ("", r)
    | Some mt =>
        if negb (bool_decide (mt = "application/x-www-form-urlencoded")) && negb (bool_decide (mt = "multipart/form-data")) then ("", r)
        else
          let body := scanned (maxCSRFFormScanBytes + 1) r in
          let r := set_body body r in
          if maxCSRFFormScanBytes <? Z.of_nat (String.length body) then ("", r)
          else if bool_decide (mt = "application/x-www-form-urlencoded") then (form_value (FieldName c) body (Query (r_req r)), r)
          else (multipart_value (FieldName c) r, r)
    end.

Definition generateToken (s : W) : option string * W :=
  let '(b, s) := rand_bytes (TokenLength c) s in (EncodeToString URLEncoding <$> b, s).

Definition rotateToken (s : W) (w : ResponseWriter) : W * ResponseWriter :=
  match generateToken s with
  | (Some token, s) => (s, SetCookie (cookie_string c token) w)
  | (None, s) => (s, w)
  end.

Definition setToken (r : http_request) (s : W) (w : ResponseWriter) : W * ResponseWriter :=
  match Cookie (CookieName c) (r_req r) with
  | Some v => if bool_decide (v = "") then rotateToken s w else (s, w)
  | None => rotateToken s w
  end.

Definition handleError (message : string) (w : ResponseWriter) : ResponseWriter :=
  let quote s := String "034" (s +:+ String "034" "") in
  let body := "{" +:+ quote "error" +:+ ":" +:+ quote "CSRF validation failed" +:+ "," +:+ quote "message" +:+ ":" +:+ quote message +:+ "}" in
  Write body (WriteHeader 403 (set_header "Content-Type" "application/json" w)).

Definition csrf_work (next : Handler W) : Handler W := fun r s w =>
  if negb (requiresValidation c (r_method r)) then
    let '(s, w) := setToken r s w in next r s w
  else
    match Cookie (CookieName c) (r_req r) with
    | None => (Returned, s, handleError "CSRF token missing from cookie" w)
    | Some expected =>
        if bool_decide (expected = "") then (Returned, s, handleError "CSRF token missing from cookie" w)
        else
          let '(provided, r) := extractToken r in
          if bool_decide (provided = "") then (Returned, s, handleError "CSRF token missing from request" w)
          else if negb (compareTokens expected provided) then (Returned, s, handleError "CSRF token mismatch" w)
          else let '(s, w) := rotateToken s w in next r s w
    end.

Definition CSRF_Wrap (next : Handler W) : Handler W :=
  if negb (Enabled c) then next else unless_excluded (ExcludePaths c) next (csrf_work next).

Definition CSRFMiddleware : Middleware W := mkMiddleware "csrf" 200 CSRF_Wrap None.

(** *** Only requests with the token of their cookie pass *)

Definition proven (r : http_request) : Prop :=
  exists expected, Cookie (CookieName c) (r_req r) = Some expected /\ expected <> "" /\
    fst (extractToken r) <> "" /\ compareTokens expected (fst (extractToken r)) = true.

Definition csrf_admitted (r : http_request) (s : W) : Prop :=
  excluded (ExcludePaths c) (r_path r) = Some true \/ requiresValidation c (r_method r) = false \/ proven r.

Lemma string_take_length n s : (String.length (string_take n s) <= n)%nat.
Proof. revert s. induction n as [|n IH]; intros [|a s]; cbn; [lia..|]. specialize (IH s). lia. Qed.

Lemma string_take_all n s : (String.length s <= n)%nat -> string_take n s = s.
Proof. revert s. induction n as [|n IH]; intros [|a s]; cbn; [done|lia|done|]. intros H. rewrite IH by lia. done. Qed.

Lemma scanned_set n body r : Z.of_nat (String.length body) <= n -> scanned n (set_body body r) = body.
Proof. intros H. unfold scanned. cbn. apply string_take_all. lia. Qed.

(** Reading the token again from the request that is passed on gives the same. *)
Lemma extractToken_again r : fst (extractToken r) <> "" -> extractToken (snd (extractToken r)) = extractToken r.
Proof.
  intros Hne. assert (extractToken r = extractToken r) as E by done. unfold extractToken at 2 in E.
  destruct (negb (bool_decide (r_header r (HeaderName c) = ""))) eqn:Eh; [by rewrite !E|].
  destruct (negb (bool_decide (r_method r ∈ form_methods))) eqn:Em; [by rewrite E in Hne|].
  destruct (ParseMediaType (r_header r "Content-Type")) as [mt|] eqn:Et; [|by rewrite E in Hne].
  destruct (_ && _) eqn:Ek; [by rewrite E in Hne|]. cbv zeta in E. destruct (maxCSRFFormScanBytes <? _) eqn:El; [by rewrite E in Hne|].
  set (body := scanned _ r) in *. set (r' := set_body body r) in *.
  assert (extractToken r' = extractToken r) as Hagain.
  { rewrite E. unfold extractToken. change (r_header r') with (r_header r). change (r_method r') with (r_method r).
    rewrite Eh, Em, Et, Ek. cbv zeta. apply Z.ltb_ge in El. unfold r'. rewrite scanned_set by lia.
    by rewrite (proj2 (Z.ltb_ge maxCSRFFormScanBytes (Z.of_nat (String.length body))) El). }
  assert (snd (extractToken r) = r') as -> by (rewrite E; by case_bool_decide). done.
Qed.

Lemma extractToken_keeps r : r_path (snd (extractToken r)) = r_path r /\ r_req (snd (extractToken r)) = r_req r.
Proof.
  unfold extractToken. destruct (negb _); [done|]. destruct (negb _); [done|]. destruct (ParseMediaType _); [|done].
  destruct (_ && _); [done|]. cbv zeta. by repeat case_match.
Qed.

Lemma csrf_guards : Enabled c = true -> guards csrf_admitted CSRF_Wrap.
Proof.
  intros He h h' Hsame r s w. unfold CSRF_Wrap. rewrite He. cbn [negb]. unfold unless_excluded.
  destruct (excluded (ExcludePaths c) (r_path r)) as [[|]|] eqn:Ex; [apply Hsame; by left| |done]. unfold csrf_work.
  destruct (requiresValidation c (r_method r)) eqn:Ev; cbn [negb]; [|destruct (setToken r s w); apply Hsame; right; by left].
  destruct (Cookie (CookieName c) (r_req r)) as [expected|] eqn:Ec; [|done]. case_bool_decide as Hne; [done|].
  pose proof (extractToken_again r) as Hagain. pose proof (extractToken_keeps r) as [_ Hreq].
  destruct (extractToken r) as [provided r'] eqn:Et. cbn [fst snd] in *. case_bool_decide as Hp; [done|].
  destruct (compareTokens expected provided) eqn:Em; cbn [negb]; [|done]. destruct (rotateToken s w) as [s' w']. apply Hsame. right. right.
  exists expected. rewrite Hreq, Hagain by done. done.
Qed.

(** In a chain with the CSRF middleware a request whose method is not safe, on a path that is
    not excluded, makes a difference behind the chain only if it repeats the token of its
    cookie in a header or a form field. *)
Theorem csrf_protects_chain ch h h' l1 l2
  (Henabled : Enabled c = true) (Hbuilt : built ch)
  (Horder : sorted_stably (middlewares ch) (l1 ++ CSRFMiddleware :: l2))
  (Hbefore : Forall (fun m => respects (Wrap m)) l1)
  (Hafter : Forall (fun m => keeps csrf_admitted (Wrap m)) l2)
  (Hsame : same_on csrf_admitted h h') :
  same (fst (Then h ch)) (fst (Then h' ch)).
Proof. by apply (chain_guards _ _ _ _ _ Hbuilt Horder Hbefore (csrf_guards Henabled) Hafter). Qed.
End CSRF.
End CSRF.

Definition no_random (_ : Z) (s : unit) : option string * unit := (None, s).
Definition url_encoded (s : string) : option string := Some s.
Definition no_multipart (_ : string) (_ : http_request) : string := "".
Definition demo_csrf : CSRF.Config := CSRF.New CSRF.DefaultConfig.
Definition csrf_chain : Chain unit := Use (CSRF.CSRFMiddleware no_random url_encoded no_multipart demo_csrf) NewChain.

Definition posting (cookies : list (string * string)) (limit : option Z) (body : string) : http_request :=
  CSRF.set_body body (set_req (mkRequest "POST" "a.example" "" "/pay" (Header_Set "Content-Type" "application/x-www-form-urlencoded" ∅) cookies []) demo_request).

(** A handler that goes wrong on an unsafe request without a cookie. *)
Definition wants_cookie : Handler unit := fun r s w =>
  if CSRF.requiresValidation demo_csrf (r_method r) && bool_decide (Cookie "csrf_token" (r_req r) = None) then (Panicked, s, w) else serves r s w.

Lemma csrf_protects_chain_witness :
  same (fst (Then serves csrf_chain)) (fst (Then wants_cookie csrf_chain)) /\
  status_of (fst (Then wants_cookie csrf_chain) (posting [] None "amount=1") tt fresh_writer) = 403.
Proof.
  split; [|vm_compute; reflexivity].
  apply (CSRF.csrf_protects_chain no_random url_encoded no_multipart demo_csrf csrf_chain serves wants_cookie [] []).
  - reflexivity.
  - apply built_use, built_new.
  - apply (stable_sort_sorts (middlewares csrf_chain)).
  - constructor.
  - constructor.
  - intros r s w Had. unfold wants_cookie. destruct (_ && _) eqn:E; [exfalso|reflexivity].
    apply andb_true_iff in E as [E1 E2]. apply bool_decide_eq_true in E2. destruct Had as [Hx|[Hv|(e & Hc & _)]].
    + discriminate.
    + congruence.
    + change (CSRF.CookieName demo_csrf) with "csrf_token" in Hc. congruence.
Defined.

(** A request with the token of its cookie passes, and is passed on with its body. *)
Example csrf_form_accepted :
  let r := posting [("csrf_token", "YWJj")] None "amount=1&csrf_token=YWJj" in
  let seen : Handler unit := fun r s w => serves r s (Write (r_body r) w) in
  w_body (snd (CSRF.CSRF_Wrap no_random url_encoded no_multipart demo_csrf seen r tt fresh_writer)) = "amount=1&csrf_token=YWJjhello".
Proof. vm_compute. done. Qed.

(** The error of a body that is too long is dropped: the part that fits is passed on as the
    whole body, without a limit. *)
Example csrf_cuts_long_body :
  let r := set_limit (Some 31) (posting [("csrf_token", "YWJj")] None "csrf_token=YWJj&from=a&amount=1000") in
  let seen : Handler unit := fun r s w => (Returned, s, Write (default "too long" (read_body r)) w) in
  read_body r = None /\
  w_body (snd (CSRF.CSRF_Wrap no_random url_encoded no_multipart demo_csrf seen r tt fresh_writer)) = "csrf_token=YWJj&from=a&amount=1".
Proof. vm_compute. done. Qed.
