(* ===== verification/ForceSSL.v ===== *)
(** * Enforcing HTTPS: [middleware/forcessl/forcessl.go] *)
From S2P Require Import Prelude Http Bytes NetIP NetAddr GoStrings GoEncoding Security Middleware AuthFacts ClientAddress.
From Stdlib Require Import Ascii.

Record Config := mkConfig {
  Enabled : bool; Permanent : bool; ExcludePaths : list string; ExcludeHosts : list string; Port : Z;
  HeaderKey : string; HeaderValue : string; TrustedProxies : list string
}.

Definition DefaultConfig : Config := mkConfig false true [] [] 443 "X-Forwarded-Proto" "https" [].

Definition New (c : Config) : Config :=
  mkConfig (Enabled c) (Permanent c) (ExcludePaths c) (ExcludeHosts c) (if Port c =? 0 then 443 else Port c)
    (if bool_decide (HeaderKey c = "") then "X-Forwarded-Proto" else HeaderKey c) (HeaderValue c) (TrustedProxies c).

(** ** Redirects of [net/http] *)

Definition html_char (c : ascii) : string :=
  let b := byte_of c in
  if b =? 38 then "&amp;" else if b =? 60 then "&lt;" else if b =? 62 then "&gt;"
  else if b =? 34 then "&#34;" else if b =? 39 then "&#39;" else String c "".
Fixpoint htmlEscape (s : string) : string :=
  match s with String c r => html_char c +:+ htmlEscape r | EmptyString => "" end.

Fixpoint hexEscapeNonASCII (s : string) : string :=
  match s with
  | String c r => (if byte_of c <? 128 then String c "" else String "%" (hex_encode (String c ""))) +:+ hexEscapeNonASCII r
  | EmptyString => ""
  end.

(** What a target that is not absolute is taken for: here only the empty one, which means
    the directory of the path. *)
Definition directory (path : string) : string :=
  let path := if bool_decide (path = "") then "/" else path in
  let dir := match LastIndex "/" path with Some i => string_take (S i) path | None => "" end in
  let clean := path_Clean dir in
  if HasSuffix dir "/" && negb (HasSuffix clean "/") then clean +:+ "/" else clean.

Definition status_name (code : Z) : string := if code =? 301 then "Moved Permanently" else "Temporary Redirect".

(** [http.Redirect] with an absolute target or the empty one. *)
Definition Redirect (target : string) (code : Z) (r : http_request) (w : ResponseWriter) : ResponseWriter :=
  let url := if bool_decide (target = "") then directory (r_path r) else target in
  let hadCT := bool_decide (is_Some (w_header w !! "Content-Type")) in
  let w := set_header "Location" (hexEscapeNonASCII url) w in
  let w := if negb hadCT && (bool_decide (r_method r = "GET") || bool_decide (r_method r = "HEAD"))
           then set_header "Content-Type" "text/html; charset=utf-8" w else w in
  let w := WriteHeader code w in
  if negb hadCT && bool_decide (r_method r = "GET")
  then Write ("<a href=" +:+ String "034" (htmlEscape url +:+ String "034" (">" +:+ status_name code +:+ "</a>." +:+ line_feed +:+ line_feed))) w
  else w.

(** ** The middleware *)

Definition isFromTrustedProxy (c : Config) (r : http_request) : bool :=
  match ParseIP (host_part (r_remote r)) with
  | None => false
  | Some ip => existsb (fun cidr => match ParseCIDR cidr with Some (_, n) => Contains n ip | None => false end) (TrustedProxies c)
  end.

Definition EqualFold (a b : string) : bool := bool_decide (fold_text a = fold_text b).

Definition isHTTPS (c : Config) (r : http_request) : bool :=
  r_tls r ||
  ((bool_decide (TrustedProxies c = []) || isFromTrustedProxy c r) &&
   ((negb (bool_decide (HeaderKey c = "")) && EqualFold (r_header r (HeaderKey c)) (HeaderValue c)) ||
    bool_decide (r_header r "X-Forwarded-Proto" = "https") || bool_decide (r_header r "X-Scheme" = "https"))).

Definition buildHTTPSURL (c : Config) (r : http_request) : string :=
  let host := Host (r_req r) in
  let host := if bool_decide (host = "") || has_char "/" host || has_char "\" host then URLHost (r_req r) else host in
  if bool_decide (host = "") then ""
  else
    let host := host_part host in
    let target := if Port c =? 443 then "https://" +:+ host +:+ r_path r
                  else "https://" +:+ host +:+ ":" +:+ Itoa (Port c) +:+ r_path r in
    if bool_decide (r_rawquery r = "") then target else target +:+ "?" +:+ r_rawquery r.

Definition host_excluded (c : Config) (r : http_request) : bool :=
  existsb (fun host => bool_decide (Host (r_req r) = host) || HasPrefix (Host (r_req r)) (host +:+ ":")) (ExcludeHosts c).

Definition redirect_code (c : Config) : Z := if Permanent c then 301 else 307.

Section ForceSSL.
Context {W : Type}.
Variable c : Config.

Definition ssl_work (next : Handler W) : Handler W := fun r s w =>
  if host_excluded c r then next r s w
  else if isHTTPS c r then next r s w
  else (Returned, s, Redirect (buildHTTPSURL c r) (redirect_code c) r w).

Definition ForceSSL_Wrap (next : Handler W) : Handler W :=
  if negb (Enabled c) then next else unless_excluded (ExcludePaths c) next (ssl_work next).

Definition ForceSSLMiddleware : Middleware W := mkMiddleware "forcessl" 70 ForceSSL_Wrap None.

(** ** What passes *)

Definition secure (r : http_request) (s : W) : Prop :=
  excluded (ExcludePaths c) (r_path r) = Some true \/ host_excluded c r = true \/ isHTTPS c r = true.

(** Plain requests do not get through: they are sent to the same path and query under
    [https], on the host they name and the configured port. *)
Theorem plain_requests_redirected next r s w host
  (Henabled : Enabled c = true)
  (Hpath : excluded (ExcludePaths c) (r_path r) = Some false) (Hexcluded : host_excluded c r = false) (Hplain : isHTTPS c r = false)
  (Hhost : Host (r_req r) = host) (Hne : host <> "") (Hslash : has_char "/" host = false) (Hback : has_char "\" host = false) :
  exists w', ForceSSL_Wrap next r s w = (Returned, s, w') /\
    Header_Values (w_header w') "Location" =
      [hexEscapeNonASCII ("https://" +:+ host_part host +:+ (if Port c =? 443 then "" else ":" +:+ Itoa (Port c)) +:+ r_path r +:+
         (if bool_decide (r_rawquery r = "") then "" else "?" +:+ r_rawquery r))] /\
    (w_sent w = None -> fst <$> w_sent w' = Some (redirect_code c)).
Proof.
  eexists. split.
  { unfold ForceSSL_Wrap. rewrite Henabled. cbn [negb]. unfold unless_excluded. rewrite Hpath. unfold ssl_work. by rewrite Hexcluded, Hplain. }
  assert (buildHTTPSURL c r = "https://" +:+ host_part host +:+ (if Port c =? 443 then "" else ":" +:+ Itoa (Port c)) +:+ r_path r +:+
         (if bool_decide (r_rawquery r = "") then "" else "?" +:+ r_rawquery r)) as E.
  { unfold buildHTTPSURL. rewrite Hhost, (bool_decide_false (host = "")), Hslash, Hback by done. cbn [orb].
    rewrite (bool_decide_false (host = "")) by done. case_bool_decide; destruct (Port c =? 443); by rewrite ?app_assoc_string, ?app_empty_r. }
  rewrite <- E. set (url := buildHTTPSURL c r) in *. assert (url <> "") as Hurl by (by rewrite E).
  unfold Redirect. rewrite (bool_decide_false (url = "")) by done. cbv zeta.
  set (w1 := set_header "Location" _ w). set (w2 := if _ && (_ || _) then _ else w1).
  assert (Header_Values (w_header w2) "Location" = [hexEscapeNonASCII url] /\ w_sent w2 = w_sent w) as [A B].
  { unfold w2. destruct (_ && (_ || _)); (split; [|reflexivity]); unfold w1, Header_Values, set_header, on_header, Header_Set; cbn [w_header];
      [rewrite lookup_insert_ne by (by vm_compute)|]; by rewrite lookup_insert_eq. }
  clearbody w2. clear w1 E. destruct w2 as [h2 [p|] b2]; cbn in A, B; unfold Write, WriteHeader;
    destruct (_ && bool_decide (r_method r = "GET")); cbn; (split; [done|]); rewrite <- B; done.
Qed.

Lemma ssl_guards : Enabled c = true -> guards secure ForceSSL_Wrap.
Proof.
  intros He h h' Hsame r s w. unfold ForceSSL_Wrap. rewrite He. cbn [negb]. unfold unless_excluded.
  destruct (excluded (ExcludePaths c) (r_path r)) as [[|]|] eqn:Ex; [apply Hsame; by left| |done]. unfold ssl_work.
  destruct (host_excluded c r) eqn:Eh; [apply Hsame; right; by left|]. destruct (isHTTPS c r) eqn:Es; [apply Hsame; by do 2 right|done].
Qed.

(** [New] fills in the name of the header that tells of HTTPS but not its value.  Without a
    configured value every request that lacks the header counts as HTTPS, and the middleware
    redirects nothing. *)
Theorem empty_header_value_disables next r s w c0
  (Hc : c = New c0) (Hvalue : HeaderValue c0 = "") (Hproxies : TrustedProxies c0 = [])
  (Hpath : excluded (ExcludePaths c) (r_path r) <> None)
  (Hheader : r_header r (HeaderKey c) = "") :
  ForceSSL_Wrap next r s w = next r s w.
Proof.
  unfold ForceSSL_Wrap. destruct (Enabled c); [|done]. cbn [negb]. unfold unless_excluded.
  destruct (excluded (ExcludePaths c) (r_path r)) as [[|]|]; [done| |done]. unfold ssl_work. destruct (host_excluded c r); [done|].
  assert (isHTTPS c r = true) as ->; [|done]. unfold isHTTPS. rewrite Hheader. subst c. cbn [New HeaderValue TrustedProxies HeaderKey].
  rewrite Hvalue, Hproxies. destruct (r_tls r); [done|]. rewrite (bool_decide_true ([] = [])) by done. cbn [orb andb].
  assert (bool_decide ((if bool_decide (HeaderKey c0 = "") then "X-Forwarded-Proto" else HeaderKey c0) = "") = false) as ->; [|done].
  apply bool_decide_eq_false. by destruct (bool_decide_reflect (HeaderKey c0 = "")).
Qed.
End ForceSSL.

(** ** Examples *)

Definition demo_ssl (value : string) : Config := New (mkConfig true true [] [] 0 "" value []).
Definition plain_request (host : string) : http_request := set_req (mkRequest "GET" host "" "/a" ∅ [] []) demo_request.
Definition location_of {W} (x : ending * W * ResponseWriter) : list string := Header_Values (w_header (snd x)) "Location".

Lemma plain_requests_redirected_witness : exists w',
  ForceSSL_Wrap (demo_ssl "https") serves (plain_request "a.example:8080") tt fresh_writer = (Returned, tt, w') /\
    Header_Values (w_header w') "Location" =
      [hexEscapeNonASCII ("https://" +:+ host_part "a.example:8080" +:+ (if Port (demo_ssl "https") =? 443 then "" else ":" +:+ Itoa (Port (demo_ssl "https"))) +:+ r_path (plain_request "a.example:8080") +:+
         (if bool_decide (r_rawquery (plain_request "a.example:8080") = "") then "" else "?" +:+ r_rawquery (plain_request "a.example:8080")))] /\
    (w_sent fresh_writer = None -> fst <$> w_sent w' = Some (redirect_code (demo_ssl "https"))).
Proof.
  apply (plain_requests_redirected (demo_ssl "https") serves (plain_request "a.example:8080") tt fresh_writer "a.example:8080");
    vm_compute; reflexivity || discriminate.
Defined.

Example redirected_location :
  location_of (ForceSSL_Wrap (demo_ssl "https") serves (plain_request "a.example:8080") tt fresh_writer) = ["https://a.example/a"].
Proof. vm_compute. done. Qed.

Lemma empty_header_value_disables_witness :
  ForceSSL_Wrap (demo_ssl "") serves (plain_request "a.example") tt fresh_writer = serves (plain_request "a.example") tt fresh_writer.
Proof.
  apply (empty_header_value_disables (demo_ssl "") serves (plain_request "a.example") tt fresh_writer (mkConfig true true [] [] 0 "" "" []));
    vm_compute; reflexivity || discriminate.
Defined.

(** The brackets of an IPv6 host get lost with its port. *)
Example ipv6_host_unbracketed :
  location_of (ForceSSL_Wrap (demo_ssl "https") serves (plain_request "[2001:db8::1]:8080") tt fresh_writer) = ["https://2001:db8::1/a"].
Proof. vm_compute. done. Qed.

(** Without a list of trusted proxies any client may claim to have come by HTTPS. *)
Example claimed_https_passes :
  let r := on_request_header (Header_Set "X-Forwarded-Proto" "https") (plain_request "a.example") in
  status_of (ForceSSL_Wrap (demo_ssl "https") serves r tt fresh_writer) = 200.
Proof. vm_compute. done. Qed.
