(* ===== verification/Retry.v ===== *)
(** * Retrying failed requests: [middleware/retry.go]

    The middleware runs the handler on a buffer until the status is not one to retry on, and
    sends the last recording.  [math.Pow], the random numbers, the passing of time in [Sleep]
    and the boundaries between the writes of a handler are parameters.  A handler here
    announces one status; the buffer, unlike a real writer, would keep the last of several. *)
From S2P Require Import Prelude GoFloat Http Bytes NetIP NetAddr GoStrings GoEncoding Security Middleware ClientAddress.
From Stdlib Require Import Ascii.

Record RetryConfig := mkConfig {
  MaxRetries : Z; RetryOn : list Z; RetryMethods : list string; BackoffInitial : Z; BackoffMax : Z;
  BackoffMultiplier : float64; EnableJitter : bool; MaxResponseSize : Z
}.

Definition millisecond : Z := 10 ^ 6.

Definition DefaultRetryConfig : RetryConfig :=
  mkConfig 3 [502; 503; 504] ["GET"; "HEAD"; "OPTIONS"] (100 * millisecond) (5000 * millisecond) (f64_of_Z 2) true 0.

Definition NewRetryMiddleware (c : RetryConfig) : RetryConfig :=
  let d := DefaultRetryConfig in
  mkConfig (if MaxRetries c <=? 0 then MaxRetries d else MaxRetries c)
    (if bool_decide (RetryOn c = []) then RetryOn d else RetryOn c)
    (if bool_decide (RetryMethods c = []) then RetryMethods d else RetryMethods c)
    (if BackoffInitial c <=? 0 then BackoffInitial d else BackoffInitial c)
    (if BackoffMax c <=? 0 then BackoffMax d else BackoffMax c)
    (if f64_leb (BackoffMultiplier c) (f64_of_Z 0) then BackoffMultiplier d else BackoffMultiplier c)
    (EnableJitter c) (if MaxResponseSize c <=? 0 then 5 * 1024 * 1024 else MaxResponseSize c).

Section Retry.
Context `{MR : !MapRange} {W : Type}.
Variable Pow : float64 -> float64 -> float64.
Variable rand_Float64 : W -> float64 * W.
Variable Sleep : Z -> W -> W.
Variable write_end : Z -> string -> nat.
Variable c : RetryConfig.

Definition isRetryableMethod (method : string) : bool := bool_decide (method ∈ RetryMethods c).
Definition isRetryableStatus (status : Z) : bool := bool_decide (status ∈ RetryOn c).

Definition calculateBackoff (attempt : Z) (s : W) : Z * W :=
  let base := f64_mul (f64_of_Z (BackoffInitial c)) (Pow (BackoffMultiplier c) (f64_of_Z (attempt - 1))) in
  let base := if f64_ltb (f64_of_Z (BackoffMax c)) base then f64_of_Z (BackoffMax c) else base in
  let delay := f64_to_Z base in
  if EnableJitter c then
    let '(x, s) := rand_Float64 s in
    let delay := i64 (delay + f64_to_Z (f64_mul (f64_mul x (f64_div (f64_of_Z 1) (f64_of_Z 2))) (f64_of_Z delay))) in
    (if BackoffMax c <? delay then BackoffMax c else delay, s)
  else (delay, s).

(** [bufferedResponseWriter]: the writes up to the first one that does not fit are kept.
    [write_end max body] is where the last of them ends. *)
Definition status_code (rec : ResponseWriter) : Z := match w_sent rec with Some (code, _) => code | None => 200 end.
Definition buffered (body : string) : string :=
  if Z.of_nat (String.length body) <=? MaxResponseSize c then body else string_take (write_end (MaxResponseSize c) body) body.

(** The pause before every attempt but the first. *)
Definition paused (attempt : Z) (s : W) : W :=
  if 0 <? attempt then let '(delay, s) := calculateBackoff attempt s in Sleep delay s else s.

(** The loop, from an attempt on; [None]: the handler panicked. *)
Fixpoint attempts (more : nat) (attempt : Z) (next : Handler W) (r : http_request) (s : W) : W * option (ResponseWriter * Z) :=
  match next r (paused attempt s) fresh_writer with
  | (Panicked, s, _) => (s, None)
  | (Returned, s, rec) =>
      if negb (isRetryableStatus (status_code rec)) then (s, Some (rec, attempt + 1))
      else match more with
           | O => (s, Some (rec, attempt + 1))
           | S more => attempts more (attempt + 1) next r s
           end
  end.

(** The loops that copy the headers use [Set] for every value. *)
Definition copy_headers (src h : headers) : headers :=
  foldl (fun h '(k, vs) => foldl (fun h v => Header_Set k v h) h vs) h (map_range src).

Definition send (rec : ResponseWriter) (tries : Z) (w : ResponseWriter) : ResponseWriter :=
  let w := set_header "X-Retry-Count" (Itoa (tries - 1)) w in
  let w := on_header (copy_headers (w_header rec)) w in
  let w := WriteHeader (status_code rec) w in
  let body := buffered (w_body rec) in
  if bool_decide (body = "") then w else Write body w.

Definition Retry_Wrap (next : Handler W) : Handler W := fun r s w =>
  if negb (isRetryableMethod (r_method r)) then next r s w
  else match attempts (Z.to_nat (MaxRetries c)) 0 next r s with
       | (s, None) => (Panicked, s, w)
       | (s, Some (rec, tries)) => (Returned, s, send rec tries w)
       end.

Definition RetryMiddleware : Middleware W := mkMiddleware "retry" 750 Retry_Wrap None.

(** ** Which attempt answers *)

(** [tried n s s']: [n] attempts lead from [s] to [s'], and each ended in a status to retry on. *)
Inductive tried (next : Handler W) (r : http_request) : nat -> W -> W -> Prop :=
  | tried_none s : tried next r 0 s s
  | tried_more n s s1 s2 rec :
      tried next r n s s1 -> next r (paused (Z.of_nat n) s1) fresh_writer = (Returned, s2, rec) ->
      isRetryableStatus (status_code rec) = true -> tried next r (S n) s s2.

Lemma attempts_last more n next r s0 s : tried next r n s0 s ->
  exists m s1 e s2 rec, (n <= m <= n + more)%nat /\ tried next r m s0 s1 /\
    next r (paused (Z.of_nat m) s1) fresh_writer = (e, s2, rec) /\
    (e = Returned -> (m < n + more)%nat -> isRetryableStatus (status_code rec) = false) /\
    attempts more (Z.of_nat n) next r s = (s2, match e with Returned => Some (rec, Z.of_nat m + 1) | Panicked => None end).
Proof.
  revert n s. induction more as [|more IH]; intros n s Ht; cbn [attempts];
    destruct (next r (paused (Z.of_nat n) s) fresh_writer) as [[[|] s2] rec] eqn:E.
  - exists n, s, Returned, s2, rec. split_and!; [lia..|done|done|lia|]. by destruct (isRetryableStatus _).
  - exists n, s, Panicked, s2, rec. by split_and!; [lia..|done|done|done|].
  - destruct (isRetryableStatus (status_code rec)) eqn:Er; cbn [negb].
    + replace (Z.of_nat n + 1) with (Z.of_nat (S n)) by lia. destruct (IH (S n) s2) as (m & s1 & e & s3 & rec' & Hm & A & B & C & D).
      { by eapply tried_more. }
      exists m, s1, e, s3, rec'. split_and!; [lia..|done|done| |done]. intros He Hlt. apply C; [done|lia].
    + exists n, s, Returned, s2, rec. by split_and!; [lia..|done|done|done|].
  - exists n, s, Panicked, s2, rec. by split_and!; [lia..|done|done|done|].
Qed.

(** A request of a retryable method is attempted at most [MaxRetries] + 1 times; every
    attempt but the last ended in a status to retry on, the last one did so only when no
    attempt was left, and its answer, or its panic, is that of the middleware. *)
Theorem retry_answers_last_attempt next r s w
  (Hmethod : isRetryableMethod (r_method r) = true) (Hmax : 0 <= MaxRetries c) :
  exists n s1 e s2 rec, Z.of_nat n <= MaxRetries c /\ tried next r n s s1 /\
    next r (paused (Z.of_nat n) s1) fresh_writer = (e, s2, rec) /\
    (e = Returned -> Z.of_nat n < MaxRetries c -> isRetryableStatus (status_code rec) = false) /\
    Retry_Wrap next r s w =
      match e with Returned => (Returned, s2, send rec (Z.of_nat n + 1) w) | Panicked => (Panicked, s2, w) end.
Proof.
  destruct (attempts_last (Z.to_nat (MaxRetries c)) 0 next r s s (tried_none next r s)) as (n & s1 & e & s2 & rec & Hn & A & B & C & D).
  exists n, s1, e, s2, rec. split_and!; [lia|done|done| |].
  - intros He Hlt. apply C; [done|lia].
  - unfold Retry_Wrap. rewrite Hmethod. cbn [negb]. change (Z.of_nat 0) with 0 in D. rewrite D. by destruct e.
Qed.

(** No pause is longer than [BackoffMax] when jitter is on. *)
Lemma backoff_capped attempt s : EnableJitter c = true -> fst (calculateBackoff attempt s) <= BackoffMax c.
Proof.
  intros H. unfold calculateBackoff. cbv zeta. rewrite H. destruct (rand_Float64 s) as [x s']. cbn [fst].
  match goal with |- context [BackoffMax c <? ?d] => destruct (Z.ltb_spec (BackoffMax c) d) end; lia.
Qed.

(** *** Only the last value of a header survives *)

Lemma copy_values_lookup k vs h k' : CanonicalMIMEHeaderKey k = k ->
  foldl (fun h v => Header_Set k v h) h vs !! k' = if decide (k' = k) then match last vs with Some v => Some [v] | None => h !! k' end else h !! k'.
Proof.
  intros Hk. revert h. induction vs as [|v vs IH]; intros h; [by destruct (decide _)|]. cbn [foldl]. rewrite IH. unfold Header_Set. rewrite Hk.
  destruct (decide (k' = k)) as [->|Hn]; [|by rewrite lookup_insert_ne]. rewrite lookup_insert_eq. destruct vs as [|v' vs]; [done|].
  change (last (v :: v' :: vs)) with (last (v' :: vs)). destruct (last (v' :: vs)) eqn:El; [done|]. by apply last_None in El.
Qed.

Lemma copy_list_lookup l h k vs v : NoDup l.*1 -> Forall (fun kv => CanonicalMIMEHeaderKey kv.1 = kv.1) l -> (k, vs ++ [v]) ∈ l ->
  foldl (fun h '(k, vs) => foldl (fun h v => Header_Set k v h) h vs) h l !! k = Some [v].
Proof.
  revert h. induction l as [|[k1 vs1] l IH]; intros h Hnd Hc Hin; [by apply elem_of_nil in Hin|]. cbn [foldl].
  apply NoDup_cons in Hnd as [Hk1 Hnd]. apply Forall_cons in Hc as [Hc1 Hc]. apply elem_of_cons in Hin as [[= <- <-]|Hin]; [|by apply IH].
  cbn in Hk1, Hc1. assert (forall h', foldl (fun h '(k, vs) => foldl (fun h v => Header_Set k v h) h vs) h' l !! k = h' !! k) as ->.
  { clear -Hk1 Hc. induction l as [|[k2 vs2] l IH]; intros h'; [done|]. cbn [foldl]. apply Forall_cons in Hc as [Hc2 Hc]. cbn in *.
    rewrite IH by (done || set_solver). rewrite copy_values_lookup by done. rewrite decide_False; [done|set_solver]. }
  rewrite copy_values_lookup by done. rewrite decide_True by done. by rewrite last_snoc.
Qed.

(** Of a header with several values, such as two cookies that the backend sets, only the last
    one reaches the client. *)
Theorem retry_keeps_last_value rec tries w k vs v
  (Hcanonical : forall k, is_Some (w_header rec !! k) -> CanonicalMIMEHeaderKey k = k)
  (Hvalues : w_header rec !! k = Some (vs ++ [v])) :
  w_header (send rec tries w) !! k = Some [v].
Proof.
  assert (w_header (send rec tries w) = copy_headers (w_header rec) (Header_Set "X-Retry-Count" (Itoa (tries - 1)) (w_header w))) as ->.
  { unfold send, Write, WriteHeader. destruct w as [h [x|] b]; case_bool_decide; reflexivity. }
  unfold copy_headers. apply copy_list_lookup with vs.
  - rewrite map_range_perm. apply NoDup_fst_map_to_list.
  - apply Forall_forall. intros [k' vs'] Hin. rewrite map_range_perm in Hin. apply elem_of_map_to_list in Hin. apply Hcanonical. by eexists.
  - rewrite map_range_perm. by apply elem_of_map_to_list.
Qed.
End Retry.

(** ** Examples *)

#[local] Instance retry_range : MapRange := gmap_range.

Definition no_pow (_ _ : float64) : float64 := f64_of_Z 1.
Definition no_rand (s : nat) : float64 * nat := (f64_of_Z 0, s).
Definition no_sleep (_ : Z) (s : nat) : nat := s.
Definition first_write (_ : Z) (_ : string) : nat := 0.
Definition demo_retry : RetryConfig := NewRetryMiddleware DefaultRetryConfig.

(** A backend that is unavailable a number of times. *)
Definition recovers_after (n : nat) : Handler nat := fun _ s w =>
  if (s <? n)%nat then (Returned, S s, WriteHeader 503 w) else (Returned, S s, Write "page" (WriteHeader 200 w)).
Definition retry_serve (next : Handler nat) := Retry_Wrap no_pow no_rand no_sleep first_write demo_retry next demo_request 0%nat fresh_writer.

Example retried_until_success : let '(_, s, w) := retry_serve (recovers_after 2) in s = 3%nat /\ answer w = (200, w_header w, "page").
Proof. vm_compute. done. Qed.

Lemma retry_answers_last_attempt_witness :
  exists n s1 e s2 rec, Z.of_nat n <= MaxRetries demo_retry /\
    tried no_pow no_rand no_sleep demo_retry (recovers_after 9) demo_request n 0%nat s1 /\
    recovers_after 9 demo_request (paused no_pow no_rand no_sleep demo_retry (Z.of_nat n) s1) fresh_writer = (e, s2, rec) /\
    (e = Returned -> Z.of_nat n < MaxRetries demo_retry -> isRetryableStatus demo_retry (status_code rec) = false) /\
    retry_serve (recovers_after 9) =
      match e with
      | Returned => (Returned, s2, send first_write demo_retry rec (Z.of_nat n + 1) fresh_writer)
      | Panicked => (Panicked, s2, fresh_writer)
      end.
Proof.
  apply (retry_answers_last_attempt no_pow no_rand no_sleep first_write demo_retry (recovers_after 9) demo_request 0%nat fresh_writer);
    vm_compute; reflexivity || discriminate.
Defined.

Definition two_cookies : ResponseWriter :=
  WriteHeader 200 (on_header (Header_Add "Set-Cookie" "b=2") (on_header (Header_Add "Set-Cookie" "a=1") fresh_writer)).

Lemma retry_keeps_last_value_witness :
  w_header (send first_write demo_retry two_cookies 1 fresh_writer) !! "Set-Cookie" = Some ["b=2"].
Proof.
  apply (retry_keeps_last_value first_write demo_retry two_cookies 1 fresh_writer "Set-Cookie" ["a=1"] "b=2"); [|vm_compute; reflexivity].
  intros k [vs Hk]. destruct (decide (k = "Set-Cookie")) as [->|Hn]; [vm_compute; reflexivity|].
  cbv [two_cookies WriteHeader w_sent fresh_writer on_header w_header Header_Add] in Hk.
  change (CanonicalMIMEHeaderKey "Set-Cookie") with "Set-Cookie" in Hk. rewrite !lookup_insert_ne in Hk by congruence. discriminate.
Defined.

(** An answer above the limit is cut down to the writes that fit, though the comment says it
    is streamed: with one write nothing is left of it. *)
Example large_answer_lost :
  let small := mkConfig 3 [503] ["GET"] 1 1 (f64_of_Z 2) false 4 in
  let next : Handler nat := fun _ s w => (Returned, s, Write "a page" w) in
  let '(_, _, w) := Retry_Wrap no_pow no_rand no_sleep first_write small next demo_request 0%nat fresh_writer in
  fst (fst (answer w)) = 200 /\ w_body w = "".
Proof. vm_compute. done. Qed.
