(* ===== verification/Timeout.v ===== *)
(** * The time limit of requests: [middleware/timeout.go]

    The handler runs in a goroutine of its own; the middleware waits for its end or for the
    deadline.  Both write to the same response, so the model is a transition system over the
    steps of the two.  What the handler does is a list of actions on the writer; every call
    that writes first sets the flag that the middleware looks at. *)
From S2P Require Import Prelude Http Bytes NetIP NetAddr GoStrings GoEncoding Security Middleware.
From Stdlib Require Import Ascii.

Record TimeoutConfig := mkConfig { Timeout : Z; Message : string }.
Definition DefaultTimeoutConfig : TimeoutConfig := mkConfig (60 * 10 ^ 9) "request timeout".
Definition NewTimeoutMiddleware (c : TimeoutConfig) : TimeoutConfig :=
  mkConfig (if Timeout c <=? 0 then 60 * 10 ^ 9 else Timeout c) (if bool_decide (Message c = "") then "request timeout" else Message c).

(** One action of the handler. *)
Inductive action := OnHeader (f : headers -> headers) | SendHeader (code : Z) | SendBody (text : string) | Panic.

(** The handler between its steps: the flag of [timeoutWriter] is stored before the call is
    passed on. *)
Inductive handler_pc := Running (todo : list action) | Stored (a : action) (todo : list action) | Closed.

(** The middleware: in the [select]; then, after the deadline, about to look at the flag, to
    set the header, to send the status and to write the message; finished. *)
Inductive main_pc := Waiting | Checking | Typing | Heading | Messaging | Finished.

Record system := mkSystem {
  handler : handler_pc; main : main_pc; writer : ResponseWriter; written : bool; expired : bool;
  answered : option ResponseWriter   (* the writer when the middleware returned *)
}.

Definition start (todo : list action) (w : ResponseWriter) : system := mkSystem (Running todo) Waiting w false false None.

Definition perform (a : action) (w : ResponseWriter) : ResponseWriter :=
  match a with
  | OnHeader f => on_header f w
  | SendHeader code => WriteHeader code w
  | SendBody text => Write text w
  | Panic => w
  end.

Section Steps.
Variable c : TimeoutConfig.

Inductive step : system -> system -> Prop :=
  (* the handler *)
  | step_header f l m w b x a : step (mkSystem (Running (OnHeader f :: l)) m w b x a) (mkSystem (Running l) m (on_header f w) b x a)
  | step_store d l m w b x a : (forall f, d <> OnHeader f) -> d <> Panic ->
      step (mkSystem (Running (d :: l)) m w b x a) (mkSystem (Stored d l) m w true x a)
  | step_write d l m w b x a : step (mkSystem (Stored d l) m w b x a) (mkSystem (Running l) m (perform d w) b x a)
  | step_end m w b x a : step (mkSystem (Running []) m w b x a) (mkSystem Closed m w b x a)
  | step_panic l m w b x a : step (mkSystem (Running (Panic :: l)) m w b x a) (mkSystem Closed m w b x a)
  (* time *)
  | step_expire h m w b a : step (mkSystem h m w b false a) (mkSystem h m w b true a)
  (* the middleware *)
  | step_done w b x a : step (mkSystem Closed Waiting w b x a) (mkSystem Closed Finished w b x (Some w))
  | step_deadline h w b a : step (mkSystem h Waiting w b true a) (mkSystem h Checking w b true a)
  | step_check_written h w x a : step (mkSystem h Checking w true x a) (mkSystem h Finished w true x (Some w))
  | step_check h w x a : step (mkSystem h Checking w false x a) (mkSystem h Typing w false x a)
  | step_type h w b x a :
      step (mkSystem h Typing w b x a) (mkSystem h Heading (set_header "Content-Type" "text/plain; charset=utf-8" w) b x a)
  | step_status h w b x a : step (mkSystem h Heading w b x a) (mkSystem h Messaging (WriteHeader 504 w) b x a)
  | step_message h w b x a :
      step (mkSystem h Messaging w b x a) (mkSystem h Finished (Write (Message c) w) b x (Some (Write (Message c) w))).

(** ** What the client gets *)

(** What the middleware does on a timeout, as actions. *)
Definition on_timeout : list action :=
  [OnHeader (Header_Set "Content-Type" "text/plain; charset=utf-8"); SendHeader 504; SendBody (Message c)].

Definition performed (l : list action) (w : ResponseWriter) : ResponseWriter := foldl (fun w a => perform a w) w l.
Definition is_header (a : action) : Prop := exists f, a = OnHeader f.

(** [merge p q t]: [t] is an interleaving of [p] and [q]. *)
Inductive merge {A} : list A -> list A -> list A -> Prop :=
  | merge_nil : merge [] [] []
  | merge_left p q t a : merge p q t -> merge (p ++ [a]) q (t ++ [a])
  | merge_right p q t a : merge p q t -> merge p (q ++ [a]) (t ++ [a]).

(** What is left to do; after a panic the rest is dropped. *)
Definition pending (h : handler_pc) (rest : list action) : Prop :=
  match h with Running l => rest = l | Stored a l => rest = a :: l | Closed => rest = [] \/ exists l, rest = Panic :: l end.
Definition silent (h : handler_pc) : Prop := match h with Stored _ _ => False | _ => True end.

(** How far the answer to the timeout has come. *)
Definition progress (m : main_pc) : option nat :=
  match m with Typing => Some 0%nat | Heading => Some 1%nat | Messaging => Some 2%nat | _ => None end.

Definition in_time_or_partial (todo : list action) (w0 w : ResponseWriter) : Prop :=
  exists p rest, todo = p ++ rest /\ Panic ∉ p /\ w = performed p w0.
Definition timed_out (todo : list action) (w0 : ResponseWriter) (k : nat) (rest : list action) (w : ResponseWriter) : Prop :=
  exists hs p t, todo = hs ++ p ++ rest /\ Forall is_header hs /\ Panic ∉ p /\ merge p (take k on_timeout) t /\ w = performed (hs ++ t) w0.

Record timeout_ok (todo : list action) (w0 : ResponseWriter) (s : system) : Prop := {
  to_stored a l : handler s = Stored a l -> a <> Panic;
  to_before : main s = Waiting \/ main s = Checking -> exists p rest, todo = p ++ rest /\ Panic ∉ p /\ pending (handler s) rest /\
    writer s = performed p w0 /\ (written s = false -> Forall is_header p /\ silent (handler s));
  to_after k : progress (main s) = Some k -> exists rest, pending (handler s) rest /\ timed_out todo w0 k rest (writer s);
  to_answer : main s = Finished -> exists w, answered s = Some w /\
    (in_time_or_partial todo w0 w \/ exists rest, timed_out todo w0 3 rest w)
}.

Lemma performed_snoc l a w : performed (l ++ [a]) w = perform a (performed l w).
Proof. unfold performed. by rewrite foldl_app. Qed.

Lemma header_snoc p f : Forall is_header p -> Forall is_header (p ++ [OnHeader f]).
Proof. intros H. apply Forall_app. split; [done|]. repeat constructor. by eexists. Qed.

Lemma no_panic_snoc p a : Panic ∉ p -> a <> Panic -> Panic ∉ p ++ [a].
Proof. intros Hp Ha. rewrite elem_of_app, list_elem_of_singleton. intros [?|?]; [done|congruence]. Qed.

Lemma timed_start_ok todo w0 : timeout_ok todo w0 (start todo w0).
Proof.
  split; cbn; try done. intros _. exists [], todo. split_and!; try done. by intros ?%elem_of_nil.
Qed.

(** A step of the handler that performs an action, before and after the deadline. *)
Lemma handler_performs todo w0 h m w b x an l a b' :
  timeout_ok todo w0 (mkSystem h m w b x an) -> (forall r, pending h r -> r = a :: l) -> a <> Panic ->
  (b' = false -> b = false /\ (silent h -> is_header a)) -> timeout_ok todo w0 (mkSystem (Running l) m (perform a w) b' x an).
Proof.
  intros [H0 H1 H2 H3] Hp Ha Hb. cbn in *. split; cbn; [done|..|done].
  - intros Hm. destruct (H1 Hm) as (p & r & E1 & E0 & E2 & E3 & E4). rewrite (Hp r E2) in E1. exists (p ++ [a]), l. split_and!.
    + by rewrite <- app_assoc.
    + by apply no_panic_snoc.
    + done.
    + by rewrite performed_snoc, E3.
    + intros E. destruct (Hb E) as [E5 E6]. destruct (E4 E5) as [E7 E8]. split; [|done]. apply Forall_app. split; [done|]. repeat constructor. by apply E6.
  - intros k Hk. destruct (H2 k Hk) as (r & E1 & hs & p & t & E2 & E3 & E0 & E4 & E5). rewrite (Hp r E1) in E2. exists l. split; [done|].
    exists hs, (p ++ [a]), (t ++ [a]). split_and!; [by rewrite <- app_assoc|done|by apply no_panic_snoc|by constructor|]. by rewrite app_assoc, performed_snoc, E5.
Qed.

Lemma main_performs todo w0 h m w b x an k a :
  timeout_ok todo w0 (mkSystem h m w b x an) -> progress m = Some k -> take (S k) on_timeout = take k on_timeout ++ [a] ->
  exists rest, pending h rest /\ timed_out todo w0 (S k) rest (perform a w).
Proof.
  intros [_ _ H2 _] Hk Ha. destruct (H2 k Hk) as (rest & E1 & hs & p & t & E2 & E3 & E0 & E4 & E5). exists rest. split; [done|].
  exists hs, p, (t ++ [a]). rewrite Ha. split_and!; [done|done|done|by constructor|]. by rewrite app_assoc, performed_snoc, <- E5.
Qed.

(** A step of the handler that performs nothing. *)
Lemma handler_moves todo w0 h m w b x an h' b' :
  timeout_ok todo w0 (mkSystem h m w b x an) -> (forall r, pending h r -> exists r', pending h' r' /\ r' = r) ->
  (forall a l, h' = Stored a l -> a <> Panic) -> (b' = false -> b = false /\ (silent h -> silent h')) ->
  timeout_ok todo w0 (mkSystem h' m w b' x an).
Proof.
  intros [H0 H1 H2 H3] Hp Hs Hb. cbn in *. split; cbn; [done|..|done].
  - intros Hm. destruct (H1 Hm) as (p & r & E1 & E0 & E2 & E3 & E4). destruct (Hp r E2) as (? & ? & ->). exists p, r. split_and!; [done|done|done|done|].
    intros E. destruct (Hb E) as [E5 E6]. destruct (E4 E5). by split; [|apply E6].
  - intros k Hk. destruct (H2 k Hk) as (r & E1 & Ht). destruct (Hp r E1) as (? & ? & ->). by exists r.
Qed.

(** The middleware returns while it has not begun to answer itself. *)
Lemma main_returns todo w0 h m w b x an :
  timeout_ok todo w0 (mkSystem h m w b x an) -> m = Waiting \/ m = Checking -> timeout_ok todo w0 (mkSystem h Finished w b x (Some w)).
Proof.
  intros [H0 H1 _ _] Hm. split; cbn; [done|by intros [?|?]|done|]. intros _. exists w. split; [done|]. left.
  destruct (H1 Hm) as (p & r & E1 & E0 & _ & E3 & _). by exists p, r.
Qed.

Lemma step_timeout_ok todo w0 s s' : step s s' -> timeout_ok todo w0 s -> timeout_ok todo w0 s'.
Proof.
  intros Hs Hok. destruct Hs as [f l m w b x a|d l m w b x a Hd1 Hd2|d l m w b x a|m w b x a|l m w b x a|h m w b a|w b x a|h w b a|h w x a|h w x a|h w b x a|h w b x a|h w b x a].
  - apply (handler_performs _ _ _ _ _ _ _ _ l (OnHeader f) b Hok); [by cbn; intros r ->|done|]. intros ->. split; [done|]. intros _. by eexists.
  - apply (handler_moves _ _ _ _ _ _ _ _ _ _ Hok); [intros r ->; by eexists|by intros ? ? [= -> ->]|done].
  - apply (handler_performs _ _ _ _ _ _ _ _ l d b Hok); [by cbn; intros r ->|by apply (to_stored _ _ _ Hok d l)|by intros ->].
  - apply (handler_moves _ _ _ _ _ _ _ _ _ _ Hok); [intros r ->; eexists; split; [by left|done]|done|done].
  - apply (handler_moves _ _ _ _ _ _ _ _ _ _ Hok); [intros r ->; eexists; split; [by right; eexists|done]|done|done].
  - destruct Hok as [H0 H1 H2 H3]. by split.
  - by apply (main_returns _ _ _ _ _ _ _ _ Hok); left.
  - destruct Hok as [H0 H1 H2 H3]. split; cbn; [done| |done..]. intros _. by apply H1; left.
  - by apply (main_returns _ _ _ _ _ _ _ _ Hok); right.
  - destruct Hok as [H0 H1 H2 H3]. split; cbn; [done|by intros [?|?]| |done]. intros k [= <-].
    destruct (H1 (or_intror eq_refl)) as (p & r & E1 & E0 & E2 & E3 & E4).
    exists r. split; [done|]. destruct (E4 eq_refl) as [E5 _]. exists p, [], []. split_and!; [done|done|by intros ?%elem_of_nil|constructor|by rewrite app_nil_r].
  - destruct (main_performs _ _ _ _ _ _ _ _ 0 _ Hok eq_refl eq_refl) as (r & E1 & E2).
    split; cbn; [apply (to_stored _ _ _ Hok)|by intros [?|?]| |done]. intros k [= <-]. by exists r.
  - destruct (main_performs _ _ _ _ _ _ _ _ 1 _ Hok eq_refl eq_refl) as (r & E1 & E2).
    split; cbn; [apply (to_stored _ _ _ Hok)|by intros [?|?]| |done]. intros k [= <-]. by exists r.
  - destruct (main_performs _ _ _ _ _ _ _ _ 2 _ Hok eq_refl eq_refl) as (r & E1 & E2).
    split; cbn; [apply (to_stored _ _ _ Hok)|by intros [?|?]|done|]. intros _. eexists. split; [done|]. right. by exists r.
Qed.

Lemma timed_reachable_ok todo w0 s : rtc step (start todo w0) s -> timeout_ok todo w0 s.
Proof.
  intros Hr. pose proof (timed_start_ok todo w0) as H0. induction Hr as [|x y z Hxy _ IH]; [done|]. apply IH. by eapply step_timeout_ok.
Qed.

(** Before the deadline the middleware finishes only when the handler has ended or panicked. *)
Definition timely (todo : list action) (w0 : ResponseWriter) (s : system) : Prop :=
  expired s = false -> main s = Waiting \/
  (main s = Finished /\ exists p, (todo = p \/ exists l, todo = p ++ Panic :: l) /\ Panic ∉ p /\ answered s = Some (performed p w0)).

Lemma reachable_timely todo w0 s : rtc step (start todo w0) s -> timely todo w0 s.
Proof.
  revert s. apply (rtc_ind_r (timely todo w0) (start todo w0)); [by left|].
  intros s1 s2 H1 Hs IH. apply timed_reachable_ok in H1. destruct Hs; intros Hx; cbn in *;
    try (destruct (IH Hx) as [?|[? ?]]; [by left|by right]); try done;
    try (destruct (IH Hx) as [?|[? _]]; done).
  right. split; [done|]. destruct (to_before _ _ _ H1 (or_introl eq_refl)) as (p & r & E1 & E0 & E2 & E3 & _). cbn in *.
  exists p. split_and!; [|done|by rewrite E3]. destruct E2 as [->|[l ->]]; [left; by rewrite app_nil_r in E1|right; by exists l].
Qed.

(** The answer is what the handler wrote, all of it when the deadline did not pass and else
    perhaps a part; or, when the deadline found that nothing had been written, the three
    actions of the timeout, into which writes of the handler may fall. *)
Theorem timeout_outcomes todo w0 s (Hrun : rtc step (start todo w0) s) (Hfinished : main s = Finished) :
  exists w, answered s = Some w /\
    (expired s = false -> exists p, (todo = p \/ exists l, todo = p ++ Panic :: l) /\ Panic ∉ p /\ w = performed p w0) /\
    (in_time_or_partial todo w0 w \/
     exists hs p rest t, todo = hs ++ p ++ rest /\ Forall is_header hs /\ Panic ∉ p /\ merge p on_timeout t /\ w = performed (hs ++ t) w0).
Proof.
  destruct (to_answer _ _ _ (timed_reachable_ok _ _ _ Hrun) Hfinished) as (w & Ea & Hw). exists w. split; [done|]. split.
  - intros Hx. destruct (reachable_timely _ _ _ Hrun Hx) as [?|(_ & p & Hp & Hn & E)]; [congruence|]. exists p. split_and!; [done|done|congruence].
  - destruct Hw as [?|(rest & hs & p & t & Ht)]; [by left|]. right. by exists hs, p, rest, t.
Qed.

(** Once the deadline has passed the middleware needs no step of the handler to finish. *)
Theorem timeout_finishes s (Hexpired : expired s = true) : exists s', rtc step s s' /\ main s' = Finished /\ handler s' = handler s.
Proof.
  destruct s as [h m w b x a]. cbn in Hexpired. subst x.
  assert (forall w a, exists s', rtc step (mkSystem h Messaging w b true a) s' /\ main s' = Finished /\ handler s' = h) as F4.
  { intros w1 a1. eexists. split; [by eapply rtc_once, step_message|done]. }
  assert (forall w a, exists s', rtc step (mkSystem h Heading w b true a) s' /\ main s' = Finished /\ handler s' = h) as F3.
  { intros w1 a1. destruct (F4 (WriteHeader 504 w1) a1) as (s' & R & E). exists s'. split; [|done]. eapply rtc_l; [apply step_status|done]. }
  assert (forall w a, exists s', rtc step (mkSystem h Typing w b true a) s' /\ main s' = Finished /\ handler s' = h) as F2.
  { intros w1 a1. destruct (F3 (set_header "Content-Type" "text/plain; charset=utf-8" w1) a1) as (s' & R & E). exists s'. split; [|done].
    eapply rtc_l; [apply step_type|done]. }
  assert (forall w a, exists s', rtc step (mkSystem h Checking w b true a) s' /\ main s' = Finished /\ handler s' = h) as F1.
  { intros w1 a1. destruct b; [eexists; split; [by eapply rtc_once, step_check_written|done]|].
    destruct (F2 w1 a1) as (s' & R & E). exists s'. split; [|done]. eapply rtc_l; [apply step_check|done]. }
  destruct m; [|by apply F1|by apply F2|by apply F3|by apply F4|by eexists; split; [apply rtc_refl|]].
  destruct (F1 w a) as (s' & R & E). exists s'. split; [|done]. eapply rtc_l; [apply step_deadline|done].
Qed.

(** A handler that panics in time before it has written anything is answered with an empty
    page and status 200: the goroutine swallows the panic, and the middlewares further out,
    the one for recovery among them, see a handler that returned. *)
Theorem panic_answered_200 hs l w0 s w
  (Hrun : rtc step (start (hs ++ Panic :: l) w0) s) (Hintime : expired s = false) (Hanswer : answered s = Some w)
  (Hfinished : main s = Finished) (Hheaders : Forall is_header hs) (Hfresh : w_sent w0 = None) :
  answer w = (200, w_header w, w_body w0).
Proof.
  destruct (reachable_timely _ _ _ Hrun Hintime) as [?|(_ & p & Hp & Hn & E)]; [congruence|]. assert (w = performed p w0) as -> by congruence. clear E Hanswer.
  assert (p = hs) as ->.
  { destruct Hp as [<-|[l' Hp]]; [exfalso; apply Hn; set_solver|]. assert (Panic ∉ hs) as Hh.
    { intros Hin. rewrite Forall_forall in Hheaders. by destruct (Hheaders _ Hin). }
    clear -Hp Hn Hh. revert p Hp Hn. induction hs as [|a hs IH]; intros [|b p] Hp Hn; [done|..]; injection Hp as E Hp; [set_solver..|].
    subst b. f_equal. apply IH; [set_solver|done|set_solver]. }
  assert (forall q, Forall is_header q -> w_sent (performed q w0) = None /\ w_body (performed q w0) = w_body w0) as Hq.
  { intros q. induction q as [|a q IH] using rev_ind; [done|]. rewrite performed_snoc. intros [Hf [f ->]%Forall_singleton]%Forall_app. by apply IH. }
  destruct (Hq hs Hheaders) as [E1 E2]. unfold answer. by rewrite E1, E2.
Qed.
End Steps.

(** ** Examples *)

Definition demo_timeout : TimeoutConfig := NewTimeoutMiddleware (mkConfig 0 "").
Definition page_script : list action := [SendHeader 200; SendBody "page"].

Definition served : system := mkSystem Closed Finished (performed page_script fresh_writer) true false (Some (performed page_script fresh_writer)).

Lemma served_run : rtc (step demo_timeout) (start page_script fresh_writer) served.
Proof.
  eapply rtc_l; [by apply step_store|]. eapply rtc_l; [apply step_write|]. eapply rtc_l; [by apply step_store|].
  eapply rtc_l; [apply step_write|]. eapply rtc_l; [apply step_end|]. eapply rtc_l; [apply step_done|]. apply rtc_refl.
Qed.

Lemma timeout_outcomes_witness : exists w, answered served = Some w /\
    (expired served = false -> exists p, (page_script = p \/ exists l, page_script = p ++ Panic :: l) /\ Panic ∉ p /\ w = performed p fresh_writer) /\
    (in_time_or_partial page_script fresh_writer w \/
     exists hs p rest t, page_script = hs ++ p ++ rest /\ Forall is_header hs /\ Panic ∉ p /\ merge p (on_timeout demo_timeout) t /\
       w = performed (hs ++ t) fresh_writer).
Proof. apply (timeout_outcomes demo_timeout page_script fresh_writer served); [exact served_run|reflexivity]. Defined.

Lemma timeout_finishes_witness :
  exists s', rtc (step demo_timeout) (mkSystem (Running page_script) Waiting fresh_writer false true None) s' /\ main s' = Finished /\
    handler s' = Running page_script.
Proof. apply (timeout_finishes demo_timeout (mkSystem (Running page_script) Waiting fresh_writer false true None)). reflexivity. Defined.

Lemma panic_answered_200_witness : answer fresh_writer = (200, w_header fresh_writer, "").
Proof.
  apply (panic_answered_200 demo_timeout [] [] fresh_writer (mkSystem Closed Finished fresh_writer false false (Some fresh_writer)) fresh_writer);
    [|reflexivity..|constructor|reflexivity].
  eapply rtc_l; [apply step_panic|]. eapply rtc_l; [apply step_done|apply rtc_refl].
Defined.

(** The flag is looked at before the answer is written: a handler that begins to write in
    between gets the message of the timeout appended to its page, under its own status. *)
Example message_under_status_200 : exists s w, rtc (step demo_timeout) (start page_script fresh_writer) s /\
  main s = Finished /\ answered s = Some w /\ fst (fst (answer w)) = 200 /\ w_body w = "pagerequest timeout".
Proof.
  eexists. eexists. split.
  - eapply rtc_l; [apply step_expire|]. eapply rtc_l; [apply step_deadline|]. eapply rtc_l; [apply step_check|].
    eapply rtc_l; [by apply step_store|]. eapply rtc_l; [apply step_write|]. eapply rtc_l; [by apply step_store|]. eapply rtc_l; [apply step_write|].
    eapply rtc_l; [apply step_type|]. eapply rtc_l; [apply step_status|]. eapply rtc_l; [apply step_message|]. apply rtc_refl.
  - vm_compute. done.
Qed.
