(* ===== verification/HeaderPolicies.v ===== *)
(** * Middlewares that set headers: [middleware/headers.go], [secureheaders], [csp], [requestid]

    Random bytes are a parameter.  The response side of [headers.go] acts when the handler
    sends its status; the writer that comes back holds the result under the assumption that
    the handler leaves the header alone after that. *)
From S2P Require Import Prelude Http Bytes NetIP NetAddr GoStrings GoEncoding Security Middleware AuthFacts ClientAddress CrossSite.
From Stdlib Require Import Ascii.

(** ** [headers.go] *)

Module Headers.

Record HeadersConfig := mkConfig {
  RequestAdd : gmap string string; RequestSet : gmap string string; RequestRemove : list string;
  ResponseAdd : gmap string string; ResponseSet : gmap string string; ResponseRemove : list string; SecurityPreset : string
}.

Section Headers.
Context `{MR : !MapRange}.
Variable c : HeadersConfig.

Definition modify (f : string -> string) (remove : list string) (set add : gmap string string) (h : headers) : headers :=
  let h := foldl (fun h k => Header_Del k h) h remove in
  let h := foldl (fun h '(k, v) => Header_Set k (f v) h) h (map_range set) in
  foldl (fun h '(k, v) => Header_Add k (f v) h) h (map_range add).

Definition modifyRequestHeaders (r : http_request) : http_request :=
  on_request_header (modify (fun v => v) (RequestRemove c) (RequestSet c) (RequestAdd c)) r.

Definition basic_preset (h : headers) : headers :=
  Header_Set "X-XSS-Protection" "1; mode=block" (Header_Set "X-Frame-Options" "DENY" (Header_Set "X-Content-Type-Options" "nosniff" h)).
Definition applySecurityPreset (h : headers) : headers :=
  if bool_decide (SecurityPreset c = "basic") then basic_preset h
  else if bool_decide (SecurityPreset c = "strict") then
    Header_Set "Referrer-Policy" "strict-origin-when-cross-origin" (Header_Set "Content-Security-Policy" "default-src 'self'"
      (Header_Set "Strict-Transport-Security" "max-age=31536000; includeSubDomains" (basic_preset h)))
  else h.

Definition modifyResponseHeaders (h : headers) : headers :=
  modify SanitizeHeaderValue (ResponseRemove c) (ResponseSet c) (ResponseAdd c) (applySecurityPreset h).

(** The first call of [WriteHeader] on the wrapped writer. *)
Definition wrapped (before after : ResponseWriter) : ResponseWriter :=
  match w_sent before, w_sent after with
  | None, Some (code, h) => mkWriter (modifyResponseHeaders (w_header after)) (Some (code, modifyResponseHeaders h)) (w_body after)
  | _, _ => after
  end.

Definition Headers_Wrap {W} (next : Handler W) : Handler W := fun r s w =>
  let '(e, s, w') := next (modifyRequestHeaders r) s w in (e, s, wrapped w w').

Definition HeadersMiddleware {W} : Middleware W := mkMiddleware "headers" 700 Headers_Wrap None.

(** *** What is set arrives *)

Lemma foldl_del_lookup l h k : foldl (fun h k => Header_Del k h) h l !! k = if decide (k ∈ CanonicalMIMEHeaderKey <$> l) then None else h !! k.
Proof.
  revert h. induction l as [|x l IH]; intros h; [done|]. cbn [foldl fmap list_fmap]. rewrite IH. unfold Header_Del.
  destruct (decide (k ∈ _ <$> l)) as [Hk|Hk]; [by rewrite decide_True by (by right)|]. destruct (decide (k = CanonicalMIMEHeaderKey x)) as [->|Hn].
  - rewrite lookup_delete_eq. by rewrite decide_True by (by left).
  - rewrite lookup_delete_ne by done. rewrite decide_False; [done|]. rewrite elem_of_cons. tauto.
Qed.

Lemma foldl_set_other (f : string -> string) l h k : k ∉ (fun kv => CanonicalMIMEHeaderKey kv.1) <$> l ->
  foldl (fun h '(k, v) => Header_Set k (f v) h) h l !! k = (h : headers) !! k.
Proof.
  revert h. induction l as [|[x v] l IH]; intros h Hk; [done|]. cbn [foldl fmap list_fmap fst] in *. apply not_elem_of_cons in Hk as [Hn Hk].
  rewrite IH by done. unfold Header_Set. by rewrite lookup_insert_ne.
Qed.

Lemma foldl_add_other (f : string -> string) l h k : k ∉ (fun kv => CanonicalMIMEHeaderKey kv.1) <$> l ->
  foldl (fun h '(k, v) => Header_Add k (f v) h) h l !! k = (h : headers) !! k.
Proof.
  revert h. induction l as [|[x v] l IH]; intros h Hk; [done|]. cbn [foldl fmap list_fmap fst] in *. apply not_elem_of_cons in Hk as [Hn Hk].
  rewrite IH by done. unfold Header_Add. by rewrite lookup_insert_ne.
Qed.

Definition canonical_map (m : gmap string string) : Prop := forall k, is_Some (m !! k) -> CanonicalMIMEHeaderKey k = k.

Lemma range_keys (m : gmap string string) k : canonical_map m ->
  k ∈ (fun kv => CanonicalMIMEHeaderKey kv.1) <$> map_range m <-> is_Some (m !! k).
Proof.
  intros Hc. rewrite map_range_perm, list_elem_of_fmap. split.
  - intros ([k' v] & -> & Hin). apply elem_of_map_to_list in Hin. cbn. assert (CanonicalMIMEHeaderKey k' = k') as -> by (apply Hc; by eexists). by eexists.
  - intros [v Hv]. exists (k, v). split; [symmetry; apply Hc; by eexists|by apply elem_of_map_to_list].
Qed.

Lemma foldl_set_lookup (f : string -> string) m h k v : canonical_map m -> m !! k = Some v ->
  foldl (fun h '(k, v) => Header_Set k (f v) h) h (map_range m) !! k = Some [f v].
Proof.
  intros Hc Hm. assert ((k, v) ∈ map_range m) as Hin by (rewrite map_range_perm; by apply elem_of_map_to_list).
  assert (NoDup (map_range m).*1) as Hnd by (rewrite map_range_perm; apply NoDup_fst_map_to_list).
  assert (forall kv, kv ∈ map_range m -> CanonicalMIMEHeaderKey kv.1 = kv.1) as Hcan.
  { intros [k' v'] Hk. rewrite map_range_perm in Hk. apply elem_of_map_to_list in Hk. apply Hc. by eexists. }
  revert h. induction (map_range m) as [|[x y] l IH]; intros h; [by apply elem_of_nil in Hin|]. cbn [foldl]. cbn in Hnd. apply NoDup_cons in Hnd as [Hx Hnd].
  apply elem_of_cons in Hin as [[= <- <-]|Hin].
  - rewrite foldl_set_other.
    + unfold Header_Set. pose proof (Hcan (k, v) ltac:(by left)) as E. cbn in E. by rewrite E, lookup_insert_eq.
    + rewrite list_elem_of_fmap. intros ([k' v'] & E & Hk). pose proof (Hcan (k', v') ltac:(by right)) as E'. cbn in E, E'. rewrite E' in E. subst k'.
      apply Hx. rewrite list_elem_of_fmap. by exists (k, v').
  - apply IH; [done|done|]. intros kv Hk. apply Hcan. by right.
Qed.

(** A header that the configuration sets, with a name in canonical form, goes out with the
    configured value, without control characters, whatever the backend or the preset said;
    one that it removes and does not set or add does not go out at all, nor does any header
    that the configuration leaves alone change. *)
Theorem response_headers_enforced {W} (next : Handler W) r s w e s' w' code h
  (Hset : canonical_map (ResponseSet c)) (Hadd : canonical_map (ResponseAdd c)) (Hunsent : w_sent w = None)
  (Hnext : next (modifyRequestHeaders r) s w = (e, s', w')) (Hsent : w_sent w' = Some (code, h)) :
  exists h', w_sent (snd (Headers_Wrap next r s w)) = Some (code, h') /\
    (forall k v, ResponseSet c !! k = Some v -> ResponseAdd c !! k = None -> h' !! k = Some [SanitizeHeaderValue v]) /\
    (forall k, ResponseSet c !! k = None -> ResponseAdd c !! k = None ->
       h' !! k = if decide (k ∈ CanonicalMIMEHeaderKey <$> ResponseRemove c) then None else applySecurityPreset h !! k).
Proof.
  exists (modifyResponseHeaders h). split; [unfold Headers_Wrap; rewrite Hnext; unfold wrapped; rewrite Hunsent, Hsent; done|].
  assert (forall k, ResponseAdd c !! k = None -> k ∉ (fun kv => CanonicalMIMEHeaderKey kv.1) <$> map_range (ResponseAdd c)) as Ha.
  { intros k Hk. rewrite range_keys by done. rewrite Hk. by intros [? ?]. }
  unfold modifyResponseHeaders, modify. split.
  - intros k v Hk Hn. rewrite foldl_add_other by (by apply Ha). by apply foldl_set_lookup.
  - intros k Hk Hn. rewrite foldl_add_other by (by apply Ha). rewrite foldl_set_other; [by apply foldl_del_lookup|].
    rewrite range_keys by done. rewrite Hk. by intros [? ?].
Qed.
End Headers.
End Headers.

(** ** [secureheaders] *)

Module SecureHeaders.

Record HSTSConfig := mkHSTS { MaxAge : Z; IncludeSubdomains : bool; Preload : bool }.
Record Config := mkConfig {
  Enabled : bool; XFrameOptions : string; XContentTypeOptions : bool; XXSSProtection : string; ReferrerPolicy : string;
  ContentSecurityPolicy : string; StrictTransportPolicy : option HSTSConfig; XPermittedCrossDomainPolicies : string;
  XDownloadOptions : string; XDNSPrefetchControl : string; PermissionsPolicy : string; CrossOriginEmbedderPolicy : string;
  CrossOriginOpenerPolicy : string; CrossOriginResourcePolicy : string; CacheControl : string; ExcludePaths : list string
}.

Definition DefaultConfig : Config :=
  mkConfig false "DENY" true "1; mode=block" "strict-origin-when-cross-origin" "" None "" "noopen" "off" "" "require-corp"
    "same-origin" "same-origin" "" [].
Definition RecommendedConfig : Config :=
  mkConfig true "DENY" true "1; mode=block" "strict-origin-when-cross-origin" "" (Some (mkHSTS 31536000 true false)) "" "noopen" "off" ""
    "require-corp" "same-origin" "cross-origin" "" [].
Definition PermissiveConfig : Config :=
  mkConfig true "SAMEORIGIN" true "1; mode=block" "no-referrer-when-downgrade" "" None "" "noopen" "off" "" ""
    "same-origin-allow-popups" "" "" [].

Definition buildHSTS (p : HSTSConfig) : string :=
  join_with "; " (["max-age=" +:+ Itoa (MaxAge p)] ++ (if IncludeSubdomains p then ["includeSubDomains"] else []) ++
                  (if Preload p then ["preload"] else [])).

(** The headers in the order in which they are set; an empty value sets none. *)
Definition table (c : Config) : list (string * string) :=
  [("X-Frame-Options", XFrameOptions c); ("X-Content-Type-Options", if XContentTypeOptions c then "nosniff" else "");
   ("X-XSS-Protection", XXSSProtection c); ("Referrer-Policy", ReferrerPolicy c); ("Content-Security-Policy", ContentSecurityPolicy c);
   ("Strict-Transport-Security", match StrictTransportPolicy c with Some p => buildHSTS p | None => "" end);
   ("X-Permitted-Cross-Domain-Policies", XPermittedCrossDomainPolicies c); ("X-Download-Options", XDownloadOptions c);
   ("X-DNS-Prefetch-Control", XDNSPrefetchControl c); ("Permissions-Policy", PermissionsPolicy c);
   ("Cross-Origin-Embedder-Policy", CrossOriginEmbedderPolicy c); ("Cross-Origin-Opener-Policy", CrossOriginOpenerPolicy c);
   ("Cross-Origin-Resource-Policy", CrossOriginResourcePolicy c); ("Cache-Control", CacheControl c)].

Definition setHeaders (c : Config) (h : headers) : headers :=
  foldl (fun h '(k, v) => if bool_decide (v = "") then h else Header_Set k v h) h (table c).

Definition Secure_Wrap {W} (c : Config) (next : Handler W) : Handler W :=
  if negb (Enabled c) then next
  else unless_excluded (ExcludePaths c) next (fun r s w => next r s (on_header (setHeaders c) w)).

Definition SecureHeadersMiddleware {W} (c : Config) : Middleware W := mkMiddleware "secureheaders" 750 (Secure_Wrap c) None.

(** The names are distinct and those of [net/http], so every configured header is in place when
    the handler begins, and no other header changes. *)
Lemma setHeaders_lookup c h k :
  setHeaders c h !! k = match pair_get k ((fun kv => (CanonicalMIMEHeaderKey kv.1, kv.2)) <$> table c) with
                        | Some v => if bool_decide (v = "") then h !! k else Some [v]
                        | None => h !! k
                        end.
Proof.
  unfold setHeaders. assert (NoDup ((fun kv => CanonicalMIMEHeaderKey kv.1) <$> table c)) as Hnd by (by apply (bool_decide_unpack _); vm_compute).
  revert h. induction (table c) as [|[x v] l IH]; intros h; [done|]. cbn [foldl fmap list_fmap pair_get fst snd] in *. apply NoDup_cons in Hnd as [Hx Hnd].
  rewrite IH by done. destruct (decide (CanonicalMIMEHeaderKey x = k)) as [<-|Hk].
  - rewrite (bool_decide_true (CanonicalMIMEHeaderKey x = CanonicalMIMEHeaderKey x)) by done. assert (pair_get (CanonicalMIMEHeaderKey x) ((fun kv => (CanonicalMIMEHeaderKey kv.1, kv.2)) <$> l) = None) as ->.
    { clear -Hx. induction l as [|[y u] l IH]; [done|]. cbn in *. apply not_elem_of_cons in Hx as [Hn Hx]. rewrite bool_decide_false by congruence. by apply IH. }
    case_bool_decide; [done|]. unfold Header_Set. by rewrite lookup_insert_eq.
  - rewrite (bool_decide_false (CanonicalMIMEHeaderKey x = k)) by done.
    destruct (bool_decide (v = "")) eqn:Ev; [done|]. unfold Header_Set. destruct (pair_get _ _) as [u|]; [destruct (bool_decide (u = "")); [|done]|]; by rewrite lookup_insert_ne by congruence.
Qed.
End SecureHeaders.

(** ** [csp] *)

Module CSP.

Record Config := mkConfig {
  Enabled : bool; DefaultSrc : list string; ScriptSrc : list string; StyleSrc : list string; ImgSrc : list string; ConnectSrc : list string;
  FontSrc : list string; ObjectSrc : list string; MediaSrc : list string; FrameSrc : list string; FrameAncestors : list string;
  FormAction : list string; BaseURI : list string; UpgradeInsecure : bool; BlockAllMixed : bool; ReportURI : string; ReportTo : string;
  NonceScript : bool; NonceStyle : bool; UnsafeInline : bool; UnsafeEval : bool; ExcludePaths : list string
}.

Definition directive (name : string) (sources : list string) : list string :=
  match sources with [] => [] | _ => [name +:+ " " +:+ join_with " " sources] end.
Definition script_sources (c : Config) : list string :=
  ScriptSrc c ++ (if UnsafeInline c then ["'unsafe-inline'"] else []) ++ (if UnsafeEval c then ["'unsafe-eval'"] else []).

Definition directives (c : Config) : list string :=
  directive "default-src" (DefaultSrc c) ++ directive "script-src" (script_sources c) ++ directive "style-src" (StyleSrc c) ++
  directive "img-src" (ImgSrc c) ++ directive "connect-src" (ConnectSrc c) ++ directive "font-src" (FontSrc c) ++
  directive "object-src" (ObjectSrc c) ++ directive "media-src" (MediaSrc c) ++ directive "frame-src" (FrameSrc c) ++
  directive "frame-ancestors" (FrameAncestors c) ++ directive "form-action" (FormAction c) ++ directive "base-uri" (BaseURI c) ++
  (if UpgradeInsecure c then ["upgrade-insecure-requests"] else []) ++ (if BlockAllMixed c then ["block-all-mixed-content"] else []) ++
  (if bool_decide (ReportURI c = "") then [] else ["report-uri " +:+ ReportURI c]) ++
  (if bool_decide (ReportTo c = "") then [] else ["report-to " +:+ ReportTo c]).

Definition buildPolicy (c : Config) : string := join_with "; " (directives c).

(** [strings.ReplaceAll] for a text that is not empty: [skip] characters belong to an
    occurrence that has been replaced. *)
Fixpoint replace_all (old new : string) (skip : nat) (s : string) : string :=
  match s with
  | EmptyString => ""
  | String a r =>
      match skip with
      | S skip => replace_all old new skip r
      | O => if HasPrefix s old then new +:+ replace_all old new (String.length old - 1) r else String a (replace_all old new 0 r)
      end
  end.
Definition ReplaceAll (s old new : string) : string := replace_all old new 0 s.

Definition with_nonce (name nonce policy : string) : string :=
  ReplaceAll policy (name +:+ " ") (name +:+ " 'nonce-" +:+ nonce +:+ "' ").

Definition buildPolicyWithNonces (c : Config) (scriptNonce styleNonce : string) : string :=
  let policy := buildPolicy c in
  let policy := if NonceScript c && negb (bool_decide (scriptNonce = "")) then with_nonce "script-src" scriptNonce policy else policy in
  if NonceStyle c && negb (bool_decide (styleNonce = "")) then with_nonce "style-src" styleNonce policy else policy.

Section CSP.
Context {W : Type}.
Variable rand_bytes : Z -> W -> option string * W.
Variable c : Config.

Definition generateNonce (s : W) : option string * W :=
  let '(b, s) := rand_bytes 16 s in (EncodeToString StdEncoding <$> b, s).

(** A nonce that is wanted, with the header that tells it. *)
Definition nonce (wanted : bool) (key : string) (s : W) (w : ResponseWriter) : option string * W * ResponseWriter :=
  if wanted then
    match generateNonce s with
    | (Some n, s) => (Some n, s, set_header key n w)
    | (None, s) => (None, s, w)
    end
  else (Some "", s, w).

Definition csp_work (next : Handler W) : Handler W := fun r s w =>
  match nonce (NonceScript c) "X-Script-Nonce" s w with
  | (None, s, w) => (Returned, s, http_Error "internal server error" 500 w)
  | (Some script, s, w) =>
      match nonce (NonceStyle c) "X-Style-Nonce" s w with
      | (None, s, w) => (Returned, s, http_Error "internal server error" 500 w)
      | (Some style, s, w) =>
          let policy := if NonceScript c || NonceStyle c then buildPolicyWithNonces c script style else buildPolicy c in
          next r s (set_header "Content-Security-Policy" policy w)
      end
  end.

Definition CSP_Wrap (next : Handler W) : Handler W :=
  if negb (Enabled c) then next else unless_excluded (ExcludePaths c) next (csp_work next).

Definition CSPMiddleware : Middleware W := mkMiddleware "csp" 610 CSP_Wrap None.
End CSP.

(** A text that does not occur is not replaced. *)
Lemma replace_all_absent old new s : strings_Contains s old = false -> replace_all old new 0 s = s.
Proof.
  induction s as [|a s IH]; [done|]. cbn [strings_Contains replace_all]. intros H. apply orb_false_iff in H as [H1 H2].
  unfold HasPrefix. rewrite H1. by rewrite IH.
Qed.

(** A nonce only finds its way into a policy that has the directive: without a list of
    sources for scripts the header [X-Script-Nonce] tells a nonce that the policy does not
    know. *)
Theorem nonce_needs_directive c script
  (Hnonce : NonceScript c = true) (Hstyle : NonceStyle c = false) (Habsent : strings_Contains (buildPolicy c) "script-src " = false) :
  buildPolicyWithNonces c script "" = buildPolicy c.
Proof.
  unfold buildPolicyWithNonces. rewrite Hnonce, Hstyle. cbn [andb]. case_bool_decide; cbn [negb]; [done|].
  unfold with_nonce, ReplaceAll. by apply replace_all_absent.
Qed.

Definition bare : Config :=
  mkConfig true ["'self'"] [] [] [] [] [] [] [] [] [] [] [] false false "" "" true false false false [].

(** With [default-src] alone the browser is told a nonce that unlocks nothing. *)
Example nonce_announced_in_vain :
  w_header (snd (CSP_Wrap (fun _ s => (Some "0123456789abcdef", s)) bare (fun r s w => (Returned, s, w))
                   (request_from "192.0.2.1:40" ∅) tt fresh_writer)) =
  Header_Set "Content-Security-Policy" "default-src 'self'" (Header_Set "X-Script-Nonce" "MDEyMzQ1Njc4OWFiY2RlZg==" ∅).
Proof. by vm_compute. Qed.
End CSP.

(** ** [requestid] *)

Module RequestID.

Record Config := mkConfig {
  Enabled : bool; HeaderName : string; Generate : bool; Length : Z; Response : bool; ExcludePaths : list string
}.
Definition DefaultConfig : Config := mkConfig false "X-Request-ID" true 16 true [].
Definition New (c : Config) : Config :=
  mkConfig (Enabled c) (if bool_decide (HeaderName c = "") then "X-Request-ID" else HeaderName c) (Generate c)
    (if Length c =? 0 then 16 else Length c) (Response c) (ExcludePaths c).

Section RequestID.
Context {W : Type}.
Variable rand_bytes : Z -> W -> option string * W.
Variable UnixNano : W -> Z * W.
Variable next_seq : W -> Z * W.
Variable c : Config.

(** [byte(v >> (8 * i))] for [i] from 0 to 7. *)
Definition le_bytes (v : Z) : string :=
  text_of ((fun i => char_of (Z.land (Z.shiftr v (8 * Z.of_nat i)) 255)) <$> seq 0 8).

Definition fallbackID (s : W) : string * W :=
  let '(now, s) := UnixNano s in
  let '(n, s) := next_seq s in
  (hex_encode (le_bytes (u64 now) +:+ le_bytes n), s).

Definition generateID (s : W) : string * W :=
  match rand_bytes (Length c) s with
  | (Some b, s) => (hex_encode b, s)
  | (None, s) => fallbackID s
  end.

Definition id_work (next : Handler W) : Handler W := fun r s w =>
  let id := r_header r (HeaderName c) in
  let '(id, s) := if bool_decide (id = "") && Generate c then generateID s else (id, s) in
  if bool_decide (id = "") then next r s w
  else
    let r := on_request_header (Header_Set (HeaderName c) id) (WithValue "request_id" (CtxText id) r) in
    next r s (if Response c then set_header (HeaderName c) id w else w).

Definition ID_Wrap (next : Handler W) : Handler W :=
  if negb (Enabled c) then next else unless_excluded (ExcludePaths c) next (id_work next).
Definition Get (ctx : list (string * ctx_value)) : string :=
  match ctx_lookup "request_id" ctx with Some (CtxText id) => id | _ => "" end.
Definition RequestIDMiddleware : Middleware W := mkMiddleware "requestid" 90 ID_Wrap None.

Lemma Header_Get_set k v h : Header_Get (Header_Set k v h) k = v.
Proof. unfold Header_Get, Header_Set. by rewrite lookup_insert_eq. Qed.

Lemma hex_encode_nonempty s : s <> "" -> hex_encode s <> "".
Proof. by destruct s. Qed.

(** An identifier is never empty: random bytes come in the number asked for, and the fallback
    takes 16 bytes of time and counter. *)
Lemma generateID_nonempty s (Hlength : 0 < Length c)
  (Hrandom : forall n s b s', rand_bytes n s = (Some b, s') -> Z.of_nat (String.length b) = n) :
  fst (generateID s) <> "".
Proof.
  unfold generateID. destruct (rand_bytes (Length c) s) as [[b|] s'] eqn:E; cbn [fst].
  - apply hex_encode_nonempty. apply Hrandom in E. intros ->. cbn in E. lia.
  - unfold fallbackID. destruct (UnixNano s') as [now s1], (next_seq s1) as [n s2]. by apply hex_encode_nonempty.
Qed.

(** The handler finds one and the same identifier in the context and in the header of the
    request, and in the header of the answer: the one the client sent, if it sent one. *)
Theorem request_id_propagates next r s w
  (Henabled : Enabled c = true) (Hpath : excluded (ExcludePaths c) (r_path r) = Some false)
  (Hgenerate : Generate c = true) (Hresponse : Response c = true)
  (Hlength : 0 < Length c) (Hrandom : forall n s b s', rand_bytes n s = (Some b, s') -> Z.of_nat (String.length b) = n) :
  exists id r' s' w', ID_Wrap next r s w = next r' s' w' /\ id <> "" /\
    (r_header r (HeaderName c) <> "" -> id = r_header r (HeaderName c) /\ s' = s) /\
    r_header r' (HeaderName c) = id /\ Get (r_ctx r') = id /\
    Header_Get (w_header w') (HeaderName c) = id.
Proof.
  unfold ID_Wrap. rewrite Henabled. cbn [negb]. unfold unless_excluded. rewrite Hpath. unfold id_work. rewrite Hgenerate, andb_true_r, Hresponse.
  assert (forall id s', id <> "" -> exists id' r' s'' w',
    (let r := on_request_header (Header_Set (HeaderName c) id) (WithValue "request_id" (CtxText id) r) in next r s' (set_header (HeaderName c) id w)) = next r' s'' w' /\
    id' = id /\ s'' = s' /\ r_header r' (HeaderName c) = id /\ Get (r_ctx r') = id /\ Header_Get (w_header w') (HeaderName c) = id) as Hid.
  { intros id s' Hne. exists id, (on_request_header (Header_Set (HeaderName c) id) (WithValue "request_id" (CtxText id) r)), s', (set_header (HeaderName c) id w).
    split_and!; [done..| | |]; [apply Header_Get_set| |apply Header_Get_set]. done. }
  case_bool_decide as E.
  - pose proof (generateID_nonempty s Hlength Hrandom) as Hid'. destruct (generateID s) as [id s'] eqn:Eg. cbn in Hid'. rewrite (bool_decide_false (id = "")) by done.
    destruct (Hid id s' Hid') as (id' & r' & s'' & w' & E1 & -> & -> & E2 & E3 & E4). by exists id, r', s', w'.
  - rewrite (bool_decide_false (_ = "")) by done. destruct (Hid _ s E) as (id' & r' & s'' & w' & E1 & -> & -> & E2 & E3 & E4). eexists _, r', s, w'. by split_and!.
Qed.
End RequestID.
End RequestID.
