(* ===== verification/SecurityFacts.v ===== *)
(** * What the hardening guarantees

    Sanitized paths have no way up and sanitizing them again changes nothing; an accepted
    request is framed in one way only; sanitized header values stay on their line. *)
From S2P Require Import Prelude Http Bytes NetIP NetAddr GoStrings Security.
From Stdlib Require Import Ascii.

(** ** The replacer *)

Definition is_percent (c : ascii) : bool := Ascii.eqb c "%"%char.

Lemma replace_at_percent a r : is_percent a = false -> replace_at (String a r) = None.
Proof. unfold is_percent, replace_at. intros H. destruct r as [|b [|c r]]; [done|done|]. by rewrite H. Qed.

Lemma replacer_cons a r : is_percent a = false -> replacer_Replace (String a r) = String a (replacer_Replace r).
Proof.
  intros H. destruct r as [|b [|c r]]; [done|done|].
  change (replacer_Replace (String a (String b (String c r)))) with
    (match replace_at (String a (String b (String c r))) with
     | Some (x, _) => String x (replacer_Replace r)
     | None => String a (replacer_Replace (String b (String c r)))
     end).
  by rewrite replace_at_percent.
Qed.

(** An encoded sequence somewhere. *)
Fixpoint encoded (s : string) : bool :=
  match s with
  | EmptyString => false
  | String a r => (if replace_at s then true else false) || encoded r
  end.

(** Only a dot or a slash is put in place of a sequence. *)
Lemma replace_at_spec s x r : replace_at s = Some (x, r) ->
  (x = "."%char \/ x = "/"%char) /\ exists b c, s = String "%" (String b (String c r)).
Proof.
  unfold replace_at. destruct s as [|a [|b [|c t]]]; try done.
  destruct (Ascii.eqb_spec a "%"%char) as [->|]; [|done].
  repeat case_match; try done; intros [= <- <-]; (split; [auto|by exists b, c]).
Qed.

(** Whether a sequence begins at a position depends on three characters. *)
Lemma replace_at_second a b r : replace_at (String a (String b r)) <> None -> b = "2"%char \/ b = "5"%char.
Proof.
  unfold replace_at. destruct r as [|c r]; [done|]. case_match; [|done].
  destruct (Ascii.eqb_spec b "2"%char) as [->|]; [by left|]. destruct (Ascii.eqb_spec b "5"%char) as [->|]; [by right|].
  done.
Qed.

Lemma replace_at_third a b c r : replace_at (String a (String b (String c r))) <> None -> c <> "."%char /\ c <> "/"%char.
Proof.
  unfold replace_at. case_match; [|done]. intros H1. split; intros ->; cbn in H1; by rewrite !andb_false_r in H1.
Qed.

Lemma replace_at_tail a b c r r' :
  replace_at (String a (String b (String c r))) = None -> replace_at (String a (String b (String c r'))) = None.
Proof. unfold replace_at. repeat case_match; done. Qed.

(** The first character stays, unless a sequence begins there. *)
Lemma replacer_head s b t :
  replacer_Replace s = String b t -> b <> "."%char -> b <> "/"%char -> exists r, s = String b r.
Proof.
  intros Hs H1 H2. revert Hs.
  destruct s as [|a [|a2 [|a3 r]]]; [done|intros [= <- _]; eauto..|].
  change (replacer_Replace (String a (String a2 (String a3 r)))) with
    (match replace_at (String a (String a2 (String a3 r))) with
     | Some (x, _) => String x (replacer_Replace r)
     | None => String a (replacer_Replace (String a2 (String a3 r)))
     end).
  destruct (replace_at _) as [[x r']|] eqn:E; intros [= <- _]; [|eauto].
  by apply replace_at_spec in E as [[?|?] _].
Qed.

Lemma replacer_clean s : encoded (replacer_Replace s) = false.
Proof.
  remember (String.length s) as n eqn:En. revert s En. induction n as [n IH] using lt_wf_ind. intros s ->.
  destruct s as [|a r]; [done|]. destruct (is_percent a) eqn:Ha.
  2: { rewrite replacer_cons by done. cbn [encoded]. rewrite replace_at_percent by done.
       apply (IH (String.length r)); [cbn; lia|done]. }
  destruct r as [|b [|c r]].
  { cbn. unfold replace_at. done. }
  { cbn [replacer_Replace]. done. }
  change (encoded (match replace_at (String a (String b (String c r))) with
     | Some (x, _) => String x (replacer_Replace r)
     | None => String a (replacer_Replace (String b (String c r)))
     end) = false).
  destruct (replace_at (String a (String b (String c r)))) as [[x r']|] eqn:E.
  - destruct (replace_at_spec _ _ _ E) as [Hx _]. cbn [encoded]. rewrite replace_at_percent by (destruct Hx; by subst).
    apply (IH (String.length r)); [cbn; lia|done].
  - cbn [encoded]. rewrite (IH (String.length (String b (String c r)))) by (cbn; lia || done).
    rewrite orb_false_r. destruct (replace_at (String a (replacer_Replace (String b (String c r))))) eqn:E2; [|done].
    exfalso. destruct (replacer_Replace (String b (String c r))) as [|b' t] eqn:Er; [done|].
    assert (Hb' : b' = "2"%char \/ b' = "5"%char) by (apply (replace_at_second a b' t); congruence).
    assert (Hb2 : b' <> "."%char /\ b' <> "/"%char) by (by destruct Hb' as [->| ->]).
    destruct (replacer_head _ _ _ Er) as [r2 E1]; [apply Hb2..|]. injection E1 as -> <-.
    rewrite replacer_cons in Er by (by destruct Hb' as [->| ->]). assert (Et : t = replacer_Replace (String c r)) by congruence. subst t. clear Er.
    destruct (replacer_Replace (String c r)) as [|c' t'] eqn:Er'; [by cbn in E2|].
    destruct (replace_at_third a b' c' t') as [H1 H2]; [congruence|].
    destruct (replacer_head _ _ _ Er') as [r3 E3]; [done..|]. injection E3 as -> <-.
    by rewrite (replace_at_tail _ _ _ _ _ E) in E2.
Qed.

Lemma replacer_stable s : encoded s = false -> replacer_Replace s = s.
Proof.
  induction s as [|a r IH]; [done|]. cbn [encoded]. intros [Ha Hr]%orb_false_iff.
  destruct r as [|b [|c r]]; [done|by cbn in *|].
  change (replacer_Replace (String a (String b (String c r)))) with
    (match replace_at (String a (String b (String c r))) with
     | Some (x, _) => String x (replacer_Replace r)
     | None => String a (replacer_Replace (String b (String c r)))
     end).
  destruct (replace_at _); [done|]. by rewrite IH.
Qed.

(** One pass replaces everything that later passes could: the loop of
    [decodeTraversalSequences] runs once and then finds nothing new. *)
Lemma replacer_once s : replacer_Replace (replacer_Replace s) = replacer_Replace s.
Proof. apply replacer_stable, replacer_clean. Qed.

Lemma replace_loop_once n s : replace_loop (S (S n)) s = replacer_Replace s.
Proof.
  cbn [replace_loop]. case_bool_decide as E; [by rewrite E|]. rewrite replacer_once. by rewrite bool_decide_true.
Qed.

Lemma decode_once s : s <> "" -> decodeTraversalSequences s = slashes (replacer_Replace s).
Proof. intros Hs. unfold decodeTraversalSequences. destruct s as [|a s]; [done|]. cbn [String.length]. by rewrite replace_loop_once. Qed.

(** ** Segments *)

Lemma forallb_Split f s : f "/"%char = true ->
  string_forallb f s = forallb (string_forallb f) (Split "/"%char s).
Proof.
  intros Hf. induction s as [|a r IH]; [done|]. cbn [Split string_forallb]. rewrite IH.
  destruct (Ascii.eqb_spec a "/"%char) as [->|]; [by rewrite Hf|].
  destruct (Split "/"%char r); [by cbn; rewrite !andb_true_r|]. cbn. by rewrite andb_assoc.
Qed.

Definition is_some {A} (o : option A) : bool := if o then true else false.

Lemma replace_at_segment a r p ps :
  a <> "/"%char -> Split "/"%char r = p :: ps -> is_some (replace_at (String a r)) = is_some (replace_at (String a p)).
Proof.
  intros Ha. destruct r as [|b r]; cbn [Split]; [by intros [= <- _]|].
  destruct (Ascii.eqb_spec b "/"%char) as [->|Hb].
  { intros [= <- _]. destruct r as [|c r]; [done|]. cbn. by destruct (Ascii.eqb a "%"). }
  destruct r as [|c r]; cbn [Split]; [by intros [= <- _]|].
  destruct (Ascii.eqb_spec c "/"%char) as [->|Hc].
  { intros [= <- _]. cbn. rewrite !andb_false_r. by destruct (Ascii.eqb a "%"). }
  destruct (Split "/"%char r); intros [= <- _]; cbn; repeat case_match; done.
Qed.

Lemma encoded_Split s : encoded s = existsb encoded (Split "/"%char s).
Proof.
  induction s as [|a r IH]; [done|]. cbn [encoded Split].
  destruct (Ascii.eqb_spec a "/"%char) as [->|Ha].
  { rewrite replace_at_percent by done. by rewrite IH. }
  destruct (Split "/"%char r) as [|p ps] eqn:E; [by destruct (Split_nonempty "/"%char r)|].
  change ((is_some (replace_at (String a r)) || encoded r) = existsb encoded (String a p :: ps)).
  rewrite (replace_at_segment _ _ _ _ Ha E), IH. cbn [existsb encoded]. by rewrite orb_assoc.
Qed.

(** The segments that [path.Clean] keeps of a rooted path. *)
Definition proper (s : string) : Prop := s <> "" /\ s <> "." /\ s <> "..".

Lemma clean_segments_rooted acc segs x :
  Forall proper acc -> x ∈ clean_segments true acc segs -> proper x /\ (x ∈ acc \/ x ∈ segs).
Proof.
  revert acc. induction segs as [|s segs IH]; intros acc Hacc; cbn [clean_segments].
  { intros Hx. apply list_elem_of_In, in_rev, list_elem_of_In in Hx. split; [by eapply Forall_forall in Hacc|by left]. }
  case_bool_decide as E1; cbn [orb].
  { intros [H1 H2]%IH; [|done]. split; [done|]. set_solver. }
  case_bool_decide as E2; cbn [orb].
  { intros [H1 H2]%IH; [|done]. split; [done|]. set_solver. }
  case_bool_decide as E3.
  - destruct acc as [|y acc].
    + intros [H1 H2]%IH; [|done]. split; [done|]. set_solver.
    + apply Forall_cons in Hacc as [Hy Hacc]. rewrite bool_decide_false by apply Hy.
      intros [H1 H2]%IH; [|done]. split; [done|]. set_solver.
  - intros [H1 H2]%IH; [|by constructor]. split; [done|]. set_solver.
Qed.

Lemma clean_segments_proper rooted acc segs :
  Forall proper segs -> clean_segments rooted acc segs = rev acc ++ segs.
Proof.
  revert acc. induction segs as [|s segs IH]; intros acc; cbn [clean_segments]; [by rewrite app_nil_r|].
  intros [(H1 & H2 & H3) Hs]%Forall_cons. rewrite !bool_decide_false by done. cbn [orb]. rewrite IH by done.
  cbn [rev]. by rewrite <- app_assoc.
Qed.

(** ** Backslashes *)

Definition no_backslash (c : ascii) : bool := negb (byte_of c =? 92).

Lemma slashes_plain s : string_forallb no_backslash (slashes s) = true.
Proof.
  induction s as [|c s IH]; [done|]. cbn [slashes string_forallb]. rewrite IH, andb_true_r.
  unfold no_backslash, slash_of. by destruct (byte_of c =? 92) eqn:E; [|rewrite E].
Qed.

Lemma slashes_id s : string_forallb no_backslash s = true -> slashes s = s.
Proof.
  induction s as [|c s IH]; [done|]. cbn [slashes string_forallb]. intros [Hc Hs]%andb_true_iff.
  unfold slash_of. unfold no_backslash in Hc. apply negb_true_iff in Hc. by rewrite Hc, IH.
Qed.

Lemma slash_of_eqb c x : byte_of x <> 92 -> x <> "/"%char -> Ascii.eqb (slash_of c) x = Ascii.eqb c x.
Proof.
  intros H1 H2. unfold slash_of. destruct (Z.eqb_spec (byte_of c) 92) as [E|]; [|done].
  destruct (Ascii.eqb_spec c x) as [->|]; [done|]. destruct (Ascii.eqb_spec "/"%char x) as [<-|]; done.
Qed.

Lemma encoded_slashes s : encoded (slashes s) = encoded s.
Proof.
  induction s as [|a s IH]; [done|]. cbn [slashes encoded]. rewrite IH. f_equal.
  destruct s as [|b [|c r]]; [done|done|]. cbn [slashes]. unfold replace_at.
  rewrite !slash_of_eqb by (cbn; done). repeat case_match; done.
Qed.

(** ** Sanitized paths *)

Lemma Split_parts c s : Forall (all_chars (fun a => a <> c)) (Split c s).
Proof.
  induction s as [|a r IH]; cbn [Split]; [by repeat constructor|].
  destruct (Ascii.eqb_spec a c) as [->|Ha]; [by constructor|].
  destruct (Split c r) as [|p ps]; [by repeat constructor|]. apply Forall_cons in IH as [Hp Hps]. by repeat constructor.
Qed.

(** The text of a path from its segments. *)
Definition rooted_path (segs : list string) : string := "/" +:+ Join "/"%char segs.

Definition segment (s : string) : Prop := proper s /\ all_chars (fun a => a <> "/"%char) s.

Lemma Split_rooted segs : Forall segment segs ->
  Split "/"%char (rooted_path segs) = "" :: match segs with [] => [""] | _ => segs end.
Proof.
  intros Hs. unfold rooted_path. rewrite append_cons, append_nil. cbn [Split]. change (Ascii.eqb "/" "/") with true.
  f_equal. destruct segs as [|x segs]; [done|]. apply Split_Join; [done|].
  eapply Forall_impl; [exact Hs|]. by intros y [_ Hy].
Qed.

(** What [path.Clean] makes of a rooted path. *)
Lemma path_Clean_rooted r : exists segs, path_Clean (String "/" r) = rooted_path segs /\ Forall segment segs /\
  forall x, x ∈ segs -> x ∈ Split "/"%char (String "/" r).
Proof.
  exists (clean_segments true [] (Split "/"%char (String "/" r))). split; [done|].
  assert (H : forall x, x ∈ clean_segments true [] (Split "/"%char (String "/" r)) ->
    proper x /\ x ∈ Split "/"%char (String "/" r)).
  { intros x Hx. apply clean_segments_rooted in Hx as [H1 [H2|H2]]; [by apply elem_of_nil in H2|done|constructor]. }
  split; [|by intros x Hx; apply H].
  apply Forall_forall. intros x Hx. destruct (H x Hx) as [H1 H2]. split; [done|].
  pose proof (Split_parts "/"%char (String "/" r)) as Hp. rewrite Forall_forall in Hp. by apply Hp.
Qed.

Lemma path_Clean_fixed segs : Forall segment segs -> path_Clean (rooted_path segs) = rooted_path segs.
Proof.
  intros Hs. unfold path_Clean. rewrite (Split_rooted _ Hs). unfold rooted_path at 1 2. rewrite append_cons.
  rewrite bool_decide_false by done. cbn [starts_with]. change (Ascii.eqb "/" "/") with true. cbv iota.
  unfold rooted_path. f_equal. cbn [clean_segments]. rewrite bool_decide_true by done. cbn [orb].
  destruct segs as [|x segs]; [done|]. rewrite clean_segments_proper; [done|].
  eapply Forall_impl; [exact Hs|]. by intros y [Hy _].
Qed.

(** C23: A path that begins with a slash is sanitized to a path of proper segments: no empty
    ones, no "." and "..", no encoded dots or slashes and no backslashes.  Sanitizing such a
    path again changes nothing. *)
Theorem sanitized_path_safe p (Hp : starts_with "/"%char p = true) :
  exists segs, SanitizePath p = rooted_path segs /\ Forall segment segs /\
    encoded (SanitizePath p) = false /\ string_forallb no_backslash (SanitizePath p) = true /\
    SanitizePath (SanitizePath p) = SanitizePath p.
Proof.
  destruct p as [|a p]; [done|]. cbn [starts_with] in Hp. apply Ascii.eqb_eq in Hp as ->.
  set (d := slashes (replacer_Replace p)).
  assert (Hd : decodeTraversalSequences (String "/" p) = String "/" d) by (rewrite decode_once by done; by rewrite replacer_cons).
  destruct (path_Clean_rooted d) as (segs & Hc & Hs & Hin).
  assert (Hq : SanitizePath (String "/" p) = rooted_path segs).
  { unfold SanitizePath. rewrite bool_decide_false by done. rewrite Hd, Hc. unfold rooted_path. by rewrite append_cons. }
  assert (Henc : encoded (rooted_path segs) = false).
  { assert (H0 : encoded (String "/" d) = false).
    { cbn [encoded]. rewrite replace_at_percent by done. unfold d. by rewrite encoded_slashes, replacer_clean. }
    rewrite encoded_Split in H0 |- *. rewrite (Split_rooted _ Hs). apply not_true_is_false. intros Hx.
    apply existsb_exists in Hx as (x & Hx & Ex). apply list_elem_of_In in Hx.
    assert (x ∈ segs) as Hx2 by (destruct segs; set_solver). apply Hin in Hx2.
    assert (existsb encoded (Split "/"%char (String "/" d)) = true); [|congruence].
    apply existsb_exists. exists x. split; [by apply list_elem_of_In|done]. }
  assert (Hbs : string_forallb no_backslash (rooted_path segs) = true).
  { assert (H0 : string_forallb no_backslash (String "/" d) = true) by apply slashes_plain.
    rewrite forallb_Split in H0 |- * by done. rewrite forallb_forall in H0 |- *. intros x Hx. apply H0.
    rewrite (Split_rooted _ Hs) in Hx. apply list_elem_of_In in Hx. apply list_elem_of_In.
    assert (x ∈ segs \/ x = "") as [Hx2| ->] by (destruct segs; set_solver); [by apply Hin|]. cbn. by left. }
  exists segs. rewrite Hq. split_and!; [done..|]. unfold SanitizePath. rewrite bool_decide_false by done.
  rewrite decode_once, (replacer_stable _ Henc), (slashes_id _ Hbs), (path_Clean_fixed _ Hs) by done.
  unfold rooted_path. by rewrite append_cons.
Qed.

Lemma sanitized_path_safe_witness :
  let p := "/static/%2e%2e/../admin\users/" in
  SanitizePath p = "/admin/users" /\ SanitizePath (SanitizePath p) = SanitizePath p.
Proof.
  cbv zeta. split; [vm_compute; reflexivity|].
  destruct (sanitized_path_safe "/static/%2e%2e/../admin\users/" eq_refl) as (segs & _ & _ & _ & _ & H). exact H.
Defined.

(** ** Framing *)

Lemma check_lengths_rest n parts : 0 <= n ->
  check_lengths n parts = None <-> forall part, part ∈ parts -> Atoi (TrimSpace part) = Some n.
Proof.
  intros Hn. induction parts as [|x parts IH]; cbn [check_lengths]; [set_solver|].
  destruct (Atoi (TrimSpace x)) as [m|] eqn:Ex.
  - destruct (Z.ltb_spec m 0) as [Hm|Hm].
    { split; [done|]. intros H. specialize (H x ltac:(set_solver)). rewrite Ex in H. injection H as ->. lia. }
    rewrite (proj2 (Z.eqb_neq n (-1))) by lia. destruct (Z.eqb_spec m n) as [->|Hne]; cbn [negb].
    + rewrite IH. set_solver.
    + split; [done|]. intros H. specialize (H x ltac:(set_solver)). rewrite Ex in H. by injection H as ->.
  - split; [done|]. intros H. specialize (H x ltac:(set_solver)). by rewrite Ex in H.
Qed.

Lemma check_lengths_None parts :
  check_lengths (-1) parts = None <->
  exists n, 0 <= n /\ forall part, part ∈ parts -> Atoi (TrimSpace part) = Some n.
Proof.
  destruct parts as [|x parts]; cbn [check_lengths].
  { split; [|done]. intros _. exists 0. split; [lia|set_solver]. }
  destruct (Atoi (TrimSpace x)) as [m|] eqn:Ex.
  - destruct (Z.ltb_spec m 0) as [Hm|Hm].
    { split; [done|]. intros (n & Hn & H). specialize (H x ltac:(set_solver)). rewrite Ex in H. injection H as ->. lia. }
    change (-1 =? -1) with true. cbv iota. rewrite (check_lengths_rest m parts Hm). split.
    + intros H. exists m. split; [done|]. set_solver.
    + intros (n & Hn & H) part Hin. pose proof (H x ltac:(set_solver)) as E. rewrite Ex in E. injection E as ->.
      apply H. set_solver.
  - split; [done|]. intros (n & Hn & H). specialize (H x ltac:(set_solver)). by rewrite Ex in H.
Qed.

Lemma chunked_not_final_false encs :
  chunked_not_final encs = false <-> forall k, encs !! k = Some "chunked" -> S k = length encs.
Proof.
  induction encs as [|x encs IH]; cbn [chunked_not_final]; [done|].
  rewrite orb_false_iff, IH. split.
  - intros [H1 H2] [|k] Hk; cbn in Hk |- *; [|by rewrite <- (H2 k Hk)]. injection Hk as ->.
    rewrite bool_decide_true in H1 by done. cbn in H1. apply negb_false_iff, bool_decide_eq_true in H1 as ->. done.
  - intros H. split.
    + destruct (bool_decide (x = "chunked")) eqn:Ex; [|done]. apply bool_decide_eq_true in Ex as ->.
      specialize (H 0%nat eq_refl). cbn in H. destruct encs; [done|]. cbn in H. lia.
    + intros k Hk. specialize (H (S k) Hk). cbn in H. lia.
Qed.

(** A request whose body has one length: not both headers, Content-Length values that all
    mean the same number, Transfer-Encoding only from HTTP/1.1 on, with known codings of
    which only the last is "chunked"; and a valid host. *)
Record well_framed (http11 : bool) (r : Request) : Prop := {
  wf_one : Header_Values (Header r) "Content-Length" = [] \/ Header_Values (Header r) "Transfer-Encoding" = [];
  wf_length : exists n, 0 <= n /\
    forall part, part ∈ Header_Values (Header r) "Content-Length" ≫= Split ","%char -> Atoi (TrimSpace part) = Some n;
  wf_version : Header_Values (Header r) "Transfer-Encoding" <> [] -> http11 = true;
  wf_codings : forall enc, enc ∈ te_encodings (Header_Values (Header r) "Transfer-Encoding") -> enc ∈ allowedEncodings;
  wf_chunked : forall k, te_encodings (Header_Values (Header r) "Transfer-Encoding") !! k = Some "chunked" ->
    S k = length (te_encodings (Header_Values (Header r) "Transfer-Encoding"));
  wf_host : Host r = "" \/ ValidateHostHeader (Host r) = true
}.

(** [ValidateRequest] lets exactly the well-framed requests through, with their path
    sanitized and nothing else changed. *)
Theorem validate_request_iff http11 r :
  (forall r', ValidateRequest http11 r = inr r' <-> well_framed http11 r /\ r' = set_path (SanitizePath (URLPath r)) r).
Proof.
  unfold ValidateRequest. set (cl := Header_Values (Header r) "Content-Length").
  set (te := Header_Values (Header r) "Transfer-Encoding"). intros r'.
  destruct (negb (bool_decide (cl = [])) && negb (bool_decide (te = []))) eqn:E1.
  { split; [done|]. intros [[H _ _ _ _ _] _]. apply andb_true_iff in E1 as [A%negb_true_iff B%negb_true_iff].
    apply bool_decide_eq_false in A, B. by destruct H. }
  destruct (check_lengths (-1) (cl ≫= Split ","%char)) as [err|] eqn:E2.
  { split; [done|]. intros [[_ H _ _ _ _] _]. apply check_lengths_None in H. fold cl in H. congruence. }
  destruct (negb (bool_decide (te = [])) && negb http11) eqn:E3.
  { split; [done|]. intros [[_ _ H _ _ _] _]. apply andb_true_iff in E3 as [A%negb_true_iff B%negb_true_iff].
    apply bool_decide_eq_false in A. rewrite H in B by done. done. }
  destruct (forallb _ (te_encodings te)) eqn:E4; cbn [negb].
  2: { split; [done|]. intros [[_ _ _ H _ _] _]. rewrite <- not_true_iff_false, forallb_forall in E4. destruct E4.
       intros x Hx. apply bool_decide_eq_true, H, list_elem_of_In, Hx. }
  destruct (chunked_not_final (te_encodings te)) eqn:E5.
  { split; [done|]. intros [[_ _ _ _ H _] _]. apply chunked_not_final_false in H. fold te in H. congruence. }
  destruct (negb (bool_decide (Host r = "")) && negb (ValidateHostHeader (Host r))) eqn:E6.
  { split; [done|]. intros [[_ _ _ _ _ H] _]. apply andb_true_iff in E6 as [A%negb_true_iff B%negb_true_iff].
    apply bool_decide_eq_false in A. destruct H; [done|congruence]. }
  split; [|by intros [_ ->]]. intros [= <-]. split; [|done]. split.
  - fold cl te. apply andb_false_iff in E1 as [A%negb_false_iff|A%negb_false_iff]; apply bool_decide_eq_true in A; auto.
  - by apply check_lengths_None.
  - fold te. intros Hte. apply andb_false_iff in E3 as [A%negb_false_iff|A%negb_false_iff]; [|done].
    by apply bool_decide_eq_true in A.
  - intros enc Henc. rewrite forallb_forall in E4. apply list_elem_of_In, E4, bool_decide_eq_true in Henc. done.
  - by apply chunked_not_final_false.
  - apply andb_false_iff in E6 as [A%negb_false_iff|A%negb_false_iff]; [|by right]. apply bool_decide_eq_true in A. auto.
Qed.

(** ** Header values *)

(** A sanitized value has no line break, and every other character in order. *)
Lemma sanitized_value_clean v :
  string_forallb clean_byte (SanitizeHeaderValue v) = true /\
  (string_forallb clean_byte v = true -> SanitizeHeaderValue v = v).
Proof.
  unfold SanitizeHeaderValue. induction v as [|c v [IH1 IH2]]; [done|]. cbn [string_filter string_forallb].
  destruct (clean_byte c) eqn:E; cbn [string_forallb]; [|done]. rewrite E, IH1. split; [done|].
  cbn. intros H. by rewrite IH2.
Qed.

(** ** IPv6 hosts *)

Lemma has_char_take c n s : has_char c s = false -> has_char c (string_take n s) = false.
Proof.
  revert n. induction s as [|a s IH]; intros [|n]; cbn; try done.
  intros [H1 H2]%orb_false_iff. by rewrite H1, IH.
Qed.

Lemma string_drop_take k n s : string_drop k (string_take n s) = string_take (n - k) (string_drop k s).
Proof.
  revert n s. induction k as [|k IH]; intros n s; [by rewrite Nat.sub_0_r|].
  destruct s as [|a s]; [destruct n as [|n]; cbn; [done|by destruct (n - k)%nat]|]. destruct n as [|n]; [done|]. cbn. apply IH.
Qed.

(** The host of a bracketed address has no brackets, that of a plain one no colon. *)
Lemma SplitHostPort_host s h port :
  SplitHostPort s = Some (h, port) -> has_char "["%char h = false \/ has_char ":"%char h = false.
Proof.
  unfold SplitHostPort. destruct (LastIndex _ s) as [i|]; [|done]. destruct (starts_with _ s).
  - destruct (IndexByte _ s) as [j|]; [|done]. case_match; [done|]. case_match; [|done].
    destruct (has_char "["%char (string_drop 1 s)) eqn:E; [done|]. cbn [orb]. case_match; [done|]. intros Hh.
    assert (h = string_drop 1 (string_take j s)) as -> by congruence. left. rewrite string_drop_take. by apply has_char_take.
  - destruct (has_char ":"%char (string_take i s)) eqn:E; [done|]. case_match; [done|]. intros [= <- _]. by right.
Qed.

Lemma has_char_forallb f c s : f c = false -> has_char c s = true -> string_forallb f s = false.
Proof.
  intros Hf. induction s as [|a s IH]; [done|]. cbn. destruct (Ascii.eqb_spec a c) as [->|]; [by rewrite Hf|].
  cbn. intros H. rewrite IH by done. by rewrite andb_false_r.
Qed.

(** An IPv6 address with a port is not accepted as a host, although the address alone is. *)
Theorem ipv6_host_with_port_rejected host h port
  (Hs : SplitHostPort host = Some (h, port)) (Hv6 : has_char ":"%char h = true) :
  ValidateHostHeader host = false.
Proof.
  destruct (SplitHostPort_host _ _ _ Hs) as [Hb|]; [|congruence].
  assert (Hst : starts_with "["%char h = false).
  { destruct h as [|a h]; [done|]. cbn in Hb |- *. by apply orb_false_iff in Hb as [-> _]. }
  pose proof (has_char_forallb host_byte ":"%char h eq_refl Hv6) as Hf.
  unfold ValidateHostHeader. rewrite Hs. cbn [default from_option id]. rewrite Hst, Hf. cbn [andb negb].
  by repeat case_match.
Qed.

Lemma ipv6_host_with_port_rejected_witness :
  ValidateHostHeader "[2001:db8::1]" = true /\ ValidateHostHeader "[2001:db8::1]:8443" = false.
Proof.
  split; [vm_compute; reflexivity|]. apply (ipv6_host_with_port_rejected _ "2001:db8::1" "8443"); reflexivity.
Defined.
