(* ===== verification/ConnManager.v ===== *)
(** * Connection tracking: [internal/conn/conn.go]

    The manager wraps accepted connections, enforces the global, per-source and
    per-backend limits and counts connections until they are closed.  A critical section
    of the manager is one step; closing a connection is two: the flag is set first, the
    manager is told afterwards, and other operations run in between. *)
From S2P Require Import Prelude Http Bytes NetIP NetAddr.
From Stdlib Require Import Ascii.

(** ** State *)

(** [source] is the host that the closure [onClose] has captured. *)
Record TrackedConn := mkTracked {
  c_id : string; createdAt : Z; remoteAddr : string; source : string; backendID : string;
  bytesIn : Z; bytesOut : Z
}.

Record Config := mkConfig {
  MaxConnections : Z; MaxPerSource : Z; MaxPerBackend : Z; DrainTimeout : Z
}.

Definition DefaultConfig : Config := mkConfig 10000 100 1000 (30 * 10 ^ 9).

Record Manager := mkManager {
  config : Config;
  connections : gmap string TrackedConn;
  sourceCounts : gmap string Z;
  backendCounts : gmap string Z;
  totalCount : Z;
  idCounter : Z
}.

Definition NewManager (c : option Config) : Manager :=
  mkManager (default DefaultConfig c) ∅ ∅ ∅ 0 0.

Definition nextID (now counter : Z) : string :=
  "conn-" +:+ Itoa now +:+ "-" +:+ Itoa counter.

(** [m\[k\]] of a map of integers, its increment, and its decrement that deletes the entry
    when nothing is left. *)
Definition count_of (m : gmap string Z) (k : string) : Z := default 0 (m !! k).
Definition incr (k : string) (m : gmap string Z) : gmap string Z := <[k := i64 (count_of m k + 1)]> m.
Definition decr (k : string) (m : gmap string Z) : gmap string Z :=
  let n := i64 (count_of m k - 1) in if n <=? 0 then delete k m else <[k := n]> m.

(** ** Operations *)

Definition source_of (addr : string) : string :=
  match SplitHostPort addr with Some (host, _) => host | None => addr end.

Inductive AcceptError := GlobalLimit | SourceLimit.

Definition Accept (now : Z) (addr : string) (m : Manager) : (AcceptError + TrackedConn) * Manager :=
  let host := source_of addr in
  if (0 <? MaxConnections (config m)) && (MaxConnections (config m) <=? Z.of_nat (size (connections m)))
  then (inl GlobalLimit, m)
  else if (0 <? MaxPerSource (config m)) && (MaxPerSource (config m) <=? count_of (sourceCounts m) host)
  then (inl SourceLimit, m)
  else
    let n := u64 (idCounter m + 1) in
    let id := nextID now n in
    let tracked := mkTracked id now addr host "" 0 0 in
    (inr tracked,
     mkManager (config m) (<[id := tracked]> (connections m)) (incr host (sourceCounts m))
       (backendCounts m) (i64 (totalCount m + 1)) n).

Definition release (id sourceHost : string) (m : Manager) : Manager :=
  match connections m !! id with
  | None => m
  | Some tracked =>
      mkManager (config m) (delete id (connections m)) (decr sourceHost (sourceCounts m))
        (if bool_decide (backendID tracked = "") then backendCounts m
         else decr (backendID tracked) (backendCounts m))
        (i64 (totalCount m - 1)) (idCounter m)
  end.

Inductive AssociateError := NotFound | BackendLimit.

Definition set_backend (b : string) (c : TrackedConn) : TrackedConn :=
  mkTracked (c_id c) (createdAt c) (remoteAddr c) (source c) b (bytesIn c) (bytesOut c).

Definition AssociateBackend (connID backend : string) (m : Manager) : option AssociateError * Manager :=
  match connections m !! connID with
  | None => (Some NotFound, m)
  | Some conn =>
      if (0 <? MaxPerBackend (config m)) && (MaxPerBackend (config m) <=? count_of (backendCounts m) backend)
      then (Some BackendLimit, m)
      else
        let counts := if bool_decide (backendID conn = "") then backendCounts m
                      else decr (backendID conn) (backendCounts m) in
        (None, mkManager (config m) (<[connID := set_backend backend conn]> (connections m))
                 (sourceCounts m) (incr backend counts) (totalCount m) (idCounter m))
  end.

(** The byte counters; [n] is what the connection returned. *)
Definition add_bytes (into : bool) (n : Z) (c : TrackedConn) : TrackedConn :=
  if 0 <? n then
    if into then mkTracked (c_id c) (createdAt c) (remoteAddr c) (source c) (backendID c) (i64 (bytesIn c + n)) (bytesOut c)
    else mkTracked (c_id c) (createdAt c) (remoteAddr c) (source c) (backendID c) (bytesIn c) (i64 (bytesOut c + n))
  else c.

Definition Read_Write (into : bool) (id : string) (n : Z) (m : Manager) : Manager :=
  mkManager (config m) (alter (add_bytes into n) id (connections m)) (sourceCounts m) (backendCounts m)
    (totalCount m) (idCounter m).

Definition ActiveCount (m : Manager) : Z := Z.of_nat (size (connections m)).
Definition TotalCount (m : Manager) : Z := totalCount m.
Definition SourceCount (h : string) (m : Manager) : Z := count_of (sourceCounts m) h.
Definition BackendCount (b : string) (m : Manager) : Z := count_of (backendCounts m) b.

(** ** The manager and its connections

    [handles] are the accepted connections, [closed] those whose flag is set, and
    [pending] the calls of [release] that are under way. *)
Record system := mkSystem {
  manager : Manager; handles : gmap string string; closed : gset string;
  pending : list (string * string)
}.

Definition initial (c : option Config) : system := mkSystem (NewManager c) ∅ ∅ [].

Inductive system_step : system -> system -> Prop :=
  | sys_accept s now addr tracked m :
      0 <= now < 2 ^ 63 -> idCounter (manager s) + 1 < 2 ^ 63 ->
      Accept now addr (manager s) = (inr tracked, m) ->
      system_step s (mkSystem m (<[c_id tracked := source tracked]> (handles s)) (closed s) (pending s))
  | sys_close s id host :
      handles s !! id = Some host -> id ∉ closed s ->
      system_step s (mkSystem (manager s) (handles s) ({[id]} ∪ closed s) (pending s ++ [(id, host)]))
  | sys_release s id host l1 l2 :
      pending s = l1 ++ (id, host) :: l2 ->
      system_step s (mkSystem (release id host (manager s)) (handles s) (closed s) (l1 ++ l2))
  | sys_associate s id backend :
      backend <> "" ->
      system_step s (mkSystem (AssociateBackend id backend (manager s)).2 (handles s) (closed s) (pending s))
  | sys_bytes s into id n :
      system_step s (mkSystem (Read_Write into id n (manager s)) (handles s) (closed s) (pending s)).

(** [TrackedConn.Close] run without interference: only the first call of a handle reaches
    the manager. *)
Definition Close (id : string) (s : system) : system :=
  match handles s !! id with
  | None => s
  | Some host =>
      if bool_decide (id ∈ closed s) then s
      else mkSystem (release id host (manager s)) (handles s) ({[id]} ∪ closed s) (pending s)
  end.

(** [CloseAll] takes a snapshot of the table, in the order [ids] of the map's iteration,
    and closes the connections after the lock is released. *)
Definition CloseAll (ids : list string) (s : system) : system := foldl (fun s id => Close id s) s ids.

Definition GetConnection (id : string) (m : Manager) : option TrackedConn := connections m !! id.

(** ** Unique identifiers *)

Lemma Itoa_digits n : 0 <= n -> all_chars (fun c => c <> "-"%char) (Itoa n).
Proof.
  intros Hn. unfold Itoa. rewrite (proj2 (Z.ltb_ge _ _)) by done.
  eapply all_chars_impl; [|apply (format_uint_chars 10 20 n); lia].
  intros c Hd ->. apply digit_of_byte in Hd; [|lia]. change (byte_of "-"%char) with 45 in Hd. lia.
Qed.

Lemma nextID_inj t1 n1 t2 n2 :
  0 <= t1 -> 0 <= t2 -> in_i64 n1 -> in_i64 n2 -> 0 <= n1 -> 0 <= n2 -> nextID t1 n1 = nextID t2 n2 -> n1 = n2.
Proof.
  intros Ht1 Ht2 Hr1 Hr2 Hn1 Hn2 E.
  assert (Hs : forall t n, 0 <= t -> 0 <= n -> Split "-"%char (nextID t n) = ["conn"; Itoa t; Itoa n]).
  { intros t n Ht Hn. change (nextID t n) with (Join "-"%char ["conn"; Itoa t; Itoa n]).
    apply Split_Join; [done|]. repeat (apply Forall_cons; split); [|by apply Itoa_digits..|done].
    repeat split; discriminate. }
  apply (f_equal (Split "-"%char)) in E. rewrite !Hs in E by done. injection E as _ E.
  apply (f_equal Atoi) in E. rewrite !Atoi_Itoa in E by done. by injection E.
Qed.

(** ** Counting *)

(** The number of connections of a table with a property. *)
Definition tally (f : TrackedConn -> bool) (t : gmap string TrackedConn) : Z :=
  Z.of_nat (size (filter (fun x => f x.2 = true) t)).

Lemma tally_insert f t i c :
  t !! i = None -> tally f (<[i := c]> t) = tally f t + Z.b2z (f c).
Proof.
  intros Hi. unfold tally. destruct (f c) eqn:Hf.
  - rewrite map_filter_insert_True by done. rewrite map_size_insert_None; [simpl; lia|].
    by rewrite map_lookup_filter, Hi.
  - rewrite map_filter_insert_False by (simpl; congruence). rewrite delete_id by done. simpl. lia.
Qed.

Lemma tally_delete f t i c :
  t !! i = Some c -> tally f (delete i t) = tally f t - Z.b2z (f c).
Proof.
  intros Hi. pose proof (tally_insert f (delete i t) i c ltac:(apply lookup_delete_eq)) as H.
  rewrite insert_delete_id in H by done. lia.
Qed.

Lemma tally_update f t i c c' :
  t !! i = Some c -> tally f (<[i := c']> t) = tally f t - Z.b2z (f c) + Z.b2z (f c').
Proof.
  intros Hi. rewrite <- insert_delete_eq, tally_insert by apply lookup_delete_eq. by rewrite (tally_delete f t i c).
Qed.

Lemma tally_le_size f t : 0 <= tally f t <= Z.of_nat (size t).
Proof.
  unfold tally. split; [lia|]. apply Nat2Z.inj_le, map_subseteq_size, map_filter_subseteq.
Qed.

(** Connections with a given source or backend. *)
Definition from (h : string) (c : TrackedConn) : bool := bool_decide (source c = h).
Definition on (b : string) (c : TrackedConn) : bool := bool_decide (backendID c = b).

Lemma count_incr k k' m :
  count_of m k + 1 < 2 ^ 63 -> 0 <= count_of m k ->
  count_of (incr k m) k' = count_of m k' + Z.b2z (bool_decide (k = k')).
Proof.
  intros Hr H0. unfold incr. rewrite i64_small by (unfold in_i64; lia).
  unfold count_of at 1. destruct (decide (k = k')) as [->|Hne].
  - rewrite lookup_insert_eq, bool_decide_eq_true_2 by done. simpl. lia.
  - rewrite lookup_insert_ne, bool_decide_eq_false_2 by done. fold (count_of m k'). simpl. lia.
Qed.

Lemma count_decr k k' m :
  0 < count_of m k < 2 ^ 63 ->
  count_of (decr k m) k' = count_of m k' - Z.b2z (bool_decide (k = k')).
Proof.
  intros Hr. unfold decr. rewrite i64_small by (unfold in_i64; lia).
  destruct (decide (k = k')) as [->|Hne].
  - rewrite bool_decide_eq_true_2 by done. simpl. destruct (Z.leb_spec (count_of m k' - 1) 0).
    + unfold count_of at 1. rewrite lookup_delete_eq. simpl. lia.
    + unfold count_of at 1. rewrite lookup_insert_eq. simpl. lia.
  - rewrite bool_decide_eq_false_2 by done. simpl. destruct (count_of m k - 1 <=? 0); unfold count_of at 1.
    + rewrite lookup_delete_ne by done. fold (count_of m k'). lia.
    + rewrite lookup_insert_ne by done. fold (count_of m k'). lia.
Qed.

(** A map of counters without zero entries. *)
Definition positive (m : gmap string Z) : Prop := map_Forall (fun _ n => 0 < n) m.

Lemma count_nonneg m k : positive m -> 0 <= count_of m k.
Proof. intros Hp. unfold count_of. destruct (m !! k) as [n|] eqn:E; simpl; [|lia]. specialize (Hp k n E). simpl in Hp. lia. Qed.

Lemma positive_incr k m : positive m -> count_of m k + 1 < 2 ^ 63 -> positive (incr k m).
Proof.
  intros Hp Hr. pose proof (count_nonneg m k Hp). unfold incr. rewrite i64_small by (unfold in_i64; lia).
  apply map_Forall_insert_2; [lia|done].
Qed.

Lemma positive_decr k m : positive m -> positive (decr k m).
Proof.
  intros Hp. unfold decr. destruct (Z.leb_spec (i64 (count_of m k - 1)) 0).
  - by apply map_Forall_delete.
  - by apply map_Forall_insert_2.
Qed.

(** ** The invariant *)

Definition is_id (n : Z) (id : string) : Prop :=
  exists t k, id = nextID t k /\ 0 <= t /\ 0 <= k <= n.

Record inv (c : Config) (s : system) : Prop := {
  i_config : config (manager s) = c;
  i_counter : Z.of_nat (size (connections (manager s))) <= idCounter (manager s) < 2 ^ 63;
  i_conns : forall id t, connections (manager s) !! id = Some t -> handles s !! id = Some (source t);
  i_handles : forall id h, handles s !! id = Some h -> is_id (idCounter (manager s)) id;
  i_closed : forall id, id ∈ closed s -> is_Some (handles s !! id);
  i_pending : forall id h, (id, h) ∈ pending s -> handles s !! id = Some h;
  i_waiting : forall id t, connections (manager s) !! id = Some t -> id ∈ closed s -> (id, source t) ∈ pending s;
  i_source : positive (sourceCounts (manager s)) /\
    forall h, count_of (sourceCounts (manager s)) h = tally (from h) (connections (manager s));
  i_backend : positive (backendCounts (manager s)) /\ backendCounts (manager s) !! "" = None /\
    forall b, b <> "" -> count_of (backendCounts (manager s)) b = tally (on b) (connections (manager s));
  i_total : totalCount (manager s) = Z.of_nat (size (connections (manager s)));
  i_limits :
    (0 < MaxConnections c -> Z.of_nat (size (connections (manager s))) <= MaxConnections c) /\
    (forall h, 0 < MaxPerSource c -> tally (from h) (connections (manager s)) <= MaxPerSource c) /\
    (forall b, b <> "" -> 0 < MaxPerBackend c -> tally (on b) (connections (manager s)) <= MaxPerBackend c)
}.

Lemma conn_initial_inv c : inv (default DefaultConfig c) (initial c).
Proof.
  assert (Ht : forall f, tally f ∅ = 0) by (intros f; unfold tally; by rewrite map_filter_empty, map_size_empty).
  split; cbn -[tally size]; rewrite ?map_size_empty; try lia; try (intros ? ?; rewrite lookup_empty; done).
  - done.
  - by intros id h Hin%elem_of_nil.
  - split; [apply map_Forall_empty|]. intros h. by rewrite Ht.
  - split_and!; [apply map_Forall_empty|done|]. intros b _. by rewrite Ht.
  - split_and!; [lia|intros; rewrite Ht; lia..].
Qed.

Lemma accept_inv c s now addr tracked m :
  inv c s -> 0 <= now < 2 ^ 63 -> idCounter (manager s) + 1 < 2 ^ 63 ->
  Accept now addr (manager s) = (inr tracked, m) ->
  inv c (mkSystem m (<[c_id tracked := source tracked]> (handles s)) (closed s) (pending s)).
Proof.
  intros [Ic In Icn Ih Icl Ip Iw [Isp Is] [Ibp [Ib0 Ib]] It [L1 [L2 L3]]] Hnow Hroom Ha.
  unfold Accept in Ha. rewrite Ic in Ha.
  destruct ((0 <? MaxConnections c) && (MaxConnections c <=? Z.of_nat (size (connections (manager s))))) eqn:C1; [done|].
  destruct ((0 <? MaxPerSource c) && (MaxPerSource c <=? count_of (sourceCounts (manager s)) (source_of addr))) eqn:C2; [done|].
  rewrite u64_small in Ha by (unfold in_u64; lia). injection Ha as <- <-. cbn [c_id source].
  set (h := source_of addr) in *. set (id := nextID now (idCounter (manager s) + 1)).
  set (t := mkTracked id now addr h "" 0 0).
  assert (Hfresh : handles s !! id = None).
  { destruct (handles s !! id) as [h'|] eqn:E; [|done]. destruct (Ih _ _ E) as (t' & k & Hid & Ht' & Hk).
    apply nextID_inj in Hid; unfold in_i64; lia. }
  assert (Hnew : connections (manager s) !! id = None).
  { destruct (connections (manager s) !! id) as [t'|] eqn:E; [|done]. apply Icn in E. congruence. }
  assert (Hncl : id ∉ closed s).
  { intros E. apply Icl in E as [? E]. congruence. }
  assert (Hsz : size (<[id := t]> (connections (manager s))) = S (size (connections (manager s))))
    by by apply map_size_insert_None.
  pose proof (tally_le_size (from h) (connections (manager s))) as Hle. rewrite <- Is in Hle.
  constructor; cbn [manager handles closed pending config connections sourceCounts backendCounts totalCount idCounter];
    try rewrite Hsz.
  - done.
  - lia.
  - intros id' t' E. apply lookup_insert_Some in E as [[<- <-]|[Hne E]]; [by rewrite lookup_insert_eq|].
    rewrite lookup_insert_ne by done. by apply Icn.
  - intros id' h' E. apply lookup_insert_Some in E as [[<- <-]|[Hne E]].
    + exists now, (idCounter (manager s) + 1). split; [done|lia].
    + destruct (Ih _ _ E) as (t' & k & Hid & Ht' & Hk). exists t', k. split; [done|lia].
  - intros id' E. destruct (decide (id = id')) as [<-|]; [by rewrite lookup_insert_eq|].
    rewrite lookup_insert_ne by done. by apply Icl.
  - intros id' h' E. apply Ip in E. rewrite lookup_insert_ne; [done|congruence].
  - intros id' t' E Hcl. apply lookup_insert_Some in E as [[<- <-]|[Hne E]]; [done|by apply Iw].
  - split; [apply positive_incr; [done|lia]|]. intros h'.
    rewrite count_incr, tally_insert, Is by (done || lia). done.
  - split_and!; [done..|]. intros b Hb. rewrite tally_insert by done. rewrite Ib by done.
    replace (on b t) with false by (symmetry; apply bool_decide_eq_false_2; simpl; congruence). simpl. lia.
  - rewrite i64_small by (unfold in_i64; lia). lia.
  - split_and!.
    + intros Hm. apply andb_false_iff in C1 as [C1|C1]; b2p; lia.
    + intros h' Hm. rewrite tally_insert by done. change (from h' t) with (bool_decide (h = h')).
      destruct (decide (h = h')) as [<-|Hne].
      * apply andb_false_iff in C2 as [C2|C2]; b2p; [lia|]. rewrite <- Is.
        rewrite bool_decide_eq_true_2 by done. simpl. lia.
      * rewrite bool_decide_eq_false_2 by done. simpl. specialize (L2 h' Hm). lia.
    + intros b Hb Hm. rewrite tally_insert by done. change (on b t) with (bool_decide ("" = b)).
      rewrite bool_decide_eq_false_2 by congruence. simpl. specialize (L3 b Hb Hm). lia.
Qed.

Lemma tally_pos f t i c : t !! i = Some c -> f c = true -> 0 < tally f t.
Proof. intros Hi Hf. pose proof (tally_delete f t i c Hi) as H. pose proof (tally_le_size f (delete i t)). rewrite Hf in H. simpl in H. lia. Qed.

Lemma size_delete_pred (t : gmap string TrackedConn) i c :
  t !! i = Some c -> Z.of_nat (size (delete i t)) = Z.of_nat (size t) - 1.
Proof.
  intros Hi. rewrite map_size_delete_Some by eauto.
  assert (0 < size t)%nat; [|lia].
  apply Nat.neq_0_lt_0. intros E. apply map_size_empty_inv in E. by rewrite E, lookup_empty in Hi.
Qed.

Lemma release_inv c s id host l1 l2 :
  inv c s -> pending s = l1 ++ (id, host) :: l2 ->
  inv c (mkSystem (release id host (manager s)) (handles s) (closed s) (l1 ++ l2)).
Proof.
  intros [Ic In Icn Ih Icl Ip Iw [Isp Is] [Ibp [Ib0 Ib]] It [L1 [L2 L3]]] Hp.
  assert (Hsub : forall x, x ∈ l1 ++ l2 -> x ∈ pending s) by (rewrite Hp; set_solver).
  assert (Hkeep : forall id' h', (id', h') ∈ pending s -> id' <> id -> (id', h') ∈ l1 ++ l2).
  { rewrite Hp. intros id' h' Hin Hne. apply elem_of_app in Hin as [?|Hin]; [set_solver|].
    apply elem_of_cons in Hin as [[=]|?]; [done|set_solver]. }
  assert (Hh : handles s !! id = Some host) by (apply Ip; rewrite Hp; set_solver).
  unfold release. destruct (connections (manager s) !! id) as [t|] eqn:Hid.
  2: { split; cbn; try done; [by intros; eapply Ip, Hsub| |by split..].
       intros id' t' E Hcl. apply Hkeep; [by apply Iw|congruence]. }
  pose proof (Icn _ _ Hid) as Hsrc. assert (source t = host) as <- by congruence.
  pose proof (size_delete_pred _ _ _ Hid) as Hsz.
  assert (Hpos : 0 < count_of (sourceCounts (manager s)) (source t) < 2 ^ 63).
  { rewrite Is. pose proof (tally_le_size (from (source t)) (connections (manager s))). split; [|lia].
    apply (tally_pos _ _ _ _ Hid). by apply bool_decide_eq_true. }
  split; cbn -[tally size decr]; try rewrite Hsz; try done.
  - lia.
  - intros id' t' E. apply lookup_delete_Some in E as [_ E]. by apply Icn.
  - by intros; eapply Ip, Hsub.
  - intros id' t' E Hcl. apply lookup_delete_Some in E as [Hne E]. apply Hkeep; [by apply Iw|done].
  - split; [by apply positive_decr|]. intros h'. rewrite count_decr, (tally_delete _ _ _ _ Hid), Is by done. done.
  - destruct (decide (backendID t = "")) as [E0|Hb0].
    + rewrite bool_decide_eq_true_2 by done. split_and!; [done..|]. intros b Hb.
      rewrite (tally_delete _ _ _ _ Hid), Ib by done.
      change (on b t) with (bool_decide (backendID t = b)). rewrite bool_decide_eq_false_2 by congruence. simpl. lia.
    + rewrite bool_decide_eq_false_2 by done.
      assert (Hbp : 0 < count_of (backendCounts (manager s)) (backendID t) < 2 ^ 63).
      { rewrite Ib by done. pose proof (tally_le_size (on (backendID t)) (connections (manager s))). split; [|lia].
        apply (tally_pos _ _ _ _ Hid). by apply bool_decide_eq_true. }
      split_and!; [by apply positive_decr| |].
      * unfold decr. case_match; [by rewrite lookup_delete_ne|by rewrite lookup_insert_ne].
      * intros b Hb. rewrite count_decr, (tally_delete _ _ _ _ Hid), Ib by done. done.
  - rewrite It, i64_small by (unfold in_i64; lia). lia.
  - split_and!; [lia|intros h Hm; specialize (L2 h Hm)|intros b Hb Hm; specialize (L3 b Hb Hm)];
      rewrite (tally_delete _ _ _ _ Hid); [destruct (from h t)|destruct (on b t)]; simpl; lia.
Qed.

Lemma associate_inv c s id backend :
  inv c s -> backend <> "" ->
  inv c (mkSystem (AssociateBackend id backend (manager s)).2 (handles s) (closed s) (pending s)).
Proof.
  intros I Hne. pose proof I as [Ic In Icn Ih Icl Ip Iw [Isp Is] [Ibp [Ib0 Ib]] It [L1 [L2 L3]]].
  unfold AssociateBackend. destruct (connections (manager s) !! id) as [t|] eqn:Hid; [|by destruct s].
  rewrite Ic. case_match eqn:C; [by destruct s|].
  set (counts := if bool_decide (backendID t = "") then _ else _).
  assert (Hsz : size (<[id := set_backend backend t]> (connections (manager s))) = size (connections (manager s)))
    by (apply map_size_insert_Some; eauto).
  assert (Hc : positive counts /\ counts !! "" = None /\
    forall b, b <> "" -> count_of counts b = tally (on b) (connections (manager s)) - Z.b2z (on b t)).
  { unfold counts. destruct (decide (backendID t = "")) as [E0|Hb0].
    - rewrite bool_decide_eq_true_2 by done. split_and!; [done..|]. intros b Hb. rewrite Ib by done.
      change (on b t) with (bool_decide (backendID t = b)). rewrite bool_decide_eq_false_2 by congruence. simpl. lia.
    - rewrite bool_decide_eq_false_2 by done.
      assert (Hbp : 0 < count_of (backendCounts (manager s)) (backendID t) < 2 ^ 63).
      { rewrite Ib by done. pose proof (tally_le_size (on (backendID t)) (connections (manager s))). split; [|lia].
        apply (tally_pos _ _ _ _ Hid). by apply bool_decide_eq_true. }
      split_and!; [by apply positive_decr| |].
      + unfold decr. case_match; [by rewrite lookup_delete_ne|by rewrite lookup_insert_ne].
      + intros b Hb. rewrite count_decr, Ib by done. done. }
  clearbody counts. destruct Hc as (Hcp & Hc0 & Hcn).
  assert (Hroom : count_of counts backend + 1 < 2 ^ 63 /\ 0 <= count_of counts backend).
  { split; [|by apply count_nonneg]. rewrite Hcn, <- (tally_delete _ _ _ _ Hid) by done.
    pose proof (tally_le_size (on backend) (delete id (connections (manager s)))).
    rewrite (size_delete_pred _ _ _ Hid) in *. lia. }
  split; cbn -[tally size incr]; try rewrite Hsz; try done.
  - intros id' t' E. apply lookup_insert_Some in E as [[<- <-]|[_ E]]; [exact (Icn _ _ Hid)|by apply Icn].
  - intros id' t' E Hcl. apply lookup_insert_Some in E as [[<- <-]|[_ E]];
      [exact (Iw _ _ Hid Hcl)|by apply Iw].
  - split; [done|]. intros h. rewrite (tally_update _ _ _ _ _ Hid), Is.
    change (from h (set_backend backend t)) with (from h t). lia.
  - split_and!; [apply positive_incr; [done|lia]|unfold incr; by rewrite lookup_insert_ne|].
    intros b Hb. rewrite count_incr by lia. rewrite Hcn by done. rewrite (tally_update _ _ _ _ _ Hid).
    change (on b (set_backend backend t)) with (bool_decide (backend = b)). done.
  - split_and!; [done| |].
    + intros h Hm. rewrite (tally_update _ _ _ _ _ Hid). specialize (L2 h Hm).
      change (from h (set_backend backend t)) with (from h t). lia.
    + intros b Hb Hm. rewrite (tally_update _ _ _ _ _ Hid). specialize (L3 b Hb Hm).
      change (on b (set_backend backend t)) with (bool_decide (backend = b)).
      destruct (decide (backend = b)) as [<-|Hnb].
      * rewrite bool_decide_eq_true_2 by done. apply andb_false_iff in C as [C|C]; b2p; [lia|].
        rewrite Ib in C by done. destruct (on backend t); simpl; lia.
      * rewrite bool_decide_eq_false_2 by done. destruct (on b t); simpl; lia.
Qed.

Lemma alter_is_insert (f : TrackedConn -> TrackedConn) (t : gmap string TrackedConn) i c :
  t !! i = Some c -> alter f i t = <[i := f c]> t.
Proof.
  intros Hi. apply map_eq. intros j. destruct (decide (i = j)) as [<-|].
  - by rewrite lookup_alter_eq, lookup_insert_eq, Hi.
  - by rewrite lookup_alter_ne, lookup_insert_ne.
Qed.

Lemma bytes_inv c s into id n :
  inv c s -> inv c (mkSystem (Read_Write into id n (manager s)) (handles s) (closed s) (pending s)).
Proof.
  intros I. pose proof I as [Ic In Icn Ih Icl Ip Iw [Isp Is] [Ibp [Ib0 Ib]] It [L1 [L2 L3]]].
  unfold Read_Write. destruct (connections (manager s) !! id) as [t|] eqn:Hid.
  2: { rewrite alter_id by congruence. by destruct s as [[]]. }
  rewrite (alter_is_insert _ _ _ _ Hid).
  assert (Hs : source (add_bytes into n t) = source t) by (unfold add_bytes; by repeat case_match).
  assert (Hb : backendID (add_bytes into n t) = backendID t) by (unfold add_bytes; by repeat case_match).
  assert (Hf : forall h, tally (from h) (<[id := add_bytes into n t]> (connections (manager s)))
                         = tally (from h) (connections (manager s))).
  { intros h. rewrite (tally_update _ _ _ _ _ Hid). unfold from. rewrite Hs. lia. }
  assert (Ho : forall b, tally (on b) (<[id := add_bytes into n t]> (connections (manager s)))
                         = tally (on b) (connections (manager s))).
  { intros b. rewrite (tally_update _ _ _ _ _ Hid). unfold on. rewrite Hb. lia. }
  assert (Hsz : size (<[id := add_bytes into n t]> (connections (manager s))) = size (connections (manager s)))
    by (apply map_size_insert_Some; eauto).
  split; cbn -[tally size add_bytes]; try rewrite Hsz; try done.
  - intros id' t' E. apply lookup_insert_Some in E as [[<- <-]|[_ E]]; [rewrite Hs|]; by apply Icn.
  - intros id' t' E Hcl. apply lookup_insert_Some in E as [[<- <-]|[_ E]]; [rewrite Hs|]; by apply Iw.
  - split; [done|]. intros h. by rewrite Hf.
  - split_and!; [done..|]. intros b ?. rewrite Ho. by apply Ib.
  - split_and!; [done|intros; rewrite Hf; by apply L2|intros; rewrite Ho; by apply L3].
Qed.

Lemma close_inv c s id host :
  inv c s -> handles s !! id = Some host -> id ∉ closed s ->
  inv c (mkSystem (manager s) (handles s) ({[id]} ∪ closed s) (pending s ++ [(id, host)])).
Proof.
  intros [Ic In Icn Ih Icl Ip Iw Is Ib It L] Hh Hcl. split; cbn; try done.
  - intros id' [->%elem_of_singleton|E]%elem_of_union; [by eauto|by apply Icl].
  - intros id' h' [E|E]%elem_of_app; [by apply Ip|]. apply list_elem_of_singleton in E as [= -> ->]. done.
  - intros id' t E [->%elem_of_singleton|Hc]%elem_of_union; apply elem_of_app.
    + right. apply list_elem_of_singleton. apply Icn in E. congruence.
    + left. by apply Iw.
Qed.

Lemma tracking_step_inv c s s' : inv c s -> system_step s s' -> inv c s'.
Proof.
  intros I H. destruct H;
    [by eapply accept_inv|by apply close_inv|by apply release_inv|by apply associate_inv|by apply bytes_inv].
Qed.

Lemma conn_reachable_inv c s : rtc system_step (initial c) s -> inv (default DefaultConfig c) s.
Proof.
  intros H. pose proof (conn_initial_inv c) as I. revert I. generalize (initial c), H. clear H.
  intros s0 H I. induction H; eauto using tracking_step_inv.
Qed.

(** C34: The limits of the configuration hold however acceptances, closes, releases and
    associations interleave: at most [MaxConnections] connections are tracked, at most
    [MaxPerSource] of them are from one source and at most [MaxPerBackend] on one backend,
    and the reported counts are the numbers of tracked connections. *)
Theorem conn_limits_hold c s :
  rtc system_step (initial c) s ->
  let m := manager s in let cfg := default DefaultConfig c in
  (0 < MaxConnections cfg -> ActiveCount m <= MaxConnections cfg) /\
  (forall h, 0 < MaxPerSource cfg -> SourceCount h m <= MaxPerSource cfg) /\
  (forall b, b <> "" -> 0 < MaxPerBackend cfg -> BackendCount b m <= MaxPerBackend cfg) /\
  TotalCount m = ActiveCount m /\
  (forall h, SourceCount h m = tally (from h) (connections m)) /\
  (forall b, b <> "" -> BackendCount b m = tally (on b) (connections m)).
Proof.
  intros Hr m cfg. destruct (conn_reachable_inv c s Hr) as [_ _ _ _ _ _ _ [_ Is] [_ [_ Ib]] It [L1 [L2 L3]]].
  unfold m, SourceCount, BackendCount, ActiveCount, TotalCount.
  split_and!; [done|intros h ?; rewrite Is; by apply L2| |done..].
  intros b Hb ?. rewrite Ib by done. by apply L3.
Qed.

Lemma positive_empty m : positive m -> (forall k, count_of m k = 0) -> m = ∅.
Proof.
  intros Hp H. apply map_empty. intros k. destruct (m !! k) as [n|] eqn:E; [|done].
  specialize (H k). specialize (Hp k n E). unfold count_of in H. rewrite E in H. simpl in *. lia.
Qed.

(** Nothing is leaked: once every accepted connection has been closed and no release is
    under way, the manager is back to its initial tables, whatever happened before. *)
Theorem conn_nothing_leaks c s :
  rtc system_step (initial c) s -> pending s = [] -> (forall id, is_Some (handles s !! id) -> id ∈ closed s) ->
  manager s = mkManager (default DefaultConfig c) ∅ ∅ ∅ 0 (idCounter (manager s)).
Proof.
  intros Hr Hp Hall. destruct (conn_reachable_inv c s Hr) as [Ic _ Icn _ _ _ Iw [Isp Is] [Ibp [Ib0 Ib]] It _].
  assert (Hempty : connections (manager s) = ∅).
  { apply map_empty. intros id. destruct (_ !! id) as [t|] eqn:E; [|done].
    assert (Hin : (id, source t) ∈ pending s) by (apply Iw; [done|]; apply Hall; eexists; by apply Icn).
    rewrite Hp in Hin. by apply elem_of_nil in Hin. }
  rewrite Hempty in *. assert (Ht : forall f, tally f ∅ = 0)
    by (intros f; unfold tally; by rewrite map_filter_empty, map_size_empty).
  assert (sourceCounts (manager s) = ∅) as Hs by (apply positive_empty; [done|]; intros k; by rewrite Is).
  assert (backendCounts (manager s) = ∅) as Hb.
  { apply positive_empty; [done|]. intros k. destruct (decide (k = "")) as [->|]; [|by rewrite Ib].
    unfold count_of. by rewrite Ib0. }
  destruct (manager s); simpl in *; subst. by rewrite map_size_empty.
Qed.

Lemma Close_steps id s : rtc system_step s (Close id s).
Proof.
  unfold Close. destruct (handles s !! id) as [host|] eqn:Hh; [|done]. case_bool_decide as Hc; [done|].
  eapply rtc_l; [by eapply sys_close|]. eapply rtc_l; [by apply (sys_release _ id host (pending s) [])|].
  cbn. rewrite app_nil_r. done.
Qed.

Lemma Close_keeps id s : pending (Close id s) = pending s /\ handles (Close id s) = handles s.
Proof. unfold Close. repeat case_match; done. Qed.

Lemma Close_removes c id s :
  inv c s -> pending s = [] -> connections (manager (Close id s)) = delete id (connections (manager s)).
Proof.
  intros I Hp. assert (Hgone : id ∈ closed s -> connections (manager s) !! id = None).
  { intros Hc. destruct (connections (manager s) !! id) as [t|] eqn:E; [|done].
    pose proof (i_waiting _ _ I _ _ E Hc) as Hin. rewrite Hp in Hin. by apply elem_of_nil in Hin. }
  unfold Close. destruct (handles s !! id) as [host|] eqn:Hh.
  - case_bool_decide as Hc; [by rewrite delete_id by auto|]. cbn. unfold release.
    destruct (connections (manager s) !! id) eqn:E; [done|by rewrite delete_id].
  - rewrite delete_id; [done|]. destruct (connections (manager s) !! id) as [t|] eqn:E; [|done].
    apply (i_conns _ _ I) in E. congruence.
Qed.

(** Closing everything empties the manager: from any reachable state in which no release is
    under way, [CloseAll] leaves no connection and no count behind. *)
Theorem close_all_empties c s ids :
  rtc system_step (initial c) s -> pending s = [] -> ids ≡ₚ elements (dom (connections (manager s))) ->
  connections (manager (CloseAll ids s)) = ∅ /\ TotalCount (manager (CloseAll ids s)) = 0 /\
  (forall h, SourceCount h (manager (CloseAll ids s)) = 0).
Proof.
  intros Hr Hp Hids.
  assert (Hsub : forall id t, connections (manager s) !! id = Some t -> id ∈ ids).
  { intros id t E. rewrite Hids. apply elem_of_elements, elem_of_dom. eauto. }
  assert (connections (manager (CloseAll ids s)) = ∅ /\ rtc system_step (initial c) (CloseAll ids s)) as [He Hr'].
  { clear Hids. revert s Hr Hp Hsub. induction ids as [|id ids IH]; intros s Hr Hp Hsub.
    - split; [|done]. apply map_empty. intros id. destruct (_ !! id) as [t|] eqn:E; [|done].
      apply Hsub in E. by apply elem_of_nil in E.
    - apply IH; [by etrans; [|apply Close_steps]|by rewrite (proj1 (Close_keeps id s))|].
      intros id' t E. rewrite (Close_removes _ _ _ (conn_reachable_inv _ _ Hr) Hp) in E.
      apply lookup_delete_Some in E as [Hne E]. apply Hsub, elem_of_cons in E as [|]; congruence. }
  destruct (conn_reachable_inv _ _ Hr') as [_ _ _ _ _ _ _ [_ Is] _ It _].
  rewrite He in *. unfold TotalCount, SourceCount. split_and!; [done|by rewrite It, map_size_empty|].
  intros h. rewrite Is. unfold tally. by rewrite map_filter_empty, map_size_empty.
Qed.

(** ** Examples *)

Definition tiny : Config := mkConfig 2 1 1 0.

Definition one : system :=
  mkSystem (Accept 7 "10.0.0.1:5000" (NewManager (Some tiny))).2 {["conn-7-1" := "10.0.0.1"]} ∅ [].
Definition busy : system :=
  mkSystem (AssociateBackend "conn-7-1" "b1" (manager one)).2 (handles one) (closed one) (pending one).

Lemma busy_reachable : rtc system_step (initial (Some tiny)) busy.
Proof.
  eapply rtc_l; [eapply (sys_accept _ 7 "10.0.0.1:5000"); [lia|simpl; lia|vm_compute; reflexivity]|].
  eapply rtc_l; [apply (sys_associate _ "conn-7-1" "b1"); done|].
  replace busy with (mkSystem (manager busy) (handles busy) (closed busy) (pending busy)) by done.
  vm_compute. done.
Qed.

Lemma conn_limits_hold_witness :
  (ActiveCount (manager busy) = 1 /\ BackendCount "b1" (manager busy) = 1) /\
  (Accept 8 "10.0.0.1:5001" (manager busy)).1 = inl SourceLimit /\
  SourceCount "10.0.0.1" (manager busy) <= 1.
Proof.
  split_and!; [reflexivity..|].
  destruct (conn_limits_hold (Some tiny) busy busy_reachable) as (_ & Hs & _). by apply Hs.
Defined.

Lemma close_all_empties_witness :
  connections (manager (CloseAll ["conn-7-1"] busy)) = ∅ /\ TotalCount (manager (CloseAll ["conn-7-1"] busy)) = 0 /\
  (forall h, SourceCount h (manager (CloseAll ["conn-7-1"] busy)) = 0).
Proof. apply (close_all_empties (Some tiny) busy ["conn-7-1"] busy_reachable); reflexivity. Defined.

Lemma conn_nothing_leaks_witness :
  manager (Close "conn-7-1" busy) = mkManager tiny ∅ ∅ ∅ 0 1.
Proof.
  apply (conn_nothing_leaks (Some tiny) (Close "conn-7-1" busy)).
  - etrans; [apply busy_reachable|apply Close_steps].
  - reflexivity.
  - intros id [h Hh]. change (handles (Close "conn-7-1" busy)) with ({["conn-7-1" := "10.0.0.1"]} : gmap string string) in Hh.
    apply lookup_singleton_Some in Hh as [<- _]. vm_compute. done.
Defined.
