(* ===== verification/Balancers.v ===== *)
(** * Balancers without a ring: round robin, least connections, random, IP hash

    Models [pkg/utils/fast_rand.go] and, of [internal/balancer], [round_robin.go],
    [least_connections.go], [power_of_two.go], [ip_hash.go], [random.go] and
    [rendezvous_hash.go], one module each.  The state of a balancer is a record
    (or a number); [Next] threads it.  A [None] result of [Next] is Go's [nil]. *)
From S2P Require Import Prelude GoFloat Http NetIP GoHash Backend BackendPool.

(** ** [utils.FastRand] *)
Module FastRand.

Definition Uint64 (st : Z) : Z * Z :=
  let x := u64 (st + 11400714819323198485) in
  let z := x in
  let z := u64 (Z.lxor z (Z.shiftr z 30) * 13787848793156543929) in
  let z := u64 (Z.lxor z (Z.shiftr z 27) * 10723151780598845931) in
  (Z.lxor z (Z.shiftr z 31), x).

Definition Int63 (st : Z) : Z * Z :=
  let '(v, st') := Uint64 st in (Z.shiftr v 1, st').

Definition Int63n (n : Z) (st : Z) : Z * Z :=
  if n <=? 0 then (0, st) else let '(v, st') := Int63 st in (Z.rem v n, st').

Definition Uint32 (st : Z) : Z * Z := let '(v, st') := Uint64 st in (u32 v, st').

Definition Int31 (st : Z) : Z * Z :=
  let '(v, st') := Uint64 st in (Z.shiftr v 33, st').

Definition Int31n (n : Z) (st : Z) : Z * Z :=
  if n <=? 0 then (0, st) else let '(v, st') := Int31 st in (Z.rem v n, st').

Definition Intn (n : Z) (st : Z) : Z * Z := if n <=? 0 then (0, st) else Int63n n st.

Definition Bool (st : Z) : bool * Z :=
  let '(v, st') := Uint64 st in (Z.land v 1 =? 0, st').

(** [Shuffle] on a list: [swap(i, j)] exchanges two elements. *)
Definition swap {A} (i j : nat) (l : list A) : list A :=
  match l !! i, l !! j with
  | Some x, Some y => <[i := y]> (<[j := x]> l)
  | _, _ => l
  end.

(** The loop for [i] from [n] down to 1 over indices [0 .. n]. *)
Fixpoint shuffle_loop {A} (i : nat) (l : list A) (st : Z) : list A * Z :=
  match i with
  | O => (l, st)
  | S i' =>
      let '(j, st') := Intn (Z.of_nat i + 1) st in
      shuffle_loop i' (swap i (Z.to_nat j) l) st'
  end.

Definition Shuffle {A} (l : list A) (st : Z) : list A * Z :=
  shuffle_loop (length l - 1) l st.
End FastRand.

(** ** Tracked backend slices

    Several balancers keep the slice of backends they were told about, with the
    same three loops. *)

(** Appends [b] unless a backend with its ID is tracked. *)
Definition tracked_add (h : heap) (b : ptr) (l : list ptr) : list ptr :=
  if existsb (fun e => bool_decide (ID (h e) = ID (h b))) l then l else l ++ [b].

(** Index of the first tracked backend with the given ID. *)
Fixpoint tracked_index (h : heap) (id : string) (l : list ptr) : option nat :=
  match l with
  | [] => None
  | e :: r => if bool_decide (ID (h e) = id) then Some 0%nat else S <$> tracked_index h id r
  end.

(** Overwrites the entry with the last element and truncates. *)
Definition tracked_remove (h : heap) (id : string) (l : list ptr) : list ptr :=
  match tracked_index h id l with
  | None => l
  | Some i =>
      match last l with
      | None => l
      | Some e => take (length l - 1) (<[i := e]> l)
      end
  end.

Definition tracked_update (h : heap) (b : ptr) (l : list ptr) : list ptr :=
  match tracked_index h (ID (h b)) l with
  | None => l
  | Some i => <[i := b]> l
  end.

(** ** Round robin (round_robin.go) *)
Module RoundRobin.

Record t := mk { counter : Z (* uint64 *) }.

Definition NewRoundRobin : t := mk 0.

Definition Next (h : heap) (ctx : option RequestContext) (backends : list ptr) (rr : t)
    : option ptr * t :=
  match backends with
  | [] => (None, rr)
  | _ =>
      let count := u64 (counter rr + 1) in
      let index := u64 (count - 1) mod Z.of_nat (length backends) in
      (slice_get backends index, mk count)
  end.

Definition Add (h : heap) (b : ptr) (rr : t) : t := rr.
Definition Remove (h : heap) (id : string) (rr : t) : t := rr.
Definition Update (h : heap) (b : ptr) (rr : t) : t := rr.

#[global] Instance balancer : Balancer t :=
  { bal_Next := Next; bal_Add := Add; bal_Remove := Remove; bal_Update := Update }.
End RoundRobin.

(** ** Least connections (least_connections.go) *)
Module LeastConnections.

Record t := mk { backends : list ptr; counter : Z }.

Definition NewLeastConnections : t := mk [] 0.

(** The first pass: [best], [minConns] and [tieCount]. *)
Definition scan (h : heap) (bs : list ptr) : option ptr * Z * Z :=
  fold_left (fun '(best, minConns, tieCount) b =>
    let conns := ActiveConns (h b) in
    if conns <? minConns then (Some b, conns, 1)
    else if conns =? minConns then (best, minConns, tieCount + 1)
    else (best, minConns, tieCount)) bs (None, MaxInt64, 0).

Definition Next (h : heap) (ctx : option RequestContext) (bs : list ptr) (lc : t)
    : option ptr * t :=
  match bs with
  | [] => (None, lc)
  | _ =>
      let '(best, minConns, tieCount) := scan h bs in
      match best with
      | Some _ =>
          if 1 <? tieCount then
            let tied := List.filter (fun b => ActiveConns (h b) =? minConns) bs in
            let count := u64 (counter lc + 1) in
            let index := u64 (count - 1) mod Z.of_nat (length tied) in
            (slice_get tied index, mk (backends lc) count)
          else (best, lc)
      | None => (None, lc)
      end
  end.

Definition Add (h : heap) (b : ptr) (lc : t) : t :=
  mk (tracked_add h b (backends lc)) (counter lc).
Definition Remove (h : heap) (id : string) (lc : t) : t :=
  mk (tracked_remove h id (backends lc)) (counter lc).
Definition Update (h : heap) (b : ptr) (lc : t) : t :=
  mk (tracked_update h b (backends lc)) (counter lc).

#[global] Instance balancer : Balancer t :=
  { bal_Next := Next; bal_Add := Add; bal_Remove := Remove; bal_Update := Update }.
End LeastConnections.

(** ** Weighted least connections (least_connections.go) *)
Module WeightedLeastConnections.

Record lcWeightedBackend := mkWB { wb_backend : ptr; wb_weight : Z }.

Record t := mk { backends : gmap string lcWeightedBackend; counter : Z }.

Definition NewWeightedLeastConnections : t := mk ∅ 0.

(** The first loop: every offered backend gets an entry. *)
Definition ensure (h : heap) (bs : list ptr) (m : gmap string lcWeightedBackend)
    : gmap string lcWeightedBackend :=
  fold_left (fun m b =>
    match m !! ID (h b) with
    | Some _ => m
    | None => <[ID (h b) := mkWB b (GetWeight (h b))]> m
    end) bs m.

(** [float64(conns) / float64(weight)], with weights below 1 read as 1. *)
Definition ratio (h : heap) (b : ptr) (wb : lcWeightedBackend) : float64 :=
  let weight := if wb_weight wb <=? 0 then 1 else wb_weight wb in
  f64_div (f64_of_Z (ActiveConns (h b))) (f64_of_Z weight).

Definition scan (h : heap) (m : gmap string lcWeightedBackend) (bs : list ptr)
    : option ptr * float64 * Z :=
  fold_left (fun '(best, minRatio, tieCount) b =>
    match m !! ID (h b) with
    | None => (best, minRatio, tieCount)
    | Some wb =>
        let r := ratio h b wb in
        if f64_ltb r minRatio then (Some b, r, 1)
        else if f64_eqb r minRatio then (best, minRatio, tieCount + 1)
        else (best, minRatio, tieCount)
    end) bs (None, MaxFloat64, 0).

Definition has_ratio (h : heap) (m : gmap string lcWeightedBackend) (r : float64) (b : ptr) : bool :=
  match m !! ID (h b) with
  | None => false
  | Some wb => f64_eqb (ratio h b wb) r
  end.

Definition Next (h : heap) (ctx : option RequestContext) (bs : list ptr) (wlc : t)
    : option ptr * t :=
  match bs with
  | [] => (None, wlc)
  | _ =>
      let m := ensure h bs (backends wlc) in
      let '(best, minRatio, tieCount) := scan h m bs in
      match best with
      | Some _ =>
          if 1 <? tieCount then
            let tied := List.filter (has_ratio h m minRatio) bs in
            let count := u64 (counter wlc + 1) in
            let index := u64 (count - 1) mod Z.of_nat (length tied) in
            (slice_get tied index, mk m count)
          else (best, mk m (counter wlc))
      | None => (None, mk m (counter wlc))
      end
  end.

Definition Add (h : heap) (b : ptr) (wlc : t) : t :=
  match backends wlc !! ID (h b) with
  | Some _ => wlc
  | None => mk (<[ID (h b) := mkWB b (GetWeight (h b))]> (backends wlc)) (counter wlc)
  end.
Definition Remove (h : heap) (id : string) (wlc : t) : t :=
  mk (delete id (backends wlc)) (counter wlc).
Definition Update (h : heap) (b : ptr) (wlc : t) : t :=
  match backends wlc !! ID (h b) with
  | Some _ => mk (<[ID (h b) := mkWB b (GetWeight (h b))]> (backends wlc)) (counter wlc)
  | None => wlc
  end.

#[global] Instance balancer : Balancer t :=
  { bal_Next := Next; bal_Add := Add; bal_Remove := Remove; bal_Update := Update }.
End WeightedLeastConnections.

(** ** Power of two choices (power_of_two.go) *)
Module PowerOfTwo.

Record t := mk { backends : list ptr; rnd : Z }.

Definition NewPowerOfTwo (seed : Z) : t := mk [] seed.

Definition Next (h : heap) (ctx : option RequestContext) (bs : list ptr) (p : t)
    : option ptr * t :=
  let n := Z.of_nat (length bs) in
  if n =? 0 then (None, p)
  else if n =? 1 then (slice_get bs 0, p)
  else
    let '(random1, r1) := FastRand.Int63 (rnd p) in
    let idx1 := Z.rem random1 n in
    let '(random2, r2) := FastRand.Int63 r1 in
    let idx2 := Z.rem random2 n in
    match slice_get bs idx1, slice_get bs idx2 with
    | Some b1, Some b2 =>
        if idx1 =? idx2 then (Some b1, mk (backends p) r2)
        else
          let conns1 := ActiveConns (h b1) in
          let conns2 := ActiveConns (h b2) in
          if conns1 <? conns2 then (Some b1, mk (backends p) r2)
          else if conns2 <? conns1 then (Some b2, mk (backends p) r2)
          else
            let '(random3, r3) := FastRand.Int63 r2 in
            (Some (if Z.rem random3 2 =? 0 then b1 else b2), mk (backends p) r3)
    | _, _ => (None, mk (backends p) r2)
    end.

Definition Add (h : heap) (b : ptr) (p : t) : t := mk (tracked_add h b (backends p)) (rnd p).
Definition Remove (h : heap) (id : string) (p : t) : t :=
  mk (tracked_remove h id (backends p)) (rnd p).
Definition Update (h : heap) (b : ptr) (p : t) : t := p.

#[global] Instance balancer : Balancer t :=
  { bal_Next := Next; bal_Add := Add; bal_Remove := Remove; bal_Update := Update }.
End PowerOfTwo.

(** ** IP hash (ip_hash.go) *)
Module IPHash.

Record t := mk { backends : list ptr }.

Definition NewIPHash : t := mk [].

Definition hashIP (ip : string) : Z :=
  if bool_decide (ip = "") then 0
  else match ParseIP ip with
  | None => fnv32a ip
  | Some parsedIP =>
      match To4 parsedIP with
      | Some ipv4 => fnv32a_bytes fnv_offset32 ipv4
      | None => fnv32a_bytes fnv_offset32 parsedIP
      end
  end.

Definition Next (h : heap) (ctx : option RequestContext) (bs : list ptr) (ih : t)
    : option ptr * t :=
  match bs with
  | [] => (None, ih)
  | _ =>
      let clientIP := match ctx with Some c => ClientIP c | None => "" end in
      let hash := hashIP clientIP in
      let index := hash mod u32 (Z.of_nat (length bs)) in
      (slice_get bs index, ih)
  end.

Definition Add (h : heap) (b : ptr) (ih : t) : t := mk (tracked_add h b (backends ih)).
Definition Remove (h : heap) (id : string) (ih : t) : t :=
  mk (tracked_remove h id (backends ih)).
Definition Update (h : heap) (b : ptr) (ih : t) : t := mk (tracked_update h b (backends ih)).

Definition GetBackends (ih : t) : list ptr := backends ih.

(** [extractIP]: the host part, or the input when there is no port. *)
Definition extractIP (hostport : string) : string :=
  if bool_decide (hostport = "") then ""
  else match SplitHostPort hostport with
  | Some (host, _) => host
  | None => hostport
  end.

#[global] Instance balancer : Balancer t :=
  { bal_Next := Next; bal_Add := Add; bal_Remove := Remove; bal_Update := Update }.
End IPHash.

(** ** Random and weighted random (random.go) *)
Module Random.

Record t := mk { backends : list ptr; rnd : Z }.

Definition NewRandom (seed : Z) : t := mk [] seed.

Definition Next (h : heap) (ctx : option RequestContext) (bs : list ptr) (r : t)
    : option ptr * t :=
  match bs with
  | [] => (None, r)
  | _ =>
      let '(random, rnd') := FastRand.Int63 (rnd r) in
      let index := Z.rem random (Z.of_nat (length bs)) in
      (slice_get bs index, mk (backends r) rnd')
  end.

Definition Add (h : heap) (b : ptr) (r : t) : t := mk (tracked_add h b (backends r)) (rnd r).
Definition Remove (h : heap) (id : string) (r : t) : t :=
  mk (tracked_remove h id (backends r)) (rnd r).
Definition Update (h : heap) (b : ptr) (r : t) : t := r.

#[global] Instance balancer : Balancer t :=
  { bal_Next := Next; bal_Add := Add; bal_Remove := Remove; bal_Update := Update }.
End Random.

Module WeightedRandom.

Record wrWeightedBackend := mkWB { wb_backend : ptr; wb_weight : Z }.

Record t := mk { backends : list wrWeightedBackend; total : Z; rnd : Z }.

Definition NewWeightedRandom (seed : Z) : t := mk [] 0 seed.

(** [b.GetWeight()], with weights below 1 read as 1. *)
Definition eff_weight (b : Backend) : Z := if GetWeight b <=? 0 then 1 else GetWeight b.

(** The walk of [Next]: subtracts weights until the random value is negative. *)
Fixpoint walk (h : heap) (random : Z) (bs : list ptr) : option ptr :=
  match bs with
  | [] => None
  | b :: r =>
      let random := i64 (random - eff_weight (h b)) in
      if random <? 0 then Some b else walk h random r
  end.

Definition Next (h : heap) (ctx : option RequestContext) (bs : list ptr) (wr : t)
    : option ptr * t :=
  match bs with
  | [] => (None, wr)
  | _ =>
      let tot := fold_left (fun acc b => i64 (acc + eff_weight (h b))) bs 0 in
      if tot =? 0 then (None, wr)
      else
        let '(random, rnd') := FastRand.Int63n tot (rnd wr) in
        let wr' := mk (backends wr) (total wr) rnd' in
        match walk h random bs with
        | Some b => (Some b, wr')
        | None => (last bs, wr')
        end
  end.

Definition has_id (h : heap) (id : string) (wb : wrWeightedBackend) : bool :=
  bool_decide (ID (h (wb_backend wb)) = id).

Definition Add (h : heap) (b : ptr) (wr : t) : t :=
  if existsb (has_id h (ID (h b))) (backends wr) then wr
  else
    let weight := eff_weight (h b) in
    mk (backends wr ++ [mkWB b weight]) (i64 (total wr + weight)) (rnd wr).

Fixpoint index_of (h : heap) (id : string) (l : list wrWeightedBackend)
    : option (nat * wrWeightedBackend) :=
  match l with
  | [] => None
  | wb :: r =>
      if has_id h id wb then Some (0%nat, wb)
      else match index_of h id r with Some (i, x) => Some (S i, x) | None => None end
  end.

Definition Remove (h : heap) (id : string) (wr : t) : t :=
  match index_of h id (backends wr) with
  | None => wr
  | Some (i, wb) =>
      match last (backends wr) with
      | None => wr
      | Some e =>
          mk (take (length (backends wr) - 1) (<[i := e]> (backends wr)))
             (i64 (total wr - wb_weight wb)) (rnd wr)
      end
  end.

Definition Update (h : heap) (b : ptr) (wr : t) : t :=
  match index_of h (ID (h b)) (backends wr) with
  | None => wr
  | Some (i, wb) =>
      let newWeight := eff_weight (h b) in
      mk (<[i := mkWB (wb_backend wb) newWeight]> (backends wr))
         (i64 (i64 (total wr - wb_weight wb) + newWeight)) (rnd wr)
  end.

#[global] Instance balancer : Balancer t :=
  { bal_Next := Next; bal_Add := Add; bal_Remove := Remove; bal_Update := Update }.
End WeightedRandom.

(** ** Rendezvous hashing (rendezvous_hash.go) *)
Module RendezvousHash.

(** [keyCounter] is a variable of the package; it is threaded with the state. *)
Record t := mk { seeds : list Z; backends : gmap string Z; keyCounter : Z }.

Definition NewRendezvousHash (counter : Z) : t := mk [] ∅ counter.

Definition computeWeight (key backendID : string) : Z :=
  let v := fnv64a_write (fnv64a_write fnv_offset64 key) backendID in
  let v := Z.lxor v (Z.shiftr v 33) in
  let v := u64 (v * 18397679294719823053) in
  let v := Z.lxor v (Z.shiftr v 33) in
  let v := u64 (v * 14181476777654086739) in
  Z.lxor v (Z.shiftr v 33).

Definition generateKey (counter : Z) : string * Z :=
  let v := u64 (counter + 1) in (pretty v, v).

(** The loop of [Next]: the healthy backend of highest weight so far. *)
Definition best_loop (h : heap) (key : string) (bs : list ptr) : option ptr * Z :=
  fold_left (fun '(best, maxWeight) be =>
    if IsHealthy (h be) then
      let weight := computeWeight key (ID (h be)) in
      if maxWeight <? weight then (Some be, weight) else (best, maxWeight)
    else (best, maxWeight)) bs (None, 0).

Definition Next (h : heap) (ctx : option RequestContext) (bs : list ptr) (r : t)
    : option ptr * t :=
  match bs with
  | [] => (None, r)
  | b0 :: _ =>
      let key := match ctx with Some c => ClientIP c | None => "" end in
      let '(key, r') :=
        if bool_decide (key = "") then
          let '(k, c) := generateKey (keyCounter r) in (k, mk (seeds r) (backends r) c)
        else (key, r) in
      match fst (best_loop h key bs) with
      | Some b => (Some b, r')
      | None => (Some b0, r')
      end
  end.

Definition Add (h : heap) (be : ptr) (r : t) : t :=
  match backends r !! ID (h be) with
  | Some _ => r
  | None =>
      mk (seeds r ++ [fnv32a (ID (h be))])
         (<[ID (h be) := Z.of_nat (length (seeds r))]> (backends r)) (keyCounter r)
  end.

(** The first entry (in iteration order) with index [lastIdx] is redirected. *)
Definition redirect (lastIdx idx : Z) (m : gmap string Z) : gmap string Z :=
  match List.find (fun kv => snd kv =? lastIdx) (map_to_list m) with
  | Some (movedID, _) => <[movedID := idx]> m
  | None => m
  end.

Definition Remove (h : heap) (id : string) (r : t) : t :=
  match backends r !! id with
  | None => r
  | Some idx =>
      let lastIdx := Z.of_nat (length (seeds r)) - 1 in
      let '(seeds', m') :=
        if negb (idx =? lastIdx) then
          (match slice_get (seeds r) lastIdx with
           | Some s => <[Z.to_nat idx := s]> (seeds r)
           | None => seeds r
           end, redirect lastIdx idx (backends r))
        else (seeds r, backends r) in
      mk (take (Z.to_nat lastIdx) seeds') (delete id m') (keyCounter r)
  end.

Definition Update (h : heap) (be : ptr) (r : t) : t := r.

#[global] Instance balancer : Balancer t :=
  { bal_Next := Next; bal_Add := Add; bal_Remove := Remove; bal_Update := Update }.
End RendezvousHash.
