(* ===== verification/BalancersFacts.v ===== *)
(** * What the ring-less balancers guarantee

    Every balancer of [Balancers.v] satisfies the contract [BalancerLaws] the
    pool relies on; the file then proves what each algorithm promises: rotation,
    minimality, proportional intervals, affinity and minimal disruption. *)
From S2P Require Import Prelude GoFloat Http NetIP GoHash Backend BackendPool Balancers.

(** ** Random numbers *)

Lemma FastRand_Uint64_range st : in_u64 (fst (FastRand.Uint64 st)).
Proof.
  unfold FastRand.Uint64. cbv zeta. simpl fst. unfold in_u64.
  apply lxor_range; [lia|apply u64_range|]. apply shiftr_range; [lia|apply u64_range].
Qed.

Lemma FastRand_Int63_range st : 0 <= fst (FastRand.Int63 st) < 2 ^ 63.
Proof.
  pose proof (FastRand_Uint64_range st) as H. unfold FastRand.Int63, in_u64 in *.
  destruct (FastRand.Uint64 st) as [v st']. simpl in *.
  rewrite Z.shiftr_div_pow2 by lia. change (2 ^ 1) with 2.
  split; [apply Z.div_pos; lia|]. apply Z.div_lt_upper_bound; lia.
Qed.

Lemma FastRand_Int63n_range n st : 0 < n -> 0 <= fst (FastRand.Int63n n st) < n.
Proof.
  intros Hn. unfold FastRand.Int63n. destruct (n <=? 0) eqn:E; b2p; [lia|].
  pose proof (FastRand_Int63_range st). destruct (FastRand.Int63 st). simpl in *.
  apply rem_range; lia.
Qed.

#[export] Hint Resolve FastRand_Int63_range FastRand_Int63n_range : olb.

Lemma slice_get_rem {A} (l : list A) v :
  0 <= v -> l <> [] -> exists x, slice_get l (Z.rem v (Z.of_nat (length l))) = Some x.
Proof.
  intros Hv Hl. apply slice_get_lt. apply rem_range; [done|]. destruct l; [done|simpl; lia].
Qed.

Lemma slice_get_mod {A} (l : list A) v :
  l <> [] -> exists x, slice_get l (v mod Z.of_nat (length l)) = Some x.
Proof.
  intros Hl. apply slice_get_lt, Z.mod_pos_bound. destruct l; [done|simpl; lia].
Qed.

(** ** Repeated selection from a fixed offer *)

Fixpoint next_n {S} `{Balancer S} (n : nat) (h : heap) (ctx : option RequestContext)
    (bs : list ptr) (s : S) : list (option ptr) * S :=
  match n with
  | O => ([], s)
  | Datatypes.S n =>
      let '(b, s') := bal_Next h ctx bs s in
      let '(r, s'') := next_n n h ctx bs s' in (b :: r, s'')
  end.

(** ** Round robin *)

#[export] Instance RoundRobin_laws : BalancerLaws RoundRobin.t.
Proof.
  constructor. intros h ctx bs s p s'. simpl. unfold RoundRobin.Next.
  destruct bs; [done|]. intros [= E _]. by eapply slice_get_in.
Qed.

#[export] Instance RoundRobin_total : BalancerTotal RoundRobin.t.
Proof.
  constructor. intros h ctx bs s Hbs. simpl. unfold RoundRobin.Next.
  destruct bs as [|b bs]; [done|].
  destruct (slice_get_mod (b :: bs) (u64 (u64 (RoundRobin.counter s + 1) - 1))) as [x Hx]; [done|].
  rewrite Hx. by do 2 eexists.
Qed.

Lemma RoundRobin_Next_eq h ctx bs c :
  in_u64 c -> bs <> [] ->
  RoundRobin.Next h ctx bs (RoundRobin.mk c) =
    (bs !! Z.to_nat (c mod Z.of_nat (length bs)), RoundRobin.mk (u64 (c + 1))).
Proof.
  intros Hc Hbs. unfold RoundRobin.Next. destruct bs as [|b bs]; [done|]. simpl RoundRobin.counter.
  replace (u64 (u64 (c + 1) - 1)) with c.
  2:{ unfold u64. rewrite Zminus_mod_idemp_l. replace (c + 1 - 1) with c by lia.
      symmetry. by apply Z.mod_small. }
  unfold slice_get. rewrite bool_decide_true; [done|].
  apply Z.mod_pos_bound. simpl. lia.
Qed.

Lemma RoundRobin_run h ctx bs n c :
  bs <> [] -> 0 <= c -> c + Z.of_nat n < 2 ^ 64 ->
  fst (next_n n h ctx bs (RoundRobin.mk c)) =
    (fun j => bs !! Z.to_nat ((c + Z.of_nat j) mod Z.of_nat (length bs))) <$> seq 0 n.
Proof.
  intros Hbs. revert c. induction n as [|n IH]; intros c Hc Hn; [done|].
  cbn [next_n bal_Next RoundRobin.balancer].
  rewrite RoundRobin_Next_eq by (try done; unfold in_u64; lia).
  rewrite u64_small by (unfold in_u64; lia).
  specialize (IH (c + 1) ltac:(lia) ltac:(lia)).
  destruct (next_n n h ctx bs (RoundRobin.mk (c + 1))) as [r s'] eqn:E. simpl in IH. simpl fst.
  rewrite IH. cbn [seq fmap list_fmap]. rewrite Z.add_0_r. f_equal.
  rewrite <- seq_shift, <- list_fmap_compose. apply list_fmap_ext.
  intros i j _. simpl. by replace (c + 1 + Z.of_nat j) with (c + Z.of_nat (S j)) by lia.
Qed.

Lemma rotate_perm {A} n (l : list A) : rotate n l ≡ₚ l.
Proof. unfold rotate. by rewrite Permutation_app_comm, take_drop. Qed.

(** [len(backends)] consecutive calls of round robin on the same backends
    select each of them exactly once, from any counter value that does not
    overflow meanwhile. *)
Theorem round_robin_full_rotation h ctx bs c :
  0 <= c -> c + Z.of_nat (length bs) < 2 ^ 64 ->
  fst (next_n (length bs) h ctx bs (RoundRobin.mk c)) ≡ₚ Some <$> bs.
Proof.
  intros Hc Hn. destruct (decide (bs = [])) as [->|Hbs]; [done|].
  rewrite RoundRobin_run by done.
  set (L := length bs). assert (HL : (0 < L)%nat) by (subst L; destruct bs; simpl; [done|lia]).
  trans (Some <$> rotate (Z.to_nat (c mod Z.of_nat L)) bs); [|by rewrite rotate_perm].
  match goal with |- ?l ≡ₚ ?k => enough (l = k) as ->; [done|] end.
  apply list_eq. intros i. rewrite !list_lookup_fmap.
  destruct (decide (i < L)%nat) as [Hi|Hi].
  - rewrite lookup_seq_lt by done. simpl.
    rewrite lookup_rotate_r by (subst L; lia). fold L.
    assert (Hidx : Z.to_nat ((c + Z.of_nat i) mod Z.of_nat L) =
                   rotate_nat_add (Z.to_nat (c mod Z.of_nat L)) i L).
    { unfold rotate_nat_add. rewrite Z2Nat.id by (apply Z.mod_pos_bound; lia).
      f_equal. by rewrite Zplus_mod_idemp_l. }
    rewrite Hidx.
    assert (Hlt : (rotate_nat_add (Z.to_nat (c mod Z.of_nat L)) i L < L)%nat)
      by (apply rotate_nat_add_lt; lia).
    destruct (lookup_lt_is_Some_2 bs (rotate_nat_add (Z.to_nat (c mod Z.of_nat L)) i L) Hlt)
      as [x Hx]. by rewrite Hx.
  - rewrite (proj2 (lookup_ge_None (seq 0 L) i)) by (rewrite length_seq; lia).
    rewrite (proj2 (lookup_ge_None (rotate _ bs) i)) by (rewrite length_rotate; subst L; lia).
    done.
Qed.

Definition demo_heap : heap := fun q =>
  set_state StateUp (set_conns (Z.of_nat q) 0 (NewBackend (pretty (Z.of_nat q)) "10.0.0.1:80")).

Lemma round_robin_full_rotation_witness :
  fst (next_n 3 demo_heap None [7; 8; 9]%nat (RoundRobin.mk 4)) ≡ₚ Some <$> [7; 8; 9]%nat.
Proof. apply (round_robin_full_rotation demo_heap None [7; 8; 9]%nat 4); vm_compute; congruence. Defined.

(** ** Least connections *)

Lemma filter_in {A} (f : A -> bool) (l : list A) x :
  x ∈ List.filter f l <-> x ∈ l /\ f x = true.
Proof. by rewrite !list_elem_of_In, filter_In. Qed.

Lemma LeastConnections_scan_spec h bs :
  let '(best, m, t) := LeastConnections.scan h bs in
  m <= MaxInt64 /\ (forall b, b ∈ bs -> m <= ActiveConns (h b) \/ MaxInt64 < ActiveConns (h b)) /\
  match best with
  | Some b => b ∈ bs /\ ActiveConns (h b) = m
  | None => m = MaxInt64
  end /\
  t = Z.of_nat (countb (fun b => ActiveConns (h b) =? m) bs).
Proof.
  unfold LeastConnections.scan. induction bs as [|x bs IH] using rev_ind.
  - simpl. split_and!; [lia|set_solver|done|done].
  - rewrite fold_left_app. simpl.
    destruct (fold_left _ bs _) as [[best m] t]. destruct IH as (Hm & Hle & Hb & Ht).
    destruct (ActiveConns (h x) <? m) eqn:E1; [|destruct (ActiveConns (h x) =? m) eqn:E2]; b2p;
    setoid_rewrite elem_of_app; setoid_rewrite list_elem_of_singleton.
    + split; [lia|split; [|split; [naive_solver|]]].
      * intros b [Hin| ->]; [|lia]. specialize (Hle b Hin). lia.
      * rewrite countb_snoc, Z.eqb_refl.
        assert (countb (fun b => ActiveConns (h b) =? ActiveConns (h x)) bs = 0%nat).
        { unfold countb. destruct (List.filter _ bs) as [|y l] eqn:Ef; [done|].
          assert (Hy : y ∈ List.filter (fun b => ActiveConns (h b) =? ActiveConns (h x)) bs)
            by (rewrite Ef; set_solver).
          apply filter_in in Hy as [Hy E]. b2p. specialize (Hle y Hy). lia. }
        lia.
    + split; [lia|split; [intros b [Hin| ->]; [by apply Hle|lia]|split; [destruct best; [destruct Hb; split; [set_solver|done]|done]|]]].
      rewrite countb_snoc, E2, Z.eqb_refl. lia.
    + split; [lia|split; [intros b [Hin| ->]; [by apply Hle|lia]|split; [destruct best; [destruct Hb; split; [set_solver|done]|done]|]]].
      rewrite countb_snoc, (proj2 (Z.eqb_neq _ _) E2). lia.
Qed.

Lemma LeastConnections_Next_spec h ctx bs s b s' :
  LeastConnections.Next h ctx bs s = (Some b, s') ->
  b ∈ bs /\ forall b', b' ∈ bs -> in_i64 (ActiveConns (h b')) ->
    ActiveConns (h b) <= ActiveConns (h b').
Proof.
  unfold LeastConnections.Next. destruct bs as [|x l]; [done|].
  generalize (x :: l). clear x l. intros bs.
  pose proof (LeastConnections_scan_spec h bs) as Hs.
  destruct (LeastConnections.scan h bs) as [[best m] t].
  destruct Hs as (Hm & Hle & Hb & Ht). destruct best as [b0|]; [|done].
  assert (Hmin : forall b1, b1 ∈ bs -> ActiveConns (h b1) = m ->
    b1 ∈ bs /\ forall b', b' ∈ bs -> in_i64 (ActiveConns (h b')) ->
      ActiveConns (h b1) <= ActiveConns (h b')).
  { intros b1 Hin ->. split; [done|]. intros b' Hb' Hi. unfold in_i64, MaxInt64 in *.
    destruct (Hle b' Hb'); lia. }
  destruct (1 <? t).
  - intros [= E _]. apply slice_get_in, filter_in in E as [Hin E]. b2p. by apply Hmin.
  - intros [= -> _]. naive_solver.
Qed.

#[export] Instance LeastConnections_laws : BalancerLaws LeastConnections.t.
Proof. constructor. intros h ctx bs s p s' H. by apply LeastConnections_Next_spec in H as [? _]. Qed.

(** least connections selects a backend of the offer with the fewest active
    connections, and selects some backend as soon as one of them has fewer than
    [math.MaxInt64]. *)
Theorem least_connections_minimal h ctx bs s :
  (forall b, b ∈ bs -> in_i64 (ActiveConns (h b))) ->
  match fst (LeastConnections.Next h ctx bs s) with
  | Some b => b ∈ bs /\ forall b', b' ∈ bs -> ActiveConns (h b) <= ActiveConns (h b')
  | None => forall b, b ∈ bs -> ActiveConns (h b) = MaxInt64
  end.
Proof.
  intros Hi. destruct (LeastConnections.Next h ctx bs s) as [[b|] s'] eqn:E; simpl.
  - apply LeastConnections_Next_spec in E as [Hb Hmin]. auto.
  - unfold LeastConnections.Next in E. destruct bs as [|x l]; [set_solver|].
    revert Hi E. generalize (x :: l). clear x l. intros bs Hi E.
    pose proof (LeastConnections_scan_spec h bs) as Hs.
    destruct (LeastConnections.scan h bs) as [[best m] t].
    destruct Hs as (Hm & Hle & Hb & Ht). destruct best as [b0|].
    + destruct (1 <? t) eqn:E1; [|done]. b2p.
      destruct (slice_get_mod (List.filter (fun b => ActiveConns (h b) =? m) bs)
        (u64 (u64 (LeastConnections.counter s + 1) - 1))) as [y Hy]; [|congruence].
      unfold countb in Ht. intros Hnil. rewrite Hnil in Ht. simpl in Ht. lia.
    + subst m. intros b Hbin. specialize (Hle b Hbin). specialize (Hi b Hbin).
      unfold in_i64, MaxInt64 in *. lia.
Qed.

Lemma least_connections_minimal_witness :
  fst (LeastConnections.Next demo_heap None [9; 4; 6; 4]%nat (LeastConnections.mk [] 0)) = Some 4%nat /\
  forall b', b' ∈ [9; 4; 6; 4]%nat -> ActiveConns (demo_heap 4%nat) <= ActiveConns (demo_heap b').
Proof.
  split; [reflexivity|].
  pose proof (least_connections_minimal demo_heap None [9; 4; 6; 4]%nat (LeastConnections.mk [] 0)) as H.
  apply H. intros b Hb. repeat (apply elem_of_cons in Hb as [->|Hb]; [vm_compute; split; congruence|]).
  by apply elem_of_nil in Hb.
Defined.

(** ** Weighted least connections *)

Lemma f64_ltb_nan x y : f64_ltb x y = true -> f64_is_nan x = false /\ f64_is_nan y = false.
Proof. by destruct x as [| | |[]], y as [| | |[]]. Qed.

Lemma f64_nan_ltb x y : f64_is_nan x = true -> f64_ltb x y = false.
Proof. destruct x as [| | |[]]; simpl; intros H; [discriminate..| |discriminate|discriminate]. reflexivity. Qed.

Lemma f64_eqb_rank x y :
  f64_eqb x y = true ->
  f64_is_nan x = false /\ f64_is_nan y = false /\ rank_compare (f64_rank x) (f64_rank y) = Eq.
Proof.
  intros H. assert (Hx : f64_is_nan x = false /\ f64_is_nan y = false)
    by by destruct x as [| | |[]], y as [| | |[]].
  destruct Hx as [Hx Hy]. split_and!; [done..|].
  unfold f64_eqb, SFeqb in H. rewrite SFcompare_rank in H by done. by destruct (rank_compare _ _).
Qed.

Lemma rank_compare_eq a b : rank_compare a b = Eq -> a = b.
Proof.
  unfold rank_compare. destruct a as [[a1 a2] a3], b as [[b1 b2] b3]. simpl.
  destruct (Z.compare_spec a1 b1); destruct (Z.compare_spec a2 b2);
  destruct (Z.compare_spec a3 b3); naive_solver.
Qed.

(** No float is below [r] unless it is below the minimum [m], when [r] equals it. *)
Lemma f64_eqb_nlt x r m : f64_eqb r m = true -> f64_ltb x m = false -> f64_ltb x r = false.
Proof.
  intros (Hr & Hm & E%rank_compare_eq)%f64_eqb_rank Hx. apply not_true_iff_false.
  apply not_true_iff_false in Hx. intros Hlt. apply Hx.
  destruct (f64_ltb_nan _ _ Hlt) as [Hn _].
  rewrite f64_ltb_rank in * by done. congruence.
Qed.

(** The ratio a balancer state assigns to a backend. *)
Definition wlc_ratio (h : heap) (m : gmap string WeightedLeastConnections.lcWeightedBackend)
    (b : ptr) : option float64 :=
  WeightedLeastConnections.ratio h b <$> m !! ID (h b).

Lemma WLC_scan_spec h m bs :
  let '(best, r, t) := WeightedLeastConnections.scan h m bs in
  f64_is_nan r = false /\
  (forall b rb, b ∈ bs -> wlc_ratio h m b = Some rb -> f64_ltb rb r = false) /\
  match best with
  | Some b => b ∈ bs /\ wlc_ratio h m b = Some r
  | None => r = MaxFloat64
  end.
Proof.
  unfold WeightedLeastConnections.scan. induction bs as [|x bs IH] using rev_ind.
  - simpl. split; [done|split; [set_solver|done]].
  - rewrite fold_left_app. simpl. destruct (fold_left _ bs _) as [[best r] t].
    destruct IH as (Hr & Hle & Hb).
    unfold wlc_ratio in *.
    destruct (m !! ID (h x)) as [wb|] eqn:Ex; simpl.
    2:{ setoid_rewrite elem_of_app. setoid_rewrite list_elem_of_singleton.
        split; [done|split; [ |destruct best; [destruct Hb; split; [set_solver|done]|done]]].
        intros b rb [Hin| ->]; [by apply Hle|]. by rewrite Ex. }
    destruct (f64_ltb (WeightedLeastConnections.ratio h x wb) r) eqn:E1.
    + setoid_rewrite elem_of_app. setoid_rewrite list_elem_of_singleton.
      destruct (f64_ltb_nan _ _ E1) as [Hn _]. split; [done|split; [ |rewrite Ex; naive_solver]].
      intros b rb [Hin| ->] Hrb.
      * specialize (Hle b rb Hin Hrb).
        destruct (f64_is_nan rb) eqn:En; [by apply f64_nan_ltb|]. by apply (f64_lt_nlt _ r).
      * rewrite Ex in Hrb. simpl in Hrb. injection Hrb as <-. by apply f64_ltb_irrefl.
    + assert (Hall : forall b rb, b ∈ bs \/ b = x ->
        WeightedLeastConnections.ratio h b <$> m !! ID (h b) = Some rb -> f64_ltb rb r = false).
      { intros b rb [Hin| ->] Hrb; [by eapply Hle|]. rewrite Ex in Hrb. naive_solver. }
      destruct (f64_eqb _ r); setoid_rewrite elem_of_app; setoid_rewrite list_elem_of_singleton;
        (split; [done|split; [done|destruct best; [destruct Hb; split; [set_solver|done]|done]]]).
Qed.

(** weighted least connections selects a backend of the offer such that no
    offered backend has a smaller connections-to-weight ratio (as [float64], with
    the weights the balancer recorded). *)
Theorem weighted_least_connections_minimal h ctx bs s b s' :
  WeightedLeastConnections.Next h ctx bs s = (Some b, s') ->
  b ∈ bs /\ exists r, wlc_ratio h (WeightedLeastConnections.backends s') b = Some r /\
    forall b' r', b' ∈ bs -> wlc_ratio h (WeightedLeastConnections.backends s') b' = Some r' ->
      f64_ltb r' r = false.
Proof.
  unfold WeightedLeastConnections.Next. destruct bs as [|x l]; [done|].
  generalize (x :: l). clear x l. intros bs.
  set (m := WeightedLeastConnections.ensure _ _ _). cbv zeta.
  pose proof (WLC_scan_spec h m bs) as Hs.
  destruct (WeightedLeastConnections.scan h m bs) as [[best r] t].
  destruct Hs as (Hr & Hle & Hb). destruct best as [b0|]; [|done].
  destruct (1 <? t).
  - intros [= E <-]. apply slice_get_in, filter_in in E as [Hin E]. simpl.
    unfold WeightedLeastConnections.has_ratio in E. unfold wlc_ratio at 1.
    destruct (m !! ID (h b)) as [wb|]; [|done]. split; [done|]. eexists; split; [done|].
    intros b' r' Hb' Hr'. by eapply f64_eqb_nlt; [|eapply Hle].
  - intros [= -> <-]. simpl. destruct Hb as [Hin Hrb]. split; [done|]. eauto.
Qed.

#[export] Instance WeightedLeastConnections_laws : BalancerLaws WeightedLeastConnections.t.
Proof.
  constructor. intros h ctx bs s p s' H. simpl in H. unfold WeightedLeastConnections.Next in H.
  destruct bs as [|x l]; [done|]. revert H. generalize (x :: l). clear x l. intros bs H.
  cbv zeta in H. set (m := WeightedLeastConnections.ensure _ _ _) in *.
  pose proof (WLC_scan_spec h m bs) as Hs.
  destruct (WeightedLeastConnections.scan h m bs) as [[[b0|] r] t]; [|done].
  destruct (1 <? t).
  - injection H as E _. by apply slice_get_in, filter_in in E as [? _].
  - naive_solver.
Qed.

Lemma weighted_least_connections_minimal_witness :
  WeightedLeastConnections.Next demo_heap None [9; 4; 6]%nat
      WeightedLeastConnections.NewWeightedLeastConnections
    = (Some 4%nat, snd (WeightedLeastConnections.Next demo_heap None [9; 4; 6]%nat
      WeightedLeastConnections.NewWeightedLeastConnections)) /\ 4%nat ∈ [9; 4; 6]%nat.
Proof.
  assert (E : WeightedLeastConnections.Next demo_heap None [9; 4; 6]%nat
      WeightedLeastConnections.NewWeightedLeastConnections
    = (Some 4%nat, snd (WeightedLeastConnections.Next demo_heap None [9; 4; 6]%nat
      WeightedLeastConnections.NewWeightedLeastConnections))) by (vm_compute; reflexivity).
  split; [exact E|].
  exact (proj1 (weighted_least_connections_minimal _ _ _ _ _ _ E)).
Defined.

(** ** Power of two choices *)

(** The two backends that [Next] draws. *)
Definition p2c_draws (bs : list ptr) (s : PowerOfTwo.t) : option ptr * option ptr :=
  let n := Z.of_nat (length bs) in
  let '(random1, r1) := FastRand.Int63 (PowerOfTwo.rnd s) in
  let '(random2, _) := FastRand.Int63 r1 in
  (slice_get bs (Z.rem random1 n), slice_get bs (Z.rem random2 n)).

Lemma PowerOfTwo_Next_spec h ctx bs s :
  bs <> [] ->
  exists b1 b2 b s', p2c_draws bs s = (Some b1, Some b2) /\ b1 ∈ bs /\ b2 ∈ bs /\
    (b = b1 \/ b = b2) /\ PowerOfTwo.Next h ctx bs s = (Some b, s') /\
    ActiveConns (h b) <= ActiveConns (h b1) /\ ActiveConns (h b) <= ActiveConns (h b2).
Proof.
  intros Hne. unfold PowerOfTwo.Next, p2c_draws.
  assert (Hlen : 0 < Z.of_nat (length bs)) by (destruct bs; [done|simpl; lia]).
  rewrite (proj2 (Z.eqb_neq _ _)) by lia.
  pose proof (FastRand_Int63_range (PowerOfTwo.rnd s)) as H1.
  destruct (FastRand.Int63 (PowerOfTwo.rnd s)) as [v1 r1].
  pose proof (FastRand_Int63_range r1) as H2. destruct (FastRand.Int63 r1) as [v2 r2].
  simpl in H1, H2.
  destruct (slice_get_rem bs v1) as [b1 Hb1]; [lia|done|].
  destruct (slice_get_rem bs v2) as [b2 Hb2]; [lia|done|].
  rewrite Hb1, Hb2. pose proof (slice_get_in _ _ _ Hb1) as I1.
  pose proof (slice_get_in _ _ _ Hb2) as I2.
  destruct (Z.of_nat (length bs) =? 1) eqn:E1; b2p.
  { rewrite E1, Z.rem_1_r in Hb1, Hb2. assert (b2 = b1) as -> by congruence. rewrite Hb1.
    exists b1, b1, b1, s. split_and!; auto; lia. }
  case_step; b2p.
  { assert (b2 = b1) as -> by congruence. exists b1, b1, b1. eexists. split_and!; eauto; lia. }
  case_step; b2p; [exists b1, b2, b1; eexists; split_and!; eauto; lia|].
  case_step; b2p; [exists b1, b2, b2; eexists; split_and!; eauto; lia|].
  destruct (FastRand.Int63 r2) as [v3 r3].
  exists b1, b2, (if Z.rem v3 2 =? 0 then b1 else b2). eexists.
  split_and!; eauto; destruct (Z.rem v3 2 =? 0); auto; lia.
Qed.

#[export] Instance PowerOfTwo_laws : BalancerLaws PowerOfTwo.t.
Proof.
  constructor. intros h ctx bs s p s' H. simpl in H. destruct (decide (bs = [])) as [->|Hne]; [done|].
  destruct (PowerOfTwo_Next_spec h ctx bs s Hne) as (b1 & b2 & b & s1 & _ & H1 & H2 & Hb & E & _).
  assert (p = b) as -> by congruence. by destruct Hb as [->| ->].
Qed.

#[export] Instance PowerOfTwo_total : BalancerTotal PowerOfTwo.t.
Proof.
  constructor. intros h ctx bs s Hne.
  destruct (PowerOfTwo_Next_spec h ctx bs s Hne) as (b1 & b2 & b & s1 & _ & _ & _ & _ & E & _).
  eauto.
Qed.

(** power of two choices returns one of the two backends its random numbers
    draw from the offer, one whose active connections do not exceed the other's. *)
Theorem power_of_two_picks_less_loaded h ctx bs s b s' :
  PowerOfTwo.Next h ctx bs s = (Some b, s') ->
  exists b1 b2, p2c_draws bs s = (Some b1, Some b2) /\ (b = b1 \/ b = b2) /\
    ActiveConns (h b) <= ActiveConns (h b1) /\ ActiveConns (h b) <= ActiveConns (h b2).
Proof.
  intros H. destruct (decide (bs = [])) as [->|Hne]; [done|].
  destruct (PowerOfTwo_Next_spec h ctx bs s Hne) as (b1 & b2 & b0 & s1 & Hd & _ & _ & Hb & E & Hc).
  assert (b = b0) as -> by congruence. eauto 10.
Qed.

(** A draw from three backends with 2, 4 and 6 connections. *)
Lemma power_of_two_picks_less_loaded_witness :
  exists b1 b2, p2c_draws [2; 4; 6]%nat (PowerOfTwo.NewPowerOfTwo 42) = (Some b1, Some b2).
Proof.
  destruct (power_of_two_picks_less_loaded demo_heap None [2; 4; 6]%nat (PowerOfTwo.NewPowerOfTwo 42)
    (default 0%nat (fst (PowerOfTwo.Next demo_heap None [2; 4; 6]%nat (PowerOfTwo.NewPowerOfTwo 42))))
    (snd (PowerOfTwo.Next demo_heap None [2; 4; 6]%nat (PowerOfTwo.NewPowerOfTwo 42))))
    as (b1 & b2 & H1 & _); [vm_compute; reflexivity|].
  exists b1, b2. exact H1.
Defined.

(** ** IP hash *)

#[export] Instance IPHash_laws : BalancerLaws IPHash.t.
Proof.
  constructor. intros h ctx bs s p s'. simpl. unfold IPHash.Next.
  destruct bs; [done|]. intros [= E _]. by eapply slice_get_in.
Qed.

(** The key an address is hashed by: its binary form, if it has one. *)
Definition client_key (ip : string) : string + list Z :=
  match ParseIP ip with Some a => inr a | None => inl ip end.

(** IP hash is sticky and total: for a non-empty offer of fewer than 2^32
    backends it selects a backend, the same one for two textual forms of the same
    address, whatever happened in between. *)
Theorem ip_hash_affinity h h' bs s s' ip ip' r r' :
  bs <> [] -> Z.of_nat (length bs) < 2 ^ 32 -> ip <> "" -> ip' <> "" ->
  client_key ip = client_key ip' ->
  exists b, fst (IPHash.Next h (Some (mkRequestContext ip r)) bs s) = Some b /\
            fst (IPHash.Next h' (Some (mkRequestContext ip' r')) bs s') = Some b.
Proof.
  intros Hne Hlen Hip Hip' Hk.
  assert (Hh : IPHash.hashIP ip = IPHash.hashIP ip').
  { unfold IPHash.hashIP, client_key in *. rewrite !bool_decide_false by done.
    destruct (ParseIP ip), (ParseIP ip'); naive_solver. }
  unfold IPHash.Next. destruct bs as [|x l]; [done|]. simpl ClientIP. rewrite Hh.
  revert Hlen. assert (Hpos : 0 < Z.of_nat (length (x :: l))) by (simpl; lia).
  generalize dependent (x :: l). intros bs _ Hpos Hlen.
  rewrite u32_small by (unfold in_u32; lia).
  destruct (slice_get_mod bs (IPHash.hashIP ip')) as [b Hb]; [by intros ->|].
  exists b. simpl. by rewrite Hb.
Qed.

Lemma ip_hash_affinity_witness :
  exists b, fst (IPHash.Next demo_heap (Some (mkRequestContext "10.0.0.1" None))
                   [1; 2; 3]%nat IPHash.NewIPHash) = Some b /\
            fst (IPHash.Next demo_heap (Some (mkRequestContext "::ffff:10.0.0.1" None))
                   [1; 2; 3]%nat IPHash.NewIPHash) = Some b.
Proof.
  apply (ip_hash_affinity demo_heap demo_heap [1; 2; 3]%nat IPHash.NewIPHash IPHash.NewIPHash
           "10.0.0.1" "::ffff:10.0.0.1"); [discriminate|reflexivity|discriminate|discriminate|reflexivity].
Defined.

(** ** Random and weighted random *)

#[export] Instance Random_laws : BalancerLaws Random.t.
Proof.
  constructor. intros h ctx bs s p s'. simpl. unfold Random.Next. destruct bs; [done|].
  destruct (FastRand.Int63 _). intros [= E _]. by eapply slice_get_in.
Qed.

#[export] Instance Random_total : BalancerTotal Random.t.
Proof.
  constructor. intros h ctx bs s Hne. simpl. unfold Random.Next. destruct bs as [|x l]; [done|].
  pose proof (FastRand_Int63_range (Random.rnd s)). destruct (FastRand.Int63 _) as [v st].
  destruct (slice_get_rem (x :: l) v) as [b Hb]; [simpl in *; lia|done|]. rewrite Hb. eauto.
Qed.

Lemma WeightedRandom_walk_in h r bs b : WeightedRandom.walk h r bs = Some b -> b ∈ bs.
Proof.
  revert r. induction bs as [|x bs IH]; intros r; simpl; [done|].
  case_step; [set_solver|]. intros H%IH. set_solver.
Qed.

#[export] Instance WeightedRandom_laws : BalancerLaws WeightedRandom.t.
Proof.
  constructor. intros h ctx bs s p s'. simpl. unfold WeightedRandom.Next.
  destruct bs as [|x l]; [done|]. generalize (x :: l). clear x l. intros bs.
  case_step; [done|]. destruct (FastRand.Int63n _ _) as [v st].
  destruct (WeightedRandom.walk h v bs) as [b|] eqn:Ew.
  - intros [= <- _]. by eapply WeightedRandom_walk_in.
  - intros [= H _]. by apply last_Some_elem_of.
Qed.

Abbreviation wr_weight h b := (WeightedRandom.eff_weight (h b)).

Lemma eff_weight_range b : in_i32 (GetWeight b) -> 1 <= WeightedRandom.eff_weight b < 2 ^ 31.
Proof. unfold WeightedRandom.eff_weight, in_i32. intros. case_step; b2p; lia. Qed.

(** the walk of weighted random gives each backend the half-open interval of
    random values between the sum of the weights before it and that sum plus its
    own weight: over the [total] possible values, it is selected by exactly
    [weight] of them. *)
Theorem weighted_random_intervals h l1 b l2 random :
  (forall q, in_i32 (GetWeight (h q))) ->
  sumZ (fun q => wr_weight h q) l1 <= random < sumZ (fun q => wr_weight h q) l1 + wr_weight h b ->
  random < 2 ^ 62 ->
  WeightedRandom.walk h random (l1 ++ b :: l2) = Some b.
Proof.
  intros Hw. assert (Hr : forall q, 1 <= wr_weight h q < 2 ^ 31) by (intros; by apply eff_weight_range).
  revert random. induction l1 as [|x l1 IH]; intros random Hi Hb; simpl in *.
  - specialize (Hr b). rewrite i64_small by (unfold in_i64; lia).
    rewrite (proj2 (Z.ltb_lt _ _)) by lia. done.
  - pose proof (Hr x). assert (0 <= sumZ (fun q => wr_weight h q) l1).
    { apply sumZ_nonneg. intros q _. specialize (Hr q). lia. }
    rewrite i64_small by (unfold in_i64; lia). rewrite (proj2 (Z.ltb_ge _ _)) by lia.
    apply IH; lia.
Qed.

Lemma weighted_random_intervals_witness :
  WeightedRandom.walk demo_heap 1 ([3] ++ 4 :: [5])%nat = Some 4%nat.
Proof.
  apply (weighted_random_intervals demo_heap [3]%nat 4%nat [5]%nat 1);
    [intros q; split; vm_compute; congruence|vm_compute; split; congruence|vm_compute; congruence].
Defined.

(** The recorded total of weighted random is the sum of the recorded weights. *)
Definition wr_total_ok (wr : WeightedRandom.t) : Prop :=
  WeightedRandom.total wr = i64 (sumZ WeightedRandom.wb_weight (WeightedRandom.backends wr)).

Lemma index_of_lookup h id l i wb :
  WeightedRandom.index_of h id l = Some (i, wb) -> l !! i = Some wb.
Proof.
  revert i. induction l as [|x l IH]; intros i; simpl; [done|].
  case_step; [naive_solver|]. destruct (WeightedRandom.index_of h id l) as [[j y]|]; [|done].
  intros [= <- <-]. by apply IH.
Qed.

Lemma sumZ_insert {A} (f : A -> Z) (l : list A) i x y :
  l !! i = Some x -> sumZ f (<[i := y]> l) = sumZ f l - f x + f y.
Proof.
  intros H. rewrite insert_take_drop by (by eapply lookup_lt_Some).
  rewrite <- (take_drop_middle l i x H) at 3. rewrite !sumZ_app. simpl. lia.
Qed.

Lemma sumZ_swap_remove {A} (f : A -> Z) (l : list A) i x e :
  l !! i = Some x -> last l = Some e ->
  sumZ f (take (length l - 1) (<[i := e]> l)) = sumZ f l - f x.
Proof.
  intros Hi Hl. apply last_Some in Hl as [l' ->]. rewrite length_app. simpl.
  replace (length l' + 1 - 1)%nat with (length l') by lia.
  destruct (decide (i < length l')%nat) as [Hlt|Hge].
  - rewrite insert_app_l by done. rewrite take_app_length' by (by rewrite length_insert).
    rewrite lookup_app_l in Hi by done. rewrite (sumZ_insert _ _ _ _ _ Hi), sumZ_app. simpl. lia.
  - assert (i = length l') as ->.
    { apply lookup_lt_Some in Hi. rewrite length_app in Hi. simpl in Hi. lia. }
    rewrite insert_app_r_alt by lia. rewrite Nat.sub_diag. simpl. rewrite take_app_length.
    rewrite lookup_app_r in Hi by lia. rewrite Nat.sub_diag in Hi. simpl in Hi.
    rewrite sumZ_app. simpl. naive_solver lia.
Qed.

(** Adding, removing and updating backends keeps the recorded total weight
    of weighted random equal to the sum of the recorded weights, at 64 bits. *)
Theorem weighted_random_total_invariant h wr b id :
  wr_total_ok wr ->
  wr_total_ok (WeightedRandom.Add h b wr) /\ wr_total_ok (WeightedRandom.Remove h id wr) /\
  wr_total_ok (WeightedRandom.Update h b wr).
Proof.
  unfold wr_total_ok. intros Hok. split_and!.
  - unfold WeightedRandom.Add. case_step; [done|]. simpl. rewrite Hok, i64_add_l, sumZ_app.
    simpl. f_equal; lia.
  - unfold WeightedRandom.Remove. destruct (WeightedRandom.index_of h id _) as [[i wb]|] eqn:Ei; [|done].
    apply index_of_lookup in Ei. destruct (last (WeightedRandom.backends wr)) as [e|] eqn:El; [|done].
    simpl. rewrite (sumZ_swap_remove _ _ _ _ _ Ei El), Hok.
    replace (i64 _ - _) with (i64 (sumZ WeightedRandom.wb_weight (WeightedRandom.backends wr))
      + (- WeightedRandom.wb_weight wb)) by lia. rewrite i64_add_l. f_equal; lia.
  - unfold WeightedRandom.Update. destruct (WeightedRandom.index_of h _ _) as [[i wb]|] eqn:Ei; [|done].
    apply index_of_lookup in Ei. simpl. rewrite (sumZ_insert _ _ _ _ _ Ei), Hok. simpl.
    rewrite i64_add_l. replace (i64 _ - _ + _) with
      (i64 (sumZ WeightedRandom.wb_weight (WeightedRandom.backends wr)) +
       (WeightedRandom.eff_weight (h b) - WeightedRandom.wb_weight wb)) by lia.
    rewrite i64_add_l. f_equal; lia.
Qed.

(** Two backends of weight 1 and one of weight 5; the first one is removed. *)
Lemma weighted_random_total_invariant_witness :
  wr_total_ok (WeightedRandom.Remove demo_heap "3"
    (WeightedRandom.mk [WeightedRandom.mkWB 3%nat 1; WeightedRandom.mkWB 4%nat 1; WeightedRandom.mkWB 5%nat 5] 7 0)).
Proof.
  apply (weighted_random_total_invariant demo_heap
    (WeightedRandom.mk [WeightedRandom.mkWB 3%nat 1; WeightedRandom.mkWB 4%nat 1; WeightedRandom.mkWB 5%nat 5] 7 0)
    3%nat "3"). reflexivity.
Defined.

(** ** Rendezvous hashing *)

Section Rendezvous.
Variables (h : heap) (key : string).

(** The weight [Next] compares. *)
Definition rdv_weight (b : ptr) : Z := RendezvousHash.computeWeight key (ID (h b)).

(** One iteration of the selection loop. *)
Definition rdv_step : option ptr * Z -> ptr -> option ptr * Z :=
  fun '(best, maxWeight) be =>
    if IsHealthy (h be) then
      if maxWeight <? rdv_weight be then (Some be, rdv_weight be) else (best, maxWeight)
    else (best, maxWeight).

Lemma best_loop_fold bs : RendezvousHash.best_loop h key bs = fold_left rdv_step bs (None, 0).
Proof. done. Qed.

(** Two runs of the loop over the same backends, the second one ahead: either the
    second one keeps its lead, or they end in the same state. *)
Lemma rdv_fold_merge bs b0 m0 b1 m1 :
  m0 <= m1 ->
  fold_left rdv_step bs (b1, m1) = (b1, m1) \/
  fold_left rdv_step bs (b0, m0) = fold_left rdv_step bs (b1, m1).
Proof.
  revert b0 m0 b1 m1. induction bs as [|y bs IH]; intros b0 m0 b1 m1 Hle; [by left|].
  simpl. destruct (IsHealthy (h y)); [|by apply IH].
  destruct (m1 <? rdv_weight y) eqn:E1; b2p.
  - rewrite (proj2 (Z.ltb_lt _ _)) by lia. by right.
  - destruct (m0 <? rdv_weight y); apply IH; lia.
Qed.

Lemma rdv_fold_spec bs :
  let '(best, m) := fold_left rdv_step bs (None, 0) in
  0 <= m /\ (forall b, b ∈ bs -> IsHealthy (h b) = true -> rdv_weight b <= m) /\
  match best with
  | Some b => b ∈ bs /\ IsHealthy (h b) = true /\ rdv_weight b = m
  | None => m = 0
  end.
Proof.
  induction bs as [|x bs IH] using rev_ind; [simpl; split_and!; [lia|set_solver|done]|].
  rewrite fold_left_app. simpl. destruct (fold_left rdv_step bs (None, 0)) as [best m].
  destruct IH as (Hm & Hle & Hb). simpl.
  assert (Hin : forall b, b ∈ bs ++ [x] <-> b ∈ bs \/ b = x)
    by (intros; by rewrite elem_of_app, list_elem_of_singleton).
  destruct (IsHealthy (h x)) eqn:Eh; [destruct (m <? rdv_weight x) eqn:E; b2p|].
  - split; [lia|split; [|split_and!; [apply Hin; auto|done|done]]].
    intros b [Hb'| ->]%Hin Hh; [|lia]. specialize (Hle b Hb' Hh). lia.
  - split; [lia|split; [|destruct best; [rewrite Hin; naive_solver|done]]].
    intros b [Hb'| ->]%Hin Hh; [by apply Hle|lia].
  - split; [lia|split; [|destruct best; [rewrite Hin; naive_solver|done]]].
    intros b [Hb'| ->]%Hin Hh; [by apply Hle|congruence].
Qed.

(** Removing a backend that is not the winner does not change the outcome. *)
Lemma rdv_fold_remove l1 x l2 :
  fst (fold_left rdv_step (l1 ++ x :: l2) (None, 0)) <> Some x ->
  fold_left rdv_step (l1 ++ l2) (None, 0) = fold_left rdv_step (l1 ++ x :: l2) (None, 0).
Proof.
  rewrite !fold_left_app. simpl. destruct (fold_left rdv_step l1 (None, 0)) as [b m]. simpl.
  destruct (IsHealthy (h x)); [|done]. destruct (m <? rdv_weight x) eqn:E; [|done]. b2p.
  destruct (rdv_fold_merge l2 b m (Some x) (rdv_weight x)) as [->| ->]; [lia|done|done].
Qed.
End Rendezvous.

#[export] Instance RendezvousHash_laws : BalancerLaws RendezvousHash.t.
Proof.
  constructor. intros h ctx bs s p s'. simpl. unfold RendezvousHash.Next.
  destruct bs as [|b0 l]; [done|]. destruct (if bool_decide _ then _ else _) as [key r'].
  pose proof (rdv_fold_spec h key (b0 :: l)) as Hs. rewrite <- best_loop_fold in Hs.
  destruct (RendezvousHash.best_loop h key (b0 :: l)) as [[b|] m]; simpl in *; [naive_solver|].
  intros [= <- _]. set_solver.
Qed.

#[export] Instance RendezvousHash_total : BalancerTotal RendezvousHash.t.
Proof.
  constructor. intros h ctx bs s Hne. simpl. unfold RendezvousHash.Next.
  destruct bs as [|b0 l]; [done|]. destruct (if bool_decide _ then _ else _) as [key r'].
  destruct (fst _); eauto.
Qed.

Lemma RendezvousHash_Next_key h ip req bs s b0 l :
  ip <> "" -> bs = b0 :: l ->
  fst (RendezvousHash.Next h (Some (mkRequestContext ip req)) bs s) =
    Some (default b0 (fst (fold_left (rdv_step h ip) bs (None, 0)))).
Proof.
  intros Hip ->. unfold RendezvousHash.Next. simpl ClientIP. rewrite bool_decide_false by done.
  rewrite best_loop_fold. by destruct (fst (fold_left _ _ _)).
Qed.

(** minimal disruption of rendezvous hashing: taking away a backend that a
    client is not mapped to does not change the backend the client is mapped to. *)
Theorem rendezvous_minimal_disruption h ip req l1 x l2 s p :
  ip <> "" ->
  fst (RendezvousHash.Next h (Some (mkRequestContext ip req)) (l1 ++ x :: l2) s) = Some p ->
  x <> p ->
  fst (RendezvousHash.Next h (Some (mkRequestContext ip req)) (l1 ++ l2) s) = Some p.
Proof.
  intros Hip Hn Hx.
  destruct (l1 ++ x :: l2) as [|b0 l] eqn:El; [by destruct l1|].
  rewrite (RendezvousHash_Next_key h ip req _ s b0 l) in Hn by done. apply Some_inj in Hn as Hp.
  rewrite <- El in Hp.
  assert (Hw : fst (fold_left (rdv_step h ip) (l1 ++ x :: l2) (None, 0)) <> Some x).
  { intros E. rewrite E in Hp. simpl in Hp. congruence. }
  pose proof (rdv_fold_remove h ip l1 x l2 Hw) as Hr.
  destruct l1 as [|b1 l1].
  - simpl app in *. injection El as -> ->. rewrite <- Hr in Hp. clear Hn.
    destruct l as [|b1 l2']; [done|].
    rewrite (RendezvousHash_Next_key h ip req _ s b1 l2') by done.
    destruct (fst (fold_left _ (b1 :: l2') _)); [by rewrite <- Hp|done].
  - simpl in El. injection El as -> _. simpl app in *.
    rewrite (RendezvousHash_Next_key h ip req _ s b0 (l1 ++ l2)) by done. by rewrite Hr, Hp.
Qed.

Definition abc_heap : heap := fun q =>
  set_state StateUp (NewBackend (match q with 0%nat => "a" | 1%nat => "b" | _ => "c" end) "10.0.0.1:80").

Lemma rendezvous_minimal_disruption_witness :
  exists p, fst (RendezvousHash.Next abc_heap (Some (mkRequestContext "10.1.2.3" None))
    ([0] ++ 1 :: [2])%nat (RendezvousHash.NewRendezvousHash 0)) = Some p /\
  fst (RendezvousHash.Next abc_heap (Some (mkRequestContext "10.1.2.3" None))
    ([0] ++ [2])%nat (RendezvousHash.NewRendezvousHash 0)) = Some p.
Proof.
  eexists. split; [vm_compute; reflexivity|].
  apply (rendezvous_minimal_disruption abc_heap "10.1.2.3" None [0]%nat 1%nat [2]%nat
    (RendezvousHash.NewRendezvousHash 0)); [discriminate|vm_compute; reflexivity|discriminate].
Defined.

(** rendezvous hashing maps a client to a healthy backend of highest weight,
    when a healthy backend has a non-zero weight at all. *)
Theorem rendezvous_highest_weight h ip req bs s p :
  ip <> "" ->
  fst (RendezvousHash.Next h (Some (mkRequestContext ip req)) bs s) = Some p ->
  (exists b, b ∈ bs /\ IsHealthy (h b) = true /\ 0 < rdv_weight h ip b) ->
  p ∈ bs /\ IsHealthy (h p) = true /\
  forall b, b ∈ bs -> IsHealthy (h b) = true -> rdv_weight h ip b <= rdv_weight h ip p.
Proof.
  intros Hip Hn (b & Hb & Hh & Hpos). destruct bs as [|b0 l] eqn:El; [set_solver|].
  rewrite (RendezvousHash_Next_key h ip req _ s b0 l) in Hn by done. apply Some_inj in Hn as Hp.
  pose proof (rdv_fold_spec h ip (b0 :: l)) as Hs.
  destruct (fold_left (rdv_step h ip) (b0 :: l) (None, 0)) as [best m].
  destruct Hs as (Hm & Hle & Hbest). simpl in Hp. destruct best as [p'|]; simpl in *.
  - subst p'. destruct Hbest as (H1 & H2 & <-). auto.
  - specialize (Hle b Hb Hh). lia.
Qed.

Lemma rendezvous_highest_weight_witness :
  exists p, p ∈ [0; 1; 2]%nat /\ IsHealthy (abc_heap p) = true /\
  forall b, b ∈ [0; 1; 2]%nat -> IsHealthy (abc_heap b) = true ->
    rdv_weight abc_heap "10.1.2.3" b <= rdv_weight abc_heap "10.1.2.3" p.
Proof.
  eexists. apply (rendezvous_highest_weight abc_heap "10.1.2.3" None [0; 1; 2]%nat
    (RendezvousHash.NewRendezvousHash 0)); [discriminate|vm_compute; reflexivity|].
  exists 0%nat. split; [left|]. split; vm_compute; reflexivity.
Defined.
