(* ===== verification/PoolExamples.v ===== *)
(** * Pools over round robin: the pool theorems at concrete pools *)
From S2P Require Import Prelude Http Errors Backend BackendPool Balancers BalancersFacts.

(** A round-robin pool with the backends ["a"] and ["b"] of [abc_heap]. *)
Definition demo_pool : Pool RoundRobin.t :=
  mkPool "web" "round_robin" (<["b" := 1%nat]> (<["a" := 0%nat]> ∅)) [0; 1]%nat
    (Some RoundRobin.NewRoundRobin) (HealthCheck (@NewPool RoundRobin.t "web" "round_robin")).

Lemma demo_pool_reachable :
  rtc pool_step (abc_heap, NewPool "web" "round_robin") (abc_heap, demo_pool).
Proof.
  eapply rtc_l; [exact (step_balancer abc_heap _ RoundRobin.NewRoundRobin)|].
  eapply rtc_l; [apply (step_add abc_heap _ (Some 0%nat)); reflexivity|].
  eapply rtc_l; [apply (step_add abc_heap _ (Some 1%nat)); reflexivity|].
  apply rtc_refl.
Defined.

Lemma demo_pool_wf : pool_wf abc_heap demo_pool.
Proof.
  assert (H : forall c d : heap * Pool RoundRobin.t,
    rtc pool_step c d -> pool_wf (fst c) (snd c) -> pool_wf (fst d) (snd d)).
  { induction 1 as [|c c' d Hs _ IH]; [done|]. intros Hc. by apply IH, (pool_wf_step c). }
  apply (H _ _ demo_pool_reachable), pool_wf_new.
Qed.

Lemma pool_invariant_witness : pool_wf abc_heap demo_pool.
Proof.
  exact (pool_invariant abc_heap "web" "round_robin" (abc_heap, demo_pool) demo_pool_reachable).
Defined.

Lemma next_backend_is_available_witness :
  exists p', NextBackend abc_heap false demo_pool = (inr 0%nat, p') /\
    Backends demo_pool !! ID (abc_heap 0%nat) = Some 0%nat.
Proof.
  eexists. split; [reflexivity|].
  refine (proj1 (next_backend_is_available abc_heap false demo_pool 0%nat _ demo_pool_wf _)).
  reflexivity.
Defined.

Definition drained : heap * Pool RoundRobin.t :=
  match DrainBackend abc_heap demo_pool "a" with inr r => r | inl _ => (abc_heap, demo_pool) end.

Lemma drained_backend_not_selected_witness :
  exists b' p'', NextBackend (fst drained) false (snd drained) = (inr b', p'') /\ b' <> 0%nat.
Proof.
  exists 1%nat. eexists. split; [reflexivity|].
  refine (drained_backend_not_selected abc_heap demo_pool "a" (fst drained) (snd drained) 0%nat
    false 1%nat _ _ _ _); reflexivity.
Defined.

Lemma next_backend_succeeds_iff_up_witness :
  exists b p', NextBackend abc_heap false demo_pool = (inr b, p').
Proof.
  apply (proj2 (next_backend_succeeds_iff_up abc_heap demo_pool RoundRobin.NewRoundRobin
    demo_pool_wf eq_refl)).
  exists "a", 0%nat. split; reflexivity.
Defined.

Definition demo_manager : PoolManager := mkPoolManager (<["web" := 0%nat]> ∅).

Lemma get_backend_across_pools_correct_witness :
  Manager_GetBackend (fun _ => demo_pool) demo_manager "web" "b" = Some 1%nat.
Proof.
  exact (get_backend_across_pools_correct (fun _ => demo_pool) demo_manager
    (map_to_list (pools demo_manager)) "b" (reflexivity _)).
Defined.
