(* ===== verification/WeightedRR.v ===== *)
(** * Smooth weighted round robin: [internal/balancer/weighted_round_robin.go]

    The balancer keeps, per backend ID, a record shared between its map and the
    local slice [weighted] of [Next]; the slice is modelled by the list of IDs, so
    that a write through the slice is a write to the map.  The main theorem is the
    exact proportionality of the algorithm: over a period of [W] calls, [W] the
    sum of the weights, a backend of weight [w] is selected exactly [w] times. *)
From S2P Require Import Prelude Http Backend BackendPool Balancers BalancersFacts.

Module WeightedRoundRobin.

Record weightedBackend := mkWB {
  wb_backend : ptr;
  wb_weight : Z;          (* int32 *)
  wb_currentWeight : Z    (* int32 *)
}.

Record t := mk { backends : gmap string weightedBackend; callCount : Z (* uint64 *) }.

Definition NewWeightedRoundRobin : t := mk ∅ 0.

Definition set_current (c : Z) (wb : weightedBackend) : weightedBackend :=
  mkWB (wb_backend wb) (wb_weight wb) c.

(** The first loop of [Next]: the map, the slice [weighted] and [totalWeight]. *)
Definition register_step (h : heap)
    (acc : gmap string weightedBackend * list string * Z) (b : ptr)
    : gmap string weightedBackend * list string * Z :=
  let '(m, weighted, totalWeight) := acc in
  match m !! ID (h b) with
  | Some wb =>
      (<[ID (h b) := mkWB b (wb_weight wb) (wb_currentWeight wb)]> m,
       weighted ++ [ID (h b)], i32 (totalWeight + wb_weight wb))
  | None =>
      let wb := mkWB b (GetWeight (h b)) 0 in
      (<[ID (h b) := wb]> m, weighted ++ [ID (h b)], i32 (totalWeight + wb_weight wb))
  end.

Definition register (h : heap) (bs : list ptr) (m : gmap string weightedBackend)
    : gmap string weightedBackend * list string * Z :=
  fold_left (register_step h) bs (m, [], 0).

(** The second loop: adds each weight and keeps the highest current weight. *)
Definition select_step (acc : gmap string weightedBackend * option string) (id : string)
    : gmap string weightedBackend * option string :=
  let '(m, best) := acc in
  match m !! id with
  | None => (m, best)
  | Some wb =>
      let wb' := set_current (i32 (wb_currentWeight wb + wb_weight wb)) wb in
      let m' := <[id := wb']> m in
      match best with
      | None => (m', Some id)
      | Some j =>
          match m' !! j with
          | Some bb => (m', if wb_currentWeight bb <? wb_currentWeight wb' then Some id else best)
          | None => (m', Some id)
          end
      end
  end.

Definition select (weighted : list string) (m : gmap string weightedBackend)
    : gmap string weightedBackend * option string :=
  fold_left select_step weighted (m, None).

(** The periodic normalization: halves the current weights of the slice. *)
Definition halve (weighted : list string) (m : gmap string weightedBackend)
    : gmap string weightedBackend :=
  fold_left (fun m id =>
    match m !! id with
    | Some wb => <[id := set_current (Z.quot (wb_currentWeight wb) 2) wb]> m
    | None => m
    end) weighted m.

Definition Next (h : heap) (ctx : option RequestContext) (bs : list ptr) (wrr : t)
    : option ptr * t :=
  match bs with
  | [] => (None, wrr)
  | _ =>
      let '(m, weighted, totalWeight) := register h bs (backends wrr) in
      let '(m, best) := select weighted m in
      match best with
      | None => (None, mk m (callCount wrr))
      | Some j =>
          match m !! j with
          | None => (None, mk m (callCount wrr))
          | Some wb =>
              let m := <[j := set_current (i32 (wb_currentWeight wb - totalWeight)) wb]> m in
              let callCount := u64 (callCount wrr + 1) in
              if 1000000 <=? callCount
              then (Some (wb_backend wb), mk (halve weighted m) 0)
              else (Some (wb_backend wb), mk m callCount)
          end
      end
  end.

Definition Add (h : heap) (b : ptr) (wrr : t) : t :=
  match backends wrr !! ID (h b) with
  | Some _ => wrr
  | None => mk (<[ID (h b) := mkWB b (GetWeight (h b)) 0]> (backends wrr)) (callCount wrr)
  end.

Definition Remove (h : heap) (id : string) (wrr : t) : t :=
  mk (delete id (backends wrr)) (callCount wrr).

Definition Update (h : heap) (b : ptr) (wrr : t) : t :=
  match backends wrr !! ID (h b) with
  | Some wb =>
      mk (<[ID (h b) := mkWB b (GetWeight (h b)) (wb_currentWeight wb)]> (backends wrr))
         (callCount wrr)
  | None => wrr
  end.

Definition Reset (wrr : t) : t := mk (set_current 0 <$> backends wrr) (callCount wrr).

#[global] Instance balancer : Balancer t :=
  { bal_Next := Next; bal_Add := Add; bal_Remove := Remove; bal_Update := Update }.
End WeightedRoundRobin.

Import WeightedRoundRobin.

(** ** The two loops *)

Section Loops.
Context (h : heap).
Implicit Types (m : gmap string weightedBackend) (bs : list ptr) (w c : ptr -> Z).

Abbreviation distinct_ids bs := (NoDup ((fun b => ID (h b)) <$> bs)).

(** The entries of the offered backends carry weights [w] and current weights [c]. *)
Definition entries m bs w c : Prop :=
  forall b, b ∈ bs -> m !! ID (h b) = Some (mkWB b (w b) (c b)).

(** An entry is missing, or already there with its weight and current weight [c]. *)
Definition entries_or_new m bs w c : Prop :=
  forall b, b ∈ bs ->
    (m !! ID (h b) = None /\ w b = GetWeight (h b) /\ c b = 0) \/
    exists q, m !! ID (h b) = Some (mkWB q (w b) (c b)).

Lemma distinct_ids_inj bs x b :
  distinct_ids (bs ++ [x]) -> b ∈ bs -> ID (h b) <> ID (h x).
Proof.
  rewrite fmap_app, NoDup_app. simpl. intros (_ & Hd & _) Hb Heq.
  apply (Hd (ID (h b))); [by apply (list_elem_of_fmap_2 (fun b => ID (h b)))|]. rewrite Heq. set_solver.
Qed.

Lemma register_spec bs m w c :
  distinct_ids bs -> entries_or_new m bs w c ->
  (forall l1 l2, bs = l1 ++ l2 -> in_i32 (sumZ w l1)) ->
  exists m', register h bs m = (m', (fun b => ID (h b)) <$> bs, sumZ w bs) /\
    entries m' bs w c /\
    (forall id, id ∉ (fun b => ID (h b)) <$> bs -> m' !! id = m !! id).
Proof.
  intros Hd. revert m. induction bs as [|x bs IH] using rev_ind; intros m He Hs.
  { exists m. split_and!; [done| |done]. intros b Hb. set_solver. }
  destruct (IH) with (m := m) as (m' & Hr & Hent & Hother).
  { rewrite fmap_app, NoDup_app in Hd. apply Hd. }
  { intros b Hb. apply He. set_solver. }
  { intros l1 l2 ->. apply (Hs l1 (l2 ++ [x])). by rewrite app_assoc. }
  unfold register in *. rewrite fold_left_app, Hr. simpl.
  assert (Hx : ID (h x) ∉ (fun b => ID (h b)) <$> bs).
  { intros (b & Heq & Hb)%list_elem_of_fmap. by apply (distinct_ids_inj bs x b). }
  assert (Htot : i32 (sumZ w bs + w x) = sumZ w (bs ++ [x])).
  { rewrite sumZ_app. simpl. rewrite Z.add_0_r. apply i32_small.
    specialize (Hs (bs ++ [x]) []). rewrite sumZ_app in Hs. simpl in Hs.
    rewrite Z.add_0_r in Hs. apply Hs. by rewrite app_nil_r. }
  assert (Hgoal : forall wb, wb = mkWB x (w x) (c x) ->
    exists m'0, (<[ID (h x):=wb]> m', ((fun b => ID (h b)) <$> bs) ++ [ID (h x)],
                 i32 (sumZ w bs + wb_weight wb))
      = (m'0, (fun b => ID (h b)) <$> bs ++ [x], sumZ w (bs ++ [x])) /\
      entries m'0 (bs ++ [x]) w c /\
      (forall id, id ∉ (fun b => ID (h b)) <$> (bs ++ [x]) -> m'0 !! id = m !! id)).
  { intros wb ->. eexists. split; [rewrite fmap_app; simpl; by rewrite Htot|]. split.
    - intros b [Hb| ->%list_elem_of_singleton]%elem_of_app; [|apply lookup_insert_eq].
      rewrite lookup_insert_ne by (apply not_eq_sym; by eapply distinct_ids_inj).
      by apply Hent.
    - intros id. rewrite fmap_app, not_elem_of_app. simpl. intros [H1 H2].
      rewrite lookup_insert_ne by set_solver. by apply Hother. }
  rewrite Hother by done.
  destruct (He x) as [(-> & Hw & Hc)|[q ->]]; [set_solver| |].
  - apply (Hgoal (mkWB x (GetWeight (h x)) 0)). by rewrite Hw, Hc.
  - by apply (Hgoal (mkWB x (w x) (c x))).
Qed.

Lemma select_spec bs m w c :
  distinct_ids bs -> entries m bs w c -> bs <> [] ->
  (forall b, b ∈ bs -> in_i32 (c b + w b)) ->
  exists m' j, select ((fun b => ID (h b)) <$> bs) m = (m', Some (ID (h j))) /\ j ∈ bs /\
    entries m' bs w (fun b => c b + w b) /\
    (forall b, b ∈ bs -> c b + w b <= c j + w j) /\
    (forall id, id ∉ (fun b => ID (h b)) <$> bs -> m' !! id = m !! id).
Proof.
  intros Hd He Hne0 Hi.
  assert (Hmain : exists m', (forall id, id ∉ (fun b => ID (h b)) <$> bs -> m' !! id = m !! id) /\
    entries m' bs w (fun b => c b + w b) /\
    ((bs = [] /\ select ((fun b => ID (h b)) <$> bs) m = (m', None)) \/
     exists j, select ((fun b => ID (h b)) <$> bs) m = (m', Some (ID (h j))) /\ j ∈ bs /\
       forall b, b ∈ bs -> c b + w b <= c j + w j)).
  { clear Hne0. induction bs as [|x bs IH] using rev_ind.
    { exists m. split_and!; [done|intros b Hb; set_solver|by left]. }
    destruct IH as (m' & Hother & Hent & Hsel).
    { rewrite fmap_app, NoDup_app in Hd. apply Hd. }
    { intros b Hb. apply He. set_solver. }
    { intros b Hb. apply Hi. set_solver. }
    assert (Hx : ID (h x) ∉ (fun b => ID (h b)) <$> bs).
    { intros (b & Heq & Hb)%list_elem_of_fmap. by apply (distinct_ids_inj bs x b). }
    assert (Hmx : m' !! ID (h x) = Some (mkWB x (w x) (c x))).
    { rewrite Hother by done. apply He. set_solver. }
    assert (Hne : forall b, b ∈ bs -> ID (h x) <> ID (h b)).
    { intros b Hb. apply not_eq_sym. by eapply distinct_ids_inj. }
    exists (<[ID (h x) := mkWB x (w x) (c x + w x)]> m'). split; [|split].
    - intros id. rewrite fmap_app, not_elem_of_app. simpl. intros [H1 H2].
      rewrite lookup_insert_ne by set_solver. by apply Hother.
    - intros b [Hb| ->%list_elem_of_singleton]%elem_of_app; [|apply lookup_insert_eq].
      rewrite lookup_insert_ne by auto. by apply Hent.
    - right. unfold select in *. rewrite fmap_app, fold_left_app. simpl.
      assert (Hix : i32 (c x + w x) = c x + w x) by (apply i32_small, Hi; set_solver).
      destruct Hsel as [[-> ->]|(j & -> & Hj & Hmax)]; simpl; rewrite Hmx; unfold set_current; simpl;
        rewrite Hix.
      + exists x. split_and!; [done|set_solver|]. intros b Hb. assert (b = x) as -> by set_solver. lia.
      + rewrite lookup_insert_ne by auto. rewrite (Hent j Hj). simpl.
        destruct (c j + w j <? c x + w x) eqn:E; b2p.
        * exists x. split_and!; [done|set_solver|].
          intros b [Hb| ->%list_elem_of_singleton]%elem_of_app; [|lia]. specialize (Hmax b Hb). lia.
        * exists j. split_and!; [done|set_solver|].
          intros b [Hb| ->%list_elem_of_singleton]%elem_of_app; [by apply Hmax|lia]. }
  destruct Hmain as (m' & Ho & Hent & [[-> _]|(j & H1 & H2 & H3)]); [done|].
  exists m', j. split_and!; done.
Qed.
End Loops.

(** ** One call, and a whole period *)

(** A member of a list is bounded by the sum once all are above [lo]. *)
Lemma sumZ_upper (f : ptr -> Z) l b lo :
  b ∈ l -> (forall q, q ∈ l -> lo <= f q) ->
  f b <= sumZ f l - lo * (Z.of_nat (length l) - 1).
Proof.
  intros Hb Hlo. induction l as [|x l IH]; [set_solver|].
  assert (Hrest : forall k, (forall q, q ∈ k -> lo <= f q) -> lo * Z.of_nat (length k) <= sumZ f k).
  { clear. induction k as [|y k IHk]; simpl; intros Hk; [lia|].
    assert (lo <= f y) by (apply Hk; set_solver).
    assert (lo * Z.of_nat (length k) <= sumZ f k) by (apply IHk; intros; apply Hk; set_solver). lia. }
  apply elem_of_cons in Hb as [->|Hb]; simpl.
  - assert (lo * Z.of_nat (length l) <= sumZ f l) by (apply Hrest; intros; apply Hlo; set_solver). lia.
  - assert (lo <= f x) by (apply Hlo; set_solver).
    assert (f b <= sumZ f l - lo * (Z.of_nat (length l) - 1)) by (apply IH; [done|intros; apply Hlo; set_solver]).
    lia.
Qed.

(** If nothing exceeds a bound, the sum does not exceed it times the length. *)
Lemma sumZ_le_max (f : ptr -> Z) l hi :
  (forall q, q ∈ l -> f q <= hi) -> sumZ f l <= hi * Z.of_nat (length l).
Proof.
  induction l as [|x l IH]; simpl; intros Hq; [lia|].
  assert (f x <= hi) by (apply Hq; set_solver).
  assert (sumZ f l <= hi * Z.of_nat (length l)) by (apply IH; intros; apply Hq; set_solver). lia.
Qed.

Lemma sumZ_plus (f g : ptr -> Z) l : sumZ (fun b => f b + g b) l = sumZ f l + sumZ g l.
Proof. induction l; simpl; lia. Qed.

Lemma sumZ_indicator (j : ptr) (z : Z) (l : list ptr) :
  NoDup l -> j ∈ l -> sumZ (fun b => if bool_decide (b = j) then z else 0) l = z.
Proof.
  intros Hnd Hj. induction l as [|x l IH]; [set_solver|]. apply NoDup_cons in Hnd as [Hx Hnd].
  simpl. case_bool_decide as E.
  - subst. assert (sumZ (fun b => if bool_decide (b = j) then z else 0) l = 0); [|lia].
    clear IH Hj Hnd. induction l as [|y l IH]; [done|]. simpl.
    rewrite bool_decide_false by set_solver. rewrite IH; [lia|set_solver].
  - rewrite IH; [lia|done|set_solver].
Qed.

Section Period.
Context (h : heap) (bs : list ptr).

(** Weight of a backend, the sum of the weights and the number of backends. *)
Abbreviation wt b := (GetWeight (h b)).
Abbreviation W := (sumZ (fun b => wt b) bs).

Hypothesis Hdistinct : NoDup ((fun b => ID (h b)) <$> bs).
Hypothesis Hnonneg : forall b, b ∈ bs -> 0 <= wt b.
Hypothesis Hpos : 0 < W.
Hypothesis Hsmall : Z.of_nat (length bs) * W <= 2 ^ 31 - 1.

Lemma sumZ_prefix_le l1 l2 : bs = l1 ++ l2 -> 0 <= sumZ (fun b => wt b) l1 <= W.
Proof.
  intros E.
  assert (0 <= sumZ (fun b => wt b) l1).
  { apply sumZ_nonneg. intros b Hb. apply Hnonneg. rewrite E. set_solver. }
  assert (0 <= sumZ (fun b => wt b) l2).
  { apply sumZ_nonneg. intros b Hb. apply Hnonneg. rewrite E. set_solver. }
  rewrite E, sumZ_app. lia.
Qed.

Lemma W_small : W < 2 ^ 31.
Proof. destruct bs as [|x l]; [simpl in *; lia|]. simpl length in Hsmall. nia. Qed.

(** The state between two calls: current weights [c] above [-W] that sum to 0. *)
Definition balanced (c : ptr -> Z) : Prop :=
  sumZ c bs = 0 /\ forall b, b ∈ bs -> - W < c b.

(** Effect of selecting [j] on the current weights. *)
Definition after (j : ptr) (c : ptr -> Z) : ptr -> Z :=
  fun b => c b + wt b - (if bool_decide (b = j) then W else 0).

Lemma bs_nodup : NoDup bs.
Proof. by eapply NoDup_fmap_1. Qed.

Lemma max_positive c j :
  balanced c -> (forall b, b ∈ bs -> c b + wt b <= c j + wt j) -> 0 < c j + wt j.
Proof.
  intros [Hsum Hlo] Hmax.
  assert (Hs : sumZ (fun b => c b + wt b) bs <= (c j + wt j) * Z.of_nat (length bs))
    by by apply sumZ_le_max.
  rewrite sumZ_plus, Hsum in Hs. nia.
Qed.

Lemma balanced_after c j :
  balanced c -> j ∈ bs -> (forall b, b ∈ bs -> c b + wt b <= c j + wt j) -> balanced (after j c).
Proof.
  intros Hbal Hj Hmax. pose proof (max_positive c j Hbal Hmax). destruct Hbal as [Hsum Hlo]. split.
  - unfold after. rewrite (sumZ_ext _ (fun b => (c b + wt b) + (if bool_decide (b = j) then - W else 0))).
    2:{ intros b _. by case_bool_decide; lia. }
    rewrite sumZ_plus, sumZ_plus, sumZ_indicator by (done || apply bs_nodup). lia.
  - intros b Hb. unfold after. specialize (Hlo b Hb) as Hb'. pose proof (Hnonneg b Hb).
    case_bool_decide as E; [subst b|]; lia.
Qed.

Lemma balanced_in_i32 c b : balanced c -> b ∈ bs -> in_i32 (c b + wt b) /\ c b + wt b < 2 ^ 31.
Proof.
  intros [Hsum Hlo] Hb.
  assert (Hup : c b + wt b <= sumZ (fun q => c q + wt q) bs - (- W) * (Z.of_nat (length bs) - 1)).
  { apply (sumZ_upper (fun q => c q + wt q)); [done|]. intros q Hq.
    specialize (Hlo q Hq). pose proof (Hnonneg q Hq). lia. }
  rewrite sumZ_plus, Hsum in Hup. specialize (Hlo b Hb). pose proof (Hnonneg b Hb).
  pose proof W_small. unfold in_i32. nia.
Qed.

Lemma bs_nonempty : bs <> [].
Proof. intros E. rewrite E in Hpos. simpl in Hpos. lia. Qed.

(** [Next] on a non-empty offer, from the results of its two loops. *)
Lemma Next_eq ctx wrr m1 m2 weighted tot id wb :
  register h bs (backends wrr) = (m1, weighted, tot) -> select weighted m1 = (m2, Some id) ->
  m2 !! id = Some wb ->
  0 <= callCount wrr -> callCount wrr + 1 < 1000000 -> in_i32 (wb_currentWeight wb - tot) ->
  Next h ctx bs wrr =
    (Some (wb_backend wb),
     mk (<[id := set_current (wb_currentWeight wb - tot) wb]> m2) (callCount wrr + 1)).
Proof.
  intros Hr Hs Hw H0 H1 Hi. pose proof bs_nonempty as Hne. unfold Next.
  replace (match bs with [] => _ | _ :: _ => _ end) with
    (let '(m, weighted, totalWeight) := register h bs (backends wrr) in
      let '(m, best) := select weighted m in
      match best with
      | None => (None, mk m (callCount wrr))
      | Some j =>
          match m !! j with
          | None => (None, mk m (callCount wrr))
          | Some wb =>
              let m := <[j := set_current (i32 (wb_currentWeight wb - totalWeight)) wb]> m in
              let callCount := u64 (callCount wrr + 1) in
              if 1000000 <=? callCount
              then (Some (wb_backend wb), mk (halve weighted m) 0)
              else (Some (wb_backend wb), mk m callCount)
          end
      end) by (by destruct bs).
  rewrite Hr, Hs, Hw. cbv zeta. rewrite i32_small by done.
  rewrite u64_small by (unfold in_u64; lia). by rewrite (proj2 (Z.leb_gt _ _)) by lia.
Qed.

(** One call of [Next] between normalizations. *)
Lemma Next_step ctx wrr c :
  entries_or_new h (backends wrr) bs (fun b => wt b) c -> balanced c ->
  0 <= callCount wrr -> callCount wrr + 1 < 1000000 ->
  exists j m', Next h ctx bs wrr = (Some j, mk m' (callCount wrr + 1)) /\ j ∈ bs /\
    balanced (after j c) /\ entries h m' bs (fun b => wt b) (after j c).
Proof.
  intros He Hbal H0 Hcall.
  destruct (register_spec h bs (backends wrr) (fun b => wt b) c) as (m1 & Hr & He1 & _); [done|done| |].
  { intros l1 l2 E. pose proof (sumZ_prefix_le l1 l2 E). pose proof W_small. unfold in_i32. lia. }
  destruct (select_spec h bs m1 (fun b => wt b) c) as (m2 & j & Hs & Hj & He2 & Hmax & _);
    [done|done|apply bs_nonempty|intros; by apply balanced_in_i32|].
  assert (Hi : in_i32 (c j + wt j - W)).
  { pose proof (max_positive c j Hbal Hmax). pose proof W_small.
    destruct (balanced_in_i32 c j Hbal Hj). unfold in_i32 in *. lia. }
  pose proof (Next_eq ctx wrr _ _ _ _ _ _ Hr Hs (He2 j Hj) H0 Hcall Hi) as HN.
  do 2 eexists. split; [exact HN|]. split_and!; [done|by apply balanced_after|].
  intros b Hb. unfold after. case_bool_decide as E.
  - subst. rewrite lookup_insert_eq. done.
  - rewrite lookup_insert_ne.
    + rewrite (He2 b Hb). do 2 f_equal. lia.
    + intros E'. apply E. by apply (nodup_fmap_eq (fun b => ID (h b)) bs).
Qed.

Lemma entries_new m w c : entries h m bs w c -> entries_or_new h m bs w c.
Proof. intros He b Hb. right. exists b. by apply He. Qed.

Abbreviation picked b r := (Z.of_nat (countb (fun o => bool_decide (o = Some b)) r)).

Lemma entries_or_new_ext m w c c' :
  (forall b, b ∈ bs -> c b = c' b) -> entries_or_new h m bs w c -> entries_or_new h m bs w c'.
Proof. intros E He b Hb. rewrite <- (E b Hb). by apply He. Qed.

(** [n] calls: the current weight of a backend is its starting value plus [n]
    times its weight less [W] per selection. *)
Lemma Next_run ctx n wrr c :
  entries_or_new h (backends wrr) bs (fun b => wt b) c -> balanced c ->
  0 <= callCount wrr -> callCount wrr + Z.of_nat n < 1000000 ->
  let '(r, wrr') := next_n n h ctx bs wrr in
  exists c', balanced c' /\ entries_or_new h (backends wrr') bs (fun b => wt b) c' /\
    callCount wrr' = callCount wrr + Z.of_nat n /\
    Forall (fun o => exists j, o = Some j /\ j ∈ bs) r /\
    forall b, b ∈ bs -> c' b = c b + Z.of_nat n * wt b - W * picked b r.
Proof.
  revert wrr c. induction n as [|n IH]; intros wrr c He Hbal H0 Hn.
  { simpl. exists c. split_and!; [done|done|lia|done|]. intros b Hb. unfold countb. simpl. lia. }
  destruct (Next_step ctx wrr c He Hbal H0 ltac:(lia)) as (j & m' & HN & Hj & Hbal' & He').
  cbn [next_n bal_Next WeightedRoundRobin.balancer]. rewrite HN.
  specialize (IH (mk m' (callCount wrr + 1)) (after j c)). simpl in IH.
  destruct (next_n n h ctx bs (mk m' (callCount wrr + 1))) as [r wrr'].
  destruct IH as (c' & Hbc & Hec & Hcc & Hr & Hpick); [by apply entries_new|done|lia|lia|].
  exists c'. split_and!; [done|done|lia| |].
  - constructor; [by exists j|done].
  - intros b Hb. rewrite (Hpick b Hb), countb_cons. unfold after.
    destruct (decide (b = j)) as [->|Hbj].
    + rewrite !bool_decide_true by done. lia.
    + rewrite !bool_decide_false by congruence. lia.
Qed.
End Period.

(** Values that are multiples of [W] above [-W] and sum to 0 are all 0. *)
Lemma multiples_zero (f : ptr -> Z) (W : Z) l :
  0 < W -> (forall b, b ∈ l -> - W < W * f b) -> sumZ (fun b => W * f b) l = 0 ->
  forall b, b ∈ l -> f b = 0.
Proof.
  intros HW Hlo Hsum b Hb.
  assert (Hnn : forall q, q ∈ l -> 0 <= W * f q).
  { intros q Hq. specialize (Hlo q Hq). assert (-1 < f q) by nia. nia. }
  pose proof (sumZ_upper (fun q => W * f q) l b 0 Hb Hnn). specialize (Hnn b Hb). nia.
Qed.


Definition weighted_heap : heap := fun q =>
  set_weight (Z.of_nat q) (set_state StateUp (NewBackend (pretty (Z.of_nat q)) "10.0.0.1:80")).


(** ** The interface *)

Lemma register_backends h bs m :
  let '(m', weighted, _) := register h bs m in
  forall id, id ∈ weighted -> exists wb, m' !! id = Some wb /\ wb_backend wb ∈ bs.
Proof.
  unfold register. induction bs as [|x bs IH] using rev_ind; [set_solver|].
  rewrite fold_left_app. simpl. destruct (fold_left _ bs _) as [[m' weighted] tot]. simpl.
  destruct (m' !! ID (h x)) as [wb|] eqn:E; simpl; intros id [Hid| ->%list_elem_of_singleton]%elem_of_app;
    try (eexists; split; [apply lookup_insert_eq|set_solver]);
    (destruct (decide (id = ID (h x))) as [->|Hne];
     [eexists; split; [apply lookup_insert_eq|set_solver]|]);
    rewrite lookup_insert_ne by congruence; destruct (IH id Hid) as (wb' & ? & ?); exists wb'; set_solver.
Qed.

Lemma select_backends weighted m :
  let '(m', best) := select weighted m in
  (forall id, wb_backend <$> m' !! id = wb_backend <$> m !! id) /\
  (forall j, best = Some j -> j ∈ weighted).
Proof.
  unfold select. induction weighted as [|x l IH] using rev_ind; [by split|].
  rewrite fold_left_app. simpl. destruct (fold_left _ l _) as [m' best]. destruct IH as [H1 H2]. simpl.
  destruct (m' !! x) as [wb|] eqn:E.
  - assert (Hb : forall id, wb_backend <$>
      <[x:=set_current (i32 (wb_currentWeight wb + wb_weight wb)) wb]> m' !! id
      = wb_backend <$> m !! id).
    { intros id. rewrite <- H1. destruct (decide (id = x)) as [->|Hne].
      - by rewrite lookup_insert_eq, E.
      - by rewrite lookup_insert_ne. }
    assert (Hl : forall j, best = Some j -> j ∈ l ++ [x]) by (intros; apply elem_of_app; auto).
    destruct best as [j|]; [destruct (_ !! j)|]; (split; [exact Hb|]); intros k Hk;
      repeat case_match; simplify_eq; first [by apply Hl | set_solver].
  - split; [done|]. intros j Hj. specialize (H2 j Hj). set_solver.
Qed.

#[export] Instance WeightedRoundRobin_laws : BalancerLaws WeightedRoundRobin.t.
Proof.
  constructor. intros h ctx bs s p s'. simpl. unfold Next.
  destruct bs as [|x l]; [done|].
  pose proof (register_backends h (x :: l) (backends s)) as Hreg.
  destruct (register h (x :: l) (backends s)) as [[m weighted] tot].
  pose proof (select_backends weighted m) as Hsel. destruct (select weighted m) as [m' best].
  destruct Hsel as [Hs Hb]. destruct best as [j|]; [|done].
  destruct (m' !! j) as [wb|] eqn:Ej; [|done].
  destruct (Hreg j (Hb j eq_refl)) as (wb' & Hw' & Hin). specialize (Hs j). rewrite Ej, Hw' in Hs.
  simpl in Hs. injection Hs as Hs. rewrite <- Hs in Hin. case_match; by intros [= <- _].
Qed.
