(* ===== verification/HashRing.v ===== *)
(** * Hash rings: [internal/balancer/consistent_hash.go] and [ring_hash.go]

    Both balancers keep a slice of virtual nodes sorted by hash and look up the
    first node at or after the hash of a key, wrapping around.  [sort.Slice] is
    any function that satisfies its contract (class [SliceSort]), since it is
    not stable, and the iteration over the map of backends any enumeration of it
    (class [MapRange]), since Go does not fix its order. *)
From S2P Require Import Prelude Http GoHash Backend BackendPool.
From Stdlib Require Import Ascii.

(** ** Decimal printing: [intToString] and [intToStr] (the same function twice) *)

(** The loop that writes the digits of [n > 0] from the end of the buffer, whose
    20 bytes bound the number of iterations. *)
Fixpoint int_digits (fuel : nat) (n : Z) (buf : string) : string :=
  match fuel with
  | O => buf
  | S fuel =>
      if 0 <? n
      then int_digits fuel (Z.quot n 10)
             (String (ascii_of_nat (Z.to_nat (48 + Z.rem n 10))) buf)
      else buf
  end.

Definition intToString (n : Z) : string :=
  if n =? 0 then "0"
  else
    let negative := n <? 0 in
    let n := if negative then i64 (- n) else n in
    let buf := int_digits 20 n "" in
    if negative then String "-" buf else buf.

Definition intToStr (n : Z) : string :=
  if n =? 0 then "0"
  else
    let isNegative := n <? 0 in
    let n := if isNegative then i64 (- n) else n in
    let buf := int_digits 20 n "" in
    if isNegative then String "-" buf else buf.

(** ** [sort.Search] over a slice of nodes, with the wrap-around to index 0 *)
Definition ring_search {A} (hash : A -> Z) (nodes : list A) (target : Z) : nat :=
  let idx := Search (length nodes)
    (fun i => match nodes !! i with Some n => target <=? hash n | None => false end) in
  if (length nodes <=? idx)%nat then 0%nat else idx.

(** The loop [for i := range len(nodes)] over [nodes\[(start+i) % len(nodes)\]]:
    the first node for which [f] answers. *)
Fixpoint ring_walk {A B} (nodes : list A) (f : A -> option B) (start : nat) (idxs : list nat)
    : option B :=
  match idxs with
  | [] => None
  | i :: rest =>
      match nodes !! ((start + i) mod length nodes)%nat with
      | Some n => match f n with Some b => Some b | None => ring_walk nodes f start rest end
      | None => ring_walk nodes f start rest
      end
  end.

(** ** consistent_hash.go *)
Module ConsistentHash.

Definition DefaultVirtualNodes : Z := 150.

Record ringNode := mkNode { hash : Z (* uint32 *); backend : string }.

Record t := mk { nodes : list ringNode; backends : gmap string ptr; vnodes : Z }.

Section Operations.
Context `{!SliceSort ringNode hash} `{!MapRange}.

Definition NewConsistentHash (vn : Z) : t :=
  mk [] ∅ (if vn <=? 0 then DefaultVirtualNodes else vn).

Definition hashKey (key : string) : Z := ChecksumIEEE key.

Definition search (ch : t) (target : Z) : nat :=
  match nodes ch with
  | [] => 0%nat
  | _ => ring_search hash (nodes ch) target
  end.

Definition getNode (ch : t) (target : Z) : string :=
  match nodes ch with
  | [] => ""
  | _ =>
      match nodes ch !! search ch target with
      | Some n => backend n
      | None => ""      (* unreachable: [search] returns an index of the slice *)
      end
  end.

(** The map [available] of [findNextAvailable]: a later backend replaces an
    earlier one with the same ID. *)
Definition available (h : heap) (bs : list ptr) : gmap string ptr :=
  fold_left (fun m b => if IsAvailable (h b) then <[ID (h b) := b]> m else m) bs ∅.

(** The forward walk over the ring, [i] from 0 to [len(nodes)-1]. *)
Definition findNextAvailable (h : heap) (target : Z) (bs : list ptr) (ch : t) : option ptr :=
  let av := available h bs in
  if bool_decide (av = ∅) then None
  else
    ring_walk (nodes ch) (fun n => av !! backend n) (search ch target) (seq 0 (length (nodes ch))).

Definition NextWithKey (h : heap) (bs : list ptr) (key : string) (ch : t) : option ptr :=
  if (bool_decide (nodes ch = []) || bool_decide (bs = []))%bool then None
  else
    let target := hashKey key in
    let backendID := getNode ch target in
    if bool_decide (backendID = "") then None
    else
      match List.find (fun b => bool_decide (ID (h b) = backendID) && IsAvailable (h b))%bool bs with
      | Some b => Some b
      | None => findNextAvailable h target bs ch
      end.

Definition Next (h : heap) (ctx : option RequestContext) (bs : list ptr) (ch : t)
    : option ptr * t :=
  match bs with
  | [] => (None, ch)
  | b0 :: _ =>
      let key := match ctx with Some c => ClientIP c | None => "" end in
      let key := if bool_decide (key = "") then Address (h b0) else key in
      (NextWithKey h bs key ch, ch)
  end.

Definition removeLocked (id : string) (ch : t) : t :=
  mk (List.filter (fun node => negb (bool_decide (backend node = id))) (nodes ch))
     (delete id (backends ch)) (vnodes ch).

(** The virtual nodes of a backend, in the order they are appended. *)
Definition vnodes_of (vn : Z) (id : string) : list ringNode :=
  (fun i => mkNode (hashKey (id +:+ ":" +:+ intToString (Z.of_nat i))) id) <$> seq 0 (Z.to_nat vn).

Definition sortRing (l : list ringNode) : list ringNode := slice_sort l.

Definition Add (h : heap) (b : ptr) (ch : t) : t :=
  let ch := removeLocked (ID (h b)) ch in
  mk (sortRing (nodes ch ++ vnodes_of (vnodes ch) (ID (h b))))
     (<[ID (h b) := b]> (backends ch)) (vnodes ch).

Definition Remove (h : heap) (id : string) (ch : t) : t := removeLocked id ch.

Definition Update (h : heap) (b : ptr) (ch : t) : t :=
  match backends ch !! ID (h b) with
  | Some _ => mk (nodes ch) (<[ID (h b) := b]> (backends ch)) (vnodes ch)
  | None => ch
  end.

Definition SetVirtualNodes (h : heap) (vn : Z) (ch : t) : t :=
  let vn := if vn <=? 0 then DefaultVirtualNodes else vn in
  mk (sortRing (map_range (backends ch) ≫= (fun kv => vnodes_of vn (ID (h (snd kv))))))
     (backends ch) vn.

Definition RingSize (ch : t) : nat := length (nodes ch).

#[global] Instance balancer : Balancer t :=
  { bal_Next := Next; bal_Add := Add; bal_Remove := Remove; bal_Update := Update }.
End Operations.
End ConsistentHash.

(** ** ring_hash.go *)
Module RingHash.

Definition DefaultRingVirtualNodes : Z := 150.

Record ringHashNode := mkNode { hash : Z (* uint32 *); backendID : string }.

Record t := mk {
  ring : list ringHashNode;
  backends : gmap string ptr;
  vnodes : Z;
  hashFunc : string -> Z;
  counter : Z (* uint64 *)
}.

Section Operations.
Context `{!SliceSort ringHashNode hash} `{!MapRange}.

Definition defaultRingHashFunc (data : string) : Z := fnv32a data.

Definition NewRingHashWithConfig (vn : Z) (f : option (string -> Z)) : t :=
  mk [] ∅ (if vn <=? 0 then DefaultRingVirtualNodes else vn)
     (match f with Some f => f | None => defaultRingHashFunc end) 0.

Definition NewRingHash : t := NewRingHashWithConfig DefaultRingVirtualNodes None.

Definition generateKey (rh : t) : string * t :=
  let c := u64 (counter rh + 1) in
  ("request-" +:+ pretty c, mk (ring rh) (backends rh) (vnodes rh) (hashFunc rh) c).

(** [available[id]] of [findNextAvailable]. *)
Definition available (h : heap) (bs : list ptr) (id : string) : bool :=
  existsb (fun b => IsAvailable (h b) && bool_decide (ID (h b) = id))%bool bs.

Definition findNextAvailable (h : heap) (startIdx : nat) (bs : list ptr) (rh : t) : option ptr :=
  if bool_decide (ring rh = []) then None
  else if negb (existsb (fun b => IsAvailable (h b)) bs) then None
  else
    ring_walk (ring rh) (fun n =>
      if available h bs (backendID n)
      then List.find (fun b => bool_decide (ID (h b) = backendID n)) bs
      else None) startIdx (seq 0 (length (ring rh))).

Definition Next (h : heap) (ctx : option RequestContext) (bs : list ptr) (rh : t)
    : option ptr * t :=
  if (bool_decide (ring rh = []) || bool_decide (bs = []))%bool then (None, rh)
  else
    let key := match ctx with Some c => ClientIP c | None => "" end in
    let '(key, rh') := if bool_decide (key = "") then generateKey rh else (key, rh) in
    let target := hashFunc rh' key in
    let idx := ring_search hash (ring rh') target in
    match ring rh' !! idx with
    | None => (None, rh')     (* unreachable: [idx] is an index of the ring *)
    | Some n =>
        match List.find (fun b => bool_decide (ID (h b) = backendID n) && IsAvailable (h b))%bool bs with
        | Some b => (Some b, rh')
        | None => (findNextAvailable h idx bs rh', rh')
        end
    end.

(** The virtual nodes of a backend: [vnodes] per unit of weight, at most 10000. *)
Definition vnodes_of (f : string -> Z) (vn weight : Z) (id : string) : list ringHashNode :=
  let weight := if weight <=? 0 then 1 else weight in
  let numVNodes := Z.min (i64 (vn * weight)) 10000 in
  (fun i => mkNode (f (id +:+ "#" +:+ intToStr (Z.of_nat i))) id) <$> seq 0 (Z.to_nat numVNodes).

Definition rebuildRing (h : heap) (rh : t) : t :=
  mk (slice_sort (map_range (backends rh) ≫= (fun kv =>
        vnodes_of (hashFunc rh) (vnodes rh) (GetWeight (h (snd kv))) (ID (h (snd kv))))))
     (backends rh) (vnodes rh) (hashFunc rh) (counter rh).

Definition set_backends (m : gmap string ptr) (rh : t) : t :=
  mk (ring rh) m (vnodes rh) (hashFunc rh) (counter rh).

Definition Add (h : heap) (b : ptr) (rh : t) : t :=
  match backends rh !! ID (h b) with
  | Some _ => rh
  | None => rebuildRing h (set_backends (<[ID (h b) := b]> (backends rh)) rh)
  end.

Definition Remove (h : heap) (id : string) (rh : t) : t :=
  match backends rh !! id with
  | None => rh
  | Some _ => rebuildRing h (set_backends (delete id (backends rh)) rh)
  end.

(** Both weights are read through pointers, in the same heap. *)
Definition Update (h : heap) (b : ptr) (rh : t) : t :=
  match backends rh !! ID (h b) with
  | None => rh
  | Some oldBackend =>
      if negb (GetWeight (h oldBackend) =? GetWeight (h b))
      then rebuildRing h (set_backends (<[ID (h b) := b]> (backends rh)) rh)
      else set_backends (<[ID (h b) := b]> (backends rh)) rh
  end.

#[global] Instance balancer : Balancer t :=
  { bal_Next := Next; bal_Add := Add; bal_Remove := Remove; bal_Update := Update }.
End Operations.
End RingHash.
