(* ===== verification/HashRingFacts.v ===== *)
(** * Correctness of the hash rings

    The binary search and the wrap-around walk of both balancers compute the
    first acceptable node of the ring in clockwise order from the hash of the
    key ([clockwise]).  Minimal disruption follows from that characterization. *)
From S2P Require Import Prelude Http GoHash Backend BackendPool HashRing BalancersFacts.

(** ** Rings as sorted lists *)

Section Ring.
Context {A : Type} (hash : A -> Z).
Implicit Types (l : list A) (t : Z).

Abbreviation sorted l := (StronglySorted (fun a b => hash a <= hash b) l).

(** The nodes in clockwise order from [t]: those at or after [t], then the rest. *)
Definition clockwise (t : Z) (l : list A) : list A :=
  List.filter (fun n => t <=? hash n) l ++ List.filter (fun n => hash n <? t) l.

Lemma filter_all {B} (f : B -> bool) (k : list B) :
  (forall x, x ∈ k -> f x = true) -> List.filter f k = k.
Proof.
  induction k as [|x k IH]; simpl; intros H; [done|].
  rewrite (H x) by set_solver. f_equal. apply IH. intros; apply H; set_solver.
Qed.

Lemma filter_none {B} (f : B -> bool) (k : list B) :
  (forall x, x ∈ k -> f x = false) -> List.filter f k = [].
Proof.
  induction k as [|x k IH]; simpl; intros H; [done|].
  rewrite (H x) by set_solver. apply IH. intros; apply H; set_solver.
Qed.

Lemma sorted_lookup l i j a b :
  sorted l -> (i <= j)%nat -> l !! i = Some a -> l !! j = Some b -> hash a <= hash b.
Proof.
  intros Hs. revert i j. induction Hs as [|x l Hs IH Hx]; intros i j Hij Ha Hb; [done|].
  destruct i as [|i], j as [|j]; simpl in *; simplify_eq; [lia| |lia|by apply (IH i j); [lia|..]].
  rewrite Forall_forall in Hx. apply Hx. by eapply list_elem_of_lookup_2.
Qed.

(** Rotating a sorted ring at a cut between [< t] and [>= t] lists it clockwise. *)
Lemma rotate_clockwise l i t :
  (forall j a, l !! j = Some a -> ((i <= j)%nat <-> t <= hash a)) ->
  drop i l ++ take i l = clockwise t l.
Proof.
  intros Hcut. unfold clockwise. rewrite <- (take_drop i l) at 3 4.
  rewrite !List.filter_app.
  assert (Ht : forall x, x ∈ take i l -> hash x < t).
  { intros x (j & Hj)%list_elem_of_lookup_1. apply lookup_take_Some in Hj as [Hj Hlt].
    specialize (Hcut j x Hj). lia. }
  assert (Hd : forall x, x ∈ drop i l -> t <= hash x).
  { intros x (j & Hj)%list_elem_of_lookup_1. rewrite lookup_drop in Hj.
    specialize (Hcut _ x Hj). apply Hcut. lia. }
  rewrite (filter_none (fun n => t <=? hash n) (take i l)), (filter_all (fun n => t <=? hash n) (drop i l)),
    (filter_all (fun n => hash n <? t) (take i l)), (filter_none (fun n => hash n <? t) (drop i l));
    [by rewrite app_nil_r| | | |]; intros x Hx;
    first [specialize (Ht x Hx)|specialize (Hd x Hx)]; lia.
Qed.

Lemma ring_search_lt l t : l <> [] -> (ring_search hash l t < length l)%nat.
Proof.
  intros Hl. unfold ring_search.
  match goal with |- context [(length l <=? ?s)%nat] => destruct (Nat.leb_spec (length l) s) end; [|lia].
  destruct l; simpl; [done|lia].
Qed.

(** The binary search rotates a sorted ring into clockwise order. *)
Lemma ring_search_rotate l t :
  sorted l -> rotate (ring_search hash l t) l = clockwise t l.
Proof.
  intros Hs. destruct (decide (l = [])) as [->|Hl]; [done|].
  unfold rotate. rewrite Nat.mod_small by (by apply ring_search_lt).
  unfold ring_search. set (f := fun i => match l !! i with Some n => t <=? hash n | None => false end).
  destruct (Search_correct (length l) f) as (Hle & Hlo & Hhi).
  { intros a b Hab. unfold f. destruct (l !! a) as [x|] eqn:Ea; [|done].
    destruct (lookup_lt_is_Some_2 l b ltac:(lia)) as [y Ey]. rewrite Ey. intros Hx. b2p.
    pose proof (sorted_lookup l a b x y Hs ltac:(lia) Ea Ey). lia. }
  assert (Hcut : forall j a, l !! j = Some a -> ((Search (length l) f <= j)%nat <-> t <= hash a)).
  { intros j a Hj. pose proof (lookup_lt_Some _ _ _ Hj). specialize (Hlo j). specialize (Hhi j).
    assert (Hfj : f j = (t <=? hash a)) by (unfold f; by rewrite Hj). rewrite Hfj in Hlo, Hhi. split; intros Hc.
    - apply Z.leb_le, Hhi. lia.
    - destruct (decide (Search (length l) f <= j)%nat) as [|Hn]; [done|].
      rewrite (proj2 (Z.leb_le _ _) Hc) in Hlo. specialize (Hlo ltac:(lia)). done. }
  destruct (Nat.leb_spec (length l) (Search (length l) f)) as [He|He].
  - rewrite drop_0, take_0, app_nil_r. rewrite <- (rotate_clockwise _ _ _ Hcut).
    rewrite drop_ge, take_ge by lia. done.
  - by apply rotate_clockwise.
Qed.

Lemma rotate_lookup l s i :
  (s < length l)%nat -> (i < length l)%nat ->
  l !! ((s + i) mod length l)%nat = rotate s l !! i.
Proof.
  intros Hs Hi. rewrite lookup_rotate_r by done. f_equal.
  unfold rotate_nat_add. rewrite <- Nat2Z.inj_add, <- Nat2Z.inj_mod, Nat2Z.id. done.
Qed.

Lemma omap_seq_lookup l : omap (fun i => l !! i) (seq 0 (length l)) = l.
Proof.
  induction l as [|x l IH]; [done|]. simpl. f_equal.
  rewrite <- seq_shift. rewrite <- IH at 2. generalize (seq 0 (length l)). intros k.
  induction k as [|i k IHk]; [done|]. simpl. by rewrite IHk.
Qed.

Lemma ring_walk_head {B} l (f : A -> option B) s idxs :
  ring_walk l f s idxs
  = head (omap f (omap (fun i => l !! ((s + i) mod length l)%nat) idxs)).
Proof.
  induction idxs as [|i idxs IH]; [done|]. simpl.
  destruct (l !! _) as [n|]; [|done]. simpl. by destruct (f n).
Qed.

Lemma omap_ext_in {B C} (f g : B -> option C) (k : list B) :
  (forall x, x ∈ k -> f x = g x) -> omap f k = omap g k.
Proof.
  induction k as [|x k IH]; simpl; intros H; [done|].
  assert (E : omap f k = omap g k) by (apply IH; intros; apply H; set_solver).
  rewrite (H x) by set_solver. destruct (g x); [f_equal|]; exact E.
Qed.

(** The walk from the searched index visits the ring clockwise. *)
Lemma ring_walk_clockwise {B} l (f : A -> option B) t :
  sorted l ->
  ring_walk l f (ring_search hash l t) (seq 0 (length l)) = head (omap f (clockwise t l)).
Proof.
  intros Hs. destruct (decide (l = [])) as [->|Hl]; [done|].
  rewrite ring_walk_head, <- (ring_search_rotate l t Hs).
  rewrite <- (omap_seq_lookup (rotate _ l)), length_rotate. do 2 f_equal.
  apply omap_ext_in. intros i Hi%elem_of_seq.
  apply rotate_lookup; [by apply ring_search_lt|lia].
Qed.

Lemma ring_search_lookup l t :
  sorted l -> l !! ring_search hash l t = head (clockwise t l).
Proof.
  intros Hs. destruct (decide (l = [])) as [->|Hl]; [done|].
  pose proof (ring_search_lt l t Hl) as Hlt.
  rewrite <- ring_search_rotate, head_lookup by done.
  rewrite <- rotate_lookup by (try done; lia).
  by rewrite Nat.add_0_r, Nat.mod_small.
Qed.

Lemma filter_comm {B} (f g : B -> bool) (k : list B) :
  List.filter f (List.filter g k) = List.filter g (List.filter f k).
Proof.
  induction k as [|x k IH]; [done|]. simpl.
  destruct (g x) eqn:Eg, (f x) eqn:Ef; simpl; rewrite ?Ef, ?Eg; by rewrite ?IH.
Qed.

Lemma clockwise_filter (keep : A -> bool) l t :
  clockwise t (List.filter keep l) = List.filter keep (clockwise t l).
Proof. unfold clockwise. rewrite List.filter_app. f_equal; apply filter_comm. Qed.

Lemma elem_of_clockwise l t n : n ∈ clockwise t l <-> n ∈ l.
Proof.
  unfold clockwise. rewrite elem_of_app, !filter_in.
  destruct (Z.leb_spec t (hash n)), (Z.ltb_spec (hash n) t); naive_solver lia.
Qed.

(** Dropping nodes [f] does not answer for keeps the first answer. *)
Lemma head_omap_filter {B} (f g : A -> option B) (keep : A -> bool) l p :
  (forall n, n ∈ l -> keep n = true -> g n = f n) ->
  (forall n, n ∈ l -> keep n = false -> f n <> Some p) ->
  head (omap f l) = Some p -> head (omap g (List.filter keep l)) = Some p.
Proof.
  induction l as [|n l IH]; intros Hk Hd; [done|]. simpl.
  assert (IH' : head (omap f l) = Some p -> head (omap g (List.filter keep l)) = Some p).
  { apply IH; intros; [apply Hk|apply Hd]; set_solver. }
  destruct (keep n) eqn:Ek.
  - simpl. rewrite Hk by set_solver. destruct (f n); [done|]. exact IH'.
  - specialize (Hd n ltac:(set_solver) Ek). destruct (f n); simpl; [congruence|exact IH'].
Qed.
End Ring.

Lemma filter_perm {A} (f : A -> bool) (l k : list A) :
  l ≡ₚ k -> List.filter f l ≡ₚ List.filter f k.
Proof.
  induction 1 as [|x l k _ IH|x y l|l k m _ IH1 _ IH2]; simpl; [done| | |by etrans].
  - destruct (f x); [by constructor|done].
  - destruct (f x), (f y); try done. apply Permutation_swap.
Qed.

Lemma filter_sorted {A} (R : A -> A -> Prop) (f : A -> bool) (l : list A) :
  StronglySorted R l -> StronglySorted R (List.filter f l).
Proof.
  induction 1 as [|x l _ IH Hx]; simpl; [constructor|]. destruct (f x); [|done].
  constructor; [done|]. rewrite Forall_forall in *. intros y [Hy _]%filter_in. by apply Hx.
Qed.

Lemma find_app {A} (f : A -> bool) (l k : list A) :
  List.find f (l ++ k) = match List.find f l with Some x => Some x | None => List.find f k end.
Proof. induction l as [|x l IH]; simpl; [done|]. by destruct (f x). Qed.

(** ** Consistent hash *)

Section ConsistentHashFacts.
Import ConsistentHash.
Context `{!SliceSort ringNode hash} `{!MapRange}.
Implicit Types (h : heap) (ch : t) (bs : list ptr).

Abbreviation ids h bs := ((fun b => ID (h b)) <$> bs).

(** The offered, available backend with a given ID. *)
Definition offered h bs (id : string) : option ptr :=
  List.find (fun b => bool_decide (ID (h b) = id) && IsAvailable (h b))%bool bs.

Lemma offered_Some h bs id p :
  offered h bs id = Some p -> p ∈ bs /\ ID (h p) = id /\ IsAvailable (h p) = true.
Proof. intros [Hin E]%List.find_some. b2p. by rewrite list_elem_of_In. Qed.

Lemma offered_None h bs id b :
  offered h bs id = None -> b ∈ bs -> IsAvailable (h b) = true -> ID (h b) <> id.
Proof.
  intros Hn Hb Ha E. apply list_elem_of_In in Hb.
  pose proof (List.find_none _ _ Hn b Hb) as Hf. simpl in Hf. rewrite Ha, bool_decide_true in Hf; done.
Qed.

Lemma available_lookup h bs id :
  NoDup (ids h bs) -> available h bs !! id = offered h bs id.
Proof.
  unfold available, offered. induction bs as [|x bs IH] using rev_ind; intros Hnd; [done|].
  rewrite fmap_app in Hnd. apply NoDup_app in Hnd as (Hnd & Hx & _). specialize (IH Hnd).
  rewrite fold_left_app, find_app. simpl in *. rewrite <- IH.
  destruct (IsAvailable (h x)) eqn:Ea; [|rewrite andb_false_r; by destruct (_ !! id)].
  destruct (decide (ID (h x) = id)) as [<-|Hne].
  - rewrite lookup_insert_eq, bool_decide_true by done. simpl. rewrite IH.
    destruct (offered h bs (ID (h x))) as [p|] eqn:E; unfold offered in E; rewrite E; [|done].
    apply offered_Some in E as (Hp & E & _). exfalso. apply (Hx (ID (h x))); [|set_solver].
    rewrite <- E. by apply (list_elem_of_fmap_2 (fun b => ID (h b))).
  - rewrite lookup_insert_ne, bool_decide_false by done. simpl. by destruct (_ !! id).
Qed.

Lemma NextWithKey_clockwise h bs key ch :
  StronglySorted (fun a b => hash a <= hash b) (nodes ch) -> NoDup (ids h bs) ->
  (forall n, n ∈ nodes ch -> backend n <> "") ->
  NextWithKey h bs key ch =
    head (omap (fun n => offered h bs (backend n)) (clockwise hash (hashKey key) (nodes ch))).
Proof.
  intros Hs Hnd Hne. unfold NextWithKey.
  destruct (decide (nodes ch = [])) as [E|Hn]; [by rewrite E|].
  rewrite (bool_decide_false (nodes ch = [])) by done.
  destruct (decide (bs = [])) as [->|Hb]; simpl.
  { clear. induction (clockwise _ _ _); [done|]. done. }
  rewrite (bool_decide_false (bs = [])) by done.
  assert (Hsearch : search ch (hashKey key) = ring_search hash (nodes ch) (hashKey key)).
  { unfold search. by destruct (nodes ch). }
  assert (Hget : exists n rest, clockwise hash (hashKey key) (nodes ch) = n :: rest /\
    getNode ch (hashKey key) = backend n /\ n ∈ nodes ch).
  { pose proof (ring_search_lookup hash (nodes ch) (hashKey key) Hs) as Hl.
    destruct (lookup_lt_is_Some_2 (nodes ch) _ (ring_search_lt hash (nodes ch) (hashKey key) Hn)) as [n Ln].
    rewrite Ln in Hl. destruct (clockwise _ _ _) as [|n' rest] eqn:Ec; [done|].
    injection Hl as <-. exists n, rest. split_and!; [done| |by eapply list_elem_of_lookup_2].
    unfold getNode. rewrite Hsearch, Ln. by destruct (nodes ch). }
  destruct Hget as (n & rest & Ec & -> & Hin). rewrite bool_decide_false by auto.
  fold (offered h bs (backend n)). destruct (offered h bs (backend n)) as [p|] eqn:Eo.
  { rewrite Ec. simpl. by rewrite Eo. }
  unfold findNextAvailable. case_bool_decide as Eav.
  - symmetry. rewrite (omap_ext_in _ (fun _ => None)).
    + clear. by induction (clockwise _ _ _).
    + intros n' _. by rewrite <- available_lookup, Eav by done.
  - rewrite Hsearch, ring_walk_clockwise by done. f_equal.
    apply omap_ext_in. intros n' _. by apply available_lookup.
Qed.

(** *** The ring invariant *)

Lemma vnodes_of_backend vn id n : n ∈ vnodes_of vn id -> backend n = id.
Proof. by intros (i & -> & _)%list_elem_of_fmap. Qed.

Definition ring_of (vn : Z) (m : gmap string ptr) : list ringNode :=
  map_to_list m ≫= fun kv => vnodes_of vn kv.1.

(** The ring is sorted and holds exactly the virtual nodes of the registered
    backends, which are registered under their IDs. *)
Record ring_inv h ch : Prop := {
  ri_sorted : StronglySorted (fun a b => hash a <= hash b) (nodes ch);
  ri_nodes : nodes ch ≡ₚ ring_of (vnodes ch) (backends ch);
  ri_ids k b : backends ch !! k = Some b -> ID (h b) = k;
  ri_vnodes : 0 < vnodes ch
}.

Lemma filter_ring_of vn m id :
  List.filter (fun n => negb (bool_decide (backend n = id))) (ring_of vn m) ≡ₚ ring_of vn (delete id m).
Proof.
  assert (Hother : forall l : list (string * ptr), (forall kv, kv ∈ l -> kv.1 <> id) ->
    List.filter (fun n => negb (bool_decide (backend n = id))) (l ≫= fun kv => vnodes_of vn kv.1)
    = (l ≫= fun kv => vnodes_of vn kv.1)).
  { intros l Hl. apply filter_all. intros n (kv & Hn & Hkv)%list_elem_of_bind.
    apply vnodes_of_backend in Hn. rewrite bool_decide_false; [done|]. rewrite Hn. by apply Hl. }
  assert (Hdel : forall kv, kv ∈ map_to_list (delete id m) -> kv.1 <> id).
  { intros [k b] Hkv%elem_of_map_to_list E. simpl in E. subst. by rewrite lookup_delete_eq in Hkv. }
  unfold ring_of. destruct (m !! id) as [b|] eqn:E; [|].
  - rewrite <- (Hother _ Hdel). 
    rewrite (filter_perm _ (map_to_list m ≫= _) (((id, b) :: map_to_list (delete id m)) ≫= fun kv => vnodes_of vn kv.1))
      by (by rewrite (map_to_list_delete m id b E)).
    simpl. rewrite List.filter_app, filter_none; [done|].
    intros n Hn%vnodes_of_backend. by rewrite bool_decide_true.
  - rewrite <- (Hother _ Hdel). by rewrite delete_id.
Qed.

Lemma removeLocked_inv h id ch : ring_inv h ch -> ring_inv h (removeLocked id ch).
Proof.
  intros [Hs Hn Hi Hv]. split; simpl; [by apply filter_sorted| | |done].
  - rewrite <- filter_ring_of. by apply filter_perm.
  - intros k b Hk. apply lookup_delete_Some in Hk as [_ Hk]. by apply Hi.
Qed.

Lemma ring_of_insert vn m id b :
  m !! id = None -> ring_of vn (<[id := b]> m) ≡ₚ ring_of vn m ++ vnodes_of vn id.
Proof. intros Hm. unfold ring_of. rewrite map_to_list_insert by done. simpl. apply Permutation_app_comm. Qed.

Lemma Add_inv h b ch : ring_inv h ch -> ring_inv h (Add h b ch).
Proof.
  intros Hinv. destruct (removeLocked_inv h (ID (h b)) ch Hinv) as [Hs Hn Hi Hv].
  split; simpl in *; [apply slice_sort_sorted| | |done].
  - unfold sortRing. rewrite slice_sort_perm, ring_of_insert by apply lookup_delete_eq.
    by rewrite Hn.
  - intros k b' Hk. apply lookup_insert_Some in Hk as [[<- <-]|[_ Hk]]; [done|]. by apply Hi.
Qed.

Lemma Update_inv h b ch : ring_inv h ch -> ring_inv h (Update h b ch).
Proof.
  intros Hinv. unfold Update. destruct (backends ch !! ID (h b)) as [q|] eqn:E; [|done].
  destruct Hinv as [Hs Hn Hi Hv]. split; simpl; [done| | |done].
  - rewrite Hn. rewrite <- insert_delete_eq, ring_of_insert by apply lookup_delete_eq.
    rewrite <- (insert_delete_id (backends ch) (ID (h b)) q) at 1 by done.
    by rewrite ring_of_insert by apply lookup_delete_eq.
  - intros k b' Hk. apply lookup_insert_Some in Hk as [[<- <-]|[_ Hk]]; [done|]. by apply Hi.
Qed.

Lemma SetVirtualNodes_inv h vn ch : ring_inv h ch -> ring_inv h (SetVirtualNodes h vn ch).
Proof.
  intros [Hs Hn Hi Hv]. split; simpl; [apply slice_sort_sorted| |done|].
  - unfold sortRing. rewrite slice_sort_perm, map_range_perm. unfold ring_of.
    generalize (if vn <=? 0 then DefaultVirtualNodes else vn). intros v.
    assert (Hl : forall kv, kv ∈ map_to_list (backends ch) -> ID (h kv.2) = kv.1).
    { intros [k b] Hkv%elem_of_map_to_list. by apply Hi. }
    induction (map_to_list (backends ch)) as [|kv l IH]; [done|]. simpl.
    rewrite (Hl kv) by set_solver. f_equiv. apply IH. intros; apply Hl. set_solver.
  - destruct (Z.leb_spec vn 0); [done|lia].
Qed.

Lemma ring_inv_nonempty h ch n :
  ring_inv h ch -> backends ch !! "" = None -> n ∈ nodes ch -> backend n <> "".
Proof.
  intros [_ Hn _ _] He. rewrite Hn. unfold ring_of.
  intros ([k b] & Hv & Hkv)%list_elem_of_bind E. apply vnodes_of_backend in Hv.
  apply elem_of_map_to_list in Hkv. simpl in Hv. congruence.
Qed.

(** Every registered backend has a node. *)
Lemma ring_inv_node h ch k b :
  ring_inv h ch -> backends ch !! k = Some b -> exists n, n ∈ nodes ch /\ backend n = k.
Proof.
  intros [_ Hn _ Hv] Hk.
  exists (mkNode (hashKey (k +:+ ":" +:+ intToString 0)) k). split; [|done].
  rewrite Hn. unfold ring_of. apply list_elem_of_bind. exists (k, b).
  split; [|by apply elem_of_map_to_list]. unfold vnodes_of. apply list_elem_of_fmap.
  exists 0%nat. split; [done|]. apply elem_of_seq. lia.
Qed.

(** A list sorted by a key without duplicates is determined by its elements. *)
Lemma sorted_key_unique {A} (key : A -> Z) (l k : list A) :
  StronglySorted (fun a b => key a <= key b) l -> StronglySorted (fun a b => key a <= key b) k ->
  NoDup (key <$> l) -> l ≡ₚ k -> l = k.
Proof.
  intros Hl. revert k. induction Hl as [|x l Hl IH Hx]; intros k Hk Hnd Hp.
  { by apply Permutation_nil_l in Hp. }
  destruct Hk as [|y k Hk Hy]; [by apply Permutation_nil_r in Hp|].
  assert (x = y) as <-.
  { rewrite Forall_forall in Hx, Hy.
    assert (Hxy : y ∈ x :: l) by (rewrite Hp; set_solver).
    assert (Hyx : x ∈ y :: k) by (rewrite <- Hp; set_solver).
    apply (nodup_fmap_eq key (x :: l)); [done|set_solver|done|].
    apply elem_of_cons in Hxy as [->|Hxy]; [done|]. apply elem_of_cons in Hyx as [->|Hyx]; [done|].
    specialize (Hx y Hxy). specialize (Hy x Hyx). lia. }
  f_equal. apply IH; [done| |by eapply Permutation_cons_inv].
  simpl in Hnd. by apply NoDup_cons in Hnd as [_ ?].
Qed.

(** Removing an absent backend from the ring after adding it gives the ring back. *)
Lemma filter_Add h b ch :
  ring_inv h ch -> backends ch !! ID (h b) = None -> NoDup (hash <$> nodes (Add h b ch)) ->
  List.filter (fun n => negb (bool_decide (backend n = ID (h b)))) (nodes (Add h b ch)) = nodes ch.
Proof.
  intros Hinv Hnew Hnd. pose proof (Add_inv h b ch Hinv) as Hadd.
  apply (sorted_key_unique hash).
  - apply filter_sorted, Hadd.
  - apply Hinv.
  - clear - Hnd. induction (nodes (Add h b ch)) as [|n l IH]; [constructor|].
    simpl in *. apply NoDup_cons in Hnd as [Hn Hnd]. specialize (IH Hnd).
    destruct (negb _); [|done]. simpl. apply NoDup_cons. split; [|done].
    intros (m & E & [Hm _]%filter_in)%list_elem_of_fmap. apply Hn. rewrite E.
    by apply list_elem_of_fmap_2.
  - rewrite (filter_perm _ _ _ (ri_nodes h _ Hadd)), filter_ring_of. simpl.
    rewrite (ri_nodes h _ Hinv), delete_insert_eq. by rewrite !delete_id by (by rewrite ?delete_id).
Qed.
End ConsistentHashFacts.

Import ConsistentHash.

(** [Add], [Remove], [Update] and [SetVirtualNodes] keep the ring of the
    consistent-hash balancer sorted and equal to the virtual nodes of exactly the
    registered backends. *)
Theorem consistent_hash_ring_invariant `{!SliceSort ringNode hash} `{!MapRange} h :
  (forall vn, ring_inv h (NewConsistentHash vn)) /\
  (forall ch, ring_inv h ch ->
    (forall b, ring_inv h (Add h b ch)) /\ (forall id, ring_inv h (Remove h id ch)) /\
    (forall b, ring_inv h (Update h b ch)) /\ (forall vn, ring_inv h (SetVirtualNodes h vn ch))).
Proof.
  split.
  - intros vn. split; simpl; [constructor|done|done|]. destruct (Z.leb_spec vn 0); [done|lia].
  - intros ch Hch. split_and!; intros.
    + by apply Add_inv.
    + by apply removeLocked_inv.
    + by apply Update_inv.
    + by apply SetVirtualNodes_inv.
Qed.

(** consistent hashing selects, in clockwise order from the hash of the
    client IP, the first virtual node whose backend is offered and available; so
    it selects a backend whenever a registered one is offered and available. *)
Theorem consistent_hash_next_spec `{!SliceSort ringNode hash} h ip req bs ch :
  ring_inv h ch -> NoDup ((fun b => ID (h b)) <$> bs) -> backends ch !! "" = None -> ip <> "" ->
  Next h (Some (mkRequestContext ip req)) bs ch =
    (head (omap (fun n => offered h bs (backend n)) (clockwise hash (hashKey ip) (nodes ch))), ch) /\
  (is_Some (fst (Next h (Some (mkRequestContext ip req)) bs ch)) <->
   exists b, b ∈ bs /\ IsAvailable (h b) = true /\ is_Some (backends ch !! ID (h b))).
Proof.
  intros Hinv Hnd He Hip.
  assert (HN : Next h (Some (mkRequestContext ip req)) bs ch =
    (head (omap (fun n => offered h bs (backend n)) (clockwise hash (hashKey ip) (nodes ch))), ch)).
  { unfold Next. destruct bs as [|b0 l] eqn:Eb.
    - f_equal. clear. by induction (clockwise _ _ _).
    - cbn [ClientIP]. rewrite (bool_decide_false (ip = "")) by done. rewrite <- Eb in *. f_equal.
      apply NextWithKey_clockwise; [apply Hinv|done|]. intros n Hn. by apply (ring_inv_nonempty h ch). }
  split; [done|]. rewrite HN. simpl. set (f := fun n => offered h bs (backend n)).
  assert (Hhead : forall l : list ringNode, is_Some (head (omap f l)) <-> exists n, n ∈ l /\ is_Some (f n)).
  { induction l as [|n l IH]; simpl; [split; [by intros []|by intros (n & Hn & _); apply elem_of_nil in Hn]|].
    destruct (f n) eqn:En; simpl.
    - split; [intros _|by eauto]. exists n. rewrite En. split; [set_solver|by eauto].
    - rewrite IH. split; [intros (m & ? & ?); exists m; set_solver|].
      intros (m & [->|Hm]%elem_of_cons & Hs); [rewrite En in Hs; by destruct Hs|eauto]. }
  rewrite Hhead. split.
  - intros (n & Hn & p & Hp). apply offered_Some in Hp as (Hp & E & Ha). exists p. split_and!; [done|done|].
    rewrite elem_of_clockwise, (ri_nodes h _ Hinv) in Hn. unfold ring_of in Hn.
    apply list_elem_of_bind in Hn as ([k q] & Hv & Hk). apply vnodes_of_backend in Hv.
    apply elem_of_map_to_list in Hk. simpl in Hv. rewrite E, Hv. eauto.
  - intros (b & Hb & Ha & q & Hq). destruct (ring_inv_node h ch _ _ Hinv Hq) as (n & Hn & En).
    exists n. rewrite elem_of_clockwise. split; [done|]. unfold f. rewrite En.
    destruct (offered h bs (ID (h b))) eqn:Eo; [by eauto|]. by destruct (offered_None h bs _ b Eo Hb Ha).
Qed.

(** C32: removing a backend from the consistent-hash ring, and from the offer,
    moves only the keys it served: a key served by another backend keeps it. *)
Theorem consistent_hash_remove_minimal `{!SliceSort ringNode hash} h bs key ch id p :
  ring_inv h ch -> NoDup ((fun b => ID (h b)) <$> bs) -> backends ch !! "" = None ->
  NextWithKey h bs key ch = Some p -> ID (h p) <> id ->
  NextWithKey h (List.filter (fun b => negb (bool_decide (ID (h b) = id))) bs) key (Remove h id ch) = Some p.
Proof.
  intros Hinv Hnd He HN Hp. pose proof (removeLocked_inv h id ch Hinv) as Hinv'.
  rewrite NextWithKey_clockwise in HN; [|apply Hinv|done|intros n Hn; by apply (ring_inv_nonempty h ch)].
  rewrite NextWithKey_clockwise; [|apply Hinv'| |].
  2:{ clear - Hnd. induction bs as [|x l IH]; [done|]. simpl in *. apply NoDup_cons in Hnd as [Hx Hnd].
      case_bool_decide; simpl; [by apply IH|]. apply NoDup_cons. split; [|by apply IH].
      intros (y & E & [Hy _]%filter_in)%list_elem_of_fmap. apply Hx. rewrite E.
      by apply (list_elem_of_fmap_2 (fun b => ID (h b))). }
  2:{ intros n [Hn _]%filter_in. by apply (ring_inv_nonempty h ch). }
  unfold Remove, removeLocked. cbn [nodes]. rewrite clockwise_filter.
  eapply (head_omap_filter hash); [| |exact HN].
  - intros n _ Hk. b2p. unfold offered. clear - Hk. induction bs as [|x l IH]; [done|]. simpl.
    case_bool_decide as E1; simpl.
    + rewrite bool_decide_false by congruence. done.
    + destruct (bool_decide (ID (h x) = backend n)); simpl; [|done]. by destruct (IsAvailable (h x)).
  - intros n _ Hk Ho. b2p. apply offered_Some in Ho as (_ & E & _). congruence.
Qed.

(** adding a new backend to the consistent-hash ring moves keys only to that
    backend: a key that another backend serves afterwards was served by it before,
    provided no two virtual nodes of the resulting ring collide. *)
Theorem consistent_hash_add_minimal `{!SliceSort ringNode hash} h bs key ch b p :
  ring_inv h ch -> NoDup ((fun b => ID (h b)) <$> bs) -> backends ch !! "" = None -> ID (h b) <> "" ->
  backends ch !! ID (h b) = None -> NoDup (hash <$> nodes (Add h b ch)) ->
  NextWithKey h bs key (Add h b ch) = Some p -> ID (h p) <> ID (h b) ->
  NextWithKey h bs key ch = Some p.
Proof.
  intros Hinv Hnd He Hid Hnew Hcol HN Hp. pose proof (Add_inv h b ch Hinv) as Hinv'.
  rewrite NextWithKey_clockwise in HN; [|apply Hinv'|done|].
  2:{ intros n Hn. apply (ring_inv_nonempty h (Add h b ch)); [done| |done]. simpl.
      rewrite lookup_insert_ne by done. by rewrite delete_id. }
  rewrite NextWithKey_clockwise; [|apply Hinv|done|intros n Hn; by apply (ring_inv_nonempty h ch)].
  rewrite <- (filter_Add h b ch Hinv Hnew Hcol), clockwise_filter.
  eapply (head_omap_filter hash); [done| |exact HN].
  intros n _ Hk Ho. b2p. apply offered_Some in Ho as (_ & E & _). congruence.
Qed.

(** *** Concrete instances: merge sort and the enumeration of [gmap] *)

#[local] Existing Instance gmap_range.
#[local] Instance ringNode_sort : SliceSort ringNode hash := merge_slice_sort hash.

Definition ring_ab : t :=
  Add abc_heap 1%nat (Add abc_heap 0%nat (NewConsistentHash 3)).

Lemma ring_ab_inv : ring_inv abc_heap ring_ab.
Proof. do 2 apply Add_inv. split; simpl; [constructor|done|done|lia]. Qed.

Lemma consistent_hash_ring_invariant_witness : ring_inv abc_heap (Remove abc_heap "a" ring_ab).
Proof.
  exact (proj1 (proj2 (proj2 (consistent_hash_ring_invariant abc_heap) ring_ab ring_ab_inv)) "a").
Defined.

Lemma consistent_hash_next_spec_witness :
  is_Some (fst (Next abc_heap (Some (mkRequestContext "10.0.0.9" None)) [0; 1]%nat ring_ab)).
Proof.
  apply (proj2 (consistent_hash_next_spec abc_heap "10.0.0.9" None [0; 1]%nat ring_ab ring_ab_inv
    ltac:(apply (bool_decide_unpack _); vm_compute; exact I) ltac:(vm_compute; reflexivity) ltac:(done))).
  exists 0%nat. split_and!; [set_solver|vm_compute; reflexivity|]. exists 0%nat. vm_compute. reflexivity.
Defined.

Lemma consistent_hash_remove_minimal_witness :
  NextWithKey abc_heap [0; 1]%nat "10.0.0.9" ring_ab = Some 1%nat /\
  NextWithKey abc_heap [1]%nat "10.0.0.9" (Remove abc_heap "a" ring_ab) = Some 1%nat.
Proof.
  assert (E : NextWithKey abc_heap [0; 1]%nat "10.0.0.9" ring_ab = Some 1%nat) by (vm_compute; reflexivity).
  split; [exact E|].
  exact (consistent_hash_remove_minimal abc_heap [0; 1]%nat "10.0.0.9" ring_ab "a" 1%nat ring_ab_inv
    ltac:(apply (bool_decide_unpack _); vm_compute; exact I) ltac:(vm_compute; reflexivity) E
    ltac:(vm_compute; congruence)).
Defined.

Lemma consistent_hash_add_minimal_witness :
  NextWithKey abc_heap [0; 1; 2]%nat "b" (Add abc_heap 2%nat ring_ab) = Some 0%nat /\
  NextWithKey abc_heap [0; 1; 2]%nat "b" ring_ab = Some 0%nat.
Proof.
  assert (E : NextWithKey abc_heap [0; 1; 2]%nat "b" (Add abc_heap 2%nat ring_ab) = Some 0%nat)
    by (vm_compute; reflexivity).
  split; [exact E|].
  exact (consistent_hash_add_minimal abc_heap [0; 1; 2]%nat "b" ring_ab 2%nat 0%nat ring_ab_inv
    ltac:(apply (bool_decide_unpack _); vm_compute; exact I) ltac:(vm_compute; reflexivity)
    ltac:(vm_compute; congruence) ltac:(vm_compute; reflexivity)
    ltac:(apply (bool_decide_unpack _); vm_compute; exact I) E ltac:(vm_compute; congruence)).
Defined.

(** *** The balancer interface *)

Lemma available_in h bs id p : available h bs !! id = Some p -> p ∈ bs /\ IsAvailable (h p) = true.
Proof.
  unfold available. induction bs as [|x bs IH] using rev_ind; [done|].
  rewrite fold_left_app. simpl. setoid_rewrite elem_of_app.
  destruct (IsAvailable (h x)) eqn:E; [|naive_solver].
  intros [[_ <-]|[_ Hp]]%lookup_insert_Some; [set_solver|naive_solver].
Qed.

Lemma ring_walk_Some {A B} (l : list A) (f : A -> option B) s idxs b :
  ring_walk l f s idxs = Some b -> exists n, n ∈ l /\ f n = Some b.
Proof.
  induction idxs as [|i idxs IH]; simpl; [done|].
  destruct (l !! _) as [n|] eqn:E; [|done]. destruct (f n) eqn:Ef; [|done].
  intros [= <-]. exists n. split; [by eapply list_elem_of_lookup_2|done].
Qed.

Lemma NextWithKey_in h bs key ch p : NextWithKey h bs key ch = Some p -> p ∈ bs.
Proof.
  unfold NextWithKey. destruct (bool_decide (nodes ch = []) || bool_decide (bs = []))%bool; [done|].
  case_bool_decide; [done|].
  match goal with |- context [List.find ?f ?k] => destruct (List.find f k) eqn:Ef end.
  - intros [= <-]. apply List.find_some in Ef as [Hin _]. by apply list_elem_of_In.
  - unfold findNextAvailable. case_bool_decide; [done|].
    intros (n & _ & Ha)%ring_walk_Some. by apply available_in in Ha as [? _].
Qed.

#[export] Instance ConsistentHash_laws `{!SliceSort ringNode hash} : BalancerLaws ConsistentHash.t.
Proof.
  constructor. intros h ctx bs s p s'. simpl. unfold Next. destruct bs as [|b0 l]; [done|].
  intros [= Hp _]. by apply NextWithKey_in in Hp.
Qed.

(** ** Ring hash *)

Section RingHashFacts.
Import RingHash.
Context `{!SliceSort ringHashNode RingHash.hash} `{!MapRange}.
Implicit Types (h : heap) (rh : RingHash.t) (bs : list ptr).

Lemma find_offered h bs id p :
  NoDup ((fun b => ID (h b)) <$> bs) -> p ∈ bs -> ID (h p) = id ->
  List.find (fun b => bool_decide (ID (h b) = id)) bs = Some p.
Proof.
  intros Hnd Hp E. destruct (List.find _ bs) as [q|] eqn:Ef.
  - apply List.find_some in Ef as [Hq Eq]. b2p. f_equal. apply list_elem_of_In in Hq.
    apply (nodup_fmap_eq (fun b => ID (h b)) bs); [done|done|done|congruence].
  - apply list_elem_of_In in Hp. pose proof (List.find_none _ _ Ef p Hp) as Hf. simpl in Hf.
    by rewrite bool_decide_true in Hf.
Qed.

(** The step of the fallback walk is [offered] when IDs are distinct. *)
Lemma walk_offered h bs id :
  NoDup ((fun b => ID (h b)) <$> bs) ->
  (if RingHash.available h bs id then List.find (fun b => bool_decide (ID (h b) = id)) bs else None)
  = offered h bs id.
Proof.
  intros Hnd. unfold RingHash.available.
  destruct (offered h bs id) as [p|] eqn:Eo.
  - apply offered_Some in Eo as (Hp & E & Ha).
    rewrite (proj2 (List.existsb_exists _ bs)); [by apply find_offered|].
    exists p. rewrite Ha, bool_decide_true by done. by rewrite <- list_elem_of_In.
  - destruct (existsb _ bs) eqn:E; [|done]. apply List.existsb_exists in E as (b & Hb & E). b2p.
    apply list_elem_of_In in Hb. by destruct (offered_None h bs id b Eo).
Qed.

Lemma RingHash_Next_clockwise h ip req bs rh :
  StronglySorted (fun a b => hash a <= hash b) (ring rh) ->
  NoDup ((fun b => ID (h b)) <$> bs) -> ip <> "" ->
  Next h (Some (mkRequestContext ip req)) bs rh =
    (head (omap (fun n => offered h bs (backendID n)) (clockwise hash (hashFunc rh ip) (ring rh))), rh).
Proof.
  intros Hs Hnd Hip. unfold Next.
  destruct (decide (ring rh = [])) as [E|Hn]; [by rewrite E|].
  rewrite (bool_decide_false (ring rh = [])) by done.
  destruct (decide (bs = [])) as [->|Hb].
  { simpl. f_equal. clear. by induction (clockwise _ _ _). }
  rewrite (bool_decide_false (bs = [])) by done. cbn [orb ClientIP].
  rewrite (bool_decide_false (ip = "")) by done.
  pose proof (ring_search_lookup hash (ring rh) (hashFunc rh ip) Hs) as Hl.
  destruct (lookup_lt_is_Some_2 (ring rh) _ (ring_search_lt hash (ring rh) (hashFunc rh ip) Hn)) as [n Ln].
  rewrite Ln in *. destruct (clockwise _ _ _) as [|n' rest] eqn:Ec; [done|].
  injection Hl as <-. fold (offered h bs (backendID n)).
  destruct (offered h bs (backendID n)) as [p|] eqn:Eo; [simpl; by rewrite Eo|]. f_equal.
  rewrite <- Ec. unfold findNextAvailable. rewrite bool_decide_false by done.
  destruct (existsb _ bs) eqn:Ex; cbn [negb].
  - rewrite ring_walk_clockwise by done. f_equal. apply omap_ext_in. intros m _. by apply walk_offered.
  - symmetry. rewrite (omap_ext_in _ (fun _ => None)); [clear; by induction (clockwise _ _ _)|].
    intros m _. destruct (offered h bs (backendID m)) as [p|] eqn:Ep; [|done].
    apply offered_Some in Ep as (Hp & _ & Ha). rewrite (proj2 (List.existsb_exists _ bs)) in Ex; [done|].
    exists p. by rewrite <- list_elem_of_In.
Qed.

(** The ring the current weights call for. *)
Definition weighted_ring h rh : list ringHashNode :=
  map_to_list (backends rh) ≫= fun kv =>
    vnodes_of (hashFunc rh) (vnodes rh) (GetWeight (h kv.2)) (ID (h kv.2)).

Lemma rebuildRing_spec h rh :
  StronglySorted (fun a b => hash a <= hash b) (ring (rebuildRing h rh)) /\
  ring (rebuildRing h rh) ≡ₚ weighted_ring h rh.
Proof.
  split; simpl; [apply slice_sort_sorted|].
  by rewrite slice_sort_perm, map_range_perm.
Qed.
End RingHashFacts.

#[export] Instance RingHash_laws `{!SliceSort RingHash.ringHashNode RingHash.hash} `{!MapRange} :
  BalancerLaws RingHash.t.
Proof.
  constructor. intros h ctx bs s p s'. simpl. unfold RingHash.Next.
  destruct (bool_decide (RingHash.ring s = []) || bool_decide (bs = []))%bool; [done|].
  destruct (if bool_decide (match ctx with Some c => ClientIP c | None => "" end = "") then _ else _)
    as [key rh'].
  destruct (RingHash.ring rh' !! _) as [n|]; [|done].
  match goal with |- context [List.find ?f ?k] => destruct (List.find f k) eqn:Ef end.
  - apply List.find_some in Ef as [Hin _]. intros [= <- _]. by apply list_elem_of_In.
  - unfold RingHash.findNextAvailable. case_bool_decide; [done|]. destruct (negb _); [done|].
    intros [= (m & _ & Ha)%ring_walk_Some _]. destruct (RingHash.available _ _ _); [|done].
    apply List.find_some in Ha as [Hin _]. by apply list_elem_of_In.
Qed.

(** After [Add] of a new backend the ring-hash balancer holds, sorted by hash,
    the virtual nodes its backends' current weights call for, and selects from
    them the first in clockwise order whose backend is offered and available. *)
Theorem ring_hash_add_next_spec `{!SliceSort RingHash.ringHashNode RingHash.hash} `{!MapRange}
    h b rh ip req bs :
  RingHash.backends rh !! ID (h b) = None -> NoDup ((fun b => ID (h b)) <$> bs) -> ip <> "" ->
  let rh' := RingHash.Add h b rh in
  RingHash.ring rh' ≡ₚ weighted_ring h rh' /\
  RingHash.Next h (Some (mkRequestContext ip req)) bs rh' =
    (head (omap (fun n => offered h bs (RingHash.backendID n))
      (clockwise RingHash.hash (RingHash.hashFunc rh ip) (RingHash.ring rh'))), rh').
Proof.
  intros Hnew Hnd Hip. unfold RingHash.Add. rewrite Hnew.
  set (r := RingHash.set_backends _ _).
  destruct (rebuildRing_spec h r) as [Hs Hp]. split; [exact Hp|].
  by apply (RingHash_Next_clockwise h ip req bs (RingHash.rebuildRing h r)).
Qed.

(** [Update] of a backend that is registered through the same pointer, as the
    pool registers it, never rebuilds the ring-hash ring, whatever its weight has
    become: the old weight is read through the pointer that already holds the
    new one. *)
Theorem ring_hash_update_keeps_ring `{!SliceSort RingHash.ringHashNode RingHash.hash} `{!MapRange} h b rh :
  RingHash.backends rh !! ID (h b) = Some b ->
  RingHash.Update h b rh = rh.
Proof.
  intros Hb. unfold RingHash.Update. rewrite Hb, Z.eqb_refl. simpl.
  unfold RingHash.set_backends. rewrite insert_id by done. by destruct rh.
Qed.

#[local] Instance ringHashNode_sort : SliceSort RingHash.ringHashNode RingHash.hash :=
  merge_slice_sort RingHash.hash.

Lemma ring_hash_add_next_spec_witness :
  fst (RingHash.Next abc_heap (Some (mkRequestContext "10.0.0.9" None)) [0]%nat
    (RingHash.Add abc_heap 0%nat (RingHash.NewRingHashWithConfig 2 None))) = Some 0%nat.
Proof.
  pose proof (ring_hash_add_next_spec abc_heap 0%nat (RingHash.NewRingHashWithConfig 2 None) "10.0.0.9"
    None [0]%nat ltac:(vm_compute; reflexivity) ltac:(apply (bool_decide_unpack _); vm_compute; exact I)
    ltac:(done)) as [_ H].
  rewrite H. vm_compute. reflexivity.
Defined.

(** The registered backend is reweighted from 1 to 4, yet its 2 nodes are not
    replaced by 8. *)
Lemma ring_hash_update_keeps_ring_witness :
  let rh := RingHash.Add abc_heap 0%nat (RingHash.NewRingHashWithConfig 2 None) in
  let h' := fun q => set_weight 4 (abc_heap q) in
  length (weighted_ring h' rh) = 8%nat /\ length (RingHash.ring (RingHash.Update h' 0%nat rh)) = 2%nat.
Proof.
  intros rh h'. split; [vm_compute; reflexivity|].
  rewrite (ring_hash_update_keeps_ring h' 0%nat rh ltac:(vm_compute; reflexivity)). vm_compute. reflexivity.
Defined.
