(* ===== verification/Maglev.v ===== *)
(** * Maglev hashing: [internal/balancer/maglev.go]

    The model takes the size of the lookup table as an argument [M]; the code's
    constant is [MaglevTableSize].  The slices of that size (the lookup table and
    the permutations) are finite maps from the index, so that the model can be
    evaluated at the code's size. *)
From S2P Require Import Prelude Http GoHash Backend BackendPool HashRing BalancersFacts HashRingFacts.
From stdpp Require Import zmap.
From Stdlib Require Import Znumtheory.

Module Maglev.

Definition MaglevTableSize : Z := 65537.

Abbreviation array := (Zmap Z).

(** The array with [f i] at the [n] indices from [i]. *)
Fixpoint array_from (n : nat) (i : Z) (f : Z -> Z) : array :=
  match n with
  | O => ∅
  | S n => <[i := f i]> (array_from n (i + 1) f)
  end.

(** [make(\[\]int, n)] with every element set by [f]. *)
Definition array_init (n : Z) (f : Z -> Z) : array := array_from (Z.to_nat n) 0 f.

Record t := mk {
  backends : list ptr;
  backendMap : gmap string nat;
  lookupTable : array;
  permutations : list array;
  needRebuild : bool;
  counter : Z (* uint64 *)
}.

Section Operations.
Context (M : Z).

Definition NewMaglev : t := mk [] ∅ (array_init M (fun _ => 0)) [] false 0.

Definition hashKey (key : string) : Z := fnv64a key.

Definition generateKey (m : t) : string * t :=
  let c := u64 (counter m + 1) in
  ("request-" +:+ pretty c,
   mk (backends m) (backendMap m) (lookupTable m) (permutations m) (needRebuild m) c).

Definition computeHashPair (backendID : string) : Z * Z :=
  let offset := fnv64a_write (fnv64a_write fnv_offset64 backendID) "offset" mod M in
  let skip := fnv64a_write (fnv64a_write fnv_offset64 backendID) "skip" mod (M - 1) in
  (offset, if skip =? 0 then 1 else skip).

Definition generatePermutation (h : heap) (b : ptr) : array :=
  let '(offset, skip) := computeHashPair (ID (h b)) in
  array_init M (fun i => u64 (offset + u64 (i * skip)) mod M).

(** The inner loop [for next\[j\] < MaglevTableSize]: skips the taken positions. *)
Fixpoint advance (fuel : nat) (table perm : array) (k : Z) : Z :=
  match fuel with
  | O => k
  | S fuel =>
      if k <? M then
        match perm !! k with
        | Some pos => if bool_decide (table !! pos = Some (-1)) then k else advance fuel table perm (k + 1)
        | None => k
        end
      else k
  end.

(** One step of [for j := range n], on [next], [minPos] and [minBackend]. *)
Definition scan_step (fuel : nat) (table : array) (perms : list array) (acc : list Z * Z * Z) (j : nat)
    : list Z * Z * Z :=
  let '(next, minPos, minBackend) := acc in
  match perms !! j, next !! j with
  | Some perm, Some k0 =>
      let k := advance fuel table perm k0 in
      let next := <[j := k]> next in
      if k <? M then
        match perm !! k with
        | Some pos => if pos <? minPos then (next, pos, Z.of_nat j) else (next, minPos, minBackend)
        | None => (next, minPos, minBackend)
        end
      else (next, minPos, minBackend)
  | _, _ => (next, minPos, minBackend)
  end.

Definition scan (fuel : nat) (table : array) (perms : list array) (next : list Z) : list Z * Z * Z :=
  fold_left (scan_step fuel table perms) (seq 0 (length perms)) (next, 2 ^ 64 - 1, -1).

(** One iteration of [for range MaglevTableSize]. *)
Definition fill_round (fuel : nat) (perms : list array) (s : array * list Z) : array * list Z :=
  let '(table, next) := s in
  let '(next, minPos, minBackend) := scan fuel table perms next in
  if 0 <=? minBackend
  then (<[minPos := minBackend]> table,
        match next !! Z.to_nat minBackend with
        | Some k => <[Z.to_nat minBackend := k + 1]> next
        | None => next
        end)
  else (table, next).

(** The table size bounds the iterations of the inner loop too. *)
Definition fill (perms : list array) : array :=
  let fuel := Z.to_nat M in
  fst (Nat.iter fuel (fill_round fuel perms) (array_init M (fun _ => -1), replicate (length perms) 0)).

Definition rebuildLocked (h : heap) (m : t) : t :=
  if negb (needRebuild m) then m
  else
    match backends m with
    | [] => mk [] (backendMap m) (array_init M (fun _ => -1)) (permutations m) false (counter m)
    | _ =>
        let perms := (fun b => generatePermutation h b) <$> backends m in
        mk (backends m) (backendMap m) (fill perms) perms false (counter m)
    end.

Definition available (h : heap) (bs : list ptr) (id : string) : bool :=
  existsb (fun b => IsAvailable (h b) && bool_decide (ID (h b) = id))%bool bs.

(** The backend that owns a position of the lookup table. *)
Definition owner (m : t) (pos : Z) : option ptr :=
  match lookupTable m !! pos with
  | Some backendIdx => if backendIdx <? 0 then None else backends m !! Z.to_nat backendIdx
  | None => None
  end.

(** The forward search, [i] from 0 to [MaglevTableSize - 1]. *)
Fixpoint walk (h : heap) (bs : list ptr) (m : t) (startPos : Z) (n : nat) (i : Z) : option ptr :=
  match n with
  | O => None
  | S n =>
      match owner m (u64 (startPos + i) mod M) with
      | Some q =>
          if available h bs (ID (h q)) then
            match List.find (fun b => bool_decide (ID (h b) = ID (h q))) bs with
            | Some b => Some b
            | None => walk h bs m startPos n (i + 1)
            end
          else walk h bs m startPos n (i + 1)
      | None => walk h bs m startPos n (i + 1)
      end
  end.

Definition findNextAvailable (h : heap) (startPos : Z) (bs : list ptr) (m : t) : option ptr :=
  if bool_decide (backends m = []) then None
  else if negb (existsb (fun b => IsAvailable (h b)) bs) then None
  else walk h bs m startPos (Z.to_nat M) 0.

Definition Next (h : heap) (ctx : option RequestContext) (bs : list ptr) (m : t)
    : option ptr * t :=
  if (bool_decide (backends m = []) || bool_decide (bs = []))%bool then (None, m)
  else
    let m := if needRebuild m then rebuildLocked h m else m in
    let key := match ctx with Some c => ClientIP c | None => "" end in
    let '(key, m) := if bool_decide (key = "") then generateKey m else (key, m) in
    let pos := hashKey key mod M in
    match owner m pos with
    | None => (None, m)
    | Some q =>
        match List.find (fun b => bool_decide (ID (h b) = ID (h q)) && IsAvailable (h b))%bool bs with
        | Some b => (Some b, m)
        | None => (findNextAvailable h pos bs m, m)
        end
    end.

Definition Add (h : heap) (b : ptr) (m : t) : t :=
  match backendMap m !! ID (h b) with
  | Some idx =>
      mk (<[idx := b]> (backends m)) (backendMap m) (lookupTable m) (permutations m) true (counter m)
  | None =>
      mk (backends m ++ [b]) (<[ID (h b) := length (backends m)]> (backendMap m)) (lookupTable m)
         (permutations m ++ [generatePermutation h b]) true (counter m)
  end.

(** [for i, backend := range m.backends { m.backendMap\[backend.ID\] = i }] *)
Definition reindex (h : heap) (bs : list ptr) (bm : gmap string nat) : gmap string nat :=
  fold_left (fun bm '(i, b) => <[ID (h b) := i]> bm) (imap pair bs) bm.

Definition Remove (h : heap) (id : string) (m : t) : t :=
  match backendMap m !! id with
  | None => m
  | Some idx =>
      let bs := delete idx (backends m) in
      mk bs (reindex h bs (delete id (backendMap m))) (lookupTable m)
         (delete idx (permutations m)) true (counter m)
  end.

Definition Update (h : heap) (b : ptr) (m : t) : t :=
  match backendMap m !! ID (h b) with
  | Some idx =>
      mk (<[idx := b]> (backends m)) (backendMap m) (lookupTable m) (permutations m)
         (needRebuild m) (counter m)
  | None => m
  end.
End Operations.

#[global] Instance balancer : Balancer t :=
  { bal_Next := Next MaglevTableSize; bal_Add := Add MaglevTableSize;
    bal_Remove := Remove; bal_Update := Update }.
End Maglev.

Import Maglev.

(** ** Arrays *)

Lemma array_from_lookup n i f k :
  i <= k < i + Z.of_nat n -> array_from n i f !! k = Some (f k).
Proof.
  revert i. induction n as [|n IH]; intros i Hk; [lia|]. cbn [array_from].
  destruct (decide (k = i)) as [->|Hne]; [apply lookup_insert_eq|].
  rewrite lookup_insert_ne by done. apply IH. lia.
Qed.

Lemma array_init_lookup n f k : 0 <= k < n -> array_init n f !! k = Some (f k).
Proof. intros Hk. apply array_from_lookup. lia. Qed.

(** ** The permutations are permutations *)

(** Stepping by [skip] from [offset] reaches every residue of a modulus that is
    coprime with [skip]. *)
Lemma step_surjective M offset skip p :
  0 < M -> rel_prime skip M -> 0 <= p < M ->
  exists i, 0 <= i < M /\ (offset + i * skip) mod M = p.
Proof.
  intros HM Hrel Hp. destruct (rel_prime_bezout _ _ Hrel) as [u v Huv].
  exists (((p - offset) * u) mod M). split; [by apply Z.mod_pos_bound|].
  rewrite <- Zplus_mod_idemp_r, Zmult_mod_idemp_l, Zplus_mod_idemp_r.
  replace (offset + (p - offset) * u * skip) with (p + (- (p - offset) * v) * M).
  - rewrite Z_mod_plus_full. by apply Z.mod_small.
  - replace ((p - offset) * u * skip) with ((p - offset) * (u * skip)) by ring.
    replace (u * skip) with (1 - v * M) by lia. ring.
Qed.

Section Fill.
Context (M : Z).

(** A permutation table: in range, and every position occurs. *)
Definition is_perm (perm : array) : Prop :=
  (forall k, 0 <= k < M -> exists p, perm !! k = Some p /\ 0 <= p < M) /\
  (forall p, 0 <= p < M -> exists k, 0 <= k < M /\ perm !! k = Some p).

Lemma computeHashPair_range id :
  2 <= M -> let '(offset, skip) := computeHashPair M id in 0 <= offset < M /\ 1 <= skip < M.
Proof.
  intros HM. unfold computeHashPair. generalize (fnv64a_write (fnv64a_write fnv_offset64 id) "offset").
  generalize (fnv64a_write (fnv64a_write fnv_offset64 id) "skip"). intros a b.
  split; [apply Z.mod_pos_bound; lia|].
  pose proof (Z.mod_pos_bound a (M - 1) ltac:(lia)). destruct (Z.eqb_spec (a mod (M - 1)) 0); lia.
Qed.

Lemma generatePermutation_is_perm h b :
  prime M -> M < 2 ^ 32 -> is_perm (generatePermutation M h b).
Proof.
  intros Hp Hsm. pose proof (prime_ge_2 _ Hp) as HM. unfold generatePermutation.
  destruct (computeHashPair M (ID (h b))) as [offset skip] eqn:E.
  pose proof (computeHashPair_range (ID (h b)) HM) as Hrange. rewrite E in Hrange.
  destruct Hrange as [Hoff Hskip].
  assert (Hval : forall i, 0 <= i < M -> u64 (offset + u64 (i * skip)) = offset + i * skip).
  { intros i Hi. assert (0 <= i * skip < 2 ^ 32 * 2 ^ 32 - 2 ^ 32) by nia.
    rewrite (u64_small (i * skip)) by (unfold in_u64; lia). apply u64_small. unfold in_u64. lia. }
  split.
  - intros k Hk. rewrite array_init_lookup by done. eexists. split; [done|]. apply Z.mod_pos_bound. lia.
  - intros p Hpr. destruct (step_surjective M offset skip p) as (i & Hi & Ei); [lia| |done|].
    + apply rel_prime_sym, prime_rel_prime; [done|]. intros Hd%Z.divide_pos_le; lia.
    + exists i. split; [done|]. rewrite array_init_lookup by done. by rewrite Hval, Ei.
Qed.

(** ** The fill loop *)

Definition empty_at (table : array) (p : Z) : Prop := table !! p = Some (-1).

Lemma advance_spec fuel table perm k :
  is_perm perm -> 0 <= k <= M -> M - k <= Z.of_nat fuel ->
  let k' := advance M fuel table perm k in
  k <= k' <= M /\
  (forall i p, k <= i < k' -> perm !! i = Some p -> ~ empty_at table p) /\
  (k' < M -> exists p, perm !! k' = Some p /\ empty_at table p).
Proof.
  intros [Hr Hsurj]. revert k. induction fuel as [|fuel IH]; intros k Hk Hf; simpl.
  { split_and!; [lia|lia|intros; lia|lia]. }
  destruct (Z.ltb_spec k M); [|split_and!; [lia|lia|intros; lia|lia]].
  destruct (Hr k ltac:(lia)) as (p & Hp & Hpr). rewrite Hp. case_bool_decide as E.
  - split_and!; [lia|lia|intros; lia|by eauto].
  - destruct (IH (k + 1) ltac:(lia) ltac:(lia)) as (Hle & Hfilled & Hfound).
    split_and!; [lia|lia| |done]. intros i q Hi Hq.
    destruct (decide (i = k)) as [->|]; [|apply (Hfilled i); [lia|done]].
    intros He. unfold empty_at in He. congruence.
Qed.

(** [next] has skipped only taken positions. *)
Definition next_ok (table : array) (perms : list array) (next : list Z) : Prop :=
  length next = length perms /\
  forall j perm k, perms !! j = Some perm -> next !! j = Some k ->
    0 <= k <= M /\ forall i p, 0 <= i < k -> perm !! i = Some p -> ~ empty_at table p.

(** What the scan over the first [J] backends has established. *)
Definition scanned (table : array) (perms : list array) (J : nat) (acc : list Z * Z * Z) : Prop :=
  let '(next, minPos, minBackend) := acc in
  next_ok table perms next /\
  ((minBackend = -1 /\ minPos = 2 ^ 64 - 1 /\
    forall j perm k, (j < J)%nat -> perms !! j = Some perm -> next !! j = Some k -> k = M) \/
   (0 <= minBackend < Z.of_nat J /\ empty_at table minPos /\ 0 <= minPos < M /\
    exists perm k, perms !! Z.to_nat minBackend = Some perm /\ next !! Z.to_nat minBackend = Some k /\
      k < M /\ perm !! k = Some minPos)).

Lemma scan_step_spec table perms acc J :
  Forall is_perm perms -> M < 2 ^ 32 -> (J < length perms)%nat ->
  scanned table perms J acc -> scanned table perms (S J) (scan_step M (Z.to_nat M) table perms acc J).
Proof.
  intros Hperms Hsm HJ. destruct acc as [[next minPos] minB]. intros [[Hlen Hok] Hmin]. simpl.
  destruct (lookup_lt_is_Some_2 perms J HJ) as [perm Eperm].
  destruct (lookup_lt_is_Some_2 next J ltac:(lia)) as [k0 Ek0]. rewrite Eperm, Ek0.
  assert (Hperm : is_perm perm) by (by eapply Forall_lookup_1).
  destruct (Hok J perm k0 Eperm Ek0) as [Hk0 Hbefore].
  destruct (advance_spec (Z.to_nat M) table perm k0 Hperm Hk0 ltac:(lia)) as (Hk & Hskip & Hfound).
  set (k := advance M (Z.to_nat M) table perm k0) in *.
  assert (Hok' : next_ok table perms (<[J:=k]> next)).
  { split; [by rewrite length_insert|]. intros j perm' k' Hp' Hk'.
    destruct (decide (j = J)) as [->|Hne].
    - rewrite list_lookup_insert_eq in Hk' by lia. simplify_eq. split; [lia|].
      intros i p Hi Hp. destruct (decide (i < k0)); [by apply (Hbefore i); [lia|]|].
      apply (Hskip i p); [lia|done].
    - rewrite list_lookup_insert_ne in Hk' by done. by apply (Hok j). }
  assert (Hother : forall j, j <> J -> <[J:=k]> next !! j = next !! j)
    by (intros; by rewrite list_lookup_insert_ne).
  assert (HeqJ : <[J:=k]> next !! J = Some k) by (rewrite list_lookup_insert_eq; [done|lia]).
  destruct (Z.ltb_spec k M) as [HkM|HkM].
  - destruct (Hfound HkM) as (p & Hp & Hemp). rewrite Hp.
    assert (Hpr : 0 <= p < M).
    { destruct (proj1 Hperm k ltac:(lia)) as (p' & Hp' & ?). congruence. }
    destruct (Z.ltb_spec p minPos).
    + split; [done|]. right. split_and!; [lia|lia|done|lia|lia|].
      exists perm, k. by rewrite !Nat2Z.id.
    + split; [done|]. right. destruct Hmin as [(-> & -> & _)|(Hb & He & Hmp & perm' & k' & H1 & H2 & H3)]; [lia|].
      split_and!; [lia|lia|done|lia|lia|]. exists perm', k'. by rewrite Hother by lia.
  - split; [done|]. destruct Hmin as [(-> & -> & Hall)|(Hb & He & Hmp & perm' & k' & H1 & H2 & H3)].
    + left. split_and!; [done|done|]. intros j perm' k' Hj Hp' Hk'.
      destruct (decide (j = J)) as [->|Hne]; [rewrite HeqJ in Hk'; simplify_eq; lia|].
      rewrite Hother in Hk' by done. apply (Hall j perm'); [lia|done|done].
    + right. split_and!; [lia|lia|done|lia|lia|]. exists perm', k'. by rewrite Hother by lia.
Qed.

Lemma scan_spec table perms next :
  Forall is_perm perms -> M < 2 ^ 32 -> next_ok table perms next ->
  scanned table perms (length perms) (scan M (Z.to_nat M) table perms next).
Proof.
  intros Hp Hsm Hn. unfold scan.
  assert (H : forall J, (J <= length perms)%nat ->
    scanned table perms J (fold_left (scan_step M (Z.to_nat M) table perms) (seq 0 J) (next, 2 ^ 64 - 1, -1))).
  { induction J as [|J IH]; intros HJ.
    - split; [done|]. left. split_and!; [done|done|intros; lia].
    - rewrite seq_S, fold_left_app. simpl. apply scan_step_spec; [done|done|lia|apply IH; lia]. }
  by apply H.
Qed.

(** An empty position makes a round find one. *)
Lemma scan_finds table perms next p :
  Forall is_perm perms -> perms <> [] -> M < 2 ^ 32 -> next_ok table perms next ->
  0 <= p < M -> empty_at table p ->
  let '(next', minPos, minB) := scan M (Z.to_nat M) table perms next in
  next_ok table perms next' /\ 0 <= minB < Z.of_nat (length perms) /\ empty_at table minPos /\
  0 <= minPos < M /\
  exists perm k, perms !! Z.to_nat minB = Some perm /\ next' !! Z.to_nat minB = Some k /\ k < M /\
    perm !! k = Some minPos.
Proof.
  intros Hp Hne Hsm Hn Hpr He. pose proof (scan_spec table perms next Hp Hsm Hn) as Hs.
  destruct (scan M (Z.to_nat M) table perms next) as [[next' minPos] minB].
  destruct Hs as [Hok [(-> & -> & Hall)|Hfound]]; [exfalso|naive_solver].
  destruct perms as [|perm perms']; [done|].
  destruct (lookup_lt_is_Some_2 next' 0%nat) as [k Hk]; [destruct Hok as [-> _]; simpl; lia|].
  assert (k = M) as -> by (eapply (Hall 0%nat perm); [simpl; lia|done|done]).
  destruct (proj2 (Forall_inv Hp) p Hpr) as (i & Hi & Hip).
  destruct (proj2 Hok 0%nat perm M eq_refl Hk) as [_ Hno]. by apply (Hno i p).
Qed.

(** Number of empty positions. *)
Definition empties (table : array) : nat :=
  countb (fun i => bool_decide (table !! Z.of_nat i = Some (-1))) (seq 0 (Z.to_nat M)).

Lemma countb_flip {A} (f g : A -> bool) (l : list A) x :
  NoDup l -> x ∈ l -> f x = true -> g x = false -> (forall y, y <> x -> f y = g y) ->
  countb f l = S (countb g l).
Proof.
  intros Hnd Hx Hf Hg Heq. induction l as [|y l IH]; [set_solver|].
  apply NoDup_cons in Hnd as [Hy Hnd]. rewrite !countb_cons.
  apply elem_of_cons in Hx as [<-|Hx].
  - rewrite Hf, Hg. simpl. f_equal. clear IH. induction l as [|z l IH]; [done|].
    rewrite !countb_cons, (Heq z) by set_solver. rewrite IH; [done|set_solver|].
    by apply NoDup_cons in Hnd as [_ ?].
  - rewrite (IH Hnd Hx), (Heq y) by set_solver. lia.
Qed.

Definition table_ok (n : nat) (table : array) : Prop :=
  forall p, 0 <= p < M -> exists z, table !! p = Some z /\ -1 <= z < Z.of_nat n.

Lemma fill_round_spec perms table next :
  Forall is_perm perms -> perms <> [] -> M < 2 ^ 32 ->
  next_ok table perms next -> table_ok (length perms) table ->
  let '(table', next') := fill_round M (Z.to_nat M) perms (table, next) in
  next_ok table' perms next' /\ table_ok (length perms) table' /\
  empties table' = pred (empties table).
Proof.
  intros Hp Hne Hsm Hok Ht. unfold fill_round.
  destruct (empties table) as [|e] eqn:Ee.
  { (* no empty position: the scan finds nothing *)
    pose proof (scan_spec table perms next Hp Hsm Hok) as Hs.
    destruct (scan M (Z.to_nat M) table perms next) as [[next' minPos] minB].
    destruct Hs as [Hok' [(-> & _)|(_ & He & Hr & _)]]; [by split_and!|]. exfalso.
    assert (Hin : (1 <= empties table)%nat); [|lia].
    apply (countb_pos _ _ (Z.to_nat minPos) (Z.to_nat minPos)).
    - apply lookup_seq_lt. lia.
    - rewrite Z2Nat.id by lia. by apply bool_decide_true. }
  assert (Hex : exists p, 0 <= p < M /\ empty_at table p).
  { unfold empties, countb in Ee.
    destruct (List.filter _ (seq 0 (Z.to_nat M))) as [|i l] eqn:Ef; [done|].
    assert (Hi : i ∈ List.filter (fun i => bool_decide (table !! Z.of_nat i = Some (-1))) (seq 0 (Z.to_nat M)))
      by (rewrite Ef; set_solver).
    apply filter_in in Hi as [Hi E]. apply elem_of_seq in Hi. b2p. exists (Z.of_nat i). split; [lia|done]. }
  destruct Hex as (p & Hpr & Hpe).
  pose proof (scan_finds table perms next p Hp Hne Hsm Hok Hpr Hpe) as Hs.
  destruct (scan M (Z.to_nat M) table perms next) as [[next' minPos] minB].
  destruct Hs as ([Hlen Hok'] & HB & He & Hr & perm & k & Hperm & Hk & HkM & Hpk).
  rewrite (proj2 (Z.leb_le 0 minB)), Hk by lia.
  assert (Hkeep : forall q, ~ empty_at table q -> ~ empty_at (<[minPos:=minB]> table) q).
  { intros q Hq. unfold empty_at. destruct (decide (q = minPos)) as [->|Hqn].
    - rewrite lookup_insert_eq. intros [= E]. lia.
    - by rewrite lookup_insert_ne. }
  split_and!.
  - split; [by rewrite length_insert|]. intros j perm' k' Hp' Hk'.
    destruct (decide (j = Z.to_nat minB)) as [->|Hnj].
    + rewrite list_lookup_insert_eq in Hk' by (eapply lookup_lt_Some; done).
      simplify_eq. destruct (Hok' _ _ _ Hperm Hk) as [Hkr Hno]. split; [lia|].
      intros i q Hi Hq. destruct (decide (i = k)) as [->|]; [|apply Hkeep, (Hno i); [lia|done]].
      rewrite Hpk in Hq. injection Hq as <-. unfold empty_at. rewrite lookup_insert_eq.
      intros [= E]. lia.
    + rewrite list_lookup_insert_ne in Hk' by done. destruct (Hok' _ _ _ Hp' Hk') as [Hkr Hno].
      split; [done|]. intros i q Hi Hq. by apply Hkeep, (Hno i).
  - intros q Hq. destruct (decide (q = minPos)) as [->|Hqn].
    + rewrite lookup_insert_eq. exists minB. split; [done|lia].
    + rewrite lookup_insert_ne by done. by apply Ht.
  - simpl. enough (empties table = S (empties (<[minPos:=minB]> table))) by lia.
    apply (countb_flip _ _ _ (Z.to_nat minPos)).
    + apply NoDup_seq.
    + apply elem_of_seq. lia.
    + rewrite Z2Nat.id by lia. by apply bool_decide_true.
    + rewrite Z2Nat.id by lia. rewrite lookup_insert_eq. apply bool_decide_false. intros [= E]. lia.
    + intros y Hy. by rewrite lookup_insert_ne by lia.
Qed.

Lemma fill_spec perms p :
  Forall is_perm perms -> perms <> [] -> M < 2 ^ 32 -> 0 <= p < M ->
  exists z, fill M perms !! p = Some z /\ 0 <= z < Z.of_nat (length perms).
Proof.
  intros Hp Hne Hsm Hpr. unfold fill.
  assert (H : forall r, let '(table, next) :=
      Nat.iter r (fill_round M (Z.to_nat M) perms) (array_init M (fun _ => -1), replicate (length perms) 0) in
    next_ok table perms next /\ table_ok (length perms) table /\ empties table = (Z.to_nat M - r)%nat).
  { induction r as [|r IH]; simpl.
    - split_and!.
      + split; [by rewrite length_replicate|]. intros j perm k _ Hk.
        apply lookup_replicate in Hk as [-> _]. split; [lia|intros; lia].
      + intros q Hq. rewrite array_init_lookup by done. exists (-1). split; [done|lia].
      + unfold empties, countb. rewrite filter_all; [by rewrite length_seq, Nat.sub_0_r|].
        intros i Hi%elem_of_seq. rewrite array_init_lookup by lia. by apply bool_decide_true.
    - destruct (Nat.iter r _ _) as [table next]. destruct IH as (H1 & H2 & H3).
      pose proof (fill_round_spec perms table next Hp Hne Hsm H1 H2) as HR.
      destruct (fill_round M (Z.to_nat M) perms (table, next)) as [table' next'].
      destruct HR as (H1' & H2' & H3'). split_and!; [done|done|lia]. }
  specialize (H (Z.to_nat M)). destruct (Nat.iter (Z.to_nat M) _ _) as [table next]. destruct H as (_ & Ht & He).
  simpl. destruct (Ht p Hpr) as (z & Hz & Hzr). exists z. split; [done|].
  destruct (decide (z = -1)) as [->|]; [|lia]. exfalso.
  assert (Hin : (1 <= empties table)%nat); [|lia].
  apply (countb_pos _ _ (Z.to_nat p) (Z.to_nat p)).
  - apply lookup_seq_lt. lia.
  - rewrite Z2Nat.id by lia. by apply bool_decide_true.
Qed.
End Fill.

(** ** The size of the table is prime *)

Lemma prime_by_trial (n b : Z) :
  1 < n -> n < b * b -> 0 <= b ->
  forallb (fun i => negb (n mod Z.of_nat i =? 0)) (seq 2 (Z.to_nat b - 2)) = true -> prime n.
Proof.
  intros Hn Hb Hb0 Htrial. apply prime_alt. split; [done|]. intros d Hd Hdiv.
  assert (Hno : forall e, 1 < e < b -> ~ (e | n)).
  { intros e He Hed. rewrite forallb_forall in Htrial.
    specialize (Htrial (Z.to_nat e)). rewrite Z2Nat.id in Htrial by lia.
    apply Z.mod_divide in Hed; [|lia]. rewrite Hed in Htrial. simpl in Htrial.
    assert (false = true); [|done]. apply Htrial. apply List.in_seq. lia. }
  destruct Hdiv as [q Hq]. destruct (decide (d < b)) as [Hdb|Hdb].
  - apply (Hno d); [lia|]. by exists q.
  - apply (Hno q); [nia|]. exists d. lia.
Qed.

Lemma MaglevTableSize_prime : prime (MaglevTableSize).
Proof.
  apply (prime_by_trial _ 257); [done|done|lia|vm_compute; reflexivity].
Qed.

(** C31: rebuilding the Maglev lookup table terminates with every position owned
    by a registered backend: the [MaglevTableSize] rounds leave no slot at [-1], so
    the lookup of [Next] always finds an owner. *)
Theorem maglev_rebuild_fills h m pos :
  needRebuild m = true -> backends m <> [] -> 0 <= pos < MaglevTableSize ->
  exists q, owner (rebuildLocked MaglevTableSize h m) pos = Some q /\ q ∈ backends m.
Proof.
  intros Hr Hne Hpos. unfold rebuildLocked. rewrite Hr. cbn [negb].
  set (perms := (fun b => generatePermutation MaglevTableSize h b) <$> backends m).
  destruct (fill_spec MaglevTableSize perms pos) as (z & Hz & Hzr); [| | |done|].
  - apply Forall_fmap, Forall_forall. intros b _.
    apply generatePermutation_is_perm; [exact MaglevTableSize_prime|].
    done.
  - subst perms. by destruct (backends m).
  - done.
  - subst perms. rewrite length_fmap in Hzr.
    destruct (lookup_lt_is_Some_2 (backends m) (Z.to_nat z)) as [q Hq]; [lia|].
    exists q. split; [|by eapply list_elem_of_lookup_2]. unfold owner.
    destruct (backends m) as [|b l] eqn:Eb; [done|]. cbn [lookupTable Maglev.backends].
    rewrite Hz, (proj2 (Z.ltb_ge z 0)) by lia. done.
Qed.

Lemma maglev_rebuild_fills_witness :
  let m := Add MaglevTableSize abc_heap 1%nat (Add MaglevTableSize abc_heap 0%nat
             (NewMaglev MaglevTableSize)) in
  exists q, owner (rebuildLocked MaglevTableSize abc_heap m) 12345 = Some q /\ q ∈ [0; 1]%nat.
Proof.
  intros m. apply (maglev_rebuild_fills abc_heap m 12345); [reflexivity|discriminate|].
  split; [discriminate|reflexivity].
Defined.

(** ** The balancer interface *)

Lemma walk_in M h bs m start n i p : walk M h bs m start n i = Some p -> p ∈ bs.
Proof.
  revert i. induction n as [|n IH]; intros i; simpl; [done|].
  destruct (owner m _) as [q|]; [|by apply IH]. destruct (available h bs _); [|by apply IH].
  match goal with |- context [List.find ?f ?k] => destruct (List.find f k) eqn:Ef end; [|by apply IH].
  intros [= <-]. apply List.find_some in Ef as [Hin _]. by apply list_elem_of_In.
Qed.

Lemma Maglev_Next_in M h ctx bs m p m' : Next M h ctx bs m = (Some p, m') -> p ∈ bs.
Proof.
  unfold Next. destruct (_ || _)%bool; [done|].
  set (m1 := if needRebuild m then _ else _).
  destruct (if bool_decide (match ctx with Some c => ClientIP c | None => "" end = "") then _ else _)
    as [key m2].
  destruct (owner m2 _) as [q|]; [|done].
  match goal with |- context [List.find ?f ?k] => destruct (List.find f k) eqn:Ef end.
  - apply List.find_some in Ef as [Hin _]. intros [= <- _]. by apply list_elem_of_In.
  - unfold findNextAvailable. case_bool_decide; [done|]. destruct (negb _); [done|].
    intros [= Hw _]. by apply walk_in in Hw.
Qed.

#[export] Instance Maglev_laws : BalancerLaws Maglev.t.
Proof. constructor. intros h ctx bs s p s' H. exact (Maglev_Next_in MaglevTableSize h ctx bs s p s' H). Qed.
