(* ===== verification/Sticky.v ===== *)
(** * Session affinity: [internal/balancer/sticky.go]

    [Sticky] wraps a base balancer, here any instance of [Balancer].  The readings
    of the clock and of the random source are arguments; each method takes one
    reading per call of [time.Now] or [time.Since] that it makes. *)
From S2P Require Import Prelude Http Backend BackendPool HashRing Balancers BalancersFacts HashRingFacts.
From Stdlib Require Import Ascii.

Module Sticky.

Inductive StickyMode := StickyModeCookie | StickyModeHeader | StickyModeParam.

Inductive SameSite := SameSiteDefaultMode | SameSiteLaxMode | SameSiteStrictMode | SameSiteNoneMode.

Record StickyConfig := mkConfig {
  Mode : StickyMode;
  CookieName : string;
  CookiePath : string;
  CookieMaxAge : Z;
  CookieSecure : bool;
  CookieHttpOnly : bool;
  CookieSameSite : SameSite;
  HeaderName : string;
  ParamName : string;
  MaxSessions : Z;
  SessionTTL : Z   (* nanoseconds *)
}.

Definition Hour : Z := 3600000000000.

Definition DefaultStickyConfig : StickyConfig :=
  mkConfig StickyModeCookie "OLB_SRV" "/" 0 true true SameSiteLaxMode "X-Backend-ID" "backend" 100000 Hour.

Record stickyEntry := mkEntry { backendID : string; createdAt : Z }.

Record t (B : Type) := mk { base : B; config : StickyConfig; sessions : gmap string stickyEntry }.
Arguments mk {B}.
Arguments base {B}.
Arguments config {B}.
Arguments sessions {B}.

(** ** Session IDs *)

Definition base36_digits : string := "0123456789abcdefghijklmnopqrstuvwxyz".

(** The digit loop; the 32 bytes of the buffer bound it. *)
Fixpoint base36_loop (fuel : nat) (n : Z) (buf : string) : string :=
  match fuel with
  | O => buf
  | S fuel =>
      if 0 <? n then
        match String.get (Z.to_nat (Z.rem n 36)) base36_digits with
        | Some c => base36_loop fuel (Z.quot n 36) (String c buf)
        | None => buf
        end
      else buf
  end.

Definition encodeBase36 (n : Z) : string := if n =? 0 then "0" else base36_loop 32 n "".

Definition hex_digits : string := "0123456789abcdef".

Definition hex_digit (n : Z) : string :=
  match String.get (Z.to_nat n) hex_digits with Some c => String c "" | None => "" end.

(** [hex.EncodeToString] *)
Fixpoint hex_encode (bs : list Z) : string :=
  match bs with
  | [] => ""
  | b :: r => hex_digit (Z.shiftr b 4) +:+ hex_digit (Z.land b 15) +:+ hex_encode r
  end.

(** [rnd] is what [crypto/rand] delivers ([None]: an error), [now] the time in
    nanoseconds and [ctr] the package's [sessionCounter]. *)
Definition generateRandomID (rnd : option (list Z)) (now ctr : Z) : string * Z :=
  match rnd with
  | Some b => (hex_encode b, ctr)
  | None =>
      let ctr := u64 (ctr + 1) in
      (encodeBase36 now +:+ encodeBase36 (i64 ctr), ctr)
  end.

Definition generateSessionID := generateRandomID.

Section Operations.
Context {B : Type} `{Balancer B} `{!MapRange}.

Definition NewSticky (b : B) (cfg : option StickyConfig) : t B :=
  mk b (match cfg with Some c => c | None => DefaultStickyConfig end) ∅.

Definition set_sessions (m : gmap string stickyEntry) (s : t B) : t B := mk (base s) (config s) m.

Definition set_base (b : B) (s : t B) : t B := mk b (config s) (sessions s).

Definition extractSessionID (s : t B) (r : Request) : string :=
  match Mode (config s) with
  | StickyModeCookie =>
      match Cookie (CookieName (config s)) r with Some v => v | None => "" end
  | StickyModeHeader => Header_Get (Header r) (HeaderName (config s))
  | StickyModeParam => Query_Get (ParamName (config s)) r
  end.

(** The oldest entry: the first of the enumeration with the least [createdAt]. *)
Definition oldest (m : gmap string stickyEntry) : option (string * Z) :=
  fold_left (fun acc '(id, entry) =>
    match acc with
    | None => Some (id, createdAt entry)
    | Some (_, oldestTime) =>
        if createdAt entry <? oldestTime then Some (id, createdAt entry) else acc
    end) (map_range m) None.

Definition expired (cfg : StickyConfig) (now : Z) (e : stickyEntry) : bool :=
  ((0 <? SessionTTL cfg) && (SessionTTL cfg <? now - createdAt e))%bool.

Definition maxSessions (cfg : StickyConfig) : Z :=
  if MaxSessions cfg <=? 0 then 100000 else MaxSessions cfg.

Definition evictIfNeeded (now : Z) (s : t B) : t B :=
  let m := if 0 <? SessionTTL (config s)
           then filter (fun kv => expired (config s) now (snd kv) = false) (sessions s)
           else sessions s in
  let m := if maxSessions (config s) <=? Z.of_nat (size m) then
             match oldest m with
             | Some (oldestID, _) => if bool_decide (oldestID = "") then m else delete oldestID m
             | None => m
             end
           else m in
  set_sessions m s.

(** The first half of [Next] and [SelectAndStick], for a non-empty session ID: the
    backend of the session if it can be used; otherwise the stale entry is dropped. *)
Definition lookup_session (h : heap) (now : Z) (sessionID : string) (bs : list ptr) (s : t B)
    : option ptr * t B :=
  match sessions s !! sessionID with
  | None => (None, s)
  | Some entry =>
      if expired (config s) now entry then (None, set_sessions (delete sessionID (sessions s)) s)
      else
        match List.find (fun b => bool_decide (ID (h b) = backendID entry) && IsAvailable (h b))%bool bs with
        | Some b => (Some b, s)
        | None => (None, set_sessions (delete sessionID (sessions s)) s)
        end
  end.

(** Storing the session of a selected backend. *)
Definition store_session (h : heap) (nowEvict nowStore : Z) (sessionID : string) (b : ptr) (s : t B) : t B :=
  let s := evictIfNeeded nowEvict s in
  set_sessions (<[sessionID := mkEntry (ID (h b)) nowStore]> (sessions s)) s.

Definition Next (now nowEvict nowStore : Z) (h : heap) (ctx : option RequestContext) (bs : list ptr)
    (s : t B) : option ptr * t B :=
  match bs with
  | [] => (None, s)
  | _ =>
      let sessionID :=
        match ctx with
        | Some c => match CtxRequest c with Some r => extractSessionID s r | None => "" end
        | None => ""
        end in
      let '(found, s) :=
        if bool_decide (sessionID = "") then (None, s) else lookup_session h now sessionID bs s in
      match found with
      | Some b => (Some b, s)
      | None =>
          let '(selected, b') := bal_Next h ctx bs (base s) in
          let s := set_base b' s in
          match selected with
          | Some b =>
              if bool_decide (sessionID = "") then (Some b, s)
              else (Some b, store_session h nowEvict nowStore sessionID b s)
          | None => (None, s)
          end
      end
  end.

Definition NextWithRequest (now nowEvict nowStore : Z) (h : heap) (bs : list ptr) (r : option Request)
    (s : t B) : option ptr * t B :=
  Next now nowEvict nowStore h (Some (mkRequestContext "" r)) bs s.

Definition SelectAndStick (now nowEvict nowStore : Z) (newID : string) (h : heap) (bs : list ptr)
    (r : Request) (s : t B) : option ptr * string * t B :=
  match bs with
  | [] => (None, "", s)
  | _ =>
      let sessionID := extractSessionID s r in
      let '(found, s) :=
        if bool_decide (sessionID = "") then (None, s) else lookup_session h now sessionID bs s in
      match found with
      | Some b => (Some b, sessionID, s)
      | None =>
          let sessionID := if bool_decide (sessionID = "") then newID else sessionID in
          let '(selected, b') := bal_Next h (Some (mkRequestContext "" (Some r))) bs (base s) in
          let s := set_base b' s in
          match selected with
          | Some b => (Some b, sessionID, store_session h nowEvict nowStore sessionID b s)
          | None => (None, sessionID, s)
          end
      end
  end.

(** ** Cookies of the response *)

Record SetCookieHeader := mkCookie {
  ck_Name : string; ck_Value : string; ck_Path : string; ck_MaxAge : Z; ck_Expires : option Z;
  ck_Secure : bool; ck_HttpOnly : bool; ck_SameSite : SameSite
}.

Definition is_cookie_mode (m : StickyMode) : bool :=
  match m with StickyModeCookie => true | _ => false end.

Definition SetCookie (s : t B) (sessionID : string) (now : Z) : option SetCookieHeader :=
  let c := config s in
  if (negb (is_cookie_mode (Mode c)) || bool_decide (sessionID = ""))%bool then None
  else Some (mkCookie (CookieName c) sessionID (CookiePath c) (CookieMaxAge c)
    (if 0 <? CookieMaxAge c then Some (now + i64 (CookieMaxAge c * 1000000000)) else None)
    (CookieSecure c) (CookieHttpOnly c) (CookieSameSite c)).

Definition ClearCookie (s : t B) : option SetCookieHeader :=
  let c := config s in
  if negb (is_cookie_mode (Mode c)) then None
  else Some (mkCookie (CookieName c) "" (CookiePath c) (-1) (Some 0)
    (CookieSecure c) (CookieHttpOnly c) (CookieSameSite c)).

(** ** The rest of the interface *)

Definition Add (h : heap) (b : ptr) (s : t B) : t B := set_base (bal_Add h b (base s)) s.

Definition Remove (h : heap) (id : string) (s : t B) : t B :=
  mk (bal_Remove h id (base s)) (config s)
     (filter (fun kv => backendID (snd kv) <> id) (sessions s)).

Definition Update (h : heap) (b : ptr) (s : t B) : t B := set_base (bal_Update h b (base s)) s.

Definition GetSessionBackend (s : t B) (sessionID : string) : string * bool :=
  match sessions s !! sessionID with
  | Some e => (backendID e, true)
  | None => ("", false)
  end.

Definition ClearSession (sessionID : string) (s : t B) : t B :=
  set_sessions (delete sessionID (sessions s)) s.

Definition SessionCount (s : t B) : Z := Z.of_nat (size (sessions s)).

Definition CleanupSessions (availableBackends : gmap string bool) (now : Z) (s : t B) : t B :=
  set_sessions (filter (fun kv =>
    availableBackends !! backendID (snd kv) = Some true /\ expired (config s) now (snd kv) = false)
    (sessions s)) s.
End Operations.
End Sticky.

Import Sticky.

Section StickyFacts.
Context {B : Type} `{Balancer B} `{!MapRange}.
Implicit Types (s : t B) (m : gmap string stickyEntry).

(** The oldest entry of a non-empty map is one of its entries. *)
Lemma oldest_in m : m <> ∅ -> exists id z, oldest m = Some (id, z) /\ is_Some (m !! id).
Proof.
  intros Hm. unfold oldest.
  assert (Hl : forall l : list (string * stickyEntry), forall acc,
    (acc = None -> l <> []) ->
    exists id z, fold_left (fun acc '(id, entry) =>
      match acc with
      | None => Some (id, createdAt entry)
      | Some (_, oldestTime) =>
          if createdAt entry <? oldestTime then Some (id, createdAt entry) else acc
      end) l acc = Some (id, z) /\ (id ∈ l.*1 \/ exists z', acc = Some (id, z'))).
  { induction l as [|[id e] l IH]; intros acc Hacc; simpl.
    { destruct acc as [[id z]|]; [|by destruct Hacc]. exists id, z. eauto. }
    edestruct IH as (id' & z' & E & Hin); [|rewrite E; exists id', z'; split; [done|]].
    - destruct acc as [[? ?]|]; [case_match|]; done.
    - destruct Hin as [Hin|[z'' Hz]]; [set_solver|].
      destruct acc as [[i0 z0]|]; [case_match|]; simplify_eq; first [left; set_solver | right; eauto]. }
  destruct (Hl (map_range m) None) as (id & z & E & [Hin|[? [=]]]).
  - intros _ Hn. apply Hm, map_to_list_empty_iff, Permutation_nil_r. by rewrite <- map_range_perm, Hn.
  - exists id, z. split; [done|]. apply list_elem_of_fmap in Hin as ([k e] & -> & Hin).
    rewrite map_range_perm in Hin. apply elem_of_map_to_list in Hin. by exists e.
Qed.

Lemma size_filter_le (P : string * stickyEntry -> Prop) `{!forall x, Decision (P x)} m :
  (size (filter P m) <= size m)%nat.
Proof. apply map_subseteq_size, map_filter_subseteq. Qed.

(** The sessions stay within the configured bound, and no session has the empty ID. *)
Definition bounded s : Prop :=
  SessionCount s <= maxSessions (config s) /\ sessions s !! "" = None.

Lemma maxSessions_pos cfg : 0 < maxSessions cfg.
Proof. unfold maxSessions. destruct (Z.leb_spec (MaxSessions cfg) 0); lia. Qed.

Lemma bounded_filter (P : string * stickyEntry -> Prop) `{!forall x, Decision (P x)} s :
  bounded s -> bounded (set_sessions (filter P (sessions s)) s).
Proof.
  intros [Hs He]. split; unfold SessionCount in *; simpl.
  - pose proof (size_filter_le P (sessions s)). lia.
  - apply map_lookup_filter_None. by left.
Qed.

Lemma bounded_delete id s : bounded s -> bounded (set_sessions (delete id (sessions s)) s).
Proof.
  intros [Hs He]. split; unfold SessionCount in *; simpl.
  - pose proof (map_subseteq_size _ _ (delete_subseteq (sessions s) id)). lia.
  - rewrite lookup_delete_None. by right.
Qed.

Lemma evictIfNeeded_room now s :
  bounded s -> bounded (evictIfNeeded now s) /\
  SessionCount (evictIfNeeded now s) < maxSessions (config s).
Proof.
  intros Hb. unfold evictIfNeeded.
  set (m := if 0 <? SessionTTL (config s) then _ else _).
  assert (Hm : bounded (set_sessions m s)).
  { subst m. destruct (0 <? SessionTTL (config s)); [by apply bounded_filter|by destruct s]. }
  pose proof (maxSessions_pos (config s)). destruct Hm as [Hs He]. unfold bounded, SessionCount in *. simpl in *.
  destruct (Z.leb_spec (maxSessions (config s)) (Z.of_nat (size m))); [|split; [by split|lia]].
  destruct (oldest_in m) as (id & z & -> & e & Hid).
  { intros E. rewrite E, map_size_empty in *. lia. }
  rewrite bool_decide_false by congruence. rewrite map_size_delete_Some by eauto.
  assert (size m <> 0%nat) by (rewrite map_size_non_empty_iff; intros E; by rewrite E, lookup_empty in Hid).
  split; [split|]; [lia| |lia]. rewrite lookup_delete_None. by right.
Qed.

Lemma store_session_bounded h now now' sid b s :
  sid <> "" -> bounded s -> bounded (store_session h now now' sid b s).
Proof.
  intros Hsid Hb. destruct (evictIfNeeded_room now s Hb) as [[_ He] Hroom].
  assert (Hc : config (evictIfNeeded now s) = config s) by done.
  unfold store_session. generalize dependent (evictIfNeeded now s). intros s' He Hroom Hc.
  split; unfold SessionCount in *; simpl.
  - rewrite map_size_insert, Hc. destruct (sessions s' !! sid); unfold id; lia.
  - by rewrite lookup_insert_ne.
Qed.

Lemma lookup_session_bounded h now sid bs s :
  bounded s -> bounded (snd (lookup_session h now sid bs s)).
Proof.
  intros Hb. unfold lookup_session. repeat (case_match; simpl); try done; by apply bounded_delete.
Qed.

Lemma lookup_session_config h now sid bs s : config (snd (lookup_session h now sid bs s)) = config s.
Proof. unfold lookup_session. by repeat (case_match; simpl). Qed.

Lemma lookup_session_found h now sid bs s p s' :
  lookup_session h now sid bs s = (Some p, s') ->
  s' = s /\ p ∈ bs /\ exists e, sessions s !! sid = Some e /\ backendID e = ID (h p).
Proof.
  unfold lookup_session. destruct (sessions s !! sid) as [e|]; [|done]. case_match; [done|].
  destruct (List.find _ bs) as [q|] eqn:E; [|done]. intros [= <- <-].
  apply List.find_some in E as [Hin E]. b2p. split_and!; [done|by apply list_elem_of_In|]. by exists e.
Qed.

Lemma lookup_session_hit h now sid bs s e p :
  sessions s !! sid = Some e -> expired (config s) now e = false -> backendID e = ID (h p) ->
  p ∈ bs -> IsAvailable (h p) = true -> NoDup ((fun b => ID (h b)) <$> bs) ->
  lookup_session h now sid bs s = (Some p, s).
Proof.
  intros He Hx Hid Hp Ha Hnd. unfold lookup_session. rewrite He, Hx, Hid.
  pose proof (offered_None h bs (ID (h p)) p) as Hno.
  fold (offered h bs (ID (h p))). destruct (offered h bs (ID (h p))) as [q|] eqn:E.
  - apply offered_Some in E as (Hq & Eq & _). do 2 f_equal. by apply (nodup_fmap_eq (fun b => ID (h b)) bs).
  - by destruct Hno.
Qed.
End StickyFacts.

(** session affinity.  When [Next] answers a request that carries a session
    ID with a backend [p], the session is bound to [p], and as long as the entry has
    not expired and [p] is offered and available, every later request of the
    session is answered with [p], whatever the base balancer would select. *)
Theorem sticky_affinity {B} `{Balancer B} `{!MapRange} (s s1 : t B)
    (now now' now'' : Z) h ip r bs p :
  extractSessionID s r <> "" ->
  Next now now' now'' h (Some (mkRequestContext ip (Some r))) bs s = (Some p, s1) ->
  exists e, sessions s1 !! extractSessionID s r = Some e /\ backendID e = ID (h p) /\
    forall later later' later'' h2 ip2 bs2,
      expired (config s) later e = false ->
      p ∈ bs2 -> IsAvailable (h2 p) = true -> ID (h2 p) = ID (h p) ->
      NoDup ((fun b => ID (h2 b)) <$> bs2) ->
      Next later later' later'' h2 (Some (mkRequestContext ip2 (Some r))) bs2 s1 = (Some p, s1).
Proof.
  intros Hsid HN.
  assert (Hbound : config s1 = config s /\
    exists e, sessions s1 !! extractSessionID s r = Some e /\ backendID e = ID (h p)).
  { revert HN. unfold Next. destruct bs as [|b0 l]; [done|]. cbn [CtxRequest].
    rewrite bool_decide_false by done.
    destruct (lookup_session h now (extractSessionID s r) (b0 :: l) s) as [found s'] eqn:El.
    pose proof (lookup_session_config h now (extractSessionID s r) (b0 :: l) s) as Hc.
    rewrite El in Hc. simpl in Hc. destruct found as [b|].
    - intros [= <- <-]. by apply lookup_session_found in El as (-> & _ & He).
    - destruct (bal_Next h _ (b0 :: l) (base s')) as [[b|] b'] eqn:Eb; intros HN; [|done].
      injection HN as <- <-. split; [exact Hc|]. eexists. split; [apply lookup_insert_eq|done]. }
  destruct Hbound as (Hc & e & He & Hid). exists e. split_and!; [done|done|].
  intros later later' later'' h2 ip2 bs2 Hexp Hp Ha Hidp Hnd.
  assert (Hx : extractSessionID s1 r = extractSessionID s r) by (unfold extractSessionID; by rewrite Hc).
  unfold Next. destruct bs2 as [|b0 l] eqn:Eb; [set_solver|]. rewrite <- Eb in *. cbn [CtxRequest].
  rewrite Hx, bool_decide_false by done.
  rewrite (lookup_session_hit h2 later _ bs2 s1 e p); [done|done| |congruence|done|done|done].
  by rewrite Hc.
Qed.

(** the number of sessions never exceeds the configured maximum: every
    operation keeps it within [MaxSessions] (100000 when that is not positive). *)
Theorem sticky_sessions_bounded {B} `{Balancer B} `{!MapRange} (s : t B) :
  bounded s ->
  (forall now now' now'' h ctx bs, bounded (snd (Next now now' now'' h ctx bs s))) /\
  (forall now now' now'' newID h bs r, newID <> "" ->
     bounded (snd (SelectAndStick now now' now'' newID h bs r s))) /\
  (forall h b, bounded (Add h b s)) /\ (forall h id, bounded (Remove h id s)) /\
  (forall sid, bounded (ClearSession sid s)) /\
  (forall av now, bounded (CleanupSessions av now s)).
Proof.
  intros Hb. split_and!; intros.
  - unfold Next. destruct bs as [|b0 l]; [done|].
    set (sid := match ctx with Some _ => _ | None => _ end).
    case_bool_decide as Hsid.
    + destruct (bal_Next h ctx _ _) as [[b|] b']; exact Hb.
    + pose proof (lookup_session_bounded h now sid (b0 :: l) s Hb) as Hl.
      destruct (lookup_session h now sid (b0 :: l) s) as [[b|] s']; [done|].
      destruct (bal_Next h ctx _ _) as [[b|] b']; [|done]. by apply store_session_bounded.
  - unfold SelectAndStick. destruct bs as [|b0 l]; [done|].
    set (sid := extractSessionID s r). case_bool_decide as Hsid.
    + destruct (bal_Next h _ _ _) as [[b|] b']; [by apply store_session_bounded|exact Hb].
    + pose proof (lookup_session_bounded h now sid (b0 :: l) s Hb) as Hl.
      destruct (lookup_session h now sid (b0 :: l) s) as [[b|] s']; [done|].
      destruct (bal_Next h _ _ _) as [[b|] b']; [|done]. by apply store_session_bounded.
  - exact Hb.
  - exact (bounded_filter (fun kv => backendID (snd kv) <> id) s Hb).
  - by apply bounded_delete.
  - by apply bounded_filter.
Qed.

#[local] Existing Instance gmap_range.

Definition demo_request : Request :=
  mkRequest "GET" "example.com" "" "/" ∅ [("OLB_SRV", "s1")] [].

Lemma sticky_affinity_witness :
  let s := NewSticky RoundRobin.NewRoundRobin None in
  let s1 := snd (Next 5 5 5 abc_heap (Some (mkRequestContext "" (Some demo_request))) [0; 1]%nat s) in
  fst (Next 9 9 9 abc_heap (Some (mkRequestContext "" (Some demo_request))) [1; 0]%nat s1) = Some 0%nat.
Proof.
  intros s s1.
  assert (E : Next 5 5 5 abc_heap (Some (mkRequestContext "" (Some demo_request))) [0; 1]%nat s
    = (Some 0%nat, s1)) by reflexivity.
  destruct (sticky_affinity s s1 5 5 5 abc_heap "" demo_request [0; 1]%nat 0%nat
    ltac:(vm_compute; congruence) E) as (e & He & Hid & Hlater).
  rewrite Hlater; [reflexivity| |set_solver|reflexivity|reflexivity|].
  - assert (He' : sessions s1 !! extractSessionID s demo_request = Some (mkEntry "a" 5))
      by (vm_compute; reflexivity).
    rewrite He in He'. injection He' as ->. vm_compute. reflexivity.
  - apply (bool_decide_unpack _). vm_compute. exact I.
Defined.

Lemma sticky_sessions_bounded_witness :
  bounded (snd (Next 5 5 5 abc_heap (Some (mkRequestContext "" (Some demo_request))) [0; 1]%nat
    (NewSticky RoundRobin.NewRoundRobin None))).
Proof.
  apply (proj1 (sticky_sessions_bounded (NewSticky RoundRobin.NewRoundRobin None)
    ltac:(split; [vm_compute; congruence|vm_compute; reflexivity]))).
Defined.
