(* ===== verification/Radix.v ===== *)
(** * The path trie of the router: [internal/router/radix.go]

    A node is a value with a finite map of children; the operations return the
    changed node, on their error paths too, so that a theorem can say what an error
    leaves behind.  The stored values have any type [V].  [Match] threads the map
    of captured parameters as the code threads its shared map. *)
From S2P Require Import Prelude Http.
From Stdlib Require Import Ascii.

(** ** [%q] of [fmt.Errorf], on strings whose non-ASCII runes are printable *)

Definition hex2 (n : nat) : string :=
  let d k := match String.get k "0123456789abcdef" with Some c => String c "" | None => "" end in
  d (n / 16)%nat +:+ d (n mod 16)%nat.

Definition quote_byte (c : ascii) : string :=
  match nat_of_ascii c with
  | 34%nat => "\" +:+ String c ""
  | 92%nat => "\\"
  | 7%nat => "\a" | 8%nat => "\b" | 12%nat => "\f" | 10%nat => "\n"
  | 13%nat => "\r" | 9%nat => "\t" | 11%nat => "\v"
  | n => if ((n <? 32) || (n =? 127))%nat then "\x" +:+ hex2 n else String c ""
  end.

Fixpoint quote_body (s : string) : string :=
  match s with
  | EmptyString => ""
  | String c r => quote_byte c +:+ quote_body r
  end.

Definition dquote : string := String (ascii_of_nat 34) "".
Definition Quote (s : string) : string := dquote +:+ quote_body s +:+ dquote.

(** ** Nodes *)

Section Trie.
Context {V : Type}.

Inductive radixNode := mkNode {
  segment : string;
  children : gmap string radixNode;
  isEndpoint : bool;
  value : option V;
  paramName : string;
  isWildcard : bool
}.

Definition set_children (m : gmap string radixNode) (n : radixNode) : radixNode :=
  mkNode (segment n) m (isEndpoint n) (value n) (paramName n) (isWildcard n).

Definition set_endpoint (e : bool) (v : option V) (n : radixNode) : radixNode :=
  mkNode (segment n) (children n) e v (paramName n) (isWildcard n).

(** The root of [NewRadixTrie]; [NewTrie] is an alias. *)
Definition NewRadixTrie : radixNode := mkNode "" ∅ false None "" false.

(** ** Paths *)

Definition splitPath (path : string) : list string :=
  if bool_decide (path = "/") then []
  else
    let path := if starts_with "/"%char path then tail path else path in
    List.filter (fun part => negb (bool_decide (part = ""))) (Split "/"%char path).

(** Removal of one trailing slash, except for the root. *)
Definition trim_slash (path : string) : string :=
  if ((1 <? String.length path)%nat && ends_with "/"%char path)%bool then init path else path.

(** ** [Insert] *)

(** The key under which a segment's node is kept, its parameter name, and whether
    it is a wildcard. *)
Definition segment_key (seg : string) : string * string * bool :=
  if starts_with ":"%char seg then (":", tail seg, false)
  else if starts_with "*"%char seg then
    ("*", (if bool_decide (tail seg = "") then "path" else tail seg), true)
  else (seg, "", false).

(** [index] only serves the error message. *)
Fixpoint insertSegments (node : radixNode) (segments : list string) (index : nat) (v : V)
    : option string * radixNode :=
  match segments with
  | [] => (None, set_endpoint true (Some v) node)
  | seg :: rest =>
      let '(key, pname, wild) := segment_key seg in
      let go (child : radixNode) : option string * radixNode :=
        match rest with
        | [] => (None, set_children (<[key := set_endpoint true (Some v) child]> (children node)) node)
        | _ =>
            let '(err, child') := insertSegments child rest (S index) v in
            (err, set_children (<[key := child']> (children node)) node)
        end in
      match children node !! key with
      | None => go (mkNode seg ∅ false None pname wild)
      | Some child =>
          if ((bool_decide (key = ":") || bool_decide (key = "*")) &&
              negb (bool_decide (paramName child = pname)))%bool
          then (Some ("conflicting parameter name " +:+ Quote pname +:+ " at position "
                      +:+ pretty (Z.of_nat index) +:+ " (route already captures as "
                      +:+ Quote (paramName child) +:+ ")"), node)
          else go child
      end
  end.

(** The first wildcard segment that is not last. *)
Fixpoint wildcard_inside (segments : list string) : option string :=
  match segments with
  | [] => None
  | seg :: rest =>
      if (starts_with "*"%char seg && negb (bool_decide (rest = [])))%bool then Some seg
      else wildcard_inside rest
  end.

(** The path as [Insert] normalizes it. *)
Definition insert_path (path : string) : string :=
  trim_slash (if starts_with "/"%char path then path else "/" +:+ path).

Definition Insert (root : radixNode) (path : string) (v : V) : option string * radixNode :=
  if bool_decide (path = "") then (Some "cannot insert empty path", root)
  else
    let path := insert_path path in
    let segments := splitPath path in
    match wildcard_inside segments with
    | Some seg =>
        (Some ("wildcard segment " +:+ Quote seg +:+ " must be the last segment in path "
               +:+ Quote path), root)
    | None => insertSegments root segments 0 v
    end.

(** ** [Match] *)

Abbreviation params := (gmap string string).

Fixpoint matchSegments (node : radixNode) (segments : list string) (ps : params)
    : option radixNode * params :=
  match segments with
  | [] => if isEndpoint node then (Some node, ps) else (None, ps)
  | seg :: rest =>
      let exact :=
        match children node !! seg with
        | Some child => matchSegments child rest ps
        | None => (None, ps)
        end in
      match exact with
      | (Some r, ps) => (Some r, ps)
      | (None, ps) =>
          let param :=
            match children node !! ":" with
            | Some child =>
                match matchSegments child rest (<[paramName child := seg]> ps) with
                | (Some r, ps) => (Some r, ps)
                | (None, ps) => (None, delete (paramName child) ps)
                end
            | None => (None, ps)
            end in
          match param with
          | (Some r, ps) => (Some r, ps)
          | (None, ps) =>
              match children node !! "*" with
              | Some child =>
                  if isWildcard child then
                    let ps := <[paramName child := Join "/"%char segments]> ps in
                    if isEndpoint child then (Some child, ps) else (None, ps)
                  else (None, ps)
              | None => (None, ps)
              end
          end
      end
  end.

Record MatchResult := mkMatch { mr_Value : option V; mr_Params : params }.

Definition Match (root : radixNode) (path : string) : option MatchResult :=
  if negb (starts_with "/"%char path) then None
  else
    match matchSegments root (splitPath (trim_slash path)) ∅ with
    | (Some node, ps) => if isEndpoint node then Some (mkMatch (value node) ps) else None
    | (None, _) => None
    end.

(** ** [Delete] *)

(** The result says whether the parent should drop the node. *)
Fixpoint deleteSegments (node : radixNode) (segments : list string) : bool * radixNode :=
  match segments with
  | [] =>
      let node' := if isEndpoint node then set_endpoint false None node else node in
      (bool_decide (children node' = ∅), node')
  | seg :: rest =>
      let key := fst (fst (segment_key seg)) in
      match children node !! key with
      | None => (false, node)
      | Some child =>
          let '(shouldDelete, child') := deleteSegments child rest in
          let node' :=
            set_children (if shouldDelete then delete key (children node)
                          else <[key := child']> (children node)) node in
          ((negb (isEndpoint node') && bool_decide (children node' = ∅))%bool, node')
      end
  end.

Definition Delete (root : radixNode) (path : string) : radixNode :=
  if negb (starts_with "/"%char path) then root
  else snd (deleteSegments root (splitPath (trim_slash path))).

(** ** [Clone] *)

Fixpoint cloneNode (node : radixNode) : radixNode :=
  mkNode (segment node) (cloneNode <$> children node) (isEndpoint node) (value node)
    (paramName node) (isWildcard node).
End Trie.
Arguments radixNode : clear implicits.
Arguments MatchResult : clear implicits.
