(* ===== verification/RadixFacts.v ===== *)
(** * Correctness of the path trie

    A trie denotes a table from key sequences (static segments, [":"] and ["*"])
    to values ([lookup_route]).  [Insert] and [Delete] are updates of that table,
    and [Match] succeeds exactly when a key sequence of the table covers the
    segments of the path. *)
From S2P Require Import Prelude Http Radix.
From Stdlib Require Import Ascii.

Section RadixFacts.
Context {V : Type}.
Implicit Types (n node : radixNode V) (keys segs : list string).

Lemma bool_decide_ext_if {A} (P Q : Prop) `{!Decision P} `{!Decision Q} (x y : A) :
  (P <-> Q) -> (if bool_decide P then x else y) = (if bool_decide Q then x else y).
Proof. intros E. by rewrite (bool_decide_ext P Q E). Qed.

(** ** The table a trie denotes *)

Fixpoint node_at (node : radixNode V) (keys : list string) : option (radixNode V) :=
  match keys with
  | [] => Some node
  | k :: ks => match children node !! k with Some c => node_at c ks | None => None end
  end.

Definition lookup_route node keys : option V :=
  match node_at node keys with
  | Some n => if isEndpoint n then value n else None
  | None => None
  end.

Definition key_of (seg : string) : string := fst (fst (segment_key seg)).
Definition keys_of (segs : list string) : list string := key_of <$> segs.

Lemma keys_of_cons seg segs : keys_of (seg :: segs) = key_of seg :: keys_of segs.
Proof. done. Qed.

(** Key sequences that match a sequence of segments. *)
Fixpoint covers (keys segs : list string) : Prop :=
  match keys, segs with
  | [], [] => True
  | k :: ks, s :: ss => ((k = s \/ k = ":") /\ covers ks ss) \/ (k = "*" /\ ks = [])
  | _, _ => False
  end.

(** Endpoints carry a value, and a wildcard node is a leaf marked as such. *)
Inductive trie_wf : radixNode V -> Prop :=
  trie_wf_intro n :
    (isEndpoint n = true -> is_Some (value n)) ->
    (forall c, children n !! "*" = Some c -> isWildcard c = true /\ children c = ∅) ->
    (forall k c, children n !! k = Some c -> trie_wf c) ->
    trie_wf n.

Lemma set_children_id node : set_children (children node) node = node.
Proof. by destruct node. Qed.

Lemma lookup_route_cons node k ks :
  lookup_route node (k :: ks) =
    match children node !! k with Some c => lookup_route c ks | None => None end.
Proof. unfold lookup_route. simpl. by destruct (children node !! k). Qed.

(** Replacing one child. *)
Lemma lookup_route_set_child node k c keys :
  lookup_route (set_children (<[k := c]> (children node)) node) keys =
    match keys with
    | [] => lookup_route node []
    | k' :: ks => if bool_decide (k' = k) then lookup_route c ks else lookup_route node keys
    end.
Proof.
  destruct keys as [|k' ks]; [done|]. rewrite !lookup_route_cons. simpl.
  case_bool_decide as E; [subst; by rewrite lookup_insert_eq|by rewrite lookup_insert_ne].
Qed.

Lemma lookup_route_leaf seg p w keys : lookup_route (mkNode seg ∅ false None p w) keys = None.
Proof. destruct keys; [done|]. rewrite lookup_route_cons. simpl. by rewrite lookup_empty. Qed.

(** ** Insertion *)

(** [insertSegments] on a non-empty list, with its [go] spelled out. *)
Lemma insertSegments_cons node seg rest i (v : V) :
  let '(key, pname, wild) := segment_key seg in
  let child := default (mkNode seg ∅ false None pname wild) (children node !! key) in
  let '(err, child') := insertSegments child rest (S i) v in
  insertSegments node (seg :: rest) i v =
    (err, set_children (<[key := child']> (children node)) node) \/
  (exists e c, insertSegments node (seg :: rest) i v = (Some e, node) /\
     children node !! key = Some c /\ paramName c <> pname).
Proof.
  destruct (segment_key seg) as [[key pname] wild] eqn:Ek. cbn [insertSegments]. rewrite Ek.
  destruct (children node !! key) as [c|] eqn:Ec; simpl.
  - destruct ((bool_decide (key = ":") || bool_decide (key = "*")) &&
      negb (bool_decide (paramName c = pname)))%bool eqn:E.
    + b2p. destruct (insertSegments c rest (S i) v). right. by do 2 eexists.
    + destruct rest; [by left|]. destruct (insertSegments c _ (S i) v). by left.
  - destruct rest; [by left|]. destruct (insertSegments _ _ (S i) v). by left.
Qed.

Lemma insertSegments_fresh node rest i (v : V) :
  children node = ∅ -> fst (insertSegments node rest i v) = None.
Proof.
  revert node i. induction rest as [|s rest IH]; intros node i Hc; [done|].
  pose proof (insertSegments_cons node s rest i v) as H.
  destruct (segment_key s) as [[key pname] wild]. rewrite Hc, lookup_empty in H. cbv zeta in H.
  match type of H with
  | context [insertSegments ?c rest (S i) v] =>
      specialize (IH c (S i) eq_refl); destruct (insertSegments c rest (S i) v) as [err c']
  end.
  destruct H as [->|(e & c & _ & Hno & _)]; [exact IH|done].
Qed.

Lemma insertSegments_spec segs node i (v : V) :
  match insertSegments node segs i v with
  | (Some _, node') => node' = node
  | (None, node') => forall keys,
      lookup_route node' keys =
        if bool_decide (keys = keys_of segs) then Some v else lookup_route node keys
  end.
Proof.
  revert node i. induction segs as [|seg rest IH]; intros node i.
  { simpl. intros keys. case_bool_decide as E; [by subst|]. by destruct keys. }
  pose proof (insertSegments_cons node seg rest i v) as H.
  assert (Hkey : key_of seg = fst (fst (segment_key seg))) by done.
  destruct (segment_key seg) as [[key pname] wild]. simpl in Hkey. cbv zeta in H.
  set (child := default _ (children node !! key)) in H.
  specialize (IH child (S i)).
  assert (Hfresh : children node !! key = None -> fst (insertSegments child rest (S i) v) = None).
  { intros E. subst child. rewrite E. by apply insertSegments_fresh. }
  assert (Hchild : forall ks, lookup_route child ks = lookup_route node (key :: ks)).
  { intros ks. rewrite lookup_route_cons. subst child. destruct (children node !! key); [done|].
    apply lookup_route_leaf. }
  destruct (insertSegments child rest (S i) v) as [err child'].
  destruct H as [H|(e & c & H & _)]; rewrite H; [|done]. destruct err as [e|].
  - subst child'. destruct (children node !! key) as [c|] eqn:Ec; [|by specialize (Hfresh eq_refl)].
    subst child. simpl. rewrite insert_id by done. apply set_children_id.
  - intros keys. rewrite lookup_route_set_child. destruct keys as [|k ks].
    { by rewrite bool_decide_false. }
    rewrite keys_of_cons, Hkey. case_bool_decide as Ek.
    + subst k. rewrite IH, Hchild. case_bool_decide as E1.
      * by rewrite bool_decide_true by congruence.
      * by rewrite bool_decide_false by congruence.
    + by rewrite bool_decide_false by congruence.
Qed.

(** ** Deletion *)

Lemma deleteSegments_spec segs node :
  let '(empty, node') := deleteSegments node segs in
  (forall keys, lookup_route node' keys =
     if bool_decide (keys = keys_of segs) then None else lookup_route node keys) /\
  (empty = true -> forall keys, lookup_route node' keys = None).
Proof.
  revert node. induction segs as [|seg rest IH]; intros node.
  { cbn [deleteSegments]. cbv zeta. set (node' := if isEndpoint node then _ else _).
    assert (Hl : forall keys, lookup_route node' keys =
      if bool_decide (keys = keys_of []) then None else lookup_route node keys).
    { intros keys. subst node'. destruct keys as [|k ks].
      - rewrite bool_decide_true by done. unfold lookup_route. simpl.
        destruct (isEndpoint node) eqn:E; simpl; [done|by rewrite E].
      - rewrite bool_decide_false by done. rewrite !lookup_route_cons. by destruct (isEndpoint node). }
    split; [intros keys; rewrite Hl; by apply bool_decide_ext_if|]. intros He keys. b2p. destruct keys as [|k ks]; [by rewrite Hl|].
    by rewrite lookup_route_cons, He, lookup_empty. }
  cbn [deleteSegments]. fold (key_of seg).
  destruct (children node !! key_of seg) as [child|] eqn:Ec.
  2:{ split; [|done]. intros keys. case_bool_decide as E; [|done]. subst keys.
      by rewrite keys_of_cons, lookup_route_cons, Ec. }
  specialize (IH child). destruct (deleteSegments child rest) as [empty child'].
  destruct IH as [Hl He].
  set (node' := set_children _ node).
  assert (Hspec : forall keys, lookup_route node' keys =
    if bool_decide (keys = keys_of (seg :: rest)) then None else lookup_route node keys).
  { intros keys. destruct keys as [|k ks]; [by rewrite bool_decide_false|].
    rewrite keys_of_cons. subst node'. rewrite !lookup_route_cons. cbn [children set_children].
    destruct (decide (k = key_of seg)) as [->|Hne].
    - rewrite Ec. destruct empty.
      + rewrite lookup_delete_eq. case_bool_decide as E; [done|].
        specialize (Hl ks). rewrite (He eq_refl) in Hl. rewrite Hl.
        by rewrite bool_decide_false by congruence.
      + rewrite lookup_insert_eq, Hl. case_bool_decide as E1.
        * by rewrite bool_decide_true by congruence.
        * by rewrite bool_decide_false by congruence.
    - rewrite bool_decide_false by congruence.
      destruct empty; [by rewrite lookup_delete_ne|by rewrite lookup_insert_ne]. }
  split; [done|]. intros E keys. b2p. destruct keys as [|k ks].
  - unfold lookup_route. cbn [node_at]. by rewrite H.
  - by rewrite lookup_route_cons, H0, lookup_empty.
Qed.

(** ** Well-formedness *)

Lemma trie_wf_new : trie_wf NewRadixTrie.
Proof. constructor; simpl; [done| |]; intros *; by rewrite lookup_empty. Qed.

Lemma trie_wf_endpoint n (v : V) : trie_wf n -> trie_wf (set_endpoint true (Some v) n).
Proof. intros [n' He Hw Hc]. constructor; simpl; [by eauto|done|done]. Qed.

Lemma trie_wf_unset n : trie_wf n -> trie_wf (set_endpoint false None n).
Proof. intros [n' He Hw Hc]. constructor; simpl; [done|done|done]. Qed.

Lemma trie_wf_leaf seg p w : trie_wf (mkNode seg ∅ false None p w).
Proof. constructor; simpl; [done| |]; intros *; by rewrite lookup_empty. Qed.

Lemma trie_wf_insert_child node k c :
  trie_wf node -> trie_wf c -> (k = "*" -> isWildcard c = true /\ children c = ∅) ->
  trie_wf (set_children (<[k := c]> (children node)) node).
Proof.
  intros [n He Hw Hc] Hcw Hstar. constructor; simpl; [done| |].
  - intros c' [[-> <-]|[_ H]]%lookup_insert_Some; [by apply Hstar|by apply Hw].
  - intros k' c' [[_ <-]|[_ H]]%lookup_insert_Some; [done|by eapply Hc].
Qed.

Lemma trie_wf_delete_child node k :
  trie_wf node -> trie_wf (set_children (delete k (children node)) node).
Proof.
  intros [n He Hw Hc]. constructor; simpl; [done| |].
  - intros c' [_ H]%lookup_delete_Some. by apply Hw.
  - intros k' c' [_ H]%lookup_delete_Some. by eapply Hc.
Qed.

Lemma segment_key_star seg key pname wild :
  segment_key seg = (key, pname, wild) -> key = "*" ->
  starts_with "*"%char seg = true /\ wild = true.
Proof.
  unfold segment_key. destruct (starts_with ":"%char seg) eqn:E1; [by intros [= <- _ _]|].
  destruct (starts_with "*"%char seg) eqn:E2; [by intros [= _ _ <-]|].
  intros [= -> _ _] ->. done.
Qed.

Lemma insertSegments_wf segs node i (v : V) :
  trie_wf node -> wildcard_inside segs = None -> trie_wf (snd (insertSegments node segs i v)).
Proof.
  revert node i. induction segs as [|seg rest IH]; intros node i Hwf Hin.
  { by apply trie_wf_endpoint. }
  assert (Hrest : wildcard_inside rest = None /\ (starts_with "*"%char seg = true -> rest = [])).
  { simpl in Hin. destruct (starts_with "*"%char seg) eqn:E; simpl in Hin.
    - case_bool_decide; simpl in Hin; [subst; by split|done].
    - by split. }
  destruct Hrest as [Hrest Hlast].
  pose proof (insertSegments_cons node seg rest i v) as H.
  destruct (segment_key seg) as [[key pname] wild] eqn:Ek. cbv zeta in H.
  match type of H with context [insertSegments ?c rest (S i) v] => set (child := c) in * end.
  assert (Hcw : trie_wf child).
  { subst child. destruct (children node !! key) as [c|] eqn:Ec; simpl; [|apply trie_wf_leaf].
    destruct Hwf as [n _ _ Hc]. by eapply Hc. }
  specialize (IH child (S i) Hcw Hrest).
  assert (Hstar : key = "*" -> isWildcard (snd (insertSegments child rest (S i) v)) = true /\
    children (snd (insertSegments child rest (S i) v)) = ∅).
  { intros ->. destruct (segment_key_star _ _ _ _ Ek eq_refl) as [Hs ->]. rewrite (Hlast Hs). simpl.
    subst child. destruct (children node !! "*") as [c|] eqn:Ec; simpl; [|done].
    destruct Hwf as [n _ Hw _]. by apply Hw. }
  destruct (insertSegments child rest (S i) v) as [err child'].
  destruct H as [->|(e & c & -> & _)]; [|done]. by apply trie_wf_insert_child.
Qed.

Lemma deleteSegments_leaf segs n :
  children n = ∅ -> isWildcard (snd (deleteSegments n segs)) = isWildcard n /\
  children (snd (deleteSegments n segs)) = ∅.
Proof.
  intros Hc. destruct segs as [|seg rest]; simpl.
  - by destruct (isEndpoint n).
  - by rewrite Hc, lookup_empty.
Qed.

Lemma deleteSegments_wf segs node : trie_wf node -> trie_wf (snd (deleteSegments node segs)).
Proof.
  revert node. induction segs as [|seg rest IH]; intros node Hwf; simpl.
  { destruct (isEndpoint node); [by apply trie_wf_unset|done]. }
  destruct (children node !! _) as [child|] eqn:Ec; [|done].
  assert (Hcw : trie_wf child) by (destruct Hwf as [n _ _ Hc]; by eapply Hc).
  specialize (IH child Hcw). pose proof (deleteSegments_leaf rest child) as Hleaf.
  destruct (deleteSegments child rest) as [empty child']. simpl in *.
  destruct empty; [by apply trie_wf_delete_child|]. apply trie_wf_insert_child; [done|done|].
  intros E. rewrite E in Ec. destruct Hwf as [n _ Hw _]. destruct (Hw _ Ec) as [Hwild Hempty].
  destruct (Hleaf Hempty) as [-> ->]. done.
Qed.

(** ** Matching *)

(** The children [matchSegments] tries for a segment. *)
Lemma matchSegments_sound segs node ps n ps' :
  trie_wf node -> matchSegments node segs ps = (Some n, ps') ->
  isEndpoint n = true /\ exists keys, node_at node keys = Some n /\ covers keys segs.
Proof.
  revert node ps n ps'. induction segs as [|seg rest IH]; intros node ps n ps' Hwf; cbn [matchSegments].
  { destruct (isEndpoint node) eqn:E; [|done]. intros [= <- _]. split; [done|]. by exists []. }
  assert (Hstep : forall k c ps0 ps1, children node !! k = Some c -> k = seg \/ k = ":" ->
    matchSegments c rest ps0 = (Some n, ps1) ->
    isEndpoint n = true /\ exists keys, node_at node keys = Some n /\ covers keys (seg :: rest)).
  { intros k c ps0 ps1 Hk Hks Hm.
    assert (Hcw : trie_wf c) by (destruct Hwf as [n' _ _ Hc]; by eapply Hc).
    destruct (IH c ps0 n ps1 Hcw Hm) as (He & keys & Hat & Hcov). split; [done|].
    exists (k :: keys). simpl. rewrite Hk. by eauto. }
  destruct (children node !! seg) as [c1|] eqn:E1;
    [destruct (matchSegments c1 rest ps) as [[r1|] ps1] eqn:M1|];
    cbv beta iota zeta; [intros [= <- <-]; by eapply (Hstep seg); eauto| |];
    (destruct (children node !! ":") as [c2|] eqn:E2;
      [destruct (matchSegments c2 rest _) as [[r2|] ps2] eqn:M2|];
      cbv beta iota zeta; [intros [= <- <-]; by eapply (Hstep ":"); eauto| |]);
    (destruct (children node !! "*") as [c3|] eqn:E3; [|done]; destruct (isWildcard c3); [|done];
     destruct (isEndpoint c3) eqn:Ee; [|done]; intros [= <- _]; split; [done|];
     exists ["*"]; simpl; rewrite E3; by eauto).
Qed.

Lemma matchSegments_complete segs node ps keys n :
  trie_wf node -> node_at node keys = Some n -> isEndpoint n = true -> covers keys segs ->
  is_Some (fst (matchSegments node segs ps)).
Proof.
  revert node ps keys. induction segs as [|seg rest IH]; intros node ps keys Hwf Hat He Hcov.
  { destruct keys; [|by destruct Hcov]. simpl in Hat. injection Hat as ->. simpl. by rewrite He. }
  destruct keys as [|k ks]; [done|]. cbn [node_at] in Hat.
  destruct (children node !! k) as [c|] eqn:Ek; [|done].
  assert (Hcw : trie_wf c) by (destruct Hwf as [n' _ _ Hc]; by eapply Hc).
  assert (Hgo : (k = seg \/ k = ":") -> covers ks rest ->
    forall ps, is_Some (fst (matchSegments c rest ps))) by (intros; by eapply IH).
  cbn [matchSegments].
  destruct (match children node !! seg with Some child => matchSegments child rest ps | None => (None, ps) end)
    as [[r1|] ps1] eqn:M1; [by eexists|].
  destruct (match children node !! ":" with Some child => _ | None => _ end) as [[r2|] ps2] eqn:M2;
    [by eexists|].
  destruct Hcov as [[[->| ->] Hcov]|[-> ->]].
  - rewrite Ek in M1. specialize (Hgo (or_introl eq_refl) Hcov ps). rewrite M1 in Hgo. by destruct Hgo.
  - rewrite Ek in M2. specialize (Hgo (or_intror eq_refl) Hcov (<[paramName c:=seg]> ps1)).
    destruct (matchSegments c rest _) as [[r|] ps3]; [done|by destruct Hgo].
  - rewrite Ek. destruct Hwf as [n' _ Hw _]. destruct (Hw _ Ek) as [-> _].
    simpl in Hat. injection Hat as ->. rewrite He. by eexists.
Qed.

(** An endpoint whose keys are the segments themselves is found first, and no
    parameter is captured on the way. *)
Lemma matchSegments_exact segs node ps n :
  node_at node segs = Some n -> isEndpoint n = true -> matchSegments node segs ps = (Some n, ps).
Proof.
  revert node. induction segs as [|seg rest IH]; intros node Hat He; simpl in *.
  { injection Hat as ->. by rewrite He. }
  destruct (children node !! seg) as [c|]; [|done]. by rewrite (IH c Hat He).
Qed.
End RadixFacts.

(** The key sequence of a route path. *)
Definition path_keys (path : string) : list string := keys_of (splitPath (insert_path path)).

(** Tries built by any sequence of [Insert] (failed ones too) and [Delete]. *)
Inductive trie_reachable {V} : radixNode V -> Prop :=
  | reach_new : trie_reachable NewRadixTrie
  | reach_insert root path v : trie_reachable root -> trie_reachable (snd (Insert root path v))
  | reach_delete root path : trie_reachable root -> trie_reachable (Delete root path).

Lemma trie_reachable_wf {V} (root : radixNode V) : trie_reachable root -> trie_wf root.
Proof.
  induction 1 as [|root path v _ IH|root path _ IH]; [apply trie_wf_new| |].
  - unfold Insert. case_bool_decide; [done|]. destruct (wildcard_inside _) eqn:E; [done|].
    by apply insertSegments_wf.
  - unfold Delete. case_match; [done|]. by apply deleteSegments_wf.
Qed.

Lemma radix_insert_error {V} (root : radixNode V) path v e :
  fst (Insert root path v) = Some e -> snd (Insert root path v) = root.
Proof.
  unfold Insert. case_bool_decide; [done|]. destruct (wildcard_inside _); [done|].
  pose proof (insertSegments_spec (splitPath (insert_path path)) root 0 v) as Hi.
  by destruct (insertSegments root _ 0 v) as [[|] root'].
Qed.

(** [Insert] is an update of the table at the keys of the path, or, when it
    returns an error, leaves the trie exactly as it was. *)
Theorem radix_insert_refines {V} (root : radixNode V) path v :
  match Insert root path v with
  | (Some _, root') => root' = root
  | (None, root') => forall keys,
      lookup_route root' keys =
        if bool_decide (keys = path_keys path) then Some v else lookup_route root keys
  end.
Proof.
  unfold Insert. case_bool_decide; [done|]. destruct (wildcard_inside _); [done|].
  apply insertSegments_spec.
Qed.

(** [Delete] of a path removes exactly its entry from the table, although it
    prunes the nodes that have become useless. *)
Theorem radix_delete_refines {V} (root : radixNode V) path keys :
  starts_with "/"%char path = true ->
  lookup_route (Delete root path) keys =
    if bool_decide (keys = keys_of (splitPath (trim_slash path))) then None else lookup_route root keys.
Proof.
  intros Hp. unfold Delete. rewrite Hp. cbn [negb].
  pose proof (deleteSegments_spec (splitPath (trim_slash path)) root) as H.
  destruct (deleteSegments root _) as [empty root']. apply H.
Qed.

(** C8: in every trie the operations can build, [Match] succeeds exactly when some
    route of the table covers the segments of the request path, and the value it
    returns is the one of such a route. *)
Theorem radix_match_iff {V} (root : radixNode V) path :
  trie_reachable root -> starts_with "/"%char path = true ->
  (is_Some (Match root path) <->
   exists keys v, lookup_route root keys = Some v /\ covers keys (splitPath (trim_slash path))) /\
  (forall r, Match root path = Some r ->
   exists keys v, lookup_route root keys = Some v /\ mr_Value r = Some v /\
     covers keys (splitPath (trim_slash path))).
Proof.
  intros Hr Hp. pose proof (trie_reachable_wf root Hr) as Hwf.
  assert (Hsound : forall r, Match root path = Some r ->
    exists keys v, lookup_route root keys = Some v /\ mr_Value r = Some v /\
      covers keys (splitPath (trim_slash path))).
  { intros r. unfold Match. rewrite Hp. cbn [negb].
    destruct (matchSegments root _ ∅) as [[n|] ps] eqn:Em; [|done].
    destruct (matchSegments_sound _ _ _ _ _ Hwf Em) as (He & keys & Hat & Hcov).
    rewrite He. intros [= <-].
    assert (Hv : is_Some (value n)).
    { clear - Hwf Hat He. revert root Hwf Hat. induction keys as [|k ks IH]; intros root Hwf Hat; simpl in Hat.
      - injection Hat as ->. destruct Hwf as [n' Hv _ _]. by apply Hv.
      - destruct (children root !! k) as [c|] eqn:Ec; [|done]. destruct Hwf as [n' _ _ Hc].
        by apply (IH c); [eapply Hc|]. }
    destruct Hv as [v Hv]. exists keys, v. unfold lookup_route. by rewrite Hat, He. }
  split; [|done]. split.
  - intros [r Hm]. destruct (Hsound r Hm) as (keys & v & ? & _ & ?). by exists keys, v.
  - intros (keys & v & Hl & Hcov). unfold lookup_route in Hl.
    destruct (node_at root keys) as [n|] eqn:Hat; [|done].
    destruct (isEndpoint n) eqn:He; [|done].
    pose proof (matchSegments_complete _ root ∅ keys n Hwf Hat He Hcov) as [m Hm].
    unfold Match. rewrite Hp. cbn [negb].
    destruct (matchSegments root _ ∅) as [[n'|] ps] eqn:Em; [|done].
    destruct (matchSegments_sound _ _ _ _ _ Hwf Em) as [-> _]. by eexists.
Qed.

(** A static segment is its own key. *)
Definition is_static (seg : string) : bool :=
  negb (starts_with ":"%char seg) && negb (starts_with "*"%char seg).

Lemma keys_of_static segs : forallb is_static segs = true -> keys_of segs = segs.
Proof.
  induction segs as [|seg segs IH]; [done|]. cbn [forallb]. intros Hs. b2p.
  rewrite keys_of_cons, IH by done. unfold is_static in *. b2p.
  unfold key_of, segment_key. by rewrite H, H1.
Qed.

Lemma Insert_Match_static {V} (root root' : radixNode V) path v :
  starts_with "/"%char path = true -> forallb is_static (splitPath (trim_slash path)) = true ->
  Insert root path v = (None, root') ->
  Match root' path = Some (mkMatch (Some v) ∅).
Proof.
  intros Hp Hs Hi. unfold Insert in Hi. case_bool_decide; [done|].
  unfold insert_path in Hi. rewrite Hp in Hi. destruct (wildcard_inside _); [done|].
  pose proof (insertSegments_spec (splitPath (trim_slash path)) root 0 v) as Hspec. rewrite Hi in Hspec.
  specialize (Hspec (splitPath (trim_slash path))).
  rewrite (keys_of_static _ Hs), bool_decide_true in Hspec by done. unfold lookup_route in Hspec.
  destruct (node_at root' (splitPath (trim_slash path))) as [n|] eqn:Hat; [|done].
  destruct (isEndpoint n) eqn:He; [|done].
  unfold Match. rewrite Hp. cbn [negb]. by rewrite (matchSegments_exact _ _ _ _ Hat He), He, Hspec.
Qed.

(** a path without parameters and wildcards that has just been inserted is
    matched by its own route, before any parameter or wildcard route, and captures
    nothing. *)
Theorem radix_static_roundtrip {V} (root root' : radixNode V) path v :
  starts_with "/"%char path = true -> forallb is_static (splitPath (trim_slash path)) = true ->
  Insert root path v = (None, root') ->
  Match root' path = Some (mkMatch (Some v) ∅).
Proof. apply Insert_Match_static. Qed.

Definition demo_trie : radixNode string :=
  snd (Insert (snd (Insert NewRadixTrie "/users/:id" "user")) "/files/*rest" "files").

Lemma radix_delete_refines_witness : lookup_route (Delete demo_trie "/users/:id") ["users"; ":"] = None.
Proof.
  rewrite (radix_delete_refines demo_trie "/users/:id" ["users"; ":"] eq_refl). vm_compute. reflexivity.
Defined.

Lemma radix_match_iff_witness : is_Some (Match demo_trie "/files/a/b").
Proof.
  apply (proj1 (radix_match_iff demo_trie "/files/a/b"
    (reach_insert _ _ _ (reach_insert _ _ _ reach_new)) eq_refl)).
  exists ["files"; "*"], "files". split; [vm_compute; reflexivity|].
  left. split; [by left|]. right. by split.
Defined.

Lemma radix_static_roundtrip_witness :
  Match (snd (Insert demo_trie "/users/me" "me")) "/users/me" = Some (mkMatch (Some "me") ∅).
Proof.
  apply (radix_static_roundtrip demo_trie (snd (Insert demo_trie "/users/me" "me")) "/users/me" "me");
    vm_compute; reflexivity.
Defined.
