(* ===== verification/Router.v ===== *)
(** * The HTTP router: [internal/router/router.go]

    A router keeps a trie and a map of routes per host pattern, and an index of the
    routes by name.  A route is a value: the code shares the pointers of its routes
    between its maps and never changes a route after adding it.  [AddRoute] returns
    the router in its error cases too. *)
From S2P Require Import Prelude Http NetIP Errors Radix RadixFacts.
From Stdlib Require Import Ascii.

Record Route := mkRoute {
  Route_Name : string;
  Route_Host : string;
  Route_Path : string;
  Methods : list string;
  Headers : gmap string string;
  BackendPool : string;
  Priority : Z
}.

Record RouteMatch := mkRouteMatch { rm_Route : Route; rm_Params : gmap string string }.

Record hostTrie := mkHostTrie {
  ht_host : string;
  ht_trie : radixNode string;
  ht_routes : gmap string (list Route)
}.

Record Router := mkRouter {
  exactHosts : gmap string hostTrie;
  wildcardHosts : gmap string hostTrie;
  defaultTrie : option hostTrie;
  routesByName : gmap string Route
}.

Definition NewRouter : Router := mkRouter ∅ ∅ None ∅.

Definition set_path (p : string) (r : Route) : Route :=
  mkRoute (Route_Name r) (Route_Host r) p (Methods r) (Headers r) (BackendPool r) (Priority r).

Definition newHostTrie (host : string) : hostTrie := mkHostTrie host NewRadixTrie ∅.

(** [strings.HasPrefix(host, "*.")] and [host\[2:\]]. *)
Definition wildcard_domain (host : string) : option string :=
  match host with
  | String a (String b domain) =>
      if (Ascii.eqb a "*" && Ascii.eqb b ".")%bool then Some domain else None
  | _ => None
  end.

(** The trie registered for a host pattern. *)
Definition host_trie (r : Router) (host : string) : option hostTrie :=
  if bool_decide (host = "") then defaultTrie r
  else match wildcard_domain host with
       | Some domain => wildcardHosts r !! domain
       | None => exactHosts r !! host
       end.

Definition set_host_trie (r : Router) (host : string) (ht : hostTrie) : Router :=
  if bool_decide (host = "") then mkRouter (exactHosts r) (wildcardHosts r) (Some ht) (routesByName r)
  else match wildcard_domain host with
       | Some domain =>
           mkRouter (exactHosts r) (<[domain := ht]> (wildcardHosts r)) (defaultTrie r) (routesByName r)
       | None =>
           mkRouter (<[host := ht]> (exactHosts r)) (wildcardHosts r) (defaultTrie r) (routesByName r)
       end.

Definition getOrCreateHostTrie (r : Router) (host : string) : hostTrie * Router :=
  match host_trie r host with
  | Some ht => (ht, r)
  | None => let ht := newHostTrie host in (ht, set_host_trie r host ht)
  end.

(** The checks on the fields of a route, and its path with a leading slash. *)
Definition validate (route : option Route) : result Route :=
  match route with
  | None => inl (WithContext ErrInvalidArg "reason" "route is nil")
  | Some route =>
      if bool_decide (Route_Name route = "") then
        inl (WithContext ErrInvalidArg "reason" "route name is empty")
      else if bool_decide (Route_Path route = "") then
        inl (WithContext ErrInvalidArg "reason" "route path is empty")
      else if bool_decide (BackendPool route = "") then
        inl (WithContext ErrInvalidArg "reason" "backend pool is empty")
      else inr (if starts_with "/"%char (Route_Path route) then route
                else set_path ("/" +:+ Route_Path route) route)
  end.

(** The part [AddRoute] and [Swap] share: the trie of the host, the insertion, the
    route entry and the index. *)
Definition add_to_tables (r : Router) (route : Route) : option error * Router :=
  let '(ht, r) := getOrCreateHostTrie r (Route_Host route) in
  match Insert (ht_trie ht) (Route_Path route) (Route_Path route) with
  | (Some err, trie) =>
      (Some (WithContext (WithContext ErrInvalidArg "route_path" (Route_Path route)) "reason" err),
       set_host_trie r (Route_Host route) (mkHostTrie (ht_host ht) trie (ht_routes ht)))
  | (None, trie) =>
      let entry := default [] (ht_routes ht !! Route_Path route) in
      let ht := mkHostTrie (ht_host ht) trie
                  (<[Route_Path route := entry ++ [route]]> (ht_routes ht)) in
      let r := set_host_trie r (Route_Host route) ht in
      (None, mkRouter (exactHosts r) (wildcardHosts r) (defaultTrie r)
               (<[Route_Name route := route]> (routesByName r)))
  end.

Definition AddRoute (r : Router) (route : option Route) : option error * Router :=
  match validate route with
  | inl err => (Some err, r)
  | inr route =>
      match routesByName r !! Route_Name route with
      | Some _ => (Some (WithContext ErrAlreadyExist "route_name" (Route_Name route)), r)
      | None => add_to_tables r route
      end
  end.

(** ** Matching *)

Definition matchesRoute (route : Route) (req : Request) : bool :=
  ((bool_decide (Methods route = []) || existsb (fun m => bool_decide (m = Method req)) (Methods route)) &&
   forallb (fun kv => bool_decide (Header_Get (Header req) (fst kv) = snd kv)) (map_to_list (Headers route)))%bool.

(** The walk up the path; every round shortens [tryPath], so its length bounds the
    rounds. *)
Fixpoint prefix_match (fuel : nat) (trie : radixNode string) (tryPath : string)
    : option (MatchResult string) :=
  match fuel with
  | O => None
  | S fuel =>
      if bool_decide (tryPath = "") then None
      else match LastIndex "/"%char tryPath with
           | None | Some O => Match trie "/"
           | Some idx =>
               let tryPath := string_take idx tryPath in
               match Match trie tryPath with
               | Some result => Some result
               | None => prefix_match fuel trie tryPath
               end
           end
  end.

Definition matchInHostTrie (ht : hostTrie) (path : string) (req : Request) : option RouteMatch :=
  let result :=
    match Match (ht_trie ht) path with
    | Some result => Some result
    | None => prefix_match (S (String.length path)) (ht_trie ht) path
    end in
  match result with
  | None => None
  | Some result =>
      let matchedPath := default "" (mr_Value result) in
      match ht_routes ht !! matchedPath with
      | None => None
      | Some routes =>
          match List.find (fun route => matchesRoute route req) routes with
          | Some route => Some (mkRouteMatch route (mr_Params result))
          | None => None
          end
      end
  end.

(** The loop over the proper suffixes of the host, longest first. *)
Fixpoint match_wildcards (r : Router) (parts : list string) (path : string) (req : Request)
    : option RouteMatch :=
  match parts with
  | [] => None
  | _ :: rest =>
      match rest with
      | [] => None
      | _ =>
          match wildcardHosts r !! Join "."%char rest with
          | Some ht =>
              match matchInHostTrie ht path req with
              | Some m => Some m
              | None => match_wildcards r rest path req
              end
          | None => match_wildcards r rest path req
          end
      end
  end.

(** The host a request is routed by. *)
Definition request_host (req : Request) : string :=
  let host := if bool_decide (Host req = "") then URLHost req else Host req in
  match SplitHostPort host with Some (h, _) => h | None => host end.

Definition Router_Match (r : Router) (req : Request) : option RouteMatch :=
  let host := request_host req in
  let path := URLPath req in
  match exactHosts r !! host ≫= (fun ht => matchInHostTrie ht path req) with
  | Some m => Some m
  | None =>
      match match_wildcards r (Split "."%char host) path req with
      | Some m => Some m
      | None => defaultTrie r ≫= (fun ht => matchInHostTrie ht path req)
      end
  end.

(** ** Removal, replacement, queries *)

(** Drops the first route with the given name. *)
Fixpoint remove_named (name : string) (l : list Route) : list Route :=
  match l with
  | [] => []
  | x :: rest => if bool_decide (Route_Name x = name) then rest else x :: remove_named name rest
  end.

Definition RemoveRoute (r : Router) (name : string) : Router :=
  match routesByName r !! name with
  | None => r
  | Some route =>
      let r :=
        match host_trie r (Route_Host route) with
        | None => r
        | Some ht =>
            match ht_routes ht !! Route_Path route with
            | None => r
            | Some routes =>
                let routes := remove_named name routes in
                set_host_trie r (Route_Host route)
                  (if bool_decide (routes = [])
                   then mkHostTrie (ht_host ht) (Delete (ht_trie ht) (Route_Path route))
                          (delete (Route_Path route) (ht_routes ht))
                   else mkHostTrie (ht_host ht) (ht_trie ht)
                          (<[Route_Path route := routes]> (ht_routes ht)))
            end
        end in
      mkRouter (exactHosts r) (wildcardHosts r) (defaultTrie r) (delete name (routesByName r))
  end.

Fixpoint validate_all (routes : list (option Route)) : result (list Route) :=
  match routes with
  | [] => inr []
  | route :: rest =>
      match validate route with
      | inl e => inl e
      | inr route => match validate_all rest with inl e => inl e | inr l => inr (route :: l) end
      end
  end.

Fixpoint build_tables (r : Router) (routes : list Route) : result Router :=
  match routes with
  | [] => inr r
  | route :: rest =>
      match add_to_tables r route with
      | (Some e, _) => inl e
      | (None, r) => build_tables r rest
      end
  end.

Definition Swap (r : Router) (routes : list (option Route)) : option error * Router :=
  match validate_all routes with
  | inl e => (Some e, r)
  | inr routes =>
      match build_tables NewRouter routes with
      | inl e => (Some e, r)
      | inr r' => (None, r')
      end
  end.

Definition GetRoute (r : Router) (name : string) : option Route := routesByName r !! name.
Definition Routes (r : Router) : list Route := snd <$> map_to_list (routesByName r).
Definition RouteCount (r : Router) : nat := size (routesByName r).

(** ** The rounds of [prefix_match] suffice *)

Lemma LastIndex_lt c s i : LastIndex c s = Some i -> (i < String.length s)%nat.
Proof.
  revert i. induction s as [|a s IH]; intros i; simpl; [done|].
  destruct (LastIndex c s) as [j|]; [intros [= <-]; specialize (IH j eq_refl); lia|].
  case_match; [intros [= <-]; lia|done].
Qed.

Lemma length_string_take n s : (String.length (string_take n s) <= n)%nat.
Proof.
  revert s. induction n as [|n IH]; intros [|a s]; simpl; try lia. specialize (IH s). lia.
Qed.

Lemma prefix_match_fuel fuel fuel' trie path :
  (String.length path < fuel)%nat -> (String.length path < fuel')%nat ->
  prefix_match fuel trie path = prefix_match fuel' trie path.
Proof.
  revert fuel' path. induction fuel as [|fuel IH]; intros [|fuel'] path Hf Hf'; try lia.
  cbn [prefix_match]. case_bool_decide; [done|].
  destruct (LastIndex _ path) as [[|i]|] eqn:E; [done| |done].
  apply LastIndex_lt in E. pose proof (length_string_take (S i) path).
  destruct (Match trie _); [done|]. apply IH; lia.
Qed.

(** ** Facts about the tables *)

Lemma host_trie_set_eq r host ht : host_trie (set_host_trie r host ht) host = Some ht.
Proof.
  unfold host_trie, set_host_trie. case_bool_decide; [done|].
  destruct (wildcard_domain host); simpl; apply lookup_insert_eq.
Qed.

Lemma set_host_trie_id r host ht : host_trie r host = Some ht -> set_host_trie r host ht = r.
Proof.
  unfold host_trie, set_host_trie. case_bool_decide; intros H0; [|destruct (wildcard_domain host)];
    rewrite ?insert_id by done; destruct r; simpl in *; by subst.
Qed.

Lemma set_host_trie_twice r host ht ht' :
  set_host_trie (set_host_trie r host ht) host ht' = set_host_trie r host ht'.
Proof.
  unfold set_host_trie. case_bool_decide; [done|].
  destruct (wildcard_domain host); simpl; by rewrite insert_insert_eq.
Qed.

Lemma getOrCreateHostTrie_spec r host :
  let '(ht, r') := getOrCreateHostTrie r host in
  r' = set_host_trie r host ht /\ host_trie r' host = Some ht /\
  ht = default (newHostTrie host) (host_trie r host).
Proof.
  unfold getOrCreateHostTrie. destruct (host_trie r host) as [ht|] eqn:E.
  - by rewrite set_host_trie_id.
  - by rewrite host_trie_set_eq.
Qed.

Lemma routesByName_set r host ht : routesByName (set_host_trie r host ht) = routesByName r.
Proof. unfold set_host_trie. case_bool_decide; [done|]. by destruct (wildcard_domain host). Qed.

(** [add_to_tables] in one equation: the trie of the host before the call is [ht0]. *)
Lemma add_to_tables_eq r route :
  let ht0 := default (newHostTrie (Route_Host route)) (host_trie r (Route_Host route)) in
  add_to_tables r route =
  match Insert (ht_trie ht0) (Route_Path route) (Route_Path route) with
  | (Some err, _) =>
      (Some (WithContext (WithContext ErrInvalidArg "route_path" (Route_Path route)) "reason" err),
       set_host_trie r (Route_Host route) ht0)
  | (None, trie) =>
      let r' := set_host_trie r (Route_Host route) (mkHostTrie (ht_host ht0) trie
         (<[Route_Path route := default [] (ht_routes ht0 !! Route_Path route) ++ [route]]>
            (ht_routes ht0))) in
      (None, mkRouter (exactHosts r') (wildcardHosts r') (defaultTrie r')
               (<[Route_Name route := route]> (routesByName r)))
  end.
Proof.
  unfold add_to_tables. pose proof (getOrCreateHostTrie_spec r (Route_Host route)) as H.
  destruct (getOrCreateHostTrie r (Route_Host route)) as [ht r']. destruct H as (-> & _ & ->).
  set (ht := default _ _).
  pose proof (radix_insert_error (ht_trie ht) (Route_Path route) (Route_Path route)) as Herr.
  destruct (Insert (ht_trie ht) (Route_Path route) (Route_Path route)) as [[err|] trie].
  - rewrite set_host_trie_twice. simpl in Herr. rewrite (Herr err eq_refl). by destruct ht.
  - by rewrite set_host_trie_twice, routesByName_set.
Qed.

(** ** Matching in a trie without routes *)

Lemma matchSegments_leaf segs (node : radixNode string) ps :
  children node = ∅ -> isEndpoint node = false -> fst (matchSegments node segs ps) = None.
Proof.
  intros Hc He. destruct segs; simpl; [by rewrite He|]. rewrite Hc, !lookup_empty. done.
Qed.

Lemma Match_new path : Match (NewRadixTrie (V:=string)) path = None.
Proof.
  unfold Match. case_match; [done|].
  pose proof (matchSegments_leaf (splitPath (trim_slash path)) NewRadixTrie ∅ eq_refl eq_refl) as H0.
  destruct (matchSegments _ _ _) as [[n|] ps]; [done|done].
Qed.

Lemma prefix_match_new fuel path : prefix_match fuel NewRadixTrie path = None.
Proof.
  revert path. induction fuel as [|fuel IH]; intros path; simpl; [done|]. case_bool_decide; [done|].
  destruct (LastIndex _ _) as [[|idx]|]; rewrite Match_new; [done|apply IH|done].
Qed.

Lemma matchInHostTrie_new host path req : matchInHostTrie (newHostTrie host) path req = None.
Proof. unfold matchInHostTrie. simpl ht_trie. by rewrite Match_new, prefix_match_new. Qed.

(** Registering an empty trie for a host that had none changes no match. *)
Lemma match_wildcards_ext r r' parts path req :
  (forall d, wildcardHosts r' !! d ≫= (fun ht => matchInHostTrie ht path req) =
             wildcardHosts r !! d ≫= (fun ht => matchInHostTrie ht path req)) ->
  match_wildcards r' parts path req = match_wildcards r parts path req.
Proof.
  intros Heq. induction parts as [|p rest IH]; [done|]. simpl. destruct rest as [|q l]; [done|].
  specialize (Heq (Join "."%char (q :: l))). rewrite IH.
  destruct (wildcardHosts r' !! _) as [ht'|], (wildcardHosts r !! _) as [ht|]; simpl in Heq;
    rewrite ?Heq; try done; by rewrite <- ?Heq.
Qed.

Lemma Router_Match_ext r r' req :
  (forall d, exactHosts r' !! d ≫= (fun ht => matchInHostTrie ht (URLPath req) req) =
             exactHosts r !! d ≫= (fun ht => matchInHostTrie ht (URLPath req) req)) ->
  (forall d, wildcardHosts r' !! d ≫= (fun ht => matchInHostTrie ht (URLPath req) req) =
             wildcardHosts r !! d ≫= (fun ht => matchInHostTrie ht (URLPath req) req)) ->
  defaultTrie r' ≫= (fun ht => matchInHostTrie ht (URLPath req) req) =
    defaultTrie r ≫= (fun ht => matchInHostTrie ht (URLPath req) req) ->
  Router_Match r' req = Router_Match r req.
Proof.
  intros H1 H2 H3. unfold Router_Match. by rewrite H1, (match_wildcards_ext r r'), H3.
Qed.

Lemma Router_Match_empty_host r host req :
  Router_Match (set_host_trie r host (default (newHostTrie host) (host_trie r host))) req
  = Router_Match r req.
Proof.
  destruct (host_trie r host) as [ht|] eqn:E; simpl; [by rewrite set_host_trie_id|].
  unfold set_host_trie, host_trie in *. case_bool_decide; [|destruct (wildcard_domain host) as [dom|]];
    apply Router_Match_ext; simpl; try done; intros.
  - rewrite E. apply matchInHostTrie_new.
  - destruct (decide (d = dom)) as [->|]; [|by rewrite lookup_insert_ne].
    rewrite lookup_insert_eq, E. apply matchInHostTrie_new.
  - destruct (decide (d = host)) as [->|]; [|by rewrite lookup_insert_ne].
    rewrite lookup_insert_eq, E. apply matchInHostTrie_new.
Qed.

(** C28: a failed [AddRoute] is invisible: it may leave an empty trie for the host
    behind, but no request is routed differently and no route is registered. *)
Theorem failed_add_route_invisible r route e r' :
  AddRoute r route = (Some e, r') ->
  (forall req, Router_Match r' req = Router_Match r req) /\ routesByName r' = routesByName r.
Proof.
  unfold AddRoute. destruct (validate route) as [err|rt]; [intros [= _ <-]; done|].
  destruct (routesByName r !! Route_Name rt); [intros [= _ <-]; done|].
  rewrite add_to_tables_eq. cbv zeta. destruct (Insert _ _ _) as [[err|] trie]; [|done].
  intros [= _ <-]. split; [|apply routesByName_set]. intros req. apply Router_Match_empty_host.
Qed.

Definition route_of (name host path pool : string) : Route := mkRoute name host path [] ∅ pool 0.

Lemma failed_add_route_invisible_witness :
  let r := snd (AddRoute NewRouter (Some (route_of "u" "h" "/u/:id" "p"))) in
  let r' := snd (AddRoute r (Some (route_of "v" "h" "/u/:name" "p"))) in
  routesByName r' = routesByName r.
Proof.
  intros r r'.
  refine (proj2 (failed_add_route_invisible r (Some (route_of "v" "h" "/u/:name" "p")) _ r' _)).
  vm_compute. reflexivity.
Defined.

(** ** [Swap] against repeated [AddRoute] *)

(** Adding routes one after the other, stopping at the first error. *)
Fixpoint AddRoutes (r : Router) (routes : list (option Route)) : result Router :=
  match routes with
  | [] => inr r
  | route :: rest =>
      match AddRoute r route with
      | (Some e, _) => inl e
      | (None, r) => AddRoutes r rest
      end
  end.

Definition route_names (routes : list (option Route)) : list string :=
  omap (fun o => Route_Name <$> o) routes.

Lemma validate_name route rt : validate route = inr rt -> Route_Name <$> route = Some (Route_Name rt).
Proof.
  destruct route as [x|]; simpl; [|done]. do 3 (case_bool_decide; [done|]).
  intros [= <-]. by case_match.
Qed.

Lemma add_to_tables_names r rt r' :
  add_to_tables r rt = (None, r') -> routesByName r' = <[Route_Name rt := rt]> (routesByName r).
Proof.
  rewrite add_to_tables_eq. cbv zeta. destruct (Insert _ _ _) as [[|] trie]; [done|]. by intros [= <-].
Qed.

Lemma AddRoutes_build routes r0 r' :
  NoDup (route_names routes) ->
  (forall n, n ∈ route_names routes -> routesByName r0 !! n = None) ->
  AddRoutes r0 routes = inr r' <->
  exists l, validate_all routes = inr l /\ build_tables r0 l = inr r'.
Proof.
  revert r0. induction routes as [|route rest IH]; intros r0 Hnd Hnew; cbn [AddRoutes validate_all].
  { split; [intros [= <-]; by exists []|by intros (l & [= <-] & [= <-])]. }
  unfold AddRoute. destruct (validate route) as [e|rt] eqn:Ev.
  { split; [done|]. by intros (l & ? & _). }
  pose proof (validate_name _ _ Ev) as Hn. unfold route_names in Hnd, Hnew. simpl in Hnd, Hnew.
  destruct route as [x|]; [|done]. simpl in *. injection Hn as Hn. rewrite Hn in *.
  rewrite (Hnew (Route_Name rt)) by set_solver. apply NoDup_cons in Hnd as [Hx Hnd].
  destruct (add_to_tables r0 rt) as [[e|] r1] eqn:Ea.
  - split; [done|]. intros (l & Hl & Hb). destruct (validate_all rest) as [|l']; [done|].
    injection Hl as <-. simpl in Hb. by rewrite Ea in Hb.
  - rewrite IH; [|done|].
    + split.
      * intros (l & Hl & Hb). exists (rt :: l). rewrite Hl. simpl. by rewrite Ea.
      * intros (l & Hl & Hb). destruct (validate_all rest) as [|l']; [done|]. injection Hl as <-.
        simpl in Hb. rewrite Ea in Hb. by exists l'.
    + intros n Hin. rewrite (add_to_tables_names _ _ _ Ea), lookup_insert_ne.
      * apply Hnew. set_solver.
      * intros <-. by apply Hx.
Qed.

(** with distinct route names, [Swap] succeeds exactly when adding the routes
    one by one to an empty router succeeds, and installs the same tables; when it
    fails, the router keeps its old ones. *)
Theorem swap_equals_add_routes r routes :
  NoDup (route_names routes) ->
  (forall r', Swap r routes = (None, r') <-> AddRoutes NewRouter routes = inr r') /\
  (forall e r', Swap r routes = (Some e, r') -> r' = r).
Proof.
  intros Hnd. split.
  - intros r'. rewrite (AddRoutes_build routes NewRouter r' Hnd); [|done]. unfold Swap.
    destruct (validate_all routes) as [e|l].
    + split; [done|]. by intros (l & ? & _).
    + destruct (build_tables NewRouter l) as [e|r1] eqn:Eb.
      * split; [done|]. intros (l' & [= <-] & Hb). congruence.
      * split; [intros [= <-]; by exists l|]. intros (l' & [= <-] & Hb). congruence.
  - intros e r'. unfold Swap. destruct (validate_all routes); [by intros [= _ <-]|].
    destruct (build_tables _ _); by intros [= _ <-].
Qed.

Lemma swap_equals_add_routes_witness :
  let routes := [Some (route_of "a" "" "/a" "p"); Some (route_of "b" "" "/b" "q")] in
  exists r', Swap NewRouter routes = (None, r') /\ AddRoutes NewRouter routes = inr r'.
Proof.
  intros routes. eexists. split; [reflexivity|].
  apply (proj1 (swap_equals_add_routes NewRouter routes
    ltac:(apply (bool_decide_unpack _); vm_compute; exact I))).
  reflexivity.
Defined.

(** ** Two spellings of one path *)

Definition slash_router : Router :=
  snd (AddRoute (snd (AddRoute NewRouter (Some (route_of "one" "" "/a" "p1"))))
         (Some (route_of "two" "" "/a/" "p2"))).

Definition get_a : Request := mkRequest "GET" "example.com" "" "/a" ∅ [] [].

(** routes for ["/a"] and ["/a/"] share one trie node but not their list of
    routes: both are accepted, the later one takes all requests, and removing it
    makes the path unreachable although the first route is still registered. *)
Theorem trailing_slash_shadows :
  RouteCount slash_router = 2%nat /\
  (rm_Route <$> Router_Match slash_router get_a) = Some (route_of "two" "" "/a/" "p2") /\
  GetRoute (RemoveRoute slash_router "two") "one" = Some (route_of "one" "" "/a" "p1") /\
  Router_Match (RemoveRoute slash_router "two") get_a = None.
Proof. vm_compute. done. Qed.

(** ** Round trip *)

(** The routes listed under a path have that path. *)
Definition ht_ok (ht : hostTrie) : Prop :=
  forall p l x, ht_routes ht !! p = Some l -> x ∈ l -> Route_Path x = p.

Definition router_ok (r : Router) : Prop := forall host ht, host_trie r host = Some ht -> ht_ok ht.

(** Routers built by any sequence of calls. *)
Inductive router_reachable : Router -> Prop :=
  | reach_router_new : router_reachable NewRouter
  | reach_router_add r route : router_reachable r -> router_reachable (snd (AddRoute r route))
  | reach_router_remove r name : router_reachable r -> router_reachable (RemoveRoute r name)
  | reach_router_swap r routes : router_reachable r -> router_reachable (snd (Swap r routes)).

Lemma host_trie_set r h ht h' x :
  host_trie (set_host_trie r h ht) h' = Some x -> x = ht \/ host_trie r h' = Some x.
Proof.
  unfold host_trie, set_host_trie.
  destruct (bool_decide (h = "")), (bool_decide (h' = "")); simpl; try (by eauto; naive_solver);
    destruct (wildcard_domain h), (wildcard_domain h'); simpl; try (by eauto);
    intros [[_ <-]|[_ H]]%lookup_insert_Some || intros H; eauto.
Qed.

Lemma host_trie_names r m h :
  host_trie (mkRouter (exactHosts r) (wildcardHosts r) (defaultTrie r) m) h = host_trie r h.
Proof. done. Qed.

Lemma router_ok_set r h ht : router_ok r -> ht_ok ht -> router_ok (set_host_trie r h ht).
Proof. intros Hr Hht h' x [->|H]%host_trie_set; [done|by apply (Hr h')]. Qed.

Lemma ht_ok_default r host : router_ok r -> ht_ok (default (newHostTrie host) (host_trie r host)).
Proof.
  intros Hr. destruct (host_trie r host) eqn:E; simpl; [by eapply Hr|].
  intros p l x Hp. simpl in Hp; by rewrite lookup_empty in Hp.
Qed.

Lemma add_to_tables_ok r route : router_ok r -> router_ok (snd (add_to_tables r route)).
Proof.
  intros Hr. rewrite add_to_tables_eq. cbv zeta.
  pose proof (ht_ok_default r (Route_Host route) Hr) as Hd.
  destruct (Insert _ _ _) as [[e|] trie]; [by apply router_ok_set|].
  intros h ht. cbn [snd]. rewrite host_trie_names. revert h ht. apply router_ok_set; [done|].
  intros p l x Hp Hx. simpl in Hp. apply lookup_insert_Some in Hp as [[<- <-]|[_ Hp]]; [|by eapply Hd].
  apply elem_of_app in Hx as [Hx| ->%list_elem_of_singleton]; [|done].
  destruct (ht_routes _ !! Route_Path route) as [l|] eqn:El; [by eapply Hd|set_solver].
Qed.

Lemma remove_named_in name l x : x ∈ remove_named name l -> x ∈ l.
Proof. induction l as [|y l IH]; simpl; [done|]. case_bool_decide; set_solver. Qed.

Lemma RemoveRoute_ok r name : router_ok r -> router_ok (RemoveRoute r name).
Proof.
  intros Hr. unfold RemoveRoute. destruct (routesByName r !! name) as [route|]; [|done].
  intros h ht. rewrite host_trie_names. revert h ht.
  change (router_ok (match host_trie r (Route_Host route) with
    | None => r
    | Some ht => match ht_routes ht !! Route_Path route with
        | None => r
        | Some routes =>
            set_host_trie r (Route_Host route)
              (if bool_decide (remove_named name routes = [])
               then mkHostTrie (ht_host ht) (Delete (ht_trie ht) (Route_Path route))
                      (delete (Route_Path route) (ht_routes ht))
               else mkHostTrie (ht_host ht) (ht_trie ht)
                      (<[Route_Path route := remove_named name routes]> (ht_routes ht)))
        end
    end)).
  destruct (host_trie r (Route_Host route)) as [ht0|] eqn:Eh; [|done].
  destruct (ht_routes ht0 !! Route_Path route) as [routes|] eqn:Er; [|done].
  assert (H0 : ht_ok ht0) by (by eapply Hr). apply router_ok_set; [done|].
  case_bool_decide; intros p l x Hp Hx; simpl in Hp.
  - apply lookup_delete_Some in Hp as [_ Hp]. by eapply H0.
  - apply lookup_insert_Some in Hp as [[<- <-]|[_ Hp]]; [|by eapply H0].
    apply remove_named_in in Hx. by eapply H0.
Qed.

Lemma build_tables_ok routes r r' : router_ok r -> build_tables r routes = inr r' -> router_ok r'.
Proof.
  revert r. induction routes as [|x l IH]; intros r Hr; simpl; [by intros [= <-]|].
  pose proof (add_to_tables_ok r x Hr) as H. destruct (add_to_tables r x) as [[e|] r1]; [done|].
  by apply IH.
Qed.

Lemma router_reachable_ok r : router_reachable r -> router_ok r.
Proof.
  assert (Hnew : router_ok NewRouter).
  { intros h ht. unfold host_trie. case_bool_decide; [done|].
    destruct (wildcard_domain h); simpl; by rewrite lookup_empty. }
  induction 1 as [|r route _ IH|r name _ IH|r routes _ IH]; [done| |by apply RemoveRoute_ok|].
  - unfold AddRoute. destruct (validate route); [done|].
    destruct (routesByName r !! _); [done|]. by apply add_to_tables_ok.
  - unfold Swap. destruct (validate_all routes) as [|l]; [done|].
    destruct (build_tables NewRouter l) eqn:E; [done|]. by apply (build_tables_ok l NewRouter).
Qed.


