(* ===== verification/ConnPool.v ===== *)
(** * Pools of backend connections: [internal/conn/pool.go]

    Idle connections are kept on a stack and handed out newest first; expired ones are
    closed on the way.  The critical sections of the mutex are steps.  [Get] has two, with
    the dialling between them, and closing a connection has two as well: the flag of the
    connection, then [Put].  A pooled connection and the network connection inside it are
    created together and share their number; the store knows which ones are open. *)
From S2P Require Import Prelude Bytes.

(** ** State *)

(** [pool] is the number of the pool the connection goes back to. *)
Record PooledConn := mkConn { pool : option nat; createdAt : Z; lastUsed : Z; closeOnce : bool }.

Record store := mkStore { conns : gmap nat PooledConn; next : nat; opened : gset nat }.

Record PoolConfig := mkConfig {
  BackendID : string; Address : string; MaxSize : Z; MaxLifetime : Z; IdleTimeout : Z; DialTimeout : Z
}.

Definition DefaultPoolConfig : PoolConfig :=
  mkConfig "" "" 10 (3600 * 10 ^ 9) (1800 * 10 ^ 9) (5 * 10 ^ 9).

Record Pool := mkPool {
  config : PoolConfig;
  idle : list nat;
  active : Z;
  closed : bool;
  hits : Z; misses : Z; evictions : Z
}.

(** [make] panics on a negative capacity. *)
Definition NewPool (c : option PoolConfig) : go Pool :=
  let c := default DefaultPoolConfig c in
  if MaxSize c <? 0 then Panic else Ok (mkPool c [] 0 false 0 0 0).

(** ** Connections *)

(** Clock readings are monotonic nanoseconds since the start of the process. *)
Definition isExpired (now : Z) (maxLifetime idleTimeout : Z) (c : PooledConn) : bool :=
  ((0 <? maxLifetime) && (maxLifetime <? now - createdAt c))
  || ((0 <? idleTimeout) && (idleTimeout <? now - lastUsed c)).

Definition no_conn : PooledConn := mkConn None 0 0 false.
Definition conn_at (s : store) (c : nat) : PooledConn := default no_conn (conns s !! c).
Definition expired (now : Z) (p : Pool) (s : store) (c : nat) : bool :=
  isExpired now (MaxLifetime (config p)) (IdleTimeout (config p)) (conn_at s c).

Definition set_conn (c : nat) (x : PooledConn) (s : store) : store := mkStore (<[c := x]> (conns s)) (next s) (opened s).
Definition close_raw (c : nat) (s : store) : store := mkStore (conns s) (next s) (opened s ∖ {[c]}).
Definition close_all (cs : list nat) (s : store) : store := foldl (fun s c => close_raw c s) s cs.

(** ** Operations of a pool *)

Definition with_idle (l : list nat) (p : Pool) : Pool :=
  mkPool (config p) l (active p) (closed p) (hits p) (misses p) (evictions p).
Definition add_active (d : Z) (p : Pool) : Pool :=
  mkPool (config p) (idle p) (i64 (active p + d)) (closed p) (hits p) (misses p) (evictions p).
Definition count_hit (p : Pool) : Pool :=
  mkPool (config p) (idle p) (active p) (closed p) (i64 (hits p + 1)) (misses p) (evictions p).
Definition count_miss (p : Pool) : Pool :=
  mkPool (config p) (idle p) (active p) (closed p) (hits p) (i64 (misses p + 1)) (evictions p).

(** The loop of [Get] over the stack, its top first. *)
Fixpoint get_idle (now : Z) (p : Pool) (stack : list nat) (s : store) : option nat * list nat * store :=
  match stack with
  | [] => (None, [], s)
  | c :: rest => if expired now p s c then get_idle now p rest (close_raw c s) else (Some c, rest, s)
  end.

Inductive get_begin := Refused | Reused (c : nat) | MustDial.

(** The first critical section of [Get]; [self] is the pool's number. *)
Definition Get (self : nat) (now : Z) (p : Pool) (s : store) : get_begin * Pool * store :=
  if closed p then (Refused, p, s)
  else
    let '(found, rest, s) := get_idle now p (rev (idle p)) s in
    let p := with_idle (rev rest) p in
    match found with
    | Some c =>
        let x := conn_at s c in
        (Reused c, add_active 1 (count_hit p), set_conn c (mkConn (Some self) (createdAt x) (lastUsed x) (closeOnce x)) s)
    | None => (MustDial, p, s)
    end.

(** [DoubleUnlock]: the mutex is unlocked by hand and once more by the deferred call, which
    ends the process. *)
Inductive get_end := DialFailed | Dialed (c : nat) | DoubleUnlock.

(** The second critical section, after a dial that succeeded or not. *)
Definition Get_dialed (self : nat) (now : Z) (ok : bool) (p : Pool) (s : store) : get_end * Pool * store :=
  if negb ok then (DialFailed, count_miss p, s)
  else if closed p then (DoubleUnlock, count_miss p, mkStore (conns s) (S (next s)) (opened s))
  else
    let c := next s in
    (Dialed c, add_active 1 (count_miss p),
     mkStore (<[c := mkConn (Some self) now now false]> (conns s)) (S c) ({[c]} ∪ opened s)).

Definition Put (self : nat) (now : Z) (c : nat) (p : Pool) (s : store) : Pool * store :=
  let p := add_active (-1) p in
  if closed p || expired now p s c || (MaxSize (config p) <=? len (idle p)) then (p, close_raw c s)
  else (with_idle (idle p ++ [c]) p, set_conn c (mkConn (Some self) (createdAt (conn_at s c)) now (closeOnce (conn_at s c))) s).

(** One tick of [evictIdle]. *)
Definition evictIdle (now : Z) (p : Pool) (s : store) : Pool * store :=
  if closed p then (p, s)
  else
    let gone := List.filter (expired now p s) (idle p) in
    let remaining := List.filter (fun c => negb (expired now p s c)) (idle p) in
    (mkPool (config p) remaining (active p) (closed p) (hits p) (misses p) (i64 (evictions p + len gone)),
     close_all gone s).

Definition evict_interval (p : Pool) : Z :=
  let interval := Z.quot (IdleTimeout (config p)) 2 in
  let interval := if interval <? 10 * 10 ^ 9 then 10 * 10 ^ 9 else interval in
  if 300 * 10 ^ 9 <? interval then 300 * 10 ^ 9 else interval.

Definition Close (p : Pool) (s : store) : Pool * store :=
  if closed p then (p, s)
  else (mkPool (config p) [] (active p) true (hits p) (misses p) (evictions p), close_all (idle p) s).

Record PoolStats := mkStats {
  st_Idle : Z; st_Active : Z; st_MaxSize : Z; st_Hits : Z; st_Misses : Z; st_Evictions : Z
}.
Definition Stats (p : Pool) : PoolStats :=
  mkStats (len (idle p)) (active p) (MaxSize (config p)) (hits p) (misses p) (evictions p).

(** ** The manager *)

Record world := mkWorld { w_pools : gmap nat Pool; w_next : nat; w_store : store }.
Record PoolManager := mkManager { pm_pools : gmap string nat; pm_config : option PoolConfig }.

Definition NewPoolManager (c : option PoolConfig) : PoolManager := mkManager ∅ c.

(** [PooledConn.Close] run to its end: only the first call has an effect. *)
Definition Conn_Close (now : Z) (c : nat) (w : world) : world :=
  let x := conn_at (w_store w) c in
  if closeOnce x then w
  else
    let s := set_conn c (mkConn (pool x) (createdAt x) (lastUsed x) true) (w_store w) in
    match pool x with
    | Some q =>
        match w_pools w !! q with
        | Some p => let '(p, s) := Put q now c p s in mkWorld (<[q := p]> (w_pools w)) (w_next w) s
        | None => mkWorld (w_pools w) (w_next w) s
        end
    | None => mkWorld (w_pools w) (w_next w) (close_raw c s)
    end.

Definition GetPool (backendID address : string) (pm : PoolManager) (w : world) : go (nat * PoolManager * world) :=
  match pm_pools pm !! backendID with
  | Some q => Ok (q, pm, w)
  | None =>
      let c := default DefaultPoolConfig (pm_config pm) in
      let* p := NewPool (Some (mkConfig backendID address (MaxSize c) (MaxLifetime c) (IdleTimeout c) (DialTimeout c))) in
      let q := w_next w in
      Ok (q, mkManager (<[backendID := q]> (pm_pools pm)) (pm_config pm), mkWorld (<[q := p]> (w_pools w)) (S q) (w_store w))
  end.

Definition close_pool (q : nat) (w : world) : world :=
  match w_pools w !! q with
  | Some p => let '(p, s) := Close p (w_store w) in mkWorld (<[q := p]> (w_pools w)) (w_next w) s
  | None => w
  end.

Definition RemovePool (backendID : string) (pm : PoolManager) (w : world) : bool * PoolManager * world :=
  match pm_pools pm !! backendID with
  | None => (false, pm, w)
  | Some q => (true, mkManager (delete backendID (pm_pools pm)) (pm_config pm), close_pool q w)
  end.

(** The pools are closed in the order in which the map enumerates them. *)
Definition Manager_Close `{!MapRange} (pm : PoolManager) (w : world) : PoolManager * world :=
  (mkManager ∅ (pm_config pm), foldl (fun w kq => close_pool (snd kq) w) w (map_range (pm_pools pm))).

(** ** Clients of one pool

    [held] are the connections that clients use, [closing] those whose [Close] has set the
    flag and not yet reached [Put], [lost] those that a client closed while the flag was
    already set, and [dialing] the calls of [Get] between their critical sections. *)
Record system := mkSystem {
  sy_pool : Pool; sy_store : store;
  held : list nat; closing : list nat; lost : list nat; dialing : nat; crashed : bool
}.

Inductive step : system -> system -> Prop :=
  | step_get now p s h cl lo d c p' s' :
      Get 0 now p s = (Reused c, p', s') ->
      step (mkSystem p s h cl lo d false) (mkSystem p' s' (c :: h) cl lo d false)
  | step_dial now p s h cl lo d p' s' :
      Get 0 now p s = (MustDial, p', s') ->
      step (mkSystem p s h cl lo d false) (mkSystem p' s' h cl lo (S d) false)
  | step_dial_failed now p s h cl lo d p' s' :
      Get_dialed 0 now false p s = (DialFailed, p', s') ->
      step (mkSystem p s h cl lo (S d) false) (mkSystem p' s' h cl lo d false)
  | step_dialed now p s h cl lo d c p' s' :
      Get_dialed 0 now true p s = (Dialed c, p', s') ->
      step (mkSystem p s h cl lo (S d) false) (mkSystem p' s' (c :: h) cl lo d false)
  | step_crash now p s h cl lo d p' s' :
      Get_dialed 0 now true p s = (DoubleUnlock, p', s') ->
      step (mkSystem p s h cl lo (S d) false) (mkSystem p' s' h cl lo d true)
  | step_put now p s h1 c h2 cl lo d p' s' :
      Put 0 now c p s = (p', s') ->
      step (mkSystem p s (h1 ++ c :: h2) cl lo d false) (mkSystem p' s' (h1 ++ h2) cl lo d false)
  | step_close_first p s h1 c h2 cl lo d x :
      conns s !! c = Some x -> closeOnce x = false ->
      step (mkSystem p s (h1 ++ c :: h2) cl lo d false)
           (mkSystem p (set_conn c (mkConn (pool x) (createdAt x) (lastUsed x) true) s) (h1 ++ h2) (c :: cl) lo d false)
  | step_close_again p s h1 c h2 cl lo d x :
      conns s !! c = Some x -> closeOnce x = true ->
      step (mkSystem p s (h1 ++ c :: h2) cl lo d false) (mkSystem p s (h1 ++ h2) cl (c :: lo) d false)
  | step_close_put now p s h cl1 c cl2 lo d p' s' :
      Put 0 now c p s = (p', s') ->
      step (mkSystem p s h (cl1 ++ c :: cl2) lo d false) (mkSystem p' s' h (cl1 ++ cl2) lo d false)
  | step_evict now p s h cl lo d p' s' :
      evictIdle now p s = (p', s') -> step (mkSystem p s h cl lo d false) (mkSystem p' s' h cl lo d false)
  | step_close_pool p s h cl lo d p' s' :
      Close p s = (p', s') -> step (mkSystem p s h cl lo d false) (mkSystem p' s' h cl lo d false).

Definition start (p : Pool) : system := mkSystem p (mkStore ∅ 0 ∅) [] [] [] 0 false.

Definition out (s : system) : list nat := held s ++ closing s ++ lost s.

(** The connections [l] own the store: they are the open ones, each once. *)
Record owns (l : list nat) (s : store) : Prop := {
  ow_open : opened s = list_to_set l;
  ow_nodup : NoDup l;
  ow_known : forall c, c ∈ l -> (c < next s)%nat
}.

(** A pool whose connections [l] are out: every open connection is idle or out, and the
    counters are right. *)
Record pool_ok (p : Pool) (s : store) (l : list nat) : Prop := {
  ok_owns : owns (idle p ++ l) s;
  ok_active : active p = i64 (len l);
  ok_bound : len (idle p) <= MaxSize (config p);
  ok_closed : closed p = true -> idle p = []
}.

Lemma owns_perm l l' s : l ≡ₚ l' -> owns l s -> owns l' s.
Proof.
  intros P [H1 H2 H3]. split; [by rewrite H1, P|by rewrite <- P|]. intros c. rewrite <- P. apply H3.
Qed.

Lemma owns_set_conn l c x s : owns l s -> owns l (set_conn c x s).
Proof. by intros [H1 H2 H3]. Qed.

Lemma owns_close l c s : owns (c :: l) s -> owns l (close_raw c s).
Proof.
  intros [H1 H2 H3]. apply NoDup_cons in H2 as [H2 H2']. split; cbn [close_raw opened next]; [|done|].
  - rewrite H1. set_solver.
  - intros x Hx. apply H3. by right.
Qed.

Lemma owns_close_all gone l s : owns (gone ++ l) s -> owns l (close_all gone s).
Proof.
  revert s. induction gone as [|c gone IH]; intros s H; [done|]. apply IH. by apply owns_close.
Qed.

Lemma owns_new l s x :
  owns l s -> owns (next s :: l) (mkStore (<[next s := x]> (conns s)) (S (next s)) ({[next s]} ∪ opened s)).
Proof.
  intros [H1 H2 H3]. split; cbn [opened next].
  - by rewrite H1.
  - apply NoDup_cons. split; [|done]. intros H%H3. lia.
  - intros c [->|H%H3]%elem_of_cons; lia.
Qed.

Lemma filter_split {A} (f : A -> bool) (l : list A) :
  l ≡ₚ List.filter f l ++ List.filter (fun x => negb (f x)) l.
Proof.
  induction l as [|x l IH]; [done|]. cbn. destruct (f x); cbn; [by rewrite IH at 1|].
  rewrite IH at 1. solve_Permutation.
Qed.

(** The connections [Get] walks past are closed, the one it returns is on top of the rest. *)
Lemma get_idle_owns now p stack s rest l found s' :
  get_idle now p stack s = (found, rest, s') -> owns (stack ++ l) s ->
  owns (match found with Some c => [c] | None => [] end ++ rest ++ l) s' /\
  suffix rest stack /\ (found = None -> rest = []).
Proof.
  revert s. induction stack as [|c stack IH]; intros s E Ho; cbn [get_idle] in E.
  - injection E as <- <- <-. split_and!; [done|done|done].
  - destruct (expired now p s c).
    + apply IH in E as (H1 & H2 & H3); [|by apply owns_close]. split_and!; [done|by apply suffix_cons_r|done].
    + injection E as <- <- <-. split_and!; [done|by apply suffix_cons_r|done].
Qed.

Lemma suffix_rev_len {A} (rest l : list A) : suffix rest (rev l) -> len (rev rest) <= len l.
Proof. intros H%suffix_length. unfold len. rewrite !List.length_rev in *. lia. Qed.

Lemma pool_ok_perm p s l l' : l ≡ₚ l' -> pool_ok p s l -> pool_ok p s l'.
Proof.
  intros P [H1 H2 H3 H4]. split; [|by unfold len; rewrite <- P|done|done].
  eapply owns_perm; [by rewrite <- P|done].
Qed.

Lemma pool_ok_set_conn p s l c x : pool_ok p s l -> pool_ok p (set_conn c x s) l.
Proof. intros [H1 H2 H3 H4]. split; [by apply owns_set_conn|done..]. Qed.

Lemma Get_ok self now p s l r p' s' :
  Get self now p s = (r, p', s') -> pool_ok p s l ->
  pool_ok p' s' (match r with Reused c => [c] | _ => [] end ++ l).
Proof.
  unfold Get. intros E [H1 H2 H3 H4]. destruct (closed p) eqn:Ec; [by injection E as <- <- <-; split; rewrite ?Ec|].
  destruct (get_idle now p (rev (idle p)) s) as [[found rest] s1] eqn:Eg.
  apply (get_idle_owns _ _ _ _ _ l) in Eg as (Ho & Hs & Hn);
    [|eapply owns_perm; [|exact H1]; apply Permutation_app_tail, Permutation_rev].
  pose proof (suffix_rev_len _ _ Hs) as Hlen.
  destruct found as [c|]; injection E as <- <- <-.
  - apply pool_ok_set_conn. split; cbn; [|rewrite H2, i64_add_l; unfold len; cbn; f_equal; lia|lia|congruence].
    eapply owns_perm; [|exact Ho]. rewrite <- (Permutation_rev rest). cbn. solve_Permutation.
  - rewrite (Hn eq_refl) in *. by split; cbn; [|done|unfold len in *; cbn in *; lia|].
Qed.

Lemma Get_dialed_ok self now ok p s l r p' s' :
  Get_dialed self now ok p s = (r, p', s') -> pool_ok p s l ->
  pool_ok p' s' (match r with Dialed c => [c] | _ => [] end ++ l).
Proof.
  unfold Get_dialed. intros E [H1 H2 H3 H4]. destruct ok; cbn [negb] in E; [|by injection E as <- <- <-; split].
  destruct (closed p) eqn:Ec; injection E as <- <- <-.
  - split; cbn; [|done|done|by intros _; apply H4]. destruct H1 as [O1 O2 O3]. split; [done..|]. cbn. intros c Hc%O3. lia.
  - split; cbn; [|rewrite H2, i64_add_l; unfold len; cbn; f_equal; lia|done|congruence].
    eapply owns_perm; [|by apply owns_new]. solve_Permutation.
Qed.

Lemma Put_ok self now c p s l p' s' :
  Put self now c p s = (p', s') -> pool_ok p s (c :: l) -> pool_ok p' s' l.
Proof.
  unfold Put. cbn [closed add_active config idle]. intros E [H1 H2 H3 H4].
  assert (Ha : i64 (active p + -1) = i64 (len l))
    by (rewrite H2, i64_add_l; unfold len; cbn; f_equal; lia).
  destruct (closed p || _ || _) eqn:Ec; injection E as <- <-.
  - split; [|done..]. apply owns_close. eapply owns_perm; [|exact H1]. solve_Permutation.
  - apply orb_false_iff in Ec as [[Ec _]%orb_false_iff El]. b2p.
    apply pool_ok_set_conn. split; cbn; [|done|unfold len in *; rewrite length_app; cbn; lia|congruence].
    by rewrite <- app_assoc.
Qed.

Lemma evict_ok now p s l p' s' : evictIdle now p s = (p', s') -> pool_ok p s l -> pool_ok p' s' l.
Proof.
  unfold evictIdle. intros E [H1 H2 H3 H4]. destruct (closed p) eqn:Ec; injection E as <- <-; [by split; rewrite ?Ec|].
  pose proof (filter_split (expired now p s) (idle p)) as P.
  split; cbn; [|done| |congruence].
  - apply owns_close_all. eapply owns_perm; [|exact H1]. rewrite app_assoc. by apply Permutation_app_tail.
  - apply Permutation_length in P. unfold len in *. rewrite length_app in P. lia.
Qed.

Lemma Close_ok p s l p' s' : Close p s = (p', s') -> pool_ok p s l -> pool_ok p' s' l.
Proof.
  unfold Close. intros E [H1 H2 H3 H4]. destruct (closed p) eqn:Ec; injection E as <- <-; [by split; rewrite ?Ec|].
  split; cbn; [by apply owns_close_all|done|unfold len in *; cbn; lia|done].
Qed.

Definition accounted (s : system) : Prop := pool_ok (sy_pool s) (sy_store s) (out s).

Lemma step_accounted s s' : step s s' -> accounted s -> accounted s'.
Proof.
  unfold accounted, out. intros Hs. destruct Hs; cbn [sy_pool sy_store held closing lost]; intros Hok.
  - by apply (Get_ok _ _ _ _ _ _ _ _ H Hok).
  - by apply (Get_ok _ _ _ _ _ _ _ _ H Hok).
  - by apply (Get_dialed_ok _ _ _ _ _ _ _ _ _ H Hok).
  - by apply (Get_dialed_ok _ _ _ _ _ _ _ _ _ H Hok).
  - by apply (Get_dialed_ok _ _ _ _ _ _ _ _ _ H Hok).
  - eapply Put_ok; [done|]. eapply pool_ok_perm; [|done]. solve_Permutation.
  - apply pool_ok_set_conn. eapply pool_ok_perm; [|done]. solve_Permutation.
  - eapply pool_ok_perm; [|done]. solve_Permutation.
  - eapply Put_ok; [done|]. eapply pool_ok_perm; [|done]. solve_Permutation.
  - by eapply evict_ok.
  - by eapply Close_ok.
Qed.

Lemma start_accounted c p : NewPool c = Ok p -> accounted (start p).
Proof.
  unfold NewPool. intros H. destruct (Z.ltb_spec (MaxSize (default DefaultPoolConfig c)) 0); [done|].
  injection H as <-. split; [|done|done|done]. split; [done|constructor|]. intros x Hx. by apply elem_of_nil in Hx.
Qed.

Lemma reachable_accounted c p s : NewPool c = Ok p -> rtc step (start p) s -> accounted s.
Proof.
  intros Hp Hr. pose proof (start_accounted _ _ Hp) as H0. revert H0.
  induction Hr as [|x y z Hxy _ IH]; [done|]. intros H. apply IH. by eapply step_accounted.
Qed.


(** *** Connections that are closed twice *)

Lemma lost_step s s' c : step s s' -> c ∈ lost s -> c ∈ lost s'.
Proof. intros Hs. destruct Hs; cbn [lost]; set_solver. Qed.

(** The flag of a connection is never reset.  The second client of a connection that was
    returned by [Close] closes it in vain: it is not returned, and stays open and counted
    as active whatever happens afterwards. *)
Theorem reused_connection_leaks c p s1 s2 s3 x h1 h2
  (Hp : NewPool c = Ok p) (Hr : rtc step (start p) s1)
  (Hheld : held s1 = h1 ++ x :: h2) (Hflag : closeOnce (conn_at (sy_store s1) x) = true)
  (Hrun : s2 = mkSystem (sy_pool s1) (sy_store s1) (h1 ++ h2) (closing s1) (x :: lost s1) (dialing s1) false)
  (Hlater : rtc step s2 s3) :
  x ∈ opened (sy_store s3) /\ x ∉ idle (sy_pool s3) /\ x ∉ held s3.
Proof.
  assert (H1 : accounted s2).
  { pose proof (reachable_accounted _ _ _ Hp Hr) as H. subst s2. unfold accounted, out in *. cbn.
    rewrite Hheld in H. eapply pool_ok_perm; [|exact H]. solve_Permutation. }
  assert (H2 : x ∈ lost s2) by (subst s2; cbn; set_solver). clear Hrun.
  assert (accounted s3 /\ x ∈ lost s3) as [[[Ho Hn _] _ _ _] Hx].
  { induction Hlater as [|a b d Hab _ IH]; [done|]. apply IH; [by eapply step_accounted|by eapply lost_step]. }
  unfold out in *. rewrite Ho. split; [set_solver|].
  apply NoDup_app in Hn as (_ & Hd & Hn). apply NoDup_app in Hn as (_ & Hd' & _). set_solver.
Qed.

(** Closing a pool while a client dials ends the process: [Get] finds the pool closed and
    unlocks its mutex twice. *)
Theorem closing_during_dial_crashes c p (Hp : NewPool c = Ok p) :
  exists s, rtc step (start p) s /\ crashed s = true.
Proof.
  unfold NewPool in Hp. destruct (MaxSize (default DefaultPoolConfig c) <? 0); [done|]. injection Hp as <-.
  eexists. split.
  - eapply rtc_l; [apply (step_dial 0); reflexivity|]. eapply rtc_l; [apply step_close_pool; reflexivity|].
    eapply rtc_l; [apply (step_crash 0); reflexivity|]. apply rtc_refl.
  - reflexivity.
Qed.

(** ** The manager *)

(** A backend has one pool, with the address of the first request for it: later requests get
    the same pool whatever address they ask for. *)
Theorem pool_per_backend id a1 a2 pm w q pm1 w1
  (Hg : GetPool id a1 pm w = Ok (q, pm1, w1)) :
  GetPool id a2 pm1 w1 = Ok (q, pm1, w1) /\
  (pm_pools pm !! id = None -> exists p, w_pools w1 !! q = Some p /\ Address (config p) = a1 /\ closed p = false).
Proof.
  unfold GetPool in *. destruct (pm_pools pm !! id) as [q0|] eqn:E.
  - injection Hg as <- <- <-. by rewrite E.
  - unfold NewPool in Hg. cbn in Hg. destruct (_ <? 0); [done|]. injection Hg as <- <- <-. cbn.
    rewrite lookup_insert_eq. split; [done|]. intros _. eexists. by rewrite lookup_insert_eq.
Qed.

Definition shut (p : Pool) : Prop := closed p = true.

Lemma close_pool_pools q w q' p :
  w_pools w !! q' = Some p ->
  exists p', w_pools (close_pool q w) !! q' = Some p' /\ (shut p \/ q = q' -> shut p') /\
    config p' = config p /\ (shut p' -> idle p' = [] \/ shut p /\ p' = p).
Proof.
  intros H. unfold close_pool. destruct (decide (q = q')) as [<-|Hne].
  - rewrite H. unfold Close. destruct (closed p) eqn:Ec; cbn; rewrite lookup_insert_eq; eexists; split_and!; try done; auto.
  - destruct (w_pools w !! q) as [p0|] eqn:E0; [|exists p; split_and!; [done|by intros [?|?]|done|by right]].
    destruct (Close p0 (w_store w)) as [p1 s1]. cbn. rewrite lookup_insert_ne by done.
    exists p. split_and!; [done|by intros [?|?]|done|by right].
Qed.

Lemma close_pools l w q p :
  w_pools w !! q = Some p -> q ∈ l \/ shut p ->
  exists p', w_pools (foldl (fun w q => close_pool q w) w l) !! q = Some p' /\ shut p' /\
    (idle p' = [] \/ shut p /\ p' = p).
Proof.
  revert w p. induction l as [|q0 l IH]; intros w p H Hin; cbn [foldl].
  - destruct Hin as [Hin%elem_of_nil|Hs]; [done|]. exists p. auto.
  - destruct (close_pool_pools q0 w q p H) as (p1 & H1 & Hs1 & _ & Hi1).
    destruct (IH _ p1 H1) as (p2 & H2 & Hs2 & Hi2).
    { destruct Hin as [[->|Hin]%elem_of_cons|Hs]; auto. }
    exists p2. split_and!; [done|done|]. destruct Hi2 as [?|[Hs ->]]; [by left|]. by apply Hi1.
Qed.

(** Closing the manager closes every pool it has handed out: none keeps an idle connection
    that it did not keep when it was closed before. *)
Theorem manager_close_closes_all `{!MapRange} pm w pm' w' id q p
  (Hc : Manager_Close pm w = (pm', w')) (Hq : pm_pools pm !! id = Some q) (Hp : w_pools w !! q = Some p) :
  pm_pools pm' = ∅ /\ exists p', w_pools w' !! q = Some p' /\ shut p' /\ (closed p = false -> idle p' = []).
Proof.
  unfold Manager_Close in Hc. injection Hc as <- <-. split; [done|].
  assert (E : foldl (fun w kq => close_pool (snd kq) w) w (map_range (pm_pools pm))
              = foldl (fun w q => close_pool q w) w (snd <$> map_range (pm_pools pm))) by (by rewrite foldl_fmap).
  rewrite E. destruct (close_pools (snd <$> map_range (pm_pools pm)) w q p Hp) as (p' & H1 & H2 & H3).
  { left. apply list_elem_of_fmap. exists (id, q). split; [done|]. rewrite map_range_perm.
    by apply elem_of_map_to_list. }
  exists p'. split_and!; [done|done|]. intros Ec. destruct H3 as [?|[Hs _]]; [done|]. unfold shut in Hs. congruence.
Qed.

(** ** Examples *)

Definition demo_config : PoolConfig := mkConfig "web-1" "10.0.0.1:80" 2 0 0 (5 * 10 ^ 9).
Definition demo_pool : Pool := mkPool demo_config [] 0 false 0 0 0.

(** Two clients dial, both return their connections, and one is used again. *)
Lemma demo_busy_reachable : exists s,
  rtc step (start demo_pool) s /\ held s = [1%nat] /\ closing s = [] /\ lost s = [] /\
  crashed s = false /\ idle (sy_pool s) = [0%nat] /\ closeOnce (conn_at (sy_store s) 1%nat) = true.
Proof.
  eexists. split.
  - eapply rtc_l; [apply (step_dial 4); reflexivity|]. eapply rtc_l; [apply (step_dialed 5); reflexivity|].
    eapply rtc_l; [apply (step_dial 5); reflexivity|]. eapply rtc_l; [apply (step_dialed 6); reflexivity|].
    eapply rtc_l; [apply (step_put 7 _ _ [1%nat] 0%nat []); reflexivity|]. cbn [app].
    eapply rtc_l; [eapply (step_close_first _ _ [] 1%nat []); reflexivity|]. cbn [app].
    eapply rtc_l; [apply (step_close_put 8 _ _ _ [] 1%nat []); reflexivity|]. cbn [app].
    eapply rtc_l; [apply (step_get 9); reflexivity|]. apply rtc_refl.
  - split_and!; reflexivity.
Qed.


Lemma reused_connection_leaks_witness : exists s,
  rtc step (start demo_pool) s /\ held s = [] /\ closing s = [] /\ 1%nat ∈ opened (sy_store s).
Proof.
  destruct demo_busy_reachable as (s & Hr & Hh & Hcl & Hlo & Hcr & Hi & Hf).
  destruct s as [p st h cl lo d cr]. cbn in *. subst h cl lo cr.
  exists (mkSystem p st [] [] [1%nat] d false). split_and!; [|done|done|].
  - eapply rtc_r; [exact Hr|]. unfold conn_at in Hf. destruct (conns st !! 1%nat) as [x|] eqn:Ex; [|done].
    by apply (step_close_again p st [] 1%nat [] [] [] d x).
  - by apply (reused_connection_leaks (Some demo_config) demo_pool (mkSystem p st [1%nat] [] [] d false)
      (mkSystem p st [] [] [1%nat] d false) (mkSystem p st [] [] [1%nat] d false) 1%nat [] []
      eq_refl Hr eq_refl Hf eq_refl (rtc_refl _ _)).
Defined.

Lemma closing_during_dial_crashes_witness : exists s, rtc step (start demo_pool) s /\ crashed s = true.
Proof. exact (closing_during_dial_crashes (Some demo_config) demo_pool eq_refl). Defined.

Definition empty_world : world := mkWorld ∅ 0 (mkStore ∅ 0 ∅).

Lemma pool_per_backend_witness : exists pm w,
  GetPool "web-1" "10.0.0.1:80" (NewPoolManager None) empty_world = Ok (0%nat, pm, w) /\
  GetPool "web-1" "10.0.0.2:80" pm w = Ok (0%nat, pm, w).
Proof.
  eexists _, _. split; [reflexivity|].
  by apply (pool_per_backend "web-1" "10.0.0.1:80" "10.0.0.2:80" (NewPoolManager None) empty_world).
Defined.

Lemma manager_close_closes_all_witness : exists p,
  w_pools (snd (Manager_Close (H := gmap_range) (mkManager {["web-1" := 3%nat]} None)
    (mkWorld {[3%nat := demo_pool]} 4 (mkStore ∅ 0 ∅)))) !! 3%nat = Some p /\ closed p = true.
Proof.
  destruct (Manager_Close (H := gmap_range) _ _) as [pm' w'] eqn:E.
  destruct (manager_close_closes_all _ _ _ _ "web-1" 3%nat demo_pool E eq_refl eq_refl) as (_ & p & H & Hs & _).
  exists p. cbn [snd]. split; [exact H|exact Hs].
Defined.
