(* ===== verification/RingBuffer.v ===== *)
(** * The lock-free ring buffer: [pkg/utils/ring_buffer.go]

    First the methods as functions on a buffer, with the refinement to a bounded
    FIFO queue; then the buffer shared by one producer and one consumer, whose
    atomic loads and stores interleave arbitrarily.  Positions are 64-bit counters
    that wrap around. *)
From S2P Require Import Prelude.

Section Buffer.
Context {T : Type}.

Record RingBuffer := mkRB {
  buffer : list (option T);   (* [None]: the zero value of the type *)
  mask : Z;                   (* uint64 *)
  head : Z;                   (* atomic uint64 *)
  tail : Z                    (* atomic uint64 *)
}.

(** The bit trick that rounds up to a power of two. *)
Definition round_up (capacity : Z) : Z :=
  let c := u64 (u64 capacity - 1) in
  let c := Z.lor c (Z.shiftr c 1) in
  let c := Z.lor c (Z.shiftr c 2) in
  let c := Z.lor c (Z.shiftr c 4) in
  let c := Z.lor c (Z.shiftr c 8) in
  let c := Z.lor c (Z.shiftr c 16) in
  let c := Z.lor c (Z.shiftr c 32) in
  u64 (c + 1).

(** [None] is [ErrInvalidCapacity]. *)
Definition NewRingBuffer (capacity : Z) : option RingBuffer :=
  if capacity <=? 0 then None
  else let cap64 := round_up capacity in
       Some (mkRB (replicate (Z.to_nat cap64) None) (u64 (cap64 - 1)) 0 0).

Definition Capacity (rb : RingBuffer) : Z := Z.of_nat (length (buffer rb)).
Definition Len (rb : RingBuffer) : Z := i64 (u64 (tail rb - head rb)).
Definition IsEmpty (rb : RingBuffer) : bool := head rb =? tail rb.
Definition IsFull (rb : RingBuffer) : bool := Len rb =? Capacity rb.

Definition slot (rb : RingBuffer) (pos : Z) : nat := Z.to_nat (Z.land pos (mask rb)).

Definition Push (val : T) (rb : RingBuffer) : bool * RingBuffer :=
  if Capacity rb <=? u64 (tail rb - head rb) then (false, rb)
  else (true, mkRB (<[slot rb (tail rb) := Some val]> (buffer rb)) (mask rb) (head rb) (u64 (tail rb + 1))).

Definition Pop (rb : RingBuffer) : option T * bool * RingBuffer :=
  if head rb =? tail rb then (None, false, rb)
  else (default None (buffer rb !! slot rb (head rb)), true,
        mkRB (buffer rb) (mask rb) (u64 (head rb + 1)) (tail rb)).

Definition TryPush := Push.
Definition TryPop := Pop.

Definition Snapshot (rb : RingBuffer) : list (option T) :=
  (fun i => default None (buffer rb !! slot rb (u64 (head rb + Z.of_nat i))))
    <$> seq 0 (Z.to_nat (u64 (tail rb - head rb))).

Definition Reset (rb : RingBuffer) : RingBuffer := mkRB (buffer rb) (mask rb) 0 0.
End Buffer.
Arguments RingBuffer : clear implicits.

(** ** Rounding up to a power of two *)

(** [r] has the bits of [n] and of the [d - 1] positions below each. *)
Definition smeared (d n r : Z) : Prop :=
  forall i, 0 <= i -> Z.testbit r i = true <-> exists j, i <= j < i + d /\ Z.testbit n j = true.

Lemma smear_step d n r :
  0 < d -> smeared d n r -> smeared (2 * d) n (Z.lor r (Z.shiftr r d)).
Proof.
  intros Hd Hs i Hi. rewrite Z.lor_spec, Z.shiftr_spec, orb_true_iff by lia.
  rewrite (Hs i Hi), (Hs (i + d)) by lia. split.
  - intros [(j & Hj & Hb)|(j & Hj & Hb)]; exists j; (split; [lia|done]).
  - intros (j & Hj & Hb). destruct (Z.lt_ge_cases j (i + d)); [left|right]; exists j; (split; [lia|done]).
Qed.

Lemma smear_nonneg r d : 0 <= r -> 0 <= Z.lor r (Z.shiftr r d).
Proof. intros Hr. apply Z.lor_nonneg. split; [done|]. by apply Z.shiftr_nonneg. Qed.

Lemma smeared_all n r :
  0 < n < 2 ^ 64 -> smeared 64 n r -> 0 <= r -> r = 2 ^ (Z.log2 n + 1) - 1.
Proof.
  intros Hn Hs Hr. pose proof (Z.log2_nonneg n).
  assert (Hl : Z.log2 n < 64) by (apply Z.log2_lt_pow2; lia).
  replace (2 ^ (Z.log2 n + 1) - 1) with (Z.ones (Z.log2 n + 1)) by (rewrite Z.ones_equiv; lia).
  apply Z.bits_inj'. intros i Hi. destruct (Z.le_gt_cases i (Z.log2 n)) as [Hle|Hgt].
  - rewrite Z.ones_spec_low by lia. apply Hs; [done|]. exists (Z.log2 n).
    split; [lia|]. apply Z.bit_log2. lia.
  - rewrite Z.ones_spec_high by lia. destruct (Z.testbit r i) eqn:E; [|done].
    apply Hs in E as (j & Hj & Hb); [|done]. rewrite Z.bits_above_log2 in Hb by lia. done.
Qed.

Lemma round_up_spec capacity :
  1 <= capacity < 2 ^ 63 ->
  exists k, 0 <= k < 64 /\ round_up capacity = 2 ^ k /\ capacity <= 2 ^ k /\
    (2 <= capacity -> 2 ^ k < 2 * capacity).
Proof.
  intros Hc. unfold round_up. rewrite (u64_small capacity), (u64_small (capacity - 1)) by (unfold in_u64; lia).
  set (n := capacity - 1). cbv zeta.
  destruct (Z.eq_dec n 0) as [Hn0|Hn0].
  { assert (capacity = 1) as -> by lia. exists 0. subst n.
    split_and!; [lia|lia|vm_compute; reflexivity|lia|lia]. }
  assert (H0 : smeared 1 n n).
  { intros i Hi. split; [intros Hb; exists i; split; [lia|done]|].
    intros (j & Hj & Hb). by replace i with j by lia. }
  apply (smear_step 1) in H0; [|lia]. change (2 * 1) with 2 in H0.
  apply (smear_step 2) in H0; [|lia]. change (2 * 2) with 4 in H0.
  apply (smear_step 4) in H0; [|lia]. change (2 * 4) with 8 in H0.
  apply (smear_step 8) in H0; [|lia]. change (2 * 8) with 16 in H0.
  apply (smear_step 16) in H0; [|lia]. change (2 * 16) with 32 in H0.
  apply (smear_step 32) in H0; [|lia]. change (2 * 32) with 64 in H0.
  match type of H0 with smeared _ _ ?r => set (x := r) in * end.
  assert (Hx : 0 <= x) by (subst x; repeat apply smear_nonneg; lia).
  apply smeared_all in H0; [|lia|done]. rewrite H0.
  pose proof (Z.log2_spec n ltac:(lia)) as Hlog. pose proof (Z.log2_nonneg n).
  rewrite Z.pow_succ_r in Hlog by lia.
  assert (Hl : Z.log2 n < 63) by (apply Z.log2_lt_pow2; lia).
  exists (Z.log2 n + 1). replace (2 ^ (Z.log2 n + 1)) with (2 * 2 ^ Z.log2 n)
    by (rewrite Z.pow_add_r by lia; lia).
  assert (2 ^ Z.log2 n <= 2 ^ 62) by (apply Z.pow_le_mono_r; lia).
  rewrite u64_small by (unfold in_u64; lia). subst n. split_and!; lia.
Qed.

(** ** Positions *)

Lemma u64_sub_u64 a b : u64 (u64 a - u64 b) = u64 (a - b).
Proof. unfold u64. by rewrite <- Zminus_mod. Qed.

Section Queue.
Context {T : Type}.
Implicit Types (rb : RingBuffer T) (q : list T) (v : T).

Lemma slot_mod k rb p :
  0 <= k < 64 -> mask rb = 2 ^ k - 1 -> slot rb (u64 p) = Z.to_nat (p mod 2 ^ k).
Proof.
  intros Hk Hm. unfold slot. rewrite Hm.
  replace (2 ^ k - 1) with (Z.ones k) by (rewrite Z.ones_equiv; lia).
  rewrite Z.land_ones by lia. f_equal. unfold u64. symmetry.
  apply Znumtheory.Zmod_div_mod; [apply Z.pow_pos_nonneg; lia|lia|].
  exists (2 ^ (64 - k)). rewrite <- Z.pow_add_r by lia. f_equal. lia.
Qed.

Lemma mod_window_inj a b m : 0 < m -> a mod m = b mod m -> Z.abs (a - b) < m -> a = b.
Proof.
  intros Hm He Hab. assert (Hd : (a - b) mod m = 0) by (rewrite Zminus_mod, He, Z.sub_diag; apply Zmod_0_l).
  apply Z.mod_divide in Hd as [c Hc]; [|lia]. assert (c = 0) by nia. lia.
Qed.

(** The cells that hold the queue [q] whose first element has position [C]. *)
Definition cells (k : Z) (buf : list (option T)) (C : Z) (q : list T) : Prop :=
  forall i v, q !! i = Some v -> buf !! Z.to_nat ((C + Z.of_nat i) mod 2 ^ k) = Some (Some v).

Lemma cells_push k buf C q v :
  0 <= k -> length buf = Z.to_nat (2 ^ k) -> Z.of_nat (length q) < 2 ^ k -> cells k buf C q ->
  cells k (<[Z.to_nat ((C + Z.of_nat (length q)) mod 2 ^ k) := Some v]> buf) C (q ++ [v]).
Proof.
  intros Hk Hlen Hq Hc i w Hi. pose proof (Z.pow_pos_nonneg 2 k ltac:(lia) Hk) as Hp.
  assert (Hb : forall x, (Z.to_nat (x mod 2 ^ k) < length buf)%nat).
  { intros x. rewrite Hlen. pose proof (Z.mod_pos_bound x (2 ^ k) Hp). lia. }
  apply lookup_app_Some in Hi as [Hi|[Hge Hi]].
  - pose proof (lookup_lt_Some _ _ _ Hi). rewrite list_lookup_insert_ne; [by apply Hc|].
    intros E. apply Z2Nat.inj in E; [|apply Z.mod_pos_bound; lia|apply Z.mod_pos_bound; lia].
    apply mod_window_inj in E; lia.
  - apply list_lookup_singleton_Some in Hi as [Hi <-]. replace i with (length q) by lia.
    by apply list_lookup_insert_eq.
Qed.

Lemma cells_pop k buf C v q : cells k buf C (v :: q) -> cells k buf (C + 1) q.
Proof.
  intros Hc i w Hi. rewrite <- (Hc (S i) w Hi). do 3 f_equal. lia.
Qed.

(** [rb] holds the queue [q]; [C] elements have been consumed so far. *)
Record represents (k : Z) rb (C : Z) q : Prop := {
  rep_len : length (buffer rb) = Z.to_nat (2 ^ k);
  rep_mask : mask rb = 2 ^ k - 1;
  rep_head : head rb = u64 C;
  rep_tail : tail rb = u64 (C + Z.of_nat (length q));
  rep_bound : Z.of_nat (length q) <= 2 ^ k;
  rep_cells : cells k (buffer rb) C q
}.

Lemma represents_size k rb C q :
  0 <= k < 64 -> represents k rb C q -> u64 (tail rb - head rb) = Z.of_nat (length q).
Proof.
  intros Hk [_ _ Hh Ht Hb _]. rewrite Hh, Ht, u64_sub_u64.
  assert (2 ^ k <= 2 ^ 63) by (apply Z.pow_le_mono_r; lia).
  rewrite Z.add_simpl_l. apply u64_small. unfold in_u64. lia.
Qed.

Lemma Capacity_pow k rb C q : 0 <= k -> represents k rb C q -> Capacity rb = 2 ^ k.
Proof.
  intros Hk [Hl _ _ _ _ _]. unfold Capacity. rewrite Hl, Z2Nat.id; [done|]. apply Z.pow_nonneg. lia.
Qed.

Lemma Push_spec k rb C q v :
  0 <= k < 64 -> represents k rb C q ->
  if Z.of_nat (length q) <? 2 ^ k
  then exists rb', Push v rb = (true, rb') /\ represents k rb' C (q ++ [v])
  else Push v rb = (false, rb).
Proof.
  intros Hk Hr. unfold Push. rewrite (represents_size k rb C q Hk Hr), (Capacity_pow k rb C q) by (done || lia).
  destruct Hr as [Hl Hm Hh Ht Hb Hc]. destruct (Z.ltb_spec (Z.of_nat (length q)) (2 ^ k)) as [Hlt|Hge].
  - rewrite (proj2 (Z.leb_gt _ _) Hlt). eexists. split; [done|].
    split; simpl; [by rewrite length_insert|done|done| | |].
    + rewrite Ht, u64_u64_add, length_app. f_equal. simpl. lia.
    + rewrite length_app. simpl. lia.
    + rewrite Ht, (slot_mod k) by done. by apply cells_push; [lia|..].
  - by rewrite (proj2 (Z.leb_le _ _) Hge).
Qed.

Lemma Pop_spec k rb C q :
  0 <= k < 64 -> represents k rb C q ->
  match q with
  | [] => Pop rb = (None, false, rb)
  | v :: q' => exists rb', Pop rb = (Some v, true, rb') /\ represents k rb' (C + 1) q'
  end.
Proof.
  intros Hk Hr. pose proof (represents_size k rb C q Hk Hr) as Hs.
  destruct Hr as [Hl Hm Hh Ht Hb Hc]. unfold Pop. destruct q as [|v q].
  - rewrite Ht, Hh. simpl. by rewrite Z.add_0_r, Z.eqb_refl.
  - destruct (Z.eqb_spec (head rb) (tail rb)) as [E|_].
    { rewrite E, Z.sub_diag in Hs. change (u64 0) with 0 in Hs. simpl length in Hs. lia. }
    pose proof (Hc 0%nat v eq_refl) as H0. rewrite Z.add_0_r in H0.
    rewrite Hh, (slot_mod k) by done. rewrite H0. eexists. split; [done|].
    split; simpl in *; [done|done|apply u64_u64_add| |lia|by eapply cells_pop].
    rewrite Ht. f_equal. lia.
Qed.

Lemma Snapshot_spec k rb C q :
  0 <= k < 64 -> represents k rb C q -> Snapshot rb = Some <$> q.
Proof.
  intros Hk Hr. unfold Snapshot. rewrite (represents_size k rb C q Hk Hr), Nat2Z.id.
  destruct Hr as [Hl Hm Hh Ht Hb Hc]. apply list_eq. intros i. rewrite !list_lookup_fmap.
  destruct (q !! i) as [v|] eqn:E.
  - pose proof (lookup_lt_Some _ _ _ E). rewrite lookup_seq_lt by done. simpl.
    rewrite Hh, u64_u64_add, (slot_mod k) by done. by rewrite (Hc i v E).
  - apply lookup_ge_None in E. by rewrite (proj2 (lookup_ge_None (seq 0 _) i)) by (rewrite length_seq; lia).
Qed.

Lemma NewRingBuffer_spec capacity :
  1 <= capacity < 2 ^ 63 ->
  exists k rb, 0 <= k < 64 /\ NewRingBuffer capacity = Some rb /\ represents k rb 0 [] /\
    capacity <= 2 ^ k /\ (2 <= capacity -> 2 ^ k < 2 * capacity).
Proof.
  intros Hc. destruct (round_up_spec capacity Hc) as (k & Hk & Hr & H1 & H2).
  unfold NewRingBuffer. rewrite (proj2 (Z.leb_gt _ _)) by lia. rewrite Hr. exists k. eexists.
  split; [done|]. split; [done|]. split_and!; [|done|done].
  assert (0 < 2 ^ k <= 2 ^ 63) by (split; [apply Z.pow_pos_nonneg; lia|apply Z.pow_le_mono_r; lia]).
  split; simpl; [by rewrite length_replicate| |done|done|lia|done].
  apply u64_small. unfold in_u64. lia.
Qed.
End Queue.

(** the ring buffer refines a bounded FIFO queue.  [NewRingBuffer] holds the
    empty queue, with the least power of two that is at least the requested
    capacity; [Push] appends, or refuses a full buffer; [Pop] takes the oldest
    element, or reports an empty buffer; [Snapshot] lists the queue.  This holds at
    any number of consumed elements [C], across the wrap-around of the 64-bit
    positions. *)
Theorem ring_buffer_refines_queue {T} (capacity : Z) :
  1 <= capacity < 2 ^ 63 ->
  exists k (rb0 : RingBuffer T), 0 <= k < 64 /\ capacity <= 2 ^ k /\
    (2 <= capacity -> 2 ^ k < 2 * capacity) /\
    NewRingBuffer capacity = Some rb0 /\ represents k rb0 0 [] /\
    forall rb C (q : list T), represents k rb C q ->
      (forall v, if Z.of_nat (length q) <? 2 ^ k
        then exists rb', Push v rb = (true, rb') /\ represents k rb' C (q ++ [v])
        else Push v rb = (false, rb)) /\
      match q with
      | [] => Pop rb = (None, false, rb)
      | v :: q' => exists rb', Pop rb = (Some v, true, rb') /\ represents k rb' (C + 1) q'
      end /\
      Snapshot rb = Some <$> q.
Proof.
  intros Hc. destruct (NewRingBuffer_spec (T:=T) capacity Hc) as (k & rb0 & Hk & Hn & Hr & H1 & H2).
  exists k, rb0. split; [done|]. split_and!; [done|done|done|done|].
  intros rb C q Hrep. split_and!.
  - intros v. by apply Push_spec.
  - by apply (Pop_spec k).
  - by eapply Snapshot_spec.
Qed.

Lemma ring_buffer_refines_queue_witness :
  exists k (rb0 : RingBuffer nat), NewRingBuffer 5 = Some rb0 /\ 5 <= 2 ^ k /\ 2 ^ k < 10.
Proof.
  destruct (ring_buffer_refines_queue (T:=nat) 5 ltac:(lia)) as (k & rb0 & _ & H1 & H2 & H3 & _).
  exists k, rb0. split; [exact H3|]. split; [exact H1|]. apply H2. lia.
Defined.

(** ** One producer and one consumer *)

Section SPSC.
Context {T : Type}.

(** Where the producer is within [Push val]: the [tail] it has loaded, and whether
    the check against [head] has passed and the element has been written. *)
Inductive prod_pc :=
  | PIdle
  | PLoaded (val : T) (t : Z)
  | PChecked (val : T) (t : Z)
  | PWritten (val : T) (t : Z).

(** Where the consumer is within [Pop]. *)
Inductive cons_pc :=
  | CIdle
  | CLoaded (h : Z)
  | CChecked (h : Z)
  | CRead (h : Z) (val : option T).

(** The shared buffer, the two threads, and the history: the elements whose [Push]
    has returned true and the elements that [Pop] has returned. *)
Record spsc := mkSPSC {
  shared : RingBuffer T;
  producer : prod_pc;
  consumer : cons_pc;
  pushed : list T;
  popped : list (option T)
}.

Definition set_producer (p : prod_pc) (s : spsc) : spsc :=
  mkSPSC (shared s) p (consumer s) (pushed s) (popped s).
Definition set_consumer (c : cons_pc) (s : spsc) : spsc :=
  mkSPSC (shared s) (producer s) c (pushed s) (popped s).

Definition rb_write (i : nat) (v : option T) (rb : RingBuffer T) : RingBuffer T :=
  mkRB (<[i := v]> (buffer rb)) (mask rb) (head rb) (tail rb).
Definition rb_tail (t : Z) (rb : RingBuffer T) : RingBuffer T :=
  mkRB (buffer rb) (mask rb) (head rb) t.
Definition rb_head (h : Z) (rb : RingBuffer T) : RingBuffer T :=
  mkRB (buffer rb) (mask rb) h (tail rb).

(** One atomic access of either thread. *)
Inductive spsc_step : spsc -> spsc -> Prop :=
  | push_load_tail s v :
      producer s = PIdle ->
      spsc_step s (set_producer (PLoaded v (tail (shared s))) s)
  | push_load_head s v t :
      producer s = PLoaded v t ->
      spsc_step s (set_producer
        (if Capacity (shared s) <=? u64 (t - head (shared s)) then PIdle else PChecked v t) s)
  | push_write s v t :
      producer s = PChecked v t ->
      spsc_step s (mkSPSC (rb_write (slot (shared s) t) (Some v) (shared s)) (PWritten v t)
                     (consumer s) (pushed s) (popped s))
  | push_store_tail s v t :
      producer s = PWritten v t ->
      spsc_step s (mkSPSC (rb_tail (u64 (t + 1)) (shared s)) PIdle
                     (consumer s) (pushed s ++ [v]) (popped s))
  | pop_load_head s :
      consumer s = CIdle ->
      spsc_step s (set_consumer (CLoaded (head (shared s))) s)
  | pop_load_tail s h :
      consumer s = CLoaded h ->
      spsc_step s (set_consumer (if h =? tail (shared s) then CIdle else CChecked h) s)
  | pop_read s h :
      consumer s = CChecked h ->
      spsc_step s (set_consumer (CRead h (default None (buffer (shared s) !! slot (shared s) h))) s)
  | pop_store_head s h v :
      consumer s = CRead h v ->
      spsc_step s (mkSPSC (rb_head (u64 (h + 1)) (shared s)) (producer s) CIdle
                     (pushed s) (popped s ++ [v])).

Definition spsc_init (rb : RingBuffer T) : spsc := mkSPSC rb PIdle CIdle [] [].

(** The queue in flight. *)
Abbreviation queue s := (drop (length (popped s)) (pushed s)).

(** What each thread knows about the shared state. *)
Definition prod_ok (k : Z) (s : spsc) : Prop :=
  match producer s with
  | PIdle => True
  | PLoaded v t => t = tail (shared s)
  | PChecked v t => t = tail (shared s) /\ Z.of_nat (length (queue s)) < 2 ^ k
  | PWritten v t => t = tail (shared s) /\ Z.of_nat (length (queue s)) < 2 ^ k /\
      cells k (buffer (shared s)) (Z.of_nat (length (popped s))) (queue s ++ [v])
  end.

Definition cons_ok (s : spsc) : Prop :=
  match consumer s with
  | CIdle => True
  | CLoaded h => h = head (shared s)
  | CChecked h => h = head (shared s) /\ queue s <> []
  | CRead h v => h = head (shared s) /\ exists x q, queue s = x :: q /\ v = Some x
  end.

Record spsc_inv (k : Z) (s : spsc) : Prop := {
  si_hist : popped s = Some <$> take (length (popped s)) (pushed s);
  si_rep : represents k (shared s) (Z.of_nat (length (popped s))) (queue s);
  si_prod : prod_ok k s;
  si_cons : cons_ok s
}.

Lemma popped_le k s : spsc_inv k s -> (length (popped s) <= length (pushed s))%nat.
Proof.
  intros [Hh _ _ _]. apply (f_equal length) in Hh. rewrite length_fmap, length_take in Hh. lia.
Qed.

(** A thread that only moves its own program counter. *)
Lemma spsc_inv_producer k s p :
  spsc_inv k s -> prod_ok k (set_producer p s) -> spsc_inv k (set_producer p s).
Proof. intros [H1 H2 H3 H4] Hp. by split. Qed.

Lemma spsc_inv_consumer k s c :
  spsc_inv k s -> cons_ok (set_consumer c s) -> spsc_inv k (set_consumer c s).
Proof. intros [H1 H2 H3 H4] Hc. by split. Qed.

Lemma push_write_inv k s v t :
  0 <= k < 64 -> spsc_inv k s -> producer s = PChecked v t ->
  spsc_inv k (mkSPSC (rb_write (slot (shared s) t) (Some v) (shared s)) (PWritten v t)
                (consumer s) (pushed s) (popped s)).
Proof.
  intros Hk [Hh Hr Hp Hc] Ep. unfold prod_ok in Hp. rewrite Ep in Hp. destruct Hp as [-> Hlt].
  destruct Hr as [Rl Rm Rh Rt Rb Rc].
  assert (Hpush : cells k (<[slot (shared s) (tail (shared s)) := Some v]> (buffer (shared s)))
            (Z.of_nat (length (popped s))) (queue s ++ [v])).
  { rewrite Rt, (slot_mod k) by done. by apply cells_push; [lia|..]. }
  split; [done| | |done].
  - split; simpl; [by rewrite length_insert|done|done|done|done|].
    intros i x Hi. apply Hpush. by apply lookup_app_l_Some.
  - split; [done|]. split; [done|exact Hpush].
Qed.

Lemma push_store_inv k s v t :
  0 <= k < 64 -> spsc_inv k s -> producer s = PWritten v t ->
  spsc_inv k (mkSPSC (rb_tail (u64 (t + 1)) (shared s)) PIdle
                (consumer s) (pushed s ++ [v]) (popped s)).
Proof.
  intros Hk Hinv Ep. pose proof (popped_le k s Hinv) as Hle.
  destruct Hinv as [Hh Hr Hp Hc]. unfold prod_ok in Hp. rewrite Ep in Hp.
  destruct Hp as (-> & Hlt & Hcells). destruct Hr as [Rl Rm Rh Rt Rb Rc].
  assert (Hq : drop (length (popped s)) (pushed s ++ [v]) = queue s ++ [v])
    by (by rewrite drop_app_le).
  split; simpl.
  - rewrite take_app_le by done. exact Hh.
  - split; simpl; rewrite ?Hq; [done|done|done| | |done].
    + rewrite Rt, u64_u64_add, length_app. f_equal. simpl. lia.
    + rewrite length_app. simpl. lia.
  - done.
  - unfold cons_ok in *. simpl. rewrite Hq. destruct (consumer s) as [|h|h|h x]; [done|done| |].
    + split; [apply Hc|]. destruct (queue s); done.
    + destruct Hc as (Hh' & y & q & E & ->). split; [done|]. rewrite E. by exists y, (q ++ [v]).
Qed.

Lemma pop_store_inv k s h v :
  0 <= k < 64 -> spsc_inv k s -> consumer s = CRead h v ->
  spsc_inv k (mkSPSC (rb_head (u64 (h + 1)) (shared s)) (producer s) CIdle
                (pushed s) (popped s ++ [v])).
Proof.
  intros Hk [Hh Hr Hp Hc] Ec. unfold cons_ok in Hc. rewrite Ec in Hc.
  destruct Hc as (-> & x & q & Eq & ->). destruct Hr as [Rl Rm Rh Rt Rb Rc].
  assert (Hx : pushed s !! length (popped s) = Some x).
  { rewrite <- (Nat.add_0_r (length (popped s))), <- lookup_drop, Eq. done. }
  assert (Hq : drop (length (popped s ++ [Some x])) (pushed s) = q).
  { rewrite length_app. simpl. rewrite <- drop_drop, Eq. done. }
  rewrite Eq in Rt, Rb, Rc. simpl in Rt, Rb.
  split; simpl.
  - rewrite Hh at 1. rewrite length_app. simpl. rewrite Nat.add_1_r.
    rewrite (take_S_r _ _ x Hx), fmap_app. done.
  - split; simpl; rewrite ?Hq, ?length_app; simpl; [done|done| | |lia|].
    + rewrite Rh, u64_u64_add. f_equal. lia.
    + rewrite Rt. f_equal. lia.
    + replace (Z.of_nat (length (popped s) + 1)) with (Z.of_nat (length (popped s)) + 1) by lia.
      by eapply cells_pop.
  - unfold prod_ok in *. simpl. rewrite Hq. rewrite Eq in Hp. simpl in Hp.
    destruct (producer s) as [|y t|y t|y t]; [done|done| |].
    + destruct Hp. split; [done|lia].
    + destruct Hp as (? & ? & Hcells). split_and!; [done|lia|]. rewrite length_app. simpl.
      replace (Z.of_nat (length (popped s) + 1)) with (Z.of_nat (length (popped s)) + 1) by lia.
      by eapply cells_pop.
  - done.
Qed.

Lemma spsc_inv_step k s s' : 0 <= k < 64 -> spsc_step s s' -> spsc_inv k s -> spsc_inv k s'.
Proof.
  intros Hk Hstep Hinv. pose proof (represents_size k _ _ _ Hk (si_rep _ _ Hinv)) as Hsize.
  pose proof (Capacity_pow k _ _ _ (proj1 Hk) (si_rep _ _ Hinv)) as Hcap.
  destruct Hstep as [s v E|s v t E|s v t E|s v t E|s E|s h E|s h E|s h v E].
  - by apply spsc_inv_producer.
  - apply spsc_inv_producer; [done|]. pose proof (si_prod _ _ Hinv) as Hp.
    unfold prod_ok in Hp. rewrite E in Hp. subst t. rewrite Hsize, Hcap. unfold prod_ok. simpl.
    destruct (Z.leb_spec (2 ^ k) (Z.of_nat (length (queue s)))); done.
  - by apply push_write_inv.
  - by apply push_store_inv.
  - by apply spsc_inv_consumer.
  - apply spsc_inv_consumer; [done|]. pose proof (si_cons _ _ Hinv) as Hc.
    unfold cons_ok in Hc. rewrite E in Hc. subst h. unfold cons_ok. simpl.
    destruct (Z.eqb_spec (head (shared s)) (tail (shared s))) as [|Hne]; [done|].
    split; [done|]. intros Hq. apply Hne. destruct Hinv as [_ [_ _ Hh Ht _ _] _ _].
    rewrite Hq in Ht. simpl in Ht. rewrite Z.add_0_r in Ht. congruence.
  - apply spsc_inv_consumer; [done|]. pose proof (si_cons _ _ Hinv) as Hc.
    unfold cons_ok in Hc. rewrite E in Hc. destruct Hc as [-> Hq]. unfold cons_ok. simpl.
    split; [done|]. destruct (queue s) as [|x q] eqn:Eq; [done|].
    exists x, q. split; [done|]. destruct Hinv as [_ [_ Hm Hh _ _ Hc] _ _].
    rewrite Eq in Hc. pose proof (Hc 0%nat x eq_refl) as H0. rewrite Z.add_0_r in H0.
    rewrite Hh, (slot_mod k) by done. by rewrite H0.
  - by apply pop_store_inv.
Qed.
End SPSC.
Arguments spsc : clear implicits.

(** C6: with one producer and one consumer, and their atomic accesses interleaved
    in any way, the consumer receives the accepted elements in order, none lost,
    duplicated or torn, and never more than the capacity are in flight. *)
Theorem ring_buffer_spsc_fifo {T} capacity (rb : RingBuffer T) s :
  1 <= capacity < 2 ^ 63 -> NewRingBuffer capacity = Some rb ->
  rtc spsc_step (spsc_init rb) s ->
  popped s = Some <$> take (length (popped s)) (pushed s) /\
  (length (popped s) <= length (pushed s))%nat /\
  Z.of_nat (length (pushed s) - length (popped s)) <= Capacity (shared s).
Proof.
  intros Hc Hn Hs. destruct (NewRingBuffer_spec (T:=T) capacity Hc) as (k & rb' & Hk & Hn' & Hr & _).
  rewrite Hn in Hn'. injection Hn' as <-.
  assert (Hinv : spsc_inv k s).
  { assert (H0 : spsc_inv k (spsc_init rb)) by (split; [done|exact Hr|done|done]).
    clear Hn. induction Hs as [|s1 s2 s3 H12 _ IH]; [done|]. by apply IH, (spsc_inv_step k s1). }
  split; [apply Hinv|]. split; [by eapply popped_le|].
  rewrite (Capacity_pow k _ _ _ (proj1 Hk) (si_rep _ _ Hinv)).
  pose proof (rep_bound _ _ _ _ (si_rep _ _ Hinv)) as Hb. by rewrite length_drop in Hb.
Qed.

Lemma ring_buffer_spsc_fifo_witness :
  exists (rb : RingBuffer nat) s, NewRingBuffer 2 = Some rb /\ rtc spsc_step (spsc_init rb) s /\
    pushed s = [7%nat] /\ popped s = Some <$> take (length (popped s)) (pushed s).
Proof.
  eexists. eexists (mkSPSC (mkRB [Some 7%nat; None] 1 0 1) PIdle CIdle [7%nat] []).
  split; [reflexivity|].
  assert (Hrun : rtc spsc_step (spsc_init (mkRB [None; None] 1 0 0))
    (mkSPSC (mkRB [Some 7%nat; None] 1 0 1) PIdle CIdle [7%nat] [])).
  { eapply rtc_l; [by apply (push_load_tail _ 7%nat)|].
    eapply rtc_l; [by eapply push_load_head|]. eapply rtc_l; [by eapply push_write|].
    eapply rtc_l; [by eapply push_store_tail|]. apply rtc_refl. }
  split; [exact Hrun|]. split; [reflexivity|].
  exact (proj1 (ring_buffer_spsc_fifo 2 (mkRB [None; None] 1 0 0) _ ltac:(lia) eq_refl Hrun)).
Defined.
