(* ===== verification/CircuitBreaker.v ===== *)
(** * The circuit breaker: [internal/middleware/circuit_breaker.go]

    A request takes the lock of its circuit twice: to be admitted or rejected
    ([admission], the first half of [Wrap]), and, after the handler has run, to record
    its outcome ([record], the rest of [serveAndRecord]).  Between the two, any
    number of other requests may do the same; a handler that panics never records.
    Circuits are objects on a heap: a request keeps the one it was admitted by even
    when [Reset] drops it from the map. *)
From S2P Require Import Prelude GoFloat Http.

Inductive CircuitState := CircuitClosed | CircuitOpen | CircuitHalfOpen.

#[global] Instance CircuitState_eq_dec : EqDecision CircuitState.
Proof. solve_decision. Defined.

Definition CircuitState_String (s : CircuitState) : string :=
  match s with
  | CircuitClosed => "closed"
  | CircuitOpen => "open"
  | CircuitHalfOpen => "half-open"
  end.

Record CircuitBreakerConfig := mkCBConfig {
  ErrorThreshold : Z;
  ErrorRateThreshold : float64;
  OpenDuration : Z;            (* nanoseconds *)
  HalfOpenMaxRequests : Z;
  WindowSize : Z;              (* nanoseconds *)
  KeyFunc : option (Request -> string);
  IsServerError : option (Z -> bool)
}.

Definition Second : Z := 1000000000.

Definition half : float64 := f64_div (f64_of_Z 1) (f64_of_Z 2).

Definition DefaultCircuitBreakerConfig : CircuitBreakerConfig :=
  mkCBConfig 5 half (30 * Second) 3 (60 * Second) None None.

(** The defaults [NewCircuitBreaker] applies to zero values. *)
Definition NewCircuitBreaker_config (c : CircuitBreakerConfig) : CircuitBreakerConfig :=
  mkCBConfig
    (if ErrorThreshold c <=? 0 then 5 else ErrorThreshold c)
    (if f64_leb (ErrorRateThreshold c) (f64_of_Z 0) then half else ErrorRateThreshold c)
    (if OpenDuration c <=? 0 then 30 * Second else OpenDuration c)
    (if HalfOpenMaxRequests c <=? 0 then 3 else HalfOpenMaxRequests c)
    (if WindowSize c <=? 0 then 60 * Second else WindowSize c)
    (Some (match KeyFunc c with Some f => f | None => Host end))
    (Some (match IsServerError c with Some f => f | None => fun statusCode => 500 <=? statusCode end)).

Record circuitEntry := mkEntry {
  state : CircuitState;
  openSince : Z;
  errors : list Z;
  requests : list Z;
  halfOpenRequests : Z;
  halfOpenSuccesses : Z
}.

Definition newEntry : circuitEntry := mkEntry CircuitClosed 0 [] [] 0 0.

Definition set_half_open (reqs succs : Z) (e : circuitEntry) : circuitEntry :=
  mkEntry CircuitHalfOpen (openSince e) (errors e) (requests e) reqs succs.

Definition set_open (now : Z) (e : circuitEntry) : circuitEntry :=
  mkEntry CircuitOpen now (errors e) (requests e) (halfOpenRequests e) (halfOpenSuccesses e).

(** ** One circuit *)

Inductive decision :=
  | Serve
  | RejectOpen (retryAfter : Z)     (* 503, [X-Circuit-State: open], [Retry-After] *)
  | RejectHalfOpen.                 (* 503, [X-Circuit-State: half-open] *)

(** A change of state, as [OnStateChange] sees it. *)
Definition transition : Type := CircuitState * CircuitState.

Section Circuit.
Context (cfg : CircuitBreakerConfig).

(** The first critical section, of [Wrap]. *)
Definition admission (now : Z) (e : circuitEntry) : decision * circuitEntry * option transition :=
  match state e with
  | CircuitOpen =>
      if OpenDuration cfg <=? now - openSince e
      then (Serve, set_half_open 1 0 e, Some (CircuitOpen, CircuitHalfOpen))
      else (RejectOpen (Z.quot (OpenDuration cfg) Second), e, None)
  | CircuitHalfOpen =>
      if HalfOpenMaxRequests cfg <=? halfOpenRequests e
      then (RejectHalfOpen, e, None)
      else (Serve, set_half_open (halfOpenRequests e + 1) (halfOpenSuccesses e) e, None)
  | CircuitClosed => (Serve, e, None)
  end.

(** Drops the leading timestamps before [cutoff]. *)
Fixpoint evict (cutoff : Z) (l : list Z) : list Z :=
  match l with
  | [] => []
  | t :: r => if t <? cutoff then evict cutoff r else l
  end.

Definition evictOldEntries (now : Z) (e : circuitEntry) : circuitEntry :=
  let cutoff := now - WindowSize cfg in
  mkEntry (state e) (openSince e) (evict cutoff (errors e)) (evict cutoff (requests e))
    (halfOpenRequests e) (halfOpenSuccesses e).

(** The second critical section, of [serveAndRecord]. *)
Definition record (now : Z) (isError : bool) (e : circuitEntry) : circuitEntry * option transition :=
  match state e with
  | CircuitClosed =>
      let e := mkEntry (state e) (openSince e)
                 (if isError then errors e ++ [now] else errors e) (requests e ++ [now])
                 (halfOpenRequests e) (halfOpenSuccesses e) in
      let e := evictOldEntries now e in
      let errorCount := Z.of_nat (length (errors e)) in
      let totalCount := Z.of_nat (length (requests e)) in
      if ErrorThreshold cfg <=? errorCount then
        if f64_leb (ErrorRateThreshold cfg) (f64_div (f64_of_Z errorCount) (f64_of_Z totalCount))
        then (set_open now e, Some (CircuitClosed, CircuitOpen))
        else (e, None)
      else (e, None)
  | CircuitHalfOpen =>
      if isError then (set_open now e, Some (CircuitHalfOpen, CircuitOpen))
      else
        let e := set_half_open (halfOpenRequests e) (halfOpenSuccesses e + 1) e in
        if HalfOpenMaxRequests cfg <=? halfOpenSuccesses e
        then (mkEntry CircuitClosed (openSince e) [] [] (halfOpenRequests e) (halfOpenSuccesses e),
              Some (CircuitHalfOpen, CircuitClosed))
        else (e, None)
  | CircuitOpen => (e, None)
  end.
End Circuit.

(** ** The middleware *)

Record CircuitBreaker := mkCB {
  config : CircuitBreakerConfig;
  circuits : gmap string nat;          (* the [sync.Map]: key to object *)
  entries : gmap nat circuitEntry      (* the objects *)
}.

Definition NewCircuitBreaker (c : CircuitBreakerConfig) : CircuitBreaker :=
  mkCB (NewCircuitBreaker_config c) ∅ ∅.

Definition getOrCreateEntry (key : string) (cb : CircuitBreaker) : nat * CircuitBreaker :=
  match circuits cb !! key with
  | Some p => (p, cb)
  | None =>
      let p := fresh (dom (entries cb)) in
      (p, mkCB (config cb) (<[key := p]> (circuits cb)) (<[p := newEntry]> (entries cb)))
  end.

Definition entry_at (cb : CircuitBreaker) (p : nat) : circuitEntry := default newEntry (entries cb !! p).

Definition set_entry (p : nat) (e : circuitEntry) (cb : CircuitBreaker) : CircuitBreaker :=
  mkCB (config cb) (circuits cb) (<[p := e]> (entries cb)).

Definition request_key (cb : CircuitBreaker) (r : Request) : string :=
  match KeyFunc (config cb) with Some f => f r | None => Host r end.

(** [Wrap] up to the call of the next handler: the decision, and the circuit the
    outcome is to be recorded in. *)
Definition Wrap_begin (r : Request) (now : Z) (cb : CircuitBreaker)
    : decision * nat * option transition * CircuitBreaker :=
  let '(p, cb) := getOrCreateEntry (request_key cb r) cb in
  let '(d, e, tr) := admission (config cb) now (entry_at cb p) in
  (d, p, tr, set_entry p e cb).

(** [serveAndRecord] after the next handler returned with [statusCode]. *)
Definition Wrap_end (p : nat) (statusCode now : Z) (cb : CircuitBreaker)
    : option transition * CircuitBreaker :=
  let isError := match IsServerError (config cb) with Some f => f statusCode | None => 500 <=? statusCode end in
  let '(e, tr) := record (config cb) now isError (entry_at cb p) in
  (tr, set_entry p e cb).

Definition State (key : string) (now : Z) (cb : CircuitBreaker) : CircuitState :=
  match circuits cb !! key with
  | None => CircuitClosed
  | Some p =>
      let e := entry_at cb p in
      if (bool_decide (state e = CircuitOpen) && (OpenDuration (config cb) <=? now - openSince e))%bool
      then CircuitHalfOpen else state e
  end.

Definition Reset (key : string) (cb : CircuitBreaker) : CircuitBreaker :=
  mkCB (config cb) (delete key (circuits cb)) (entries cb).

Definition ResetAll (cb : CircuitBreaker) : CircuitBreaker := mkCB (config cb) ∅ (entries cb).

Definition Counts (key : string) (now : Z) (cb : CircuitBreaker) : Z * Z * CircuitBreaker :=
  match circuits cb !! key with
  | None => (0, 0, cb)
  | Some p =>
      let e := evictOldEntries (config cb) now (entry_at cb p) in
      (Z.of_nat (length (errors e)), Z.of_nat (length (requests e)), set_entry p e cb)
  end.

(** ** The response writer that captures the status *)

Record statusRecorder := mkRecorder {
  statusCode : Z;
  wroteHeader : bool;
  written : list (Z + string)    (* calls on the wrapped writer: headers and bodies *)
}.

Definition newRecorder : statusRecorder := mkRecorder 200 false [].

Definition WriteHeader (code : Z) (sr : statusRecorder) : statusRecorder :=
  if wroteHeader sr then sr else mkRecorder code true (written sr ++ [inl code]).

Definition Write (b : string) (sr : statusRecorder) : statusRecorder :=
  let sr := if wroteHeader sr then sr else WriteHeader 200 sr in
  mkRecorder (statusCode sr) (wroteHeader sr) (written sr ++ [inr b]).

(** ** A circuit under concurrent requests *)

Section Runs.
Context (cfg : CircuitBreakerConfig).

(** A circuit, the number of its requests whose handler is running, and the number
    of requests admitted since the circuit last became half-open. *)
Record circuit_run := mkRun { cr_entry : circuitEntry; cr_inflight : nat; cr_probes : Z }.

Definition served (d : decision) : bool := match d with Serve => true | _ => false end.

Inductive run_step : circuit_run -> circuit_run -> Prop :=
  | run_admit s now d e tr :
      admission cfg now (cr_entry s) = (d, e, tr) ->
      run_step s (mkRun e (if served d then S (cr_inflight s) else cr_inflight s)
        (match tr with Some _ => 1 | None => if served d then cr_probes s + 1 else cr_probes s end))
  | run_record s n now isError e tr :
      cr_inflight s = S n -> record cfg now isError (cr_entry s) = (e, tr) ->
      run_step s (mkRun e n (cr_probes s))
  | run_counts s now :
      run_step s (mkRun (evictOldEntries cfg now (cr_entry s)) (cr_inflight s) (cr_probes s)).

(** The handler of an admitted request panics: its outcome is never recorded. *)
Inductive panic_step : circuit_run -> circuit_run -> Prop :=
  | run_panic s n : cr_inflight s = S n -> panic_step s (mkRun (cr_entry s) n (cr_probes s)).

Definition any_step (s s' : circuit_run) : Prop := run_step s s' \/ panic_step s s'.

Definition run_init : circuit_run := mkRun newEntry 0 0.

(** A half-open circuit has admitted [halfOpenRequests] requests, at least one and
    at most the limit, and has not yet seen enough successes. *)
Definition probe_inv (s : circuit_run) : Prop :=
  state (cr_entry s) = CircuitHalfOpen ->
  cr_probes s = halfOpenRequests (cr_entry s) /\
  1 <= halfOpenRequests (cr_entry s) <= HalfOpenMaxRequests cfg /\
  0 <= halfOpenSuccesses (cr_entry s) < HalfOpenMaxRequests cfg.

(** Without panics, the probes not yet answered are still running. *)
Definition inflight_inv (s : circuit_run) : Prop :=
  state (cr_entry s) = CircuitHalfOpen ->
  halfOpenRequests (cr_entry s) - halfOpenSuccesses (cr_entry s) <= Z.of_nat (cr_inflight s).

Lemma probe_inv_step s s' :
  1 <= HalfOpenMaxRequests cfg -> any_step s s' -> probe_inv s -> probe_inv s'.
Proof.
  intros Hmax [Hs|[s0 n Hn]] Hinv; [|exact Hinv].
  destruct Hs as [s now d e tr Ha|s n now err e tr Hn Hr|s now]; [| |exact Hinv];
    unfold probe_inv in *; simpl.
  - unfold admission in Ha. destruct (state (cr_entry s)) eqn:Es.
    + injection Ha as <- <- <-. congruence.
    + destruct (Z.leb_spec (OpenDuration cfg) (now - openSince (cr_entry s)));
        injection Ha as <- <- <-; simpl; [lia|congruence].
    + specialize (Hinv eq_refl).
      destruct (Z.leb_spec (HalfOpenMaxRequests cfg) (halfOpenRequests (cr_entry s)));
        injection Ha as <- <- <-; simpl; [done|lia].
  - unfold record in Hr. destruct (state (cr_entry s)) eqn:Es.
    + repeat case_step_in Hr; injection Hr as <- _; simpl; congruence.
    + injection Hr as <- _. congruence.
    + specialize (Hinv eq_refl). destruct err; [injection Hr as <- _; done|]. simpl in Hr.
      destruct (Z.leb_spec (HalfOpenMaxRequests cfg) (halfOpenSuccesses (cr_entry s) + 1));
        injection Hr as <- _; simpl; [done|lia].
Qed.

Lemma inflight_inv_step s s' : run_step s s' -> inflight_inv s -> inflight_inv s'.
Proof.
  intros Hs Hinv. destruct Hs as [s now d e tr Ha|s n now err e tr Hn Hr|s now]; [| |exact Hinv];
    unfold inflight_inv in *; simpl.
  - unfold admission in Ha. destruct (state (cr_entry s)) eqn:Es.
    + injection Ha as <- <- <-. congruence.
    + destruct (Z.leb_spec (OpenDuration cfg) (now - openSince (cr_entry s)));
        injection Ha as <- <- <-; simpl; [lia|congruence].
    + specialize (Hinv eq_refl).
      destruct (Z.leb_spec (HalfOpenMaxRequests cfg) (halfOpenRequests (cr_entry s)));
        injection Ha as <- <- <-; simpl; [done|lia].
  - unfold record in Hr. destruct (state (cr_entry s)) eqn:Es.
    + repeat case_step_in Hr; injection Hr as <- _; simpl; congruence.
    + injection Hr as <- _. congruence.
    + specialize (Hinv eq_refl). destruct err; [injection Hr as <- _; done|]. simpl in Hr.
      destruct (Z.leb_spec (HalfOpenMaxRequests cfg) (halfOpenSuccesses (cr_entry s) + 1));
        injection Hr as <- _; simpl; [done|lia].
Qed.

Lemma probe_inv_run s :
  1 <= HalfOpenMaxRequests cfg -> rtc any_step run_init s -> probe_inv s.
Proof.
  intros Hmax Hs. assert (H0 : probe_inv run_init) by done.
  induction Hs as [|s1 s2 s3 H12 _ IH]; [done|]. by apply IH, (probe_inv_step s1).
Qed.

Lemma inflight_inv_run s : rtc run_step run_init s -> inflight_inv s.
Proof.
  intros Hs. assert (H0 : inflight_inv run_init) by done.
  induction Hs as [|s1 s2 s3 H12 _ IH]; [done|]. by apply IH, (inflight_inv_step s1).
Qed.

Lemma run_any s : rtc run_step run_init s -> rtc any_step run_init s.
Proof. apply rtc_subrel. by left. Qed.

(** A circuit without running requests admits the next one once [OpenDuration] has
    passed, unless a probe was lost. *)
Lemma no_wedge s now :
  1 <= HalfOpenMaxRequests cfg -> rtc run_step run_init s -> cr_inflight s = 0%nat ->
  OpenDuration cfg <= now - openSince (cr_entry s) ->
  served (fst (fst (admission cfg now (cr_entry s)))) = true.
Proof.
  intros Hmax Hs Hin Hnow. pose proof (probe_inv_run s Hmax (run_any s Hs)) as Hp.
  pose proof (inflight_inv_run s Hs) as Hi. unfold probe_inv, inflight_inv in *.
  unfold admission. destruct (state (cr_entry s)) eqn:Es; [done| |].
  - by rewrite (proj2 (Z.leb_le _ _) Hnow).
  - specialize (Hp eq_refl). specialize (Hi eq_refl). rewrite Hin in Hi.
    destruct (Z.leb_spec (HalfOpenMaxRequests cfg) (halfOpenRequests (cr_entry s))); [lia|done].
Qed.

(** A half-open circuit that has handed out all its probes and waits for none. *)
Definition wedged (s : circuit_run) : Prop :=
  state (cr_entry s) = CircuitHalfOpen /\ cr_inflight s = 0%nat /\
  HalfOpenMaxRequests cfg <= halfOpenRequests (cr_entry s).

Lemma wedged_step s s' : any_step s s' -> wedged s -> wedged s'.
Proof.
  intros [Hs|[s0 n Hn]] (Hst & Hin & Hmax); [|congruence].
  destruct Hs as [s now d e tr Ha|s n now err e tr Hn Hr|s now]; [|congruence|done].
  unfold admission in Ha. rewrite Hst, (proj2 (Z.leb_le _ _) Hmax) in Ha. by injection Ha as <- <- <-.
Qed.

Lemma wedged_rejects s now : wedged s -> fst (fst (admission cfg now (cr_entry s))) = RejectHalfOpen.
Proof.
  intros (Hst & _ & Hmax). unfold admission. by rewrite Hst, (proj2 (Z.leb_le _ _) Hmax).
Qed.
End Runs.

(** C29: the circuit breaker recovers.  In every interleaving of requests whose
    handlers return, a circuit that no request is running through admits the next
    request once [OpenDuration] has passed since it opened: it cannot get stuck in
    the open or the half-open state. *)
Theorem circuit_breaker_recovers cfg s now :
  1 <= HalfOpenMaxRequests cfg -> rtc (run_step cfg) run_init s -> cr_inflight s = 0%nat ->
  OpenDuration cfg <= now - openSince (cr_entry s) ->
  served (fst (fst (admission cfg now (cr_entry s)))) = true.
Proof. apply no_wedge. Qed.

(** a half-open circuit admits at most [HalfOpenMaxRequests] requests, however
    requests, outcomes and panics interleave, and an open one admits none before
    [OpenDuration] has passed. *)
Theorem circuit_breaker_limits_probes cfg s :
  1 <= HalfOpenMaxRequests cfg -> rtc (any_step cfg) run_init s ->
  (state (cr_entry s) = CircuitHalfOpen -> 1 <= cr_probes s <= HalfOpenMaxRequests cfg) /\
  (forall now, state (cr_entry s) = CircuitOpen -> now - openSince (cr_entry s) < OpenDuration cfg ->
     served (fst (fst (admission cfg now (cr_entry s)))) = false).
Proof.
  intros Hmax Hs. pose proof (probe_inv_run cfg s Hmax Hs) as Hp. split.
  - intros Hst. destruct (Hp Hst) as (-> & ? & _). done.
  - intros now Hst Hlt. unfold admission. rewrite Hst. by rewrite (proj2 (Z.leb_gt _ _) Hlt).
Qed.

(** when the handlers of all probes of a half-open circuit panic, the circuit
    is stuck for good: it rejects every later request, at any time. *)
Theorem panicking_probes_wedge_circuit cfg s s' now :
  state (cr_entry s) = CircuitHalfOpen -> cr_inflight s = 0%nat ->
  HalfOpenMaxRequests cfg <= halfOpenRequests (cr_entry s) ->
  rtc (any_step cfg) s s' ->
  fst (fst (admission cfg now (cr_entry s'))) = RejectHalfOpen.
Proof.
  intros H1 H2 H3 Hs. apply (wedged_rejects cfg s').
  assert (Hw : wedged cfg s) by done. clear H1 H2 H3.
  induction Hs as [|s1 s2 s3 H12 _ IH]; [done|]. by apply IH, (wedged_step cfg s1).
Qed.

(** *** Concrete runs with the default configuration *)

Definition default_cfg : CircuitBreakerConfig := NewCircuitBreaker_config DefaultCircuitBreakerConfig.

(** An event of a run at a given time. *)
Inductive cb_event := EvAdmit (now : Z) | EvRecord (now : Z) (isError : bool) | EvPanic.

Definition do_event (s : circuit_run) (ev : cb_event) : circuit_run :=
  match ev with
  | EvAdmit now =>
      let '(d, e, tr) := admission default_cfg now (cr_entry s) in
      mkRun e (if served d then S (cr_inflight s) else cr_inflight s)
        (match tr with Some _ => 1 | None => if served d then cr_probes s + 1 else cr_probes s end)
  | EvRecord now isError =>
      match cr_inflight s with
      | O => s
      | S n => mkRun (fst (record default_cfg now isError (cr_entry s))) n (cr_probes s)
      end
  | EvPanic =>
      match cr_inflight s with O => s | S n => mkRun (cr_entry s) n (cr_probes s) end
  end.

Definition do_events (evs : list cb_event) : circuit_run := fold_left do_event evs run_init.

Lemma do_event_step s ev : rtc (any_step default_cfg) s (do_event s ev).
Proof.
  destruct ev as [now|now err|]; simpl.
  - destruct (admission default_cfg now (cr_entry s)) as [[d e] tr] eqn:E. apply rtc_once. left.
    by apply (run_admit default_cfg s now d e tr).
  - destruct (cr_inflight s) eqn:En; [apply rtc_refl|]. apply rtc_once. left.
    destruct (record default_cfg now err (cr_entry s)) as [e tr] eqn:E.
    by apply (run_record default_cfg s n now err e tr).
  - destruct (cr_inflight s) eqn:En; [apply rtc_refl|]. apply rtc_once. right. by constructor.
Qed.

Lemma do_events_run evs : rtc (any_step default_cfg) run_init (do_events evs).
Proof.
  unfold do_events. generalize run_init. induction evs as [|ev evs IH]; intros s; simpl; [apply rtc_refl|].
  etrans; [apply do_event_step|apply IH].
Qed.

(** Eight requests start; five fail at once and open the circuit; after 31 seconds
    a probe starts; then the three slow requests of before succeed. *)
Definition stale_run : list cb_event :=
  replicate 8 (EvAdmit 0) ++ replicate 5 (EvRecord 1 true) ++ [EvAdmit (31 * Second)] ++
  replicate 3 (EvRecord (31 * Second + 1) false).

(** successes of requests that were admitted before the circuit opened count as
    probe successes: in this run the circuit closes while its only probe has not
    answered yet. *)
Theorem stale_successes_close_circuit :
  rtc (any_step default_cfg) run_init (do_events stale_run) /\
  state (cr_entry (do_events stale_run)) = CircuitClosed /\
  cr_probes (do_events stale_run) = 1 /\ cr_inflight (do_events stale_run) = 1%nat.
Proof. split; [apply do_events_run|]. vm_compute. done. Qed.

Lemma circuit_breaker_recovers_witness :
  served (fst (fst (admission default_cfg (40 * Second) (cr_entry (do_events []))))) = true.
Proof.
  apply (circuit_breaker_recovers default_cfg (do_events []) (40 * Second));
    [vm_compute; congruence|apply rtc_refl|reflexivity|vm_compute; congruence].
Defined.

Lemma circuit_breaker_limits_probes_witness :
  1 <= cr_probes (do_events (take 14 stale_run)) <= HalfOpenMaxRequests default_cfg.
Proof.
  apply (proj1 (circuit_breaker_limits_probes default_cfg (do_events (take 14 stale_run))
    ltac:(vm_compute; congruence) (do_events_run _))).
  vm_compute. reflexivity.
Defined.

(** All three probes panic. *)
Definition panic_run : list cb_event :=
  replicate 5 (EvAdmit 0) ++ replicate 5 (EvRecord 1 true) ++
  replicate 3 (EvAdmit (31 * Second)) ++ replicate 3 EvPanic.

Lemma panicking_probes_wedge_circuit_witness :
  fst (fst (admission default_cfg (1000000 * Second) (cr_entry (do_events panic_run)))) = RejectHalfOpen.
Proof.
  apply (panicking_probes_wedge_circuit default_cfg (do_events panic_run) (do_events panic_run));
    [vm_compute; reflexivity|vm_compute; reflexivity|vm_compute; congruence|apply rtc_refl].
Defined.
