(* ===== verification/TokenBucket.v ===== *)
(** * Token buckets: [internal/waf/ratelimit/bucket.go] and
      [internal/middleware/rate_limiter.go]

    Both limiters keep a level of tokens that a clock refills and a request consumes.
    The code computes in [float64]; the definitions are written over an arithmetic
    ([Arith]) whose instances are the code's binary64 and the rational numbers.  The
    bounds on the number of admitted requests are proved for the rational instance,
    that is, for the algorithm without rounding; the properties of the table of buckets
    hold for every instance.  Requests of the middleware interleave: each access of the
    shared map, the counter and a bucket is a step. *)
From S2P Require Import Prelude GoFloat Http Bytes GoStrings NetIP NetAddr.
From Stdlib Require Import Ascii QArith Lqa.
Close Scope Q_scope.
Open Scope Z_scope.

(** ** Arithmetic *)

Class Arith (number : Type) := {
  of_int : Z -> number;
  add : number -> number -> number;
  sub : number -> number -> number;
  mul : number -> number -> number;
  div : number -> number -> number;
  ltb : number -> number -> bool;
  leb : number -> number -> bool;
  trunc : number -> Z;      (* conversion to an integer type *)
  floor : number -> Z       (* [int(math.Floor(x))] *)
}.

Definition f64_neg (x : float64) : float64 := SFopp x.

#[export] Instance float64_arith : Arith float64 := {|
  of_int := f64_of_Z;
  add := f64_add;
  sub x y := f64_add x (f64_neg y);
  mul := f64_mul;
  div := f64_div;
  ltb := f64_ltb;
  leb := f64_leb;
  trunc := f64_to_Z;
  floor x := let z := f64_to_Z x in if f64_ltb x (f64_of_Z z) then z - 1 else z
|}.

#[export] Instance Q_arith : Arith Q := {|
  of_int := inject_Z;
  add := Qplus;
  sub := Qminus;
  mul := Qmult;
  div := Qdiv;
  ltb x y := negb (Qle_bool y x);
  leb := Qle_bool;
  trunc x := Z.quot (Qnum x) (Zpos (Qden x));
  floor x := (Qnum x / Zpos (Qden x))
|}.

(** One second in nanoseconds, and [Duration.Seconds]. *)
Definition Second : Z := 10 ^ 9.
Definition Seconds `{Arith number} (d : Z) : number :=
  add (of_int (Z.quot d Second)) (div (of_int (Z.rem d Second)) (of_int Second)).

(** ** The bucket of the firewall *)

Module Waf.
Section Bucket.
Context `{Arith number}.

Record TokenBucket := mkBucket { tokens : number; maxTokens : number; refillRate : number; lastRefill : Z }.

Definition NewTokenBucket (now : Z) (max rate : number) : TokenBucket := mkBucket max max rate now.

Definition refill (now : Z) (b : TokenBucket) : TokenBucket :=
  let elapsed := Seconds (now - lastRefill b) in
  if leb elapsed (of_int 0) then b
  else
    let t := add (tokens b) (mul elapsed (refillRate b)) in
    let t := if ltb (maxTokens b) t then maxTokens b else t in
    mkBucket t (maxTokens b) (refillRate b) now.

Definition Allow (now : Z) (b : TokenBucket) : bool * TokenBucket :=
  let b := refill now b in
  if leb (of_int 1) (tokens b)
  then (true, mkBucket (sub (tokens b) (of_int 1)) (maxTokens b) (refillRate b) (lastRefill b))
  else (false, b).

Definition Tokens (now : Z) (b : TokenBucket) : number * TokenBucket :=
  let b := refill now b in (tokens b, b).

End Bucket.
Arguments TokenBucket : clear implicits.
End Waf.

(** ** The limiter of the middleware *)

Module Limiter.
Section Limiter.
Context `{Arith number}.

Record RateLimitConfig := mkConfig {
  RequestsPerSecond : number; BurstSize : Z; CleanupInterval : Z; CleanupTimeout : Z;
  MaxBuckets : Z; TrustedProxies : list string
}.

Record tokenBucket := mkBucket { tokens : number; lastCheck : Z }.

Inductive ConfigError := BadRate | BadBurst | BadProxyIP (s : string) | BadProxyCIDR (s : string).

(** A trusted proxy may be a bare address. *)
Definition parse_proxy (cidr : string) : ConfigError + IPNet :=
  let full :=
    if has_char "/"%char cidr then inr cidr
    else match ParseIP cidr with
         | None => inl (BadProxyIP cidr)
         | Some ip =>
             inr (match IP_To4 ip with Some _ => cidr +:+ "/32" | None => cidr +:+ "/128" end)
         end in
  match full with
  | inl e => inl e
  | inr cidr =>
      match ParseCIDR cidr with Some (_, n) => inr n | None => inl (BadProxyCIDR cidr) end
  end.

Fixpoint parse_proxies (l : list string) : ConfigError + list IPNet :=
  match l with
  | [] => inr []
  | c :: l =>
      match parse_proxy c with
      | inl e => inl e
      | inr n => match parse_proxies l with inl e => inl e | inr ns => inr (n :: ns) end
      end
  end.

Definition NewRateLimitMiddleware (c : RateLimitConfig)
    : ConfigError + RateLimitConfig * list IPNet :=
  if leb (RequestsPerSecond c) (of_int 0) then inl BadRate
  else if BurstSize c <=? 0 then inl BadBurst
  else
    let c := mkConfig (RequestsPerSecond c) (BurstSize c)
      (if CleanupInterval c <=? 0 then 60 * Second else CleanupInterval c)
      (if CleanupTimeout c <=? 0 then 600 * Second else CleanupTimeout c)
      (if MaxBuckets c <=? 0 then 100000 else MaxBuckets c) (TrustedProxies c) in
    match parse_proxies (TrustedProxies c) with
    | inl e => inl e
    | inr nets => inr (c, nets)
    end.

Definition remoteAddrIP (remoteAddr : string) : string :=
  match SplitHostPort remoteAddr with Some (host, _) => host | None => remoteAddr end.

Definition isTrustedProxy (nets : list IPNet) (ipStr : string) : bool :=
  match ParseIP ipStr with
  | None => false
  | Some ip => existsb (fun n => Contains n ip) nets
  end.

Definition keyFunc (nets : list IPNet) (remoteAddr : string) (r : Request) : string :=
  let remoteIP := remoteAddrIP remoteAddr in
  if isTrustedProxy nets remoteIP then
    let xff := Header_Get (Header r) "X-Forwarded-For" in
    if bool_decide (xff = "") then
      let xri := Header_Get (Header r) "X-Real-IP" in
      if bool_decide (xri = "") then remoteIP else TrimSpace xri
    else TrimSpace (default "" (head (Split ","%char xff)))
  else remoteIP.

(** Consumes a token of a bucket; the retry time is in nanoseconds. *)
Definition checkAndConsume (c : RateLimitConfig) (now : Z) (b : tokenBucket)
    : bool * Z * tokenBucket :=
  let elapsed := Seconds (now - lastCheck b) in
  let t := add (tokens b) (mul elapsed (RequestsPerSecond c)) in
  let t := if ltb (of_int (BurstSize c)) t then of_int (BurstSize c) else t in
  if leb (of_int 1) t then (true, 0, mkBucket (sub t (of_int 1)) now)
  else
    let tokensNeeded := sub (of_int 1) t in
    let retryAfter := trunc (mul (div tokensNeeded (RequestsPerSecond c)) (of_int Second)) in
    (false, Z.max retryAfter Second, mkBucket t now).

(** The shared state: the map from keys to buckets, the buckets, and the counter.  A
    bucket that the clean-up has removed from the map can still be in use. *)
Record limiter := mkLimiter {
  buckets : gmap string nat; objects : gmap nat tokenBucket; bucketCount : Z; next : nat
}.

Definition empty_limiter : limiter := mkLimiter ∅ ∅ 0 0.

Definition new_bucket (c : RateLimitConfig) (now : Z) : tokenBucket :=
  mkBucket (of_int (BurstSize c)) now.

(** A request inside [allow]: it has read the clock, found no bucket, passed the check of
    the counter, or created a bucket it has yet to count. *)
Inductive request_pc :=
  | Idle
  | Loading (key : string) (now : Z)
  | Counting (key : string) (now : Z)
  | Storing (key : string) (now : Z)
  | Consuming (b : nat) (now : Z)
  | Created (b : nat).

(** One step of a request.  The answer is given when the request returns to [Idle]. *)
Definition allow_step (c : RateLimitConfig) (pc : request_pc) (m : limiter)
    : request_pc * option (bool * Z) * limiter :=
  match pc with
  | Idle => (Idle, None, m)
  | Loading key now =>
      match buckets m !! key with
      | Some b => (Consuming b now, None, m)
      | None => (Counting key now, None, m)
      end
  | Counting key now =>
      let maxBuckets := if MaxBuckets c <=? 0 then 100000 else MaxBuckets c in
      if maxBuckets <=? bucketCount m
      then (Idle, Some (false, trunc (div (of_int (10 ^ 9)) (RequestsPerSecond c))), m)
      else (Storing key now, None, m)
  | Storing key now =>
      match buckets m !! key with
      | Some b => (Consuming b now, None, m)
      | None =>
          let b := next m in
          (Created b, None,
           mkLimiter (<[key := b]> (buckets m)) (<[b := new_bucket c now]> (objects m))
             (bucketCount m) (S b))
      end
  | Consuming b now =>
      match objects m !! b with
      | Some o =>
          let '(ok, retry, o) := checkAndConsume c now o in
          (Idle, Some (ok, retry), mkLimiter (buckets m) (<[b := o]> (objects m)) (bucketCount m) (next m))
      | None => (Idle, None, m)
      end
  | Created b =>
      match objects m !! b with
      | Some o =>
          (Idle, Some (true, 0),
           mkLimiter (buckets m) (<[b := mkBucket (sub (tokens o) (of_int 1)) (lastCheck o)]> (objects m))
             (i64 (bucketCount m + 1)) (next m))
      | None => (Idle, None, m)
      end
  end.

(** [allow] without interference: enough steps for every path. *)
Fixpoint run_allow (fuel : nat) (c : RateLimitConfig) (pc : request_pc) (m : limiter)
    : option (bool * Z) * limiter :=
  match fuel with
  | O => (None, m)
  | S fuel =>
      match allow_step c pc m with
      | (pc, None, m) => run_allow fuel c pc m
      | (_, Some a, m) => (Some a, m)
      end
  end.

Definition allow (c : RateLimitConfig) (key : string) (now : Z) (m : limiter) : option (bool * Z) * limiter :=
  run_allow 4 c (Loading key now) m.

(** The clean-up looks at one key at a time: it removes a bucket that was idle, and
    decrements the counter in a second step. *)
Definition cleanup_key (c : RateLimitConfig) (now : Z) (key : string) (m : limiter) : bool * limiter :=
  match buckets m !! key with
  | None => (false, m)
  | Some b =>
      match objects m !! b with
      | Some o =>
          if lastCheck o <? now - CleanupTimeout c
          then (true, mkLimiter (delete key (buckets m)) (objects m) (bucketCount m) (next m))
          else (false, m)
      | None => (false, m)
      end
  end.

Definition count_down (m : limiter) : limiter :=
  mkLimiter (buckets m) (objects m) (i64 (bucketCount m - 1)) (next m).

(** [cleanup] without interference; [keys] is the order of [Range]. *)
Definition cleanup (c : RateLimitConfig) (now : Z) (keys : list string) (m : limiter) : limiter :=
  foldl (fun m key => let '(removed, m) := cleanup_key c now key m in
                      if removed then count_down m else m) m keys.

(** The header [X-RateLimit-Remaining]. *)
Definition remaining (c : RateLimitConfig) (key : string) (m : limiter) : Z :=
  match b ← buckets m !! key; objects m !! b with
  | Some o => Z.max (floor (tokens o)) 0
  | None => BurstSize c
  end.

(** [Wrap]: the status the limiter answers itself, with the value of [Retry-After]. *)
Definition Wrap (c : RateLimitConfig) (nets : list IPNet) (remoteAddr : string) (r : Request) (now : Z)
    (m : limiter) : option (Z * Z) * limiter :=
  match allow c (keyFunc nets remoteAddr r) now m with
  | (Some (false, retry), m) => (Some (429, Z.quot retry Second), m)
  | (_, m) => (None, m)
  end.

End Limiter.
Arguments RateLimitConfig : clear implicits.
Arguments tokenBucket : clear implicits.
Arguments limiter : clear implicits.
End Limiter.
