(* ===== verification/TokenBucketFacts.v ===== *)
(** * Token buckets: how many requests pass

    The bounds on admitted requests are stated for exact arithmetic (the rational
    instance of [Arith]).  The size of the table of buckets is bounded under every
    interleaving of requests and clean-ups, for every arithmetic. *)
From S2P Require Import Prelude GoFloat Http NetIP NetAddr TokenBucket.
From Stdlib Require Import QArith Lqa.
Close Scope Q_scope.
Open Scope Z_scope.

(** Nanoseconds as seconds. *)
Definition secs (d : Z) : Q := (inject_Z d / inject_Z Second)%Q.

Lemma Seconds_secs d : (Seconds d == secs d)%Q.
Proof.
  unfold Seconds, secs. simpl. rewrite (Z.quot_rem' d Second) at 3.
  rewrite inject_Z_plus, inject_Z_mult. field. done.
Qed.

Lemma secs_sub a b : (secs (a - b) == secs a - secs b)%Q.
Proof. unfold secs. unfold Z.sub. rewrite inject_Z_plus, inject_Z_opp. field. done. Qed.

Lemma secs_mono a b : a <= b -> (secs a <= secs b)%Q.
Proof.
  intros Hle. unfold secs. apply Qmult_le_compat_r; [by rewrite <- Zle_Qle|].
  unfold Qle. simpl. lia.
Qed.

Lemma secs_nonneg a : 0 <= a -> (0 <= secs a)%Q.
Proof. intros H. apply (Qle_trans _ (secs 0)); [discriminate|by apply secs_mono]. Qed.

Lemma secs_nonpos a : a <= 0 -> (secs a <= 0)%Q.
Proof. intros H. apply (Qle_trans _ (secs 0)); [by apply secs_mono|discriminate]. Qed.

(** ** Sequences of requests to one bucket *)

Section Runs.
Context {B : Type} (step : Z -> B -> bool * B).

(** The number of admitted requests at the given clock readings, and the last state. *)
Fixpoint admitted (times : list Z) (b : B) : nat * B :=
  match times with
  | [] => (0%nat, b)
  | t :: times =>
      let '(ok, b) := step t b in
      let '(n, b) := admitted times b in ((if ok then S n else n), b)
  end.

Context (inv : B -> Prop) (phi : B -> Q).

(** A quantity that every step lowers by the requests it admits bounds their number. *)
Lemma admitted_potential times b :
  (forall t b, t ∈ times -> inv b -> inv (step t b).2 /\
     (inject_Z (Z.b2z (step t b).1) + phi (step t b).2 <= phi b)%Q) ->
  inv b ->
  inv (admitted times b).2 /\ (inject_Z (Z.of_nat (admitted times b).1) + phi (admitted times b).2 <= phi b)%Q.
Proof.
  revert b. induction times as [|t times IH]; intros b Hstep Hb; cbn [admitted].
  { split; [done|]. cbn [fst snd]. change (inject_Z (Z.of_nat 0)) with 0%Q. rewrite Qplus_0_l. apply Qle_refl. }
  destruct (Hstep t b) as [Hi Hp]; [by left|done|].
  destruct (step t b) as [ok b1]. simpl in *.
  destruct (IH b1) as [Hi' Hp']; [intros; apply Hstep; [by right|done]|done|].
  destruct (admitted times b1) as [n b2]. simpl in *. split; [done|].
  assert (E : (inject_Z (Z.of_nat (if ok then S n else n)) == inject_Z (Z.b2z ok) + inject_Z (Z.of_nat n))%Q).
  { rewrite <- inject_Z_plus.
    by replace (Z.of_nat (if ok then S n else n)) with (Z.b2z ok + Z.of_nat n) by (destruct ok; cbn [Z.b2z]; lia). }
  rewrite E. lra.
Qed.

End Runs.

(** ** The bucket of the firewall *)

Section WafBucket.
Import Waf.

Definition bucket_ok (b : TokenBucket Q) : Prop :=
  (0 <= tokens b <= maxTokens b)%Q /\ (0 <= refillRate b)%Q.

Lemma refill_spec now b :
  bucket_ok b ->
  bucket_ok (refill now b) /\ maxTokens (refill now b) = maxTokens b /\
  refillRate (refill now b) = refillRate b /\
  (tokens (refill now b) - refillRate b * secs (lastRefill (refill now b)) <=
   tokens b - refillRate b * secs (lastRefill b))%Q /\
  lastRefill b <= lastRefill (refill now b) <= Z.max now (lastRefill b).
Proof.
  intros [[H0 H1] Hr]. unfold refill. cbn [leb ltb Q_arith of_int add mul].
  destruct (Qle_bool (Seconds (now - lastRefill b)) (inject_Z 0)) eqn:E.
  { split_and!; try done; try lra; lia. }
  assert (Hnow : lastRefill b < now).
  { apply Z.nle_gt. intros Hle. apply not_true_iff_false in E. apply E, Qle_bool_iff.
    rewrite Seconds_secs. apply secs_nonpos. lia. }
  assert (He : (0 <= Seconds (now - lastRefill b))%Q).
  { rewrite Seconds_secs. apply secs_nonneg. lia. }
  assert (Hm : (0 <= Seconds (now - lastRefill b) * refillRate b)%Q) by (by apply Qmult_le_0_compat).
  assert (Es : (Seconds (now - lastRefill b) * refillRate b ==
    refillRate b * secs now - refillRate b * secs (lastRefill b))%Q).
  { rewrite Seconds_secs, secs_sub. ring. }
  destruct (Qle_bool (tokens b + _) _) eqn:E2; cbn [negb tokens maxTokens refillRate lastRefill];
    unfold bucket_ok; cbn [tokens maxTokens refillRate lastRefill].
  - apply Qle_bool_iff in E2. split_and!; try done; try lra; lia.
  - assert (Hgt : ~ (tokens b + Seconds (now - lastRefill b) * refillRate b <= maxTokens b)%Q).
    { intros Hle. apply Qle_bool_iff in Hle. congruence. }
    apply Qnot_le_lt in Hgt. split_and!; try done; try lra; lia.
Qed.

Definition waf_phi (b : TokenBucket Q) : Q := (tokens b - refillRate b * secs (lastRefill b))%Q.

Lemma Allow_step t0 limit now b :
  bucket_ok b -> t0 <= lastRefill b <= limit -> now <= limit ->
  let b' := (Allow now b).2 in
  (bucket_ok b' /\ t0 <= lastRefill b' <= limit /\ refillRate b' = refillRate b) /\
  (inject_Z (Z.b2z (Allow now b).1) + waf_phi b' <= waf_phi b)%Q.
Proof.
  intros Hb Hl Hn. destruct (refill_spec now b Hb) as (Hr & Em & Er & Hp & Hlast).
  unfold Allow. cbn [leb Q_arith of_int sub].
  destruct (Qle_bool (inject_Z 1) (tokens (refill now b))) eqn:E; cbn [fst snd Z.b2z].
  - apply Qle_bool_iff in E. change (inject_Z 1) with 1%Q in *. destruct Hr as [[Hr0 Hr1] Hr2].
    unfold bucket_ok, waf_phi. cbn [tokens maxTokens refillRate lastRefill]. rewrite Er in *.
    split_and!; try done; try lra; lia.
  - change (inject_Z 0) with 0%Q. unfold waf_phi. rewrite Er. split_and!; try done; try lra; try apply Hr; lia.
Qed.

(** However the requests are spread over an interval, a bucket admits at most its
    capacity plus what the rate refills in the interval. *)
Theorem waf_bucket_rate_bound times limit b
  (Hb : bucket_ok b) (Ht : Forall (fun t => t <= limit) times) (Hl : lastRefill b <= limit) :
  (inject_Z (Z.of_nat (admitted Allow times b).1) <=
   maxTokens b + refillRate b * secs (limit - lastRefill b))%Q.
Proof.
  rewrite Forall_forall in Ht.
  destruct (admitted_potential Allow
    (fun b' => bucket_ok b' /\ lastRefill b <= lastRefill b' <= limit /\ refillRate b' = refillRate b)
    waf_phi times b) as [(Ho & Hlast & Er) Hp].
  - intros t b1 Hin (H1 & H2 & H3).
    destruct (Allow_step (lastRefill b) limit t b1 H1 H2 (Ht t Hin)) as [(G1 & G2 & G3) G4].
    split_and!; try done; try apply G1; [lia..|congruence].
  - split_and!; try done; try apply Hb; lia.
  - unfold waf_phi in Hp. rewrite Er in Hp. rewrite secs_sub.
    destruct Hb as [[_ Hmax] Hrate]. destruct Ho as [[H0 _] _].
    pose proof (secs_mono _ _ (proj2 Hlast)) as Hs.
    assert (Hm : (refillRate b * secs (lastRefill (admitted Allow times b).2) <= refillRate b * secs limit)%Q).
    { rewrite !(Qmult_comm (refillRate b)). by apply Qmult_le_compat_r. }
    lra.
Qed.

(** A client that waits until the rate has refilled one token is served. *)
Theorem waf_bucket_recovers now b
  (Hb : bucket_ok b) (Hcap : (1 <= maxTokens b)%Q)
  (Hwait : (1 <= refillRate b * secs (now - lastRefill b))%Q) : (Allow now b).1 = true.
Proof.
  destruct Hb as [[H0 H1] Hr].
  assert (Hpos : (0 < secs (now - lastRefill b))%Q).
  { apply Qnot_le_lt. intros Hle. assert ((refillRate b * secs (now - lastRefill b) <= 0)%Q); [|lra].
    rewrite Qmult_comm, <- (Qmult_0_l (refillRate b)). by apply Qmult_le_compat_r. }
  unfold Allow, refill. cbn [leb ltb Q_arith of_int add mul].
  destruct (Qle_bool (Seconds (now - lastRefill b)) (inject_Z 0)) eqn:E.
  { apply Qle_bool_iff in E. rewrite Seconds_secs in E. change (inject_Z 0) with 0%Q in E. lra. }
  assert (Es : (Seconds (now - lastRefill b) * refillRate b == refillRate b * secs (now - lastRefill b))%Q).
  { rewrite Seconds_secs. ring. }
  match goal with |- context [if negb ?c then _ else _] => destruct c eqn:E2 end; cbn [negb tokens];
    match goal with |- context [Qle_bool (inject_Z 1) ?x] => assert (Hx : (inject_Z 1 <= x)%Q) end;
    try (apply Qle_bool_iff in Hx; by rewrite Hx); change (inject_Z 1) with 1%Q; lra.
Qed.

End WafBucket.

(** ** The bucket of the middleware *)

Section LimiterBucket.
Import Limiter.
Context (c : RateLimitConfig Q).
#[local] Notation rate := (RequestsPerSecond c).

Definition consume (now : Z) (b : tokenBucket Q) : bool * tokenBucket Q :=
  let '(ok, _, b) := checkAndConsume c now b in (ok, b).

Definition limiter_phi (b : tokenBucket Q) : Q := (tokens b - rate * secs (lastCheck b))%Q.

Lemma consume_step limit now b :
  (0 <= rate)%Q -> 0 <= BurstSize c -> now <= limit ->
  (- (rate * secs limit) <= limiter_phi b)%Q ->
  (- (rate * secs limit) <= limiter_phi (consume now b).2)%Q /\
  (inject_Z (Z.b2z (consume now b).1) + limiter_phi (consume now b).2 <= limiter_phi b)%Q.
Proof.
  intros Hr Hb Hn Hi. unfold consume, checkAndConsume, limiter_phi in *. cbn [leb ltb Q_arith of_int add sub mul].
  assert (Es : (Seconds (now - lastCheck b) * rate == rate * secs now - rate * secs (lastCheck b))%Q).
  { rewrite Seconds_secs, secs_sub. ring. }
  assert (Hb' : (0 <= inject_Z (BurstSize c))%Q) by (change 0%Q with (inject_Z 0); by rewrite <- Zle_Qle).
  assert (Hm : (rate * secs now <= rate * secs limit)%Q).
  { rewrite !(Qmult_comm rate). apply Qmult_le_compat_r; [by apply secs_mono|done]. }
  set (t := if negb (Qle_bool (tokens b + _) _) then _ else _).
  assert (Ht : (t <= tokens b + Seconds (now - lastCheck b) * rate)%Q /\
    (- (rate * secs limit) <= t - rate * secs now)%Q).
  { unfold t. destruct (Qle_bool (tokens b + _) _) eqn:E; cbn [negb].
    - lra.
    - assert (Hgt : (inject_Z (BurstSize c) < tokens b + Seconds (now - lastCheck b) * rate)%Q).
      { apply Qnot_le_lt. intros Hle. apply Qle_bool_iff in Hle. congruence. }
      lra. }
  clearbody t. change (inject_Z 1) with 1%Q.
  destruct (Qle_bool 1 t) eqn:E; cbn [fst snd tokens lastCheck Z.b2z].
  - apply Qle_bool_iff in E. change (inject_Z 1) with 1%Q. lra.
  - change (inject_Z 0) with 0%Q. lra.
Qed.


End LimiterBucket.

(** ** The table of buckets *)

Section Table.
Import Limiter.
Context `{Arith number} (c : RateLimitConfig number).

(** The requests under way, the shared state, and the number of buckets the clean-up has
    removed but not yet counted down. *)
Record system := mkSystem { threads : list request_pc; shared : limiter number; removed : Z }.

Inductive system_step : system -> system -> Prop :=
  | sys_start s i key now :
      threads s !! i = Some Idle ->
      system_step s (mkSystem (<[i := Loading key now]> (threads s)) (shared s) (removed s))
  | sys_request s i pc :
      threads s !! i = Some pc ->
      system_step s (mkSystem (<[i := (allow_step c pc (shared s)).1.1]> (threads s))
                       (allow_step c pc (shared s)).2 (removed s))
  | sys_cleanup s now key m :
      cleanup_key c now key (shared s) = (true, m) -> removed s = 0 ->
      system_step s (mkSystem (threads s) m 1)
  | sys_count_down s :
      removed s = 1 -> system_step s (mkSystem (threads s) (count_down (shared s)) 0).

Definition is_storing (pc : request_pc) : bool := match pc with Storing _ _ => true | _ => false end.
Definition is_created (pc : request_pc) : bool := match pc with Created _ => true | _ => false end.

(** The bucket a request works on. *)
Definition pc_bucket (pc : request_pc) : option nat :=
  match pc with Consuming b _ => Some b | Created b => Some b | _ => None end.

Record table_inv (s : system) : Prop := {
  ti_removed : removed s = 0 \/ removed s = 1;
  ti_count : bucketCount (shared s) =
    Z.of_nat (size (buckets (shared s))) + removed s - Z.of_nat (countb is_created (threads s));
  ti_bound : Z.of_nat (size (buckets (shared s))) + Z.of_nat (countb is_storing (threads s)) <=
    MaxBuckets c - 1 + Z.of_nat (length (threads s));
  ti_objects : forall b, (b < next (shared s))%nat -> is_Some (objects (shared s) !! b);
  ti_threads : forall pc b, pc ∈ threads s -> pc_bucket pc = Some b -> (b < next (shared s))%nat;
  ti_buckets : forall key b, buckets (shared s) !! key = Some b -> (b < next (shared s))%nat
}.

Lemma countb_insert_Z (f : request_pc -> bool) l i x y :
  l !! i = Some x ->
  Z.of_nat (countb f (<[i:=y]> l)) = Z.of_nat (countb f l) + Z.b2z (f y) - Z.b2z (f x).
Proof. intros E. pose proof (countb_insert f l i x y E). destruct (f x), (f y); simpl in *; lia. Qed.

(** What a step of one request keeps, once the sizes are accounted for. *)
Lemma request_inv s i pc pc' m :
  table_inv s -> threads s !! i = Some pc ->
  bucketCount m - Z.of_nat (size (buckets m)) =
    bucketCount (shared s) - Z.of_nat (size (buckets (shared s))) + Z.b2z (is_created pc) - Z.b2z (is_created pc') ->
  (Z.of_nat (size (buckets m)) + Z.b2z (is_storing pc') <=
     Z.of_nat (size (buckets (shared s))) + Z.b2z (is_storing pc) \/
   Z.of_nat (size (buckets m)) + Z.of_nat (countb is_storing (threads s)) + Z.b2z (is_storing pc') - Z.b2z (is_storing pc) <=
     MaxBuckets c - 1 + Z.of_nat (length (threads s))) ->
  (next (shared s) <= next m)%nat ->
  (forall b, (b < next m)%nat -> is_Some (objects m !! b)) ->
  (forall b, pc_bucket pc' = Some b -> (b < next m)%nat) ->
  (forall key b, buckets m !! key = Some b -> (b < next m)%nat) ->
  table_inv (mkSystem (<[i := pc']> (threads s)) m (removed s)).
Proof.
  intros [I1 I2 I3 I4 I5 I6] Hpc Hc Hb Hn Ho Ht Hk.
  constructor; cbn [threads shared removed]; try done.
  - rewrite (countb_insert_Z _ _ _ _ _ Hpc). lia.
  - rewrite (countb_insert_Z _ _ _ _ _ Hpc), length_insert. lia.
  - intros q b Hq Hqb. apply list_elem_of_lookup in Hq as [j Hj].
    apply list_lookup_insert_Some in Hj as [(<- & <- & _)|[_ Hj]]; [by apply Ht|].
    eapply Nat.lt_le_trans; [|exact Hn]. eapply I5; [by eapply list_elem_of_lookup_2|done].
Qed.

Lemma countb_pair (f g : request_pc -> bool) l i x :
  (forall y, f y && g y = false) -> l !! i = Some x -> f x || g x = false ->
  (countb f l + countb g l + 1 <= length l)%nat.
Proof.
  intros Hd Hi Hx. rewrite <- (take_drop_middle l i x Hi), !countb_app, !countb_cons, length_app.
  apply orb_false_iff in Hx as [-> ->]. simpl.
  assert (Hle : forall k, (countb f k + countb g k <= length k)%nat).
  { induction k as [|y k IH]; [done|]. rewrite !countb_cons. specialize (Hd y). simpl.
    destruct (f y), (g y); simpl in *; lia || done. }
  pose proof (Hle (take i l)). pose proof (Hle (drop (S i) l)). lia.
Qed.

Lemma new_object_inv (objs : gmap nat (tokenBucket number)) k o :
  (forall b, (b < k)%nat -> is_Some (objs !! b)) ->
  forall b, (b < S k)%nat -> is_Some (<[k := o]> objs !! b).
Proof.
  intros Hk b Hb. destruct (decide (b = k)) as [->|]; [rewrite lookup_insert_eq; eauto|].
  rewrite lookup_insert_ne by done. apply Hk. lia.
Qed.

Lemma set_object_inv (objs : gmap nat (tokenBucket number)) k b' o :
  (forall b, (b < k)%nat -> is_Some (objs !! b)) ->
  forall b, (b < k)%nat -> is_Some (<[b' := o]> objs !! b).
Proof.
  intros Hk b Hb. destruct (decide (b = b')) as [->|]; [rewrite lookup_insert_eq; eauto|].
  rewrite lookup_insert_ne by done. by apply Hk.
Qed.

Context (Hmax : 0 < MaxBuckets c).

Lemma system_step_inv s s' :
  MaxBuckets c + Z.of_nat (length (threads s)) + 1 < 2 ^ 63 ->
  system_step s s' -> table_inv s -> table_inv s'.
Proof.
  intros Hrange Hstep I. pose proof I as [I1 I2 I3 I4 I5 I6].
  pose proof (countb_le_length is_created (threads s)) as Hcr.
  destruct Hstep as [s i key now Hi|s i pc Hi|s now key m Hc Hr|s Hr].
  - apply (request_inv s i Idle); auto; try done; simpl; lia.
  - assert (Hlen : (0 < length (threads s))%nat) by (apply lookup_lt_Some in Hi; lia).
    destruct pc as [|key now|key now|key now|b now|b]; cbn [allow_step].
    + apply (request_inv s i Idle); auto; try done; simpl; lia.
    + destruct (buckets (shared s) !! key) as [b|] eqn:Hk; cbn [fst snd];
        apply (request_inv s i (Loading key now)); auto; try done; simpl; try lia.
      intros b' [= <-]. by eapply I6.
    + rewrite (proj2 (Z.leb_gt _ _) Hmax). destruct (Z.leb_spec (MaxBuckets c) (bucketCount (shared s)));
        cbn [fst snd]; apply (request_inv s i (Counting key now)); auto; try done; simpl; try lia.
      assert (Hp : (countb is_storing (threads s) + countb is_created (threads s) + 1 <= length (threads s))%nat)
        by (apply (countb_pair _ _ _ i (Counting key now)); [by intros []|done..]).
      right. lia.
    + destruct (buckets (shared s) !! key) as [b|] eqn:Hk; cbn [fst snd];
        apply (request_inv s i (Storing key now)); auto; cbn; try done; try lia.
      * intros b' [= <-]. by eapply I6.
      * rewrite map_size_insert_None by done. lia.
      * rewrite map_size_insert_None by done. lia.
      * apply new_object_inv, I4.
      * intros b [= <-]. lia.
      * intros k b Hkb. apply lookup_insert_Some in Hkb as [[_ <-]|[_ Hkb]]; [lia|].
        apply I6 in Hkb. lia.
    + destruct (I4 b) as [o Ho]; [eapply I5; [by eapply list_elem_of_lookup_2|done]|].
      rewrite Ho. destruct (checkAndConsume c now o) as [[ok retry] o']. cbn [fst snd].
      apply (request_inv s i (Consuming b now)); auto; cbn; try done; try lia. by apply set_object_inv.
    + destruct (I4 b) as [o Ho]; [eapply I5; [by eapply list_elem_of_lookup_2|done]|].
      rewrite Ho. cbn [fst snd].
      apply (request_inv s i (Created b)); auto; cbn; try done; try lia.
      * rewrite i64_small; [lia|]. unfold in_i64. lia.
      * by apply set_object_inv.
  - unfold cleanup_key in Hc. destruct (buckets (shared s) !! key) as [b|] eqn:Hk; [|done].
    destruct (objects (shared s) !! b) as [o|]; [|done]. case_match; [|done]. injection Hc as <-.
    assert (Hsz : size (delete key (buckets (shared s))) = (size (buckets (shared s)) - 1)%nat).
    { rewrite map_size_delete_Some by eauto. lia. }
    assert (0 < size (buckets (shared s)))%nat.
    { apply Nat.neq_0_lt_0. intros E. apply map_size_empty_inv in E. by rewrite E, lookup_empty in Hk. }
    constructor; cbn [threads shared removed buckets objects bucketCount next]; auto; try (rewrite Hsz; lia).
    intros k b' Hd. apply lookup_delete_Some in Hd as [_ Hd]. by eapply I6.
  - constructor; cbn [threads shared removed buckets objects bucketCount next count_down]; auto.
    rewrite i64_small; [lia|]. unfold in_i64. lia.
Qed.

Definition initial (n : nat) : system := mkSystem (replicate n Idle) empty_limiter 0.

Lemma initial_table_inv n : table_inv (initial n).
Proof.
  assert (Hc : forall f, f Idle = false -> countb f (replicate n Idle) = 0%nat).
  { intros f Hf. induction n as [|n IH]; [done|]. cbn [replicate]. by rewrite countb_cons, Hf, IH. }
  constructor; cbn [initial threads shared removed empty_limiter buckets objects bucketCount next];
    rewrite ?Hc by done; rewrite ?length_replicate, ?map_size_empty; auto; try lia.
  - intros pc b Hin. apply elem_of_replicate in Hin as [-> _]. done.
  - intros key b E. by rewrite lookup_empty in E.
Qed.

(** Under every interleaving of [n] concurrent requests and the clean-up, the table holds
    fewer than [MaxBuckets] plus [n] buckets: the check of the counter can be overtaken by
    at most the other requests. *)
Theorem limiter_buckets_bounded n s
  (Hrange : MaxBuckets c + Z.of_nat n + 1 < 2 ^ 63)
  (Hreach : rtc system_step (initial n) s) :
  Z.of_nat (size (buckets (shared s))) < MaxBuckets c + Z.of_nat n.
Proof.
  assert (Hi : table_inv s /\ length (threads s) = n).
  { assert (H0 : table_inv (initial n) /\ length (threads (initial n)) = n).
    { split; [apply initial_table_inv|apply length_replicate]. }
    clear -Hreach H0 Hrange Hmax. induction Hreach as [|s1 s2 s3 Hs _ IH]; [done|]. apply IH.
    destruct H0 as [Hi Hl]. split; [eapply system_step_inv; [|done|done]; lia|].
    rewrite <- Hl. destruct Hs; cbn [threads]; by rewrite ?length_insert. }
  destruct Hi as [[_ _ Hb _ _ _] Hl]. lia.
Qed.

End Table.

(** ** Examples *)

Section Examples.

Definition demo_bucket : Waf.TokenBucket Q := Waf.NewTokenBucket 0 5%Q 2%Q.

Definition demo_times : list Z := [0; 0; 0; 0; 0; 0; Second; Second; Second].

Lemma waf_bucket_rate_bound_witness :
  (inject_Z (Z.of_nat (admitted Waf.Allow demo_times demo_bucket).1) <= 7)%Q /\
  (admitted Waf.Allow demo_times demo_bucket).1 = 7%nat.
Proof.
  split; [|reflexivity].
  pose proof (waf_bucket_rate_bound demo_times Second demo_bucket) as H.
  eapply Qle_trans; [apply H|vm_compute; discriminate].
  - repeat split; vm_compute; discriminate.
  - apply (bool_decide_eq_true_1 _). vm_compute. reflexivity.
  - vm_compute. discriminate.
Defined.

Lemma waf_bucket_recovers_witness : (Waf.Allow Second (Waf.mkBucket 0%Q 5%Q 2%Q 0)).1 = true.
Proof. apply waf_bucket_recovers; repeat split; vm_compute; discriminate. Defined.

Definition demo_config : Limiter.RateLimitConfig Q := Limiter.mkConfig 10%Q 3 60 600 2 [].


(** The same run in the code's arithmetic. *)
Example limiter_float64 :
  let c := Limiter.mkConfig (f64_of_Z 10) 3 60 600 2 [] in
  let ask key now m := Limiter.allow c key now m in
  let '(a1, m) := ask "k" 0 Limiter.empty_limiter in
  let '(a2, m) := ask "k" 0 m in
  let '(a3, m) := ask "k" 0 m in
  let '(a4, m) := ask "k" 0 m in
  let '(a5, m) := ask "k" (100 * 10 ^ 6) m in
  (a1, a2, a3, a4, a5) =
  (Some (true, 0), Some (true, 0), Some (true, 0), Some (false, Second), Some (true, 0)).
Proof. vm_compute. reflexivity. Qed.

Lemma limiter_buckets_bounded_witness :
  Z.of_nat (size (Limiter.buckets (shared (mkSystem [Limiter.Loading "k" 0]
    (@Limiter.empty_limiter Q) 0)))) < Limiter.MaxBuckets demo_config + Z.of_nat 1.
Proof.
  apply (limiter_buckets_bounded demo_config); [reflexivity|reflexivity|].
  apply rtc_once. apply (sys_start demo_config (initial 1) 0 "k" 0). reflexivity.
Defined.

End Examples.
