(* ===== verification/Latency.v ===== *)
(** * Latency-based balancers: least response time and peak EWMA

    Models [internal/balancer/least_response_time.go] and [peak_ewma.go].  The response
    times of a backend are a circular buffer with a running total, written by many
    goroutines without a lock; [record] is the uninterrupted call and [record_step] the
    atomic operations it consists of.  Times are nanoseconds. *)
From S2P Require Import Prelude GoFloat TokenBucket Backend BackendPool BalancersFacts.

(** ** Response times of one backend *)

Record lrtBackendState := mkState {
  s_backend : ptr; samples : list Z; writePos : Z; s_count : Z; s_total : Z
}.

Definition DefaultResponseTimeWindowSize : Z := 100.

Definition newLRTBackendState (b : ptr) (windowSize : Z) : lrtBackendState :=
  mkState b (replicate (Z.to_nat windowSize) 0) 0 0 0.

(** [uint32(len(bs.samples))]. *)
Definition window (bs : lrtBackendState) : Z := u32 (Z.of_nat (length (samples bs))).

Definition sample_at (bs : lrtBackendState) (pos : Z) : Z := default 0 (slice_get (samples bs) pos).

Definition record (d : Z) (bs : lrtBackendState) : lrtBackendState :=
  let windowSize := window bs in
  let pos := writePos bs in
  let nextPos := u32 (pos + 1) mod windowSize in
  let oldSample := sample_at bs pos in
  let count := if s_count bs <? windowSize then u32 (s_count bs + 1) else s_count bs in
  mkState (s_backend bs) (<[Z.to_nat pos := d]> (samples bs)) nextPos count
    (if count =? windowSize then i64 (s_total bs + i64 (d - oldSample)) else i64 (s_total bs + d)).

Definition average (bs : lrtBackendState) : Z :=
  if s_count bs =? 0 then 0 else Z.quot (s_total bs) (s_count bs).

Definition weightedAverage (h : heap) (bs : lrtBackendState) : Z :=
  let weight := GetWeight (h (s_backend bs)) in
  let weight := if weight <=? 0 then 1 else weight in
  Z.quot (average bs) weight.

(** *** The atomic operations of [record]

    Between two of them other goroutines run. *)
Inductive record_pc :=
  | RLoadPos (d : Z)
  | RCasPos (d pos : Z)
  | RSwap (d pos : Z)
  | RLoadCount (d old : Z)
  | RCasCount (d old oldCount : Z)
  | RCheck (d old : Z)
  | RAdd (delta : Z)
  | RDone.

Definition record_step (bs : lrtBackendState) (pc : record_pc) : lrtBackendState * record_pc :=
  let windowSize := window bs in
  match pc with
  | RLoadPos d => (bs, RCasPos d (writePos bs))
  | RCasPos d pos =>
      if writePos bs =? pos
      then (mkState (s_backend bs) (samples bs) (u32 (pos + 1) mod windowSize) (s_count bs) (s_total bs), RSwap d pos)
      else (bs, RCasPos d (writePos bs))
  | RSwap d pos =>
      (mkState (s_backend bs) (<[Z.to_nat pos := d]> (samples bs)) (writePos bs) (s_count bs) (s_total bs),
       RLoadCount d (sample_at bs pos))
  | RLoadCount d old => (bs, RCasCount d old (s_count bs))
  | RCasCount d old oldCount =>
      if s_count bs =? oldCount
      then (mkState (s_backend bs) (samples bs) (writePos bs)
              (if oldCount <? windowSize then u32 (oldCount + 1) else oldCount) (s_total bs), RCheck d old)
      else (bs, RLoadCount d old)
  | RCheck d old => (bs, RAdd (if s_count bs =? windowSize then i64 (d - old) else d))
  | RAdd delta =>
      (mkState (s_backend bs) (samples bs) (writePos bs) (s_count bs) (i64 (s_total bs + delta)), RDone)
  | RDone => (bs, RDone)
  end.

(** One goroutine of several moves. *)
Inductive record_sys_step : lrtBackendState * list record_pc -> lrtBackendState * list record_pc -> Prop :=
  | record_sys_step_intro bs ths i pc :
      ths !! i = Some pc ->
      record_sys_step (bs, ths) (fst (record_step bs pc), <[i := snd (record_step bs pc)]> ths).

(** The moves of the goroutines [is], in this order. *)
Definition schedule (is_ : list nat) (c : lrtBackendState * list record_pc) : lrtBackendState * list record_pc :=
  foldl (fun c i => match snd c !! i with
                    | Some pc => (fst (record_step (fst c) pc), <[i := snd (record_step (fst c) pc)]> (snd c))
                    | None => c
                    end) c is_.

(** ** Least response time *)
Module LeastResponseTime.

Record t := mk { backends : gmap string lrtBackendState; windowSize : Z }.

Definition NewLeastResponseTimeWithWindow (windowSize : Z) : t :=
  mk ∅ (if windowSize <=? 0 then DefaultResponseTimeWindowSize else windowSize).
Definition NewLeastResponseTime : t := NewLeastResponseTimeWithWindow DefaultResponseTimeWindowSize.

(** What [Next] compares: 0 for a backend without samples or unknown to the balancer. *)
Definition effective (h : heap) (l : t) (be : ptr) : Z :=
  match backends l !! ID (h be) with
  | None => 0
  | Some state => if s_count state =? 0 then 0 else average state
  end.

(** The loop of [Next]; [-1] stands for "nothing selected yet". *)
Definition scan (h : heap) (measure : ptr -> Z) (bs : list ptr) : option ptr * Z :=
  fold_left (fun '(selected, minAvg) be =>
    if negb (State_IsAvailable (state (h be))) then (selected, minAvg)
    else if (minAvg =? -1) || (measure be <? minAvg) then (Some be, measure be)
    else (selected, minAvg)) bs (None, -1).

Definition Next (h : heap) (ctx : option RequestContext) (bs : list ptr) (l : t) : option ptr * t :=
  match bs with
  | [] => (None, l)
  | _ => (fst (scan h (effective h l) bs), l)
  end.

Definition Add (h : heap) (be : ptr) (l : t) : t :=
  mk (<[ID (h be) := newLRTBackendState be (windowSize l)]> (backends l)) (windowSize l).
Definition Remove (h : heap) (id : string) (l : t) : t := mk (delete id (backends l)) (windowSize l).

Definition set_state_backend (be : ptr) (s : lrtBackendState) : lrtBackendState :=
  mkState be (samples s) (writePos s) (s_count s) (s_total s).
Definition Update (h : heap) (be : ptr) (l : t) : t :=
  mk (alter (set_state_backend be) (ID (h be)) (backends l)) (windowSize l).

Definition Record_ (backendID : string) (d : Z) (l : t) : t :=
  mk (alter (record d) backendID (backends l)) (windowSize l).

#[global] Instance balancer : Balancer t :=
  { bal_Next := Next; bal_Add := Add; bal_Remove := Remove; bal_Update := Update }.
End LeastResponseTime.

(** ** Weighted least response time *)
Module WeightedLeastResponseTime.

Record t := mk { backends : gmap string lrtBackendState; windowSize : Z }.

Definition NewWeightedLeastResponseTimeWithWindow (windowSize : Z) : t :=
  mk ∅ (if windowSize <=? 0 then DefaultResponseTimeWindowSize else windowSize).
Definition NewWeightedLeastResponseTime : t :=
  NewWeightedLeastResponseTimeWithWindow DefaultResponseTimeWindowSize.

Definition effective (h : heap) (w : t) (be : ptr) : Z :=
  match backends w !! ID (h be) with
  | None => 0
  | Some state => if s_count state =? 0 then 0 else weightedAverage h state
  end.

Definition Next (h : heap) (ctx : option RequestContext) (bs : list ptr) (w : t) : option ptr * t :=
  match bs with
  | [] => (None, w)
  | _ => (fst (LeastResponseTime.scan h (effective h w) bs), w)
  end.

Definition Add (h : heap) (be : ptr) (w : t) : t :=
  mk (<[ID (h be) := newLRTBackendState be (windowSize w)]> (backends w)) (windowSize w).
Definition Remove (h : heap) (id : string) (w : t) : t := mk (delete id (backends w)) (windowSize w).
Definition Update (h : heap) (be : ptr) (w : t) : t :=
  mk (alter (LeastResponseTime.set_state_backend be) (ID (h be)) (backends w)) (windowSize w).
Definition Record_ (backendID : string) (d : Z) (w : t) : t :=
  mk (alter (record d) backendID (backends w)) (windowSize w).

#[global] Instance balancer : Balancer t :=
  { bal_Next := Next; bal_Add := Add; bal_Remove := Remove; bal_Update := Update }.
End WeightedLeastResponseTime.

(** ** The window holds the latest samples *)

(** The last [n] elements of a list. *)
Definition lastn {A} (n : nat) (l : list A) : list A := drop (length l - n) l.

Lemma lastn_length {A} n (l : list A) : length (lastn n l) = Nat.min n (length l).
Proof. unfold lastn. rewrite length_drop. lia. Qed.

Lemma lastn_snoc {A} n (l : list A) x y r :
  lastn n l = x :: r -> (n <= length l)%nat -> lastn n (l ++ [y]) = r ++ [y].
Proof.
  unfold lastn. intros E Hn. destruct n as [|n]; [by rewrite Nat.sub_0_r, drop_all in E|].
  rewrite length_app, drop_app_le; simpl; [|lia].
  change r with (drop 1 (x :: r)). rewrite <- E, drop_drop.
  by replace (length l - S n + 1)%nat with (length l + 1 - S n)%nat by lia.
Qed.

Lemma sumZ_zeros n : sumZ (fun x : Z => x) (replicate n 0) = 0.
Proof. induction n; simpl; lia. Qed.

(** The circular buffer of [w] slots after the samples [ds]: the slots before the write
    position are the newest ones, and the unused slots hold the zeros they were created
    with, as if [w] zeros had been recorded first. *)
Record window_inv (w : nat) (ds : list Z) (bs : lrtBackendState) : Prop := {
  wi_ring : exists new old, samples bs = new ++ old /\ writePos bs = Z.of_nat (length new) /\
    old <> [] /\ old ++ new = lastn w (replicate w 0 ++ ds);
  wi_count : s_count bs = Z.of_nat (Nat.min (length ds) w);
  wi_total : s_total bs = i64 (sumZ (fun x => x) (samples bs))
}.

Lemma window_new w b : (0 < w)%nat -> window_inv w [] (newLRTBackendState b (Z.of_nat w)).
Proof.
  intros Hw. unfold newLRTBackendState. rewrite Nat2Z.id. split; cbn [samples writePos s_count s_total].
  - exists [], (replicate w 0). split_and!; [done|done|destruct w; [lia|done]|].
    unfold lastn. by rewrite !app_nil_r, length_replicate, Nat.sub_diag.
  - done.
  - by rewrite sumZ_zeros.
Qed.

Lemma window_samples_length w ds bs : window_inv w ds bs -> length (samples bs) = w.
Proof.
  intros [(new & old & Hs & _ & _ & Hl) _ _]. apply (f_equal length) in Hl.
  rewrite lastn_length, !length_app, length_replicate in Hl. rewrite Hs, length_app. lia.
Qed.

(** Recording a sample overwrites the oldest one. *)
Lemma window_record w ds bs d :
  (0 < w)%nat -> Z.of_nat w < 2 ^ 32 -> window_inv w ds bs -> window_inv w (ds ++ [d]) (record d bs).
Proof.
  intros Hw Hw32 I. pose proof (window_samples_length _ _ _ I) as Hlen.
  destruct I as [(new & old & Hs & Hp & Ho & Hl) Hc Ht]. destruct old as [|o old]; [done|].
  assert (Hwin : window bs = Z.of_nat w) by (unfold window; rewrite Hlen; apply u32_small; unfold in_u32; lia).
  assert (Hnw : (length new < w)%nat) by (rewrite Hs, length_app in Hlen; simpl in Hlen; lia).
  assert (Hold : sample_at bs (writePos bs) = o).
  { unfold sample_at, slice_get. rewrite bool_decide_true, Hp, Nat2Z.id, Hs by lia.
    by rewrite list_lookup_middle. }
  assert (Hset : <[Z.to_nat (writePos bs) := d]> (samples bs) = (new ++ [d]) ++ old).
  { rewrite Hp, Nat2Z.id, Hs, <- app_assoc. replace (length new) with (length new + 0)%nat by lia.
    by rewrite insert_app_r. }
  assert (Hlast : (old ++ new) ++ [d] = lastn w (replicate w 0 ++ ds ++ [d])).
  { rewrite (app_assoc (replicate w 0)). symmetry. eapply lastn_snoc; [by rewrite <- Hl|].
    rewrite length_app, length_replicate. lia. }
  split; unfold record; cbn [samples writePos s_count s_total]; rewrite ?Hwin, ?Hset.
  - destruct old as [|o' old].
    + exists [], (new ++ [d]). rewrite app_nil_r. split_and!; [done| |by destruct new|exact Hlast].
      rewrite Hs, length_app in Hlen. simpl in Hlen. simpl. rewrite Hp, u32_small by (unfold in_u32; lia).
      replace (Z.of_nat (length new) + 1) with (Z.of_nat w) by lia. apply Z_mod_same_full.
    + exists (new ++ [d]), (o' :: old). split_and!; [done| |done|by rewrite <- Hlast, app_assoc].
      rewrite Hs, length_app in Hlen. simpl in Hlen. rewrite Hp, length_app, u32_small by (unfold in_u32; lia).
      simpl. rewrite Z.mod_small; lia.
  - rewrite Hc, length_app. simpl. destruct (Z.ltb_spec (Z.of_nat (length ds `min` w)) (Z.of_nat w));
      rewrite ?u32_small by (unfold in_u32; lia); lia.
  - assert (Hsum : sumZ (fun x => x) ((new ++ [d]) ++ old) = sumZ (fun x => x) (samples bs) + (d - o)).
    { rewrite Hs, !sumZ_app. simpl. lia. }
    rewrite Hsum, Hold, Ht.
    destruct (Z.eqb_spec (if s_count bs <? Z.of_nat w then u32 (s_count bs + 1) else s_count bs) (Z.of_nat w)) as [|Hne].
    + by rewrite i64_add_l, i64_add_r.
    + rewrite i64_add_l. f_equal. assert (Hlt : (length ds < w)%nat).
      { rewrite Hc in Hne. destruct (Z.ltb_spec (Z.of_nat (length ds `min` w)) (Z.of_nat w)); lia. }
      assert (o = 0); [|lia]. unfold lastn in Hl. rewrite length_app, length_replicate in Hl.
      rewrite drop_app_le in Hl by (rewrite length_replicate; lia).
      replace (w + length ds - w)%nat with (length ds) in Hl by lia. rewrite drop_replicate in Hl.
      destruct (w - length ds)%nat eqn:Ew; [lia|]. by injection Hl.
Qed.

Lemma window_records w b ds :
  (0 < w)%nat -> Z.of_nat w < 2 ^ 32 ->
  window_inv w ds (foldl (fun bs d => record d bs) (newLRTBackendState b (Z.of_nat w)) ds).
Proof.
  intros Hw Hw32. induction ds as [|d ds IH] using rev_ind; [by apply window_new|].
  rewrite foldl_app. by apply window_record.
Qed.

(** Count and running total of the buffer, in terms of the latest samples. *)
Lemma window_latest w b ds :
  0 < Z.of_nat w < 2 ^ 32 ->
  let bs := foldl (fun bs d => record d bs) (newLRTBackendState b (Z.of_nat w)) ds in
  s_count bs = Z.of_nat (length (lastn w ds)) /\ s_total bs = i64 (sumZ (fun d => d) (lastn w ds)).
Proof.
  intros Hw bs. pose proof (window_records w b ds ltac:(lia) ltac:(lia)) as I. fold bs in I. split.
  - rewrite (wi_count _ _ _ I), lastn_length. lia.
  - rewrite (wi_total _ _ _ I). f_equal. destruct (wi_ring _ _ _ I) as (new & old & -> & _ & _ & Hl).
    rewrite sumZ_app, Z.add_comm, <- sumZ_app, Hl. unfold lastn.
    rewrite length_app, length_replicate, drop_app, sumZ_app, drop_replicate, sumZ_zeros, length_replicate.
    by replace (w + length ds - w - w)%nat with (length ds - w)%nat by lia.
Qed.

Lemma average_quot bs : s_count bs <> 0 -> average bs = Z.quot (s_total bs) (s_count bs).
Proof. intros H. unfold average. by rewrite (proj2 (Z.eqb_neq _ _) H). Qed.

Lemma lastn_nonempty {A} w (ds : list A) : (0 < w)%nat -> ds <> [] -> (0 < length (lastn w ds))%nat.
Proof. intros Hw Hne. rewrite lastn_length. destruct ds; [done|cbn [length]; lia]. Qed.

(** The buffer with its running total refines the list of the latest response times: after
    any sequence of samples the count is their number up to the window size, the total is
    their sum in 64-bit arithmetic, and [average] is the mean of exactly the last ones. *)
Theorem response_window_refines w b ds
  (Hw : 0 < Z.of_nat w < 2 ^ 32) :
  let bs := foldl (fun bs d => record d bs) (newLRTBackendState b (Z.of_nat w)) ds in
  let latest := lastn w ds in
  s_count bs = Z.of_nat (length latest) /\
  s_total bs = i64 (sumZ (fun d => d) latest) /\
  (ds <> [] -> average bs = Z.quot (i64 (sumZ (fun d => d) latest)) (Z.of_nat (length latest))).
Proof.
  intros bs latest. destruct (window_latest w b ds Hw) as [Hc Ht]. fold bs latest in Hc, Ht.
  split_and!; [done..|]. intros Hne. rewrite <- Ht, <- Hc. apply average_quot.
  pose proof (lastn_nonempty w ds ltac:(lia) Hne). unfold latest in Hc. lia.
Qed.

Lemma response_window_refines_witness :
  average (foldl (fun bs d => record d bs) (newLRTBackendState 0%nat 3) [90; 10; 20; 33]) = 21.
Proof.
  destruct (response_window_refines 3 0%nat [90; 10; 20; 33] ltac:(vm_compute; auto)) as (_ & _ & H).
  exact (H ltac:(discriminate)).
Defined.

(** ** Concurrent recording *)

Lemma schedule_one is_ bs pc :
  schedule (0%nat :: is_) (bs, [pc]) = schedule is_ (fst (record_step bs pc), [snd (record_step bs pc)]).
Proof. reflexivity. Qed.

(** Seven undisturbed steps are one call of [record]. *)
Lemma record_run d bs : schedule (replicate 7 0%nat) (bs, [RLoadPos d]) = (record d bs, [RDone]).
Proof.
  cbn [replicate]. rewrite !schedule_one. cbn [schedule foldl]. cbn [record_step fst snd].
  rewrite Z.eqb_refl. cbn [record_step fst snd]. rewrite Z.eqb_refl. cbn [record_step fst snd].
  unfold record, window, sample_at. cbn [samples s_count writePos s_backend s_total].
  rewrite length_insert. generalize (u32 (Z.of_nat (length (samples bs)))). intros w.
  f_equal. f_equal. by case_match.
Qed.

Lemma schedule_steps is_ c : rtc record_sys_step c (schedule is_ c).
Proof.
  revert c. induction is_ as [|i is_ IH]; intros [bs ths]; [done|].
  unfold schedule. simpl. destruct (ths !! i) as [pc|] eqn:E; [|apply IH].
  eapply rtc_l; [by apply (record_sys_step_intro bs ths i pc)|apply IH].
Qed.

(** Once the buffer is full, a difference between the total and the sum of the samples is
    kept by every later call. *)
Lemma record_keeps_drift bs d :
  0 <= writePos bs < Z.of_nat (length (samples bs)) -> Z.of_nat (length (samples bs)) < 2 ^ 32 ->
  s_count bs = Z.of_nat (length (samples bs)) ->
  let bs' := record d bs in
  i64 (s_total bs' - sumZ (fun x => x) (samples bs')) = i64 (s_total bs - sumZ (fun x => x) (samples bs)) /\
  (0 <= writePos bs' < Z.of_nat (length (samples bs'))) /\ length (samples bs') = length (samples bs) /\
  s_count bs' = Z.of_nat (length (samples bs')).
Proof.
  intros Hp Hl Hc. assert (Hw : window bs = Z.of_nat (length (samples bs)))
    by (unfold window; apply u32_small; unfold in_u32; lia).
  unfold record. rewrite Hw, Hc, Z.ltb_irrefl, Z.eqb_refl.
  cbn [samples writePos s_count s_total]. rewrite length_insert.
  split_and!; [|apply Z.mod_pos_bound; lia|apply Z.mod_pos_bound; lia|done|done].
  destruct (lookup_lt_is_Some_2 (samples bs) (Z.to_nat (writePos bs))) as [o Ho]; [lia|].
  assert (sample_at bs (writePos bs) = o) as ->.
  { unfold sample_at, slice_get. by rewrite bool_decide_true, Ho by lia. }
  rewrite insert_take_drop by lia. rewrite <- (take_drop_middle _ _ _ Ho) at 3.
  rewrite !sumZ_app. simpl sumZ. rewrite i64_add_r. rewrite <- !Z.add_opp_r, i64_add_l. f_equal. lia.
Qed.

(** Records that overlap corrupt the total for good: three goroutines of which the last one
    wraps around a window of two before the others have counted their samples leave a total
    that exceeds the sum of the samples by the overwritten one, and the difference survives
    every later call. *)
Theorem concurrent_records_drift :
  exists bs, rtc record_sys_step (newLRTBackendState 0%nat 2, [RLoadPos 1000; RLoadPos 2; RLoadPos 3])
               (bs, [RDone; RDone; RDone]) /\
    samples bs = [3; 2] /\ average bs = 502 /\
    forall ds, let bs' := foldl (fun bs d => record d bs) bs ds in
      i64 (s_total bs' - sumZ (fun x => x) (samples bs')) = 1000.
Proof.
  pose (order := [0; 0; 0; 1; 1; 1; 2; 2; 2; 2; 2; 2; 2; 0; 0; 0; 0; 1; 1; 1; 1]%nat).
  exists (mkState 0%nat [3; 2] 1 2 1005). split_and!; [|reflexivity..|].
  - change (mkState 0%nat [3; 2] 1 2 1005, [RDone; RDone; RDone])
      with (schedule order (newLRTBackendState 0%nat 2, [RLoadPos 1000; RLoadPos 2; RLoadPos 3])).
    apply schedule_steps.
  - intros ds. set (P := fun bs => i64 (s_total bs - sumZ (fun x => x) (samples bs)) = 1000 /\
      (0 <= writePos bs < Z.of_nat (length (samples bs))) /\ length (samples bs) = 2%nat /\
      s_count bs = Z.of_nat (length (samples bs))).
    enough (H : forall bs, P bs -> P (foldl (fun bs d => record d bs) bs ds)).
    { apply H. unfold P. cbn [s_total samples writePos s_count]. split_and!; done. }
    induction ds as [|d ds IH]; intros bs HP; [done|]. apply IH. destruct HP as (Hd & Hp & Hl & Hc).
    destruct (record_keeps_drift bs d) as (Hd' & Hp' & Hl' & Hc'); [done|lia|done|].
    split_and!; [by rewrite Hd'|lia|lia|by rewrite Hl'|done].
Qed.

(** ** Selection *)

Definition available (h : heap) (be : ptr) : bool := State_IsAvailable (state (h be)).

Lemma response_scan_spec h measure bs :
  (forall be, be ∈ bs -> 0 <= measure be) ->
  let '(selected, m) := LeastResponseTime.scan h measure bs in
  match selected with
  | None => m = -1 /\ forall be, be ∈ bs -> available h be = false
  | Some be => be ∈ bs /\ available h be = true /\ m = measure be /\
      forall be', be' ∈ bs -> available h be' = true -> measure be <= measure be'
  end.
Proof.
  unfold LeastResponseTime.scan. intros Hm. induction bs as [|x bs IH] using rev_ind; [split; [done|set_solver]|].
  rewrite fold_left_app. simpl. destruct (fold_left _ bs _) as [sel m].
  specialize (IH ltac:(intros; apply Hm; set_solver)). fold (available h x).
  assert (Hx : 0 <= measure x) by (apply Hm; set_solver).
  destruct (available h x) eqn:Ha; simpl.
  - destruct sel as [b|].
    + destruct IH as (Hb & Hab & -> & Hmin). assert (0 <= measure b) by (apply Hm; set_solver).
      rewrite (proj2 (Z.eqb_neq _ _)) by lia. simpl. destruct (Z.ltb_spec (measure x) (measure b)).
      * split_and!; [set_solver|done..|]. intros be' [Hin|Hin]%elem_of_app Ha'.
        -- specialize (Hmin _ Hin Ha'). lia.
        -- apply list_elem_of_singleton in Hin as ->. lia.
      * split_and!; [set_solver|done..|]. intros be' [Hin|Hin]%elem_of_app Ha'; [by apply Hmin|].
        by apply list_elem_of_singleton in Hin as ->.
    + destruct IH as [-> Hn]. simpl. split_and!; [set_solver|done..|].
      intros be' [Hin|Hin]%elem_of_app Ha'; [|by apply list_elem_of_singleton in Hin as ->].
      rewrite Hn in Ha' by done. done.
  - destruct sel as [b|].
    + destruct IH as (Hb & Hab & Hmb & Hmin). split_and!; [set_solver|done..|].
      intros be' [Hin|Hin]%elem_of_app Ha'; [by apply Hmin|].
      apply list_elem_of_singleton in Hin as ->. congruence.
    + destruct IH as [-> Hn]. split; [done|]. intros be' [Hin|Hin]%elem_of_app; [by apply Hn|].
      by apply list_elem_of_singleton in Hin as ->.
Qed.

Lemma scan_in h measure bs be : fst (LeastResponseTime.scan h measure bs) = Some be -> be ∈ bs.
Proof.
  unfold LeastResponseTime.scan. induction bs as [|x bs IH] using rev_ind; [done|].
  rewrite fold_left_app. simpl. destruct (fold_left _ bs _) as [sel m]. simpl in IH.
  repeat case_match; simpl; intros E; simplify_eq; set_solver.
Qed.

#[export] Instance LeastResponseTime_laws : BalancerLaws LeastResponseTime.t.
Proof.
  constructor. intros h ctx bs s p s'. simpl. unfold LeastResponseTime.Next. destruct bs; [done|].
  intros [= E _]. by eapply scan_in.
Qed.

#[export] Instance WeightedLeastResponseTime_laws : BalancerLaws WeightedLeastResponseTime.t.
Proof.
  constructor. intros h ctx bs s p s'. simpl. unfold WeightedLeastResponseTime.Next. destruct bs; [done|].
  intros [= E _]. by eapply scan_in.
Qed.

(** *** Histories

    A run of operations on the balancer, and the samples each backend was given since it
    was last added. *)
Inductive lrt_op :=
  | LAdd (be : ptr)
  | LRemove (id : string)
  | LUpdate (be : ptr)
  | LRecord (id : string) (d : Z).

Definition lrt_apply (h : heap) (l : LeastResponseTime.t) (op : lrt_op) : LeastResponseTime.t :=
  match op with
  | LAdd be => LeastResponseTime.Add h be l
  | LRemove id => LeastResponseTime.Remove h id l
  | LUpdate be => LeastResponseTime.Update h be l
  | LRecord id d => LeastResponseTime.Record_ id d l
  end.

(** The abstract balancer: a map from the tracked backends to their samples. *)
Definition spec_apply (h : heap) (m : gmap string (list Z)) (op : lrt_op) : gmap string (list Z) :=
  match op with
  | LAdd be => <[ID (h be) := []]> m
  | LRemove id => delete id m
  | LUpdate be => m
  | LRecord id d => alter (fun ds => ds ++ [d]) id m
  end.

Definition mean (w : nat) (ds : list Z) : Z :=
  Z.quot (sumZ (fun d => d) (lastn w ds)) (Z.of_nat (length (lastn w ds))).

(** The response time the algorithm should see. *)
Definition latency (h : heap) (w : nat) (m : gmap string (list Z)) (be : ptr) : Z :=
  match m !! ID (h be) with
  | None | Some [] => 0
  | Some ds => mean w ds
  end.

Definition recorded (w : nat) (b : ptr) (ds : list Z) : lrtBackendState :=
  foldl (fun bs d => record d bs) (newLRTBackendState b (Z.of_nat w)) ds.

(** The balancer's states are those of the histories. *)
Definition tracks (w : nat) (l : LeastResponseTime.t) (m : gmap string (list Z)) : Prop :=
  LeastResponseTime.windowSize l = Z.of_nat w /\
  forall id, match LeastResponseTime.backends l !! id, m !! id with
             | Some s, Some ds => exists b, s = recorded w b ds
             | None, None => True
             | _, _ => False
             end.

Lemma recorded_backend w b b' ds :
  LeastResponseTime.set_state_backend b' (recorded w b ds) = recorded w b' ds.
Proof.
  unfold recorded. induction ds as [|d ds IH] using rev_ind; [done|].
  rewrite !foldl_app. simpl. rewrite <- IH. done.
Qed.

Lemma tracks_apply h w l m op : tracks w l m -> tracks w (lrt_apply h l op) (spec_apply h m op).
Proof.
  intros [Hw H]. split; [by destruct op|]. intros id. specialize (H id).
  destruct op as [be|i|be|i d]; cbn.
  - destruct (decide (ID (h be) = id)) as [<-|].
    + rewrite !lookup_insert_eq, Hw. by exists be.
    + by rewrite !lookup_insert_ne.
  - destruct (decide (i = id)) as [<-|]; [by rewrite !lookup_delete_eq|by rewrite !lookup_delete_ne].
  - destruct (decide (ID (h be) = id)) as [<-|]; [rewrite lookup_alter_eq|by rewrite lookup_alter_ne].
    destruct (_ !! ID (h be)), (m !! ID (h be)); try done. destruct H as [b ->].
    exists be. apply recorded_backend.
  - destruct (decide (i = id)) as [<-|]; [rewrite !lookup_alter_eq|by rewrite !lookup_alter_ne].
    destruct (_ !! i), (m !! i); try done. destruct H as [b ->]. exists b. cbn. unfold recorded.
    by rewrite foldl_app.
Qed.

Lemma tracks_run h w ops :
  (0 < w)%nat ->
  tracks w (foldl (lrt_apply h) (LeastResponseTime.NewLeastResponseTimeWithWindow (Z.of_nat w)) ops)
           (foldl (spec_apply h) ∅ ops).
Proof.
  intros Hw. induction ops as [|op ops IH] using rev_ind.
  - split; cbn; [case_match; b2p; lia|]. intros id. by rewrite !lookup_empty.
  - rewrite !foldl_app. by apply tracks_apply.
Qed.

Lemma effective_latency h w l m be :
  0 < Z.of_nat w < 2 ^ 32 -> tracks w l m ->
  (forall id ds, m !! id = Some ds -> in_i64 (sumZ (fun d => d) (lastn w ds))) ->
  LeastResponseTime.effective h l be = latency h w m be.
Proof.
  intros Hw [_ H] Hsum. specialize (H (ID (h be))). unfold LeastResponseTime.effective, latency.
  destruct (_ !! ID (h be)) as [s|], (m !! ID (h be)) as [ds|] eqn:E; try done. destruct H as [b ->].
  destruct (window_latest w b ds Hw) as [Hc Ht]. fold (recorded w b ds) in *.
  destruct ds as [|d ds]; [done|]. pose proof (lastn_nonempty w (d :: ds) ltac:(lia) ltac:(done)).
  rewrite (proj2 (Z.eqb_neq (s_count _) 0)), average_quot, Hc, Ht, (i64_small _ (Hsum _ _ E)) by lia. done.
Qed.

Lemma latency_nonneg h w m be :
  (0 < w)%nat -> (forall id ds, m !! id = Some ds -> Forall (fun d => 0 <= d) ds) -> 0 <= latency h w m be.
Proof.
  intros Hw Hm. unfold latency. destruct (m !! ID (h be)) as [[|d ds]|] eqn:E; [lia| |lia].
  apply Z.quot_pos; [|rewrite lastn_length; cbn [length]; lia].
  apply sumZ_nonneg. intros x Hx. pose proof (Forall_drop _ (length (d :: ds) - w) _ (Hm _ _ E)) as Hf.
  rewrite Forall_forall in Hf. by apply Hf.
Qed.

(** After any sequence of additions, removals, updates and recorded response times, least
    response time selects an available backend whose mean over its latest samples is
    smallest, a backend without samples counting as 0, and declines only when no offered
    backend is available. *)
Theorem least_response_time_minimal h w ops ctx bs
  (Hw : 0 < Z.of_nat w < 2 ^ 32)
  (m := foldl (spec_apply h) ∅ ops)
  (l := foldl (lrt_apply h) (LeastResponseTime.NewLeastResponseTimeWithWindow (Z.of_nat w)) ops)
  (Hpos : forall id ds, m !! id = Some ds -> Forall (fun d => 0 <= d) ds)
  (Hsum : forall id ds, m !! id = Some ds -> in_i64 (sumZ (fun d => d) (lastn w ds))) :
  match fst (LeastResponseTime.Next h ctx bs l) with
  | None => forall be, be ∈ bs -> available h be = false
  | Some be => be ∈ bs /\ available h be = true /\
      forall be', be' ∈ bs -> available h be' = true -> latency h w m be <= latency h w m be'
  end.
Proof.
  pose proof (tracks_run h w ops ltac:(lia)) as Ht. fold l m in Ht.
  assert (He : forall be, LeastResponseTime.effective h l be = latency h w m be)
    by (intros; by apply effective_latency).
  assert (Hn : forall be, be ∈ bs -> 0 <= LeastResponseTime.effective h l be)
    by (intros; rewrite He; apply latency_nonneg; [lia|done]).
  unfold LeastResponseTime.Next. destruct bs as [|b bs]; [set_solver|]. cbn [fst].
  pose proof (response_scan_spec h (LeastResponseTime.effective h l) (b :: bs) Hn) as Hs.
  destruct (LeastResponseTime.scan _ _ _) as [[be|] mm]; cbn [fst].
  - destruct Hs as (Hb & Ha & _ & Hmin). split_and!; [done..|].
    intros be' Hin Ha'. rewrite <- !He. by apply Hmin.
  - by destruct Hs as [_ Hs].
Qed.

Definition lrt_ops : list lrt_op :=
  [LAdd 1; LAdd 2; LRecord "1" 900; LRecord "2" 50; LRecord "1" 10; LRecord "1" 30]%nat.

Lemma least_response_time_minimal_witness :
  fst (LeastResponseTime.Next demo_heap None [1; 2]%nat
         (foldl (lrt_apply demo_heap) (LeastResponseTime.NewLeastResponseTimeWithWindow 2) lrt_ops)) = Some 1%nat /\
  latency demo_heap 2 (foldl (spec_apply demo_heap) ∅ lrt_ops) 1%nat = 20 /\
  20 <= latency demo_heap 2 (foldl (spec_apply demo_heap) ∅ lrt_ops) 2%nat.
Proof.
  split_and!; [vm_compute; reflexivity..|].
  assert (Hm : foldl (spec_apply demo_heap) ∅ lrt_ops = {["1" := [900; 10; 30]; "2" := [50]]})
    by (vm_compute; reflexivity).
  pose proof (least_response_time_minimal demo_heap 2 lrt_ops None [1; 2]%nat ltac:(vm_compute; auto)) as H.
  cbv zeta in H. rewrite Hm in *. refine (proj2 (proj2 (H _ _)) 2%nat _ _).
  - intros id ds [[<- <-]|[_ [<- <-]%lookup_singleton_Some]]%lookup_insert_Some; repeat constructor; lia.
  - intros id ds [[<- <-]|[_ [<- <-]%lookup_singleton_Some]]%lookup_insert_Some; vm_compute; split; congruence.
  - set_solver.
  - reflexivity.
Defined.

(** *** Ties of the weighted variant

    Backends 1 and 2 have the weights 1 and 4 and the effective response time 10; the first
    of the offer is selected, whichever weight it has. *)
Definition weighted_heap : heap := fun q =>
  set_weight (if bool_decide (q = 2%nat) then 4 else 1) (demo_heap q).

Definition wlrt_tied : WeightedLeastResponseTime.t :=
  WeightedLeastResponseTime.Record_ "2" 40 (WeightedLeastResponseTime.Record_ "1" 10
    (WeightedLeastResponseTime.Add weighted_heap 2%nat (WeightedLeastResponseTime.Add weighted_heap 1%nat
       WeightedLeastResponseTime.NewWeightedLeastResponseTime))).

Example weighted_tie_takes_first :
  WeightedLeastResponseTime.effective weighted_heap wlrt_tied 1%nat = 10 /\
  WeightedLeastResponseTime.effective weighted_heap wlrt_tied 2%nat = 10 /\
  fst (WeightedLeastResponseTime.Next weighted_heap None [1; 2]%nat wlrt_tied) = Some 1%nat /\
  fst (WeightedLeastResponseTime.Next weighted_heap None [2; 1]%nat wlrt_tied) = Some 2%nat.
Proof. vm_compute. done. Qed.

(** ** Peak EWMA *)
Module PeakEWMA.

Record peakEWMASample := mkSample {
  peakLatency : float64; requestCount : Z; errorCount : Z; lastUpdate : Z
}.

Record t := mk { decay : float64; p_samples : gmap string peakEWMASample; lastTick : Z }.

(** [1e6], [0.95] and [10.0]. *)
Definition f64_1e6 : float64 := f64_of_Z 1000000.
Definition f64_0_95 : float64 := S754_finite false 8556839292003942 (-53).
Definition f64_10 : float64 := f64_of_Z 10.

Definition NewPeakEWMA (now : Z) : t := mk f64_10 ∅ now.

(** [Time.Sub] saturates at the ends of [int64]. *)
Definition time_Sub (now before : Z) : Z := Z.max (- 2 ^ 63) (Z.min (2 ^ 63 - 1) (now - before)).

Section Peak.

(** [math.Exp] is written in assembly for the common platforms; the algorithm is run with
    any such function. *)
Context (Exp : float64 -> float64).

Definition decayMultiplier (p : t) (now before : Z) : float64 :=
  Exp (f64_div (f64_neg (Seconds (time_Sub now before))) (decay p)).

Definition errorRate (sample : peakEWMASample) : float64 :=
  if 0 <? requestCount sample
  then f64_div (f64_of_Z (errorCount sample)) (f64_of_Z (requestCount sample)) else S754_zero false.

Definition score (p : t) (backendID : string) (now : Z) : float64 :=
  match p_samples p !! backendID with
  | None => f64_1e6
  | Some sample =>
      let peak := f64_mul (peakLatency sample) (decayMultiplier p now (lastUpdate sample)) in
      let errorPenalty := f64_add (f64_of_Z 1) (f64_mul (errorRate sample) f64_10) in
      f64_mul peak errorPenalty
  end.

(** The loop of [Next]. *)
Definition best_of (h : heap) (p : t) (now : Z) (bs : list ptr) : option ptr * float64 :=
  fold_left (fun '(best, bestScore) be =>
    if negb (bool_decide (state (h be) = StateUp)) then (best, bestScore)
    else let s := score p (ID (h be)) now in
         if f64_ltb s bestScore then (Some be, s) else (best, bestScore)) bs (None, MaxFloat64).

Definition Next (now : Z) (h : heap) (ctx : option RequestContext) (bs : list ptr) (p : t) : option ptr * t :=
  match bs with
  | [] => (None, p)
  | first :: _ =>
      match fst (best_of h p now bs) with
      | Some be => (Some be, p)
      | None => (Some first, p)
      end
  end.

(** [created] is the clock when a missing entry is made, [now] the second reading. *)
Definition Record_ (created now : Z) (backendID : string) (latency : Z) (success : bool) (p : t) : t :=
  let sample := default (mkSample (f64_of_Z latency) 0 0 created) (p_samples p !! backendID) in
  let oldPeak := f64_mul (peakLatency sample) (decayMultiplier p now (lastUpdate sample)) in
  let newLatency := f64_of_Z latency in
  let peak := if f64_ltb oldPeak newLatency then newLatency else f64_mul oldPeak f64_0_95 in
  mk (decay p)
     (<[backendID := mkSample peak (u64 (requestCount sample + 1))
          (if success then errorCount sample else u64 (errorCount sample + 1)) now]> (p_samples p))
     (lastTick p).

Definition Add (now : Z) (h : heap) (be : ptr) (p : t) : t :=
  match p_samples p !! ID (h be) with
  | Some _ => p
  | None => mk (decay p) (<[ID (h be) := mkSample f64_1e6 0 0 now]> (p_samples p)) (lastTick p)
  end.
Definition Remove (h : heap) (id : string) (p : t) : t := mk (decay p) (delete id (p_samples p)) (lastTick p).
Definition Update (h : heap) (be : ptr) (p : t) : t := p.

(** A balancer at the instant [now]. *)
Definition balancer (now : Z) : Balancer t :=
  {| bal_Next := Next now; bal_Add := Add now; bal_Remove := Remove; bal_Update := Update |}.

Definition up (h : heap) (be : ptr) : bool := bool_decide (state (h be) = StateUp).

(** A score that can win: a number below the largest one. *)
Definition comparable (x : float64) : bool := f64_ltb x MaxFloat64.

Lemma ltb_not_nan x y : f64_ltb x y = true -> f64_is_nan x = false.
Proof. by destruct x. Qed.

Lemma nan_ltb x y : f64_is_nan x = true -> f64_ltb x y = false.
Proof. by destruct x. Qed.

Lemma best_of_spec h p now bs :
  let '(best, m) := best_of h p now bs in
  f64_is_nan m = false /\
  match best with
  | None => m = MaxFloat64 /\ forall be, be ∈ bs -> up h be = true -> comparable (score p (ID (h be)) now) = false
  | Some be => be ∈ bs /\ up h be = true /\ m = score p (ID (h be)) now /\ comparable m = true /\
      forall be', be' ∈ bs -> up h be' = true -> f64_ltb (score p (ID (h be')) now) m = false
  end.
Proof.
  unfold best_of. induction bs as [|x bs IH] using rev_ind; [split; [done|split; [done|set_solver]]|].
  rewrite fold_left_app. simpl. destruct (fold_left _ bs _) as [best m]. destruct IH as [Hn IH].
  fold (up h x). set (sx := score p (ID (h x)) now).
  assert (Hel : forall b, b ∈ bs ++ [x] <-> b ∈ bs \/ b = x)
    by (intros b; by rewrite elem_of_app, list_elem_of_singleton).
  destruct (up h x) eqn:Hx; simpl.
  - destruct (f64_ltb sx m) eqn:Hlt.
    + pose proof (ltb_not_nan _ _ Hlt) as Hsx. split; [done|]. split_and!; [apply Hel; by right|done|done| |].
      * destruct best as [b|]; [|destruct IH as [-> _]; done]. destruct IH as (_ & _ & _ & Hc & _).
        unfold comparable in *. destruct (f64_ltb sx MaxFloat64) eqn:E; [done|].
        pose proof (f64_nlt_lt_trans sx MaxFloat64 m Hsx eq_refl Hn E Hc). congruence.
      * intros be' [Hin| ->]%Hel Hu; [|by apply f64_ltb_irrefl].
        destruct (f64_is_nan (score p (ID (h be')) now)) eqn:Hnan; [by apply nan_ltb|].
        destruct best as [b|].
        -- destruct IH as (_ & _ & _ & _ & Hmin). by eapply (f64_lt_nlt _ m); [..|apply Hmin].
        -- destruct IH as [-> Hc]. by eapply (f64_lt_nlt _ MaxFloat64); [..|apply Hc].
    + split; [done|]. destruct best as [b|].
      * destruct IH as (Hb & Hub & Hm & Hc & Hmin). split_and!; [apply Hel; by left|done..|].
        intros be' [Hin| ->]%Hel Hu; [by apply Hmin|exact Hlt].
      * destruct IH as [-> Hc]. split; [done|]. intros be' [Hin| ->]%Hel Hu; [by apply Hc|done].
  - split; [done|]. destruct best as [b|].
    + destruct IH as (Hb & Hub & Hm & Hc & Hmin). split_and!; [apply Hel; by left|done..|].
      intros be' [Hin| ->]%Hel Hu; [by apply Hmin|congruence].
    + destruct IH as [-> Hc]. split; [done|]. intros be' [Hin| ->]%Hel Hu; [by apply Hc|congruence].
Qed.

(** Peak EWMA selects an up backend whose effective score no other up backend beats, if
    any up backend has a finite score; otherwise it answers with the first backend of the
    offer, whatever its state. *)
Theorem peak_ewma_minimal h now ctx bs p :
  match fst (Next now h ctx bs p) with
  | None => bs = []
  | Some be =>
      be ∈ bs /\
      if existsb (fun b => up h b && comparable (score p (ID (h b)) now)) bs
      then up h be = true /\
        forall be', be' ∈ bs -> up h be' = true ->
          f64_ltb (score p (ID (h be')) now) (score p (ID (h be)) now) = false
      else Some be = head bs
  end.
Proof.
  unfold Next. destruct bs as [|b bs]; [done|]. pose proof (best_of_spec h p now (b :: bs)) as Hs.
  destruct (best_of h p now (b :: bs)) as [[be|] m]; cbn [fst]; destruct Hs as [_ Hs].
  - destruct Hs as (Hin & Hu & -> & Hc & Hmin). split; [done|].
    rewrite (proj2 (existsb_exists _ _)); [done|]. exists be. rewrite Hu, Hc. by rewrite <- list_elem_of_In.
  - split; [set_solver|]. destruct Hs as [_ Hs]. destruct (existsb _ _) eqn:E; [|done].
    apply existsb_exists in E as (x & Hx & E). apply list_elem_of_In in Hx. b2p.
    rewrite Hs in * by done. done.
Qed.

(** The counters of a sample: errors never exceed requests. *)
Definition counts_ok (p : t) : Prop :=
  forall id s, p_samples p !! id = Some s -> 0 <= errorCount s <= requestCount s.

Lemma record_counts_ok created now id latency success p :
  counts_ok p -> (forall i s, p_samples p !! i = Some s -> requestCount s + 1 < 2 ^ 64) ->
  counts_ok (Record_ created now id latency success p).
Proof.
  intros H Hr i s. unfold Record_. cbn [p_samples]. intros [[<- <-]|[_ E]]%lookup_insert_Some; [|by eapply H].
  cbn [errorCount requestCount]. destruct (p_samples p !! id) as [s0|] eqn:E; simpl.
  - specialize (H _ _ E). specialize (Hr _ _ E). rewrite !u64_small by (unfold in_u64; lia). destruct success; lia.
  - by destruct success.
Qed.
End Peak.

#[export] Instance PeakEWMA_laws Exp now : BalancerLaws (H := balancer Exp now) t.
Proof.
  constructor. intros h ctx bs s p s' E. pose proof (peak_ewma_minimal Exp h now ctx bs s) as H.
  simpl in E. rewrite E in H. by destruct H.
Qed.

(** With every backend down the first one is still selected. *)
Example peak_ewma_selects_down :
  fst (Next (fun x => x) 5 (fun q => set_state StateDown (demo_heap q)) None [3; 4]%nat (NewPeakEWMA 0)) = Some 3%nat.
Proof. reflexivity. Qed.
End PeakEWMA.
