(* ===== verification/Registry.v ===== *)
(** * The registry of algorithms: [internal/balancer/balancer.go]

    The names a configuration may use and the balancers they create.  [AnyBalancer] is the
    interface value of the code: one constructor per implementation, with the operations
    dispatched to it.  What an implementation reads from its environment at a call, the
    clock and [math.Exp], and what it draws at creation, the seeds, is the record [env]. *)
From S2P Require Import Prelude GoFloat Http GoHash Backend BackendPool Balancers BalancersFacts.
From S2P Require Import WeightedRR HashRing HashRingFacts Maglev Sticky Latency.

Record env := mkEnv { e_now : Z; e_Exp : float64 -> float64; e_seed : Z }.

Inductive AnyBalancer :=
  | BRoundRobin (s : RoundRobin.t)
  | BWeightedRoundRobin (s : WeightedRoundRobin.t)
  | BIPHash (s : IPHash.t)
  | BLeastConnections (s : LeastConnections.t)
  | BWeightedLeastConnections (s : WeightedLeastConnections.t)
  | BRandom (s : Random.t)
  | BWeightedRandom (s : WeightedRandom.t)
  | BConsistentHash (s : ConsistentHash.t)
  | BPowerOfTwo (s : PowerOfTwo.t)
  | BLeastResponseTime (s : LeastResponseTime.t)
  | BWeightedLeastResponseTime (s : WeightedLeastResponseTime.t)
  | BMaglev (s : Maglev.t)
  | BRingHash (s : RingHash.t)
  | BRendezvousHash (s : RendezvousHash.t)
  | BPeakEWMA (s : PeakEWMA.t)
  | BSticky (s : Sticky.t RoundRobin.t).

(** A factory makes a fresh balancer from the environment of its call. *)
Definition Factory := env -> AnyBalancer.

Notation registry := (gmap string Factory).

(** [None] is the panic on a name in use. *)
Definition Register (name : string) (factory : Factory) (r : registry) : option registry :=
  match r !! name with
  | Some _ => None
  | None => Some (<[name := factory]> r)
  end.

Definition Get (r : registry) (name : string) : option Factory := r !! name.

Definition New (e : env) (r : registry) (name : string) : option AnyBalancer := (fun f => f e) <$> Get r name.

Section Operations.
Context `{!SliceSort ConsistentHash.ringNode ConsistentHash.hash}
        `{!SliceSort RingHash.ringHashNode RingHash.hash} `{!MapRange}.

Definition Names (r : registry) : list string := fst <$> map_range r.

(** The calls of [init]. *)
Definition builtin : list (string * Factory) :=
  let rr := fun _ => BRoundRobin RoundRobin.NewRoundRobin in
  let wrr := fun _ => BWeightedRoundRobin WeightedRoundRobin.NewWeightedRoundRobin in
  let iphash := fun _ => BIPHash IPHash.NewIPHash in
  let lc := fun _ => BLeastConnections LeastConnections.NewLeastConnections in
  let wlc := fun _ => BWeightedLeastConnections WeightedLeastConnections.NewWeightedLeastConnections in
  let random := fun e => BRandom (Random.NewRandom (e_seed e)) in
  let wrandom := fun e => BWeightedRandom (WeightedRandom.NewWeightedRandom (e_seed e)) in
  let ch := fun _ => BConsistentHash (ConsistentHash.NewConsistentHash ConsistentHash.DefaultVirtualNodes) in
  let p2c := fun e => BPowerOfTwo (PowerOfTwo.NewPowerOfTwo (e_seed e)) in
  let lrt := fun _ => BLeastResponseTime LeastResponseTime.NewLeastResponseTime in
  let wlrt := fun _ => BWeightedLeastResponseTime WeightedLeastResponseTime.NewWeightedLeastResponseTime in
  let maglev := fun _ => BMaglev (Maglev.NewMaglev Maglev.MaglevTableSize) in
  let ringhash := fun _ => BRingHash RingHash.NewRingHash in
  let rendezvous := fun e => BRendezvousHash (RendezvousHash.NewRendezvousHash (e_seed e)) in
  let pewma := fun e => BPeakEWMA (PeakEWMA.NewPeakEWMA (e_now e)) in
  let sticky := fun _ => BSticky (Sticky.NewSticky RoundRobin.NewRoundRobin None) in
  [("round_robin", rr); ("rr", rr); ("weighted_round_robin", wrr); ("wrr", wrr); ("ip_hash", iphash);
   ("iphash", iphash); ("least_connections", lc); ("lc", lc); ("weighted_least_connections", wlc);
   ("wlc", wlc); ("random", random); ("weighted_random", wrandom); ("wrandom", wrandom);
   ("consistent_hash", ch); ("ch", ch); ("ketama", ch); ("power_of_two", p2c); ("p2c", p2c);
   ("least_response_time", lrt); ("lrt", lrt); ("weighted_least_response_time", wlrt); ("wlrt", wlrt);
   ("maglev", maglev); ("ring_hash", ringhash); ("ringhash", ringhash); ("rendezvous", rendezvous);
   ("rendezvous_hash", rendezvous); ("peak_ewma", pewma); ("pewma", pewma); ("sticky", sticky)].

Definition init : option registry :=
  foldl (fun r nf => r ≫= Register (fst nf) (snd nf)) (Some ∅) builtin.

(** *** The interface value *)

Definition wrap {S} (c : S -> AnyBalancer) (r : option ptr * S) : option ptr * AnyBalancer :=
  (fst r, c (snd r)).

Definition Next (e : env) (h : heap) (ctx : option RequestContext) (bs : list ptr) (b : AnyBalancer)
    : option ptr * AnyBalancer :=
  match b with
  | BRoundRobin s => wrap BRoundRobin (RoundRobin.Next h ctx bs s)
  | BWeightedRoundRobin s => wrap BWeightedRoundRobin (WeightedRoundRobin.Next h ctx bs s)
  | BIPHash s => wrap BIPHash (IPHash.Next h ctx bs s)
  | BLeastConnections s => wrap BLeastConnections (LeastConnections.Next h ctx bs s)
  | BWeightedLeastConnections s => wrap BWeightedLeastConnections (WeightedLeastConnections.Next h ctx bs s)
  | BRandom s => wrap BRandom (Random.Next h ctx bs s)
  | BWeightedRandom s => wrap BWeightedRandom (WeightedRandom.Next h ctx bs s)
  | BConsistentHash s => wrap BConsistentHash (ConsistentHash.Next h ctx bs s)
  | BPowerOfTwo s => wrap BPowerOfTwo (PowerOfTwo.Next h ctx bs s)
  | BLeastResponseTime s => wrap BLeastResponseTime (LeastResponseTime.Next h ctx bs s)
  | BWeightedLeastResponseTime s => wrap BWeightedLeastResponseTime (WeightedLeastResponseTime.Next h ctx bs s)
  | BMaglev s => wrap BMaglev (Maglev.Next Maglev.MaglevTableSize h ctx bs s)
  | BRingHash s => wrap BRingHash (RingHash.Next h ctx bs s)
  | BRendezvousHash s => wrap BRendezvousHash (RendezvousHash.Next h ctx bs s)
  | BPeakEWMA s => wrap BPeakEWMA (PeakEWMA.Next (e_Exp e) (e_now e) h ctx bs s)
  | BSticky s => wrap BSticky (Sticky.Next (e_now e) (e_now e) (e_now e) h ctx bs s)
  end.

Definition Add (e : env) (h : heap) (be : ptr) (b : AnyBalancer) : AnyBalancer :=
  match b with
  | BRoundRobin s => BRoundRobin (RoundRobin.Add h be s)
  | BWeightedRoundRobin s => BWeightedRoundRobin (WeightedRoundRobin.Add h be s)
  | BIPHash s => BIPHash (IPHash.Add h be s)
  | BLeastConnections s => BLeastConnections (LeastConnections.Add h be s)
  | BWeightedLeastConnections s => BWeightedLeastConnections (WeightedLeastConnections.Add h be s)
  | BRandom s => BRandom (Random.Add h be s)
  | BWeightedRandom s => BWeightedRandom (WeightedRandom.Add h be s)
  | BConsistentHash s => BConsistentHash (ConsistentHash.Add h be s)
  | BPowerOfTwo s => BPowerOfTwo (PowerOfTwo.Add h be s)
  | BLeastResponseTime s => BLeastResponseTime (LeastResponseTime.Add h be s)
  | BWeightedLeastResponseTime s => BWeightedLeastResponseTime (WeightedLeastResponseTime.Add h be s)
  | BMaglev s => BMaglev (Maglev.Add Maglev.MaglevTableSize h be s)
  | BRingHash s => BRingHash (RingHash.Add h be s)
  | BRendezvousHash s => BRendezvousHash (RendezvousHash.Add h be s)
  | BPeakEWMA s => BPeakEWMA (PeakEWMA.Add (e_now e) h be s)
  | BSticky s => BSticky (Sticky.Add h be s)
  end.

Definition Remove (h : heap) (id : string) (b : AnyBalancer) : AnyBalancer :=
  match b with
  | BRoundRobin s => BRoundRobin (RoundRobin.Remove h id s)
  | BWeightedRoundRobin s => BWeightedRoundRobin (WeightedRoundRobin.Remove h id s)
  | BIPHash s => BIPHash (IPHash.Remove h id s)
  | BLeastConnections s => BLeastConnections (LeastConnections.Remove h id s)
  | BWeightedLeastConnections s => BWeightedLeastConnections (WeightedLeastConnections.Remove h id s)
  | BRandom s => BRandom (Random.Remove h id s)
  | BWeightedRandom s => BWeightedRandom (WeightedRandom.Remove h id s)
  | BConsistentHash s => BConsistentHash (ConsistentHash.Remove h id s)
  | BPowerOfTwo s => BPowerOfTwo (PowerOfTwo.Remove h id s)
  | BLeastResponseTime s => BLeastResponseTime (LeastResponseTime.Remove h id s)
  | BWeightedLeastResponseTime s => BWeightedLeastResponseTime (WeightedLeastResponseTime.Remove h id s)
  | BMaglev s => BMaglev (Maglev.Remove h id s)
  | BRingHash s => BRingHash (RingHash.Remove h id s)
  | BRendezvousHash s => BRendezvousHash (RendezvousHash.Remove h id s)
  | BPeakEWMA s => BPeakEWMA (PeakEWMA.Remove h id s)
  | BSticky s => BSticky (Sticky.Remove h id s)
  end.

Definition Update (h : heap) (be : ptr) (b : AnyBalancer) : AnyBalancer :=
  match b with
  | BRoundRobin s => BRoundRobin (RoundRobin.Update h be s)
  | BWeightedRoundRobin s => BWeightedRoundRobin (WeightedRoundRobin.Update h be s)
  | BIPHash s => BIPHash (IPHash.Update h be s)
  | BLeastConnections s => BLeastConnections (LeastConnections.Update h be s)
  | BWeightedLeastConnections s => BWeightedLeastConnections (WeightedLeastConnections.Update h be s)
  | BRandom s => BRandom (Random.Update h be s)
  | BWeightedRandom s => BWeightedRandom (WeightedRandom.Update h be s)
  | BConsistentHash s => BConsistentHash (ConsistentHash.Update h be s)
  | BPowerOfTwo s => BPowerOfTwo (PowerOfTwo.Update h be s)
  | BLeastResponseTime s => BLeastResponseTime (LeastResponseTime.Update h be s)
  | BWeightedLeastResponseTime s => BWeightedLeastResponseTime (WeightedLeastResponseTime.Update h be s)
  | BMaglev s => BMaglev (Maglev.Update h be s)
  | BRingHash s => BRingHash (RingHash.Update h be s)
  | BRendezvousHash s => BRendezvousHash (RendezvousHash.Update h be s)
  | BPeakEWMA s => BPeakEWMA (PeakEWMA.Update h be s)
  | BSticky s => BSticky (Sticky.Update h be s)
  end.

(** An interface value is a balancer for the pool, in the environment of the call. *)
Definition any_balancer (e : env) : Balancer AnyBalancer :=
  {| bal_Next := Next e; bal_Add := Add e; bal_Remove := Remove; bal_Update := Update |}.

(** *** The laws hold through the interface *)

Lemma Sticky_Next_in {B} `{BalancerLaws B} now now' now'' h ctx bs (s : Sticky.t B) p s' :
  Sticky.Next now now' now'' h ctx bs s = (Some p, s') -> p ∈ bs.
Proof.
  unfold Sticky.Next. destruct bs as [|b bs]; [done|].
  set (sid := match ctx with Some c => _ | None => _ end).
  destruct (if bool_decide (sid = "") then _ else _) as [[q|] s0] eqn:E.
  - intros [= <- _]. case_bool_decide; [done|]. by apply lookup_session_found in E as (_ & ? & _).
  - destruct (bal_Next h ctx (b :: bs) (Sticky.base s0)) as [[q|] b'] eqn:En; [|done].
    apply bal_Next_in in En. case_bool_decide; by intros [= <- _].
Qed.

Lemma wrap_Some {S} (c : S -> AnyBalancer) r p s' : wrap c r = (Some p, s') -> fst r = Some p.
Proof. unfold wrap. by intros [= ->]. Qed.

Lemma Next_fst_in {S} `{BalancerLaws S} h ctx bs (s : S) p : fst (bal_Next h ctx bs s) = Some p -> p ∈ bs.
Proof. destruct (bal_Next h ctx bs s) as [r s'] eqn:E. simpl. intros ->. by eapply bal_Next_in. Qed.

#[export] Instance any_balancer_laws e : BalancerLaws (H := any_balancer e) AnyBalancer.
Proof.
  constructor. intros h ctx bs [s|s|s|s|s|s|s|s|s|s|s|s|s|s|s|s] p s' E%wrap_Some;
    try exact (Next_fst_in h ctx bs s p E).
  - exact (@Next_fst_in _ (PeakEWMA.balancer (e_Exp e) (e_now e)) (PeakEWMA.PeakEWMA_laws _ _) h ctx bs s p E).
  - destruct (Sticky.Next _ _ _ h ctx bs s) as [q s1] eqn:E1. simpl in E. subst q.
    exact (Sticky_Next_in _ _ _ _ _ _ _ _ _ E1).
Qed.

(** [init] registers the thirty names without a clash, so the program starts, and the
    empty name is not one of them. *)
Lemma init_registers : exists r, init = Some r /\ size r = 30%nat /\ r !! "" = None /\
  forall nf, nf ∈ builtin -> r !! fst nf = Some (snd nf).
Proof.
  assert (Hgen : forall (l : list (string * Factory)) (r : gmap string Factory), NoDup l.*1 -> (forall n, n ∈ l.*1 -> r !! n = None) ->
    exists r', foldl (fun r nf => r ≫= Register (fst nf) (snd nf)) (Some r) l = Some r' /\
      size r' = (size r + length l)%nat /\
      (forall n, n ∉ l.*1 -> r' !! n = r !! n) /\ forall nf, nf ∈ l -> r' !! fst nf = Some (snd nf)).
  { induction l as [|[n f] l IH]; intros r Hnd Hfree; simpl.
    - exists r. split_and!; [done|simpl; lia|done|set_solver].
    - apply NoDup_cons in Hnd as [Hn Hnd]. unfold Register at 2. rewrite Hfree by set_solver.
      assert (Hfree' : forall m, m ∈ l.*1 -> <[n := f]> r !! m = None).
      { intros m Hm. rewrite lookup_insert_ne by set_solver. apply Hfree. set_solver. }
      destruct (IH (<[n := f]> r) Hnd Hfree') as (r' & -> & Hs & Hold & Hnew).
      exists r'. split_and!; [done| | |].
      + rewrite Hs, map_size_insert_None by (apply Hfree; set_solver). lia.
      + intros m Hm. rewrite Hold by set_solver. by rewrite lookup_insert_ne by set_solver.
      + intros nf [->|Hin]%elem_of_cons; [|by apply Hnew]. simpl. rewrite Hold by done. by rewrite lookup_insert_eq. }
  destruct (Hgen builtin ∅) as (r & Hr & Hs & Hold & Hnew).
  - apply (bool_decide_unpack _). vm_compute. exact I.
  - done.
  - exists r. split_and!; [done|exact Hs| |done].
    rewrite Hold; [done|]. apply (bool_decide_unpack _). vm_compute. exact I.
Qed.
End Operations.

(** ** Pools with a configured algorithm *)


(** *** Example *)

Section Examples.
#[local] Existing Instance gmap_range.
#[local] Instance ring_sort : SliceSort ConsistentHash.ringNode ConsistentHash.hash := merge_slice_sort ConsistentHash.hash.
#[local] Instance ring_hash_sort : SliceSort RingHash.ringHashNode RingHash.hash := merge_slice_sort RingHash.hash.

Definition demo_env : env := mkEnv 0 (fun x => x) 7.

Definition demo_pool : Pool AnyBalancer :=
  match AddBackend (H := any_balancer demo_env) demo_heap (NewPool "web" "lrt") (Some 3%nat) with
  | inr p => p
  | inl _ => NewPool "" ""
  end.

End Examples.
