(* ===== verification/YamlLexer.v ===== *)
(** * The YAML lexer: [internal/config/yaml/lexer.go]

    The lexer walks over the bytes of its input and turns leading spaces into INDENT and
    DEDENT tokens by means of a stack of columns.  Reading past the end of a slice panics.
    The lines and columns of tokens only serve the texts of error messages and are left
    out of [Token]; the column of the lexer itself decides where a line starts. *)
From S2P Require Import Prelude Http NetIP Bytes NetAddr GoStrings.
From Stdlib Require Import Ascii.

Inductive TokenType :=
  | TokenEOF | TokenNewline | TokenIndent | TokenDedent
  | TokenString | TokenNumber | TokenBool | TokenNull
  | TokenColon | TokenDash | TokenComma | TokenLBrace | TokenRBrace | TokenLBracket | TokenRBracket
  | TokenPipe | TokenGreater | TokenQuestion
  | TokenTag | TokenAnchor | TokenAlias | TokenComment.

#[global] Instance TokenType_eq_dec : EqDecision TokenType.
Proof. solve_decision. Defined.

Record Token := mkToken { Type_ : TokenType; Value : string }.

(** [readPos] is [pos + 1] from the construction on.  The stack has its top first. *)
Record Lexer := mkLexer {
  input : list ascii; pos : nat; line : Z; col : Z;
  indentStack : list Z; lastIndent : Z; pendingDedents : Z
}.

(** ** Characters *)

Definition NUL : ascii := "000".
Definition TAB : ascii := "009".
Definition LF : ascii := "010".
Definition CR : ascii := "013".

(** [ch] and [peek]: NUL past the end. *)
Definition ch (l : Lexer) : ascii := default NUL (input l !! pos l).
Definition peek (l : Lexer) : ascii := default NUL (input l !! S (pos l)).

Definition one_of (cs : list ascii) (c : ascii) : bool := existsb (Ascii.eqb c) cs.

(** [unicode.IsLetter] and [unicode.IsDigit] on one byte, that is, on Latin-1. *)
Definition isLetter (c : ascii) : bool :=
  let b := byte_of c in
  ((65 <=? b) && (b <=? 90)) || ((97 <=? b) && (b <=? 122)) || (b =? 170) || (b =? 181) || (b =? 186)
  || ((192 <=? b) && (b <=? 214)) || ((216 <=? b) && (b <=? 246)) || ((248 <=? b) && (b <=? 255)).
Definition isDigit (c : ascii) : bool := is_digit c.

(** ** Moving on *)

(** [n] calls of [readChar]. *)
Definition readChars (n : nat) (l : Lexer) : Lexer :=
  mkLexer (input l) (pos l + n) (line l) (col l + Z.of_nat n) (indentStack l) (lastIndent l) (pendingDedents l).
Definition readChar (l : Lexer) : Lexer := readChars 1 l.

Definition rest_of (l : Lexer) : list ascii := drop (pos l) (input l).

(** The loops [for cond(l.ch) { l.readChar() }]: no condition holds of the NUL past the end. *)
Fixpoint span (f : ascii -> bool) (s : list ascii) : nat :=
  match s with
  | c :: r => if f c then S (span f r) else O
  | [] => O
  end.
Definition skip_while (f : ascii -> bool) (l : Lexer) : Lexer := readChars (span f (rest_of l)) l.

Definition blank (c : ascii) : bool := one_of [" "%char; TAB] c.
Definition skipWhitespace : Lexer -> Lexer := skip_while blank.

Definition readIndent (l : Lexer) : Z * Lexer :=
  let spaces := span (Ascii.eqb " "%char) (rest_of l) in
  let l := readChars spaces l in
  let tabs := span (Ascii.eqb TAB) (rest_of l) in
  (Z.of_nat spaces + 4 * Z.of_nat tabs, readChars tabs l).

Definition in_comment (c : ascii) : bool := negb (one_of [LF; CR; NUL] c).
Definition skipComment : Lexer -> Lexer := skip_while in_comment.

(** [l.input\[pos:l.pos\]]. *)
Definition text_between (l l' : Lexer) : string :=
  String.string_of_list_ascii (take (pos l' - pos l) (drop (pos l) (input l))).

Definition readComment (l : Lexer) : string * Lexer := let l' := skipComment l in (text_between l l', l').

(** ** Scalars *)

Definition ident_char (c : ascii) : bool :=
  isLetter c || isDigit c || one_of ["_"; "-"; "/"; "."; "@"]%char c.
Definition readIdentifier (l : Lexer) : string * Lexer := let l' := skip_while ident_char l in (text_between l l', l').

(** [strings.ToLower] can be taken on ASCII: an identifier holds no byte B0, which the
    encoding of the other letter that becomes an i ends in, and no keyword has a k. *)
Definition keyword (value : string) : Token :=
  let v := ToLower value in
  if bool_decide (v ∈ ["true"; "yes"; "on"]) then mkToken TokenBool "true"
  else if bool_decide (v ∈ ["false"; "no"; "off"]) then mkToken TokenBool "false"
  else if bool_decide (v ∈ ["null"; "nil"; "~"]) then mkToken TokenNull "null"
  else mkToken TokenString value.
Definition readIdentifierOrKeyword (l : Lexer) : Token * Lexer :=
  let '(value, l) := readIdentifier l in (keyword value, l).

Definition tag_char (c : ascii) : bool := isLetter c || isDigit c || one_of ["_"; "-"; "."]%char c.
Definition readTag (l : Lexer) : string * Lexer := let l' := skip_while tag_char (readChar l) in (text_between l l', l').

(** The length of what continues a plain scalar; [continuesPlainScalar] looks one byte
    ahead after a colon. *)
Definition continuesPlainScalar (c next : ascii) : bool :=
  isLetter c || isDigit c || one_of ["."; "/"; "-"; "_"; "@"; "+"]%char c
  || (Ascii.eqb c ":" && negb (one_of [" "%char; TAB; LF; CR; NUL] next)).
Fixpoint plain_span (s : list ascii) : nat :=
  match s with
  | c :: r => if continuesPlainScalar c (default NUL (head r)) then S (plain_span r) else O
  | [] => O
  end.

Definition readNumber (l0 : Lexer) : Token * Lexer :=
  let l := if Ascii.eqb (ch l0) "-" then readChar l0 else l0 in
  let l := skip_while isDigit l in
  let l := if Ascii.eqb (ch l) "." && isDigit (peek l) then skip_while isDigit (readChar l) else l in
  let l := if one_of ["e"; "E"]%char (ch l) then
             let l := readChar l in
             skip_while isDigit (if one_of ["-"; "+"]%char (ch l) then readChar l else l)
           else l in
  let n := plain_span (rest_of l) in
  let l := readChars n l in
  (mkToken (if (0 <? n)%nat then TokenString else TokenNumber) (text_between l0 l), l).

Definition escape (c : ascii) : ascii :=
  if Ascii.eqb c "n" then LF else if Ascii.eqb c "r" then CR else if Ascii.eqb c "t" then TAB else c.

Definition quote : ascii := "034".
Definition backslash : ascii := "092".

(** The loop of [readDoubleQuotedString]: what it writes and how often it calls [readChar];
    a backslash at the end of the input is followed by a NUL that is not there. *)
Fixpoint quoted_loop (s : list ascii) : list ascii * nat :=
  match s with
  | [] => ([], O)
  | c :: r =>
      if one_of [quote; NUL] c then ([], O)
      else if Ascii.eqb c backslash then
        match r with
        | [] => ([NUL], 2%nat)
        | d :: r => let '(text, n) := quoted_loop r in (escape d :: text, S (S n))
        end
      else let '(text, n) := quoted_loop r in (c :: text, S n)
  end.

Definition readDoubleQuotedString (l : Lexer) : Token * Lexer :=
  let l := readChar l in
  let '(text, n) := quoted_loop (rest_of l) in
  let l := readChars n l in
  (mkToken TokenString (String.string_of_list_ascii text), if Ascii.eqb (ch l) quote then readChar l else l).

(** The loop stops at the first quote, so its branch for a doubled quote is never taken. *)
Definition readSingleQuotedString (l : Lexer) : Token * Lexer :=
  let l := readChar l in
  let l' := skip_while (fun c => negb (one_of ["'"%char; NUL] c)) l in
  (mkToken TokenString (text_between l l'), if Ascii.eqb (ch l') "'" then readChar l' else l').

(** ** Lines *)

Definition readNewline (l : Lexer) : Token * Lexer :=
  let l := if Ascii.eqb (ch l) CR then readChar l else l in
  let l := if Ascii.eqb (ch l) LF then readChar l else l in
  (mkToken TokenNewline (String LF ""),
   mkLexer (input l) (pos l) (line l + 1) 0 (indentStack l) (lastIndent l) (pendingDedents l)).

Definition with_stack (stack : list Z) (last pending : Z) (l : Lexer) : Lexer :=
  mkLexer (input l) (pos l) (line l) (col l) stack last pending.

Definition top (stack : list Z) : Z := default 0 (head stack).

(** The levels that the loop of [handleIndent] counts: the bottom never is. *)
Fixpoint pop_count (stack : list Z) (indent : Z) : Z :=
  match stack with
  | i :: rest => if negb (bool_decide (rest = [])) && (indent <? i) then 1 + pop_count rest indent else 0
  | [] => 0
  end.

Definition dedent_token (level : Z) : Token := mkToken TokenDedent (Itoa level).

(** [None]: the line goes on at the level of the one before. *)
Definition handleIndent (indent : Z) (l : Lexer) : option Token * Lexer :=
  if lastIndent l <? indent then
    (Some (mkToken TokenIndent (Itoa indent)), with_stack (indent :: indentStack l) indent (pendingDedents l) l)
  else if indent <? lastIndent l then
    match indentStack l with
    | _ :: ((_ :: _) as stack) =>
        (Some (dedent_token (top stack)), with_stack stack (top stack) (pop_count (indentStack l) indent - 1) l)
    | _ => (None, l)
    end
  else (None, l).

(** ** Tokens *)

Inductive lexed :=
  | LTok (t : Token) (l : Lexer)
  | LPanic
  | LNoFuel.

(** A token of one character. *)
Definition single (t : TokenType) (c : ascii) (l : Lexer) : lexed := LTok (mkToken t (String c "")) (readChar l).

Definition lex_pair (p : Token * Lexer) : lexed := LTok (fst p) (snd p).

(** The switch of [NextToken]; [again] is the recursive call. *)
Definition lex_token (again : Lexer -> lexed) (l : Lexer) : lexed :=
  let c := ch l in
  if Ascii.eqb c NUL then
    match indentStack l with
    | _ :: ((_ :: _) as stack) =>
        LTok (dedent_token (top stack)) (with_stack stack (top stack) (len stack - 1) l)
    | _ => LTok (mkToken TokenEOF "") l
    end
  else if Ascii.eqb c ":" then single TokenColon c l
  else if Ascii.eqb c "-" then if isDigit (peek l) then lex_pair (readNumber l) else single TokenDash c l
  else if Ascii.eqb c "," then single TokenComma c l
  else if Ascii.eqb c "{" then single TokenLBrace c l
  else if Ascii.eqb c "}" then single TokenRBrace c l
  else if Ascii.eqb c "[" then single TokenLBracket c l
  else if Ascii.eqb c "]" then single TokenRBracket c l
  else if Ascii.eqb c "|" then single TokenPipe c l
  else if Ascii.eqb c ">" then single TokenGreater c l
  else if Ascii.eqb c "&" then let '(v, l) := readIdentifier (readChar l) in LTok (mkToken TokenAnchor v) l
  else if Ascii.eqb c "*" then let '(v, l) := readIdentifier (readChar l) in LTok (mkToken TokenAlias v) l
  else if Ascii.eqb c "!" then let '(v, l) := readTag l in LTok (mkToken TokenTag v) l
  else if Ascii.eqb c "#" then let '(v, l) := readComment l in LTok (mkToken TokenComment v) l
  else if Ascii.eqb c "?" then single TokenQuestion c l
  else if Ascii.eqb c quote then lex_pair (readDoubleQuotedString l)
  else if Ascii.eqb c "'" then lex_pair (readSingleQuotedString l)
  else if isLetter c then lex_pair (readIdentifierOrKeyword l)
  else if isDigit c then lex_pair (readNumber l)
  else if one_of ["/"; "."]%char c then let '(v, l) := readIdentifier l in LTok (mkToken TokenString v) l
  else again (readChar l).

(** [l.col == 0 || (l.pos > 0 && l.input\[l.pos-1\] == '\n')]: [None] is a panic. *)
Definition at_line_start (l : Lexer) : option bool :=
  if col l =? 0 then Some true
  else match pos l with
       | O => Some false
       | S p => (fun c => Ascii.eqb c LF) <$> input l !! p
       end.

Definition newline_char (c : ascii) : bool := one_of [LF; CR] c.

Fixpoint next_token (fuel : nat) (l : Lexer) : lexed :=
  match fuel with
  | O => LNoFuel
  | S fuel =>
      if 0 <? pendingDedents l then
        let l := with_stack (indentStack l) (lastIndent l) (pendingDedents l - 1) l in
        let l := match indentStack l with
                 | _ :: ((_ :: _) as stack) => with_stack stack (top stack) (pendingDedents l) l
                 | _ => l
                 end in
        LTok (dedent_token (lastIndent l)) l
      else if newline_char (ch l) then lex_pair (readNewline l)
      else
        match at_line_start l with
        | None => LPanic
        | Some false => lex_token (next_token fuel) (skipWhitespace l)
        | Some true =>
            if Ascii.eqb (ch l) "#" then next_token fuel (skipComment l)
            else if Ascii.eqb (ch l) NUL then lex_token (next_token fuel) (skipWhitespace l)
            else
              let '(indent, l) := readIndent l in
              if one_of [LF; CR; "#"%char; NUL] (ch l)
              then next_token fuel (if Ascii.eqb (ch l) "#" then skipComment l else l)
              else match handleIndent indent l with
                   | (Some t, l) => LTok t l
                   | (None, l) => lex_token (next_token fuel) (skipWhitespace l)
                   end
        end
  end.

(** Every recursive call has read a character. *)
Definition NextToken (l : Lexer) : lexed := next_token (S (length (input l) - pos l)) l.

Definition NewLexer (s : list ascii) : Lexer := mkLexer s 0 1 1 [0] 0 0.

Inductive tokens_result :=
  | Tokens (ts : list Token)
  | TokensPanic
  | TokensNoFuel.

Definition cons_token (t : Token) (r : tokens_result) : tokens_result :=
  match r with Tokens ts => Tokens (t :: ts) | _ => r end.

Fixpoint tokenize_loop (fuel : nat) (l : Lexer) : tokens_result :=
  match fuel with
  | O => TokensNoFuel
  | S fuel =>
      match NextToken l with
      | LTok t l => cons_token t (if bool_decide (Type_ t = TokenEOF) then Tokens [] else tokenize_loop fuel l)
      | LPanic => TokensPanic
      | LNoFuel => TokensNoFuel
      end
  end.

(** Every token but the last takes a character or a level of the stack. *)
Definition Tokenize (s : string) : tokens_result :=
  let s := String.list_ascii_of_string s in tokenize_loop (2 * length s + 2) (NewLexer s).

(** ** The lexer always comes to an end *)

Definition left (l : Lexer) : nat := length (input l) - pos l.
Definition measure (l : Lexer) : nat := 2 * left l + length (indentStack l).

Record lexer_ok (l : Lexer) : Prop := {
  lo_pos : (pos l <= length (input l))%nat;
  lo_col : 0 <= col l;
  lo_last : 0 <= lastIndent l;
  lo_stack : Forall (fun i => 0 <= i) (indentStack l);
  lo_bottom : indentStack l <> [];
  lo_pending : pendingDedents l < len (indentStack l)
}.

(** Past the end of the input: only an open string that ends in a backslash leads there. *)
Record past_end (l : Lexer) : Prop := {
  pe_pos : pos l = S (length (input l));
  pe_last : last (input l) = Some backslash;
  pe_col : 0 < col l;
  pe_pending : pendingDedents l <= 0
}.

(** Reading on within the input. *)
Record reads (l l' : Lexer) : Prop := {
  rd_input : input l' = input l;
  rd_pos : (pos l <= pos l' <= length (input l))%nat;
  rd_col : col l <= col l';
  rd_stack : indentStack l' = indentStack l;
  rd_last : lastIndent l' = lastIndent l;
  rd_pending : pendingDedents l' = pendingDedents l
}.

Lemma reads_trans l1 l2 l3 : reads l1 l2 -> reads l2 l3 -> reads l1 l3.
Proof. intros [I1 ? ? ? ? ?] [I2 ? ? ? ? ?]. rewrite I1 in *. split; try congruence; lia. Qed.

Lemma reads_ok l l' : lexer_ok l -> reads l l' -> lexer_ok l'.
Proof. intros [] [I ? ? S1 L1 P1]. split; rewrite ?I, ?S1, ?L1, ?P1; auto; lia. Qed.

Lemma ch_in l : ch l <> NUL -> (pos l < length (input l))%nat.
Proof.
  unfold ch. destruct (input l !! pos l) eqn:E; [|done]. intros _. by eapply lookup_lt_Some.
Qed.

Lemma reads_n l n : (n <= left l)%nat -> (pos l <= length (input l))%nat -> reads l (readChars n l).
Proof. unfold left. intros H1 H2. split; cbn; auto; lia. Qed.

Lemma reads_one l : ch l <> NUL -> reads l (readChar l).
Proof. intros H%ch_in. apply reads_n; unfold left; lia. Qed.

Lemma span_le f s : (span f s <= length s)%nat.
Proof. induction s as [|c s IH]; cbn; [lia|]. destruct (f c); lia. Qed.

Lemma plain_span_le s : (plain_span s <= length s)%nat.
Proof. induction s as [|c s IH]; cbn; [lia|]. case_match; lia. Qed.

Lemma length_rest l : length (rest_of l) = left l.
Proof. unfold rest_of, left. by rewrite length_drop. Qed.

Lemma reads_skip f l : (pos l <= length (input l))%nat -> reads l (skip_while f l).
Proof. intros H. apply reads_n; [rewrite <- length_rest; apply span_le|done]. Qed.

(** A loop whose condition holds of the current character reads it. *)
Lemma skip_while_first f l : ch l <> NUL -> f (ch l) = true -> (pos l < pos (skip_while f l))%nat.
Proof.
  intros Hn Hf. pose proof (ch_in _ Hn) as Hp. cbn. unfold rest_of.
  apply lookup_lt_is_Some in Hp as [c Hc]. rewrite (drop_S _ c) by done.
  unfold ch in Hf. rewrite Hc in Hf. cbn in *. rewrite Hf. lia.
Qed.

(** What a call of [NextToken] may do. *)
Definition steps_from (m : nat) (s : list ascii) (r : lexed) : Prop :=
  match r with
  | LTok t l' => input l' = s /\
      (lexer_ok l' /\ (Type_ t = TokenEOF \/ (measure l' < m)%nat) \/ Type_ t <> TokenEOF /\ past_end l')
  | _ => False
  end.

(** A token whose lexer has read at least one character. *)
Lemma reads_progress l l' t :
  lexer_ok l -> reads l l' -> (pos l < pos l')%nat -> steps_from (measure l) (input l) (LTok t l').
Proof.
  intros Hok Hr Hp. split; [apply (rd_input _ _ Hr)|]. left. split; [by eapply reads_ok|]. right.
  destruct Hr as [I ? _ S1 _ _]. unfold measure, left. rewrite I, S1. lia.
Qed.

Lemma single_steps l t c : lexer_ok l -> ch l <> NUL -> steps_from (measure l) (input l) (single t c l).
Proof. intros Hok Hn. apply reads_progress; [done|by apply reads_one|cbn; lia]. Qed.

Lemma reads_le l l' : reads l l' -> (pos l' <= length (input l'))%nat.
Proof. intros [-> ? _ _ _ _]. lia. Qed.

Lemma reads_if (b : bool) l l' : reads l l -> reads l l' -> reads l (if b then l' else l).
Proof. by destruct b. Qed.

Lemma reads_refl l : (pos l <= length (input l))%nat -> reads l l.
Proof. intros H. split; auto; lia. Qed.

Lemma eqb_not_nul c d : Ascii.eqb c d = true -> d <> NUL -> c <> NUL.
Proof. intros ->%Ascii.eqb_eq. done. Qed.

Lemma one_of_elem cs c : one_of cs c = true <-> c ∈ cs.
Proof.
  unfold one_of. rewrite existsb_exists. split.
  - intros (x & Hx & ->%Ascii.eqb_eq). by apply list_elem_of_In.
  - intros H. exists c. split; [by apply list_elem_of_In|apply Ascii.eqb_refl].
Qed.

Lemma one_of_not_nul cs c : one_of cs c = true -> NUL ∉ cs -> c <> NUL.
Proof.
  rewrite one_of_elem. by intros Hc Hn ->.
Qed.

Lemma readNumber_reads l : (pos l <= length (input l))%nat ->
  let l2 := skip_while isDigit (if Ascii.eqb (ch l) "-" then readChar l else l) in
  reads l l2 /\ reads l2 (snd (readNumber l)).
Proof.
  intros H l2. unfold readNumber. fold l2. cbn [snd].
  assert (R2 : reads l l2).
  { assert (R1 : reads l (if Ascii.eqb (ch l) "-" then readChar l else l)).
    { destruct (Ascii.eqb (ch l) "-") eqn:E; [|by apply reads_refl]. apply reads_one. by eapply eqb_not_nul. }
    eapply reads_trans; [exact R1|]. by apply reads_skip, (reads_le l). }
  split; [done|]. apply reads_le in R2. clearbody l2. clear H l. rename l2 into l.
  set (l3 := if Ascii.eqb (ch l) "." && isDigit (peek l) then _ else l).
  assert (R3 : reads l l3).
  { unfold l3. destruct (Ascii.eqb (ch l) ".") eqn:E; [|by apply reads_refl]. destruct (isDigit (peek l)); [|by apply reads_refl].
    assert (R : reads l (readChar l)) by (apply reads_one; by eapply eqb_not_nul).
    eapply reads_trans; [exact R|]. by apply reads_skip, (reads_le l). }
  clearbody l3. set (l4 := if one_of ["e"; "E"]%char (ch l3) then _ else l3).
  assert (R4 : reads l l4).
  { unfold l4. destruct (one_of ["e"; "E"]%char (ch l3)) eqn:E; [|done].
    assert (R : reads l (readChar l3)).
    { eapply reads_trans; [done|]. apply reads_one. eapply one_of_not_nul; [done|]. by apply (bool_decide_unpack _). }
    assert (R' : reads l (if one_of ["-"; "+"]%char (ch (readChar l3)) then readChar (readChar l3) else readChar l3)).
    { destruct (one_of _ (ch (readChar l3))) eqn:E'; [|done]. eapply reads_trans; [exact R|].
      apply reads_one. eapply one_of_not_nul; [done|]. by apply (bool_decide_unpack _). }
    eapply reads_trans; [exact R'|]. by apply reads_skip, (reads_le l). }
  eapply reads_trans; [exact R4|]. apply reads_n; [|by apply (reads_le l)].
  rewrite <- length_rest. apply plain_span_le.
Qed.

Lemma readNumber_steps l :
  lexer_ok l -> Ascii.eqb (ch l) "-" || isDigit (ch l) = true -> steps_from (measure l) (input l) (lex_pair (readNumber l)).
Proof.
  intros Hok Hc. destruct (readNumber_reads l (lo_pos _ Hok)) as [R1 R2].
  assert (Hn : ch l <> NUL) by (intros E; by rewrite E in Hc).
  apply reads_progress; [done|by eapply reads_trans|]. pose proof (rd_pos _ _ R2) as P2. eapply Nat.lt_le_trans; [|apply P2].
  destruct (Ascii.eqb (ch l) "-") eqn:E.
  - pose proof (rd_pos _ _ (reads_skip isDigit (readChar l) (reads_le _ _ (reads_one _ Hn)))). cbn in *. lia.
  - by apply skip_while_first.
Qed.

Lemma readIdentifier_reads l : (pos l <= length (input l))%nat -> reads l (snd (readIdentifier l)).
Proof. apply reads_skip. Qed.

(** A token that starts with one character and goes on with a loop. *)
Lemma loop_steps f l t :
  lexer_ok l -> ch l <> NUL -> steps_from (measure l) (input l) (LTok t (skip_while f (readChar l))).
Proof.
  intros Hok Hn. pose proof (reads_one _ Hn) as R1. pose proof (reads_skip f _ (reads_le _ _ R1)) as R2.
  apply reads_progress; [done|by eapply reads_trans|]. pose proof (rd_pos _ _ R2). cbn in *. lia.
Qed.

Lemma first_steps f l t :
  lexer_ok l -> ch l <> NUL -> f (ch l) = true -> steps_from (measure l) (input l) (LTok t (skip_while f l)).
Proof.
  intros Hok Hn Hf. apply reads_progress; [done|by apply reads_skip, lo_pos|by apply skip_while_first].
Qed.

Lemma quoted_loop_le s :
  (snd (quoted_loop s) <= length s)%nat \/ snd (quoted_loop s) = S (length s) /\ last s = Some backslash.
Proof.
  induction s as [s IH] using (induction_ltof1 _ (@length ascii)). unfold ltof in IH.
  destruct s as [|c r]; cbn [quoted_loop length]; [by left; cbn; lia|]. destruct (one_of [quote; NUL] c); [left; cbn; lia|].
  destruct (Ascii.eqb c backslash) eqn:Ec.
  - destruct r as [|d r]; [right; split; [done|]; by apply Ascii.eqb_eq in Ec as ->|].
    destruct (IH r) as [H|[H1 H2]]; [cbn; lia|..]; destruct (quoted_loop r); cbn in *; [left; lia|right; split; [lia|]].
    by destruct r.
  - destruct (IH r) as [H|[H1 H2]]; [cbn; lia|..]; destruct (quoted_loop r); cbn in *; [left; lia|right; split; [lia|]].
    by destruct r.
Qed.

Lemma quoted_steps l :
  lexer_ok l -> pendingDedents l <= 0 -> Ascii.eqb (ch l) quote = true ->
  steps_from (measure l) (input l) (lex_pair (readDoubleQuotedString l)).
Proof.
  intros Hok Hpend Hc. assert (Hn : ch l <> NUL) by (by eapply eqb_not_nul). unfold readDoubleQuotedString.
  pose proof (reads_one _ Hn) as R1. pose proof (quoted_loop_le (rest_of (readChar l))) as Hq.
  rewrite length_rest in Hq. destruct (quoted_loop (rest_of (readChar l))) as [text n]. cbn [snd] in Hq. unfold lex_pair. cbn [fst snd].
  destruct Hq as [Hle|[E Hl]].
  - assert (R2 : reads l (readChars n (readChar l))) by (eapply reads_trans; [done|]; by apply reads_n, (reads_le l)).
    destruct (Ascii.eqb (ch (readChars n (readChar l))) quote) eqn:Eq.
    + apply reads_progress; [done| |cbn; lia]. eapply reads_trans; [exact R2|]. apply reads_one. by eapply eqb_not_nul.
    + apply reads_progress; [done|done|cbn; lia].
  - pose proof (ch_in _ Hn) as Hp. unfold left in E. cbn [input readChar readChars pos] in E.
    assert (Hch : ch (readChars n (readChar l)) = NUL).
    { unfold ch. cbn. rewrite lookup_ge_None_2; [done|lia]. }
    rewrite Hch. change (Ascii.eqb NUL quote) with false. split; [done|]. right. split; [done|].
    assert (Hlast : last (input l) = Some backslash).
    { unfold rest_of in Hl. cbn in Hl. rewrite <- (take_drop (pos l + 1) (input l)), last_app.
      by rewrite Hl. }
    pose proof (lo_col _ Hok). split; cbn; [lia|done|lia|done].
Qed.

Lemma single_quoted_steps l :
  lexer_ok l -> ch l <> NUL -> steps_from (measure l) (input l) (lex_pair (readSingleQuotedString l)).
Proof.
  intros Hok Hn. unfold readSingleQuotedString, lex_pair. cbn [fst snd].
  pose proof (reads_one _ Hn) as R1. set (f := fun c => negb (one_of ["'"%char; NUL] c)).
  pose proof (reads_skip f _ (reads_le _ _ R1)) as R2. pose proof (rd_pos _ _ R2) as P.
  destruct (Ascii.eqb (ch (skip_while f (readChar l))) "'") eqn:E.
  - assert (Hn2 : ch (skip_while f (readChar l)) <> NUL) by (by eapply eqb_not_nul).
    apply reads_progress; [done| |cbn in *; lia]. eapply reads_trans; [by eapply reads_trans|]. by apply reads_one.
  - apply reads_progress; [done|by eapply reads_trans|cbn in *; lia].
Qed.

Lemma ident_of_start c : isLetter c || one_of ["/"; "."]%char c = true -> ident_char c = true.
Proof.
  unfold ident_char. intros [->|H]%orb_true_iff; [done|]. apply orb_true_iff. right.
  unfold one_of in *. rewrite existsb_exists in *. destruct H as (x & Hx & E). exists x. split; [|done].
  cbn in *. tauto.
Qed.

Lemma ok_with_stack l stack last pending :
  lexer_ok l -> 0 <= last -> Forall (fun i => 0 <= i) stack -> stack <> [] -> pending < len stack ->
  lexer_ok (with_stack stack last pending l).
Proof. by intros [] ? ? ? ?. Qed.

(** Popping a level. *)
Lemma ok_pop l i stack pending :
  lexer_ok l -> indentStack l = i :: stack -> stack <> [] -> pending < len stack ->
  lexer_ok (with_stack stack (top stack) pending l).
Proof.
  intros Hok E Hne Hp. pose proof (lo_stack _ Hok) as Hs. rewrite E in Hs. inversion Hs as [|? ? ? Hs']. subst.
  apply ok_with_stack; [done| |done..]. destruct stack as [|j stack]; [done|]. by inversion Hs'.
Qed.

(** The end of the input pops a level of the stack, if one is left. *)
Lemma eof_steps l m s :
  lexer_ok l -> input l = s -> (measure l <= m)%nat ->
  steps_from m s
    match indentStack l with
    | _ :: ((_ :: _) as stack) =>
        LTok (dedent_token (top stack)) (with_stack stack (top stack) (len stack - 1) l)
    | _ => LTok (mkToken TokenEOF "") l
    end.
Proof.
  intros Hok <- Hm. unfold measure in Hm.
  destruct (indentStack l) as [|i [|j stack]] eqn:E; [by destruct (lo_bottom _ Hok)|split; [done|]; left; by split; [|left]|].
  split; [done|]. left. split; [by eapply ok_pop; [|done|done|unfold len; lia]|].
  right. unfold measure, left, with_stack in *. cbn in *. lia.
Qed.

Lemma lex_token_steps again l :
  lexer_ok l -> pendingDedents l <= 0 ->
  (ch l <> NUL -> steps_from (measure l) (input l) (again (readChar l))) ->
  steps_from (measure l) (input l) (lex_token again l).
Proof.
  intros Hok Hp Ha. unfold lex_token. destruct (Ascii.eqb_spec (ch l) NUL) as [|Hn]; [by apply eof_steps|].
  repeat match goal with
  | |- steps_from _ _ (if Ascii.eqb (ch l) "-" then _ else _) => destruct (Ascii.eqb (ch l) "-") eqn:?
  | |- steps_from _ _ (if Ascii.eqb (ch l) "#" then _ else _) => destruct (Ascii.eqb (ch l) "#") eqn:Eh
  | |- steps_from _ _ (if Ascii.eqb (ch l) quote then _ else _) => destruct (Ascii.eqb (ch l) quote) eqn:?
  | |- steps_from _ _ (if Ascii.eqb (ch l) ?c then _ else _) => destruct (Ascii.eqb (ch l) c)
  | |- steps_from _ _ (single _ _ _) => by apply single_steps
  end.
  - destruct (isDigit (peek l)); [|by apply single_steps]. apply readNumber_steps; [done|]. by apply orb_true_iff; left.
  - by apply loop_steps.
  - by apply loop_steps.
  - by apply loop_steps.
  - apply first_steps; [done|done|]. by apply Ascii.eqb_eq in Eh as ->.
  - by apply quoted_steps.
  - by apply single_quoted_steps.
  - destruct (isLetter (ch l)) eqn:El.
    { apply (first_steps ident_char); [done|done|]. apply ident_of_start. by rewrite El. }
    destruct (isDigit (ch l)) eqn:Ed; [apply readNumber_steps; [done|]; by rewrite Ed, orb_true_r|].
    destruct (one_of ["/"; "."]%char (ch l)) eqn:E1; [|by apply Ha].
    apply (first_steps ident_char); [done|done|]. apply ident_of_start. by rewrite E1, orb_true_r.
Qed.

Lemma steps_weaken m m' s r : (m <= m')%nat -> steps_from m s r -> steps_from m' s r.
Proof.
  destruct r as [t l'| |]; [|done..]. intros Hm [Hi H]. split; [done|].
  destruct H as [[H1 H2]|H]; [left; split; [done|]|by right]. destruct H2; [by left|right; lia].
Qed.

Lemma readIndent_reads l : (pos l <= length (input l))%nat ->
  reads l (snd (readIndent l)) /\ 0 <= fst (readIndent l) /\
  (0 < fst (readIndent l) -> (pos l < pos (snd (readIndent l)))%nat).
Proof.
  intros H. unfold readIndent. cbn [fst snd].
  set (n := span (Ascii.eqb " "%char) (rest_of l)). set (l1 := readChars n l).
  assert (R1 : reads l l1) by (apply reads_n; [rewrite <- length_rest; apply span_le|done]).
  set (k := span (Ascii.eqb TAB) (rest_of l1)).
  assert (R2 : reads l1 (readChars k l1)) by (apply reads_n; [rewrite <- length_rest; apply span_le|by apply (reads_le l)]).
  split_and!; [by eapply reads_trans|lia|]. intros Hk. unfold l1. cbn [pos readChars]. lia.
Qed.

Lemma pop_count_bound stack i : pop_count stack i < len stack \/ stack = [].
Proof.
  induction stack as [|j [|k stack] IH]; [by right|by left|]. left.
  destruct IH as [IH|]; [|done]. cbn [pop_count] in *. rewrite bool_decide_false by done. cbn [negb andb].
  unfold len in *. cbn [length] in *. destruct (i <? j); lia.
Qed.

Lemma handleIndent_steps indent l l0 t l' :
  lexer_ok l -> (0 < indent -> (2 * left l + 2 <= 2 * left l0)%nat) -> (measure l <= measure l0)%nat -> input l0 = input l ->
  indentStack l0 = indentStack l ->
  handleIndent indent l = (Some t, l') -> steps_from (measure l0) (input l0) (LTok t l').
Proof.
  intros Hok Hi Hm Hin Hst E. unfold handleIndent in E. pose proof (lo_last _ Hok) as Hl.
  destruct (Z.ltb_spec (lastIndent l) indent).
  - injection E as <- <-. split; [done|]. left. split.
    + destruct Hok. apply ok_with_stack; [done|lia|constructor; [lia|done]|done|unfold len in *; cbn; lia].
    + right. unfold measure, left in *. cbn. rewrite Hst, Hin in *. lia.
  - destruct (indent <? lastIndent l); [|done]. destruct (indentStack l) as [|i [|j stack]] eqn:Es; [done..|].
    injection E as <- <-. split; [done|]. left. split.
    + eapply ok_pop; [done|done|done|]. pose proof (pop_count_bound (i :: j :: stack) indent) as [H0|H0]; [|done].
      unfold len in *. cbn in *. lia.
    + right. unfold measure, left in *. cbn. rewrite Hin, Hst, Es in *. cbn. lia.
Qed.

Lemma reads_measure l l' : reads l l' -> (measure l' <= measure l)%nat /\ (left l' <= left l)%nat /\
  ((pos l < pos l')%nat -> (left l' < left l)%nat /\ (measure l' < measure l)%nat).
Proof. intros [I ? _ S1 _ _]. unfold measure, left. rewrite I, S1. lia. Qed.

Lemma steps_reads l l' r :
  reads l l' -> steps_from (measure l') (input l') r -> steps_from (measure l) (input l) r.
Proof.
  intros R. rewrite (rd_input _ _ R). apply steps_weaken. by apply reads_measure.
Qed.

Lemma newline_steps l : lexer_ok l -> newline_char (ch l) = true -> steps_from (measure l) (input l) (lex_pair (readNewline l)).
Proof.
  intros Hok Hc. assert (Hn : ch l <> NUL) by (eapply one_of_not_nul; [exact Hc|by apply (bool_decide_unpack _)]).
  unfold readNewline, lex_pair. cbn [fst snd].
  set (l1 := if Ascii.eqb (ch l) CR then readChar l else l). set (l2 := if Ascii.eqb (ch l1) LF then readChar l1 else l1).
  assert (reads l l2 /\ (pos l < pos l2)%nat) as [R Hlt].
  { unfold l2, l1, newline_char, one_of in *. cbn in Hc. rewrite orb_false_r in Hc.
    destruct (Ascii.eqb (ch l) CR) eqn:Ecr.
    - pose proof (reads_one _ Hn) as R1. destruct (Ascii.eqb (ch (readChar l)) LF) eqn:El; [|split; [done|cbn; lia]].
      split; [|cbn; lia]. eapply reads_trans; [exact R1|]. apply reads_one. by eapply eqb_not_nul.
    - rewrite orb_false_r in Hc. rewrite Hc. split; [by apply reads_one|cbn; lia]. }
  clearbody l2. split; [apply (rd_input _ _ R)|]. left. split.
  - pose proof (reads_ok _ _ Hok R) as []. by split.
  - right. destruct (reads_measure _ _ R) as (_ & _ & H). by destruct (H Hlt).
Qed.

Lemma next_token_steps fuel l :
  lexer_ok l -> (left l < fuel)%nat -> steps_from (measure l) (input l) (next_token fuel l).
Proof.
  revert l. induction fuel as [|fuel IH]; intros l Hok Hf; [lia|]. cbn [next_token].
  destruct (Z.ltb_spec 0 (pendingDedents l)) as [Hp|Hp].
  { pose proof (lo_pending _ Hok) as Hl. cbn [indentStack with_stack].
    destruct (indentStack l) as [|i [|j stack]] eqn:E; [unfold len in Hl; cbn in Hl; lia..|].
    split; [done|]. left. split.
    - apply (ok_pop l i); [done..|]. cbn. unfold len in *. cbn in *. lia.
    - right. unfold measure, left. cbn. rewrite E. cbn. lia. }
  destruct (newline_char (ch l)) eqn:En.
  { assert (Hn : ch l <> NUL) by (eapply one_of_not_nul; [exact En|by apply (bool_decide_unpack _)]).
    apply newline_steps; [done|]. done. }
  assert (Hsw : forall l', reads l l' -> pendingDedents l' <= 0 -> 
    steps_from (measure l) (input l) (lex_token (next_token fuel) (skipWhitespace l'))).
  { intros l' R Hp'. assert (R2 : reads l (skipWhitespace l')) by (eapply reads_trans; [done|]; by apply reads_skip, (reads_le l)).
    eapply steps_reads; [exact R2|]. apply lex_token_steps; [by eapply reads_ok|done|]. intros Hn.
    pose proof (reads_one _ Hn) as R3. eapply steps_reads; [exact R3|].
    apply IH; [eapply reads_ok; [|done]; by eapply reads_ok|].
    destruct (reads_measure _ _ R2) as (_ & H2 & _). destruct (reads_measure _ _ R3) as (_ & _ & H3).
    destruct H3; [cbn; lia|lia]. }
  destruct (at_line_start l) as [[|]|] eqn:Ea; [|by apply Hsw; [apply reads_refl, lo_pos|]|].
  2:{ unfold at_line_start in Ea. destruct (col l =? 0); [done|]. destruct (pos l) as [|p] eqn:Epos; [done|].
      pose proof (lo_pos _ Hok) as Hpos. rewrite Epos in Hpos. apply fmap_None, lookup_ge_None in Ea. lia. }
  assert (Hagain : forall l', reads l l' -> (pos l < pos l')%nat -> steps_from (measure l) (input l) (next_token fuel l')).
  { intros l' R Hlt. eapply steps_reads; [exact R|]. apply IH; [by eapply reads_ok|].
    destruct (reads_measure _ _ R) as (_ & _ & H). destruct (H Hlt). lia. }
  pose proof (lo_pos _ Hok) as Hpos.
  destruct (Ascii.eqb_spec (ch l) "#") as [Eh|Hh].
  { apply Hagain; [by apply reads_skip|]. by apply skip_while_first; rewrite Eh. }
  destruct (Ascii.eqb_spec (ch l) NUL) as [|Hn]; [by apply Hsw; [apply reads_refl|]|].
  pose proof (readIndent_reads l Hpos) as (R & Hi0 & Hi1). destruct (readIndent l) as [indent l1] eqn:Er. cbn [fst snd] in *.
  destruct (one_of [LF; CR; "#"%char; NUL] (ch l1)) eqn:E1.
  - assert (Hlt : (pos l < pos l1)%nat).
    { destruct (decide (0 < indent)) as [|Hz]; [by apply Hi1|]. exfalso.
      assert (l1 = l) as ->.
      { unfold readIndent in Er. injection Er as Ei <-.
        replace (span (Ascii.eqb " ") (rest_of l)) with 0%nat in * by lia.
        assert (readChars 0 l = l) as Hr0 by (unfold readChars; destruct l; cbn; f_equal; lia).
        rewrite Hr0 in *. replace (span (Ascii.eqb TAB) (rest_of l)) with 0%nat in * by lia. done. }
      apply one_of_elem in E1. apply not_true_iff_false in En. apply En, one_of_elem.
      rewrite !elem_of_cons in *. tauto. }
    destruct (Ascii.eqb (ch l1) "#"); [|by apply Hagain].
    apply Hagain; [eapply reads_trans; [exact R|]; by apply reads_skip, (reads_le l)|].
    pose proof (rd_pos _ _ (reads_skip in_comment l1 (reads_le _ _ R))). unfold skipComment. lia.
  - destruct (handleIndent indent l1) as [[t|] l2] eqn:Eh.
    + destruct (reads_measure _ _ R) as (Hm & Hl & Hs). eapply handleIndent_steps; [by eapply reads_ok| |done| | |exact Eh].
      * intros Hpos'. destruct Hs as [Hs _]; [by apply Hi1|]. lia.
      * symmetry. apply (rd_input _ _ R).
      * symmetry. apply (rd_stack _ _ R).
    + assert (l2 = l1) as ->.
      { unfold handleIndent in Eh. destruct (_ <? _); [done|]. destruct (_ <? _); [|by injection Eh].
        destruct (indentStack l1) as [|? [|? ?]]; [by injection Eh..|done]. }
      apply Hsw; [done|]. by rewrite (rd_pending _ _ R).
Qed.

Lemma past_end_panics l : past_end l -> NextToken l = LPanic.
Proof.
  intros [Hp _ Hc Hd]. unfold NextToken. replace (length (input l) - pos l)%nat with 0%nat by lia.
  cbn [next_token]. rewrite (proj2 (Z.ltb_ge _ _)) by done.
  assert (ch l = NUL) as -> by (unfold ch; by rewrite lookup_ge_None_2 by lia).
  change (newline_char NUL) with false. unfold at_line_start. rewrite (proj2 (Z.eqb_neq _ _)), Hp by lia.
  by rewrite lookup_ge_None_2.
Qed.

Lemma tokenize_loop_ends fuel l :
  lexer_ok l -> (measure l < fuel)%nat ->
  match tokenize_loop fuel l with
  | Tokens ts => exists t, last ts = Some t /\ Type_ t = TokenEOF
  | TokensPanic => last (input l) = Some backslash
  | TokensNoFuel => False
  end.
Proof.
  revert l. induction fuel as [|fuel IH]; intros l Hok Hf; [lia|]. cbn [tokenize_loop].
  pose proof (next_token_steps (S (length (input l) - pos l)) l Hok ltac:(unfold left; lia)) as H.
  fold (NextToken l) in H. destruct (NextToken l) as [t l'| |]; [|done..]. destruct H as [Hi H].
  destruct (bool_decide (Type_ t = TokenEOF)) eqn:Et; b2p; [by exists t|].
  destruct H as [[Hok' [|Hm]]|[_ Hend]]; [done| |].
  - specialize (IH l' Hok' ltac:(lia)). rewrite Hi in IH. destruct (tokenize_loop fuel l'); [|done..].
    destruct IH as (t' & Hl & Ht). exists t'. split; [|done]. by destruct ts.
  - destruct fuel as [|fuel]; [unfold measure in Hf; pose proof (lo_bottom _ Hok); destruct (indentStack l); [done|cbn in Hf; lia]|].
    cbn [tokenize_loop]. rewrite past_end_panics by done. cbn. rewrite <- Hi. apply Hend.
Qed.

Lemma NewLexer_ok s : lexer_ok (NewLexer s).
Proof. split; cbn; try done; try lia. by repeat constructor. Qed.

Lemma last_ascii s : last (String.list_ascii_of_string s) = Some backslash -> exists p, s = p +:+ String backslash "".
Proof.
  intros H. apply last_Some in H as [l H]. exists (String.string_of_list_ascii l).
  rewrite <- (String.string_of_list_ascii_of_string s), H. clear H. induction l as [|c l IH]; [done|].
  cbn [app String.string_of_list_ascii]. by rewrite IH, append_cons.
Qed.

Lemma tokenize_ends s :
  (exists ts t, Tokenize s = Tokens ts /\ last ts = Some t /\ Type_ t = TokenEOF) \/
  (Tokenize s = TokensPanic /\ exists p, s = p +:+ String backslash "").
Proof.
  pose proof (tokenize_loop_ends (2 * length (String.list_ascii_of_string s) + 2) (NewLexer (String.list_ascii_of_string s))
    (NewLexer_ok _)) as H. unfold measure, left in H. cbn [input pos indentStack NewLexer length] in H.
  specialize (H ltac:(lia)). unfold Tokenize. destruct (tokenize_loop _ _) as [ts| |].
  - left. destruct H as (t & Hl & Ht). by exists ts, t.
  - right. split; [done|]. by apply last_ascii.
  - done.
Qed.

(** A string that is left open with a backslash at the end of the file crashes the process
    that reads it. *)
Example open_string_panics : Tokenize ("key: " +:+ String quote ("value" +:+ String backslash "")) = TokensPanic.
Proof. vm_compute. reflexivity. Qed.

(** A doubled quote does not stand for a quote: the string ends, and another one begins. *)
Example doubled_quote_splits :
  Tokenize "'it''s'" = Tokens [mkToken TokenString "it"; mkToken TokenString "s"; mkToken TokenEOF ""].
Proof. vm_compute. reflexivity. Qed.

(** A NUL byte ends the input, whatever follows. *)
Example nul_ends_input : Tokenize ("a" +:+ String NUL "b") = Tokens [mkToken TokenString "a"; mkToken TokenEOF ""].
Proof. vm_compute. reflexivity. Qed.
