(* ===== verification/YamlParser.v ===== *)
(** * The YAML parser: [internal/config/yaml/parser.go]

    The parser state is what is left of the tokens and the current column, which INDENT and
    DEDENT tokens set as they are passed.  Its functions call each other on ever fewer
    tokens; the fuel they share is enough ([yaml_parse_total]).  The parameter [minIndent],
    which the code hands around and never reads, and [parseMapping], which it never calls,
    are left out; error texts are the format strings. *)
From S2P Require Import Prelude Http Bytes NetAddr YamlLexer.
From Stdlib Require Import Ascii.

Inductive NodeType := NodeDocument | NodeMapping | NodeSequence | NodeScalar | NodeAlias.

#[global] Instance NodeType_eq_dec : EqDecision NodeType.
Proof. solve_decision. Defined.

Inductive Node := mkNode {
  n_Type : NodeType; n_Value : string; n_Tag : string; n_Anchor : string; n_Children : list Node; n_Key : string
}.

Definition scalar (v : string) : Node := mkNode NodeScalar v "" "" [] "".
Definition sequence (items : list Node) : Node := mkNode NodeSequence "" "" "" items "".
Definition mapping (entries : list Node) : Node := mkNode NodeMapping "" "" "" entries "".
Definition with_key (k : string) (n : Node) : Node :=
  mkNode (n_Type n) (n_Value n) (n_Tag n) (n_Anchor n) (n_Children n) k.
Definition with_anchor (a : string) (n : Node) : Node :=
  mkNode (n_Type n) (n_Value n) (n_Tag n) a (n_Children n) (n_Key n).

(** ** The tokens ahead *)

Record Parser := mkParser { rest : list Token; indent : Z }.

Definition NewParser (ts : list Token) : Parser := mkParser ts 0.

Definition eof : Token := mkToken TokenEOF "".
Definition current (p : Parser) : Token := default eof (head (rest p)).
Definition peek (p : Parser) : Token := default eof (rest p !! 1%nat).
Definition current_type (p : Parser) : TokenType := Type_ (current p).

(** The column after a token. *)
Definition pass (t : Token) (i : Z) : Z :=
  match Type_ t with
  | TokenIndent | TokenDedent => default i (Atoi (Value t))
  | _ => i
  end.

Definition advance (p : Parser) : Parser :=
  match rest p with
  | t :: ts => mkParser ts (pass t (indent p))
  | [] => p
  end.

Definition dedentLevel (t : Token) : Z :=
  match Type_ t with TokenDedent => default (-1) (Atoi (Value t)) | _ => -1 end.

(** The loops that pass tokens while a condition holds of the current one. *)
Fixpoint skip_tokens (f : Token -> bool) (ts : list Token) (i : Z) : Parser :=
  match ts with
  | t :: r => if f t then skip_tokens f r (pass t i) else mkParser ts i
  | [] => mkParser [] i
  end.
Definition skip (f : Token -> bool) (p : Parser) : Parser := skip_tokens f (rest p) (indent p).

Definition is_a (types : list TokenType) (t : Token) : bool := bool_decide (Type_ t ∈ types).
(** A DEDENT that closes a block inside the one at column [base]. *)
Definition closes_inner (base : Z) (t : Token) : bool := is_a [TokenDedent] t && (base <=? dedentLevel t).

(** ** Results *)

Inductive parsed (A : Type) :=
  | POk (a : A) (p : Parser)
  | PErr (e : string)
  | PNoFuel.
Arguments POk {A} a p.
Arguments PErr {A} e.
Arguments PNoFuel {A}.

Definition bind {A B} (r : parsed A) (k : A -> Parser -> parsed B) : parsed B :=
  match r with
  | POk a p => k a p
  | PErr e => PErr e
  | PNoFuel => PNoFuel
  end.

(** [x, p] are the value and the parser state after [r]. *)
Notation "'let!' x p ':=' r 'in' k" := (bind r (fun x p => k))
  (at level 10, x name, p name, r at level 100, k at level 200).

(** ** Values on one line *)

(** The tokens between braces as text; [depth] braces are open. *)
Fixpoint collect_loop (depth : nat) (ts : list Token) (i : Z) (acc : string) : string * Parser :=
  match ts with
  | [] => (acc, mkParser [] i)
  | t :: r =>
      match Type_ t with
      | TokenEOF | TokenNewline => (acc, mkParser ts i)
      | TokenLBrace => collect_loop (S depth) r i (acc +:+ "{")
      | TokenRBrace =>
          match depth with
          | O | S O => (acc +:+ "}", mkParser r i)
          | S depth => collect_loop depth r i (acc +:+ "}")
          end
      | _ => collect_loop depth r (pass t i) (acc +:+ Value t)
      end
  end.

Definition collectBracedScalar (p : Parser) : parsed (option Node) :=
  let p := advance p in
  let '(text, p) := collect_loop 1 (rest p) (indent p) "{" in
  POk (Some (scalar text)) p.

Definition sequence_error : string := "expected ',' or ']' in sequence at %d:%d".

Fixpoint parseInlineValue (n : nat) (p : Parser) : parsed (option Node) :=
  match n with
  | O => PNoFuel
  | S n =>
      match current_type p with
      | TokenString | TokenNumber | TokenBool | TokenNull => POk (Some (scalar (Value (current p)))) (advance p)
      | TokenLBracket => inline_sequence n [] (advance p)
      | TokenLBrace => inline_mapping n p [] (advance p)
      | _ => POk None p
      end
  end

(** The loop of [parseInlineSequence]. *)
with inline_sequence (n : nat) (items : list Node) (p : Parser) : parsed (option Node) :=
  match n with
  | O => PNoFuel
  | S n =>
      let p := skip (is_a [TokenIndent]) p in
      if is_a [TokenRBracket] (current p) then POk (Some (sequence items)) (advance p)
      else
        let! item p := parseInlineValue n p in
        let items := items ++ option_list item in
        if is_a [TokenComma] (current p) then inline_sequence n items (advance p)
        else if is_a [TokenRBracket] (current p) then inline_sequence n items p
        else PErr sequence_error
  end

(** The loop of [parseInlineMapping]; [saved] is where it started. *)
with inline_mapping (n : nat) (saved : Parser) (entries : list Node) (p : Parser) : parsed (option Node) :=
  match n with
  | O => PNoFuel
  | S n =>
      let p := skip (is_a [TokenIndent]) p in
      if is_a [TokenRBrace] (current p) then POk (Some (mapping entries)) (advance p)
      else
        let key := current p in
        if negb (is_a [TokenString; TokenNumber] key) then collectBracedScalar saved
        else
          let p := advance p in
          if negb (is_a [TokenColon] (current p)) then collectBracedScalar saved
          else
            let! val p := parseInlineValue n (advance p) in
            let entries := entries ++ [with_key (Value key) (default (scalar "") val)] in
            if is_a [TokenComma] (current p) then inline_mapping n saved entries (advance p)
            else if is_a [TokenRBrace] (current p) then inline_mapping n saved entries p
            else collectBracedScalar saved
  end.

(** ** Block strings *)

(** The rest of a line: the values of its tokens one after the other. *)
Fixpoint line_loop (ts : list Token) (i : Z) (acc : string) : string * Parser :=
  match ts with
  | [] => (acc, mkParser [] i)
  | t :: r =>
      match Type_ t with
      | TokenNewline | TokenEOF => (acc, mkParser ts i)
      | TokenIndent => line_loop r (pass t i) acc
      | _ => line_loop r (pass t i) (acc +:+ Value t)
      end
  end.

Fixpoint count_newlines (ts : list Token) : nat :=
  match ts with
  | t :: r => if is_a [TokenNewline] t then S (count_newlines r) else O
  | [] => O
  end.

Fixpoint lines_loop (n : nat) (lines : list string) (p : Parser) : parsed (list string) :=
  match n with
  | O => PNoFuel
  | S n =>
      let lines := lines ++ replicate (count_newlines (rest p)) "" in
      let p := skip (is_a [TokenNewline]) p in
      if is_a [TokenDedent; TokenEOF] (current p) then POk lines p
      else
        let p := if is_a [TokenIndent] (current p) then advance p else p in
        let '(text, p) := line_loop (rest p) (indent p) "" in
        lines_loop n (lines ++ [text]) (if is_a [TokenNewline] (current p) then advance p else p)
  end.

Definition parseMultiLineString (n : nat) (p : Parser) : parsed (option Node) :=
  let sep := if is_a [TokenPipe] (current p) then LF else " "%char in
  let p := advance (skip (fun t => negb (is_a [TokenNewline; TokenEOF] t)) (advance p)) in
  let! lines p := lines_loop n [] p in
  POk (Some (scalar (Join sep lines))) p.

(** ** Blocks *)

(** The blanks after a colon, and whether there was an INDENT among them. *)
Fixpoint saw_indent (ts : list Token) : bool :=
  match ts with
  | t :: r => if is_a [TokenNewline; TokenComment; TokenIndent] t then is_a [TokenIndent] t || saw_indent r else false
  | [] => false
  end.

Fixpoint parseValue (n : nat) (p : Parser) : parsed (option Node) :=
  match n with
  | O => PNoFuel
  | S n =>
      match current_type p with
      | TokenEOF | TokenDedent => POk None p
      | TokenDash => sequence_loop n (indent p) [] p
      | TokenLBracket => inline_sequence n [] (advance p)
      | TokenLBrace => inline_mapping n p [] (advance p)
      | TokenString | TokenNumber | TokenBool | TokenNull =>
          (* parseScalarOrMapping *)
          let value := Value (current p) in
          let p := advance p in
          if is_a [TokenColon] (current p) then
            let p := advance p in
            let base := indent p in
            let! val p := parseValueAfterColon n p in
            mapping_loop n base [with_key value val] p
          else POk (Some (scalar value)) p
      | TokenPipe | TokenGreater => parseMultiLineString n p
      | TokenAlias => POk (Some (mkNode NodeAlias (Value (current p)) "" "" [] "")) (advance p)
      | TokenAnchor =>
          let anchor := Value (current p) in
          let! node p := parseValue n (advance p) in
          POk (with_anchor anchor <$> node) p
      | _ => parseValue n (advance p)
      end
  end

(** The loop of [parseSequence]; the dashes are at column [base]. *)
with sequence_loop (n : nat) (base : Z) (items : list Node) (p : Parser) : parsed (option Node) :=
  match n with
  | O => PNoFuel
  | S n =>
      let p := skip (fun t => is_a [TokenNewline; TokenComment] t || closes_inner base t) p in
      if is_a [TokenDash] (current p) then
        let p := skip (is_a [TokenIndent]) (advance p) in
        let! item p := parseValue n p in
        sequence_loop n base (items ++ option_list item) p
      else POk (Some (sequence items)) p
  end

with parseValueAfterColon (n : nat) (p : Parser) : parsed Node :=
  match n with
  | O => PNoFuel
  | S n =>
      let p := if is_a [TokenComment] (current p) then advance p else p in
      let next_line := is_a [TokenNewline] (current p) in
      let saw := next_line && saw_indent (rest p) in
      let p := if next_line then skip (is_a [TokenNewline; TokenComment; TokenIndent]) p else p in
      if next_line && negb saw && negb (is_a [TokenDash] (current p)) then POk (scalar "") p
      else
        let p := skip (is_a [TokenIndent]) p in
        if is_a [TokenEOF; TokenDedent; TokenNewline] (current p) then POk (scalar "") p
        else
          let! v p := parseValue n p in
          POk (default (scalar "") v) p
  end

(** The loop of [parseScalarOrMapping]; the first key is at column [base]. *)
with mapping_loop (n : nat) (base : Z) (entries : list Node) (p : Parser) : parsed (option Node) :=
  match n with
  | O => PNoFuel
  | S n =>
      let p := skip (fun t => is_a [TokenNewline; TokenComment; TokenIndent] t || closes_inner base t) p in
      if is_a [TokenString] (current p) && is_a [TokenColon] (peek p) then
        let key := Value (current p) in
        let! val p := parseValueAfterColon n (advance (advance p)) in
        mapping_loop n base (entries ++ [with_key key val]) p
      else POk (Some (mapping entries)) p
  end.

(** ** Documents *)

Definition append_children (node next : Node) : Node :=
  mkNode (n_Type node) (n_Value node) (n_Tag node) (n_Anchor node) (n_Children node ++ n_Children next) (n_Key node).

(** The loop that goes on with further entries of a mapping. *)
Fixpoint document_loop (n fuel : nat) (node : Node) (p : Parser) : parsed Node :=
  match n with
  | O => PNoFuel
  | S n =>
      let p := skip (is_a [TokenNewline; TokenComment; TokenIndent; TokenDedent]) p in
      if is_a [TokenString] (current p) && is_a [TokenColon] (peek p) then
        let! next p := parseValue fuel p in
        let node := match next with
                    | Some m => if bool_decide (n_Type m = NodeMapping) then append_children node m else node
                    | None => node
                    end in
        document_loop n fuel node p
      else POk node p
  end.

Definition parseDocument (fuel : nat) (p : Parser) : parsed Node :=
  let p := skip (is_a [TokenNewline; TokenComment; TokenIndent]) p in
  let! node p := parseValue fuel p in
  match node with
  | None => POk (mkNode NodeDocument "" "" "" [] "") p
  | Some node =>
      let! node p := (if bool_decide (n_Type node = NodeMapping) then document_loop fuel fuel node p else POk node p) in
      POk (mkNode NodeDocument "" "" "" [node] "") p
  end.

Definition parse_tokens (ts : list Token) : parsed Node := parseDocument (2 * length ts + 3) (NewParser ts).

Inductive document :=
  | Parsed (n : Node)
  | ParseError (e : string)
  | ParsePanic
  | ParseNoFuel.

Definition Parse (s : string) : document :=
  match Tokenize s with
  | Tokens ts =>
      match parse_tokens ts with
      | POk n _ => Parsed n
      | PErr e => ParseError e
      | PNoFuel => ParseNoFuel
      end
  | TokensPanic => ParsePanic
  | TokensNoFuel => ParseNoFuel
  end.

(** ** The parser always comes to an end *)

Definition ahead (p : Parser) : nat := length (rest p).

(** A result with enough fuel that leaves at most [m] tokens. *)
Definition within {A} (m : nat) (r : parsed A) : Prop :=
  match r with
  | POk _ p => (ahead p <= m)%nat
  | PErr _ => True
  | PNoFuel => False
  end.

Lemma within_weaken {A} m m' (r : parsed A) : (m <= m')%nat -> within m r -> within m' r.
Proof. destruct r; cbn; [lia|done..]. Qed.

Lemma within_bind {A B} m m' (r : parsed A) (k : A -> Parser -> parsed B) :
  within m r -> (forall a p, (ahead p <= m)%nat -> within m' (k a p)) -> within m' (bind r k).
Proof. destruct r; cbn; auto. Qed.

Lemma skip_tokens_le f ts i : (ahead (skip_tokens f ts i) <= length ts)%nat.
Proof.
  revert i. induction ts as [|t r IH]; intros i; cbn; [lia|].
  destruct (f t); [etrans; [apply IH|lia]|cbn; lia].
Qed.

Lemma skip_le f p : (ahead (skip f p) <= ahead p)%nat.
Proof. apply skip_tokens_le. Qed.

Lemma advance_le p : (ahead (advance p) <= ahead p)%nat.
Proof. unfold advance, ahead. destruct (rest p) eqn:E; cbn; [by rewrite E|lia]. Qed.

Lemma advance_lt p : current_type p <> TokenEOF -> (ahead (advance p) < ahead p)%nat.
Proof. unfold current_type, current, advance, ahead. destruct (rest p) eqn:E; cbn; [done|lia]. Qed.

Lemma is_type types t : is_a types t = true <-> Type_ t ∈ types.
Proof. unfold is_a. by rewrite bool_decide_eq_true. Qed.

Lemma is_not_eof types p : is_a types (current p) = true -> TokenEOF ∉ types -> (ahead (advance p) < ahead p)%nat.
Proof. rewrite is_type. intros H Hn. apply advance_lt. unfold current_type. by intros E; rewrite E in H. Qed.

(** A token of one type. *)
Lemma is_advance x p : is_a [x] (current p) = true -> x <> TokenEOF -> (ahead (advance p) < ahead p)%nat.
Proof. intros H Hx. eapply is_not_eof; [done|]. by rewrite list_elem_of_singleton. Qed.

Lemma collect_loop_le depth ts i acc : (ahead (snd (collect_loop depth ts i acc)) <= length ts)%nat.
Proof.
  revert depth i acc. induction ts as [|t r IH]; intros depth i acc; cbn; [lia|].
  destruct (Type_ t); try (etrans; [apply IH|lia]); try (cbn; lia).
  destruct depth as [|[|depth]]; [cbn; lia..|]. etrans; [apply IH|lia].
Qed.

Lemma collect_within p m : (ahead (advance p) <= m)%nat -> within m (collectBracedScalar p).
Proof.
  intros H. unfold collectBracedScalar.
  pose proof (collect_loop_le 1 (rest (advance p)) (indent (advance p)) "{") as Hc.
  destruct (collect_loop _ _ _ _) as [text q]. cbn in *. unfold ahead in *. lia.
Qed.

Lemma inline_within n :
  (forall p, (2 * ahead p + 2 <= n)%nat ->
     within (ahead p) (parseInlineValue n p) /\
     forall v q, parseInlineValue n p = POk v q -> v = None /\ q = p \/ (ahead q < ahead p)%nat) /\
  (forall items p, (2 * ahead p + 3 <= n)%nat -> within (ahead p) (inline_sequence n items p)) /\
  (forall saved entries p, (2 * ahead p + 3 <= n)%nat -> (ahead p <= ahead (advance saved))%nat ->
     within (ahead (advance saved)) (inline_mapping n saved entries p)).
Proof.
  induction n as [|n (IHv & IHs & IHm)]; [split_and!; intros; lia|]. split_and!.
  - intros p Hn. cbn [parseInlineValue].
    destruct (current_type p) eqn:E; try (split; [cbn; lia|]; intros v q [= <- <-]; by left);
      try (assert (Hlt : (ahead (advance p) < ahead p)%nat) by (apply advance_lt; by rewrite E)).
    1-4: split; [cbn; lia|]; intros v q [= <- <-]; by right.
    + pose proof (IHm p [] (advance p) ltac:(lia) ltac:(lia)) as H.
      split; [by eapply within_weaken; [|done]; lia|]. intros v q Eq. rewrite Eq in H. cbn in H. right. lia.
    + pose proof (IHs [] (advance p) ltac:(lia)) as H.
      split; [by eapply within_weaken; [|done]; lia|]. intros v q Eq. rewrite Eq in H. cbn in H. right. lia.
  - intros items p Hn. cbn [inline_sequence]. pose proof (skip_le (is_a [TokenIndent]) p) as Hs.
    set (p1 := skip _ p) in *. clearbody p1. destruct (is_a [TokenRBracket] (current p1)) eqn:Eb.
    { cbn. pose proof (advance_le p1). lia. }
    destruct (IHv p1 ltac:(lia)) as [Hw Hv]. destruct (parseInlineValue n p1) as [item q|e|]; [|done..].
    cbn in Hw. cbn [bind]. destruct (is_a [TokenComma] (current q)) eqn:Ec.
    { pose proof (is_advance _ _ Ec ltac:(done)). eapply within_weaken; [|apply IHs]; lia. }
    destruct (is_a [TokenRBracket] (current q)) eqn:Er; [|done].
    destruct (Hv _ _ eq_refl) as [[-> ->]|Hlt]; [congruence|]. eapply within_weaken; [|apply IHs]; lia.
  - intros saved entries p Hn Hp. cbn [inline_mapping]. pose proof (skip_le (is_a [TokenIndent]) p) as Hs.
    set (p1 := skip _ p) in *. clearbody p1. destruct (is_a [TokenRBrace] (current p1)) eqn:Eb.
    { cbn. pose proof (advance_le p1). lia. }
    destruct (is_a [TokenString; TokenNumber] (current p1)) eqn:Ek; cbn [negb]; [|by apply collect_within].
    pose proof (is_not_eof _ _ Ek ltac:(set_solver)) as H1.
    destruct (is_a [TokenColon] (current (advance p1))) eqn:Ec; cbn [negb]; [|by apply collect_within].
    pose proof (is_advance _ _ Ec ltac:(done)) as H2.
    eapply within_bind; [apply IHv; lia|]. intros val q Hq.
    destruct (is_a [TokenComma] (current q)) eqn:Ecm.
    { pose proof (is_advance _ _ Ecm ltac:(done)). apply IHm; lia. }
    destruct (is_a [TokenRBrace] (current q)); [apply IHm; lia|by apply collect_within].
Qed.

Lemma line_loop_le ts i acc : (ahead (snd (line_loop ts i acc)) <= length ts)%nat.
Proof.
  revert i acc. induction ts as [|t r IH]; intros i acc; cbn; [lia|].
  destruct (Type_ t); cbn; try lia; (etrans; [apply IH|lia]).
Qed.

Lemma line_loop_lt p : negb (is_a [TokenNewline; TokenEOF] (current p)) = true ->
  (ahead (snd (line_loop (rest p) (indent p) "")) < ahead p)%nat.
Proof.
  unfold current, is_a, ahead. destruct (rest p) as [|t r] eqn:E; cbn; [done|].
  intros H. destruct (Type_ t); try (eapply Nat.le_lt_trans; [apply line_loop_le|cbn; lia]); done.
Qed.

Lemma lines_loop_within n lines p : (ahead p < n)%nat -> within (ahead p) (lines_loop n lines p).
Proof.
  revert lines p. induction n as [|n IH]; intros lines p Hn; [lia|]. cbn [lines_loop].
  pose proof (skip_le (is_a [TokenNewline]) p) as Hs. set (p1 := skip _ p) in *.
  destruct (is_a [TokenDedent; TokenEOF] (current p1)) eqn:Ed; [done|].
  set (p2 := if is_a [TokenIndent] (current p1) then advance p1 else p1).
  assert (H : (ahead (snd (line_loop (rest p2) (indent p2) "")) < ahead p1)%nat).
  { unfold p2. destruct (is_a [TokenIndent] (current p1)) eqn:Ei.
    - eapply Nat.le_lt_trans; [apply line_loop_le|]. by apply (is_advance TokenIndent).
    - apply line_loop_lt. apply negb_true_iff, not_true_iff_false. rewrite is_type, !elem_of_cons.
      intros [En|[Ee|Hx%elem_of_nil]]; [|by apply not_true_iff_false in Ed; rewrite is_type in Ed; apply Ed; set_solver|done].
      assert (Hh : head (rest p1) = None \/ exists t, head (rest p1) = Some t /\ is_a [TokenNewline] t = false).
      { unfold p1, skip. clear. generalize (rest p), (indent p). intros ts. induction ts as [|t r IH]; intros i; cbn; [by left|].
        destruct (is_a [TokenNewline] t) eqn:E; [apply IH|right; by exists t]. }
      unfold current in En. destruct Hh as [Hh|(t & Hh & Ht)]; rewrite Hh in En; cbn in En; [done|].
      apply not_true_iff_false in Ht. apply Ht. rewrite is_type, En. set_solver. }
  destruct (line_loop (rest p2) (indent p2) "") as [text p3]. cbn [snd] in H.
  assert (H4 : (ahead (if is_a [TokenNewline] (current p3) then advance p3 else p3) <= ahead p3)%nat)
    by (destruct (is_a [TokenNewline] (current p3)); [apply advance_le|done]).
  eapply within_weaken; [|apply IH]; lia.
Qed.

Lemma multiline_within n p : (ahead p < n)%nat -> within (ahead p) (parseMultiLineString n p).
Proof.
  intros Hn. unfold parseMultiLineString. set (f := fun t => negb (is_a [TokenNewline; TokenEOF] t)).
  pose proof (advance_le p) as H1. pose proof (skip_le f (advance p)) as H2. pose proof (advance_le (skip f (advance p))) as H3.
  eapply within_bind; [apply lines_loop_within; lia|]. intros lines q Hq. cbn. lia.
Qed.

Lemma peek_advance p : peek p = current (advance p).
Proof. unfold peek, current, advance. destruct p as [[|t ts] i]; [done|]. cbn. by destruct ts. Qed.

Lemma value_within n :
  (forall p, (2 * ahead p + 2 <= n)%nat -> within (ahead p) (parseValue n p)) /\
  (forall base items p, (2 * ahead p + 1 <= n)%nat -> within (ahead p) (sequence_loop n base items p)) /\
  (forall p, (2 * ahead p + 3 <= n)%nat -> within (ahead p) (parseValueAfterColon n p)) /\
  (forall base entries p, (2 * ahead p + 1 <= n)%nat -> within (ahead p) (mapping_loop n base entries p)).
Proof.
  induction n as [|n (IHv & IHs & IHc & IHm)]; [split_and!; intros; lia|]. split_and!.
  - intros p Hn. cbn [parseValue]. destruct (inline_within n) as (_ & Is & Im).
    destruct (current_type p) eqn:E; try (cbn; lia);
      try (assert (Hlt : (ahead (advance p) < ahead p)%nat) by (apply advance_lt; by rewrite E));
      try (eapply within_weaken; [|apply IHv]; lia); try (apply multiline_within; lia).
    1-4: destruct (is_a [TokenColon] (current (advance p))) eqn:Ec; [|cbn; lia];
      pose proof (is_advance _ _ Ec ltac:(done)); eapply within_bind; [apply IHc; lia|];
      intros val q Hq; eapply within_weaken; [|apply IHm]; lia.
    + apply IHs. lia.
    + eapply within_weaken; [|apply Im]; lia.
    + eapply within_weaken; [|apply Is]; lia.
    + eapply within_bind; [apply IHv; lia|]. intros node q Hq. cbn. lia.
    + cbn. lia.
  - intros base items p Hn. cbn [sequence_loop]. set (f := fun t => _ || closes_inner base t).
    pose proof (skip_le f p) as Hs. destruct (is_a [TokenDash] (current (skip f p))) eqn:Ed; [|cbn; lia].
    pose proof (is_advance _ _ Ed ltac:(done)) as Hd. pose proof (skip_le (is_a [TokenIndent]) (advance (skip f p))) as Hi.
    eapply within_bind; [apply IHv; lia|]. intros item q Hq. eapply within_weaken; [|apply IHs]; lia.
  - intros p Hn. cbn [parseValueAfterColon].
    set (p1 := if is_a [TokenComment] (current p) then advance p else p).
    assert (H1 : (ahead p1 <= ahead p)%nat) by (unfold p1; destruct (is_a [TokenComment] (current p)); [apply advance_le|done]).
    set (p2 := if is_a [TokenNewline] (current p1) then _ else p1).
    assert (H2 : (ahead p2 <= ahead p1)%nat) by (unfold p2; destruct (is_a [TokenNewline] (current p1)); [apply skip_le|done]).
    destruct (_ && _ && _); [cbn; lia|]. pose proof (skip_le (is_a [TokenIndent]) p2) as H3.
    destruct (is_a _ (current (skip _ p2))); [cbn; lia|].
    eapply within_bind; [apply IHv; lia|]. intros v q Hq. cbn. lia.
  - intros base entries p Hn. cbn [mapping_loop]. set (f := fun t => _ || closes_inner base t).
    pose proof (skip_le f p) as Hs. destruct (is_a [TokenString] (current (skip f p))) eqn:Ek; [|cbn; lia].
    destruct (is_a [TokenColon] (peek (skip f p))) eqn:Ec; [|cbn; lia]. cbn [andb].
    pose proof (is_advance _ _ Ek ltac:(done)) as H1. rewrite peek_advance in Ec. pose proof (is_advance _ _ Ec ltac:(done)) as H2.
    eapply within_bind; [apply IHc; lia|]. intros val q Hq. eapply within_weaken; [|apply IHm]; lia.
Qed.

(** A key and a colon are passed. *)
Lemma entry_within n p :
  is_a [TokenString] (current p) = true -> is_a [TokenColon] (peek p) = true -> (2 * ahead p + 2 <= n)%nat ->
  (ahead (advance p) < ahead p)%nat /\ within (ahead (advance p)) (parseValue n p).
Proof.
  intros Hk Hc Hn. pose proof (is_advance _ _ Hk ltac:(done)) as H1. split; [done|].
  rewrite peek_advance in Hc. pose proof (is_advance _ _ Hc ltac:(done)) as H2.
  destruct n as [|n]; [lia|]. cbn [parseValue]. destruct (value_within n) as (_ & _ & Vc & Vm).
  apply is_type in Hk. apply list_elem_of_singleton in Hk. unfold current_type. rewrite Hk, Hc.
  eapply within_bind; [apply Vc; lia|]. intros val q Hq. eapply within_weaken; [|apply Vm]; lia.
Qed.

Lemma document_loop_within n fuel node p :
  (ahead p < n)%nat -> (2 * ahead p + 2 <= fuel)%nat -> within (ahead p) (document_loop n fuel node p).
Proof.
  revert node p. induction n as [|n IH]; intros node p Hn Hf; [lia|]. cbn [document_loop].
  set (f := is_a [TokenNewline; TokenComment; TokenIndent; TokenDedent]). pose proof (skip_le f p) as Hs.
  destruct (is_a [TokenString] (current (skip f p))) eqn:Ek; [|cbn; lia].
  destruct (is_a [TokenColon] (peek (skip f p))) eqn:Ec; [|cbn; lia]. cbn [andb].
  destruct (entry_within fuel _ Ek Ec ltac:(lia)) as [H1 H2].
  eapply within_bind; [exact H2|]. intros next q Hq. eapply within_weaken; [|apply IH]; lia.
Qed.

Lemma parse_tokens_ends ts : parse_tokens ts <> PNoFuel.
Proof.
  unfold parse_tokens, parseDocument. set (fuel := (2 * length ts + 3)%nat). set (f := is_a [TokenNewline; TokenComment; TokenIndent]).
  pose proof (skip_le f (NewParser ts)) as Hs. change (ahead (NewParser ts)) with (length ts) in Hs.
  destruct (value_within fuel) as [Hv _]. specialize (Hv (skip f (NewParser ts)) ltac:(unfold fuel; lia)).
  destruct (parseValue fuel _) as [[node|] p|e|]; [|done..]. cbn [bind]. cbn [within] in Hv.
  destruct (bool_decide _); [|done].
  pose proof (document_loop_within fuel fuel node p ltac:(unfold fuel; lia) ltac:(unfold fuel; lia)) as Hd.
  by destruct (document_loop fuel fuel node p).
Qed.

(** Every error is the one of [parseInlineSequence]. *)
Definition only_error {A} (r : parsed A) : Prop := match r with PErr e => e = sequence_error | _ => True end.

Lemma only_error_bind {A B} (r : parsed A) (k : A -> Parser -> parsed B) :
  only_error r -> (forall a p, only_error (k a p)) -> only_error (bind r k).
Proof. destruct r; cbn; auto. Qed.

Lemma collect_no_error p : only_error (collectBracedScalar p).
Proof. unfold collectBracedScalar. by destruct (collect_loop _ _ _ _). Qed.

Lemma inline_only_error n :
  (forall p, only_error (parseInlineValue n p)) /\ (forall items p, only_error (inline_sequence n items p)) /\
  (forall saved entries p, only_error (inline_mapping n saved entries p)).
Proof.
  induction n as [|n (IHv & IHs & IHm)]; [done|]. pose proof collect_no_error. split_and!; intros.
  - cbn. destruct (current_type p); done.
  - cbn. destruct (is_a _ _); [done|]. apply only_error_bind; [done|]. intros. by repeat destruct (is_a _ _).
  - cbn. destruct (is_a _ _); [done|]. destruct (negb _); [done|]. destruct (negb _); [done|].
    apply only_error_bind; [done|]. intros. by repeat destruct (is_a _ _).
Qed.

Lemma lines_only_error n lines p : only_error (lines_loop n lines p).
Proof.
  revert lines p. induction n as [|n IH]; intros lines p; [done|]. cbn [lines_loop].
  destruct (is_a [TokenDedent; TokenEOF] _); [done|]. destruct (line_loop _ _ _). apply IH.
Qed.

Lemma value_only_error n :
  (forall p, only_error (parseValue n p)) /\ (forall base items p, only_error (sequence_loop n base items p)) /\
  (forall p, only_error (parseValueAfterColon n p)) /\ (forall base entries p, only_error (mapping_loop n base entries p)).
Proof.
  induction n as [|n (IHv & IHs & IHc & IHm)]; [done|]. destruct (inline_only_error n) as (Iv & Is & Im). split_and!; intros.
  - cbn [parseValue]. destruct (current_type p); try done.
    1-4: destruct (is_a _ _); [|done]; by apply only_error_bind.
    1-2: apply only_error_bind; [apply lines_only_error|done].
    by apply only_error_bind.
  - cbn [sequence_loop]. destruct (is_a _ _); [|done]. by apply only_error_bind.
  - cbn [parseValueAfterColon]. destruct (_ && _ && _); [done|]. destruct (is_a _ (current (skip _ _))); [done|].
    by apply only_error_bind.
  - cbn [mapping_loop]. destruct (_ && _); [|done]. by apply only_error_bind.
Qed.

Lemma document_only_error n fuel node p : only_error (document_loop n fuel node p).
Proof.
  revert node p. induction n as [|n IH]; intros node p; [done|]. cbn [document_loop]. destruct (_ && _); [|done].
  apply only_error_bind; [apply value_only_error|]. intros. apply IH.
Qed.

Lemma parse_tokens_only_error ts : only_error (parse_tokens ts).
Proof.
  unfold parse_tokens, parseDocument. apply only_error_bind; [apply value_only_error|]. intros [node|] p; [|done].
  apply only_error_bind; [|done]. destruct (bool_decide _); [apply document_only_error|done].
Qed.

(** C17: Parsing comes to an end on every text, with a document or an error; the only other
    outcome is the panic of the lexer on a text that ends in a backslash. *)
Theorem yaml_parse_total s :
  (exists n, Parse s = Parsed n) \/ Parse s = ParseError sequence_error \/
  (Parse s = ParsePanic /\ exists p, s = p +:+ String backslash "").
Proof.
  unfold Parse. destruct (tokenize_ends s) as [(ts & t & -> & _)|[-> Hp]]; [|by right; right].
  pose proof (parse_tokens_ends ts). pose proof (parse_tokens_only_error ts) as He.
  destruct (parse_tokens ts) as [n p|e|]; [left; by exists n| |done]. right. left. cbn in He. by subst e.
Qed.

(** ** What the parser makes of common YAML *)

Definition yaml_lines (ls : list string) : string := foldr (fun l r => l +:+ String LF r) "" ls.

(** A plain scalar ends at its first blank, and with it the document: everything after it is
    ignored. *)
Example blank_ends_document :
  Parse (yaml_lines ["name: my server"; "port: 80"]) =
  Parsed (mkNode NodeDocument "" "" "" [mapping [with_key "name" (scalar "my")]] "").
Proof. vm_compute. reflexivity. Qed.

(** A plain URL is split at its colon, and the entries after it end up inside its value. *)
Example plain_url_swallows_siblings :
  Parse (yaml_lines ["directory: https://acme.example/dir"; "storage: acme.json"]) =
  Parsed (mkNode NodeDocument "" "" ""
    [mapping [with_key "directory" (mapping [with_key "https" (scalar "//acme.example/dir"); with_key "storage" (scalar "acme.json")])]] "").
Proof. vm_compute. reflexivity. Qed.

(** The keys after a sequence at the column of its own key become part of its last item. *)
Example sibling_joins_last_item :
  Parse (yaml_lines ["pools:"; "- name: web"; "version: 1"]) =
  Parsed (mkNode NodeDocument "" "" ""
    [mapping [with_key "pools" (sequence [mapping [with_key "name" (scalar "web"); with_key "version" (scalar "1")]])]] "").
Proof. vm_compute. reflexivity. Qed.

(** Block strings lose their blanks. *)
Example block_string_loses_blanks :
  Parse (yaml_lines ["text: |"; "  one two"]) =
  Parsed (mkNode NodeDocument "" "" "" [mapping [with_key "text" (scalar ("onetwo"))]] "").
Proof. vm_compute. reflexivity. Qed.
