(* ===== verification/YamlRoundtrip.v ===== *)
(** * Writing and reading YAML

    A document is written in block style, as the configuration files are: two columns per
    level, the first entry of a mapping on the line of its dash when its value is a scalar,
    words plain and every other string in double quotes.  The lexer and the parser read it
    back as it was. *)
From S2P Require Import Prelude Http NetIP Bytes NetAddr YamlLexer YamlParser.
From Stdlib Require Import Ascii.

(** ** Documents *)

Inductive yaml :=
  | YScalar (s : string)
  | YMap (kvs : list (string * yaml))
  | YSeq (l : list yaml).

Section YamlInd.
Variable P : yaml -> Prop.
Hypothesis HS : forall s, P (YScalar s).
Hypothesis HM : forall kvs, Forall (fun kv => P (snd kv)) kvs -> P (YMap kvs).
Hypothesis HL : forall l, Forall P l -> P (YSeq l).

Fixpoint yaml_induction (y : yaml) : P y :=
  match y with
  | YScalar s => HS s
  | YMap kvs => HM kvs ((fix go l := match l as l return Forall (fun kv => P (snd kv)) l with
                                     | [] => Forall_nil_2 _
                                     | kv :: r => Forall_cons_2 _ kv r (yaml_induction (snd kv)) (go r)
                                     end) kvs)
  | YSeq l => HL l ((fix go l := match l as l return Forall P l with
                                 | [] => Forall_nil_2 _
                                 | v :: r => Forall_cons_2 _ _ _ (yaml_induction v) (go r)
                                 end) l)
  end.
End YamlInd.

(** What the parser makes of a document. *)
Fixpoint to_node (y : yaml) : Node :=
  match y with
  | YScalar s => scalar s
  | YMap kvs => mapping ((fun kv => with_key (fst kv) (to_node (snd kv))) <$> kvs)
  | YSeq l => sequence (to_node <$> l)
  end.

Fixpoint depth (y : yaml) : Z :=
  match y with
  | YScalar _ => 0
  | YMap kvs => 1 + foldr (fun kv m => Z.max (depth (snd kv)) m) 0 kvs
  | YSeq l => 1 + foldr (fun v m => Z.max (depth v) m) 0 l
  end.

(** Block style has no empty collections, and a NUL ends the input. *)
Definition clean (s : string) : Prop := NUL ∉ String.list_ascii_of_string s.
Fixpoint writable (y : yaml) : Prop :=
  match y with
  | YScalar s => clean s
  | YMap kvs => kvs <> [] /\ foldr (fun kv p => (clean (fst kv) /\ writable (snd kv)) /\ p) True kvs
  | YSeq l => l <> [] /\ foldr (fun v p => writable v /\ p) True l
  end.

(** ** Writing *)

Definition chars (s : string) : list ascii := String.list_ascii_of_string s.

Definition plain (s : string) : bool :=
  match chars s with
  | c :: r => isLetter c && forallb ident_char (c :: r) && bool_decide (Type_ (keyword s) = TokenString)
  | [] => false
  end.

Definition escaped (c : ascii) : list ascii :=
  if one_of [quote; backslash] c then [backslash; c]
  else if Ascii.eqb c LF then [backslash; "n"%char]
  else if Ascii.eqb c CR then [backslash; "r"%char]
  else if Ascii.eqb c TAB then [backslash; "t"%char]
  else [c].

Definition text (s : string) : list ascii :=
  if plain s then chars s else quote :: (chars s ≫= escaped) ++ [quote].

Definition spaces (d : nat) : list ascii := replicate d " "%char.

(** What follows a colon or a dash at column [d], up to the end of the block. *)
Fixpoint write_value (d : nat) (y : yaml) : list ascii :=
  match y with
  | YScalar s => " "%char :: text s ++ [LF]
  | YMap kvs => LF :: (kvs ≫= fun kv => spaces (d + 2) ++ text (fst kv) ++ ":"%char :: write_value (d + 2) (snd kv))
  | YSeq l => LF :: (l ≫= fun v => spaces (d + 2) ++ "-"%char ::
      match v with
      | YMap ((k, YScalar s) :: kvs) =>
          " "%char :: text k ++ ":"%char :: " "%char :: text s ++ LF ::
          (kvs ≫= fun kv => spaces (d + 4) ++ text (fst kv) ++ ":"%char :: write_value (d + 4) (snd kv))
      | _ => write_value (d + 2) v
      end)
  end.

Definition write_entry (d : nat) (kv : string * yaml) : list ascii :=
  spaces d ++ text (fst kv) ++ ":"%char :: write_value d (snd kv).
Definition write_item (d : nat) (v : yaml) : list ascii :=
  spaces d ++ "-"%char ::
  match v with
  | YMap ((k, YScalar s) :: kvs) =>
      " "%char :: text k ++ ":"%char :: " "%char :: text s ++ LF :: (kvs ≫= write_entry (d + 2))
  | _ => write_value d v
  end.

Definition write_document (kvs : list (string * yaml)) : string :=
  String.string_of_list_ascii (kvs ≫= write_entry 0).

(** ** Its tokens *)

Definition str (s : string) : Token := mkToken TokenString s.
Definition nl : Token := mkToken TokenNewline (String LF "").
Definition colon : Token := mkToken TokenColon ":".
Definition dash : Token := mkToken TokenDash "-".
Definition ind (d : nat) : Token := mkToken TokenIndent (Itoa (Z.of_nat d)).
Definition ded (d : nat) : Token := mkToken TokenDedent (Itoa (Z.of_nat d)).

Fixpoint value_tokens (d : nat) (y : yaml) : list Token :=
  match y with
  | YScalar s => [str s; nl]
  | YMap kvs =>
      nl :: ind (d + 2) :: (kvs ≫= fun kv => str (fst kv) :: colon :: value_tokens (d + 2) (snd kv)) ++ [ded d]
  | YSeq l => nl :: ind (d + 2) :: (l ≫= fun v => dash ::
      match v with
      | YMap ((k, YScalar s) :: kvs) =>
          str k :: colon :: str s :: nl ::
          match kvs with
          | [] => []
          | _ => ind (d + 4) :: (kvs ≫= fun kv => str (fst kv) :: colon :: value_tokens (d + 4) (snd kv)) ++ [ded (d + 2)]
          end
      | _ => value_tokens (d + 2) v
      end) ++ [ded d]
  end.

Definition entry_tokens (d : nat) (kv : string * yaml) : list Token :=
  str (fst kv) :: colon :: value_tokens d (snd kv).
Definition block_tokens (d : nat) (kvs : list (string * yaml)) : list Token :=
  match kvs with
  | [] => []
  | _ => ind (d + 2) :: (kvs ≫= entry_tokens (d + 2)) ++ [ded d]
  end.
Definition item_tokens (d : nat) (v : yaml) : list Token :=
  dash ::
  match v with
  | YMap ((k, YScalar s) :: kvs) => str k :: colon :: str s :: nl :: block_tokens d kvs
  | _ => value_tokens d v
  end.

Lemma bind_ext_in {A B} (f g : A -> list B) l : (forall x, x ∈ l -> f x = g x) -> l ≫= f = l ≫= g.
Proof.
  induction l as [|x l IH]; intros H; [done|]. rewrite !bind_cons, (H x), IH by set_solver. done.
Qed.

Lemma write_value_map d kvs : write_value d (YMap kvs) = LF :: (kvs ≫= write_entry (d + 2)).
Proof. reflexivity. Qed.

Lemma write_value_seq d l : write_value d (YSeq l) = LF :: (l ≫= write_item (d + 2)).
Proof.
  cbn [write_value]. f_equal. apply bind_ext_in. intros v _. unfold write_item. f_equal. f_equal.
  destruct v as [s|[|[k [s| |]] kvs]|l']; try done. do 2 f_equal. do 3 f_equal. f_equal. f_equal.
  unfold write_entry. by replace (d + 2 + 2)%nat with (d + 4)%nat by lia.
Qed.

Lemma value_tokens_map d kvs :
  value_tokens d (YMap kvs) = nl :: ind (d + 2) :: (kvs ≫= entry_tokens (d + 2)) ++ [ded d].
Proof. reflexivity. Qed.

Lemma value_tokens_seq d l :
  value_tokens d (YSeq l) = nl :: ind (d + 2) :: (l ≫= item_tokens (d + 2)) ++ [ded d].
Proof.
  cbn [value_tokens]. do 2 f_equal. f_equal. apply bind_ext_in. intros v _. unfold item_tokens. f_equal.
  destruct v as [s|[|[k [s| |]] kvs]|l']; try done. do 4 f_equal. unfold block_tokens.
  replace (d + 2 + 2)%nat with (d + 4)%nat by lia. by destruct kvs.
Qed.

Definition demo_document : list (string * yaml) :=
  [("version", YScalar "1"); ("pools", YSeq [YMap [("name", YScalar "web"); ("addresses", YSeq [YScalar "10.0.0.1:80"; YScalar "b"]);
     ("check", YMap [("path", YScalar "/health")])]; YScalar "x"; YSeq [YScalar "true"]; YMap [("k", YMap [("a b", YScalar "line" )])]]); ("on", YScalar "")].

Example demo_document_tokens :
  Tokenize (write_document demo_document) = Tokens ((demo_document ≫= entry_tokens 0) ++ [eof]).
Proof. vm_compute. reflexivity. Qed.

Example demo_document_read :
  Parse (write_document demo_document) = Parsed (mkNode NodeDocument "" "" "" [to_node (YMap demo_document)] "").
Proof. vm_compute. reflexivity. Qed.

(** ** The lexer on written text *)

(** The tokens that a lexer state leads to. *)
Inductive emits : Lexer -> list Token -> Prop :=
  | emits_eof l t l' : NextToken l = LTok t l' -> Type_ t = TokenEOF -> emits l [t]
  | emits_cons l t l' ts : NextToken l = LTok t l' -> Type_ t <> TokenEOF -> emits l' ts -> emits l (t :: ts).

Lemma emits_tokenize l ts fuel : emits l ts -> tokenize_loop fuel l <> TokensNoFuel -> tokenize_loop fuel l = Tokens ts.
Proof.
  intros H. revert fuel. induction H as [l t l' Hn Ht|l t l' ts Hn Ht _ IH]; intros [|fuel] Hf; try done;
    cbn [tokenize_loop] in *; rewrite Hn in *.
  - by rewrite bool_decide_true.
  - rewrite bool_decide_false in * by done. rewrite IH; [done|]. by destruct (tokenize_loop fuel l').
Qed.

Lemma emits_same l l' ts : NextToken l = NextToken l' -> emits l' ts -> emits l ts.
Proof. intros E H. inversion H; subst; rewrite <- E in *; [by eapply emits_eof|by eapply emits_cons]. Qed.

(** The switch of [NextToken] where it does not skip a character. *)
Definition lex_here (l : Lexer) : lexed := lex_token (fun _ => LNoFuel) l.

Lemma lex_here_any again l t l' : lex_here l = LTok t l' -> lex_token again l = LTok t l'.
Proof.
  unfold lex_here, lex_token. intros H.
  repeat match goal with |- context [if ?b then _ else _] => destruct b; [done|] end. done.
Qed.

(** The characters a line of written text can start with. *)
Definition starts (c : ascii) : Prop := isLetter c = true \/ c = quote \/ c = "-"%char.

Lemma letter_not c d : isLetter c = true -> isLetter d = false -> Ascii.eqb c d = false.
Proof. intros Hc Hd. apply Ascii.eqb_neq. congruence. Qed.

Lemma starts_not c d : starts c -> isLetter d = false -> d <> quote -> d <> "-"%char -> Ascii.eqb c d = false.
Proof. intros [H|[->| ->]] Hd H1 H2; [by apply letter_not|apply Ascii.eqb_neq; congruence..]. Qed.

Lemma starts_one_of c cs :
  starts c -> forallb (fun d => negb (isLetter d || Ascii.eqb d quote || Ascii.eqb d "-")) cs = true -> one_of cs c = false.
Proof.
  intros Hc H. apply not_true_iff_false. rewrite one_of_elem. intros Hin. rewrite forallb_forall in H.
  apply list_elem_of_In, H in Hin. destruct Hc as [Hc|[->| ->]]; [by rewrite Hc in Hin|done..].
Qed.

(** A lexer with [r] ahead and no dedents to hand out. *)
Record at_ (l : Lexer) (st : list Z) (r : list ascii) : Prop := {
  at_rest : rest_of l = r;
  at_col : 0 <= col l;
  at_stack : indentStack l = st;
  at_last : lastIndent l = top st;
  at_pending : pendingDedents l = 0
}.

(** The same in the middle of a line, and at the start of one. *)
Definition mid (l : Lexer) (st : list Z) (r : list ascii) : Prop := at_ l st r /\ at_line_start l = Some false.
Definition fresh (l : Lexer) (st : list Z) (r : list ascii) : Prop := at_ l st r /\ col l = 0.

Lemma ch_rest l : ch l = default NUL (head (rest_of l)).
Proof. unfold ch, rest_of. rewrite head_lookup, lookup_drop. by rewrite Nat.add_0_r. Qed.

Lemma peek_rest l : YamlLexer.peek l = default NUL (rest_of l !! 1%nat).
Proof. unfold YamlLexer.peek, rest_of. rewrite lookup_drop. by replace (pos l + 1)%nat with (S (pos l)) by lia. Qed.

Lemma rest_readChars n l : rest_of (readChars n l) = drop n (rest_of l).
Proof. unfold rest_of. cbn. by rewrite drop_drop. Qed.

Lemma at_read l st a r : at_ l st (a ++ r) -> at_ (readChars (length a) l) st r.
Proof.
  intros [H1 H2 H3 H4 H5]. split; [by rewrite rest_readChars, H1, drop_app_length|cbn; lia|done..].
Qed.

Lemma mid_read l st a r :
  at_ l st (a ++ r) -> a <> [] -> last a <> Some LF -> mid (readChars (length a) l) st r.
Proof.
  intros H Ha Hl. split; [by apply at_read|]. destruct H as [H1 H2 _ _ _].
  destruct (exists_last Ha) as (a' & c & ->). rewrite last_snoc in Hl.
  unfold at_line_start. cbn [col pos input readChars]. rewrite length_app. cbn [length].
  rewrite (proj2 (Z.eqb_neq _ _)) by lia. rewrite Nat.add_assoc, Nat.add_1_r.
  assert (E : input l !! (pos l + length a')%nat = Some c).
  { rewrite <- lookup_drop. fold (rest_of l). rewrite H1, <- app_assoc. by apply list_lookup_middle. }
  rewrite E. cbn. f_equal. apply Ascii.eqb_neq. congruence.
Qed.

Lemma readChars_0 l : readChars 0 l = l.
Proof. unfold readChars. destruct l; cbn. f_equal; lia. Qed.

Lemma span_stop f a c r : forallb f a = true -> f c = false -> span f (a ++ c :: r) = length a.
Proof.
  intros Ha Hc. induction a as [|x a IH]; cbn in *; [by rewrite Hc|]. apply andb_true_iff in Ha as [-> Ha]. by rewrite IH.
Qed.

Lemma blank_false c : starts c \/ c = ":"%char -> blank c = false.
Proof. intros [H| ->]; [by apply starts_one_of|done]. Qed.

Lemma skip_none l c r : rest_of l = c :: r -> blank c = false -> skipWhitespace l = l.
Proof. intros H Hc. unfold skipWhitespace, skip_while. rewrite H. cbn [span]. by rewrite Hc, readChars_0. Qed.

Lemma skip_one l c r : rest_of l = " "%char :: c :: r -> blank c = false -> skipWhitespace l = readChars 1 l.
Proof. intros H Hc. unfold skipWhitespace, skip_while. rewrite H. cbn [span]. by rewrite Hc. Qed.

(** What [NextToken] does at [l] is decided by the switch at [l']. *)
Definition leads (l l' : Lexer) : Prop := forall t l2, lex_here l' = LTok t l2 -> NextToken l = LTok t l2.

Lemma mid_leads l st r :
  mid l st r -> newline_char (default NUL (head r)) = false -> leads l (skipWhitespace l).
Proof.
  intros [[H1 H2 H3 H4 H5] Hm] Hn t l2 Hh. unfold NextToken. cbn [next_token].
  rewrite H5, ch_rest, H1, Hn, Hm. by apply lex_here_any.
Qed.

Lemma starts_line c : starts c -> newline_char c = false /\ Ascii.eqb c "#" = false /\ Ascii.eqb c NUL = false /\
  one_of [LF; CR; "#"%char; NUL] c = false /\ Ascii.eqb " " c = false /\ Ascii.eqb TAB c = false.
Proof.
  intros Hc. split_and!; try (by apply starts_one_of); try (by apply starts_not);
    rewrite Ascii.eqb_sym; by apply starts_not.
Qed.

Lemma spaces_blank e : forallb (Ascii.eqb " ") (spaces e) = true.
Proof. induction e; [done|]. unfold spaces in *. cbn [replicate forallb]. by rewrite IHe. Qed.

Lemma readIndent_spaces l e c r :
  rest_of l = spaces e ++ c :: r -> starts c -> readIndent l = (Z.of_nat e, readChars e l).
Proof.
  intros H Hc. destruct (starts_line c Hc) as (_ & _ & _ & _ & Hs & Ht). unfold readIndent. rewrite H.
  rewrite span_stop by (done || apply spaces_blank). unfold spaces. rewrite length_replicate.
  rewrite rest_readChars, H. unfold spaces. rewrite drop_app_length' by (by rewrite length_replicate).
  cbn [span]. rewrite Ht, readChars_0. f_equal. lia.
Qed.

(** A line that is indented by [e] starts: what comes of its indentation. *)
Lemma fresh_line l st e c r :
  fresh l st (spaces e ++ c :: r) -> starts c ->
  NextToken l = match handleIndent (Z.of_nat e) (readChars e l) with
                | (Some t, l') => LTok t l'
                | (None, l') => lex_token (next_token (length (input l) - pos l)) (skipWhitespace l')
                end.
Proof.
  intros [[H1 H2 H3 H4 H5] Hf] Hc. destruct (starts_line c Hc) as (Hnl & Hh & H0 & Ho & Hs & Ht).
  assert (Hch : ch l = c \/ ch l = " "%char) by (rewrite ch_rest, H1; destruct e; [by left|by right]).
  assert (Hch2 : ch (readChars e l) = c).
  { rewrite ch_rest, rest_readChars, H1. unfold spaces. by rewrite drop_app_length' by (by rewrite length_replicate). }
  unfold NextToken. cbn [next_token]. rewrite H5. unfold at_line_start at 1. rewrite Hf.
  change (0 <? 0) with false. change (0 =? 0) with true. cbv iota.
  assert (newline_char (ch l) = false) as -> by (by destruct Hch as [-> | ->]).
  assert (Ascii.eqb (ch l) "#" = false) as -> by (by destruct Hch as [-> | ->]).
  assert (Ascii.eqb (ch l) NUL = false) as -> by (by destruct Hch as [-> | ->]).
  rewrite (readIndent_spaces l e c r H1 Hc). rewrite Hch2, Ho. by destruct (handleIndent _ _) as [[t|] l'].
Qed.

(** *** Scalars *)

Lemma text_taken l a r : rest_of l = a ++ r -> text_between l (readChars (length a) l) = String.string_of_list_ascii a.
Proof.
  intros H. unfold text_between. cbn [pos readChars]. replace (pos l + length a - pos l)%nat with (length a) by lia.
  fold (rest_of l). by rewrite H, take_app_length.
Qed.

Lemma of_chars s : String.string_of_list_ascii (chars s) = s.
Proof. apply String.string_of_list_ascii_of_string. Qed.

Lemma keyword_plain s : Type_ (keyword s) = TokenString -> keyword s = str s.
Proof. unfold keyword. by repeat case_bool_decide. Qed.

(** The switch at a letter. *)
Lemma lex_letter l c r : rest_of l = c :: r -> isLetter c = true -> lex_here l = lex_pair (readIdentifierOrKeyword l).
Proof.
  intros H Hc. unfold lex_here, lex_token. rewrite ch_rest, H. change (default NUL (head (c :: r))) with c.
  repeat rewrite (letter_not c _ Hc) by reflexivity. by rewrite Hc.
Qed.

Lemma ident_stop c : c = ":"%char \/ c = LF -> ident_char c = false.
Proof. by intros [-> | ->]. Qed.

Lemma plain_word s : plain s = true ->
  exists c r, chars s = c :: r /\ isLetter c = true /\ forallb ident_char (chars s) = true /\ keyword s = str s.
Proof.
  unfold plain. destruct (chars s) as [|c r] eqn:E; [done|]. intros H.
  apply andb_true_iff in H as [[H1 H2]%andb_true_iff H3]. exists c, r. split_and!; try done.
  apply keyword_plain. by apply bool_decide_eq_true in H3.
Qed.

Lemma escape_escaped c rest : c <> NUL ->
  quoted_loop (escaped c ++ rest) =
  (c :: fst (quoted_loop rest), (length (escaped c) + snd (quoted_loop rest))%nat).
Proof.
  intros Hc. unfold escaped. destruct (one_of [quote; backslash] c) eqn:E1.
  - assert (Hcase : c = quote \/ c = backslash).
    { apply one_of_elem in E1. by rewrite !elem_of_cons, elem_of_nil in E1; destruct E1 as [?|[?|?]]; auto. }
    cbn. destruct (quoted_loop rest) as [t n]. by destruct Hcase as [-> | ->].
  - destruct (Ascii.eqb_spec c LF) as [->|H2]; [cbn; by destruct (quoted_loop rest)|].
    destruct (Ascii.eqb_spec c CR) as [->|H3]; [cbn; by destruct (quoted_loop rest)|].
    destruct (Ascii.eqb_spec c TAB) as [->|H4]; [cbn; by destruct (quoted_loop rest)|].
    assert (one_of [quote; NUL] c = false /\ Ascii.eqb c backslash = false) as [Hq Hb].
    { apply not_true_iff_false in E1. rewrite one_of_elem, !elem_of_cons in E1. split.
      - apply not_true_iff_false. rewrite one_of_elem, !elem_of_cons, elem_of_nil. tauto.
      - apply Ascii.eqb_neq. tauto. }
    cbn [app quoted_loop]. rewrite Hq, Hb. by destruct (quoted_loop rest).
Qed.

Lemma quoted_loop_escaped cs rest : NUL ∉ cs ->
  quoted_loop ((cs ≫= escaped) ++ quote :: rest) = (cs, length (cs ≫= escaped)).
Proof.
  induction cs as [|c cs IH]; intros H; [done|]. rewrite bind_cons, <- app_assoc, escape_escaped by set_solver.
  rewrite IH by set_solver. cbn [fst snd]. by rewrite length_app.
Qed.

(** A scalar is read back, by whichever way it was written. *)
Lemma lex_text l s c r :
  rest_of l = text s ++ c :: r -> clean s -> c = ":"%char \/ c = LF ->
  lex_here l = LTok (str s) (readChars (length (text s)) l).
Proof.
  unfold text. intros H Hs Hc. destruct (plain s) eqn:Ep.
  - apply plain_word in Ep as (x & w & Ew & Hx & Hi & Hk).
    rewrite (lex_letter l x (w ++ c :: r)) by (done || by rewrite H, Ew).
    unfold readIdentifierOrKeyword, readIdentifier, skip_while. rewrite H, span_stop by (done || by apply ident_stop).
    rewrite (text_taken l (chars s) (c :: r)), of_chars, Hk by done. done.
  - assert (Hh : lex_here l = lex_pair (readDoubleQuotedString l)).
    { unfold lex_here, lex_token. rewrite ch_rest, H. reflexivity. }
    rewrite Hh. unfold readDoubleQuotedString.
    assert (Hr : rest_of (readChar l) = (chars s ≫= escaped) ++ quote :: c :: r).
    { unfold readChar. rewrite rest_readChars, H. cbn [app drop]. by rewrite <- app_assoc. }
    rewrite Hr, quoted_loop_escaped by done. rewrite of_chars.
    assert (Hq : ch (readChars (length (chars s ≫= escaped)) (readChar l)) = quote).
    { rewrite ch_rest, rest_readChars, Hr. by rewrite drop_app_length. }
    rewrite Hq. change (Ascii.eqb quote quote) with true. unfold lex_pair. cbn [fst snd]. f_equal.
    unfold readChar, readChars. cbn. rewrite length_app. cbn. f_equal; lia.
Qed.

Lemma text_first s : exists c r, text s = c :: r /\ starts c.
Proof.
  unfold text. destruct (plain s) eqn:E.
  - apply plain_word in E as (c & r & -> & Hc & _). exists c, r. split; [done|by left].
  - eexists _, _. split; [done|]. by right; left.
Qed.

Lemma text_nonempty s : text s <> [].
Proof. by destruct (text_first s) as (c & r & -> & _). Qed.

Lemma last_elem {A} (l : list A) x : last l = Some x -> x ∈ l.
Proof. intros H. apply last_Some in H as [l' ->]. set_solver. Qed.

Lemma text_last s : clean s -> last (text s) <> Some LF.
Proof.
  unfold text. destruct (plain s) eqn:E.
  - apply plain_word in E as (_ & _ & _ & _ & Hi & _). intros _ H%last_elem.
    rewrite forallb_forall in Hi. apply list_elem_of_In, Hi in H. done.
  - intros _. rewrite app_comm_cons, last_snoc. done.
Qed.

(** *** Signs *)

Lemma lex_colon l r : rest_of l = ":"%char :: r -> lex_here l = LTok colon (readChar l).
Proof. intros H. unfold lex_here, lex_token. rewrite ch_rest, H. reflexivity. Qed.

Lemma lex_dash l c r : rest_of l = "-"%char :: c :: r -> isDigit c = false -> lex_here l = LTok dash (readChar l).
Proof. intros H Hc. unfold lex_here, lex_token. rewrite ch_rest, peek_rest, H. cbn. by rewrite Hc. Qed.

Lemma next_newline l st r : at_ l st (LF :: r) -> exists l', NextToken l = LTok nl l' /\ fresh l' st r.
Proof.
  intros [H1 H2 H3 H4 H5]. unfold NextToken. cbn [next_token]. rewrite H5.
  assert (Hc : ch l = LF) by (by rewrite ch_rest, H1). rewrite Hc.
  change (newline_char LF) with true. cbv iota. change (0 <? 0) with false. cbv iota. unfold readNewline. rewrite Hc.
  change (Ascii.eqb LF CR) with false. cbv iota. rewrite Hc. change (Ascii.eqb LF LF) with true. cbv iota.
  eexists. split; [reflexivity|]. split; [|done]. split; cbn [snd col]; try done.
  change (rest_of (readChar l) = r). unfold readChar. by rewrite rest_readChars, H1.
Qed.

(** *** Indentation *)

(** What may follow a block whose lines are at column [d] or deeper: nothing, or a line that
    is not deeper. *)
Definition follows (d : nat) (r : list ascii) : Prop :=
  r = [] \/ exists e c r', r = spaces e ++ c :: r' /\ starts c /\ (e <= d)%nat.

Lemma fresh_leads l st e c r :
  fresh l st (spaces e ++ c :: r) -> starts c -> top st = Z.of_nat e -> leads l (readChars e l).
Proof.
  intros Hf Hc Ht t l2 Hh. rewrite (fresh_line _ _ _ _ _ Hf Hc). destruct Hf as [[H1 H2 H3 H4 H5] _].
  unfold handleIndent. cbn [lastIndent readChars]. rewrite H4, Ht, Z.ltb_irrefl.
  rewrite (skip_none _ c r); [by apply lex_here_any| |apply blank_false; by left].
  rewrite rest_readChars, H1. unfold spaces. by rewrite drop_app_length' by (by rewrite length_replicate).
Qed.

Lemma at_spaces l st e r : at_ l st (spaces e ++ r) -> at_ (readChars e l) st r.
Proof. intros H. apply at_read in H. unfold spaces in H. by rewrite length_replicate in H. Qed.

(** A deeper line opens a level. *)
Lemma fresh_indents l st d e c r :
  fresh l st (spaces e ++ c :: r) -> starts c -> top st = Z.of_nat d -> (d < e)%nat ->
  exists l', NextToken l = LTok (ind e) l' /\ at_ l' (Z.of_nat e :: st) (c :: r) /\ leads l' l'.
Proof.
  intros Hf Hc Ht He. rewrite (fresh_line _ _ _ _ _ Hf Hc). destruct Hf as [Ha _].
  assert (Hm : mid (readChars e l) st (c :: r)).
  { pose proof (mid_read l st (spaces e) (c :: r) Ha) as H. unfold spaces in H. rewrite length_replicate in H.
    apply H; [destruct e; [lia|done]|]. intros E. apply last_elem, elem_of_replicate in E as [E _]. done. }
  pose proof Ha as [H1 H2 H3 H4 H5]. unfold handleIndent. cbn [lastIndent readChars].
  rewrite H4, Ht, (proj2 (Z.ltb_lt _ _)) by lia. eexists. split; [reflexivity|].
  set (l' := with_stack _ _ _ _). destruct Hm as [[M1 M2 M3 M4 M5] Mm].
  assert (Hm' : mid l' (Z.of_nat e :: st) (c :: r)).
  { split; [|done]. split; [done|done|by unfold l'; cbn; rewrite H3|done|done]. }
  split; [apply Hm'|]. assert (E : skipWhitespace l' = l') by (apply (skip_none _ c r); [apply Hm'|apply blank_false; by left]).
  rewrite <- E at 2. eapply mid_leads; [exact Hm'|]. by apply starts_line.
Qed.

Lemma pop_count_cons x st e : st <> [] -> e < x -> pop_count (x :: st) e = 1 + pop_count st e.
Proof. intros H1 H2. cbn [pop_count]. rewrite bool_decide_false, (proj2 (Z.ltb_lt _ _)) by done. done. Qed.

Lemma pop_count_top st e : top st <= e -> pop_count st e = 0.
Proof. destruct st as [|x st]; [done|]. cbn. intros H. rewrite (proj2 (Z.ltb_ge _ _)) by done. by rewrite andb_false_r. Qed.

Lemma fresh_with_stack l x st r : fresh l (x :: st) r -> fresh (with_stack st (top st) 0 l) st r.
Proof. intros [[H1 H2 H3 H4 H5] Hc]. split; [by split|done]. Qed.

Lemma starts_lexes l c r : rest_of l = c :: r -> starts c -> exists t l2, lex_here l = LTok t l2.
Proof.
  intros H [Hc|[->| ->]].
  - rewrite (lex_letter l c r H Hc). by eexists _, _.
  - unfold lex_here, lex_token. rewrite ch_rest, H. by eexists _, _.
  - unfold lex_here, lex_token. rewrite ch_rest, H. cbn. destruct (isDigit _); by eexists _, _.
Qed.

(** The token after the first dedent of a line is the one that the line would start with if
    the level had been closed before. *)
Lemma after_dedent l st e c r :
  fresh l st (spaces e ++ c :: r) -> starts c -> last st = Some 0 -> Z.of_nat e <= top st ->
  NextToken (with_stack st (top st) (pop_count st (Z.of_nat e)) (readChars e l)) = NextToken l.
Proof.
  intros Hf Hc Hb Hle. pose proof Hf as [[H1 H2 H3 H4 H5] Hcol].
  set (P := with_stack _ _ _ _).
  assert (HrP : rest_of P = c :: r).
  { change (rest_of (readChars e l) = c :: r). rewrite rest_readChars, H1. unfold spaces.
    by rewrite drop_app_length' by (by rewrite length_replicate). }
  destruct (decide (Z.of_nat e < top st)) as [Hlt|Hge].
  - (* another level is closed *)
    rewrite (fresh_line _ _ _ _ _ Hf Hc). unfold handleIndent. cbn [lastIndent indentStack readChars].
    rewrite H4, (proj2 (Z.ltb_ge _ _)), (proj2 (Z.ltb_lt _ _)), H3 by lia.
    destruct st as [|x [|y st]]; [done|cbn in Hb, Hlt; injection Hb as ->; lia|].
    cbn [top default head] in Hlt.
    unfold NextToken. cbn [next_token]. unfold P. cbn [pendingDedents with_stack].
    rewrite pop_count_cons by done.
    assert (Hp : 0 <= pop_count (y :: st) (Z.of_nat e)).
    { clear. generalize (y :: st). intros l. induction l as [|z l IH]; [done|]. cbn. destruct (_ && _); lia. }
    revert Hp. generalize (pop_count (y :: st) (Z.of_nat e)). intros k Hp.
    rewrite (proj2 (Z.ltb_lt 0 _)) by lia. cbn [with_stack pendingDedents]. replace (1 + k - 1) with k by lia. reflexivity.
  - (* the line goes on *)
    assert (Ht : top st = Z.of_nat e) by lia. assert (Hpc : pop_count st (Z.of_nat e) = 0) by (apply pop_count_top; lia).
    assert (HP : P = readChars e l).
    { unfold P. rewrite Hpc, <- H4. unfold with_stack, readChars. cbn. by rewrite <- H3, H5. }
    rewrite HP in *. clear HP P.
    destruct (starts_lexes _ _ _ HrP Hc) as (t & l2 & El).
    rewrite (fresh_leads l st e c r Hf Hc Ht t l2 El). destruct e as [|e].
    + rewrite readChars_0 in *. apply (fresh_leads l st 0 c r Hf Hc Ht). by rewrite readChars_0.
    + assert (Hm : mid (readChars (S e) l) st (c :: r)).
      { pose proof (mid_read l st (spaces (S e)) (c :: r)) as H. unfold spaces in H. rewrite length_replicate in H.
        apply H; [apply Hf|done|]. intros E. apply last_elem, elem_of_replicate in E as [E _]. done. }
      apply (mid_leads _ _ _ Hm); [by apply starts_line|].
      by rewrite (skip_none _ c r) by (done || apply blank_false; by left).
Qed.

(** The same at the end of the input. *)
Lemma after_dedent_eof l st :
  fresh l st [] -> st <> [] -> NextToken (with_stack st (top st) (len st - 1) l) = NextToken l.
Proof.
  intros [[H1 H2 H3 H4 H5] Hcol] Hne.
  assert (Hch : ch l = NUL) by (by rewrite ch_rest, H1).
  assert (Hsk : skipWhitespace l = l).
  { unfold skipWhitespace, skip_while. rewrite H1. apply readChars_0. }
  assert (Hl : NextToken l = lex_token (next_token (length (input l) - pos l)) l).
  { unfold NextToken. cbn [next_token]. rewrite H5, Hch. unfold at_line_start at 1. rewrite Hcol. cbn. by rewrite Hsk. }
  rewrite Hl. unfold lex_token. rewrite Hch, H3. change (Ascii.eqb NUL NUL) with true. cbv iota.
  destruct st as [|x [|y st]]; [done| |].
  - change (len [x] - 1) with 0.
    assert (E : with_stack [x] (top [x]) 0 l = l) by (rewrite <- H4, <- H3, <- H5; by destruct l).
    rewrite E, Hl. unfold lex_token. by rewrite Hch, H3.
  - assert (Hk : 0 < len (x :: y :: st) - 1 /\ len (x :: y :: st) - 1 - 1 = len (y :: st) - 1)
      by (unfold len; cbn [length]; lia).
    destruct Hk as [Hk Hk']. rewrite <- Hk'. revert Hk. generalize (len (x :: y :: st) - 1). intros k Hk.
    unfold NextToken. cbn [next_token pendingDedents with_stack]. rewrite (proj2 (Z.ltb_lt _ _)) by done. reflexivity.
Qed.

(** Closing the innermost level. *)
Lemma emits_pop l x d st r ts :
  fresh l (x :: st) r -> last st = Some 0 -> top st = Z.of_nat d -> Z.of_nat d < x -> follows d r ->
  emits (with_stack st (top st) 0 l) ts -> emits l (ded d :: ts).
Proof.
  intros Hf Hb Ht Hx Hr Hts. assert (Hne : st <> []) by (by intros ->).
  pose proof (fresh_with_stack _ _ _ _ Hf) as Hf'. pose proof Hf as [[H1 H2 H3 H4 H5] Hcol].
  destruct Hr as [->|(e & c & r' & -> & Hc & He)].
  - eapply emits_cons with (l' := with_stack st (top st) (len st - 1) l); [|done|].
    + assert (Hch : ch l = NUL) by (by rewrite ch_rest, H1).
      assert (Hsk : skipWhitespace l = l).
      { unfold skipWhitespace, skip_while. rewrite H1. apply readChars_0. }
      unfold NextToken. cbn [next_token]. rewrite H5, Hch. unfold at_line_start at 1. rewrite Hcol. cbn.
      rewrite Hsk. unfold lex_token. rewrite Hch, H3. change (Ascii.eqb NUL NUL) with true. cbv iota.
      destruct st as [|y st]; [done|]. unfold dedent_token. by rewrite Ht.
    + eapply emits_same; [|exact Hts]. exact (after_dedent_eof _ _ Hf' Hne).
  - eapply emits_cons with (l' := with_stack st (top st) (pop_count st (Z.of_nat e)) (readChars e l)); [|done|].
    + rewrite (fresh_line _ _ _ _ _ Hf Hc). unfold handleIndent. cbn [lastIndent indentStack readChars].
      rewrite H4. change (top (x :: st)) with x. rewrite (proj2 (Z.ltb_ge _ _)), (proj2 (Z.ltb_lt _ _)), H3 by lia.
      destruct st as [|y st]; [done|]. rewrite pop_count_cons by (done || lia).
      replace (1 + pop_count (y :: st) (Z.of_nat e) - 1) with (pop_count (y :: st) (Z.of_nat e)) by lia.
      unfold dedent_token, ded. by rewrite Ht.
    + eapply emits_same; [|exact Hts].
      apply (after_dedent (with_stack st (top st) 0 l) st e c r' Hf' Hc Hb). lia.
Qed.

(** *** Tokens in a row *)

Lemma step_text l0 l1 st s c r :
  leads l0 l1 -> at_ l1 st (text s ++ c :: r) -> clean s -> c = ":"%char \/ c = LF ->
  exists l2, NextToken l0 = LTok (str s) l2 /\ mid l2 st (c :: r).
Proof.
  intros Hl Ha Hs Hc. eexists. split; [apply Hl, (lex_text l1 s c r); [apply Ha|done..]|].
  apply mid_read; [done|apply text_nonempty|by apply text_last].
Qed.

Lemma step_colon l st r : mid l st (":"%char :: r) -> exists l2, NextToken l = LTok colon l2 /\ mid l2 st r.
Proof.
  intros Hm. pose proof Hm as [Ha _]. eexists. split; [|by apply (mid_read l st [":"%char] r)].
  apply (mid_leads _ _ _ Hm); [done|]. rewrite (skip_none l ":"%char r) by (by apply Ha || by apply blank_false; right).
  by apply (lex_colon l r), Ha.
Qed.

Lemma mid_blank l st s r :
  mid l st (" "%char :: text s ++ r) -> leads l (readChars 1 l) /\ at_ (readChars 1 l) st (text s ++ r).
Proof.
  intros Hm. pose proof Hm as [Ha _]. split; [|by apply (at_read l st [" "%char])].
  destruct (text_first s) as (c & w & Hs & Hc).
  rewrite <- (skip_one l c (w ++ r)); [by eapply mid_leads|by rewrite (at_rest _ _ _ Ha), Hs|apply blank_false; by left].
Qed.

Lemma step_blank_text l st s c r :
  mid l st (" "%char :: text s ++ c :: r) -> clean s -> c = ":"%char \/ c = LF ->
  exists l2, NextToken l = LTok (str s) l2 /\ mid l2 st (c :: r).
Proof. intros Hm. destruct (mid_blank _ _ _ _ Hm) as [Hl Ha]. by apply (step_text l (readChars 1 l)). Qed.

Lemma step_newline l st r : mid l st (LF :: r) -> exists l2, NextToken l = LTok nl l2 /\ fresh l2 st r.
Proof. intros [Ha _]. by apply next_newline. Qed.

Lemma step_dash l0 l1 st c r :
  leads l0 l1 -> at_ l1 st ("-"%char :: c :: r) -> c = " "%char \/ c = LF ->
  exists l2, NextToken l0 = LTok dash l2 /\ mid l2 st (c :: r).
Proof.
  intros Hl Ha Hc. eexists. split; [apply Hl, (lex_dash l1 c r); [apply Ha|by destruct Hc as [-> | ->]]|].
  by apply (mid_read l1 st ["-"%char] (c :: r)).
Qed.

(** Levels whose innermost is at column [d]. *)
Definition levels (d : nat) (st : list Z) : Prop := top st = Z.of_nat d /\ last st = Some 0.

Lemma levels_push d st : levels d st -> levels (d + 2) (Z.of_nat (d + 2) :: st).
Proof. intros [H1 H2]. split; [done|]. by destruct st. Qed.

Lemma follows_le d e r : follows d r -> (d <= e)%nat -> follows e r.
Proof. intros [->|(k & c & r' & -> & Hc & Hk)] H; [by left|]. right. exists k, c, r'. split_and!; [done..|lia]. Qed.

Lemma follows_entries e kvs r : follows e r -> follows e ((kvs ≫= write_entry e) ++ r).
Proof.
  destruct kvs as [|[k v] kvs]; [done|]. intros _. right. destruct (text_first k) as (c & w & Hk & Hc).
  rewrite bind_cons. unfold write_entry at 1. cbn [fst snd]. rewrite Hk. exists e, c. eexists.
  rewrite <- !app_assoc. cbn [app]. done.
Qed.

Lemma follows_items e l r : follows e r -> follows e ((l ≫= write_item e) ++ r).
Proof.
  destruct l as [|v l]; [done|]. intros _. right. rewrite bind_cons. unfold write_item at 1. exists e, "-"%char. eexists.
  rewrite <- !app_assoc. cbn [app]. split_and!; [done|by right; right|done].
Qed.

(** *** Blocks *)

Definition reads_value (y : yaml) : Prop := forall d st l r ts,
  writable y -> mid l st (write_value d y ++ r) -> levels d st -> follows d r ->
  (forall l', fresh l' st r -> emits l' ts) -> emits l (value_tokens d y ++ ts).

Definition entries_writable (kvs : list (string * yaml)) : Prop :=
  Forall (fun kv => clean (fst kv) /\ writable (snd kv)) kvs.

Lemma writable_map kvs : writable (YMap kvs) <-> kvs <> [] /\ entries_writable kvs.
Proof.
  cbn [writable]. unfold entries_writable. apply and_iff_compat_l. induction kvs as [|kv kvs IH]; cbn [foldr]; [done|].
  by rewrite Forall_cons, IH.
Qed.

Lemma writable_seq l : writable (YSeq l) <-> l <> [] /\ Forall writable l.
Proof.
  cbn [writable]. apply and_iff_compat_l. induction l as [|v l IH]; cbn [foldr]; [done|]. by rewrite Forall_cons, IH.
Qed.

(** The entries of a mapping, from the first key on. *)
Lemma emits_entries e k v kvs l0 l1 st r ts :
  reads_value v -> Forall (fun kv => reads_value (snd kv)) kvs -> entries_writable ((k, v) :: kvs) ->
  leads l0 l1 -> at_ l1 st (text k ++ ":"%char :: write_value e v ++ (kvs ≫= write_entry e) ++ r) ->
  levels e st -> follows e r -> (forall l', fresh l' st r -> emits l' ts) ->
  emits l0 ((((k, v) :: kvs) ≫= entry_tokens e) ++ ts).
Proof.
  revert k v l0 l1. induction kvs as [|[k' v'] kvs IH]; intros k v l0 l1 Hv Hkvs Hw Hl Ha Hst Hr Hts;
    inversion Hw as [|? ? [Hk Hwv] Hw']; subst; cbn [fst snd] in *;
    destruct (step_text _ _ _ _ _ _ Hl Ha Hk (or_introl eq_refl)) as (l2 & E2 & H2);
    destruct (step_colon _ _ _ H2) as (l3 & E3 & H3);
    rewrite bind_cons; unfold entry_tokens at 1; cbn [fst snd app]; rewrite <- app_assoc.
  - eapply emits_cons; [exact E2|done|]. eapply emits_cons; [exact E3|done|]. by apply (Hv e st _ r).
  - inversion Hkvs as [|? ? Hv' Hkvs']; subst.
    eapply emits_cons; [exact E2|done|]. eapply emits_cons; [exact E3|done|].
    apply (Hv e st _ ((((k', v') :: kvs) ≫= write_entry e) ++ r)); [done|exact H3|done|by apply follows_entries|].
    intros l' Hf. rewrite bind_cons in Hf. unfold write_entry in Hf at 1. cbn [fst snd] in Hf.
    rewrite <- !app_assoc in Hf. cbn [app] in Hf.
    destruct (text_first k') as (c & w & Hk' & Hc).
    apply (IH k' v' l' (readChars e l')); try done.
    + eapply (fresh_leads l' st e c); [|done|apply Hst]. rewrite Hk' in Hf. exact Hf.
    + apply at_spaces. by destruct Hf.
Qed.

(** A block of entries one level deeper. *)
Lemma emits_block d kvs l st r ts :
  kvs <> [] -> Forall (fun kv => reads_value (snd kv)) kvs -> entries_writable kvs ->
  fresh l st ((kvs ≫= write_entry (d + 2)) ++ r) -> levels d st -> follows d r ->
  (forall l', fresh l' st r -> emits l' ts) ->
  emits l (ind (d + 2) :: (kvs ≫= entry_tokens (d + 2)) ++ ded d :: ts).
Proof.
  intros Hne Hkvs Hw Hf Hst Hr Hts. destruct kvs as [|[k v] kvs]; [done|]. inversion Hkvs as [|? ? Hv Hkvs']; subst.
  rewrite bind_cons in Hf. unfold write_entry in Hf at 1. cbn [fst snd] in Hf. rewrite <- !app_assoc in Hf.
  cbn [app] in Hf. destruct (text_first k) as (c & w & Hk & Hc).
  pose proof Hf as Hf0. rewrite Hk in Hf0. destruct Hst as [Ht Hb].
  destruct (fresh_indents l st d (d + 2) c _ Hf0 Hc Ht ltac:(lia)) as (l2 & E2 & Ha & Hl).
  eapply emits_cons; [exact E2|done|].
  apply (emits_entries (d + 2) k v kvs l2 l2 (Z.of_nat (d + 2) :: st) r); try done.
  - rewrite Hk. exact Ha.
  - by apply levels_push.
  - eapply follows_le; [done|lia].
  - intros l' Hf'. eapply emits_pop; [exact Hf'|done|done|lia|done|]. apply Hts. by eapply fresh_with_stack.
Qed.

Definition reads_all (y : yaml) : Prop :=
  reads_value y /\ forall kvs, y = YMap kvs -> Forall (fun kv => reads_value (snd kv)) kvs.

(** What follows the dash of an item. *)
Definition write_rest (d : nat) (v : yaml) : list ascii :=
  match v with
  | YMap ((k, YScalar s) :: kvs) =>
      " "%char :: text k ++ ":"%char :: " "%char :: text s ++ LF :: (kvs ≫= write_entry (d + 2))
  | _ => write_value d v
  end.

Definition rest_tokens (d : nat) (v : yaml) : list Token :=
  match v with
  | YMap ((k, YScalar s) :: kvs) => str k :: colon :: str s :: nl :: block_tokens d kvs
  | _ => value_tokens d v
  end.

Lemma emits_rest e v l st r ts :
  reads_all v -> writable v -> mid l st (write_rest e v ++ r) -> levels e st -> follows e r ->
  (forall l', fresh l' st r -> emits l' ts) -> emits l (rest_tokens e v ++ ts).
Proof.
  intros [Hv Hkv] Hw Hm Hst Hr Hts.
  destruct v as [s|[|[k [s| |]] kvs]|l']; try (by apply (Hv e st l r)).
  apply writable_map in Hw as [_ Hw]. inversion Hw as [|? ? [Hk Hs] Hw']; subst. cbn [fst snd writable] in *.
  pose proof (Hkv _ eq_refl) as Hf. inversion Hf as [|? ? _ Hf']; subst.
  cbn [write_rest] in Hm. cbn [app] in Hm. rewrite <- !app_assoc in Hm. cbn [app] in Hm. rewrite <- !app_assoc in Hm. cbn [app] in Hm.
  destruct (step_blank_text _ _ _ _ _ Hm Hk (or_introl eq_refl)) as (l2 & E2 & H2).
  destruct (step_colon _ _ _ H2) as (l3 & E3 & H3).
  destruct (step_blank_text _ _ _ _ _ H3 Hs (or_intror eq_refl)) as (l4 & E4 & H4).
  destruct (step_newline _ _ _ H4) as (l5 & E5 & H5). cbn [rest_tokens app].
  eapply emits_cons; [exact E2|done|]. eapply emits_cons; [exact E3|done|].
  eapply emits_cons; [exact E4|done|]. eapply emits_cons; [exact E5|done|].
  destruct kvs as [|kv kvs]; [by apply Hts|]. unfold block_tokens. cbn [app]. rewrite <- app_assoc.
  by apply (emits_block e (kv :: kvs) l5 st r).
Qed.

Lemma write_rest_first e v : writable v -> exists c w, write_rest e v = c :: w /\ (c = " "%char \/ c = LF).
Proof.
  intros Hw. destruct v as [s|[|[k [s| |]] kvs]|l]; cbn; eexists _, _; (split; [done|auto]).
Qed.

Lemma write_item_rest e v : write_item e v = spaces e ++ "-"%char :: write_rest e v.
Proof. reflexivity. Qed.

Lemma item_tokens_rest e v : item_tokens e v = dash :: rest_tokens e v.
Proof. reflexivity. Qed.

(** The items of a sequence, from the first dash on. *)
Lemma emits_items e v vs l0 l1 st r ts :
  reads_all v -> Forall reads_all vs -> writable v -> Forall writable vs ->
  leads l0 l1 -> at_ l1 st ("-"%char :: write_rest e v ++ (vs ≫= write_item e) ++ r) ->
  levels e st -> follows e r -> (forall l', fresh l' st r -> emits l' ts) ->
  emits l0 (((v :: vs) ≫= item_tokens e) ++ ts).
Proof.
  revert v l0 l1. induction vs as [|v' vs IH]; intros v l0 l1 Hv Hvs Hw Hws Hl Ha Hst Hr Hts;
    destruct (write_rest_first e v Hw) as (c & w & Ew & Hc);
    pose proof Ha as Ha0; rewrite Ew in Ha0; cbn [app] in Ha0;
    destruct (step_dash _ _ _ _ _ Hl Ha0 Hc) as (l2 & E2 & H2);
    rewrite app_comm_cons, <- Ew in H2;
    rewrite bind_cons, item_tokens_rest, <- app_assoc; cbn [app]; (eapply emits_cons; [exact E2|done|]).
  - by apply (emits_rest e v l2 st r).
  - inversion Hvs as [|? ? Hv' Hvs']; subst. inversion Hws as [|? ? Hw' Hws']; subst.
    apply (emits_rest e v l2 st (((v' :: vs) ≫= write_item e) ++ r)); try done; [by apply follows_items|].
    intros l' Hf. rewrite bind_cons, write_item_rest, <- !app_assoc in Hf. cbn [app] in Hf.
    apply (IH v' l' (readChars e l')); try done.
    + by eapply (fresh_leads l' st e "-"%char); [exact Hf|right; right|apply Hst].
    + apply at_spaces. by destruct Hf.
Qed.

Lemma reads_all_values y : reads_all y.
Proof.
  induction y as [s|kvs IH|vs IH] using yaml_induction.
  - split; [|done]. intros d st l r ts Hw Hm Hst Hr Hts. cbn [write_value app] in Hm. rewrite <- app_assoc in Hm.
    destruct (step_blank_text _ _ _ _ _ Hm Hw (or_intror eq_refl)) as (l2 & E2 & H2).
    destruct (step_newline _ _ _ H2) as (l3 & E3 & H3).
    eapply emits_cons; [exact E2|done|]. eapply emits_cons; [exact E3|done|]. by apply Hts.
  - assert (IH' : Forall (fun kv => reads_value (snd kv)) kvs) by (eapply Forall_impl; [exact IH|]; by intros kv [H _]).
    split; [|by intros ? [= <-]]. intros d st l r ts Hw Hm Hst Hr Hts. apply writable_map in Hw as [Hne Hw].
    rewrite write_value_map in Hm. cbn [app] in Hm. destruct (step_newline _ _ _ Hm) as (l2 & E2 & H2).
    rewrite value_tokens_map. cbn [app]. rewrite <- app_assoc. eapply emits_cons; [exact E2|done|].
    by apply (emits_block d kvs l2 st r).
  - split; [|done]. intros d st l r ts Hw Hm Hst Hr Hts. apply writable_seq in Hw as [Hne Hw].
    rewrite write_value_seq in Hm. cbn [app] in Hm. destruct (step_newline _ _ _ Hm) as (l2 & E2 & H2).
    rewrite value_tokens_seq. cbn [app]. rewrite <- app_assoc. eapply emits_cons; [exact E2|done|].
    destruct vs as [|v vs]; [done|]. inversion IH as [|? ? Hv Hvs]; subst. inversion Hw as [|? ? Hwv Hwvs]; subst.
    rewrite bind_cons, write_item_rest, <- !app_assoc in H2. cbn [app] in H2. destruct Hst as [Ht Hb].
    destruct (fresh_indents l2 st d (d + 2) "-"%char _ H2 ltac:(right; by right) Ht ltac:(lia)) as (l3 & E3 & H3 & Hl3).
    eapply emits_cons; [exact E3|done|].
    apply (emits_items (d + 2) v vs l3 l3 (Z.of_nat (d + 2) :: st) r); try done.
    + by apply levels_push.
    + eapply follows_le; [done|lia].
    + intros l' Hf'. eapply emits_pop; [exact Hf'|done|done|lia|done|]. apply Hts. by eapply fresh_with_stack.
Qed.

Lemma chars_write kvs : chars (write_document kvs) = kvs ≫= write_entry 0.
Proof. apply String.list_ascii_of_string_of_list_ascii. Qed.

(** The lexer finds the tokens of a document in its text. *)
Lemma tokenize_document kvs :
  kvs <> [] -> entries_writable kvs ->
  Tokenize (write_document kvs) = Tokens ((kvs ≫= entry_tokens 0) ++ [eof]).
Proof.
  intros Hne Hw. pose proof (tokenize_ends (write_document kvs)) as Ht. unfold Tokenize in *.
  fold (chars (write_document kvs)) in *. rewrite chars_write in *.
  apply emits_tokenize; [|by intros E; rewrite E in Ht; destruct Ht as [(? & ? & ? & _)|[? _]]]. clear Ht.
  destruct kvs as [|[k v] kvs]; [done|]. set (s := ((k, v) :: kvs) ≫= write_entry 0).
  assert (Hs : s = text k ++ ":"%char :: write_value 0 v ++ (kvs ≫= write_entry 0) ++ []).
  { unfold s. rewrite bind_cons, app_nil_r. unfold write_entry at 1. cbn [fst snd spaces replicate app].
    by rewrite <- app_assoc. }
  assert (Hm : mid (NewLexer s) [0] s) by (split; [by split|done]).
  destruct (text_first k) as (c & w & Hk & Hc).
  apply (emits_entries 0 k v kvs (NewLexer s) (NewLexer s) [0] []).
  - apply reads_all_values.
  - apply Forall_forall. intros kv _. apply reads_all_values.
  - done.
  - pose proof (mid_leads _ _ _ Hm) as Hl. rewrite (skip_none (NewLexer s) c (w ++ ":"%char :: write_value 0 v ++ (kvs ≫= write_entry 0) ++ [])) in Hl.
    + apply Hl. rewrite Hs, Hk. cbn. by apply starts_line.
    + change (s = c :: w ++ ":"%char :: write_value 0 v ++ (kvs ≫= write_entry 0) ++ []). by rewrite Hs, Hk.
    + apply blank_false. by left.
  - rewrite <- Hs. apply Hm.
  - done.
  - by left.
  - intros l' [[H1 H2 H3 H4 H5] Hcol]. eapply emits_eof; [|done].
    unfold NextToken. cbn [next_token]. rewrite H5.
    assert (Hch : ch l' = NUL) by (by rewrite ch_rest, H1). rewrite Hch. unfold at_line_start at 1. rewrite Hcol. cbn.
    assert (Hsk : skipWhitespace l' = l') by (unfold skipWhitespace, skip_while; rewrite H1; apply readChars_0).
    rewrite Hsk. unfold lex_token. by rewrite Hch, H3.
Qed.
