(* ===== verification/YamlReading.v ===== *)
(** * Reading written YAML

    The parser finds a document in the tokens of its text ([YamlRoundtrip] shows that these
    are what the lexer makes of it), so that reading undoes writing. *)
From S2P Require Import Prelude Http NetIP Bytes NetAddr YamlLexer YamlParser YamlRoundtrip.
From Stdlib Require Import Ascii.

(** ** Tokens between entries *)

(** What the loops of mappings and sequences pass. *)
Definition entry_gap (base : Z) (t : Token) : bool :=
  is_a [TokenNewline; TokenComment; TokenIndent] t || closes_inner base t.
Definition item_gap (base : Z) (t : Token) : bool := is_a [TokenNewline; TokenComment] t || closes_inner base t.

Definition column (d : nat) : Prop := Z.of_nat d < 2 ^ 63.

Lemma Atoi_column d : column d -> Atoi (Itoa (Z.of_nat d)) = Some (Z.of_nat d).
Proof. unfold column. intros H. apply Atoi_Itoa. unfold in_i64. lia. Qed.

Lemma pass_ind d i : column d -> pass (ind d) i = Z.of_nat d.
Proof. intros H. unfold pass, ind. cbn. by rewrite Atoi_column. Qed.

Lemma pass_ded d i : column d -> pass (ded d) i = Z.of_nat d.
Proof. intros H. unfold pass, ded. cbn. by rewrite Atoi_column. Qed.

Lemma closes_ded base d : column d -> closes_inner base (ded d) = (base <=? Z.of_nat d).
Proof. intros H. unfold closes_inner, dedentLevel, ded. cbn [Type_ Value]. by rewrite Atoi_column. Qed.

Lemma skip_cons f t ts i : skip f (mkParser (t :: ts) i) = if f t then skip f (mkParser ts (pass t i)) else mkParser (t :: ts) i.
Proof. reflexivity. Qed.

(** What follows a block at column [e]: the next dash, the end of the block or of the input. *)
Definition stops (e : nat) (ts : list Token) : Prop :=
  match ts with
  | t :: _ => t = eof \/ t = dash \/ exists d, t = ded d /\ column d /\ (d < e)%nat
  | [] => False
  end.

Lemma stops_gap e ts i b : stops e ts -> Z.of_nat e <= b ->
  skip (entry_gap b) (mkParser ts i) = mkParser ts i /\ skip (item_gap b) (mkParser ts i) = mkParser ts i.
Proof.
  destruct ts as [|t ts]; [done|]. intros Hs Hb. rewrite !skip_cons. unfold entry_gap, item_gap.
  destruct Hs as [->|[->|(d & -> & Hd & He)]]; [done..|]. rewrite closes_ded by done.
  rewrite (proj2 (Z.leb_gt _ _)) by lia. done.
Qed.

Lemma stops_entry e ts i : stops e ts ->
  is_a [TokenString] (current (mkParser ts i)) && is_a [TokenColon] (YamlParser.peek (mkParser ts i)) = false.
Proof. destruct ts as [|t ts]; [done|]. by intros [->|[->|(d & -> & _)]]. Qed.

Lemma stops_ded d ts : column d -> stops (d + 2) (ded d :: ts).
Proof. intros H. right. right. exists d. split_and!; [done..|lia]. Qed.

(** After a value at column [d], with [ts] ahead: whatever is left of the value itself is
    passed by the loops around it. *)
Record settled (d : nat) (ts : list Token) (q : Parser) : Prop := {
  se_entry : forall b, b <= Z.of_nat d -> skip (entry_gap b) q = skip (entry_gap b) (mkParser ts (Z.of_nat d));
  se_item : forall b, b <= Z.of_nat d -> skip (item_gap b) q = skip (item_gap b) (mkParser ts (Z.of_nat d))
}.

Lemma settled_nl d ts : settled d ts (mkParser (nl :: ts) (Z.of_nat d)).
Proof. by split. Qed.

Lemma gap_ded d b : column d -> b <= Z.of_nat d -> entry_gap b (ded d) = true /\ item_gap b (ded d) = true.
Proof.
  intros Hd Hb. unfold entry_gap, item_gap. by rewrite closes_ded, (proj2 (Z.leb_le _ _)), !orb_true_r by done.
Qed.

Lemma settled_ded d ts i : column d -> settled d ts (mkParser (ded d :: ts) i).
Proof.
  intros Hd. split; intros b Hb; destruct (gap_ded d b Hd Hb) as [H1 H2]; rewrite skip_cons, ?H1, ?H2, pass_ded; done.
Qed.

(** ** Depth *)

Definition roomy (d : nat) (y : yaml) : Prop := Z.of_nat d + 2 * depth y < 2 ^ 63.

Lemma depth_nonneg y : 0 <= depth y.
Proof.
  assert (Hm : forall kvs, 0 <= foldr (fun (kv : string * yaml) m => Z.max (depth (snd kv)) m) 0 kvs)
    by (intros kvs; induction kvs; cbn; lia).
  assert (Hl : forall l, 0 <= foldr (fun v m => Z.max (depth v) m) 0 l) by (intros l; induction l; cbn; lia).
  destruct y; cbn [depth]; [lia|specialize (Hm kvs); lia|specialize (Hl l); lia].
Qed.

Lemma roomy_column d y : roomy d y -> column d.
Proof. unfold roomy, column. pose proof (depth_nonneg y). lia. Qed.

Lemma roomy_map d kvs : roomy d (YMap kvs) -> column (d + 2) \/ kvs = [].
Proof.
  unfold roomy, column. cbn [depth]. destruct kvs as [|kv kvs]; [by right|left].
  assert (0 <= foldr (fun (kv : string * yaml) m => Z.max (depth (snd kv)) m) 0 (kv :: kvs)) by (cbn; pose proof (depth_nonneg (snd kv)); lia).
  lia.
Qed.

Lemma roomy_entries d kvs : roomy d (YMap kvs) -> Forall (fun kv => roomy (d + 2) (snd kv)) kvs.
Proof.
  unfold roomy. cbn [depth]. intros H. rewrite Forall_forall. intros kv Hin.
  assert (depth (snd kv) <= foldr (fun kv m => Z.max (depth (snd kv)) m) 0 kvs); [|lia].
  clear H. induction kvs as [|kv' kvs IH]; [by apply elem_of_nil in Hin|]. cbn.
  apply elem_of_cons in Hin as [->|Hin]; [lia|]. specialize (IH Hin). lia.
Qed.

Lemma roomy_items d l : roomy d (YSeq l) -> Forall (roomy (d + 2)) l.
Proof.
  unfold roomy. cbn [depth]. intros H. rewrite Forall_forall. intros v Hin.
  assert (depth v <= foldr (fun v m => Z.max (depth v) m) 0 l); [|lia].
  clear H. induction l as [|v' l IH]; [by apply elem_of_nil in Hin|]. cbn.
  apply elem_of_cons in Hin as [->|Hin]; [lia|]. specialize (IH Hin). lia.
Qed.

(** ** Values *)

Definition parses_value (y : yaml) : Prop := forall d n ts,
  writable y -> roomy d y -> (2 * length (value_tokens d y ++ ts) + 3 <= n)%nat ->
  exists q, parseValueAfterColon n (mkParser (value_tokens d y ++ ts) (Z.of_nat d)) = POk (to_node y) q /\ settled d ts q.

Definition entry_node (kv : string * yaml) : Node := with_key (fst kv) (to_node (snd kv)).

Lemma after_colon_le n p v q : (2 * ahead p + 3 <= n)%nat -> parseValueAfterColon n p = POk v q -> (ahead q <= ahead p)%nat.
Proof.
  intros Hn E. destruct (value_within n) as (_ & _ & Hc & _). specialize (Hc p Hn). by rewrite E in Hc.
Qed.

Lemma parse_le n p v q : (2 * ahead p + 2 <= n)%nat -> parseValue n p = POk v q -> (ahead q <= ahead p)%nat.
Proof.
  intros Hn E. destruct (value_within n) as (Hv & _). specialize (Hv p Hn). by rewrite E in Hv.
Qed.

Lemma entry_ahead k ts i :
  let p := mkParser (str k :: colon :: ts) i in
  is_a [TokenString] (current p) && is_a [TokenColon] (YamlParser.peek p) = true /\
  advance (advance p) = mkParser ts i /\ Value (current p) = k.
Proof. done. Qed.

(** The loop over the entries at column [e] that are left, after a first one at column
    [base]. *)
Lemma parse_entries e base kvs acc n q ts :
  Forall (fun kv => parses_value (snd kv)) kvs -> entries_writable kvs -> Forall (fun kv => roomy e (snd kv)) kvs ->
  base <= Z.of_nat e ->
  skip (entry_gap base) q = skip (entry_gap base) (mkParser ((kvs ≫= entry_tokens e) ++ ts) (Z.of_nat e)) ->
  (let p := skip (entry_gap base) (mkParser ts (Z.of_nat e)) in
   is_a [TokenString] (current p) && is_a [TokenColon] (YamlParser.peek p) = false) ->
  (2 * ahead q + 1 <= n)%nat ->
  mapping_loop n base acc q = POk (Some (mapping (acc ++ (entry_node <$> kvs)))) (skip (entry_gap base) (mkParser ts (Z.of_nat e))).
Proof.
  revert acc n q. induction kvs as [|[k v] kvs IH]; intros acc n q Hv Hw Hr Hb Hq Hstop Hn;
    (destruct n as [|n]; [lia|]); cbn [mapping_loop]; fold (entry_gap base); pose proof (skip_le (entry_gap base) q) as Hle.
  - rewrite Hq. cbn [fmap list_fmap]. rewrite app_nil_r. change (([] ≫= entry_tokens e) ++ ts) with ts. by rewrite Hstop.
  - inversion Hv as [|? ? Hv1 Hv2]; subst. inversion Hw as [|? ? [Hk Hw1] Hw2]; subst. inversion Hr as [|? ? Hr1 Hr2]; subst.
    cbn [fst snd] in *. set (T := value_tokens e v ++ (kvs ≫= entry_tokens e) ++ ts) in *.
    assert (Hq1 : skip (entry_gap base) q = mkParser (str k :: colon :: T) (Z.of_nat e)).
    { rewrite Hq, bind_cons. unfold entry_tokens at 1. cbn [fst snd app]. by rewrite <- app_assoc. }
    rewrite Hq1 in *.
    destruct (entry_ahead k T (Z.of_nat e)) as (Ek & Ea & Ec). rewrite Ek, Ea, Ec.
    assert (HT : (length T + 2 <= ahead q)%nat) by (change (S (S (length T)) <= ahead q)%nat in Hle; lia).
    assert (Hn2 : (2 * length T + 3 <= n)%nat) by lia.
    destruct (Hv1 e n ((kvs ≫= entry_tokens e) ++ ts) Hw1 Hr1 Hn2) as (q' & E & Hs).
    fold T in E. rewrite E. cbn [bind].
    pose proof (after_colon_le n (mkParser T (Z.of_nat e)) _ _ ltac:(unfold ahead; cbn [rest]; lia) E) as Hq'.
    change (ahead (mkParser T (Z.of_nat e))) with (length T) in Hq'.
    rewrite (IH (acc ++ [with_key k (to_node v)]) n q' Hv2 Hw2 Hr2 Hb) by (done || by apply se_entry || lia).
    by rewrite <- app_assoc.
Qed.

(** The tokens of a block from its first key or dash on. *)
Definition content_tokens (e : nat) (y : yaml) : list Token :=
  match y with
  | YScalar s => [str s]
  | YMap kvs => kvs ≫= entry_tokens e
  | YSeq l => l ≫= item_tokens e
  end.
Definition is_block (y : yaml) : Prop := match y with YScalar _ => False | _ => True end.

(** The end of a block at column [e]. *)
Definition ends (e : nat) (ts : list Token) : Prop :=
  match ts with
  | t :: _ => t = eof \/ exists d, t = ded d /\ column d /\ (d < e)%nat
  | [] => False
  end.

Lemma ends_stops e ts : ends e ts -> stops e ts.
Proof. destruct ts as [|t ts]; [done|]. cbn. tauto. Qed.

Lemma ends_ded d ts : column d -> ends (d + 2) (ded d :: ts).
Proof. intros H. right. exists d. split_and!; [done..|lia]. Qed.

Definition parses_block (y : yaml) : Prop := forall d n ts,
  is_block y -> writable y -> roomy d y -> ends (d + 2) ts ->
  (2 * length (content_tokens (d + 2) y ++ ts) + 2 <= n)%nat ->
  parseValue n (mkParser (content_tokens (d + 2) y ++ ts) (Z.of_nat (d + 2))) =
  POk (Some (to_node y)) (mkParser ts (Z.of_nat (d + 2))).

(** A mapping from its first key on. *)
Lemma parse_mapping e k v kvs n q ts :
  parses_value v -> Forall (fun kv => parses_value (snd kv)) kvs -> entries_writable ((k, v) :: kvs) ->
  Forall (fun kv => roomy e (snd kv)) ((k, v) :: kvs) -> 
  q = mkParser (str k :: colon :: value_tokens e v ++ (kvs ≫= entry_tokens e) ++ ts) (Z.of_nat e) ->
  stops e ts -> (2 * ahead q + 2 <= n)%nat ->
  parseValue n q = POk (Some (to_node (YMap ((k, v) :: kvs)))) (mkParser ts (Z.of_nat e)).
Proof.
  intros Hv Hkvs Hw Hr -> Hs Hn. inversion Hw as [|? ? [Hk Hw1] Hw2]; subst. inversion Hr as [|? ? Hr1 Hr2]; subst.
  cbn [fst snd] in *. set (T := value_tokens e v ++ (kvs ≫= entry_tokens e) ++ ts) in *.
  change (2 * S (S (length T)) + 2 <= n)%nat in Hn. destruct n as [|n]; [lia|].
  assert (Hn2 : (2 * length T + 3 <= n)%nat) by lia.
  destruct (Hv e n ((kvs ≫= entry_tokens e) ++ ts) Hw1 Hr1 Hn2) as (q' & E & Hq). fold T in E.
  assert (Hp : parseValue (S n) (mkParser (str k :: colon :: T) (Z.of_nat e)) =
    bind (parseValueAfterColon n (mkParser T (Z.of_nat e))) (fun val p => mapping_loop n (Z.of_nat e) [with_key k val] p)) by reflexivity.
  rewrite Hp, E. cbn [bind].
  pose proof (after_colon_le n (mkParser T (Z.of_nat e)) _ _ Hn2 E) as Hle.
  change (ahead (mkParser T (Z.of_nat e))) with (length T) in Hle.
  destruct (stops_gap e ts (Z.of_nat e) (Z.of_nat e) Hs (Z.le_refl _)) as [Hg _].
  rewrite (parse_entries e (Z.of_nat e) kvs _ n q' ts); try done.
  - by rewrite Hg.
  - by apply se_entry.
  - rewrite Hg. by apply stops_entry with e.
  - lia.
Qed.

(** What an item needs of its value. *)
Definition parses_item (v : yaml) : Prop := forall e n ts,
  writable v -> roomy e v -> stops e ts -> (2 * length (rest_tokens e v ++ ts) + 2 <= n)%nat ->
  exists q, parseValue n (mkParser (rest_tokens e v ++ ts) (Z.of_nat e)) = POk (Some (to_node v)) q /\
    skip (item_gap (Z.of_nat e)) q = mkParser ts (Z.of_nat e).

Lemma stops_items e vs ts : stops e ts -> stops e ((vs ≫= item_tokens e) ++ ts).
Proof. destruct vs as [|v vs]; [done|]. intros _. right. by left. Qed.

Lemma rest_tokens_first e v : exists t w, rest_tokens e v = t :: w /\ is_a [TokenIndent] t = false.
Proof. destruct v as [s|[|[k [s| |]] kvs]|l]; by eexists _, _. Qed.

Lemma parse_items e vs acc n q ts :
  Forall parses_item vs -> Forall writable vs -> Forall (roomy e) vs -> ends e ts ->
  skip (item_gap (Z.of_nat e)) q = mkParser ((vs ≫= item_tokens e) ++ ts) (Z.of_nat e) ->
  (2 * ahead q + 1 <= n)%nat ->
  sequence_loop n (Z.of_nat e) acc q = POk (Some (sequence (acc ++ (to_node <$> vs)))) (mkParser ts (Z.of_nat e)).
Proof.
  revert acc n q. induction vs as [|v vs IH]; intros acc n q Hv Hw Hr Hs Hq Hn;
    (destruct n as [|n]; [lia|]); cbn [sequence_loop]; fold (item_gap (Z.of_nat e));
    pose proof (skip_le (item_gap (Z.of_nat e)) q) as Hle; rewrite Hq in *.
  - cbn [fmap list_fmap]. rewrite app_nil_r. change (([] ≫= item_tokens e) ++ ts) with ts.
    destruct ts as [|t ts]; [done|]. by destruct Hs as [->|(d & -> & _)].
  - inversion Hv as [|? ? Hv1 Hv2]; subst. inversion Hw as [|? ? Hw1 Hw2]; subst. inversion Hr as [|? ? Hr1 Hr2]; subst.
    set (R := (vs ≫= item_tokens e) ++ ts) in *.
    assert (HR : ((v :: vs) ≫= item_tokens e) ++ ts = dash :: rest_tokens e v ++ R)
      by (rewrite bind_cons, item_tokens_rest, <- app_assoc; done).
    rewrite HR in *. change (S (length (rest_tokens e v ++ R)) <= ahead q)%nat in Hle.
    assert (Hd : skip (is_a [TokenIndent]) (advance (mkParser (dash :: rest_tokens e v ++ R) (Z.of_nat e))) =
                 mkParser (rest_tokens e v ++ R) (Z.of_nat e)).
    { destruct (rest_tokens_first e v) as (t & w & -> & Ht). cbn [advance rest app]. rewrite skip_cons. cbn [indent pass]. by rewrite Ht. }
    change (is_a [TokenDash] (current (mkParser (dash :: _) _))) with true. cbv iota. rewrite Hd.
    assert (HsR : stops e R) by (by apply stops_items, ends_stops).
    destruct (Hv1 e n R Hw1 Hr1 HsR ltac:(lia)) as (q' & E & Hq'). rewrite E. cbn [bind option_list].
    assert (Hn2 : (2 * length (rest_tokens e v ++ R) + 2 <= n)%nat) by lia.
    pose proof (parse_le n (mkParser (rest_tokens e v ++ R) (Z.of_nat e)) (Some (to_node v)) q' Hn2 E) as Hq2.
    change (ahead q' <= length (rest_tokens e v ++ R))%nat in Hq2. rewrite (IH _ n q' Hv2 Hw2 Hr2 Hs Hq') by lia. by rewrite <- app_assoc.
Qed.

(** A block is parsed when its parts are. *)
Lemma block_map kvs : Forall (fun kv => parses_value (snd kv)) kvs -> parses_block (YMap kvs).
Proof.
  intros Hkvs d n ts _ Hw Hr Hs Hn. apply writable_map in Hw as [Hne Hw]. destruct kvs as [|[k v] kvs]; [done|].
  inversion Hkvs as [|? ? Hv Hkvs']; subst. pose proof (roomy_entries _ _ Hr) as He.
  assert (E : content_tokens (d + 2) (YMap ((k, v) :: kvs)) ++ ts =
    str k :: colon :: value_tokens (d + 2) v ++ (kvs ≫= entry_tokens (d + 2)) ++ ts).
  { cbn [content_tokens]. rewrite bind_cons. unfold entry_tokens at 1. cbn [fst snd app]. by rewrite <- app_assoc. }
  rewrite E in *. eapply parse_mapping; try done. by apply ends_stops.
Qed.

Lemma block_seq vs : Forall parses_item vs -> parses_block (YSeq vs).
Proof.
  intros Hvs d n ts _ Hw Hr Hs Hn. apply writable_seq in Hw as [Hne Hw]. destruct n as [|n]; [lia|].
  destruct vs as [|v vs]; [done|]. cbn [content_tokens] in *.
  assert (E : exists w, ((v :: vs) ≫= item_tokens (d + 2)) ++ ts = dash :: w) by (rewrite bind_cons, item_tokens_rest; by eexists).
  destruct E as [w E].
  assert (Hp : parseValue (S n) (mkParser (dash :: w) (Z.of_nat (d + 2))) =
    sequence_loop n (Z.of_nat (d + 2)) [] (mkParser (dash :: w) (Z.of_nat (d + 2)))) by reflexivity.
  rewrite E in *. rewrite Hp. rewrite (parse_items (d + 2) (v :: vs) [] n _ ts Hvs Hw (roomy_items _ _ Hr) Hs).
  - done.
  - rewrite E. reflexivity.
  - unfold ahead. cbn [rest]. lia.
Qed.

Lemma value_tokens_block d y : is_block y ->
  value_tokens d y = nl :: ind (d + 2) :: content_tokens (d + 2) y ++ [ded d].
Proof. destruct y; [done|..]; intros _; [apply value_tokens_map|apply value_tokens_seq]. Qed.

Lemma content_first e y : is_block y -> writable y -> exists t w, content_tokens e y = t :: w /\ (t = dash \/ exists k, t = str k).
Proof.
  destruct y as [s|kvs|l]; [done|..]; intros _ Hw; cbn [content_tokens].
  - apply writable_map in Hw as [Hne _]. destruct kvs as [|[k v] kvs]; [done|]. rewrite bind_cons. eexists _, _.
    split; [reflexivity|]. right. by exists k.
  - apply writable_seq in Hw as [Hne _]. destruct l as [|v l]; [done|]. rewrite bind_cons. eexists _, _. split; [reflexivity|]. by left.
Qed.

Lemma roomy_deeper d y : is_block y -> writable y -> roomy d y -> column (d + 2).
Proof.
  destruct y as [s|kvs|l]; [done|..]; intros _ Hw Hr.
  - apply writable_map in Hw as [Hne _]. destruct (roomy_map _ _ Hr); done.
  - apply writable_seq in Hw as [Hne _]. destruct l as [|v l]; [done|].
    pose proof (roomy_items _ _ Hr) as Hi. inversion Hi; subst. by eapply roomy_column.
Qed.

Lemma value_scalar s : parses_value (YScalar s).
Proof.
  intros d n ts Hw Hr Hn. cbn [value_tokens app length] in *. destruct n as [|[|n]]; [lia|lia|].
  eexists. split; [reflexivity|]. apply settled_nl.
Qed.

Lemma value_block y : is_block y -> parses_block y -> parses_value y.
Proof.
  intros Hb Hy d n ts Hw Hr Hn. pose proof (roomy_deeper _ _ Hb Hw Hr) as Hc. pose proof (roomy_column _ _ Hr) as Hd.
  rewrite value_tokens_block in * by done. cbn [app] in *. rewrite <- app_assoc in *. cbn [app] in *.
  destruct (content_first (d + 2) y Hb Hw) as (t & w & E & Ht). set (C := content_tokens (d + 2) y ++ ded d :: ts) in *.
  destruct n as [|n]; [cbn in Hn; lia|]. cbn [length] in Hn.
  assert (EC : C = t :: w ++ ded d :: ts) by (unfold C; by rewrite E).
  assert (Hp : parseValueAfterColon (S n) (mkParser (nl :: ind (d + 2) :: C) (Z.of_nat d)) =
    bind (parseValue n (mkParser C (pass (ind (d + 2)) (Z.of_nat d)))) (fun v p => POk (default (scalar "") v) p)).
  { rewrite EC. destruct Ht as [-> |[k ->]]; reflexivity. }
  rewrite Hp, pass_ind by done. unfold C. rewrite Hy; try done; [|by apply ends_ded|unfold C in Hn; lia].
  eexists. split; [reflexivity|]. by apply settled_ded.
Qed.

(** A block as an item, below the dash. *)
Lemma item_block v : is_block v -> (forall e, rest_tokens e v = value_tokens e v) -> parses_block v -> parses_item v.
Proof.
  intros Hb Er Hy e n ts Hw Hr Hs Hn. pose proof (roomy_deeper _ _ Hb Hw Hr) as Hc. pose proof (roomy_column _ _ Hr) as He.
  rewrite Er, value_tokens_block in * by done. cbn [app] in *. rewrite <- app_assoc in *. cbn [app length] in *.
  set (C := content_tokens (e + 2) v ++ ded e :: ts) in *. destruct n as [|[|n]]; [lia|lia|].
  assert (Hp : parseValue (S (S n)) (mkParser (nl :: ind (e + 2) :: C) (Z.of_nat e)) =
    parseValue n (mkParser C (pass (ind (e + 2)) (Z.of_nat e)))) by reflexivity.
  rewrite Hp, pass_ind by done. unfold C. rewrite Hy; try done; [|by apply ends_ded|unfold C in Hn; lia].
  eexists. split; [reflexivity|]. rewrite skip_cons. destruct (gap_ded e (Z.of_nat e) He (Z.le_refl _)) as [_ ->].
  rewrite pass_ded by done. by eapply stops_gap; [|apply Z.le_refl].
Qed.

Lemma item_scalar s : parses_item (YScalar s).
Proof.
  intros e n ts Hw Hr Hs Hn. cbn [rest_tokens value_tokens app length] in *. destruct n as [|n]; [lia|].
  exists (mkParser (nl :: ts) (Z.of_nat e)). split; [reflexivity|]. rewrite skip_cons. change (item_gap (Z.of_nat e) nl) with true. cbv iota. by eapply stops_gap; [|apply Z.le_refl].
Qed.

(** A mapping whose first entry is on the line of the dash. *)
Lemma item_compact k s kvs :
  Forall (fun kv => parses_value (snd kv)) kvs -> parses_item (YMap ((k, YScalar s) :: kvs)).
Proof.
  intros Hkvs e n ts Hw Hr Hs Hn. apply writable_map in Hw as [_ Hw]. inversion Hw as [|? ? _ Hw']; subst.
  pose proof (roomy_column _ _ Hr) as He. pose proof (roomy_entries _ _ Hr) as Hre. inversion Hre as [|? ? Hr0 Hre']; subst.
  cbn [rest_tokens app length] in *. set (T := nl :: block_tokens e kvs ++ ts) in *.
  assert (HnT : (2 * length T + 5 <= n)%nat) by (unfold T; cbn [length]; lia). destruct n as [|[|[|n]]]; [lia..|].
  assert (Hp : parseValue (S (S (S n))) (mkParser (str k :: colon :: str s :: T) (Z.of_nat e)) =
    mapping_loop (S (S n)) (Z.of_nat e) [with_key k (scalar s)] (mkParser T (Z.of_nat e))) by reflexivity.
  rewrite Hp. exists (mkParser ts (Z.of_nat e)). split; [|by eapply stops_gap; [|apply Z.le_refl]].
  assert (Hstop : skip (entry_gap (Z.of_nat e)) (mkParser ts (Z.of_nat e)) = mkParser ts (Z.of_nat e)) by (by eapply stops_gap; [|apply Z.le_refl]).
  destruct kvs as [|kv kvs].
  - rewrite (parse_entries e (Z.of_nat e) [] _ _ _ ts); try done; rewrite ?Hstop; try done.
    + by apply stops_entry with e.
    + change (2 * length T + 1 <= S (S n))%nat. lia.
  - destruct (gap_ded e (Z.of_nat e) He (Z.le_refl _)) as [Hg _].
    assert (Hafter : skip (entry_gap (Z.of_nat e)) (mkParser (ded e :: ts) (Z.of_nat (e + 2))) = mkParser ts (Z.of_nat e)).
    { rewrite skip_cons, Hg, pass_ded by done. exact Hstop. }
    assert (Hc : column (e + 2)) by (inversion Hre'; subst; by eapply roomy_column).
    rewrite (parse_entries (e + 2) (Z.of_nat e) (kv :: kvs) _ _ _ (ded e :: ts)); try done; rewrite ?Hafter; try done.
    + lia.
    + unfold T. rewrite skip_cons. change (entry_gap (Z.of_nat e) nl) with true. cbv iota. unfold block_tokens.
      cbn [app]. rewrite skip_cons. change (entry_gap (Z.of_nat e) (ind (e + 2))) with true. cbv iota.
      rewrite pass_ind, <- app_assoc by done. done.
    + by apply stops_entry with e.
    + change (2 * length T + 1 <= S (S n))%nat. lia.
Qed.

Lemma parses_all y : parses_value y /\ parses_item y /\ (forall kvs, y = YMap kvs -> Forall (fun kv => parses_value (snd kv)) kvs).
Proof.
  induction y as [s|kvs IH|vs IH] using yaml_induction.
  - split_and!; [apply value_scalar|apply item_scalar|done].
  - assert (Hkvs : Forall (fun kv => parses_value (snd kv)) kvs) by (eapply Forall_impl; [exact IH|]; by intros kv [H _]).
    pose proof (block_map kvs Hkvs) as Hb. split_and!; [by apply value_block| |by intros ? [= <-]].
    destruct kvs as [|[k [s| |]] kvs]; try (by apply item_block).
    apply item_compact. by inversion Hkvs.
  - assert (Hvs : Forall parses_item vs) by (eapply Forall_impl; [exact IH|]; by intros v (_ & H & _)).
    pose proof (block_seq vs Hvs) as Hb. split_and!; [by apply value_block|by apply item_block|done].
Qed.

Lemma parse_document kvs :
  writable (YMap kvs) -> 2 * depth (YMap kvs) < 2 ^ 63 ->
  exists p, parse_tokens ((kvs ≫= entry_tokens 0) ++ [eof]) =
    POk (mkNode NodeDocument "" "" "" [to_node (YMap kvs)] "") p.
Proof.
  intros Hw Hdepth. pose proof Hw as [Hne Hw']%writable_map. destruct kvs as [|[k v] kvs]; [done|].
  assert (Hr : Forall (fun kv => roomy 0 (snd kv)) ((k, v) :: kvs)).
  { pose proof (roomy_entries 0 ((k, v) :: kvs)) as H. unfold roomy in *.
    eapply Forall_impl; [apply H; lia|]. cbn. intros kv. lia. }
  set (T := value_tokens 0 v ++ (kvs ≫= entry_tokens 0) ++ [eof]).
  assert (ET : (((k, v) :: kvs) ≫= entry_tokens 0) ++ [eof] = str k :: colon :: T).
  { rewrite bind_cons. unfold entry_tokens at 1. cbn [fst snd app]. by rewrite <- app_assoc. }
  rewrite ET. unfold parse_tokens, parseDocument. set (fuel := (2 * length (str k :: colon :: T) + 3)%nat).
  change (skip (is_a [TokenNewline; TokenComment; TokenIndent]) (NewParser (str k :: colon :: T)))
    with (mkParser (str k :: colon :: T) 0).
  assert (E : parseValue fuel (mkParser (str k :: colon :: T) 0) = POk (Some (to_node (YMap ((k, v) :: kvs)))) (mkParser [eof] 0)).
  { apply (parse_mapping 0 k v kvs fuel _ [eof]); try done; [apply parses_all| |by left|].
    - apply Forall_forall. intros kv _. apply parses_all.
    - unfold fuel, ahead. cbn [rest]. lia. }
  rewrite E. cbn [bind]. set (m := to_node (YMap ((k, v) :: kvs))). change (n_Type m) with NodeMapping.
  rewrite bool_decide_true by done. assert (Ef : exists f, fuel = S f) by (unfold fuel; eexists; rewrite Nat.add_comm; reflexivity).
  destruct Ef as [f ->]. by eexists.
Qed.


