(* ===== verification/Config.v ===== *)
(** * Configuration and its validation: [internal/config/config.go], [loader.go]

    The configuration as the decoders produce it, [Validate] and the defaults of the loader.
    A record keeps the fields that validation, the defaults and the engine read.  Pointers
    that may be nil are options.  An error of [Validate] is its message without the
    formatted arguments. *)
From S2P Require Import Prelude GoFloat Http NetIP GoTime.
From Stdlib Require Import Ascii.

(** ** The sections *)

Record ListenerTLS := mkListenerTLS { lt_Enabled : bool; lt_CertFile : string; lt_KeyFile : string }.
Record MTLSConfig := mkMTLS { mt_Enabled : bool; mt_ClientAuth : string; mt_ClientCAs : list string }.

(** [r_Middleware] is the number of per-route middleware entries. *)
Record RouteConfig := mkRouteConfig {
  r_Name : string; r_Path : string; r_Host : string; r_Methods : list string; r_Pool : string;
  r_Middleware : nat
}.

Record Listener := mkListener {
  l_Name : string; l_Address : string; l_Protocol : string; l_TLS : option ListenerTLS;
  l_Routes : list RouteConfig; l_MTLS : option MTLSConfig; l_Pool : string
}.

Definition IsTLS (l : Listener) : bool :=
  bool_decide (l_Protocol l = "https") || match l_TLS l with Some t => lt_Enabled t | None => false end.

Record HealthCheck := mkHealthCheck {
  hc_Type : string; hc_Path : string; hc_Interval : string; hc_Timeout : string; hc_Command : string;
  hc_Args : list string; hc_GRPCTLSSkipVerify : bool; hc_HealthyThreshold : Z; hc_UnhealthyThreshold : Z
}.

Record PoolDiscovery := mkDiscovery {
  d_Provider : string; d_Refresh : string; d_Options : gmap string string; d_Tags : list string
}.

Record BackendConfig := mkBackendConfig { b_ID : string; b_Address : string; b_Weight : Z; b_Scheme : string }.

Record PoolConfig := mkPoolConfig {
  p_Name : string; p_Algorithm : string; p_HealthCheck : option HealthCheck;
  p_Backends : list BackendConfig; p_Discovery : option PoolDiscovery
}.

Record ACME := mkACME { a_Enabled : bool; a_Email : string; a_Domains : list string }.
Record TLSConfig := mkTLS { t_CertFile : string; t_KeyFile : string; t_ACME : option ACME }.

Record Admin := mkAdmin {
  ad_Address : string; ad_Enabled : option bool; ad_RateLimitMaxRequests : Z; ad_RateLimitWindow : string
}.
Record Logging := mkLogging { lg_Level : string; lg_Format : string; lg_Output : string }.
Record Metrics := mkMetrics { me_Enabled : option bool; me_Path : string }.

Definition Admin_IsEnabled (a : option Admin) : bool :=
  match a with Some a => default true (ad_Enabled a) | None => true end.
Definition Metrics_IsEnabled (m : option Metrics) : bool :=
  match m with Some m => default true (me_Enabled m) | None => true end.

Record ClusterConfig := mkCluster {
  c_Enabled : bool; c_NodeID : string; c_BindAddr : string; c_BindPort : Z; c_Peers : list string;
  c_ElectionTick : string; c_HeartbeatTick : string
}.

Record ServerConfig := mkServer {
  s_MaxConnections : Z; s_MaxConnectionsPerSource : Z; s_ProxyTimeout : string; s_DialTimeout : string;
  s_MaxRetries : Z; s_DrainTimeout : string; s_ShutdownTimeout : string; s_ListenerStopTimeout : string;
  s_ProxyDrainWindow : string; s_RollbackCheckInterval : string; s_RollbackMonitorDuration : string
}.

Record ProfilingConfig := mkProfiling {
  pf_Enabled : bool; pf_PprofAddr : string; pf_BlockProfileRate : Z; pf_MutexProfileFraction : Z
}.

Record GeoDNSRule := mkGeoRule { g_ID : string; g_Country : string; g_Pool : string }.
Record GeoDNSConfig := mkGeoDNS { gd_Enabled : bool; gd_DBPath : string; gd_Rules : list GeoDNSRule }.

Record ShadowTarget := mkShadowTarget { st_Pool : string; st_Percentage : float64 }.
Record ShadowConfig := mkShadow { sh_Enabled : bool; sh_Targets : list ShadowTarget; sh_Timeout : string }.

Record WAFRateLimitRule := mkWAFRule { w_ID : string; w_Window : string; w_Action : string }.
(** [wr_Store] is the type of the store, if one is configured. *)
Record WAFRateLimitConfig := mkWAFRateLimit { wr_Store : option string; wr_Rules : list WAFRateLimitRule }.
(** [wd_Exclusions] are the conditions of the exclusions. *)
Record WAFDetectionConfig := mkWAFDetection { wd_Mode : string; wd_Exclusions : list string }.
Record WAFConfig := mkWAF {
  waf_Enabled : bool; waf_Mode : string; waf_Detection : option WAFDetectionConfig;
  waf_RateLimit : option WAFRateLimitConfig
}.

Record JWTConfig := mkJWT { j_Enabled : bool; j_Secret : string; j_PublicKey : string; j_Algorithm : string }.
Record BasicAuthConfig := mkBasicAuth { ba_Enabled : bool; ba_Users : gmap string string }.
Record OAuth2Config := mkOAuth2 { o_Enabled : bool; o_IssuerURL : string; o_JwksURL : string; o_ClientID : string }.
Record HMACConfig := mkHMAC { h_Enabled : bool; h_Secret : string }.
Record APIKeyConfig := mkAPIKey { ak_Enabled : bool; ak_Keys : gmap string string }.
Record RateLimitConfig := mkRateLimit { rl_Enabled : bool; rl_RequestsPerSecond : float64 }.
Record CacheConfig := mkCache { ca_Enabled : bool; ca_DefaultTTL : string; ca_MaxSize : Z }.
Record TimeoutConfig := mkTimeout { to_Enabled : bool; to_Timeout : string }.
Record IPFilterConfig := mkIPFilter { if_Enabled : bool; if_AllowList : list string; if_DenyList : list string }.
Record CompressionConfig := mkCompression { co_Enabled : bool; co_Level : Z }.
Record CircuitBreakerConfig := mkCircuitBreaker {
  cb_Enabled : bool; cb_ErrorThreshold : Z; cb_ErrorRateThreshold : float64
}.
Record CoalesceConfig := mkCoalesce { cl_Enabled : bool; cl_TTL : string }.
Record RewriteConfig := mkRewrite { rw_Enabled : bool; rw_Patterns : list string }.
Record MaxBodySizeConfig := mkMaxBody { mb_Enabled : bool; mb_MaxSize : Z }.
Record TraceConfig := mkTrace { tr_Enabled : bool; tr_SampleRate : float64 }.
(** The actions of the rules. *)
Record BotDetectionConfig := mkBotDetection {
  bd_Action : string; bd_UserAgentRules : list string; bd_CustomHeaders : list string
}.

Record MiddlewareConfig := mkMiddleware {
  mw_JWT : option JWTConfig; mw_BasicAuth : option BasicAuthConfig; mw_OAuth2 : option OAuth2Config;
  mw_HMAC : option HMACConfig; mw_APIKey : option APIKeyConfig; mw_RateLimit : option RateLimitConfig;
  mw_Cache : option CacheConfig; mw_Timeout : option TimeoutConfig; mw_IPFilter : option IPFilterConfig;
  mw_Compression : option CompressionConfig; mw_CircuitBreaker : option CircuitBreakerConfig;
  mw_Coalesce : option CoalesceConfig; mw_Rewrite : option RewriteConfig;
  mw_MaxBodySize : option MaxBodySizeConfig; mw_Trace : option TraceConfig;
  mw_BotDetection : option BotDetectionConfig
}.

Record Config := mkConfig {
  Version : string; Listeners : list Listener; Pools : list PoolConfig; TLS : option TLSConfig;
  AdminSection : option Admin; LoggingSection : option Logging; MetricsSection : option Metrics;
  Cluster : option ClusterConfig; Middleware : option MiddlewareConfig; WAF : option WAFConfig;
  Profiling : option ProfilingConfig; GeoDNS : option GeoDNSConfig; Shadow : option ShadowConfig;
  Server : option ServerConfig
}.

(** ** Checks

    [None] is a pass.  [e ;? k] runs the checks [k] when [e] passes, like a sequence of
    early returns. *)
Declare Scope config_scope.
Definition orelse (e k : option string) : option string :=
  match e with Some m => Some m | None => k end.
Notation "e ;? k" := (orelse e k) (at level 60, right associativity) : config_scope.
Open Scope config_scope.

Definition fail_if (b : bool) (msg : string) : option string := if b then Some msg else None.

(** The checks of an optional section. *)
Definition on_section {A} (s : option A) (f : A -> option string) : option string :=
  match s with Some a => f a | None => None end.

(** A loop over a slice that stops at the first error. *)
Fixpoint each {A} (f : A -> option string) (l : list A) : option string :=
  match l with [] => None | x :: r => f x ;? each f r end.

Definition empty (s : string) : bool := bool_decide (s = "").
Definition one_of (s : string) (l : list string) : bool := existsb (fun x => bool_decide (x = s)) l.
Definition has_colon (s : string) : bool := has_char ":"%char s.
Definition negative (x : float64) : bool := f64_ltb x (S754_zero false).
Definition above (n : Z) (x : float64) : bool := f64_ltb (f64_of_Z n) x.

(** A duration that is present must parse. *)
Definition bad_duration (s : string) : bool :=
  negb (empty s) && match ParseDuration s with Some _ => false | None => true end.

(** [parseAddress] never fails. *)
Definition parseAddress (addr : string) : string * string :=
  if starts_with ":"%char addr then ("", tail addr)
  else match IndexByte ":"%char addr with
       | None => (addr, "")
       | Some i => (string_take i addr, string_drop (S i) addr)
       end.

Definition validateMiddleware (c : Config) : option string :=
  on_section (Middleware c) (fun m =>
    on_section (mw_JWT m) (fun j => if negb (j_Enabled j) then None else
      fail_if (empty (j_Secret j) && empty (j_PublicKey j)) "middleware.jwt: secret or public_key is required when enabled" ;?
      fail_if (negb (empty (j_Algorithm j)) && negb (one_of (j_Algorithm j) ["HS256"; "HS384"; "HS512"; "EdDSA"]))
        "middleware.jwt: unsupported algorithm") ;?
    on_section (mw_BasicAuth m) (fun b =>
      fail_if (ba_Enabled b && bool_decide (size (ba_Users b) = 0%nat))
        "middleware.basic_auth: at least one user is required when enabled") ;?
    on_section (mw_OAuth2 m) (fun o => if negb (o_Enabled o) then None else
      fail_if (empty (o_IssuerURL o) && empty (o_JwksURL o)) "middleware.oauth2: issuer_url or jwks_url is required when enabled" ;?
      fail_if (empty (o_ClientID o)) "middleware.oauth2: client_id is required when enabled") ;?
    on_section (mw_HMAC m) (fun h =>
      fail_if (h_Enabled h && empty (h_Secret h)) "middleware.hmac: secret is required when enabled") ;?
    on_section (mw_APIKey m) (fun a =>
      fail_if (ak_Enabled a && bool_decide (size (ak_Keys a) = 0%nat))
        "middleware.api_key: at least one key is required when enabled") ;?
    on_section (mw_RateLimit m) (fun r =>
      fail_if (rl_Enabled r && negative (rl_RequestsPerSecond r))
        "middleware.rate_limit: requests_per_second must be non-negative") ;?
    on_section (mw_Cache m) (fun ca => if negb (ca_Enabled ca) then None else
      fail_if (bad_duration (ca_DefaultTTL ca)) "middleware.cache: invalid default_ttl" ;?
      fail_if (ca_MaxSize ca <? 0) "middleware.cache: max_size must be non-negative") ;?
    on_section (mw_Timeout m) (fun t =>
      fail_if (to_Enabled t && bad_duration (to_Timeout t)) "middleware.timeout: invalid timeout") ;?
    on_section (mw_IPFilter m) (fun f =>
      fail_if (if_Enabled f && bool_decide (if_AllowList f = []) && bool_decide (if_DenyList f = []))
        "middleware.ip_filter: at least one of allow_list or deny_list is required when enabled") ;?
    on_section (mw_Compression m) (fun co =>
      fail_if (co_Enabled co && negb (co_Level co =? 0) && ((co_Level co <? -1) || (9 <? co_Level co)))
        "middleware.compression: level must be between -1 and 9") ;?
    on_section (mw_CircuitBreaker m) (fun cb => if negb (cb_Enabled cb) then None else
      fail_if (cb_ErrorThreshold cb <? 0) "middleware.circuit_breaker: error_threshold must be non-negative" ;?
      fail_if (negative (cb_ErrorRateThreshold cb) || above 1 (cb_ErrorRateThreshold cb))
        "middleware.circuit_breaker: error_rate_threshold must be between 0 and 1") ;?
    on_section (mw_Coalesce m) (fun cl =>
      fail_if (cl_Enabled cl && bad_duration (cl_TTL cl)) "middleware.coalesce: invalid ttl") ;?
    on_section (mw_Rewrite m) (fun rw => if negb (rw_Enabled rw) then None else
      each (fun pattern => fail_if (empty pattern) "middleware.rewrite: pattern is required") (rw_Patterns rw)) ;?
    on_section (mw_MaxBodySize m) (fun mb =>
      fail_if (mb_Enabled mb && (mb_MaxSize mb <? 0)) "middleware.max_body_size: max_size must be non-negative") ;?
    on_section (mw_Trace m) (fun tr =>
      fail_if (tr_Enabled tr && (negative (tr_SampleRate tr) || above 1 (tr_SampleRate tr)))
        "middleware.trace: sample_rate must be between 0 and 1")).

Definition validateServer (c : Config) : option string :=
  on_section (Server c) (fun s =>
    fail_if (bad_duration (s_ProxyTimeout s)) "server: invalid proxy_timeout" ;?
    fail_if (bad_duration (s_DialTimeout s)) "server: invalid dial_timeout" ;?
    fail_if (bad_duration (s_DrainTimeout s)) "server: invalid drain_timeout" ;?
    fail_if (bad_duration (s_ShutdownTimeout s)) "server: invalid shutdown_timeout" ;?
    fail_if (bad_duration (s_ListenerStopTimeout s)) "server: invalid listener_stop_timeout" ;?
    fail_if (bad_duration (s_ProxyDrainWindow s)) "server: invalid proxy_drain_window" ;?
    fail_if (bad_duration (s_RollbackCheckInterval s)) "server: invalid rollback_check_interval" ;?
    fail_if (bad_duration (s_RollbackMonitorDuration s)) "server: invalid rollback_monitor_duration" ;?
    fail_if (s_MaxConnections s <? 0) "server: max_connections must be non-negative" ;?
    fail_if (s_MaxConnectionsPerSource s <? 0) "server: max_connections_per_source must be non-negative" ;?
    fail_if (s_MaxRetries s <? 0) "server: max_retries must be non-negative").

Definition validateHealthCheck (p : PoolConfig) : option string :=
  on_section (p_HealthCheck p) (fun hc =>
    fail_if (negb (empty (hc_Type hc)) && negb (one_of (hc_Type hc) ["http"; "tcp"; "grpc"; "exec"]))
      "pool: invalid health_check type" ;?
    fail_if (bool_decide (hc_Type hc = "http") && empty (hc_Path hc)) "pool: health_check path is required for http type" ;?
    if negb (empty (hc_Interval hc)) then
      match ParseDuration (hc_Interval hc) with
      | None => Some "pool: invalid health_check interval"
      | Some interval =>
          if negb (empty (hc_Timeout hc)) then
            match ParseDuration (hc_Timeout hc) with
            | None => Some "pool: invalid health_check timeout"
            | Some timeout => fail_if (interval <=? timeout) "pool: health_check timeout must be less than interval"
            end
          else None
      end
    else fail_if (bad_duration (hc_Timeout hc)) "pool: invalid health_check timeout").

Definition validateAdmin (c : Config) : option string :=
  on_section (AdminSection c) (fun a =>
    fail_if (negb (empty (ad_Address a)) && negb (has_colon (ad_Address a))) "admin: invalid address: must contain port" ;?
    fail_if (ad_RateLimitMaxRequests a <? 0) "admin: rate_limit_max_requests must be non-negative" ;?
    fail_if (bad_duration (ad_RateLimitWindow a)) "admin: invalid rate_limit_window").

Definition throttles (action : string) : bool := bool_decide (action = "throttle").

Definition validateBotDetection (c : Config) : option string :=
  on_section (Middleware c ≫= mw_BotDetection) (fun bd =>
    fail_if (throttles (bd_Action bd)) "middleware.bot_detection: action throttle is not implemented" ;?
    each (fun a => fail_if (throttles a) "middleware.bot_detection.user_agent_rules: action throttle is not implemented")
      (bd_UserAgentRules bd) ;?
    each (fun a => fail_if (throttles a) "middleware.bot_detection.custom_headers: action throttle is not implemented")
      (bd_CustomHeaders bd)).

Definition validateLogging (c : Config) : option string :=
  on_section (LoggingSection c) (fun l =>
    fail_if (negb (empty (lg_Level l)) && negb (one_of (lg_Level l) ["debug"; "info"; "warn"; "error"])) "logging: invalid level" ;?
    fail_if (negb (empty (lg_Format l)) && negb (one_of (lg_Format l) ["json"; "text"])) "logging: invalid format").

Definition validateCluster (c : Config) : option string :=
  on_section (Cluster c) (fun cl => if negb (c_Enabled cl) then None else
    fail_if ((c_BindPort cl <? 0) || (65535 <? c_BindPort cl)) "cluster: bind_port must be between 0 and 65535" ;?
    each (fun peer =>
      fail_if (empty peer) "cluster: peer: address is required" ;?
      fail_if (negb (has_colon peer)) "cluster: peer: invalid address: must be host:port") (c_Peers cl) ;?
    fail_if (bad_duration (c_ElectionTick cl)) "cluster: invalid election_tick" ;?
    fail_if (bad_duration (c_HeartbeatTick cl)) "cluster: invalid heartbeat_tick").

(** A certificate without its key, or the reverse. *)
Definition half_pair (cert key : string) : bool := negb (Bool.eqb (empty cert) (empty key)).

Definition validateTLS (c : Config) : option string :=
  on_section (TLS c) (fun t =>
    fail_if (half_pair (t_CertFile t) (t_KeyFile t)) "tls: cert_file and key_file must both be set or both be empty" ;?
    on_section (t_ACME t) (fun a => if negb (a_Enabled a) then None else
      fail_if (empty (a_Email a)) "tls.acme: email is required when enabled" ;?
      fail_if (bool_decide (a_Domains a = [])) "tls.acme: at least one domain is required when enabled")).

Definition validateWAF (c : Config) : option string :=
  on_section (WAF c) (fun w => if negb (waf_Enabled w) then None else
    fail_if (negb (empty (waf_Mode w)) && negb (one_of (waf_Mode w) ["enforce"; "blocking"; "block"; "monitor"; "disabled"]))
      "waf: invalid mode" ;?
    on_section (waf_Detection w) (fun d =>
      fail_if (negb (empty (wd_Mode d)) && negb (one_of (wd_Mode d) ["enforce"; "monitor"])) "waf.detection: invalid mode" ;?
      each (fun cond => fail_if (negb (one_of cond [""; "always"; "whitelist"])) "waf.detection.exclusions: invalid condition")
        (wd_Exclusions d)) ;?
    on_section (waf_RateLimit w) (fun r =>
      on_section (wr_Store r) (fun st =>
        fail_if (negb (one_of st [""; "memory"])) "waf.rate_limit.store: type is not supported") ;?
      each (fun rule =>
        fail_if (empty (w_ID rule)) "waf.rate_limit: rule: id is required" ;?
        fail_if (negb (one_of (w_Action rule) [""; "block"])) "waf.rate_limit: rule: action is not supported" ;?
        fail_if (bad_duration (w_Window rule)) "waf.rate_limit: rule: invalid window") (wr_Rules r))).

Definition validateProfiling (c : Config) : option string :=
  on_section (Profiling c) (fun p => if negb (pf_Enabled p) then None else
    fail_if (negb (empty (pf_PprofAddr p)) && negb (has_colon (pf_PprofAddr p))) "profiling: invalid pprof_addr: must contain port" ;?
    fail_if (pf_BlockProfileRate p <? 0) "profiling: block_profile_rate must be non-negative" ;?
    fail_if (pf_MutexProfileFraction p <? 0) "profiling: mutex_profile_fraction must be non-negative").

Definition validateGeoDNS (c : Config) : option string :=
  on_section (GeoDNS c) (fun g => if negb (gd_Enabled g) then None else
    fail_if (empty (gd_DBPath g)) "geodns: db_path is required when enabled" ;?
    each (fun rule => fail_if (empty (g_Pool rule)) "geodns: rule: pool is required") (gd_Rules g)).

Definition validateShadow (c : Config) : option string :=
  on_section (Shadow c) (fun s => if negb (sh_Enabled s) then None else
    fail_if (bool_decide (sh_Targets s = [])) "shadow: at least one target is required when enabled" ;?
    each (fun t =>
      fail_if (empty (st_Pool t)) "shadow: target: pool is required" ;?
      fail_if (negative (st_Percentage t) || above 100 (st_Percentage t)) "shadow: target: percentage must be between 0 and 100")
      (sh_Targets s) ;?
    fail_if (bad_duration (sh_Timeout s)) "shadow: invalid timeout").

(** ** [Validate] *)

Definition validate_route (r : RouteConfig) : option string :=
  fail_if (empty (r_Pool r)) "listener: route: pool is required" ;?
  fail_if (0 <? Z.of_nat (r_Middleware r)) "listener: route: per-route middleware is not supported yet".

(** The checks of one listener apart from the uniqueness of its name. *)
Definition validate_listener (l : Listener) : option string :=
  fail_if (empty (l_Address l)) "listener: address is required" ;?
  fail_if (negb (has_colon (l_Address l))) "listener: invalid address: must contain port" ;?
  fail_if (negb (empty (l_Protocol l)) && negb (one_of (l_Protocol l) ["http"; "https"; "tcp"; "udp"]))
    "listener: invalid protocol" ;?
  on_section (l_TLS l) (fun t =>
    fail_if (half_pair (lt_CertFile t) (lt_KeyFile t)) "listener: tls cert_file and key_file must both be set or both be empty") ;?
  on_section (l_MTLS l) (fun m =>
    fail_if (mt_Enabled m && bool_decide (mt_ClientCAs m = [])) "listener: mtls client_cas is required when mtls is enabled") ;?
  each validate_route (l_Routes l).

Fixpoint validate_listeners (seen : gset string) (ls : list Listener) : option string :=
  match ls with
  | [] => None
  | l :: rest =>
      fail_if (empty (l_Name l)) "listener: name is required" ;?
      fail_if (bool_decide (l_Name l ∈ seen)) "listener: duplicate name" ;?
      validate_listener l ;?
      validate_listeners ({[l_Name l]} ∪ seen) rest
  end.

Definition validate_backend (b : BackendConfig) : option string :=
  fail_if (empty (b_Address b)) "pool: backend: address is required" ;?
  fail_if (negb (has_colon (b_Address b))) "pool: backend: invalid address: must be host:port" ;?
  fail_if (b_Weight b <? 0) "pool: backend: weight must be non-negative".

Definition validate_discovery (d : PoolDiscovery) : option string :=
  fail_if (negb (one_of (d_Provider d) ["static"; "file"; "dns"; "consul"; "docker"])) "pool: discovery: unknown provider" ;?
  fail_if (negb (empty (d_Refresh d)) &&
           match ParseDuration (d_Refresh d) with Some dur => dur <? 1000000000 | None => true end)
    "pool: discovery: refresh must be a duration of at least 1s".

Definition validate_pool (p : PoolConfig) : option string :=
  each validate_backend (p_Backends p) ;?
  on_section (p_Discovery p) validate_discovery ;?
  validateHealthCheck p.

Fixpoint validate_pools (seen : gset string) (ps : list PoolConfig) : option string :=
  match ps with
  | [] => None
  | p :: rest =>
      fail_if (empty (p_Name p)) "pool: name is required" ;?
      fail_if (bool_decide (p_Name p ∈ seen)) "pool: duplicate name" ;?
      validate_pool p ;?
      validate_pools ({[p_Name p]} ∪ seen) rest
  end.

Definition pool_names (c : Config) : gset string := list_to_set (p_Name <$> Pools c).

(** The references of a listener to pools. *)
Definition validate_references (names : gset string) (l : Listener) : option string :=
  each (fun r => fail_if (negb (empty (r_Pool r)) && negb (bool_decide (r_Pool r ∈ names)))
          "listener: route references non-existent pool") (l_Routes l) ;?
  fail_if (negb (empty (l_Pool l)) && negb (bool_decide (l_Pool l ∈ names))) "listener: references non-existent pool".

Definition validate_sections (c : Config) : option string :=
  validateMiddleware c ;? validateServer c ;? validateAdmin c ;? validateBotDetection c ;? validateLogging c ;?
  validateCluster c ;? validateTLS c ;? validateWAF c ;? validateProfiling c ;? validateGeoDNS c ;? validateShadow c.

Definition set_version (v : string) (c : Config) : Config :=
  mkConfig v (Listeners c) (Pools c) (TLS c) (AdminSection c) (LoggingSection c) (MetricsSection c) (Cluster c)
    (Middleware c) (WAF c) (Profiling c) (GeoDNS c) (Shadow c) (Server c).

(** [Validate] also fills in a missing version. *)
Definition Validate (c : Config) : option string * Config :=
  let c := if empty (Version c) then set_version "1" c else c in
  (fail_if (bool_decide (Listeners c = [])) "at least one listener is required" ;?
   validate_listeners ∅ (Listeners c) ;?
   validate_pools ∅ (Pools c) ;?
   each (validate_references (pool_names c)) (Listeners c) ;?
   validate_sections c, c).

(** ** Defaults of the loader *)

Definition DefaultHealthCheck : HealthCheck := mkHealthCheck "http" "/health" "10s" "5s" "" [] false 0 0.

Definition default_listener (l : Listener) : Listener :=
  mkListener (l_Name l) (l_Address l) (if empty (l_Protocol l) then "http" else l_Protocol l) (l_TLS l)
    (l_Routes l) (l_MTLS l) (l_Pool l).

Definition default_backend (b : BackendConfig) : BackendConfig :=
  mkBackendConfig (b_ID b) (b_Address b) (if b_Weight b =? 0 then 100 else b_Weight b) (b_Scheme b).

Definition default_pool (p : PoolConfig) : PoolConfig :=
  mkPoolConfig (p_Name p) (if empty (p_Algorithm p) then "round_robin" else p_Algorithm p)
    (Some (default DefaultHealthCheck (p_HealthCheck p))) (default_backend <$> p_Backends p) (p_Discovery p).

Definition applyDefaults (c : Config) : Config :=
  mkConfig (if empty (Version c) then "1" else Version c) (default_listener <$> Listeners c)
    (default_pool <$> Pools c) (TLS c)
    (Some (default (mkAdmin "127.0.0.1:8080" (Some true) 0 "") (AdminSection c)))
    (Some (default (mkLogging "info" "json" "stdout") (LoggingSection c)))
    (Some (default (mkMetrics (Some true) "/metrics") (MetricsSection c)))
    (Cluster c) (Middleware c) (WAF c) (Profiling c) (GeoDNS c) (Shadow c) (Server c).
