(* ===== verification/ConfigFacts.v ===== *)
(** * What validation accepts

    [Validate] written as a sequence of early returns accepts exactly the configurations
    that satisfy a declarative list of rules. *)
From S2P Require Import Prelude GoFloat Http NetIP GoTime Config.
From Stdlib Require Import Ascii.

(** ** The combinators *)

Lemma orelse_None a b : orelse a b = None <-> a = None /\ b = None.
Proof. destruct a; simpl; naive_solver. Qed.

Lemma fail_if_None b m : fail_if b m = None <-> b = false.
Proof. destruct b; simpl; naive_solver. Qed.

Lemma on_section_None {A} (s : option A) f : on_section s f = None <-> forall a, s = Some a -> f a = None.
Proof. destruct s; simpl; naive_solver. Qed.

Lemma each_None {A} (f : A -> option string) l : each f l = None <-> forall x, x ∈ l -> f x = None.
Proof.
  induction l as [|x l IH]; simpl; [set_solver|]. rewrite orelse_None, IH. set_solver.
Qed.

Lemma one_of_true s l : one_of s l = true <-> s ∈ l.
Proof.
  unfold one_of. rewrite existsb_exists. split.
  - intros (x & Hx & E). b2p. subst. by apply list_elem_of_In.
  - intros Hs. exists s. split; [by apply list_elem_of_In|by apply bool_decide_eq_true].
Qed.

Lemma empty_true s : empty s = true <-> s = "".
Proof. apply bool_decide_eq_true. Qed.
Lemma empty_false s : empty s = false <-> s <> "".
Proof. apply bool_decide_eq_false. Qed.

Lemma has_colon_nonempty s : has_colon s = true -> s <> "".
Proof. by intros H ->. Qed.

(** ** The rules *)

(** A field that is empty or one of the listed words. *)
Definition word_of (s : string) (l : list string) : Prop := s = "" \/ s ∈ l.
Definition duration_ok (s : string) : Prop := s = "" \/ is_Some (ParseDuration s).

Definition route_valid (r : RouteConfig) : Prop := r_Pool r <> "" /\ r_Middleware r = 0%nat.

Record listener_valid (l : Listener) : Prop := {
  lv_address : has_colon (l_Address l) = true;
  lv_protocol : word_of (l_Protocol l) ["http"; "https"; "tcp"; "udp"];
  lv_tls : forall t, l_TLS l = Some t -> lt_CertFile t = "" <-> lt_KeyFile t = "";
  lv_mtls : forall m, l_MTLS l = Some m -> mt_Enabled m = true -> mt_ClientCAs m <> [];
  lv_routes : forall r, r ∈ l_Routes l -> route_valid r
}.

Definition backend_valid (b : BackendConfig) : Prop := has_colon (b_Address b) = true /\ 0 <= b_Weight b.

Definition discovery_valid (d : PoolDiscovery) : Prop :=
  d_Provider d ∈ ["static"; "file"; "dns"; "consul"; "docker"] /\
  (d_Refresh d = "" \/ exists t, ParseDuration (d_Refresh d) = Some t /\ 1000000000 <= t).

Record check_valid (hc : HealthCheck) : Prop := {
  cv_type : word_of (hc_Type hc) ["http"; "tcp"; "grpc"; "exec"];
  cv_path : hc_Type hc = "http" -> hc_Path hc <> "";
  cv_interval : duration_ok (hc_Interval hc);
  cv_timeout : duration_ok (hc_Timeout hc);
  cv_order : forall i t, hc_Interval hc <> "" -> hc_Timeout hc <> "" ->
    ParseDuration (hc_Interval hc) = Some i -> ParseDuration (hc_Timeout hc) = Some t -> t < i
}.

Record pool_valid (p : PoolConfig) : Prop := {
  pv_backends : forall b, b ∈ p_Backends p -> backend_valid b;
  pv_discovery : forall d, p_Discovery p = Some d -> discovery_valid d;
  pv_check : forall hc, p_HealthCheck p = Some hc -> check_valid hc
}.

Record valid (c : Config) : Prop := {
  v_listeners : Listeners c <> [];
  v_listener_names : NoDup (l_Name <$> Listeners c) /\ "" ∉ l_Name <$> Listeners c;
  v_listener : forall l, l ∈ Listeners c -> listener_valid l;
  v_pool_names : NoDup (p_Name <$> Pools c) /\ "" ∉ p_Name <$> Pools c;
  v_pool : forall p, p ∈ Pools c -> pool_valid p;
  v_routes : forall l r, l ∈ Listeners c -> r ∈ l_Routes l -> r_Pool r ∈ p_Name <$> Pools c;
  v_listener_pool : forall l, l ∈ Listeners c -> l_Pool l <> "" -> l_Pool l ∈ p_Name <$> Pools c;
  v_sections : validate_sections c = None
}.

(** ** Each check is its rule *)

Lemma bad_duration_false s : bad_duration s = false <-> duration_ok s.
Proof.
  unfold bad_duration, duration_ok. rewrite andb_false_iff, negb_false_iff, empty_true.
  destruct (ParseDuration s); naive_solver.
Qed.

Lemma word_check s l : negb (empty s) && negb (one_of s l) = false <-> word_of s l.
Proof. unfold word_of. rewrite andb_false_iff, !negb_false_iff, empty_true, one_of_true. done. Qed.

Lemma half_pair_false a b : half_pair a b = false <-> (a = "" <-> b = "").
Proof.
  unfold half_pair. rewrite negb_false_iff, eqb_true_iff, <- !empty_true.
  destruct (empty a), (empty b); naive_solver.
Qed.

Lemma validate_route_None r : validate_route r = None <-> route_valid r.
Proof.
  unfold validate_route, route_valid. rewrite orelse_None, !fail_if_None, empty_false, Z.ltb_ge.
  split; intros [? ?]; split; (done || lia).
Qed.

Lemma validate_listener_None l : validate_listener l = None <-> listener_valid l.
Proof.
  unfold validate_listener. rewrite !orelse_None, !on_section_None, each_None, !fail_if_None, word_check.
  setoid_rewrite fail_if_None. setoid_rewrite half_pair_false. setoid_rewrite validate_route_None.
  rewrite negb_false_iff. split.
  - intros (_ & Ha & Hp & Ht & Hm & Hr). split; try done.
    intros m E En. specialize (Hm m E). rewrite En in Hm. simpl in Hm. by b2p.
  - intros [Ha Hp Ht Hm Hr]. split_and!; try done; [by apply empty_false, has_colon_nonempty|].
    intros m E. destruct (mt_Enabled m) eqn:En; [|done]. apply bool_decide_eq_false. by apply Hm.
Qed.

Lemma validate_backend_None b : validate_backend b = None <-> backend_valid b.
Proof.
  unfold validate_backend, backend_valid. rewrite !orelse_None, !fail_if_None, negb_false_iff, Z.ltb_ge.
  split; [naive_solver|]. intros [Ha Hw]. split_and!; [by apply empty_false, has_colon_nonempty|done..].
Qed.

Lemma validate_discovery_None d : validate_discovery d = None <-> discovery_valid d.
Proof.
  unfold validate_discovery, discovery_valid.
  rewrite orelse_None, !fail_if_None, negb_false_iff, one_of_true, andb_false_iff, negb_false_iff, empty_true.
  destruct (ParseDuration (d_Refresh d)) as [t|].
  - rewrite Z.ltb_ge. naive_solver.
  - naive_solver.
Qed.

Lemma validateHealthCheck_None p :
  validateHealthCheck p = None <-> forall hc, p_HealthCheck p = Some hc -> check_valid hc.
Proof.
  unfold validateHealthCheck. rewrite on_section_None. apply forall_proper. intros hc.
  apply forall_proper. intros _. rewrite !orelse_None, !fail_if_None, word_check.
  assert (Hpath : bool_decide (hc_Type hc = "http") && empty (hc_Path hc) = false <->
                  (hc_Type hc = "http" -> hc_Path hc <> "")).
  { rewrite andb_false_iff, bool_decide_eq_false, empty_false. destruct (decide (hc_Type hc = "http")); naive_solver. }
  rewrite Hpath. clear Hpath.
  assert (Hdur : (if negb (empty (hc_Interval hc)) then
      match ParseDuration (hc_Interval hc) with
      | None => Some "pool: invalid health_check interval"
      | Some interval =>
          if negb (empty (hc_Timeout hc)) then
            match ParseDuration (hc_Timeout hc) with
            | None => Some "pool: invalid health_check timeout"
            | Some timeout => fail_if (interval <=? timeout) "pool: health_check timeout must be less than interval"
            end
          else None
      end
    else fail_if (bad_duration (hc_Timeout hc)) "pool: invalid health_check timeout") = None <->
    duration_ok (hc_Interval hc) /\ duration_ok (hc_Timeout hc) /\
    forall i t, hc_Interval hc <> "" -> hc_Timeout hc <> "" ->
      ParseDuration (hc_Interval hc) = Some i -> ParseDuration (hc_Timeout hc) = Some t -> t < i).
  { unfold duration_ok. destruct (empty (hc_Interval hc)) eqn:Ei; cbn [negb].
    - apply empty_true in Ei. rewrite fail_if_None, bad_duration_false. unfold duration_ok. naive_solver.
    - apply empty_false in Ei. destruct (ParseDuration (hc_Interval hc)) as [i|]; [|naive_solver].
      destruct (empty (hc_Timeout hc)) eqn:Et; cbn [negb].
      + apply empty_true in Et. naive_solver.
      + apply empty_false in Et. destruct (ParseDuration (hc_Timeout hc)) as [t|]; [|naive_solver].
        rewrite fail_if_None, Z.leb_gt. naive_solver. }
  rewrite Hdur. split; [intros (? & ? & ? & ? & ?); by split|by intros []].
Qed.

Lemma validate_pool_None p : validate_pool p = None <-> pool_valid p.
Proof.
  unfold validate_pool. rewrite !orelse_None, each_None, on_section_None, validateHealthCheck_None.
  setoid_rewrite validate_backend_None. setoid_rewrite validate_discovery_None.
  split; [intros (? & ? & ?); by split|by intros []].
Qed.

(** The loops over named entries: names are present and distinct. *)
Lemma validate_listeners_None seen ls :
  validate_listeners seen ls = None <->
  NoDup (l_Name <$> ls) /\ "" ∉ l_Name <$> ls /\ (forall n, n ∈ l_Name <$> ls -> n ∉ seen) /\
  forall l, l ∈ ls -> listener_valid l.
Proof.
  revert seen. induction ls as [|l ls IH]; intros seen; simpl.
  { split; [|done]. intros _. split_and!; [constructor|set_solver..]. }
  rewrite !orelse_None, !fail_if_None, empty_false, bool_decide_eq_false, validate_listener_None, IH, NoDup_cons.
  set_solver.
Qed.

Lemma validate_pools_None seen ps :
  validate_pools seen ps = None <->
  NoDup (p_Name <$> ps) /\ "" ∉ p_Name <$> ps /\ (forall n, n ∈ p_Name <$> ps -> n ∉ seen) /\
  forall p, p ∈ ps -> pool_valid p.
Proof.
  revert seen. induction ps as [|p ps IH]; intros seen; simpl.
  { split; [|done]. intros _. split_and!; [constructor|set_solver..]. }
  rewrite !orelse_None, !fail_if_None, empty_false, bool_decide_eq_false, validate_pool_None, IH, NoDup_cons.
  set_solver.
Qed.

Lemma in_set_true (n : string) l : bool_decide (n ∈ (list_to_set l : gset string)) = true <-> n ∈ l.
Proof. by rewrite bool_decide_eq_true, elem_of_list_to_set. Qed.

(** The rules of [Validate]: listeners and pools have distinct, non-empty names, addresses have a port, the health checks and
    discovery settings make sense, every route and listener refers to a configured pool,
    and the remaining sections pass. *)
Lemma Validate_valid c : fst (Validate c) = None <-> valid c.
Proof.
  unfold Validate. set (c' := if empty (Version c) then set_version "1" c else c). cbn [fst].
  assert (Hc : Listeners c' = Listeners c /\ Pools c' = Pools c /\ validate_sections c' = validate_sections c /\
               pool_names c' = pool_names c) by (unfold c'; by destruct (empty (Version c))).
  destruct Hc as (-> & -> & -> & ->).
  rewrite !orelse_None, fail_if_None, bool_decide_eq_false, validate_listeners_None, validate_pools_None, each_None.
  unfold validate_references, pool_names.
  assert (Href : forall l, (each (fun r => fail_if (negb (empty (r_Pool r)) &&
        negb (bool_decide (r_Pool r ∈ (list_to_set (p_Name <$> Pools c) : gset string))))
        "listener: route references non-existent pool") (l_Routes l) ;?
      fail_if (negb (empty (l_Pool l)) && negb (bool_decide (l_Pool l ∈ (list_to_set (p_Name <$> Pools c) : gset string))))
        "listener: references non-existent pool") = None <->
      (forall r, r ∈ l_Routes l -> r_Pool r = "" \/ r_Pool r ∈ p_Name <$> Pools c) /\
      (l_Pool l = "" \/ l_Pool l ∈ p_Name <$> Pools c)).
  { intros l. rewrite orelse_None, each_None, fail_if_None. setoid_rewrite fail_if_None.
    setoid_rewrite andb_false_iff. setoid_rewrite negb_false_iff. setoid_rewrite empty_true.
    setoid_rewrite in_set_true. done. }
  setoid_rewrite Href. clear Href. split.
  - intros (Hne & (Hln & Hle & _ & Hl) & (Hpn & Hpe & _ & Hp) & Hrefs & Hs). split; try done.
    + intros l r Hin Hr. destruct (Hrefs l Hin) as [H1 _]. destruct (H1 r Hr) as [E|]; [|done].
      destruct (lv_routes _ (Hl l Hin) r Hr). congruence.
    + intros l Hin Hne'. destruct (Hrefs l Hin) as [_ [|]]; done.
  - intros [Hne [Hln Hle] Hl [Hpn Hpe] Hp Hr Hlp Hs]. split_and!; try done;
      [intros n _; apply not_elem_of_empty..|].
    intros l Hin. split; [intros r Hr'; right; by eapply Hr|].
    destruct (decide (l_Pool l = "")); [by left|right; by apply Hlp].
Qed.

Lemma valid_set_version v c : valid (set_version v c) <-> valid c.
Proof. split; intros [H1 H2 H3 H4 H5 H6 H7 H8]; by split. Qed.

