(* ===== verification/WafRateLimit.v ===== *)
(** * Rate limiting of the firewall: [internal/waf/ratelimit/ratelimit.go] and
      [distributed.go]

    A limiter checks a request against the token buckets of its rules.  The rules are a
    Go slice: a window on an array that other slices may share.  The arrays are kept in
    a store ([arrays]), because the distributed limiter and its local fallback start from
    the same slice and both remove rules in place. *)
From S2P Require Import Prelude GoFloat Http Bytes GoStrings NetIP TokenBucket.
From Stdlib Require Import QArith Lqa.
Close Scope Q_scope.
Open Scope Z_scope.
Import Waf.

(** ** Rules and slices *)

Record Rule := mkRule {
  r_ID : string; Scope : string; Paths : list string; Limit : Z; Window : Z; Burst : Z;
  RuleAction : string; AutoBanAfter : Z
}.

(** A slice of rules: the array and the length; the capacity is that of the array. *)
Record slice := mkSlice { arr : nat; slice_len : nat }.

Notation arrays := (gmap nat (list Rule)).

Definition array (a : arrays) (s : slice) : list Rule := default [] (a !! arr s).

(** The elements of a slice. *)
Definition view (a : arrays) (s : slice) : list Rule := take (slice_len s) (array a s).

Definition fresh_array (a : arrays) : nat := fresh (dom a).

Definition zero_rule : Rule := mkRule "" "" [] 0 0 0 "" 0.

(** [append(s, r)]: in place when the capacity allows it, otherwise in a new array with
    [extra] unused elements. *)
Definition append_rule (extra : nat) (r : Rule) (s : slice) (a : arrays) : slice * arrays :=
  if (slice_len s <? length (array a s))%nat then
    (mkSlice (arr s) (S (slice_len s)), <[arr s := <[slice_len s := r]> (array a s)]> a)
  else
    let n := fresh_array a in
    (mkSlice n (S (slice_len s)), <[n := view a s ++ [r] ++ replicate extra zero_rule]> a).

(** [append(s\[:i\], s\[i+1:\]...)]: the elements behind [i] move down in the same array,
    and the last one stays where it was. *)
Definition remove_at (i : nat) (s : slice) (a : arrays) : slice * arrays :=
  let l := array a s in
  (mkSlice (arr s) (slice_len s - 1),
   <[arr s := take i l ++ take (slice_len s - 1 - i) (drop (S i) l) ++ drop (slice_len s - 1) l]> a).

(** The first rule with the given identifier. *)
Fixpoint find_rule (id : string) (l : list Rule) (i : nat) : option nat :=
  match l with
  | [] => None
  | r :: l => if bool_decide (r_ID r = id) then Some i else find_rule id l (S i)
  end.

(** ** The local limiter *)

Section Limiter.
Context `{Arith number}.

(** [OnAutoBan] is a callback; what it is called with is collected in [bans]. *)
Record RateLimiter := mkLimiter {
  rules : slice; buckets : gmap string (TokenBucket number); violations : gmap string Z;
  OnAutoBan : bool; bans : list (string * string)
}.

Definition set_rules (s : slice) (rl : RateLimiter) : RateLimiter :=
  mkLimiter s (buckets rl) (violations rl) (OnAutoBan rl) (bans rl).
Definition set_bucket (key : string) (b : TokenBucket number) (rl : RateLimiter) : RateLimiter :=
  mkLimiter (rules rl) (<[key := b]> (buckets rl)) (violations rl) (OnAutoBan rl) (bans rl).

Definition New (s : slice) : RateLimiter := mkLimiter s ∅ ∅ false [].

Definition maxTrackedViolations : Z := 100000.

Definition trackViolation (m : gmap string Z) (key : string) : gmap string Z :=
  let m :=
    match m !! key with
    | None => if maxTrackedViolations <=? Z.of_nat (size m) then ∅ else m
    | Some _ => m
    end in
  <[key := i64 (default 0 (m !! key) + 1)]> m.

Definition matchAnyPath (reqPath : string) (patterns : list string) : bool :=
  existsb (fun p => path_Match p reqPath || (HasSuffix p "*" && HasPrefix reqPath (TrimSuffix p "*")))
    patterns.

Definition extractIP (addr : string) : string :=
  match SplitHostPort addr with Some (host, _) => host | None => addr end.

Definition buildKey (rule : Rule) (r : Request) (ip : string) : string :=
  if bool_decide (Scope rule = "global") then "global:" +:+ r_ID rule
  else if bool_decide (Scope rule = "ip") then "ip:" +:+ r_ID rule +:+ ":" +:+ ip
  else if bool_decide (Scope rule = "path") then "path:" +:+ r_ID rule +:+ ":" +:+ URLPath r
  else if bool_decide (Scope rule = "ip+path")
  then "ip+path:" +:+ r_ID rule +:+ ":" +:+ ip +:+ ":" +:+ URLPath r
  else if HasPrefix (Scope rule) "header:"
  then "header:" +:+ r_ID rule +:+ ":" +:+ Header_Get (Header r) (string_drop 7 (Scope rule))
  else "ip:" +:+ r_ID rule +:+ ":" +:+ ip.

(** A new bucket for a rule. *)
Definition rule_bucket (now : Z) (rule : Rule) : TokenBucket number :=
  let refillRate := div (of_int (Limit rule)) (Seconds (Window rule)) in
  let maxTokens := if 0 <? Burst rule then of_int (i64 (Limit rule + Burst rule)) else of_int (Limit rule) in
  NewTokenBucket now maxTokens refillRate.

Definition getOrCreateBucket (now : Z) (key : string) (rule : Rule) (rl : RateLimiter) : TokenBucket number :=
  default (rule_bucket now rule) (buckets rl !! key).

Definition recordViolation (key ip : string) (rule : Rule) (rl : RateLimiter) : RateLimiter :=
  if (AutoBanAfter rule <=? 0) || negb (OnAutoBan rl) then rl
  else
    let v := trackViolation (violations rl) key in
    let count := default 0 (v !! key) in
    if AutoBanAfter rule <=? count
    then mkLimiter (rules rl) (buckets rl) (delete key v) (OnAutoBan rl)
           (bans rl ++ [(ip, "rate limit exceeded: " +:+ r_ID rule)])
    else mkLimiter (rules rl) (buckets rl) v (OnAutoBan rl) (bans rl).

Definition applies (rule : Rule) (r : Request) : bool :=
  match Paths rule with [] => true | ps => matchAnyPath (URLPath r) ps end.

(** The seconds until a retry. *)
Definition retry_seconds (d : Z) : Z := Z.max 1 (Z.quot d Second).

(** The loop over the rules. *)
Fixpoint allow_rules (now : Z) (ip : string) (r : Request) (l : list Rule) (rl : RateLimiter)
    : bool * Z * RateLimiter :=
  match l with
  | [] => (true, 0, rl)
  | rule :: l =>
      if applies rule r then
        let key := buildKey rule r ip in
        let '(ok, b) := Allow now (getOrCreateBucket now key rule rl) in
        let rl := set_bucket key b rl in
        if ok then allow_rules now ip r l rl
        else (false, retry_seconds (Window rule), recordViolation key ip rule rl)
      else allow_rules now ip r l rl
  end.

Definition RateLimiter_Allow (a : arrays) (now : Z) (remoteAddr : string) (r : Request) (rl : RateLimiter)
    : bool * Z * RateLimiter :=
  allow_rules now (extractIP remoteAddr) r (view a (rules rl)) rl.

Definition AddRule (extra : nat) (rule : Rule) (rl : RateLimiter) (a : arrays) : RateLimiter * arrays :=
  let '(s, a) := append_rule extra rule (rules rl) a in (set_rules s rl, a).

Definition RemoveRule (id : string) (rl : RateLimiter) (a : arrays) : bool * RateLimiter * arrays :=
  match find_rule id (view a (rules rl)) 0 with
  | None => (false, rl, a)
  | Some i => let '(s, a) := remove_at i (rules rl) a in (true, set_rules s rl, a)
  end.

(** [cleanup] refills every bucket and removes the full ones. *)
Definition cleanup (now : Z) (rl : RateLimiter) : RateLimiter :=
  mkLimiter (rules rl)
    (omap (M:=gmap string) (fun b : TokenBucket number => let '(t, b) := Tokens now b in if leb (maxTokens b) t then None else Some b)
       (buckets rl))
    (violations rl) (OnAutoBan rl) (bans rl).

(** ** The distributed limiter *)

(** The storage backend: an answer or an error, and its next state. *)
Context {St : Type}.
Definition Store := St -> string -> Z -> Z -> option (bool * Z * Z) * St.

Record DistributedRateLimiter := mkDistributed {
  d_rules : slice; d_store : option Store; local : option RateLimiter;
  d_violations : gmap string Z; d_OnAutoBan : bool; d_bans : list (string * string);
  useLocalFallback : bool
}.

Definition NewDistributed (rules : slice) (store : option Store) (fallback : bool)
    : DistributedRateLimiter :=
  mkDistributed rules store (if fallback then Some (New rules) else None) ∅ false [] fallback.

Definition d_buildKey (rule : Rule) (r : Request) (ip : string) : string :=
  if bool_decide (Scope rule = "global") then "rl:global:" +:+ r_ID rule
  else if bool_decide (Scope rule = "ip") then "rl:ip:" +:+ r_ID rule +:+ ":" +:+ ip
  else if bool_decide (Scope rule = "path") then "rl:path:" +:+ r_ID rule +:+ ":" +:+ URLPath r
  else if bool_decide (Scope rule = "ip+path")
  then "rl:ip+path:" +:+ r_ID rule +:+ ":" +:+ ip +:+ ":" +:+ URLPath r
  else "rl:ip:" +:+ r_ID rule +:+ ":" +:+ ip.

Definition d_recordViolation (key ip : string) (rule : Rule) (rl : DistributedRateLimiter)
    : DistributedRateLimiter :=
  if (AutoBanAfter rule <=? 0) || negb (d_OnAutoBan rl) then rl
  else
    let v := trackViolation (d_violations rl) key in
    if AutoBanAfter rule <=? default 0 (v !! key)
    then mkDistributed (d_rules rl) (d_store rl) (local rl) (delete key v) (d_OnAutoBan rl)
           (d_bans rl ++ [(ip, "rate limit exceeded: " +:+ r_ID rule)]) (useLocalFallback rl)
    else mkDistributed (d_rules rl) (d_store rl) (local rl) v (d_OnAutoBan rl) (d_bans rl)
           (useLocalFallback rl).

Definition set_local (l : RateLimiter) (rl : DistributedRateLimiter) : DistributedRateLimiter :=
  mkDistributed (d_rules rl) (d_store rl) (Some l) (d_violations rl) (d_OnAutoBan rl) (d_bans rl)
    (useLocalFallback rl).

(** Without a store every request is under its limit. *)
Definition checkStore (now : Z) (st : St) (key : string) (rule : Rule) (rl : DistributedRateLimiter)
    : option (bool * Z * Z) * St :=
  match d_store rl with
  | None => (Some (true, Limit rule, now + Window rule), st)
  | Some f => f st key (Limit rule) (Window rule)
  end.

Fixpoint d_allow_rules (a : arrays) (now : Z) (remoteAddr : string) (r : Request) (l : list Rule)
    (st : St) (rl : DistributedRateLimiter) : bool * Z * St * DistributedRateLimiter :=
  match l with
  | [] => (true, 0, st, rl)
  | rule :: l =>
      if applies rule r then
        let ip := extractIP remoteAddr in
        let key := d_buildKey rule r ip in
        let '(answer, st) := checkStore now st key rule rl in
        match answer with
        | None =>
            match (if useLocalFallback rl then local rl else None) with
            | Some loc =>
                let '(ok, retry, loc) := RateLimiter_Allow a now remoteAddr r loc in
                (ok, retry, st, set_local loc rl)
            | None => d_allow_rules a now remoteAddr r l st rl
            end
        | Some (true, _, _) => d_allow_rules a now remoteAddr r l st rl
        | Some (false, _, resetAt) =>
            (false, retry_seconds (resetAt - now), st, d_recordViolation key ip rule rl)
        end
      else d_allow_rules a now remoteAddr r l st rl
  end.

Definition Distributed_Allow (a : arrays) (now : Z) (remoteAddr : string) (r : Request) (st : St)
    (rl : DistributedRateLimiter) : bool * Z * St * DistributedRateLimiter :=
  d_allow_rules a now remoteAddr r (view a (d_rules rl)) st rl.

Definition d_set_rules (s : slice) (loc : option RateLimiter) (rl : DistributedRateLimiter)
    : DistributedRateLimiter :=
  mkDistributed s (d_store rl) loc (d_violations rl) (d_OnAutoBan rl) (d_bans rl) (useLocalFallback rl).

Definition d_AddRule (extra extra' : nat) (rule : Rule) (rl : DistributedRateLimiter) (a : arrays)
    : DistributedRateLimiter * arrays :=
  let '(s, a) := append_rule extra rule (d_rules rl) a in
  match local rl with
  | None => (d_set_rules s None rl, a)
  | Some loc => let '(loc, a) := AddRule extra' rule loc a in (d_set_rules s (Some loc) rl, a)
  end.

Definition d_RemoveRule (id : string) (rl : DistributedRateLimiter) (a : arrays)
    : bool * DistributedRateLimiter * arrays :=
  match find_rule id (view a (d_rules rl)) 0 with
  | None => (false, rl, a)
  | Some i =>
      let '(s, a) := remove_at i (d_rules rl) a in
      match local rl with
      | None => (true, d_set_rules s None rl, a)
      | Some loc => let '(_, loc, a) := RemoveRule id loc a in (true, d_set_rules s (Some loc) rl, a)
      end
  end.

End Limiter.
Arguments RateLimiter : clear implicits.
