(* ===== verification/WafRateLimitFacts.v ===== *)
(** * Rate limiting of the firewall: rules, bounds and bans

    The number of requests that pass a rule is bounded by the bucket of their key
    (exact arithmetic), a client that keeps violating a rule is banned once per
    [AutoBanAfter] violations, and rules are added and removed as expected as long as the
    slice is not shared.  The distributed limiter does share it. *)
From S2P Require Import Prelude GoFloat Http Bytes GoStrings NetIP TokenBucket TokenBucketFacts WafRateLimit.
From Stdlib Require Import QArith Lqa.
Close Scope Q_scope.
Open Scope Z_scope.
Import Waf.

(** ** Slices *)

Definition slice_wf (a : arrays) (s : slice) : Prop := (slice_len s <= length (array a s))%nat.

Lemma array_insert_eq a s s' l : arr s' = arr s -> array (<[arr s := l]> a) s' = l.
Proof. intros E. unfold array. by rewrite E, lookup_insert_eq. Qed.

Lemma length_slice_view a s : slice_wf a s -> length (view a s) = slice_len s.
Proof. unfold slice_wf, view. rewrite length_take. lia. Qed.

(** The array after a removal, seen through the new slice and through the old one. *)
Lemma remove_at_view i s a last front :
  slice_wf a s -> view a s = front ++ [last] -> (i < slice_len s)%nat ->
  view (remove_at i s a).2 (remove_at i s a).1 = delete i (view a s) /\
  view (remove_at i s a).2 s = delete i (view a s) ++ [last].
Proof.
  intros Hw Hv Hi. pose proof (length_slice_view a s Hw) as Hl.
  unfold remove_at. cbn [fst snd]. unfold view at 1 3. rewrite !array_insert_eq by done.
  cbn [slice_len]. set (n := slice_len s) in *. set (l := array a s) in *.
  assert (Hdel : delete i (view a s) = take i l ++ take (n - 1 - i) (drop (S i) l)).
  { rewrite delete_take_drop. unfold view. rewrite take_take, skipn_firstn_comm. fold n l.
    f_equal; [f_equal; lia|]. f_equal; lia. }
  rewrite Hdel. unfold slice_wf in Hw. fold n l in Hw.
  assert (Hlen : length (take i l ++ take (n - 1 - i) (drop (S i) l)) = (n - 1)%nat).
  { rewrite length_app, !length_take, length_drop. lia. }
  rewrite app_assoc. split.
  - by rewrite take_app_length' by done.
  - rewrite take_app_ge by lia. rewrite Hlen. f_equal.
    replace (n - (n - 1))%nat with 1%nat by lia.
    assert (Hlast : l !! (n - 1)%nat = Some last).
    { rewrite <- (lookup_take_lt l n) by lia. change (take n l) with (view a s). rewrite Hv.
      rewrite lookup_app_r by (rewrite Hv, length_app in Hl; simpl in Hl; lia).
      rewrite Hv, length_app in Hl. simpl in Hl. by replace (n - 1 - length front)%nat with 0%nat by lia. }
    by rewrite (drop_S _ _ _ Hlast).
Qed.

Lemma find_rule_spec id l k i :
  find_rule id l k = Some i -> exists l1 r l2, l = l1 ++ r :: l2 /\ r_ID r = id /\
    Forall (fun r => r_ID r <> id) l1 /\ i = (k + length l1)%nat.
Proof.
  revert k. induction l as [|r l IH]; intros k H; [done|]. simpl in H. case_bool_decide as E.
  - injection H as <-. exists [], r, l. split_and!; [done..|simpl; lia].
  - apply IH in H as (l1 & r' & l2 & -> & Hid & Hf & ->). exists (r :: l1), r', l2.
    split_and!; [done..|by constructor|simpl; lia].
Qed.

Lemma find_rule_None id l k : Forall (fun r => r_ID r <> id) l -> find_rule id l k = None.
Proof.
  intros Hf. revert k. induction Hf as [|r l Hr Hf IH]; intros k; [done|]. simpl.
  by rewrite bool_decide_eq_false_2.
Qed.

Lemma find_rule_first id l1 r l2 k :
  Forall (fun r => r_ID r <> id) l1 -> r_ID r = id -> find_rule id (l1 ++ r :: l2) k = Some (k + length l1)%nat.
Proof.
  intros Hf Hr. revert k. induction Hf as [|q l1 Hq Hf IH]; intros k; simpl.
  - rewrite bool_decide_eq_true_2 by done. f_equal. lia.
  - rewrite bool_decide_eq_false_2, IH by done. f_equal. lia.
Qed.

Lemma delete_middle_rule (l1 : list Rule) r l2 : delete (length l1) (l1 ++ r :: l2) = l1 ++ l2.
Proof. by rewrite delete_middle. Qed.

Section Facts.
Context `{Arith number}.

(** [RemoveRule] removes the first rule with the identifier and reports whether there
    was one; it changes nothing otherwise. *)
Theorem remove_rule_spec id (rl : RateLimiter number) a (Hw : slice_wf a (rules rl)) :
  let '(ok, rl', a') := RemoveRule id rl a in
  if ok then exists l1 r l2, view a (rules rl) = l1 ++ r :: l2 /\ r_ID r = id /\
         Forall (fun r => r_ID r <> id) l1 /\ view a' (rules rl') = l1 ++ l2
  else rl' = rl /\ a' = a /\ Forall (fun r => r_ID r <> id) (view a (rules rl)).
Proof.
  unfold RemoveRule. destruct (find_rule id (view a (rules rl)) 0) as [i|] eqn:Hf.
  - apply find_rule_spec in Hf as (l1 & r & l2 & Hv & Hid & Hf & ->). simpl Nat.add.
    pose proof (length_slice_view _ _ Hw) as Hl.
    destruct (remove_at (length l1) (rules rl) a) as [s' a'] eqn:Hr.
    exists l1, r, l2. split_and!; [done..|]. cbn [set_rules rules].
    assert (Hne : exists front last, l1 ++ r :: l2 = front ++ [last]).
    { destruct (l1 ++ r :: l2) as [|q q'] eqn:E using rev_ind; [by destruct l1|eauto]. }
    destruct Hne as (front & last & Hfl). rewrite Hv in *.
    destruct (remove_at_view (length l1) (rules rl) a last front Hw) as [H1 _].
    + by rewrite Hv.
    + rewrite <- Hl, length_app. simpl. lia.
    + rewrite Hr in H1. simpl in H1. by rewrite H1, Hv, delete_middle_rule.
  - split_and!; [done..|]. apply Forall_forall. intros r Hr E.
    apply list_elem_of_split in Hr as (l1 & l2 & Hv).
    destruct (decide (Forall (fun r => r_ID r <> id) l1)) as [Hl1|Hl1].
    + by rewrite Hv, find_rule_first in Hf.
    + apply not_Forall_Exists in Hl1; [|apply _]. apply Exists_exists in Hl1 as (q & Hq & Hqid).
      revert Hf. rewrite Hv. clear -Hq Hqid. generalize 0%nat as k.
      induction l1 as [|p l1 IH]; [by apply elem_of_nil in Hq|]. intros k. simpl.
      case_bool_decide; [done|]. apply elem_of_cons in Hq as [->|Hq]; [|by apply IH].
      by destruct Hqid.
Qed.

(** *** Bans *)

Definition violate (key ip : string) (rule : Rule) (rl : RateLimiter number) : RateLimiter number :=
  recordViolation key ip rule rl.

Lemma trackViolation_size m key :
  Z.of_nat (size m) <= maxTrackedViolations -> Z.of_nat (size (trackViolation m key)) <= maxTrackedViolations.
Proof.
  unfold trackViolation, maxTrackedViolations. intros Hm.
  destruct (m !! key) as [v|] eqn:Hk; [by rewrite map_size_insert_Some by eauto|].
  destruct (Z.leb_spec 100000 (Z.of_nat (size m))).
  - rewrite map_size_insert_None by done. rewrite map_size_empty. lia.
  - rewrite map_size_insert_None by done. lia.
Qed.

(** The map of violations never grows beyond its bound. *)
Theorem violations_bounded key ip rule (rl : RateLimiter number)
  (Hm : Z.of_nat (size (violations rl)) <= maxTrackedViolations) :
  Z.of_nat (size (violations (recordViolation key ip rule rl))) <= maxTrackedViolations.
Proof.
  unfold recordViolation. case_match; [done|]. pose proof (trackViolation_size _ key Hm) as Ht.
  case_match; [|done]. cbn [violations]. rewrite map_size_delete.
  destruct (trackViolation (violations rl) key !! key); simpl; lia.
Qed.

Lemma trackViolation_count m key :
  Z.of_nat (size m) < maxTrackedViolations ->
  trackViolation m key = <[key := i64 (default 0 (m !! key) + 1)]> m.
Proof.
  intros Hm. unfold trackViolation. destruct (m !! key) eqn:E; [by rewrite E|].
  by rewrite (proj2 (Z.leb_gt _ _) Hm), E.
Qed.

Lemma recordViolation_eq key ip rule (rl : RateLimiter number) :
  OnAutoBan rl = true -> 0 < AutoBanAfter rule -> Z.of_nat (size (violations rl)) < maxTrackedViolations ->
  recordViolation key ip rule rl =
  let count := i64 (default 0 (violations rl !! key) + 1) in
  if AutoBanAfter rule <=? count
  then mkLimiter (rules rl) (buckets rl) (delete key (violations rl)) true
         (bans rl ++ [(ip, "rate limit exceeded: " +:+ r_ID rule)])
  else mkLimiter (rules rl) (buckets rl) (<[key := count]> (violations rl)) true (bans rl).
Proof.
  intros Hcb Hk Hroom. unfold recordViolation. rewrite Hcb, (proj2 (Z.leb_gt _ _)) by lia. cbn [orb negb].
  rewrite trackViolation_count, lookup_insert_eq by done. cbn [default]. by rewrite delete_insert_eq.
Qed.

(** A client that violates a rule again and again is banned at every [AutoBanAfter]-th
    violation. *)
Theorem autoban_every_nth n key ip rule (rl : RateLimiter number)
  (Hcb : OnAutoBan rl = true) (Hk : 0 < AutoBanAfter rule < 2 ^ 63) (Hv : violations rl !! key = None)
  (Hroom : Z.of_nat (size (violations rl)) + 1 < maxTrackedViolations) :
  let rl' := Nat.iter n (violate key ip rule) rl in
  bans rl' = bans rl ++ replicate (Z.to_nat (Z.of_nat n / AutoBanAfter rule))
               (ip, "rate limit exceeded: " +:+ r_ID rule) /\
  default 0 (violations rl' !! key) = Z.of_nat n mod AutoBanAfter rule.
Proof.
  cbv zeta.
  assert (Hinv : OnAutoBan (Nat.iter n (violate key ip rule) rl) = true /\
    delete key (violations (Nat.iter n (violate key ip rule) rl)) = violations rl /\
    bans (Nat.iter n (violate key ip rule) rl) = bans rl ++
      replicate (Z.to_nat (Z.of_nat n / AutoBanAfter rule)) (ip, "rate limit exceeded: " +:+ r_ID rule) /\
    default 0 (violations (Nat.iter n (violate key ip rule) rl) !! key) = Z.of_nat n mod AutoBanAfter rule);
    [|tauto].
  induction n as [|n IH]; simpl Nat.iter.
  { split_and!; [done|by apply delete_id|by rewrite Z.div_0_l, app_nil_r by lia|].
    by rewrite Hv, Z.mod_0_l by lia. }
  set (r1 := Nat.iter n (violate key ip rule) rl) in *. destruct IH as (I1 & I2 & I3 & I4).
  assert (Hsz : Z.of_nat (size (violations r1)) < maxTrackedViolations).
  { rewrite <- I2, map_size_delete in Hroom. destruct (violations r1 !! key); simpl in Hroom; lia. }
  unfold violate. rewrite recordViolation_eq by (done || lia). cbv zeta.
  pose proof (Z.mod_pos_bound (Z.of_nat n) (AutoBanAfter rule) ltac:(lia)) as Hmod.
  pose proof (Z.div_mod (Z.of_nat n) (AutoBanAfter rule) ltac:(lia)) as Hdm.
  rewrite I4, i64_small by (unfold in_i64; lia). rewrite Nat2Z.inj_succ.
  assert (0 <= Z.of_nat n / AutoBanAfter rule) by (apply Z.div_pos; lia).
  destruct (Z.leb_spec (AutoBanAfter rule) (Z.of_nat n mod AutoBanAfter rule + 1)) as [Hge|Hlt];
    cbn [OnAutoBan violations bans].
  - assert (Hdiv : Z.succ (Z.of_nat n) = AutoBanAfter rule * (Z.of_nat n / AutoBanAfter rule + 1)) by lia.
    rewrite Hdiv, (Z.mul_comm (AutoBanAfter rule)), Z.div_mul, Z.mod_mul by lia.
    rewrite I2, Hv. split_and!; [done|by rewrite delete_id| |done].
    rewrite I3, <- app_assoc. f_equal.
    replace (Z.to_nat (Z.of_nat n / AutoBanAfter rule + 1))
      with (Z.to_nat (Z.of_nat n / AutoBanAfter rule) + 1)%nat by lia. by rewrite replicate_add.
  - rewrite delete_insert_eq, I2, lookup_insert_eq.
    assert (Hq : Z.succ (Z.of_nat n) / AutoBanAfter rule = Z.of_nat n / AutoBanAfter rule).
    { symmetry. apply Z.div_unique with (r := Z.of_nat n mod AutoBanAfter rule + 1); lia. }
    assert (Hr : Z.succ (Z.of_nat n) mod AutoBanAfter rule = Z.of_nat n mod AutoBanAfter rule + 1).
    { symmetry. apply Z.mod_unique with (q := Z.of_nat n / AutoBanAfter rule); lia. }
    rewrite Hq, Hr. done.
Qed.

(** *** The shared slice *)

Context {St : Type}.

(** The distributed limiter and its fallback start from one slice.  Removing a rule that
    is not the last one shifts the array under the fallback, which then finds nothing to
    remove: its last rule is listed, and charged, twice. *)
Theorem remove_rule_duplicates_fallback a s (store : option (@Store St)) l1 r l2 z
  (Hw : slice_wf a s) (Hv : view a s = l1 ++ r :: l2 ++ [z])
  (Hid : Forall (fun q => r_ID q <> r_ID r) (l1 ++ l2 ++ [z])) :
  let '(ok, rl, a') := d_RemoveRule (r_ID r) (NewDistributed (number:=number) s store true) a in
  ok = true /\ view a' (d_rules rl) = l1 ++ l2 ++ [z] /\
  exists loc, local rl = Some loc /\ view a' (rules loc) = l1 ++ l2 ++ [z; z].
Proof.
  pose proof (length_slice_view _ _ Hw) as Hl. rewrite Hv in Hl.
  unfold d_RemoveRule, NewDistributed. cbn [d_rules local]. rewrite Hv.
  apply Forall_app in Hid as Hid'. destruct Hid' as [Hid1 Hid2].
  rewrite find_rule_first by done. simpl Nat.add.
  destruct (remove_at_view (length l1) s a z (l1 ++ r :: l2) Hw) as [H1 H2].
  { rewrite Hv. by rewrite <- app_assoc. }
  { rewrite <- Hl, length_app. simpl. lia. }
  rewrite Hv, delete_middle_rule in H1, H2. rewrite <- !app_assoc in H2. cbn [app] in H2.
  revert H1 H2. destruct (remove_at (length l1) s a) as [s' a'] eqn:Hr. cbn [fst snd]. intros H1 H2.
  unfold RemoveRule, New. cbn [rules]. rewrite H2, find_rule_None.
  - split_and!; [done|done|]. eexists. split; [done|]. by rewrite <- H2.
  - change [z; z] with ([z] ++ [z]). rewrite !app_assoc. apply Forall_app. rewrite <- app_assoc.
    split; [done|]. apply Forall_app in Hid2. apply Hid2.
Qed.

(** A request that is working through the rules while one is removed skips a rule: after
    the removal of rule [i] the old slice shows rule [j+1] in place of rule [j]. *)
Theorem removal_shifts_readers a s i j last front
  (Hw : slice_wf a s) (Hv : view a s = front ++ [last]) (Hi : (i <= j)%nat) (Hj : (S j < slice_len s)%nat) :
  view (remove_at i s a).2 s !! j = view a s !! S j.
Proof.
  destruct (remove_at_view i s a last front Hw Hv ltac:(lia)) as [_ ->].
  rewrite lookup_app_l by (rewrite length_delete, length_slice_view; [lia|done|apply lookup_lt_is_Some_2; rewrite length_slice_view by done; lia]).
  by rewrite list_lookup_delete_ge.
Qed.

(** The distributed limiter ignores the scope by header that the rules offer: all clients
    of one address share a counter. *)
Theorem header_scope_ignored rule (r1 r2 : Request) ip h
  (Hs : Scope rule = "header:" +:+ h) : d_buildKey rule r1 ip = d_buildKey rule r2 ip.
Proof. unfold d_buildKey. by rewrite Hs. Qed.

End Facts.

(** ** The bound on a key *)

Section Bound.

(** The request is counted by a rule of the list under the key. *)
Definition counted (key ip : string) (r : Request) (l : list Rule) : bool :=
  existsb (fun rule => applies rule r && bool_decide (buildKey rule r ip = key)) l.

(** The bucket of the key is in order and was refilled in the interval. *)
Definition key_inv (key : string) (b0 : TokenBucket Q) (limit : Z) (rl : RateLimiter Q) : Prop :=
  exists b, buckets rl !! key = Some b /\ bucket_ok b /\ lastRefill b0 <= lastRefill b <= limit /\
    refillRate b = refillRate b0.

Definition key_phi (key : string) (rl : RateLimiter Q) : Q :=
  match buckets rl !! key with Some b => waf_phi b | None => 0%Q end.

Lemma recordViolation_buckets key ip rule (rl : RateLimiter Q) :
  buckets (recordViolation key ip rule rl) = buckets rl.
Proof. unfold recordViolation. by repeat case_match. Qed.

Lemma zero_plus_le x : (inject_Z 0 + x <= x)%Q.
Proof. change (inject_Z 0) with 0%Q. rewrite Qplus_0_l. apply Qle_refl. Qed.

Lemma allow_rules_key key b0 limit now ip r l rl :
  now <= limit -> key_inv key b0 limit rl ->
  let '(ok, _, rl') := allow_rules now ip r l rl in
  key_inv key b0 limit rl' /\
  (inject_Z (Z.b2z (ok && counted key ip r l)) + key_phi key rl' <= key_phi key rl)%Q.
Proof.
  intros Hn. revert rl. induction l as [|rule l IH]; intros rl Hi; cbn [allow_rules].
  { split; [done|]. apply zero_plus_le. }
  unfold counted. cbn [existsb]. fold (counted key ip r l).
  destruct (applies rule r) eqn:Ha; cbn [andb orb]; [|by apply IH].
  destruct (decide (buildKey rule r ip = key)) as [Hk|Hk].
  - rewrite Hk, bool_decide_eq_true_2 by done. destruct Hi as (b & Hb & Hok & Hl & Hr).
    replace (getOrCreateBucket now key rule rl) with b by (unfold getOrCreateBucket; by rewrite Hb).
    destruct (Allow_step (lastRefill b0) limit now b Hok Hl Hn) as [(G1 & G2 & G3) G4].
    destruct (Allow now b) as [ok b'] eqn:Eal. cbn [fst snd] in *.
    assert (Hi' : key_inv key b0 limit (set_bucket key b' rl)).
    { exists b'. cbn [set_bucket buckets]. rewrite lookup_insert_eq. split_and!; try done; try apply G1; [lia..|congruence]. }
    assert (Hp' : (inject_Z (Z.b2z ok) + key_phi key (set_bucket key b' rl) <= key_phi key rl)%Q).
    { unfold key_phi, set_bucket. cbn [buckets]. by rewrite lookup_insert_eq, Hb. }
    destruct ok.
    + specialize (IH _ Hi'). revert IH.
      destruct (allow_rules now ip r l (set_bucket key b' rl)) as [[ok2 retry] rl2].
      intros [I1 I2]. split; [done|]. change (inject_Z (Z.b2z true)) with 1%Q in Hp'.
      destruct ok2; cbn [andb orb Z.b2z] in *; change (inject_Z 1) with 1%Q in *; change (inject_Z 0) with 0%Q in *;
        destruct (counted key ip r l); cbn in I2; change (inject_Z 1) with 1%Q in *; change (inject_Z 0) with 0%Q in *; lra.
    + cbn [andb Z.b2z]. destruct Hi' as (b2 & Hb2 & Hrest). split.
      * exists b2. by rewrite recordViolation_buckets.
      * unfold key_phi at 1. rewrite recordViolation_buckets. exact Hp'.
  - rewrite bool_decide_eq_false_2 by done. cbn [orb].
    destruct (Allow now _) as [ok b'].
    assert (Hlk : buckets (set_bucket (buildKey rule r ip) b' rl) !! key = buckets rl !! key)
      by (cbn [set_bucket buckets]; by rewrite lookup_insert_ne).
    assert (Hi' : key_inv key b0 limit (set_bucket (buildKey rule r ip) b' rl)).
    { unfold key_inv. by rewrite Hlk. }
    assert (Hp' : key_phi key (set_bucket (buildKey rule r ip) b' rl) = key_phi key rl).
    { unfold key_phi. by rewrite Hlk. }
    destruct ok.
    + rewrite <- Hp'. by apply IH.
    + cbn [andb Z.b2z]. destruct Hi' as (b2 & Hb2 & Hrest). split.
      * exists b2. by rewrite recordViolation_buckets.
      * rewrite <- Hp'. unfold key_phi at 1. rewrite recordViolation_buckets. apply zero_plus_le.
Qed.

(** Requests one after the other: the number of those that were accepted and counted
    under the key. *)
Fixpoint accepted (a : arrays) (key : string) (reqs : list (Z * string * Request)) (rl : RateLimiter Q)
    : nat * RateLimiter Q :=
  match reqs with
  | [] => (0%nat, rl)
  | (now, remote, r) :: reqs =>
      let '(ok, _, rl') := RateLimiter_Allow a now remote r rl in
      let '(n, rl'') := accepted a key reqs rl' in
      ((if ok && counted key (extractIP remote) r (view a (rules rl)) then S n else n), rl'')
  end.

Lemma accepted_key a key b0 limit reqs rl :
  Forall (fun q => q.1.1 <= limit) reqs -> key_inv key b0 limit rl ->
  key_inv key b0 limit (accepted a key reqs rl).2 /\
  (inject_Z (Z.of_nat (accepted a key reqs rl).1) + key_phi key (accepted a key reqs rl).2 <= key_phi key rl)%Q.
Proof.
  intros Ht. revert rl. induction Ht as [|[[now remote] r] reqs Hn Ht IH]; intros rl Hi; cbn [accepted].
  { split; [done|]. apply zero_plus_le. }
  unfold RateLimiter_Allow.
  pose proof (allow_rules_key key b0 limit now (extractIP remote) r (view a (rules rl)) rl Hn Hi) as Hstep.
  revert Hstep. destruct (allow_rules _ _ _ _ _) as [[ok retry] rl'] eqn:Eal. intros [H1 H2].
  specialize (IH rl' H1). revert IH. destruct (accepted a key reqs rl') as [n rl'']. cbn [fst snd].
  intros [I1 I2]. split; [done|].
  set (c := ok && counted key (extractIP remote) r (view a (rules rl))) in *.
  assert (E : (inject_Z (Z.of_nat (if c then S n else n)) == inject_Z (Z.b2z c) + inject_Z (Z.of_nat n))%Q).
  { rewrite <- inject_Z_plus.
    by replace (Z.of_nat (if c then S n else n)) with (Z.b2z c + Z.of_nat n) by (destruct c; cbn [Z.b2z]; lia). }
  rewrite E. lra.
Qed.

(** However the requests come in and whatever the other rules are, the accepted requests
    counted under a key are at most the capacity of its bucket plus what its rate refills
    up to the last of them. *)
Theorem waf_limiter_rate_bound a key b limit reqs rl
  (Hb : buckets rl !! key = Some b) (Hok : bucket_ok b) (Hl : lastRefill b <= limit)
  (Ht : Forall (fun q => q.1.1 <= limit) reqs) :
  (inject_Z (Z.of_nat (accepted a key reqs rl).1) <=
   maxTokens b + refillRate b * secs (limit - lastRefill b))%Q.
Proof.
  destruct (accepted_key a key b limit reqs rl Ht) as [(b' & Hb' & Hok' & Hl' & Hr') Hp].
  { exists b. split_and!; try done; try apply Hok; lia. }
  unfold key_phi in Hp. rewrite Hb, Hb' in Hp. unfold waf_phi in Hp. rewrite Hr' in Hp. rewrite secs_sub.
  destruct Hok as [[_ Hmax] Hrate]. destruct Hok' as [[H0 _] _].
  pose proof (secs_mono _ _ (proj2 Hl')) as Hs.
  assert (Hm : (refillRate b * secs (lastRefill b') <= refillRate b * secs limit)%Q).
  { rewrite !(Qmult_comm (refillRate b)). by apply Qmult_le_compat_r. }
  lra.
Qed.

Lemma refill_full later (b : TokenBucket Q) :
  bucket_ok b -> (maxTokens b <= tokens b)%Q -> (tokens (refill later b) == maxTokens b)%Q.
Proof.
  intros Hok Hfull. destruct (refill_spec later b Hok) as ([[_ Hle] _] & Em & _). rewrite Em in Hle.
  apply Qle_antisym; [done|]. destruct Hok as [[H0 _] Hr].
  unfold refill. cbn [leb ltb Q_arith of_int add mul]. destruct (Qle_bool (Seconds _) _) eqn:E; [done|].
  assert (He : (0 <= Seconds (later - lastRefill b))%Q).
  { apply Qlt_le_weak, Qnot_le_lt. intros Hx. apply not_true_iff_false in E. apply E, Qle_bool_iff. exact Hx. }
  assert (Hm : (0 <= Seconds (later - lastRefill b) * refillRate b)%Q) by (by apply Qmult_le_0_compat).
  destruct (Qle_bool (tokens b + _) _) eqn:E2; cbn [negb tokens]; [lra|apply Qle_refl].
Qed.

(** A bucket that the clean-up drops is full: a later request finds the same level in
    the bucket that is created anew. *)
Theorem cleanup_forgets_nothing now later (b : TokenBucket Q)
  (Hok : bucket_ok b) (Hfull : Qle_bool (maxTokens b) (Tokens now b).1 = true) :
  (tokens (refill later (Tokens now b).2) == tokens (NewTokenBucket later (maxTokens b) (refillRate b)))%Q.
Proof.
  destruct (refill_spec now b Hok) as (Hok1 & Em & _). apply Qle_bool_iff in Hfull.
  unfold Tokens in *. cbn [fst snd NewTokenBucket tokens] in *. rewrite <- Em in *. by apply refill_full.
Qed.

End Bound.

(** ** Examples *)

Section Examples.

Definition demo_rule (id : string) : Rule := mkRule id "ip" ["/api/*"] 2 (10 * Second) 1 "block" 2.
Definition demo_arrays : gmap nat (list Rule) := {[0%nat := [demo_rule "a"; demo_rule "b"; demo_rule "c"]]}.
Definition demo_slice : slice := mkSlice 0 3.
Definition demo_limiter : RateLimiter Q := mkLimiter demo_slice ∅ ∅ true [].
Definition demo_request : Request := mkRequest "GET" "h" "" "/api/x" ∅ [] [].

Lemma remove_rule_spec_witness :
  let '(ok, rl', a') := RemoveRule "b" demo_limiter demo_arrays in
  ok = true /\ r_ID <$> view a' (rules rl') = ["a"; "c"] /\
  exists l1 r l2, view demo_arrays (rules demo_limiter) = l1 ++ r :: l2 /\ r_ID r = "b".
Proof.
  pose proof (remove_rule_spec "b" demo_limiter demo_arrays ltac:(vm_compute; lia)) as Hs.
  split; [reflexivity|]. split; [reflexivity|].
  destruct Hs as (l1 & r & l2 & H1 & H2 & _). exists l1, r, l2. done.
Defined.

Lemma violations_bounded_witness :
  Z.of_nat (size (violations (recordViolation "k" "1.2.3.4" (demo_rule "a") demo_limiter))) <= maxTrackedViolations.
Proof. apply violations_bounded. vm_compute. discriminate. Defined.

Lemma autoban_every_nth_witness :
  length (bans (Nat.iter 5 (violate "k" "1.2.3.4" (demo_rule "a")) demo_limiter)) = 2%nat.
Proof.
  pose proof (autoban_every_nth 5 "k" "1.2.3.4" (demo_rule "a") demo_limiter) as [H _];
    [reflexivity|vm_compute; done|reflexivity|reflexivity|].
  rewrite H. reflexivity.
Defined.

Lemma remove_rule_duplicates_fallback_witness :
  let '(ok, rl, a') := d_RemoveRule "a" (NewDistributed (number:=Q) (St:=unit) demo_slice None true) demo_arrays in
  (r_ID <$> view a' (d_rules rl)) = ["b"; "c"] /\
  (fun loc => r_ID <$> view a' (rules loc)) <$> local rl = Some ["b"; "c"; "c"].
Proof.
  pose proof (remove_rule_duplicates_fallback (number:=Q) (St:=unit) demo_arrays demo_slice None []
    (demo_rule "a") [demo_rule "b"] (demo_rule "c")) as H.
  cbv zeta in H. specialize (H ltac:(vm_compute; lia) eq_refl ltac:(repeat constructor; discriminate)).
  split; reflexivity.
Defined.

Lemma removal_shifts_readers_witness :
  view (remove_at 0 demo_slice demo_arrays).2 demo_slice !! 1%nat = Some (demo_rule "c").
Proof.
  rewrite (removal_shifts_readers demo_arrays demo_slice 0 1 (demo_rule "c") [demo_rule "a"; demo_rule "b"]);
    [reflexivity|vm_compute; lia|reflexivity|lia|simpl; lia].
Defined.

Lemma header_scope_ignored_witness :
  let rule := mkRule "h" "header:X-API-Key" [] 1 1 0 "block" 0 in
  d_buildKey rule (mkRequest "GET" "h" "" "/" {["X-Api-Key" := ["k1"]]} [] []) "1.2.3.4" =
  d_buildKey rule (mkRequest "GET" "h" "" "/" {["X-Api-Key" := ["k2"]]} [] []) "1.2.3.4".
Proof. apply (header_scope_ignored _ _ _ _ "X-API-Key"). reflexivity. Defined.

Definition demo_running : RateLimiter Q :=
  mkLimiter demo_slice {["ip:a:1.2.3.4" := NewTokenBucket 0 3%Q (1 # 5)%Q]} ∅ true [].

Definition demo_requests : list (Z * string * Request) := replicate 5 (10 * Second, "1.2.3.4:999", demo_request).

Lemma waf_limiter_rate_bound_witness :
  (inject_Z (Z.of_nat (accepted demo_arrays "ip:a:1.2.3.4" demo_requests demo_running).1) <= 5)%Q.
Proof.
  eapply Qle_trans; [eapply (waf_limiter_rate_bound _ _ (NewTokenBucket 0 3%Q (1 # 5)%Q) (10 * Second))|].
  - reflexivity.
  - repeat split; vm_compute; discriminate.
  - vm_compute. discriminate.
  - apply Forall_replicate. vm_compute. discriminate.
  - vm_compute. discriminate.
Defined.

Lemma cleanup_forgets_nothing_witness :
  (tokens (refill (5 * Second)%Z (Tokens Second (mkBucket 3%Q 3%Q 1%Q 0)).2) == 3)%Q.
Proof.
  rewrite (cleanup_forgets_nothing Second (5 * Second) (mkBucket 3%Q 3%Q 1%Q 0));
    [reflexivity|repeat split; vm_compute; discriminate|vm_compute; reflexivity].
Defined.

End Examples.
