(* ===== verification/Bloom.v ===== *)
(** * Bloom filter: [pkg/utils/bloom_filter.go]

    A bit array of [uint64] words; an element sets the bits at [k] positions that are
    derived from the two halves of its FNV-1a hash.  The filter has no false negatives,
    whatever else is added or merged.  The sizes are computed with [math.Log] and
    float conversions, which are arguments here; the rounding to words is the code's, and
    the theorems hold for every value they can take. *)
From S2P Require Import Prelude GoFloat Bytes GoHash.

Record BloomFilter := mkBloom { words : list Z; k : Z; n : Z; m : Z }.

(** [((m + 63) / 64) * 64] in [uint32], at least 64. *)
Definition round_bits (m : Z) : Z :=
  let m := u32 (u32 (m + 63) / 64 * 64) in if m =? 0 then 64 else m.

Definition clamp_k (k : Z) : Z :=
  let k := if k <? 1 then 1 else k in if 30 <? k then 30 else k.

(** The constant 0.01. *)
Definition one_percent : float64 := S754_finite false 5764607523034235 (-59).

(** [raw_m n p] is [uint32(-n*ln(p)/ln(2)^2)], [raw_k m n] is [uint32(m/n*ln(2))]. *)
Definition NewBloomFilter (raw_m : Z -> float64 -> Z) (raw_k : Z -> Z -> Z) (n : Z) (p : float64)
    : BloomFilter :=
  let n := if n =? 0 then 1000 else n in
  let p := if f64_leb p (f64_of_Z 0) || f64_leb (f64_of_Z 1) p then one_percent else p in
  let m := round_bits (raw_m n p) in
  mkBloom (replicate (Z.to_nat (m / 64)) 0) (clamp_k (raw_k m n)) 0 m.

(** [hash]: the halves of the 64-bit hash, the second one never 0. *)
Definition hash (data : string) : Z * Z :=
  let sum := fnv64a data in
  let h2 := Z.shiftr sum 32 in
  (u32 sum, if h2 =? 0 then 1 else h2).

(** [(h1 + i*h2) % bf.m] in [uint32]. *)
Definition bit_index (h : Z * Z) (i m : Z) : Z := u32 (h.1 + u32 (i * h.2)) mod m.

(** [bits[idx/64] |= 1 << (idx % 64)]. *)
Definition set_bit (ws : list Z) (idx : Z) : list Z :=
  alter (fun w => Z.lor w (Z.shiftl 1 (idx mod 64))) (Z.to_nat (idx / 64)) ws.

(** [bits[idx/64] & (1 << (idx % 64)) == 0]. *)
Definition bit_clear (ws : list Z) (idx : Z) : bool :=
  match ws !! Z.to_nat (idx / 64) with
  | Some w => Z.land w (Z.shiftl 1 (idx mod 64)) =? 0
  | None => true
  end.

Fixpoint add_loop (todo : nat) (i : Z) (h : Z * Z) (m : Z) (ws : list Z) : list Z :=
  match todo with
  | O => ws
  | S todo => add_loop todo (i + 1) h m (set_bit ws (bit_index h i m))
  end.

Definition Add (data : string) (bf : BloomFilter) : BloomFilter :=
  mkBloom (add_loop (Z.to_nat (k bf)) 0 (hash data) (m bf) (words bf)) (k bf) (u32 (n bf + 1)) (m bf).

Fixpoint contains_loop (todo : nat) (i : Z) (h : Z * Z) (m : Z) (ws : list Z) : bool :=
  match todo with
  | O => true
  | S todo => if bit_clear ws (bit_index h i m) then false else contains_loop todo (i + 1) h m ws
  end.

Definition Contains (data : string) (bf : BloomFilter) : bool :=
  contains_loop (Z.to_nat (k bf)) 0 (hash data) (m bf) (words bf).

Definition Clear (bf : BloomFilter) : BloomFilter :=
  mkBloom ((fun _ => 0) <$> words bf) (k bf) 0 (m bf).

(** [None] is [ErrIncompatibleFilter]. *)
Definition Merge (other bf : BloomFilter) : option BloomFilter :=
  if negb (m bf =? m other) || negb (k bf =? k other) then None
  else Some (mkBloom (zip_with Z.lor (words bf) (words other)) (k bf) (u32 (n bf + n other)) (m bf)).

(** ** The bits of a filter *)

Definition word_bit (w j : Z) : bool := negb (Z.land w (Z.shiftl 1 j) =? 0).

Lemma word_bit_testbit w j : 0 <= j -> word_bit w j = Z.testbit w j.
Proof.
  intros Hj. unfold word_bit. destruct (Z.testbit w j) eqn:Ht.
  - apply negb_true_iff, Z.eqb_neq. intros E. apply (f_equal (fun z => Z.testbit z j)) in E.
    rewrite Z.land_spec, Ht, Z.shiftl_spec, Z.sub_diag, Z.bits_0 in E by done. done.
  - apply negb_false_iff, Z.eqb_eq. apply Z.bits_inj'. intros i Hi.
    rewrite Z.land_spec, Z.bits_0, Z.shiftl_spec by done.
    destruct (decide (i = j)) as [->|Hne]; [by rewrite Ht|].
    destruct (decide (i < j)); [rewrite (Z.testbit_neg_r 1) by lia; apply andb_false_r|].
    rewrite (Z.bits_above_log2 1 (i - j)); [apply andb_false_r|lia|].
    change (Z.log2 1) with 0. lia.
Qed.

(** The bit at position [idx] of the array. *)
Definition bit_at (ws : list Z) (idx : Z) : bool :=
  match ws !! Z.to_nat (idx / 64) with Some w => Z.testbit w (idx mod 64) | None => false end.

Lemma bit_clear_at ws idx : bit_clear ws idx = negb (bit_at ws idx).
Proof.
  unfold bit_clear, bit_at. destruct (ws !! _) as [w|]; [|done].
  rewrite <- word_bit_testbit by (apply Z.mod_pos_bound; lia). unfold word_bit. by rewrite negb_involutive.
Qed.

Lemma bit_at_set ws idx j :
  0 <= idx < 64 * len ws -> 0 <= j -> bit_at (set_bit ws idx) j = bit_at ws j || (j =? idx).
Proof.
  intros Hi Hj. unfold bit_at, set_bit, len in *.
  pose proof (Z.div_mod idx 64 ltac:(lia)). pose proof (Z.mod_pos_bound idx 64 ltac:(lia)).
  pose proof (Z.div_mod j 64 ltac:(lia)). pose proof (Z.mod_pos_bound j 64 ltac:(lia)).
  assert (0 <= idx / 64) by (apply Z.div_pos; lia). assert (0 <= j / 64) by (apply Z.div_pos; lia).
  destruct (decide (j / 64 = idx / 64)) as [E|Hne].
  - rewrite E, list_lookup_alter_eq.
    destruct (lookup_lt_is_Some_2 ws (Z.to_nat (idx / 64))) as [w Hw];
      [pose proof (Z.div_lt_upper_bound idx 64 (Z.of_nat (length ws))); lia|].
    rewrite Hw. simpl. rewrite Z.lor_spec, Z.shiftl_spec by lia. f_equal.
    destruct (Z.eqb_spec j idx) as [->|Hne]; [by rewrite Z.sub_diag|].
    destruct (decide (j mod 64 < idx mod 64)); [apply Z.testbit_neg_r; lia|].
    apply Z.bits_above_log2; [lia|]. change (Z.log2 1) with 0.
    assert (j mod 64 <> idx mod 64) by (intros Em; apply Hne; lia). lia.
  - rewrite list_lookup_alter_ne by lia.
    destruct (Z.eqb_spec j idx); [subst; done|by rewrite orb_false_r].
Qed.

(** ** No false negatives *)

(** The array has [m] bits. *)
Definition bloom_wf (bf : BloomFilter) : Prop := 0 < m bf /\ m bf = 64 * len (words bf).

(** The positions of an element. *)
Definition positions (data : string) (bf : BloomFilter) : list Z :=
  (fun i => bit_index (hash data) (Z.of_nat i) (m bf)) <$> seq 0 (Z.to_nat (k bf)).

Lemma bit_index_range h i m : 0 < m -> 0 <= bit_index h i m < m.
Proof. intros Hm. unfold bit_index. by apply Z.mod_pos_bound. Qed.

Lemma set_bit_length ws idx : length (set_bit ws idx) = length ws.
Proof. apply length_alter. Qed.

Lemma add_loop_spec todo i h m ws :
  0 < m -> m = 64 * len ws -> 0 <= i ->
  length (add_loop todo i h m ws) = length ws /\
  forall j, 0 <= j -> bit_at (add_loop todo i h m ws) j =
    bit_at ws j || existsb (fun t => j =? bit_index h (i + Z.of_nat t) m) (seq 0 todo).
Proof.
  intros Hm. revert i ws. induction todo as [|todo IH]; intros i ws Hl Hi; cbn [add_loop].
  { split; [done|]. intros j _. by rewrite orb_false_r. }
  pose proof (bit_index_range h i m Hm) as Hr.
  destruct (IH (i + 1) (set_bit ws (bit_index h i m))) as [H1 H2];
    [unfold len in *; by rewrite set_bit_length|lia|].
  split; [by rewrite H1, set_bit_length|]. intros j Hj. rewrite H2 by done.
  rewrite bit_at_set by lia. rewrite <- orb_assoc. f_equal. cbn [seq existsb].
  rewrite Z.add_0_r. f_equal. rewrite <- fmap_S_seq.
  generalize (seq 0 todo). intros l. induction l as [|t l IHl]; [done|]. cbn [fmap list_fmap existsb].
  rewrite IHl. do 3 f_equal. lia.
Qed.

Lemma contains_loop_spec todo i h m ws :
  contains_loop todo i h m ws =
  forallb (fun t => bit_at ws (bit_index h (i + Z.of_nat t) m)) (seq 0 todo).
Proof.
  revert i. induction todo as [|todo IH]; intros i; [done|]. cbn [contains_loop seq forallb].
  rewrite bit_clear_at, Z.add_0_r. destruct (bit_at ws (bit_index h i m)); [|done]. cbn [negb].
  rewrite IH, <- fmap_S_seq. cbn [andb].
  generalize (seq 0 todo). intros l. induction l as [|t l IHl]; [done|]. cbn [fmap list_fmap forallb].
  rewrite IHl. do 2 f_equal. f_equal. lia.
Qed.

(** [Contains] tests exactly the positions of the element. *)
Lemma Contains_positions data bf :
  Contains data bf = true <-> Forall (fun p => bit_at (words bf) p = true) (positions data bf).
Proof.
  unfold Contains, positions. rewrite contains_loop_spec, forallb_forall, Forall_fmap, Forall_forall.
  by setoid_rewrite list_elem_of_In.
Qed.

(** Operations that keep every bit that is set. *)
Inductive bloom_step : BloomFilter -> BloomFilter -> Prop :=
  | step_add data bf : bloom_step bf (Add data bf)
  | step_merge other bf bf' : bloom_wf other -> Merge other bf = Some bf' -> bloom_step bf bf'.

Definition grows (bf bf' : BloomFilter) : Prop :=
  bloom_wf bf' /\ k bf' = k bf /\ m bf' = m bf /\
  forall j, 0 <= j -> bit_at (words bf) j = true -> bit_at (words bf') j = true.

Lemma Add_grows data bf :
  bloom_wf bf -> grows bf (Add data bf) /\ Contains data (Add data bf) = true.
Proof.
  intros [Hm Hl]. destruct (add_loop_spec (Z.to_nat (k bf)) 0 (hash data) (m bf) (words bf)) as [H1 H2];
    [done..|].
  split.
  - split_and!; [split; [done|]; simpl; unfold len in *; by rewrite H1|done..|].
    intros j Hj Hb. simpl. by rewrite H2, Hb.
  - apply Contains_positions, Forall_fmap, Forall_forall. intros t Ht. simpl.
    pose proof (bit_index_range (hash data) (Z.of_nat t) (m bf) Hm) as Hr.
    rewrite H2 by lia. apply orb_true_iff. right. apply existsb_exists.
    exists t. split; [by apply list_elem_of_In|]. simpl. apply Z.eqb_refl.
Qed.

Lemma Merge_grows other bf bf' :
  bloom_wf other -> bloom_wf bf -> Merge other bf = Some bf' ->
  grows bf bf' /\ (forall j, 0 <= j -> bit_at (words other) j = true -> bit_at (words bf') j = true).
Proof.
  intros [_ Ho] [Hm Hl] Hmg. unfold Merge in Hmg. case_match eqn:C; [done|]. injection Hmg as <-.
  apply orb_false_iff in C as [C1 C2]. b2p.
  assert (Hlen : length (words bf) = length (words other)) by (unfold len in *; lia).
  assert (Hbit : forall j, 0 <= j -> bit_at (zip_with Z.lor (words bf) (words other)) j =
    bit_at (words bf) j || bit_at (words other) j).
  { intros j Hj. unfold bit_at. rewrite lookup_zip_with.
    destruct (words bf !! _) eqn:E1, (words other !! _) eqn:E2; simpl; try done.
    - apply Z.lor_spec.
    - apply lookup_lt_Some in E1. apply lookup_ge_None in E2. lia. 
    - apply lookup_lt_Some in E2. apply lookup_ge_None in E1. lia. }
  split.
  - split_and!; [split; [done|]; simpl; unfold len in *; by rewrite length_zip_with_l_eq|done..|].
    intros j Hj Hb. simpl. by rewrite Hbit, Hb.
  - intros j Hj Hb. simpl. by rewrite Hbit, Hb, orb_true_r.
Qed.

Lemma bloom_steps_grow bf bf' : rtc bloom_step bf bf' -> bloom_wf bf -> grows bf bf'.
Proof.
  intros Hr. induction Hr as [|b1 b2 b3 Hs _ IH]; intros Hw; [by split; [|auto]|].
  assert (H12 : grows b1 b2).
  { destruct Hs as [|other bf bf' Ho Hm]; [by apply Add_grows|exact (proj1 (Merge_grows other bf bf' Ho Hw Hm))]. }
  destruct H12 as (W & Ek & Em & Hb). destruct (IH W) as (W' & Ek' & Em' & Hb').
  split_and!; [done|congruence..|]. auto.
Qed.

Lemma grows_contains data bf bf' :
  bloom_wf bf -> grows bf bf' -> Contains data bf = true -> Contains data bf' = true.
Proof.
  rewrite !Contains_positions. intros [Hm _] (_ & Ek & Em & Hb) H. unfold positions in *. rewrite Ek, Em.
  rewrite Forall_fmap in *. eapply Forall_impl; [exact H|]. intros t. simpl. apply Hb.
  by apply bit_index_range.
Qed.

Lemma New_wf raw_m raw_k n p : bloom_wf (NewBloomFilter raw_m raw_k n p).
Proof.
  unfold NewBloomFilter, bloom_wf. cbn [m words]. rewrite len_replicate. unfold round_bits.
  generalize (raw_m (if n =? 0 then 1000 else n)
    (if f64_leb p (f64_of_Z 0) || f64_leb (f64_of_Z 1) p then one_percent else p)) as r. intros r.
  pose proof (u32_range (r + 63)) as Hr. unfold in_u32 in Hr.
  pose proof (Z.div_mod (u32 (r + 63)) 64 ltac:(lia)). pose proof (Z.mod_pos_bound (u32 (r + 63)) 64 ltac:(lia)).
  assert (0 <= u32 (r + 63) / 64) by (apply Z.div_pos; lia).
  rewrite u32_small by (unfold in_u32; lia). destruct (Z.eqb_spec (u32 (r + 63) / 64 * 64) 0); [split; [lia|done]|].
  rewrite Z.div_mul by lia. lia.
Qed.

(** An element that was added is found, for every size and number of hash functions,
    however many elements are added and compatible filters merged before and after. *)
Theorem bloom_no_false_negatives raw_m raw_k n p bf data bf'
  (Hbefore : rtc bloom_step (NewBloomFilter raw_m raw_k n p) bf)
  (Hafter : rtc bloom_step (Add data bf) bf') :
  Contains data bf' = true.
Proof.
  pose proof (bloom_steps_grow _ _ Hbefore (New_wf _ _ _ _)) as (Hw & _).
  destruct (Add_grows data bf Hw) as [(Hwa & _) Hc].
  by apply (grows_contains data (Add data bf)), Hc; [|apply bloom_steps_grow].
Qed.

(** A merged filter finds the elements of both. *)
Theorem bloom_merge_union other bf bf' data
  (Ho : bloom_wf other) (Hb : bloom_wf bf) (Hm : Merge other bf = Some bf')
  (Hc : Contains data other = true \/ Contains data bf = true) :
  Contains data bf' = true.
Proof.
  destruct (Merge_grows other bf bf' Ho Hb Hm) as [Hg Hbits]. destruct Hc as [Hc|Hc].
  - assert (E : grows other bf').
    { destruct Hg as (W & Ek & Em & _). unfold Merge in Hm. case_match eqn:C; [done|].
      apply orb_false_iff in C as [C1 C2]. b2p. split; [exact W|]. split_and!; [congruence..|done]. }
    by apply (grows_contains data other).
  - by apply (grows_contains data bf).
Qed.

(** A cleared filter finds nothing. *)
Theorem bloom_clear_empty bf data (Hw : bloom_wf bf) (Hk : 0 < k bf) :
  Contains data (Clear bf) = false /\ n (Clear bf) = 0.
Proof.
  split; [|done]. apply not_true_is_false. intros H. rewrite Contains_positions in H. unfold positions in H.
  rewrite Forall_fmap, Forall_forall in H. specialize (H 0%nat). simpl in H.
  assert (Hin : (0 ∈ seq 0 (Z.to_nat (k bf)))%nat) by (apply elem_of_seq; lia). specialize (H Hin).
  unfold bit_at in H. rewrite list_lookup_fmap in H. destruct (words bf !! _); simpl in H; [|done].
  by rewrite Z.bits_0 in H.
Qed.

(** ** Examples *)

Definition demo_bloom : BloomFilter := NewBloomFilter (fun _ _ => 100) (fun _ _ => 3) 10 one_percent.

Lemma bloom_no_false_negatives_witness :
  Contains "b" (Add "c" (Add "b" (Add "a" demo_bloom))) = true.
Proof.
  eapply (bloom_no_false_negatives (fun _ _ => 100) (fun _ _ => 3) 10 one_percent (Add "a" demo_bloom)).
  - apply rtc_once, step_add.
  - apply rtc_once, step_add.
Defined.

Lemma bloom_merge_union_witness :
  exists bf', Merge (Add "a" demo_bloom) (Add "b" demo_bloom) = Some bf' /\ Contains "a" bf' = true.
Proof.
  eexists. split; [reflexivity|].
  eapply (bloom_merge_union (Add "a" demo_bloom) (Add "b" demo_bloom)).
  - split; reflexivity.
  - split; reflexivity.
  - reflexivity.
  - left. reflexivity.
Defined.

Lemma bloom_clear_empty_witness : Contains "a" (Clear (Add "a" demo_bloom)) = false /\ n (Clear (Add "a" demo_bloom)) = 0.
Proof. apply bloom_clear_empty; [split; reflexivity|reflexivity]. Defined.
