(* ===== verification/ProxyProto.v ===== *)
(** * PROXY protocol: [internal/proxy/l4/proxyproto.go]

    The parser of version 1 and 2 headers, the writers, the listener that decides whose
    headers count, and the connections that replay what was read ahead.  A connection is
    its remote address and the bytes that arrive; the output of a writer is the bytes it
    writes. *)
From S2P Require Import Prelude Http Bytes NetIP NetAddr.
From Stdlib Require Import Ascii.

(** ** Data *)

Definition PROXYProtocolV1 : Z := 1.
Definition PROXYProtocolV2 : Z := 2.
Definition PROXYCommandProxy : Z := 1.
Definition PROXYCommandLocal : Z := 0.
Definition PROXYAFUnspec : Z := 0.
Definition PROXYAFInet : Z := 16.
Definition PROXYAFInet6 : Z := 32.
Definition PROXYAFUnix : Z := 48.
Definition PROXYTransportUnspec : Z := 0.
Definition PROXYTransportStream : Z := 1.
Definition PROXYTransportDgram : Z := 2.

(** [net.Addr]: the types the code distinguishes. *)
Inductive Addr :=
  | TCPAddr (ip : list Z) (port : Z)
  | UDPAddr (ip : list Z) (port : Z)
  | OtherAddr (text : string).

Record PROXYTLV := mkTLV { Type_ : Z; Value : list Z }.

Record PROXYHeader := mkHeader {
  Version : Z;
  Command : Z;
  Family : Z;
  Transport : Z;
  SourceAddr : option Addr;
  DestAddr : option Addr;
  TLVs : list PROXYTLV
}.

Record PROXYProtocolConfig := mkConfig {
  AcceptV1 : bool;
  AcceptV2 : bool;
  SendV1 : bool;
  SendV2 : bool;
  AllowLocal : bool;
  OverrideTo : string;
  TrustedNetworks : list string
}.

Definition DefaultPROXYProtocolConfig : PROXYProtocolConfig :=
  mkConfig true true false false true "" [].

(** ** Parsing *)

Definition v2_signature : list Z := [13; 10; 13; 10; 0; 13; 10; 81; 85; 73; 84; 10].

Definition isPROXYProtocolV1 (data : list Z) : bool :=
  (5 <=? len data) && bool_decide (take 5 data = bytes_of "PROXY").

Definition isPROXYProtocolV2 (data : list Z) : bool :=
  (12 <=? len data) && bool_decide (take 12 data = v2_signature).

Definition IsPROXYProtocol (data : list Z) : bool :=
  isPROXYProtocolV1 data || isPROXYProtocolV2 data.

(** [bytes.Cut(data, "\r\n")]. *)
Fixpoint Cut_crlf (data : list Z) : option (list Z * list Z) :=
  match data with
  | b :: ((c :: r) as t) =>
      if (b =? 13) && (c =? 10) then Some ([], r)
      else prod_map (cons b) id <$> Cut_crlf t
  | _ => None
  end.

(** The second word of a version 1 header: family and transport. *)
Definition v1_protocol (p : string) : option (Z * Z) :=
  if bool_decide (p = "TCP4") then Some (PROXYAFInet, PROXYTransportStream)
  else if bool_decide (p = "TCP6") then Some (PROXYAFInet6, PROXYTransportStream)
  else if bool_decide (p = "UDP4") then Some (PROXYAFInet, PROXYTransportDgram)
  else if bool_decide (p = "UDP6") then Some (PROXYAFInet6, PROXYTransportDgram)
  else None.

Definition valid_port (p : Z) : bool := negb ((p <? 0) || (65535 <? p)).

Definition parseV1 (data : list Z) : go (PROXYHeader * list Z) :=
  match Cut_crlf data with
  | None => Err "incomplete PROXY v1 header"
  | Some (headerLine, remaining) =>
      match Split " " (string_of headerLine) with
      | [] | [_] => Err "invalid PROXY v1 header"
      | _ :: proto :: rest =>
          if bool_decide (proto = "UNKNOWN") then
            Ok (mkHeader PROXYProtocolV1 PROXYCommandProxy PROXYAFUnspec PROXYTransportUnspec
                  None None [], remaining)
          else match v1_protocol proto with
          | None => Err "unknown protocol: %s"
          | Some (family, transport) =>
              match rest with
              | [p2; p3; p4; p5] =>
                  let srcIP := ParseIP p2 in
                  let dstIP := ParseIP p3 in
                  match Atoi p4 with
                  | None => Err "invalid source port: %s"
                  | Some srcPort =>
                      match Atoi p5 with
                      | None => Err "invalid destination port: %s"
                      | Some dstPort =>
                          check (negb (valid_port srcPort && valid_port dstPort))
                            "port out of valid range 0-65535" (
                          match srcIP, dstIP with
                          | Some s, Some d =>
                              let mk := if transport =? PROXYTransportDgram then UDPAddr else TCPAddr in
                              Ok (mkHeader PROXYProtocolV1 PROXYCommandProxy family transport
                                    (Some (mk s srcPort)) (Some (mk d dstPort)) [], remaining)
                          | _, _ => Err "invalid IP address"
                          end)
                      end
                  end
              | _ => Err "invalid PROXY v1 header format"
              end
          end
      end
  end.

(** The loop of [parseTLVs]: every round consumes at least three bytes. *)
Fixpoint parseTLVs_loop (fuel : nat) (data : list Z) (offset : Z) (tlvs : list PROXYTLV)
    : go (list PROXYTLV) :=
  match fuel with
  | O => Ok tlvs
  | S fuel =>
      if offset <? len data then
        if len data <? offset + 3 then Ok tlvs
        else
          let* tlvType := index data offset in
          let* lb := slice data (offset + 1) (offset + 3) in
          let* tlvLen := Uint16 lb in
          if len data <? offset + 3 + tlvLen then Ok tlvs
          else
            let* v := slice data (offset + 3) (offset + 3 + tlvLen) in
            parseTLVs_loop fuel data (offset + (3 + tlvLen)) (tlvs ++ [mkTLV tlvType v])
      else Ok tlvs
  end.

Definition parseTLVs (data : list Z) : go (list PROXYTLV) :=
  parseTLVs_loop (length data) data 0 [].

(** The addresses of a version 2 header with [n]-byte addresses, and the TLVs after them. *)
Definition parseV2_addrs (addrData : list Z) (n : Z) (transport : Z)
    : go (option Addr * option Addr * list PROXYTLV) :=
  let* srcIP := slice addrData 0 n in
  let* dstIP := slice addrData n (2 * n) in
  let* sb := slice addrData (2 * n) (2 * n + 2) in
  let* srcPort := Uint16 sb in
  let* db := slice addrData (2 * n + 2) (2 * n + 4) in
  let* dstPort := Uint16 db in
  let mk := if transport =? PROXYTransportStream then TCPAddr else UDPAddr in
  let* tlvs := (if 2 * n + 4 <? len addrData
                then (let* r := slice_from addrData (2 * n + 4) in parseTLVs r)
                else Ok []) in
  Ok (Some (mk srcIP srcPort), Some (mk dstIP dstPort), tlvs).

(** [16+length] is computed in [uint16]. *)
Definition parseV2 (cfg : PROXYProtocolConfig) (data : list Z) : go (PROXYHeader * list Z) :=
  check (len data <? 16) "data too short for PROXY v2 header" (
  let* verCmd := index data 12 in
  let command := Z.land verCmd 15 in
  check (negb (command =? PROXYCommandProxy) && negb (command =? PROXYCommandLocal))
    "invalid command" (
  check ((command =? PROXYCommandLocal) && negb (AllowLocal cfg)) "local command not allowed" (
  let* famTrans := index data 13 in
  let family := Z.land famTrans 240 in
  let transport := Z.land famTrans 15 in
  let* lb := slice data 14 16 in
  let* length := Uint16 lb in
  check (len data <? 16 + length) "incomplete PROXY v2 header" (
  let* addrData := slice data 16 (u16 (16 + length)) in
  let* remaining := slice_from data (u16 (16 + length)) in
  let header s d t := mkHeader PROXYProtocolV2 command family transport s d t in
  if family =? PROXYAFInet then
    check (len addrData <? 12) "insufficient data for IPv4" (
    let* '(s, d, t) := parseV2_addrs addrData 4 transport in
    Ok (header s d t, remaining))
  else if family =? PROXYAFInet6 then
    check (len addrData <? 36) "insufficient data for IPv6" (
    let* '(s, d, t) := parseV2_addrs addrData 16 transport in
    Ok (header s d t, remaining))
  else if family =? PROXYAFUnix then
    check (len addrData <? 216) "insufficient data for UNIX" (
    Ok (header None None [], remaining))
  else Ok (header None None [], remaining))))).

Definition Parse (cfg : PROXYProtocolConfig) (data : list Z) : go (PROXYHeader * list Z) :=
  check (len data <? 5) "data too short" (
  if isPROXYProtocolV2 data then
    check (negb (AcceptV2 cfg)) "proxy protocol v2 not accepted" (parseV2 cfg data)
  else if isPROXYProtocolV1 data then
    check (negb (AcceptV1 cfg)) "proxy protocol v1 not accepted" (parseV1 data)
  else Err "not a PROXY protocol header").

(** ** Writing *)

Definition crlf : string := String "013" (String "010" "").

Definition WriteV1 (srcAddr dstAddr : Addr) : list Z :=
  match srcAddr, dstAddr with
  | TCPAddr srcIP srcPort, TCPAddr dstIP dstPort =>
      let proto := if bool_decide (is_Some (IP_To4 srcIP)) then "TCP4" else "TCP6" in
      bytes_of ("PROXY " +:+ proto +:+ " " +:+ IP_String srcIP +:+ " " +:+ IP_String dstIP +:+ " "
                +:+ Itoa srcPort +:+ " " +:+ Itoa dstPort +:+ crlf)
  | _, _ => bytes_of ("PROXY UNKNOWN" +:+ crlf)
  end.

(** [copy(make(\[\]byte, n), src)]. *)
Definition copy_into (n : nat) (src : list Z) : list Z := take n (src ++ replicate n 0).

Definition WriteV2 (srcAddr dstAddr : Addr) : list Z :=
  v2_signature ++
  match srcAddr, dstAddr with
  | TCPAddr srcIP srcPort, TCPAddr dstIP dstPort =>
      let '(famTrans, addrData) :=
        match IP_To4 srcIP with
        | Some s =>
            (17, copy_into 4 s ++ copy_into 4 (default [] (IP_To4 dstIP)) ++
                 PutUint16 (u16 srcPort) ++ PutUint16 (u16 dstPort))
        | None =>
            (33, copy_into 16 (default [] (IP_To16 srcIP)) ++ copy_into 16 (default [] (IP_To16 dstIP)) ++
                 PutUint16 (u16 srcPort) ++ PutUint16 (u16 dstPort))
        end in
      [33; famTrans] ++ PutUint16 (len addrData) ++ addrData
  | _, _ => [33; 0] ++ PutUint16 0
  end.

Definition FormatPROXYHeaderV1 (srcIP dstIP : string) (srcPort dstPort : Z) : string :=
  "PROXY TCP4 " +:+ srcIP +:+ " " +:+ dstIP +:+ " " +:+ Itoa srcPort +:+ " " +:+ Itoa dstPort +:+ crlf.

(** ** The listener *)

Record PROXYListener := mkListener {
  l_config : PROXYProtocolConfig;
  trustedNets : list IPNet;
  trustedReady : bool
}.

Definition initTrustedNets (cfg : PROXYProtocolConfig) : PROXYListener :=
  let nets := omap (fun cidr => snd <$> ParseCIDR cidr) (TrustedNetworks cfg) in
  mkListener cfg nets (negb (bool_decide (nets = []))).

Definition NewPROXYListener (cfg : option PROXYProtocolConfig) : PROXYListener :=
  initTrustedNets (default DefaultPROXYProtocolConfig cfg).

Definition isTrustedSource (remoteAddr : string) (l : PROXYListener) : bool :=
  if negb (trustedReady l) then false
  else match SplitHostPort remoteAddr with
  | None => false
  | Some (ip, _) =>
      match ParseIP ip with
      | None => false
      | Some parsedIP => existsb (fun n => Contains n parsedIP) (trustedNets l)
      end
  end.

(** What [Accept] returns: the connection itself, one that replays what was read, or one
    with a header. *)
Inductive accepted :=
  | Plain
  | Buffered (buffer : list Z)
  | Proxied (buffer : list Z) (header : PROXYHeader).

(** [Accept] on a connection from [remoteAddr] whose first [Read] of at most 256 bytes
    answers [read] ([None]: an error). *)
Definition Accept (remoteAddr : string) (read : option (list Z)) (l : PROXYListener) : go accepted :=
  if trustedReady l && negb (isTrustedSource remoteAddr l) then Ok Plain
  else match read with
  | None => Err "read"
  | Some data =>
      let buf := take 256 data in
      match Parse (l_config l) buf with
      | Ok (header, remaining) => Ok (Proxied remaining header)
      | Err _ => Ok (Buffered buf)
      | Panic => Panic
      end
  end.

(** [OriginalSource] of the accepted connection. *)
Definition OriginalSource (remote : Addr) (a : accepted) : option Addr :=
  match a with
  | Proxied _ h => SourceAddr h
  | _ => Some remote
  end.

Definition OriginalDest (local : Addr) (a : accepted) : option Addr :=
  match a with
  | Proxied _ h => DestAddr h
  | _ => Some local
  end.

(** ** Connections that replay a buffer: [bufferedConn] here, [peekedConn] in [sni.go] *)

Record bufferedConn := mkBuffered { buffer : list Z; offset : Z; conn : list Z }.

(** [Read] into a slice of [n] bytes; [avail] bytes have arrived on the connection. *)
Definition Read (n avail : nat) (c : bufferedConn) : list Z * bufferedConn :=
  if offset c <? len (buffer c) then
    let chunk := take n (drop (Z.to_nat (offset c)) (buffer c)) in
    (chunk, mkBuffered (buffer c) (offset c + len chunk) (conn c))
  else
    let chunk := take (Nat.min n avail) (conn c) in
    (chunk, mkBuffered (buffer c) (offset c) (drop (Nat.min n avail) (conn c))).

(** ** Information *)

Definition Addr_String (a : Addr) : string :=
  match a with
  | TCPAddr ip port | UDPAddr ip port =>
      JoinHostPort (if bool_decide (ip = []) then "" else IP_String ip) (Itoa port)
  | OtherAddr s => s
  end.

Record PROXYProtocolInfo := mkInfo {
  i_Version : string; i_Command : string; i_Protocol : string; i_Source : string; i_Dest : string }.

Definition GetInfo (h : PROXYHeader) : PROXYProtocolInfo :=
  mkInfo
    (if Version h =? PROXYProtocolV1 then "1" else if Version h =? PROXYProtocolV2 then "2"
     else "Unknown")
    (if Command h =? PROXYCommandProxy then "PROXY"
     else if Command h =? PROXYCommandLocal then "LOCAL" else "")
    (if Family h =? PROXYAFInet then
       if Transport h =? PROXYTransportStream then "TCP4" else "UDP4"
     else if Family h =? PROXYAFInet6 then
       if Transport h =? PROXYTransportStream then "TCP6" else "UDP6"
     else "")
    (from_option Addr_String "" (SourceAddr h))
    (from_option Addr_String "" (DestAddr h)).

Example write_v1_ex :
  string_of (WriteV1 (TCPAddr [192; 168; 0; 1] 12345) (TCPAddr [10; 0; 0; 1] 443))
  = "PROXY TCP4 192.168.0.1 10.0.0.1 12345 443" +:+ crlf.
Proof. reflexivity. Qed.

(** ** Safety *)

Lemma parseTLVs_loop_total fuel data offset tlvs :
  Forall is_byte data -> 0 <= offset -> parseTLVs_loop fuel data offset tlvs <> Panic.
Proof.
  intros Hb. revert offset tlvs. induction fuel as [|fuel IH]; intros off tlvs Ho; [done|].
  cbn [parseTLVs_loop]. case_match; [|done]. case_match; [done|]. b2p.
  np. np. np. case_match; [done|]. b2p. np. apply IH. lia.
Qed.

Lemma go_bind_total {A B} (m : go A) (k : A -> go B) :
  m <> Panic -> (forall a, m = Ok a -> k a <> Panic) -> go_bind m k <> Panic.
Proof. destruct m; simpl; auto. Qed.

Lemma parseV2_addrs_total addrData n transport :
  Forall is_byte addrData -> 0 <= n -> 2 * n + 4 <= len addrData ->
  parseV2_addrs addrData n transport <> Panic.
Proof.
  intros Hb Hn Hl. unfold parseV2_addrs. do 6 np. apply go_bind_total; [|done].
  case_match; [|done]. b2p. unfold slice_from. np. by apply parseTLVs_loop_total.
Qed.

Lemma parseV2_total cfg data :
  Forall is_byte data -> len data < 65536 -> parseV2 cfg data <> Panic.
Proof.
  intros Hb Hl. unfold parseV2. np. np. np. np. np. np. np. np.
  rewrite u16_small by lia. np. unfold slice_from. np.
  repeat case_match; b2p; try done; np; try done; apply go_bind_total;
    try (apply parseV2_addrs_total; [done|lia|lia]);
    intros [[? ?] ?]; done.
Qed.

Lemma parseV1_total data : parseV1 data <> Panic.
Proof. unfold parseV1, check. by repeat case_match. Qed.

Lemma Parse_total cfg data : Forall is_byte data -> len data < 65536 -> Parse cfg data <> Panic.
Proof.
  intros Hb Hl. unfold Parse, check. repeat case_match; try done.
  - by apply parseV2_total.
  - by apply parseV1_total.
Qed.

(** ** Round trips *)

Lemma parseV2_addrs_spec s d sp dp t n transport :
  n = len s -> n = len d -> 0 <= sp < 2 ^ 16 -> 0 <= dp < 2 ^ 16 ->
  parseV2_addrs (s ++ d ++ PutUint16 sp ++ PutUint16 dp ++ t) n transport =
  let mk := if transport =? PROXYTransportStream then TCPAddr else UDPAddr in
  let* tlvs := parseTLVs t in Ok (Some (mk s sp), Some (mk d dp), tlvs).
Proof.
  intros Hs Hd Hsp Hdp. unfold parseV2_addrs.
  rewrite slice_all by len_lia. cbn [go_bind].
  do 5 (first [rd | rewrite Uint16_Put_end by done; cbn [go_bind]]).
  cbv zeta. f_equal. destruct t as [|b t].
  - rewrite (proj2 (Z.ltb_ge _ _)) by len_lia. done.
  - rewrite (proj2 (Z.ltb_lt _ _)) by len_lia.
    rewrite !app_assoc. rewrite slice_from_app by len_lia. done.
Qed.

(** A version 2 header with its address block. *)
Definition v2_header (verCmd famTrans : Z) (addrData : list Z) : list Z :=
  v2_signature ++ [verCmd; famTrans] ++ PutUint16 (len addrData) ++ addrData.

Lemma is_v2_header vc ft ad rest : isPROXYProtocolV2 (v2_header vc ft ad ++ rest) = true.
Proof.
  unfold isPROXYProtocolV2, v2_header, v2_signature. cbn -[PutUint16 Z.leb len bool_decide].
  rewrite (proj2 (Z.leb_le _ _)) by len_lia. by rewrite bool_decide_eq_true_2.
Qed.

Lemma parseV2_spec cfg ft ad rest :
  len ad < 65520 ->
  parseV2 cfg (v2_header 33 ft ad ++ rest) =
  let header s d t := mkHeader PROXYProtocolV2 PROXYCommandProxy (Z.land ft 240) (Z.land ft 15) s d t in
  if Z.land ft 240 =? PROXYAFInet then
    check (len ad <? 12) "insufficient data for IPv4" (
    let* '(s, d, t) := parseV2_addrs ad 4 (Z.land ft 15) in Ok (header s d t, rest))
  else if Z.land ft 240 =? PROXYAFInet6 then
    check (len ad <? 36) "insufficient data for IPv6" (
    let* '(s, d, t) := parseV2_addrs ad 16 (Z.land ft 15) in Ok (header s d t, rest))
  else if Z.land ft 240 =? PROXYAFUnix then
    check (len ad <? 216) "insufficient data for UNIX" (Ok (header None None [], rest))
  else Ok (header None None [], rest).
Proof.
  intros Hl. pose proof (len_nonneg ad) as H0. unfold parseV2.
  assert (Hs : len v2_signature = 12) by done.
  assert (E : v2_header 33 ft ad ++ rest =
    v2_signature ++ [33; ft] ++ PutUint16 (len ad) ++ ad ++ rest)
    by (unfold v2_header; by rewrite <- !app_assoc).
  rewrite E. unfold check at 1. rewrite (proj2 (Z.ltb_ge _ _)) by len_lia.
  change (index (v2_signature ++ [33; ft] ++ PutUint16 (len ad) ++ ad ++ rest) 12) with (Ok 33).
  change (index (v2_signature ++ [33; ft] ++ PutUint16 (len ad) ++ ad ++ rest) 13) with (Ok ft).
  cbn [go_bind]. change (Z.land 33 15) with 1. cbn [check negb andb Z.eqb PROXYCommandProxy
    PROXYCommandLocal Pos.eqb].
  change (slice (v2_signature ++ [33; ft] ++ PutUint16 (len ad) ++ ad ++ rest) 14 16)
    with (slice ((v2_signature ++ [33; ft]) ++ PutUint16 (len ad) ++ ad ++ rest) 14 16).
  rewrite slice_app by done. cbn [go_bind]. rewrite Uint16_Put_end by lia. cbn [go_bind].
  unfold check at 1.
  rewrite (proj2 (Z.ltb_ge _ _)) by len_lia.
  rewrite u16_small by lia.
  assert (Es : v2_signature ++ [33; ft] ++ PutUint16 (len ad) ++ ad ++ rest =
    (v2_signature ++ [33; ft] ++ PutUint16 (len ad)) ++ ad ++ rest) by by rewrite <- !app_assoc.
  rewrite Es. rewrite slice_app by len_lia. cbn [go_bind].
  rewrite app_assoc. rewrite slice_from_app by len_lia. done.
Qed.

(** ** TLVs *)

Definition tlv_bytes (t : PROXYTLV) : list Z := Type_ t :: PutUint16 (len (Value t)) ++ Value t.

Lemma parseTLVs_loop_spec ts fuel p acc :
  (length ts <= fuel)%nat -> Forall (fun t => len (Value t) < 65536) ts ->
  parseTLVs_loop fuel (p ++ mjoin (tlv_bytes <$> ts)) (len p) acc = Ok (acc ++ ts).
Proof.
  revert fuel p acc. induction ts as [|t ts IH]; intros fuel p acc Hf Ht.
  - simpl. rewrite !app_nil_r. destruct fuel; [done|]. cbn [parseTLVs_loop].
    by rewrite (proj2 (Z.ltb_ge _ _)) by lia.
  - apply Forall_cons in Ht as [Ht Hts]. destruct fuel as [|fuel]; [simpl in Hf; lia|].
    cbn [fmap list_fmap mjoin list_join]. set (q := mjoin (tlv_bytes <$> ts)).
    pose proof (len_nonneg (Value t)) as H0. unfold tlv_bytes.
    rewrite <- !app_comm_cons, <- !app_assoc. cbn [parseTLVs_loop].
    rewrite (proj2 (Z.ltb_lt _ _)) by len_lia.
    rewrite (proj2 (Z.ltb_ge _ _)) by len_lia.
    assert (Hi : index (p ++ Type_ t :: PutUint16 (len (Value t)) ++ Value t ++ q) (len p)
      = Ok (Type_ t)).
    { unfold index, slice_get. rewrite bool_decide_eq_true_2 by (unfold len; lia).
      unfold len. by rewrite Nat2Z.id, list_lookup_middle. }
    rewrite Hi. cbn [go_bind].
    change (Type_ t :: PutUint16 (len (Value t)) ++ Value t ++ q)
      with ([Type_ t] ++ PutUint16 (len (Value t)) ++ Value t ++ q).
    rd. rewrite Uint16_Put_end by lia. cbn [go_bind].
    rewrite (proj2 (Z.ltb_ge _ _)) by len_lia. rd.
    replace (p ++ [Type_ t] ++ PutUint16 (len (Value t)) ++ Value t ++ q)
      with ((p ++ tlv_bytes t) ++ q) by (unfold tlv_bytes; by rewrite <- !app_assoc).
    replace (len p + (3 + len (Value t))) with (len (p ++ tlv_bytes t)) by (unfold tlv_bytes; len_lia).
    rewrite IH; [|simpl in Hf; lia|done]. rewrite <- app_assoc. by destruct t.
Qed.

(** The TLVs of a header are read back in order, each with its value. *)
Theorem proxy_tlvs_roundtrip ts :
  Forall (fun t => len (Value t) < 65536) ts ->
  parseTLVs (mjoin (tlv_bytes <$> ts)) = Ok ts.
Proof.
  intros Ht. unfold parseTLVs.
  rewrite <- (app_nil_l (mjoin _)) at 2. change 0 with (len (@nil Z)).
  rewrite parseTLVs_loop_spec; [done| |done].
  clear Ht. induction ts as [|t ts IH]; [done|].
  change (mjoin (tlv_bytes <$> t :: ts)) with (tlv_bytes t ++ mjoin (tlv_bytes <$> ts)).
  rewrite length_app. unfold tlv_bytes at 1. cbn [length]. lia.
Qed.

(** ** Writing and reading back *)

Lemma To4_length ip q : IP_To4 ip = Some q -> length q = 4%nat.
Proof.
  unfold IP_To4, To4. intros H. repeat case_match; simplify_eq; b2p; [done|].
  rewrite length_drop. lia.
Qed.

Lemma To16_length ip q : IP_To16 ip = Some q -> length q = 16%nat.
Proof.
  unfold IP_To16. intros H. repeat case_match; simplify_eq; b2p; [|done].
  rewrite length_app. simpl. lia.
Qed.

Lemma To16_valid ip : valid_ip ip -> exists q, IP_To16 ip = Some q.
Proof.
  intros [Hl _]. unfold IP_To16. destruct (bool_decide_reflect (length ip = 4%nat)); [eauto|].
  rewrite bool_decide_eq_true_2 by (destruct Hl; done). eauto.
Qed.

Lemma To4_Equal ip q : IP_To4 ip = Some q -> IP_Equal q ip = true.
Proof.
  intros H. pose proof (To4_length ip q H) as Hl. unfold IP_Equal. apply bool_decide_eq_true_2.
  unfold IP_To16 at 1. rewrite bool_decide_eq_true_2 by done.
  unfold IP_To4 in H. unfold IP_To16. case_bool_decide; [by simplify_eq|].
  case_bool_decide; [|done]. unfold To4 in H. case_bool_decide as Hp; [|done]. simplify_eq.
  by rewrite <- Hp, take_drop.
Qed.

Lemma To16_Equal ip q : IP_To16 ip = Some q -> IP_Equal q ip = true.
Proof.
  intros H. pose proof (To16_length ip q H) as Hl. unfold IP_Equal. apply bool_decide_eq_true_2.
  unfold IP_To16 at 1. rewrite bool_decide_eq_false_2 by lia.
  by rewrite bool_decide_eq_true_2, H by done.
Qed.

Lemma copy_into_whole n src : length src = n -> copy_into n src = src.
Proof. intros <-. unfold copy_into. apply take_app_length. Qed.

Definition is_port (p : Z) : Prop := 0 <= p <= 65535.

(** The header of a writer with its address block read back. *)
Lemma v2_written_addrs cfg s d srcPort dstPort n ft fam payload :
  AcceptV2 cfg = true -> len s = n -> len d = n ->
  0 <= srcPort < 2 ^ 16 -> 0 <= dstPort < 2 ^ 16 ->
  n = 4 /\ ft = 17 /\ fam = PROXYAFInet \/ n = 16 /\ ft = 33 /\ fam = PROXYAFInet6 ->
  Parse cfg (v2_header 33 ft (s ++ d ++ PutUint16 srcPort ++ PutUint16 dstPort) ++ payload) =
  Ok (mkHeader PROXYProtocolV2 PROXYCommandProxy fam PROXYTransportStream
        (Some (TCPAddr s srcPort)) (Some (TCPAddr d dstPort)) [], payload).
Proof.
  intros Hcfg Hs Hd Hps Hpd Hn. set (ad := s ++ d ++ PutUint16 srcPort ++ PutUint16 dstPort).
  assert (Hl : len ad = 2 * n + 4) by (unfold ad; len_lia).
  unfold Parse. rewrite is_v2_header, Hcfg. unfold check at 1.
  assert (len v2_signature = 12) by done.
  rewrite (proj2 (Z.ltb_ge _ _)) by (unfold v2_header; len_lia). cbn [negb check].
  rewrite parseV2_spec, Hl by lia.
  assert (Ead : parseV2_addrs ad n 1 = Ok (Some (TCPAddr s srcPort), Some (TCPAddr d dstPort), [])).
  { unfold ad. rewrite <- (app_nil_r (PutUint16 dstPort)).
    by rewrite parseV2_addrs_spec by (done || lia). }
  clearbody ad. destruct Hn as [(-> & -> & ->)|(-> & -> & ->)].
  - change (Z.land 17 240) with 16. change (Z.land 17 15) with 1. cbn -[parseV2_addrs].
    by rewrite Ead.
  - change (Z.land 33 240) with 32. change (Z.land 33 15) with 1. cbn -[parseV2_addrs].
    by rewrite Ead.
Qed.

Lemma v2_written cfg srcIP dstIP srcPort dstPort payload :
  AcceptV2 cfg = true -> valid_ip srcIP -> valid_ip dstIP ->
  (is_Some (IP_To4 srcIP) -> is_Some (IP_To4 dstIP)) -> is_port srcPort -> is_port dstPort ->
  exists h s d,
    Parse cfg (WriteV2 (TCPAddr srcIP srcPort) (TCPAddr dstIP dstPort) ++ payload) = Ok (h, payload) /\
    Command h = PROXYCommandProxy /\
    SourceAddr h = Some (TCPAddr s srcPort) /\ IP_Equal s srcIP = true /\
    DestAddr h = Some (TCPAddr d dstPort) /\ IP_Equal d dstIP = true /\ TLVs h = [].
Proof.
  unfold is_port. intros Hcfg Hs Hd Hfam Hsp Hdp.
  unfold WriteV2. rewrite !u16_small by lia. destruct (IP_To4 srcIP) as [s|] eqn:Es.
  - destruct Hfam as [d Ed]; [eauto|]. rewrite Ed. cbn [default id from_option].
    pose proof (To4_length _ _ Es). pose proof (To4_length _ _ Ed).
    rewrite !copy_into_whole by done. cbv beta iota.
    fold (v2_header 33 17 (s ++ d ++ PutUint16 srcPort ++ PutUint16 dstPort)).
    eexists _, s, d. split; [apply (v2_written_addrs cfg s d srcPort dstPort 4); auto; len_lia|].
    split_and!; try done; by apply To4_Equal.
  - destruct (To16_valid _ Hs) as [s Es16], (To16_valid _ Hd) as [d Ed16].
    rewrite Es16, Ed16. cbn [default id from_option].
    pose proof (To16_length _ _ Es16). pose proof (To16_length _ _ Ed16).
    rewrite !copy_into_whole by done. cbv beta iota.
    fold (v2_header 33 33 (s ++ d ++ PutUint16 srcPort ++ PutUint16 dstPort)).
    eexists _, s, d. split; [apply (v2_written_addrs cfg s d srcPort dstPort 16); auto; len_lia|].
    split_and!; try done; by apply To16_Equal.
Qed.

Lemma WriteV2_length src dst : (length (WriteV2 src dst) <= 256)%nat.
Proof.
  unfold WriteV2. rewrite length_app. change (length v2_signature) with 12%nat.
  assert (H : forall n l, (length (copy_into n l) <= n)%nat) by (intros; apply length_take_le || (unfold copy_into; rewrite length_take; lia)).
  destruct src as [ip p|ip p|t], dst as [ip' p'|ip' p'|t']; try (simpl; lia).
  destruct (IP_To4 ip) as [s|]; rewrite !length_app; simpl length.
  - pose proof (H 4%nat s). pose proof (H 4%nat (default [] (IP_To4 ip'))). lia.
  - pose proof (H 16%nat (default [] (IP_To16 ip))). pose proof (H 16%nat (default [] (IP_To16 ip'))). lia.
Qed.


Lemma Cut_crlf_app line r :
  Forall (fun b => b <> 13) line -> Cut_crlf (line ++ 13 :: 10 :: r) = Some (line, r).
Proof.
  induction line as [|b line IH]; [done|]. intros [Hb Hl]%Forall_cons.
  specialize (IH Hl). cbn [app Cut_crlf].
  destruct (line ++ 13 :: 10 :: r) as [|c t] eqn:E; [by destruct line|].
  rewrite (proj2 (Z.eqb_neq b 13)) by done. cbn [andb]. by rewrite IH.
Qed.

Lemma Cut_crlf_split data line r : Cut_crlf data = Some (line, r) -> data = line ++ 13 :: 10 :: r.
Proof.
  revert line. induction data as [|b data IH]; [done|]. intros line. cbn [Cut_crlf].
  destruct data as [|c t]; [done|]. case_match; intros H1.
  - b2p. by simplify_eq.
  - destruct (Cut_crlf (c :: t)) as [[l' r']|] eqn:E; [|done]. simpl in H1. simplify_eq.
    simpl. f_equal. by apply IH.
Qed.

Lemma bytes_of_visible s : all_chars visible s -> Forall (fun b => b <> 13) (bytes_of s).
Proof.
  induction s as [|c s IH]; [by constructor|]. intros [Hc Hs]. constructor; [|auto].
  unfold visible in Hc. lia.
Qed.

Lemma visible_no_space s : all_chars visible s -> all_chars (fun c => c <> " "%char) s.
Proof. apply all_chars_impl. intros c Hc ->. by vm_compute in Hc. Qed.

(** A line of visible words. *)
Lemma parse_line words payload :
  words <> [] -> Forall (all_chars visible) words ->
  let line := Join " " words in
  Cut_crlf (bytes_of (line +:+ crlf) ++ payload) = Some (bytes_of line, payload) /\
  Split " " (string_of (bytes_of line)) = words.
Proof.
  intros Hne Hw line. split.
  - rewrite bytes_of_app, <- app_assoc. apply Cut_crlf_app.
    unfold line. clear Hne line. induction words as [|w [|w' words] IH]; [by constructor| |].
    + apply bytes_of_visible. by apply Forall_cons in Hw as [? _].
    + apply Forall_cons in Hw as [Hw Hws].
      change (Join " " (w :: w' :: words)) with (w +:+ String " " (Join " " (w' :: words))).
      rewrite bytes_of_app. apply Forall_app. split; [by apply bytes_of_visible|].
      constructor; [done|]. by apply IH.
  - rewrite string_of_bytes_of. apply Split_Join; [done|].
    eapply Forall_impl; [exact Hw|]. intros s. apply visible_no_space.
Qed.

(** Data that starts like a version 1 header is given to its parser. *)
Lemma Parse_v1_words cfg words payload :
  AcceptV1 cfg = true -> words <> [] ->
  let data := bytes_of (Join " " ("PROXY" :: words) +:+ crlf) ++ payload in
  Parse cfg data = parseV1 data.
Proof.
  intros Hcfg Hw data.
  assert (El : exists b, data = bytes_of "PROXY" ++ b).
  { unfold data. destruct words as [|w words]; [done|]. cbn [Join].
    rewrite app_assoc_string, bytes_of_app, <- app_assoc. eauto. }
  clearbody data. destruct El as [b ->]. pose proof (len_nonneg b).
  assert (Hl : 5 <= len (bytes_of "PROXY" ++ b)) by (lens; change (slen "PROXY") with 5; lia).
  unfold Parse. unfold check at 1. rewrite (proj2 (Z.ltb_ge _ _)) by done.
  replace (isPROXYProtocolV2 (bytes_of "PROXY" ++ b)) with false.
  2:{ unfold isPROXYProtocolV2. destruct (_ <=? _); [|done]. cbn [andb].
      by rewrite bool_decide_eq_false_2. }
  unfold isPROXYProtocolV1. rewrite (proj2 (Z.leb_le _ _)), bool_decide_eq_true_2, Hcfg by done.
  done.
Qed.

(** A version 1 header that is written for two TCP addresses and sent ahead of any
    payload is read back as the same addresses (in 16-byte form) and ports, leaving
    exactly the payload; the families may differ. *)
Theorem proxy_v1_roundtrip cfg srcIP dstIP srcPort dstPort payload
  (Hcfg : AcceptV1 cfg = true) (Hs : valid_ip srcIP) (Hd : valid_ip dstIP)
  (Hsp : is_port srcPort) (Hdp : is_port dstPort) :
  exists h s d,
    Parse cfg (WriteV1 (TCPAddr srcIP srcPort) (TCPAddr dstIP dstPort) ++ payload) = Ok (h, payload) /\
    Command h = PROXYCommandProxy /\ Transport h = PROXYTransportStream /\
    SourceAddr h = Some (TCPAddr s srcPort) /\ IP_To16 srcIP = Some s /\
    DestAddr h = Some (TCPAddr d dstPort) /\ IP_To16 dstIP = Some d.
Proof.
  set (proto := if bool_decide (is_Some (IP_To4 srcIP)) then "TCP4" else "TCP6").
  set (words := ["PROXY"; proto; IP_String srcIP; IP_String dstIP; Itoa srcPort; Itoa dstPort]).
  assert (Hw : Forall (all_chars visible) words).
  { unfold is_port in *. unfold words, proto.
    apply Forall_cons_2; [by repeat split|].
    apply Forall_cons_2; [case_bool_decide; by repeat split|].
    do 2 (apply Forall_cons_2; [by apply IP_String_visible|]).
    do 2 (apply Forall_cons_2; [apply Itoa_visible; lia|]). by apply Forall_nil. }
  assert (Ew : WriteV1 (TCPAddr srcIP srcPort) (TCPAddr dstIP dstPort) =
    bytes_of (Join " " words +:+ crlf)).
  { unfold WriteV1, words. cbn [Join]. fold proto. autorewrite with olb_str. done. }
  destruct (parse_line words payload) as [Ec Esp]; [done|done|].
  destruct (To16_valid _ Hs) as [s Es], (To16_valid _ Hd) as [d Ed].
  assert (Hp : forall p, is_port p -> in_i64 p /\ valid_port p = true).
  { intros p Hp. unfold is_port in Hp. unfold in_i64, valid_port.
    rewrite (proj2 (Z.ltb_ge _ _)), (proj2 (Z.ltb_ge _ _)) by lia. split; [lia|done]. }
  destruct (Hp _ Hsp) as [Hi1 Hv1], (Hp _ Hdp) as [Hi2 Hv2].
  assert (Ep : parseV1 (bytes_of (Join " " words +:+ crlf) ++ payload) =
    Ok (mkHeader PROXYProtocolV1 PROXYCommandProxy
      (if bool_decide (is_Some (IP_To4 srcIP)) then PROXYAFInet else PROXYAFInet6)
      PROXYTransportStream (Some (TCPAddr s srcPort)) (Some (TCPAddr d dstPort)) [], payload)).
  { unfold parseV1. rewrite Ec, Esp. unfold words.
    rewrite !ParseIP_String, !Atoi_Itoa, Es, Ed, Hv1, Hv2 by done.
    unfold proto. by destruct (bool_decide (is_Some (IP_To4 srcIP))). }
  eexists _, s, d. split.
  - rewrite Ew. unfold words in *. rewrite Parse_v1_words by done. exact Ep.
  - by split_and!.
Qed.

(** ** The listener *)

Lemma slice_from_suffix (data r : list Z) off :
  slice_from data off = Ok r -> exists p, data = p ++ r.
Proof.
  unfold slice_from, slice. case_match; [|done]. intros [= <-].
  exists (take (Z.to_nat off) data). rewrite <- (take_drop (Z.to_nat off) data) at 1. f_equal.
  b2p. rewrite take_ge; [done|]. rewrite length_drop. unfold len in *. lia.
Qed.

Lemma go_bind_Ok {A B} (m : go A) (k : A -> go B) r :
  go_bind m k = Ok r -> exists a, m = Ok a /\ k a = Ok r.
Proof. destruct m; simpl; [eauto|done..]. Qed.

Lemma check_Ok {A} c e (k : go A) r : check c e k = Ok r -> k = Ok r.
Proof. unfold check. by case_match. Qed.

(** The parser gives back the end of its input. *)
Lemma Parse_suffix cfg data h r : Parse cfg data = Ok (h, r) -> exists p, data = p ++ r.
Proof.
  unfold Parse. intros H%check_Ok. case_match.
  - apply check_Ok in H. unfold parseV2 in H. apply check_Ok in H.
    apply go_bind_Ok in H as (vc & _ & H). do 2 apply check_Ok in H.
    apply go_bind_Ok in H as (ft & _ & H). apply go_bind_Ok in H as (lb & _ & H).
    apply go_bind_Ok in H as (l & _ & H). apply check_Ok in H.
    apply go_bind_Ok in H as (ad & _ & H). apply go_bind_Ok in H as (rem & Hrem & H).
    apply slice_from_suffix in Hrem as [p Hp]. exists p.
    repeat case_match; try apply check_Ok in H; try (by simplify_eq);
      apply go_bind_Ok in H as ([[? ?] ?] & _ & H); by simplify_eq.
  - case_match; [|done]. apply check_Ok in H. unfold parseV1 in H.
    destruct (Cut_crlf data) as [[line rem]|] eqn:E; [|done]. apply Cut_crlf_split in E.
    exists (line ++ [13; 10]). rewrite E, <- app_assoc.
    unfold check in H. repeat case_match; by simplify_eq.
Qed.

(** Accepting a connection never panics, whatever its first bytes are, and loses none
    of them: what the accepted connection replays is what was read, or the part of it
    after the header. *)
Theorem proxy_accept_safe remote data l
  (Hb : Forall is_byte data) :
  exists a, Accept remote (Some data) l = Ok a /\
    match a with
    | Plain => trustedReady l = true
    | Buffered buf => buf = take 256 data
    | Proxied rem _ => exists hdr, take 256 data = hdr ++ rem
    end.
Proof.
  unfold Accept. case_match eqn:E; [b2p; by exists Plain|].
  assert (Hp : Parse (l_config l) (take 256 data) <> Panic).
  { apply Parse_total; [by apply Forall_take|]. unfold len. rewrite length_take. lia. }
  destruct (Parse _ _) as [[h r]|e|] eqn:Ep; [|by eexists (Buffered _)|done].
  exists (Proxied r h). split; [done|]. by eapply Parse_suffix.
Qed.

(** With at least one valid trusted network configured, a PROXY header decides the
    source of a connection only when the peer's own address lies in one of the trusted
    networks; for every other peer the connection is passed on untouched and its source is
    the peer itself, whatever bytes it sends. *)
Theorem proxy_header_only_from_trusted cfg cidr net ip remote data a
  (Hin : cidr ∈ TrustedNetworks cfg) (Hnet : ParseCIDR cidr = Some (ip, net))
  (Ha : Accept remote data (NewPROXYListener (Some cfg)) = Ok a) :
  (a = Plain /\ forall addr, OriginalSource addr a = Some addr) \/
  exists host port src c i n, SplitHostPort remote = Some (host, port) /\ ParseIP host = Some src /\
    c ∈ TrustedNetworks cfg /\ ParseCIDR c = Some (i, n) /\ Contains n src = true.
Proof.
  set (l := NewPROXYListener (Some cfg)) in *.
  assert (Hn : net ∈ trustedNets l).
  { simpl. apply list_elem_of_omap. exists cidr. split; [done|]. by rewrite Hnet. }
  assert (Hr : trustedReady l = true).
  { simpl. rewrite bool_decide_eq_false_2; [done|]. intros E. simpl in Hn. rewrite E in Hn. set_solver. }
  unfold Accept in Ha. rewrite Hr in Ha. cbn [andb] in Ha.
  destruct (isTrustedSource remote l) eqn:Et; cbn [negb] in Ha.
  - right. unfold isTrustedSource in Et. rewrite Hr in Et. cbn [negb] in Et.
    destruct (SplitHostPort remote) as [[host port]|]; [|done].
    destruct (ParseIP host) as [src|] eqn:Es; [|done].
    apply existsb_exists in Et as (n & Hn' & Hc). apply list_elem_of_In in Hn'.
    simpl in Hn'. apply list_elem_of_omap in Hn' as (c & Hc1 & Hc2).
    destruct (ParseCIDR c) as [[i n']|] eqn:Ec; [|done]. simpl in Hc2. simplify_eq.
    eauto 15.
  - left. simplify_eq. done.
Qed.

(** A listener without trusted networks believes the header of every peer, although
    the documentation of [isTrustedSource] says that then nobody is trusted. *)
Theorem proxy_default_trusts_everyone remote srcIP dstIP srcPort dstPort
  (Hs : valid_ip srcIP) (Hd : valid_ip dstIP) (H4 : is_Some (IP_To4 srcIP) -> is_Some (IP_To4 dstIP))
  (Hsp : is_port srcPort) (Hdp : is_port dstPort) :
  let l := NewPROXYListener None in
  isTrustedSource remote l = false /\
  exists a s, Accept remote (Some (WriteV2 (TCPAddr srcIP srcPort) (TCPAddr dstIP dstPort))) l = Ok a /\
    (forall addr, OriginalSource addr a = Some (TCPAddr s srcPort)) /\ IP_Equal s srcIP = true.
Proof.
  intros l. split; [done|].
  destruct (v2_written DefaultPROXYProtocolConfig srcIP dstIP srcPort dstPort [])
    as (h & s & d & Hp & _ & E1 & E2 & _); [done..|].
  rewrite app_nil_r in Hp. unfold Accept. cbn [l NewPROXYListener default initTrustedNets
    trustedReady l_config andb].
  rewrite take_ge by (by apply WriteV2_length). rewrite Hp.
  eexists _, s. split; [done|]. split; [|done]. intros addr. exact E1.
Qed.

(** [Parse] itself panics on a version 2 header that announces 65520 bytes or more
    when they are present: [16+length] wraps around in [uint16]. *)
Theorem proxy_v2_length_wraps cfg vc ft ad
  (Hcfg : AcceptV2 cfg = true) (Hvc : vc = 33) (Hl : 65520 <= len ad < 65536) :
  Parse cfg (v2_header vc ft ad) = Panic.
Proof.
  subst vc. pose proof (is_v2_header 33 ft ad []) as Hv. rewrite app_nil_r in Hv.
  assert (Hs : len v2_signature = 12) by done.
  assert (Hlen : len (v2_header 33 ft ad) = 16 + len ad) by (unfold v2_header; len_lia).
  unfold Parse. rewrite Hv, Hcfg. unfold check at 1. rewrite (proj2 (Z.ltb_ge _ _)) by lia.
  cbn [negb check]. unfold parseV2. unfold check at 1. rewrite (proj2 (Z.ltb_ge _ _)) by lia.
  change (index (v2_header 33 ft ad) 12) with (Ok 33).
  change (index (v2_header 33 ft ad) 13) with (Ok ft).
  cbn [go_bind]. change (Z.land 33 15) with 1. cbn [check negb andb Z.eqb PROXYCommandProxy
    PROXYCommandLocal Pos.eqb].
  change (v2_header 33 ft ad) with ((v2_signature ++ [33; ft]) ++ PutUint16 (len ad) ++ ad) at 1.
  rewrite slice_app by done. cbn [go_bind]. rewrite Uint16_Put_end by lia. cbn [go_bind].
  unfold check at 1. rewrite (proj2 (Z.ltb_ge _ _)) by lia.
  rewrite slice_panic; [done|]. unfold u16. change (2 ^ 16) with 65536.
  replace (16 + len ad) with (len ad - 65520 + 1 * 65536) by lia.
  rewrite Z.mod_add by lia. rewrite Z.mod_small by lia. lia.
Qed.

(** ** Replaying connections *)

(** What a reader of the connection has still to receive. *)
Definition pending (c : bufferedConn) : list Z := drop (Z.to_nat (offset c)) (buffer c) ++ conn c.

(** Every [Read] delivers the next bytes: those read ahead first, then those of the
    connection, none skipped, repeated or reordered, and at least one while bytes read
    ahead are left. *)
Theorem buffered_conn_replays n avail c chunk c' :
  0 <= offset c <= len (buffer c) -> Read n avail c = (chunk, c') ->
  0 <= offset c' <= len (buffer c') /\ pending c = chunk ++ pending c' /\
  (length chunk <= n)%nat /\ ((0 < n)%nat -> offset c < len (buffer c) -> chunk <> []).
Proof.
  unfold Read, pending. intros Ho. destruct (Z.ltb_spec (offset c) (len (buffer c))) as [H|H];
    intros [= <- <-]; cbn [offset buffer conn].
  - set (b := drop (Z.to_nat (offset c)) (buffer c)).
    assert (Hb : len b = len (buffer c) - offset c) by (unfold b, len in *; rewrite length_drop; lia).
    assert (Hc : len (take n b) <= len b) by (unfold len; rewrite length_take; lia).
    pose proof (len_nonneg (take n b)). split_and!; [lia|lia| | |].
    + rewrite app_assoc. f_equal. rewrite <- (take_drop n b) at 1. f_equal.
      rewrite Z2Nat.inj_add by lia. rewrite <- drop_drop. fold b. unfold len.
      rewrite Nat2Z.id, length_take. destruct (Nat.le_gt_cases n (length b)).
      * by rewrite Nat.min_l by done.
      * rewrite Nat.min_r by lia. rewrite !drop_ge by lia. done.
    + rewrite length_take. lia.
    + intros Hn _ E. apply (f_equal length) in E. rewrite length_take in E. unfold len in *. simpl in E. lia.
  - split_and!; [lia|lia| | |lia].
    + rewrite (drop_ge (buffer c)) by (unfold len in *; lia). by rewrite !app_nil_l, take_drop.
    + rewrite length_take. lia.
Qed.

(** ** Examples *)

Definition demo_cfg : PROXYProtocolConfig := mkConfig true true false false true "" ["10.0.0.0/8"].

Lemma demo_ip : valid_ip [192; 168; 0; 1] /\ valid_ip [10; 0; 0; 7].
Proof. split; (split; [by left|repeat constructor; unfold is_byte; lia]). Qed.


Lemma proxy_v1_roundtrip_witness :
  exists h s d,
    Parse demo_cfg (WriteV1 (TCPAddr [192; 168; 0; 1] 12345) (TCPAddr [10; 0; 0; 7] 443) ++ [71; 69; 84])
      = Ok (h, [71; 69; 84]) /\
    Command h = PROXYCommandProxy /\ Transport h = PROXYTransportStream /\
    SourceAddr h = Some (TCPAddr s 12345) /\ IP_To16 [192; 168; 0; 1] = Some s /\
    DestAddr h = Some (TCPAddr d 443) /\ IP_To16 [10; 0; 0; 7] = Some d.
Proof.
  apply proxy_v1_roundtrip; [reflexivity|apply demo_ip|apply demo_ip|split; lia|split; lia].
Defined.

Lemma proxy_accept_safe_witness :
  exists a, Accept "10.0.0.9:1" (Some [80; 82; 79; 88; 89]) (NewPROXYListener (Some demo_cfg)) = Ok a /\
    match a with
    | Plain => trustedReady (NewPROXYListener (Some demo_cfg)) = true
    | Buffered buf => buf = [80; 82; 79; 88; 89]
    | Proxied rem _ => exists hdr, [80; 82; 79; 88; 89] = hdr ++ rem
    end.
Proof.
  apply (proxy_accept_safe "10.0.0.9:1" [80; 82; 79; 88; 89]).
  repeat constructor; unfold is_byte; lia.
Defined.

Lemma proxy_header_only_from_trusted_witness :
  Accept "8.8.8.8:53" (Some (bytes_of "PROXY UNKNOWN")) (NewPROXYListener (Some demo_cfg)) = Ok Plain /\
  ((Plain = Plain /\ forall addr, OriginalSource addr Plain = Some addr) \/
   exists host port src c i n, SplitHostPort "8.8.8.8:53" = Some (host, port) /\
     ParseIP host = Some src /\ c ∈ TrustedNetworks demo_cfg /\ ParseCIDR c = Some (i, n) /\
     Contains n src = true).
Proof.
  split; [vm_compute; reflexivity|].
  eapply (proxy_header_only_from_trusted demo_cfg "10.0.0.0/8" _ _ "8.8.8.8:53"
    (Some (bytes_of "PROXY UNKNOWN"))); [by left|vm_compute; reflexivity|vm_compute; reflexivity].
Defined.

Lemma proxy_default_trusts_everyone_witness :
  isTrustedSource "8.8.8.8:53" (NewPROXYListener None) = false /\
  exists a s, Accept "8.8.8.8:53" (Some (WriteV2 (TCPAddr [10; 0; 0; 7] 1) (TCPAddr [10; 0; 0; 7] 443)))
      (NewPROXYListener None) = Ok a /\
    (forall addr, OriginalSource addr a = Some (TCPAddr s 1)) /\ IP_Equal s [10; 0; 0; 7] = true.
Proof.
  apply proxy_default_trusts_everyone; [apply demo_ip|apply demo_ip|intros _; by eexists
    |split; lia|split; lia].
Defined.

Lemma proxy_v2_length_wraps_witness :
  Parse demo_cfg (v2_header 33 0 (replicate (Z.to_nat 65520) 0)) = Panic.
Proof.
  apply proxy_v2_length_wraps; [reflexivity|reflexivity|].
  rewrite len_replicate, Z2Nat.id by lia. lia.
Defined.

(** A version 2 header for an IPv4 source and an IPv6 destination loses the destination. *)
Example proxy_v2_mixed_families :
  match Parse demo_cfg (WriteV2 (TCPAddr [192; 168; 0; 1] 1) (TCPAddr (replicate 15 0 ++ [1]) 443)) with
  | Ok (h, _) => DestAddr h = Some (TCPAddr [0; 0; 0; 0] 443)
  | _ => False
  end.
Proof. reflexivity. Qed.
