(* ===== verification/SNI.v ===== *)
(** * Routing by server name: [internal/proxy/l4/sni.go]

    The parser of the TLS ClientHello, the two routers by server name, the matcher of
    name patterns and the routing decision for a connection.  A connection is the list
    of the bytes that arrive on it before it ends or times out.  Server names are
    ASCII (the parser accepts no others), so [strings.ToLower] acts on bytes. *)
From S2P Require Import Prelude Http Bytes GoStrings NetIP NetAddr GoEncoding.
From Stdlib Require Import Ascii.

(** ** Parsing the ClientHello *)

Definition host_char (c : Z) : bool :=
  ((97 <=? c) && (c <=? 122)) || ((65 <=? c) && (c <=? 90)) || ((48 <=? c) && (c <=? 57))
  || (c =? 45) || (c =? 46).

(** The loop over the characters of the name. *)
Fixpoint validate_chars (host : list Z) : go unit :=
  match host with
  | [] => Ok tt
  | c :: r =>
      check ((c <? 32) || (c =? 127)) "invalid SNI hostname: control character at position %d" (
      check (negb (host_char c)) "invalid SNI hostname: invalid character %q at position %d" (
      validate_chars r))
  end.

Definition validateSNIHostname (host : list Z) : go unit :=
  check ((len host =? 0) || (253 <? len host)) "invalid SNI hostname length: %d" (
  validate_chars host).

(** The loop over the entries: an entry has at least three bytes. *)
Fixpoint parse_entries (fuel : nat) (data : list Z) : go string :=
  match fuel with
  | O => Err "no host name SNI found"
  | S fuel =>
      if 3 <=? len data then
        let* sniType := index data 0 in
        let* lb := slice data 1 3 in
        let* sniLen := Uint16 lb in
        check (len data <? 3 + sniLen) "data too short for SNI entry" (
        let* sniData := slice data 3 (3 + sniLen) in
        if sniType =? 0 then
          let* _ := validateSNIHostname sniData in
          Ok (string_of sniData)
        else
          let* data := slice_from data (3 + sniLen) in
          parse_entries fuel data)
      else Err "no host name SNI found"
  end.

Definition parseSNIList (data : list Z) : go string :=
  check (len data <? 2) "data too short for SNI list length" (
  let* lb := slice data 0 2 in
  let* sniListLen := Uint16 lb in
  check (len data <? 2 + sniListLen) "data too short for SNI list" (
  let* data := slice data 2 (2 + sniListLen) in
  parse_entries (length data) data)).

(** The loop over the extensions: an extension has at least four bytes. *)
Fixpoint parse_extensions (fuel : nat) (extensions : list Z) : go string :=
  match fuel with
  | O => Err "sni extension not found"
  | S fuel =>
      if 4 <=? len extensions then
        let* tb := slice extensions 0 2 in
        let* extensionType := Uint16 tb in
        let* lb := slice extensions 2 4 in
        let* extensionLen := Uint16 lb in
        check (len extensions <? 4 + extensionLen) "incomplete extension" (
        let* extensionData := slice extensions 4 (4 + extensionLen) in
        if extensionType =? 0 then parseSNIList extensionData
        else
          let* extensions := slice_from extensions (4 + extensionLen) in
          parse_extensions fuel extensions)
      else Err "sni extension not found"
  end.

Definition parseSNIExtension (extensions : list Z) : go string :=
  parse_extensions (length extensions) extensions.

Definition parseClientHello (data : list Z) : go string :=
  check (len data <? 4) "data too short" (
  let* b1 := index data 1 in
  let* b2 := index data 2 in
  let* b3 := index data 3 in
  let handshakeLen := Z.lor (Z.lor (Z.shiftl b1 16) (Z.shiftl b2 8)) b3 in
  check (len data <? handshakeLen + 4) "incomplete ClientHello" (
  let* data := slice_from data 4 in
  check (len data <? 2) "data too short for version" (
  let* vb := slice data 0 2 in
  let* version := Uint16 vb in
  check ((version <? 768) || (772 <? version)) "invalid ClientHello version" (
  let* data := slice_from data 2 in
  check (len data <? 32) "data too short for random" (
  let* data := slice_from data 32 in
  check (len data <? 1) "data too short for session ID length" (
  let* sessionIDLen := index data 0 in
  let* data := slice_from data 1 in
  check (len data <? sessionIDLen) "data too short for session ID" (
  let* data := slice_from data sessionIDLen in
  check (len data <? 2) "data too short for cipher suites length" (
  let* cb := slice data 0 2 in
  let* cipherSuitesLen := Uint16 cb in
  let* data := slice_from data 2 in
  check (len data <? cipherSuitesLen) "data too short for cipher suites" (
  let* data := slice_from data cipherSuitesLen in
  check (len data <? 1) "data too short for compression length" (
  let* compressionLen := index data 0 in
  let* data := slice_from data 1 in
  check (len data <? compressionLen) "data too short for compression methods" (
  let* data := slice_from data compressionLen in
  check (len data <? 2) "no extensions" (
  let* eb := slice data 0 2 in
  let* extensionsLen := Uint16 eb in
  let* data := slice_from data 2 in
  check (len data <? extensionsLen) "data too short for extensions" (
  let* extensions := slice data 0 extensionsLen in
  parseSNIExtension extensions))))))))))))).

Definition ParseClientHelloSNI (data : list Z) : go string :=
  check (len data <? 5) "data too short for TLS record" (
  let* contentType := index data 0 in
  check (negb (contentType =? 22)) "not a TLS handshake record" (
  let* vb := slice data 1 3 in
  let* version := Uint16 vb in
  check ((version <? 768) || (772 <? version)) "invalid TLS version" (
  let* lb := slice data 3 5 in
  let* recordLen := Uint16 lb in
  check (len data <? recordLen + 5) "incomplete TLS record" (
  check (len data <? 9) "data too short for handshake header" (
  let* handshakeType := index data 5 in
  check (negb (handshakeType =? 1)) "not a ClientHello message" (
  let* data := slice_from data 5 in
  parseClientHello data)))))).

Definition IsTLSConnection (data : list Z) : go bool :=
  if len data <? 6 then Ok false
  else
    let* b0 := index data 0 in
    if negb (b0 =? 22) then Ok false
    else
      let* vb := slice data 1 3 in
      let* version := Uint16 vb in
      if (version <? 768) || (772 <? version) then Ok false
      else
        let* b5 := index data 5 in
        Ok (b5 =? 1).

(** [%04x]. *)
Definition hex4 (v : Z) : string :=
  String (digit_char (v / 4096 mod 16)) (String (digit_char (v / 256 mod 16))
    (String (digit_char (v / 16 mod 16)) (String (digit_char (v mod 16)) ""))).

Definition ParseTLSVersion (data : list Z) : go string :=
  check (len data <? 3) "data too short" (
  let* vb := slice data 1 3 in
  let* version := Uint16 vb in
  Ok (if version =? 768 then "SSL 3.0"
      else if version =? 769 then "TLS 1.0"
      else if version =? 770 then "TLS 1.1"
      else if version =? 771 then "TLS 1.2"
      else if version =? 772 then "TLS 1.3"
      else "Unknown (0x" +:+ hex4 version +:+ ")")).

Record TLSRecordInfo := mkRecordInfo {
  ContentType : string; ri_Version : string; ri_Length : Z; IsClientHello : bool }.

Definition ParseTLSRecordInfo (data : list Z) : go TLSRecordInfo :=
  check (len data <? 5) "data too short for TLS record" (
  let* b0 := index data 0 in
  let ct := if b0 =? 22 then "Handshake" else if b0 =? 20 then "ChangeCipherSpec"
            else if b0 =? 21 then "Alert" else if b0 =? 23 then "Application"
            else "Unknown (" +:+ Itoa b0 +:+ ")" in
  let* version := ParseTLSVersion data in
  let* lb := slice data 3 5 in
  let* length := Uint16 lb in
  let hello := match slice_get data 5 with Some b => b =? 1 | None => false end in
  Ok (mkRecordInfo ct version length hello)).

(** ** Routers *)

(** The loop over the wildcards of a name: [parts] are its labels after the first. *)
Fixpoint wildcard_lookup {A} (routes : gmap string A) (parts : list string) : option A :=
  match parts with
  | [] => None
  | _ :: r =>
      match routes !! ("*." +:+ Join "." parts) with
      | Some a => Some a
      | None => wildcard_lookup routes r
      end
  end.

Definition route_lookup {A} (routes : gmap string A) (sni : string) : option A :=
  match routes !! ToLower sni with
  | Some a => Some a
  | None => wildcard_lookup routes (drop 1 (Split "." sni))
  end.

Record SNIRouterConfig := mkSNIConfig {
  DefaultBackend : string;
  Passthrough : bool;
  ReadTimeout : Z;
  MaxHandshakeSize : Z;
  MaxConnections : Z
}.

Definition DefaultSNIRouterConfig : SNIRouterConfig :=
  mkSNIConfig "" true 5000000000 16384 10000.

(** [SNIRouter]: backends are pointers. *)
Record SNIRouter := mkRouter { r_config : SNIRouterConfig; routes : gmap string nat }.

Definition NewSNIRouter (cfg : option SNIRouterConfig) : SNIRouter :=
  mkRouter (default DefaultSNIRouterConfig cfg) ∅.

Definition AddRoute (sni : string) (b : nat) (r : SNIRouter) : SNIRouter :=
  mkRouter (r_config r) (<[ToLower sni := b]> (routes r)).

Definition RemoveRoute (sni : string) (r : SNIRouter) : SNIRouter :=
  mkRouter (r_config r) (delete (ToLower sni) (routes r)).

Definition GetRoute (sni : string) (r : SNIRouter) : option nat := route_lookup (routes r) sni.

(** [SNIProxy]: the routes are addresses; the empty address is none. *)
Record SNIProxy := mkProxy { p_config : SNIRouterConfig; p_routes : gmap string string }.

Definition SNIProxy_AddRoute (sni backendAddr : string) (p : SNIProxy) : SNIProxy :=
  mkProxy (p_config p) (<[ToLower sni := backendAddr]> (p_routes p)).

Definition GetBackend (sni : string) (p : SNIProxy) : string :=
  default "" (route_lookup (p_routes p) sni).

(** ** Connections *)

(** [io.ReadFull]. *)
Definition ReadFull (n : Z) (stream : list Z) : option (list Z * list Z) :=
  if n <=? len stream then Some (take (Z.to_nat n) stream, drop (Z.to_nat n) stream) else None.

(** The name, the bytes the returned connection replays and what is left to arrive. *)
Definition peekClientHello (cfg : SNIRouterConfig) (stream : list Z)
    : go (go string * list Z * list Z) :=
  match ReadFull 5 stream with
  | None => Ok (Err "EOF", [], [])
  | Some (header, rest) =>
      let* h0 := index header 0 in
      if negb (h0 =? 22) then Ok (Err "not a TLS handshake record", header, rest)
      else
        let* h3 := index header 3 in
        let* h4 := index header 4 in
        let recordLen := Z.lor (Z.shiftl h3 8) h4 in
        if MaxHandshakeSize cfg <? recordLen
        then Ok (Err "TLS ClientHello too large (%d bytes, max %d)", [], rest)
        else match ReadFull recordLen rest with
        | None => Ok (Err "EOF", [], [])
        | Some (record, rest') =>
            let buf := header ++ record in
            match ParseClientHelloSNI buf with
            | Panic => Panic
            | r => Ok (r, buf, rest')
            end
        end
  end.

(** What becomes of a connection: closed with an error, or proxied to a backend that
    receives the bytes [replay] and then the rest of the stream. *)
Inductive routing :=
  | Closed (e : string)
  | Left_open (e : string)
  | ProxyTo (backend : nat) (replay rest : list Z).

(** [routeToDefault] closes the connection. *)
Definition routeToDefault : routing := Closed "no route found and no default backend".

Definition RouteConnection (stream : list Z) (r : SNIRouter) : go routing :=
  let* '(res, replay, rest) := peekClientHello (r_config r) stream in
  match res with
  | Ok sni =>
      match GetRoute sni r with
      | None =>
          if bool_decide (DefaultBackend (r_config r) <> "") then Ok routeToDefault
          else Ok (Left_open "no route for SNI: %s")
      | Some b => Ok (ProxyTo b replay rest)
      end
  | _ => Ok routeToDefault
  end.

(** [ExtractSNI] after its first [Read] of at most 16 KiB returned [buf]. *)
Definition ExtractSNI (buf : list Z) : go (go string * list Z) :=
  let* tls := IsTLSConnection buf in
  if negb tls then Ok (Err "not a TLS connection", buf)
  else match ParseClientHelloSNI buf with
  | Panic => Panic
  | r => Ok (r, buf)
  end.

(** [SNIProxy.HandleConnection]: the address that is dialled, if any, and the bytes sent
    ahead. *)
Definition HandleConnection (buf : list Z) (p : SNIProxy) : go (option (string * list Z)) :=
  let* '(res, replay) := ExtractSNI buf in
  match res with
  | Ok sni =>
      let addr := GetBackend sni p in
      let addr := if bool_decide (addr = "") then DefaultBackend (p_config p) else addr in
      Ok (if bool_decide (addr = "") then None else Some (addr, replay))
  | _ => Ok None
  end.

(** ** The pattern matcher *)

Record SNIMatcher := mkMatcher { exact : gset string; wildcards : list string }.

Definition NewSNIMatcher : SNIMatcher := mkMatcher ∅ [].

Definition Matcher_Add (pattern : string) (m : SNIMatcher) : SNIMatcher :=
  if HasPrefix pattern "*." then mkMatcher (exact m) (wildcards m ++ [string_drop 2 pattern])
  else mkMatcher ({[pattern]} ∪ exact m) (wildcards m).

Definition Matcher_Match (sni : string) (m : SNIMatcher) : bool :=
  bool_decide (sni ∈ exact m) ||
  existsb (fun w => HasSuffix sni w && negb (bool_decide (sni = w))) (wildcards m).

(** ** Safety of the parser *)

Lemma lor_shiftl a b n : 0 <= n -> 0 <= b < 2 ^ n -> Z.lor (Z.shiftl a n) b = a * 2 ^ n + b.
Proof.
  intros Hn Hb. assert (E : Z.land (Z.shiftl a n) b = 0).
  { apply Z.bits_inj'. intros i Hi. rewrite Z.land_spec, Z.bits_0.
    destruct (Z.ltb_spec i n).
    - by rewrite Z.shiftl_spec_low.
    - rewrite <- (Z.mod_small b (2 ^ n)) by lia. rewrite Z.mod_pow2_bits_high by lia.
      by rewrite andb_false_r. }
  pose proof (Z.add_lor_land (Z.shiftl a n) b). rewrite Z.shiftl_mul_pow2 in * by done. lia.
Qed.

Lemma validate_chars_total host : validate_chars host <> Panic.
Proof. induction host as [|c r IH]; [done|]. simpl. by repeat np. Qed.

Lemma validateSNIHostname_total host : validateSNIHostname host <> Panic.
Proof. unfold validateSNIHostname. np. apply validate_chars_total. Qed.

Lemma parse_entries_total fuel data : Forall is_byte data -> parse_entries fuel data <> Panic.
Proof.
  revert data. induction fuel as [|fuel IH]; intros data Hb; [done|]. cbn [parse_entries].
  case_match; [|done]. b2p. np. np. np. np. np. case_match.
  - destruct (validateSNIHostname _) eqn:E; [done|done|].
    by destruct (validateSNIHostname_total x0).
  - unfold slice_from. np. by apply IH.
Qed.

Lemma parseSNIList_total data : Forall is_byte data -> parseSNIList data <> Panic.
Proof. intros Hb. unfold parseSNIList. do 5 np. by apply parse_entries_total. Qed.

Lemma parse_extensions_total fuel data : Forall is_byte data -> parse_extensions fuel data <> Panic.
Proof.
  revert data. induction fuel as [|fuel IH]; intros data Hb; [done|]. cbn [parse_extensions].
  case_match; [|done]. b2p. do 6 np. case_match.
  - by apply parseSNIList_total.
  - unfold slice_from. np. by apply IH.
Qed.

Lemma parseClientHello_total data : Forall is_byte data -> parseClientHello data <> Panic.
Proof.
  intros Hb. unfold parseClientHello. repeat (np; unfold is_byte in *).
  by apply parse_extensions_total.
Qed.

Lemma ParseClientHelloSNI_total data : Forall is_byte data -> ParseClientHelloSNI data <> Panic.
Proof.
  intros Hb. unfold ParseClientHelloSNI. repeat np. by apply parseClientHello_total.
Qed.

(** ** The name of a ClientHello *)

Definition valid_host (host : list Z) : Prop :=
  1 <= len host <= 253 /\ Forall (fun c => host_char c = true) host.

Lemma host_char_range c : host_char c = true -> 45 <= c <= 122.
Proof.
  unfold host_char. intros H. repeat (apply orb_true_iff in H as [H|H]); b2p; lia.
Qed.

Lemma validate_chars_spec host :
  validate_chars host = Ok tt <-> Forall (fun c => host_char c = true) host.
Proof.
  induction host as [|c r IH]; [split; [constructor|done]|]. simpl. unfold check.
  rewrite Forall_cons. destruct (host_char c) eqn:E.
  - apply host_char_range in E as Hr.
    rewrite (proj2 (Z.ltb_ge c 32)), (proj2 (Z.eqb_neq c 127)) by lia. cbn [orb negb].
    rewrite IH. naive_solver.
  - cbn [negb]. split; [|naive_solver]. by case_match.
Qed.

Lemma validateSNIHostname_spec host : validateSNIHostname host = Ok tt <-> valid_host host.
Proof.
  unfold validateSNIHostname, valid_host. rewrite <- validate_chars_spec. unfold check.
  destruct (Z.eqb_spec (len host) 0); cbn [orb]; [split; [done|lia]|].
  destruct (Z.ltb_spec 253 (len host)); [split; [done|lia]|].
  pose proof (len_nonneg host). split; [|tauto]. split; [lia|done].
Qed.

Lemma parse_entries_valid fuel data name :
  Forall is_byte data -> parse_entries fuel data = Ok name -> valid_host (bytes_of name).
Proof.
  revert data. induction fuel as [|fuel IH]; intros data Hb; [done|]. cbn [parse_entries].
  case_match; [|done].
  destruct (index data 0) as [t| |]; [|done..]. cbn [go_bind].
  destruct (slice data 1 3) as [lb| |]; [|done..]. cbn [go_bind].
  destruct (Uint16 lb) as [l| |]; [|done..]. cbn [go_bind]. unfold check. case_match; [done|].
  destruct (slice data 3 (3 + l)) as [sd| |] eqn:Es; [|done..]. cbn [go_bind]. case_match.
  - destruct (validateSNIHostname sd) as [[]| |] eqn:Ev; [|done..]. cbn [go_bind]. intros [= <-].
    rewrite bytes_of_string_of by by eapply slice_bytes. by apply validateSNIHostname_spec.
  - destruct (slice_from data (3 + l)) as [d| |] eqn:Ed; [|done..]. cbn [go_bind].
    apply IH. unfold slice_from in Ed. by eapply slice_bytes.
Qed.

(** ** A ClientHello and its encoding *)

Record ClientHello := mkHello {
  ch_record_version : Z;
  ch_version : Z;
  ch_random : list Z;
  ch_session : list Z;
  ch_ciphers : list Z;
  ch_compression : list Z;
  ch_extensions : list (Z * list Z)
}.

Definition ext_bytes (e : Z * list Z) : list Z := PutUint16 e.1 ++ PutUint16 (len e.2) ++ e.2.

Definition exts_bytes (es : list (Z * list Z)) : list Z := mjoin (ext_bytes <$> es).

Definition hello_body (h : ClientHello) : list Z :=
  PutUint16 (ch_version h) ++ ch_random h ++ [len (ch_session h)] ++ ch_session h ++
  PutUint16 (len (ch_ciphers h)) ++ ch_ciphers h ++ [len (ch_compression h)] ++ ch_compression h ++
  PutUint16 (len (exts_bytes (ch_extensions h))) ++ exts_bytes (ch_extensions h).

(** The handshake message: type and a length of three bytes. *)
Definition hello_message (h : ClientHello) : list Z :=
  let n := len (hello_body h) in
  [1; n / 65536; n / 256 mod 256; n mod 256] ++ hello_body h.

Definition hello_record (h : ClientHello) : list Z :=
  [22] ++ PutUint16 (ch_record_version h) ++ PutUint16 (len (hello_message h)) ++ hello_message h.

Definition tls_version (v : Z) : Prop := 768 <= v <= 772.

Definition hello_ok (h : ClientHello) : Prop :=
  tls_version (ch_record_version h) /\ tls_version (ch_version h) /\
  len (ch_random h) = 32 /\ len (ch_session h) < 256 /\ len (ch_compression h) < 256 /\
  Forall (fun e => 0 <= e.1 < 65536) (ch_extensions h) /\ len (hello_message h) < 65536.

(** A [server_name] extension with one host name. *)
Definition sni_extension (host : list Z) : Z * list Z :=
  (0, PutUint16 (len host + 3) ++ [0] ++ PutUint16 (len host) ++ host).

Lemma exts_bytes_cons e es : exts_bytes (e :: es) = ext_bytes e ++ exts_bytes es.
Proof. done. Qed.

Lemma exts_bytes_member e es : e ∈ es -> len e.2 <= len (exts_bytes es).
Proof.
  induction es as [|x es IH]; [set_solver|]. rewrite exts_bytes_cons.
  intros [->|He]%elem_of_cons; [|specialize (IH He)]; unfold ext_bytes; len_lia.
Qed.

(** The extensions before the first [server_name] are skipped. *)
Lemma parse_extensions_skip pre e post fuel :
  (length pre < fuel)%nat ->
  Forall (fun x => 0 <= x.1 < 65536 /\ len x.2 < 65536) (pre ++ e :: post) ->
  Forall (fun x => x.1 <> 0) pre -> e.1 = 0 ->
  parse_extensions fuel (exts_bytes (pre ++ e :: post)) = parseSNIList e.2.
Proof.
  revert fuel. induction pre as [|x pre IH]; intros fuel Hf Hall Hpre He;
    (destruct fuel as [|fuel]; [lia|]); cbn [app] in *;
    apply Forall_cons in Hall as [[Ht Hl] Hall]; rewrite exts_bytes_cons; unfold ext_bytes;
    rewrite <- !app_assoc; cbn [parse_extensions].
  - pose proof (len_nonneg e.2). rewrite (proj2 (Z.leb_le _ _)) by len_lia.
    rd. rewrite Uint16_Put_end by lia. cbn [go_bind]. rd. rewrite Uint16_Put_end by lia.
    cbn [go_bind]. chk. rd. by rewrite He.
  - pose proof (len_nonneg x.2). apply Forall_cons in Hpre as [Hx Hpre].
    rewrite (proj2 (Z.leb_le _ _)) by len_lia.
    rd. rewrite Uint16_Put_end by lia. cbn [go_bind]. rd. rewrite Uint16_Put_end by lia.
    cbn [go_bind]. chk. rd. rewrite (proj2 (Z.eqb_neq _ _)) by done.
    rewrite !app_assoc. rewrite slice_from_app by len_lia. cbn [go_bind].
    apply IH; [simpl in Hf; lia|done..].
Qed.

Lemma parseSNIList_host host :
  valid_host host -> parseSNIList (sni_extension host).2 = Ok (string_of host).
Proof.
  intros Hv. pose proof Hv as [Hl _]. unfold parseSNIList. cbn [snd sni_extension].
  chk. rd. rewrite Uint16_Put_end by lia. cbn [go_bind]. chk.
  rewrite slice_skip by len_lia. rewrite slice_whole by len_lia. cbn [go_bind].
  cbn [app length parse_entries]. rewrite (proj2 (Z.leb_le _ _)) by len_lia.
  rewrite index_app_l. cbn [go_bind].
  change (0 :: PutUint16 (len host) ++ host) with ([0] ++ PutUint16 (len host) ++ host).
  rd. rewrite Uint16_Put_end by lia. cbn [go_bind]. chk. rd. rewrite Z.eqb_refl.
  by rewrite (proj2 (validateSNIHostname_spec host) Hv).
Qed.

Lemma slice_from_split (a b : list Z) lo : lo = len a -> slice_from (a ++ b) lo = Ok b.
Proof. apply slice_from_app. Qed.

(** [sf]: drops the next field of the message. *)
Ltac sf := rewrite slice_from_split by len_lia; cbn [go_bind].

Lemma index_one {A} (x : A) r : index ([x] ++ r) 0 = Ok x.
Proof. done. Qed.

(** The fixed fields are skipped. *)
Lemma parseClientHello_body h n b1 b2 b3 trailing :
  hello_ok h -> n = len (hello_body h) -> b1 = n / 65536 -> b2 = n / 256 mod 256 -> b3 = n mod 256 ->
  parseClientHello ([1; b1; b2; b3] ++ hello_body h ++ trailing) =
  parseSNIExtension (exts_bytes (ch_extensions h)).
Proof.
  intros (_ & Hv & Hr & Hs & Hc & _ & Hm) En E1 E2 E3.
  assert (Hn : 0 <= n < 65536 - 4).
  { pose proof (len_nonneg (hello_body h)). unfold hello_message in Hm. rewrite len_app in Hm.
    change (len [_; _; _; _]) with 4 in Hm. lia. }
  unfold parseClientHello. pose proof (len_nonneg (hello_body h)).
  assert (Hb2 : 0 <= b2 < 256) by (subst b2; apply Z.mod_pos_bound; lia).
  assert (Hb3 : 0 <= b3 < 256) by (subst b3; apply Z.mod_pos_bound; lia).
  assert (Hb1 : b1 = 0) by (subst b1; apply Z.div_small; lia).
  chk. change (index ([1; b1; b2; b3] ++ hello_body h ++ trailing) 1) with (Ok b1).
  change (index ([1; b1; b2; b3] ++ hello_body h ++ trailing) 2) with (Ok b2).
  change (index ([1; b1; b2; b3] ++ hello_body h ++ trailing) 3) with (Ok b3). cbn [go_bind].
  assert (El : Z.lor (Z.lor (Z.shiftl b1 16) (Z.shiftl b2 8)) b3 = n).
  { rewrite Hb1, Z.shiftl_0_l, Z.lor_0_l, lor_shiftl by lia.
    subst b2 b3. Z.div_mod_to_equations. lia. }
  rewrite El. chk. sf. clear El E1 E2 E3 Hb1 Hb2 Hb3.
  assert (Hx : len (exts_bytes (ch_extensions h)) <= n).
  { rewrite En. unfold hello_body. len_lia. }
  assert (Hci : len (ch_ciphers h) <= n) by (rewrite En; unfold hello_body; len_lia).
  unfold tls_version in Hv.
  unfold hello_body. rewrite <- !app_assoc.
  pose proof (len_nonneg (ch_session h)). pose proof (len_nonneg (ch_compression h)).
  pose proof (len_nonneg (ch_ciphers h)). pose proof (len_nonneg (exts_bytes (ch_extensions h))).
  chk. rd. rewrite Uint16_Put_end by lia. cbn [go_bind].
  unfold check at 1. rewrite (proj2 (Z.ltb_ge _ _)), (proj2 (Z.ltb_ge _ _)) by lia. cbn [orb].
  sf. chk. sf. chk. rewrite index_one. cbn [go_bind]. sf. chk. sf. chk. rd.
  rewrite Uint16_Put_end by lia. cbn [go_bind]. sf. chk. sf. chk.
  rewrite index_one. cbn [go_bind]. sf. chk. sf. chk. rd. rewrite Uint16_Put_end by lia.
  cbn [go_bind]. sf. chk. rewrite slice_all by len_lia. done.
Qed.

Lemma ParseClientHelloSNI_record h trailing :
  hello_ok h ->
  ParseClientHelloSNI (hello_record h ++ trailing) = parseSNIExtension (exts_bytes (ch_extensions h)).
Proof.
  intros Hok. pose proof Hok as (Hrv & Hv & Hr & _ & _ & _ & Hm). unfold tls_version in *.
  unfold ParseClientHelloSNI, hello_record. rewrite <- !app_assoc.
  assert (Hbody : 34 <= len (hello_body h)) by (unfold hello_body; len_lia).
  assert (Hmsg : len (hello_message h) = 4 + len (hello_body h)).
  { unfold hello_message. rewrite len_app. done. }
  chk. rewrite index_one. cbn [go_bind check negb Z.eqb Pos.eqb].
  rd. rewrite Uint16_Put_end by lia. cbn [go_bind].
  unfold check at 1. rewrite (proj2 (Z.ltb_ge _ _)), (proj2 (Z.ltb_ge _ _)) by lia. cbn [orb].
  rd. rewrite Uint16_Put_end by lia. cbn [go_bind]. chk. chk.
  unfold hello_message at 2. cbn [index slice_get].
  change (index _ 5) with (@Ok Z 1). cbn [go_bind check negb Z.eqb Pos.eqb].
  rewrite (app_assoc [22]), (app_assoc ([22] ++ _)). rewrite slice_from_app by len_lia.
  cbn [go_bind]. unfold hello_message. rewrite <- app_assoc.
  by apply (parseClientHello_body h (len (hello_body h))).
Qed.

Lemma hello_sni h pre host post trailing :
  hello_ok h -> ch_extensions h = pre ++ sni_extension host :: post ->
  Forall (fun x => x.1 <> 0) pre -> valid_host host ->
  ParseClientHelloSNI (hello_record h ++ trailing) = Ok (string_of host).
Proof.
  intros Hok Hext Hpre Hhost.
  rewrite ParseClientHelloSNI_record by done. pose proof Hok as (_ & _ & _ & _ & _ & He & Hm).
  rewrite Hext in *. unfold parseSNIExtension.
  rewrite parse_extensions_skip; [by apply parseSNIList_host| | |done|done].
  - clear. induction pre as [|x pre IH]; cbn [app]; rewrite exts_bytes_cons, length_app;
      unfold ext_bytes at 1; rewrite !length_app; cbn [length PutUint16]; lia.
  - rewrite Forall_forall in *. intros x Hx. split; [by apply He|].
    pose proof (exts_bytes_member x _ Hx). assert (len (exts_bytes (ch_extensions h)) < 65536).
    { unfold hello_message, hello_body in Hm. revert Hm. len_lia. }
    rewrite Hext in *. lia.
Qed.

Lemma sni_client_hello_parse h pre host post :
  hello_ok h -> ch_extensions h = pre ++ sni_extension host :: post ->
  Forall (fun x => x.1 <> 0) pre -> valid_host host ->
  ParseClientHelloSNI (hello_record h) = Ok (string_of host).
Proof. intros. rewrite <- (app_nil_r (hello_record h)). by eapply hello_sni. Qed.

(** C12: The server name of a well-formed ClientHello is found: whatever the session ID,
    cipher suites and other extensions are, and whatever follows the record, the parser
    returns exactly the host name of the first [server_name] extension. *)
Theorem sni_client_hello_roundtrip h pre host post trailing
  (Hok : hello_ok h) (Hext : ch_extensions h = pre ++ sni_extension host :: post)
  (Hpre : Forall (fun x => x.1 <> 0) pre) (Hhost : valid_host host) :
  ParseClientHelloSNI (hello_record h ++ trailing) = Ok (string_of host).
Proof. by eapply hello_sni. Qed.

(** One step of a proof about the success of a decoder: the bytes read stay bytes. *)
Ltac okstep :=
  match goal with
  | |- check ?c _ _ = Ok _ -> _ => unfold check at 1; destruct c; [done|]
  | |- go_bind (slice_from ?b ?lo) _ = Ok _ -> _ => unfold slice_from
  | |- go_bind (slice ?b ?lo ?hi) _ = Ok _ -> _ =>
      let x := fresh "x" in let E := fresh "E" in
      destruct (slice b lo hi) as [x| |] eqn:E; [|done..];
      apply slice_bytes in E; [|assumption]; cbn [go_bind]
  | |- go_bind ?m _ = Ok _ -> _ => destruct m; [|done..]; cbn [go_bind]
  end.

Lemma parseSNIList_valid data name :
  Forall is_byte data -> parseSNIList data = Ok name -> valid_host (bytes_of name).
Proof. intros Hb. unfold parseSNIList. do 5 okstep. by apply parse_entries_valid. Qed.

Lemma parse_extensions_valid fuel data name :
  Forall is_byte data -> parse_extensions fuel data = Ok name -> valid_host (bytes_of name).
Proof.
  revert data. induction fuel as [|fuel IH]; intros data Hb; [done|]. cbn [parse_extensions].
  case_match; [|done]. do 6 okstep. case_match; [by apply parseSNIList_valid|].
  do 2 okstep. by apply IH.
Qed.

Lemma parseClientHello_valid data name :
  Forall is_byte data -> parseClientHello data = Ok name -> valid_host (bytes_of name).
Proof.
  intros Hb. unfold parseClientHello. repeat okstep. by apply parse_extensions_valid.
Qed.

(** The parser is safe on every input: it never reads outside the buffer, and a name
    it returns is 1 to 253 characters of letters, digits, hyphens and dots. *)
Theorem sni_parser_safe data
  (Hb : Forall is_byte data) :
  ParseClientHelloSNI data <> Panic /\
  forall name, ParseClientHelloSNI data = Ok name -> valid_host (bytes_of name).
Proof.
  split; [by apply ParseClientHelloSNI_total|].
  intros name. unfold ParseClientHelloSNI. repeat okstep. by apply parseClientHello_valid.
Qed.

(** ** Routing *)

Lemma ToLower_idem s : ToLower (ToLower s) = ToLower s.
Proof.
  induction s as [|c s IH]; [done|]. simpl. rewrite IH. f_equal.
  destruct c as [[] [] [] [] [] [] [] []]; done.
Qed.

(** The wildcard patterns that cover a name, the most specific first. *)
Fixpoint patterns (parts : list string) : list string :=
  match parts with
  | [] => []
  | _ :: r => ("*." +:+ Join "." parts) :: patterns r
  end.

Lemma wildcard_lookup_spec {A} (rs : gmap string A) parts :
  wildcard_lookup rs parts = head (omap (fun p => rs !! p) (patterns parts)).
Proof.
  induction parts as [|p parts IH]; [done|]. cbn [wildcard_lookup patterns omap list_omap].
  by destruct (rs !! ("*." +:+ _)).
Qed.

(** The whole record is read ahead. *)
Lemma peek_record cfg h pre host post rest :
  hello_ok h -> ch_extensions h = pre ++ sni_extension host :: post ->
  Forall (fun x => x.1 <> 0) pre -> valid_host host ->
  len (hello_message h) <= MaxHandshakeSize cfg ->
  peekClientHello cfg (hello_record h ++ rest) = Ok (Ok (string_of host), hello_record h, rest).
Proof.
  intros Hok Hext Hpre Hhost Hsize. pose proof (len_nonneg (hello_message h)) as H0.
  pose proof Hok as (_ & _ & _ & _ & _ & _ & Hm).
  assert (Hlen : len (hello_record h) = 5 + len (hello_message h)) by (unfold hello_record; len_lia).
  pose proof (sni_client_hello_parse h pre host post Hok Hext Hpre Hhost) as Hp.
  set (m := hello_message h) in *.
  set (hdr := [22] ++ PutUint16 (ch_record_version h) ++ PutUint16 (len m)).
  assert (Er : hello_record h = hdr ++ m) by (unfold hello_record, hdr; by rewrite <- !app_assoc).
  assert (Hh : length hdr = 5%nat) by done.
  unfold peekClientHello. rewrite Er in *. rewrite <- app_assoc.
  unfold ReadFull at 1. rewrite (proj2 (Z.leb_le _ _)) by (unfold len in *; rewrite !length_app in *; lia).
  change (Z.to_nat 5) with (length hdr). rewrite take_app_length, drop_app_length.
  assert (Hl : Z.lor (Z.shiftl (u8 (len m / 2 ^ 8)) 8) (u8 (len m)) = len m).
  { rewrite lor_shiftl by (lia || apply u8_range). unfold u8. change (2 ^ 8) with 256.
    rewrite (Z.mod_small (len m / 256)) by
      (split; [apply Z.div_pos|apply Z.div_lt_upper_bound]; lia).
    pose proof (Z.div_mod (len m) 256). lia. }
  change (index hdr 0) with (@Ok Z 22). change (index hdr 3) with (Ok (u8 (len m / 2 ^ 8))).
  change (index hdr 4) with (Ok (u8 (len m))). cbn [go_bind negb Z.eqb Pos.eqb].
  rewrite Hl. rewrite (proj2 (Z.ltb_ge _ _)) by done.
  unfold ReadFull. rewrite (proj2 (Z.leb_le _ _)) by (rewrite len_app; pose proof (len_nonneg rest); lia).
  replace (Z.to_nat (len m)) with (length m) by (unfold len; lia).
  rewrite take_app_length, drop_app_length. by rewrite Hp.
Qed.

(** A connection is routed by the exact name, in any spelling of its case, before any
    wildcard, and otherwise to the most specific wildcard that is registered; the backend
    receives every byte the client sent, the ClientHello first. *)
Theorem sni_route_connection r h pre host post rest
  (Hok : hello_ok h) (Hext : ch_extensions h = pre ++ sni_extension host :: post)
  (Hpre : Forall (fun x => x.1 <> 0) pre) (Hhost : valid_host host)
  (Hsize : len (hello_message h) <= MaxHandshakeSize (r_config r)) :
  let name := string_of host in
  let wild := head (omap (fun p => routes r !! p) (patterns (drop 1 (Split "." name)))) in
  RouteConnection (hello_record h ++ rest) r =
  match routes r !! ToLower name, wild with
  | Some b, _ | None, Some b => Ok (ProxyTo b (hello_record h) rest)
  | None, None =>
      if bool_decide (DefaultBackend (r_config r) <> "") then Ok routeToDefault
      else Ok (Left_open "no route for SNI: %s")
  end.
Proof.
  intros name wild.
  unfold RouteConnection. rewrite (peek_record _ h pre host post rest Hok Hext Hpre Hhost Hsize).
  cbn [go_bind]. unfold GetRoute, route_lookup.
  rewrite wildcard_lookup_spec. fold name. fold wild.
  by destruct (routes r !! ToLower name), wild.
Qed.

(** ** Defects of the routers *)

(** The configured default backend is never used: whatever arrives, the router only
    proxies to a backend that was registered for a name. *)
Theorem sni_default_backend_unused stream r b replay rest
  (H : RouteConnection stream r = Ok (ProxyTo b replay rest)) :
  exists n, routes r !! n = Some b.
Proof.
  unfold RouteConnection in H. destruct (peekClientHello _ _) as [[[res rp] rs]| |]; [|done..].
  cbn [go_bind] in H. destruct res as [sni| |]; [|done..].
  destruct (GetRoute sni r) as [b'|] eqn:E; [|by case_match]. injection H as -> _ _.
  unfold GetRoute, route_lookup in E. destruct (routes r !! ToLower sni) eqn:El; [by simplify_eq; eauto|].
  revert E. generalize (drop 1 (Split "." sni)). induction l as [|p l IH]; [done|].
  cbn [wildcard_lookup]. destruct (routes r !! ("*." +:+ _)) eqn:Ew; [intros; simplify_eq; eauto|auto].
Qed.

(** Exact names match in any spelling, wildcards only in lower case. *)
Theorem sni_wildcard_case_sensitive :
  let r := AddRoute "*.example.com" 7 (AddRoute "example.com" 3 (NewSNIRouter None)) in
  GetRoute "EXAMPLE.com" r = Some 3%nat /\ GetRoute "www.example.com" r = Some 7%nat /\
  GetRoute "www.EXAMPLE.com" r = None.
Proof. done. Qed.

(** The matcher ignores the label boundary of a wildcard: [*.example.com] also accepts
    names such as [evilexample.com]. *)
Theorem sni_matcher_ignores_boundary prefix suffix m
  (Hp : prefix <> "") :
  Matcher_Match (prefix +:+ suffix) (Matcher_Add ("*." +:+ suffix) m) = true.
Proof.
  unfold Matcher_Add. replace (HasPrefix ("*." +:+ suffix) "*.") with true
    by (by destruct suffix).
  unfold Matcher_Match. apply orb_true_iff. right. apply existsb_exists.
  exists suffix. split; [simpl; apply in_or_app; right; by left|].
  unfold HasSuffix. rewrite length_app_string, (proj2 (Nat.leb_le _ _)) by lia.
  replace (String.length prefix + String.length suffix - String.length suffix)%nat
    with (String.length prefix) by lia.
  rewrite string_drop_app, bool_decide_eq_true_2 by done. cbn [andb].
  rewrite bool_decide_eq_false_2; [done|]. intros E. apply (f_equal String.length) in E.
  rewrite length_app_string in E. destruct prefix; [done|]. simpl in E. lia.
Qed.

(** ** Examples *)

Definition demo_hello : ClientHello :=
  mkHello 769 771 (replicate 32 7) [1; 2; 3] [19; 1] [0]
    [(23, []); sni_extension (bytes_of "www.Example.com"); (16, [0; 0])].

Lemma demo_hello_ok : hello_ok demo_hello.
Proof.
  unfold hello_ok, tls_version. split_and!; try (vm_compute; congruence).
  repeat (apply Forall_cons_2; [simpl; lia|]). apply Forall_nil. done.
Qed.

Lemma demo_host_valid : valid_host (bytes_of "www.Example.com").
Proof. apply validateSNIHostname_spec. reflexivity. Qed.

Lemma sni_client_hello_roundtrip_witness :
  ParseClientHelloSNI (hello_record demo_hello ++ [1; 2]) = Ok "www.Example.com".
Proof.
  apply (sni_client_hello_roundtrip demo_hello [(23, [])] (bytes_of "www.Example.com") [(16, [0; 0])]).
  - exact demo_hello_ok.
  - reflexivity.
  - repeat constructor. discriminate.
  - exact demo_host_valid.
Defined.

Lemma sni_parser_safe_witness :
  ParseClientHelloSNI [22; 3; 1; 0; 4; 1; 0; 0; 0] <> Panic.
Proof. apply sni_parser_safe. repeat constructor; unfold is_byte; lia. Defined.

Lemma sni_route_connection_witness :
  RouteConnection (hello_record demo_hello ++ [9; 9]) (AddRoute "WWW.example.com" 5 (NewSNIRouter None))
  = Ok (ProxyTo 5 (hello_record demo_hello) [9; 9]).
Proof.
  refine (sni_route_connection (AddRoute "WWW.example.com" 5 (NewSNIRouter None)) demo_hello
    [(23, [])] (bytes_of "www.Example.com") [(16, [0; 0])] [9; 9] demo_hello_ok eq_refl _
    demo_host_valid _).
  - repeat constructor. discriminate.
  - vm_compute. discriminate.
Defined.

Lemma sni_default_backend_unused_witness :
  exists n, routes (AddRoute "WWW.example.com" 5 (NewSNIRouter None)) !! n = Some 5%nat.
Proof.
  apply (sni_default_backend_unused (hello_record demo_hello ++ [9; 9]) _ _
    (hello_record demo_hello) [9; 9]). vm_compute. reflexivity.
Defined.

Lemma sni_matcher_ignores_boundary_witness :
  Matcher_Match "evilexample.com" (Matcher_Add "*.example.com" NewSNIMatcher) = true.
Proof. apply (sni_matcher_ignores_boundary "evil" "example.com"). discriminate. Defined.
