(* ===== verification/Health.v ===== *)
(** * Active health checks: [internal/health/health.go]

    The checker keeps one state machine per registered backend and turns runs of
    consecutive probe results into transitions of the shared backend.  The probes
    themselves (dialling, HTTP exchanges, commands) are inputs: an HTTP probe is the
    status code that came back, if any.  Consecutive results are counted in [int]. *)
From S2P Require Import Prelude Http Bytes NetIP NetAddr Backend BackendPool.
From Stdlib Require Import Ascii.

Inductive Status := StatusUnknown | StatusHealthy | StatusUnhealthy.

#[export] Instance Status_eq_dec : EqDecision Status.
Proof. solve_decision. Defined.

Definition Status_String (s : Status) : string :=
  match s with
  | StatusHealthy => "healthy"
  | StatusUnhealthy => "unhealthy"
  | StatusUnknown => "unknown"
  end.

Record Check := mkCheck {
  c_Type : string;
  c_Interval : Z;
  c_Timeout : Z;
  c_Path : string;
  c_Method : string;
  ExpectedStatus : Z;
  c_Headers : gmap string string;
  c_Command : string;
  c_Args : list string;
  HealthyThreshold : Z;
  UnhealthyThreshold : Z
}.

Definition DefaultCheck : Check :=
  mkCheck "tcp" 10000000000 5000000000 "/health" "GET" 200 ∅ "" [] 2 3.

Record checkState := mkState {
  cs_backend : ptr;
  cs_config : Check;
  status : Status;
  consecutiveOK : Z;
  consecutiveFail : Z;
  lastResult : option bool
}.

Definition Checker := gmap string checkState.

(** ** Registration *)

Definition Register (h : heap) (b : option ptr) (config : option Check) (c : Checker) : go Checker :=
  match b with
  | None => Err "backend cannot be nil"
  | Some p =>
      let config := default DefaultCheck config in
      match c !! ID (h p) with
      | Some _ => Err "backend %s is already registered"
      | None => Ok (<[ID (h p) := mkState p config StatusUnknown 0 0 None]> c)
      end
  end.

Definition Unregister (id : string) (c : Checker) : Checker := delete id c.

Definition GetStatus (id : string) (c : Checker) : Status := from_option status StatusUnknown (c !! id).

Definition GetResult (id : string) (c : Checker) : option bool := c !! id ≫= lastResult.

Definition ListStatuses (c : Checker) : gmap string Status := status <$> c.

Definition count_status (s : Status) (c : Checker) : Z :=
  Z.of_nat (countb (fun p => bool_decide (status p.2 = s)) (map_to_list c)).

Definition CountHealthy (c : Checker) : Z := count_status StatusHealthy c.
Definition CountUnhealthy (c : Checker) : Z := count_status StatusUnhealthy c.

(** ** Probes *)

Fixpoint HasPrefix (p s : string) : bool :=
  match p, s with
  | EmptyString, _ => true
  | String a p, String b s => Ascii.eqb a b && HasPrefix p s
  | _, _ => false
  end.

Definition isInternalAddress (host : string) : bool :=
  bool_decide (host ∈ ["169.254.169.254"; "metadata.google.internal"; "metadata.google";
                       "100.100.100.200"; "fd00:ec2::254"; "0.0.0.0"])
  || HasPrefix "169.254." host
  || match ParseIP host with
     | Some (b0 :: b1 :: _) => (b0 =? 254) && (Z.land b1 192 =? 128)
     | _ => false
     end.

(** [IP.IsLinkLocalUnicast] and [IP.IsUnspecified]. *)
Definition IsLinkLocalUnicast (ip : list Z) : bool :=
  match IP_To4 ip with
  | Some (b0 :: b1 :: _) => (b0 =? 169) && (b1 =? 254)
  | Some _ => false
  | None =>
      match ip with
      | b0 :: b1 :: _ => (len ip =? 16) && (b0 =? 254) && (Z.land b1 192 =? 128)
      | _ => false
      end
  end.

Definition IsUnspecified (ip : list Z) : bool :=
  IP_Equal ip (v4InV6Prefix ++ [0; 0; 0; 0]) || bool_decide (ip = replicate 16 0).

(** [guardHealthDial] on the concrete address that is dialled: [true] refuses it. *)
Definition guardHealthDial (address : string) : bool :=
  let host := match SplitHostPort address with Some (h, _) => h | None => address end in
  isInternalAddress host
  || match ParseIP host with
     | Some ip => IsLinkLocalUnicast ip || IsUnspecified ip
     | None => false
     end.

(** The verdict of an HTTP probe: [resp] is the status code, [None] a failed exchange. *)
Definition checkHTTP (address : string) (config : Check) (resp : option Z) : bool :=
  let host := match SplitHostPort address with Some (h, _) => h | None => address end in
  if isInternalAddress host then false
  else match resp with
  | None => false
  | Some code =>
      if negb (ExpectedStatus config =? 0) then code =? ExpectedStatus config
      else negb ((code <? 200) || (300 <=? code))
  end.

(** The verdict of a gRPC probe: the status in the trailers and in the headers (empty when
    absent) and the status code; [None] when both attempts failed. *)
Definition checkGRPC (resp : option (string * string * Z)) : bool :=
  match resp with
  | None => false
  | Some (trailer, header, code) =>
      let grpcStatus := if bool_decide (trailer = "") then header else trailer in
      if negb (bool_decide (grpcStatus = "")) && negb (bool_decide (grpcStatus = "0")) then false
      else code =? 200
  end.

(** ** The state machine *)

Definition performCheck (now : Z) (healthy : bool) (h : heap) (st : checkState) : heap * checkState :=
  let config := cs_config st in
  let b := h (cs_backend st) in
  let '(b, st) :=
    if healthy then
      let ok := i64 (consecutiveOK st + 1) in
      if negb (bool_decide (status st = StatusHealthy)) && (HealthyThreshold config <=? ok) then
        ((if CanTransitionTo (state b) StateUp then (TransitionState StateUp b).2 else b),
         mkState (cs_backend st) config StatusHealthy ok 0 (Some healthy))
      else (b, mkState (cs_backend st) config (status st) ok 0 (Some healthy))
    else
      let fail := i64 (consecutiveFail st + 1) in
      if negb (bool_decide (status st = StatusUnhealthy)) && (UnhealthyThreshold config <=? fail) then
        ((if CanTransitionTo (state b) StateDown then (TransitionState StateDown b).2 else b),
         mkState (cs_backend st) config StatusUnhealthy 0 fail (Some healthy))
      else (b, mkState (cs_backend st) config (status st) 0 fail (Some healthy)) in
  (heap_set h (cs_backend st) (RecordHealthCheck now healthy b), st).

(** A probe of unknown type fails. *)
Definition known_type (config : Check) : bool :=
  bool_decide (c_Type config ∈ ["http"; "https"; "tcp"; "grpc"; "exec"]).

(** The check of a registered backend, as its goroutine runs it. *)
Definition run_check (now : Z) (id : string) (probe : bool) (h : heap) (c : Checker) : heap * Checker :=
  match c !! id with
  | None => (h, c)
  | Some st =>
      let '(h, st) := performCheck now (known_type (cs_config st) && probe) h st in
      (h, <[id := st]> c)
  end.

(** ** Runs of results *)

(** A sequence of results, oldest first, at the times [now], [now+1], ... *)
Fixpoint run_results (now : Z) (rs : list bool) (h : heap) (st : checkState) : heap * checkState :=
  match rs with
  | [] => (h, st)
  | r :: rs => let '(h, st) := performCheck now r h st in run_results (now + 1) rs h st
  end.

(** How many of the latest results are [r]; [rs] is newest first. *)
Fixpoint streak (r : bool) (rs : list bool) : Z :=
  match rs with
  | x :: rest => if Bool.eqb x r then 1 + streak r rest else 0
  | [] => 0
  end.

(** The status after the results [rs] (newest first), without counters: a run of successes
    as long as the threshold makes the backend healthy, a run of failures unhealthy. *)
Fixpoint status_of (config : Check) (rs : list bool) : Status :=
  match rs with
  | [] => StatusUnknown
  | true :: rest =>
      if HealthyThreshold config <=? streak true rs then StatusHealthy else status_of config rest
  | false :: rest =>
      if UnhealthyThreshold config <=? streak false rs then StatusUnhealthy else status_of config rest
  end.

(** ** Theorems *)

Definition fresh (p : ptr) (config : Check) : checkState := mkState p config StatusUnknown 0 0 None.

Lemma streak_bound r rs : 0 <= streak r rs <= Z.of_nat (length rs).
Proof. induction rs as [|x rs IH]; simpl; [lia|]. case_match; lia. Qed.

Lemma run_results_snoc now rs r h st :
  run_results now (rs ++ [r]) h st =
  let '(h, st) := run_results now rs h st in performCheck (now + Z.of_nat (length rs)) r h st.
Proof.
  revert now h st. induction rs as [|x rs IH]; intros now h st.
  - cbn [app run_results length]. rewrite Z.add_0_r. by destruct (performCheck now r h st).
  - cbn [app run_results length]. destruct (performCheck now x h st) as [h1 st1]. rewrite IH.
    by replace (now + 1 + Z.of_nat (length rs)) with (now + Z.of_nat (S (length rs))) by lia.
Qed.

(** The counters count the current run, the status follows the runs. *)
Lemma run_results_counters now rs h p config :
  Z.of_nat (length rs) < 2 ^ 63 ->
  let st := (run_results now rs h (fresh p config)).2 in
  cs_backend st = p /\ cs_config st = config /\
  consecutiveOK st = streak true (rev rs) /\ consecutiveFail st = streak false (rev rs) /\
  status st = status_of config (rev rs).
Proof.
  induction rs as [|r rs IH] using rev_ind; [done|]. intros Hl. rewrite length_app in Hl. simpl in Hl.
  cbv zeta. rewrite run_results_snoc, rev_app_distr. cbn [rev app].
  specialize (IH ltac:(lia)). cbv zeta in IH.
  destruct (run_results now rs h (fresh p config)) as [h1 st]. cbn [snd] in IH.
  destruct IH as (E1 & E2 & E3 & E4 & E5).
  pose proof (streak_bound true (rev rs)) as B1. pose proof (streak_bound false (rev rs)) as B2.
  rewrite length_rev in B1, B2.
  unfold performCheck. rewrite E2, E3, E4, E5.
  rewrite !i64_small by (unfold in_i64; lia).
  destruct r; cbn [streak Bool.eqb status_of].
  - rewrite (Z.add_comm (streak true (rev rs)) 1).
    destruct (HealthyThreshold config <=? 1 + streak true (rev rs)); rewrite ?andb_true_r, ?andb_false_r.
    + case_bool_decide as Hs; cbn; split_and!; auto; congruence.
    + cbn. split_and!; auto.
  - rewrite (Z.add_comm (streak false (rev rs)) 1).
    destruct (UnhealthyThreshold config <=? 1 + streak false (rev rs)); rewrite ?andb_true_r, ?andb_false_r.
    + case_bool_decide as Hs; cbn; split_and!; auto; congruence.
    + cbn. split_and!; auto.
Qed.

(** C33: The status of a backend is determined by the runs of its probe results: the
    counters of the checker compute, for every sequence of results, the status of the
    counter-free definition [status_of], in which only a run of [HealthyThreshold] successes
    makes a backend healthy and only a run of [UnhealthyThreshold] failures unhealthy. *)
Theorem health_status_follows_runs now rs h p config
  (Hl : Z.of_nat (length rs) < 2 ^ 63) :
  status (run_results now rs h (fresh p config)).2 = status_of config (rev rs).
Proof. by apply run_results_counters. Qed.

Lemma heap_set_eq h p b : heap_set h p b p = b.
Proof. unfold heap_set. by rewrite bool_decide_eq_true_2. Qed.

Lemma TransitionState_ok s b :
  CanTransitionTo (state b) s = true -> (TransitionState s b).2 = set_state s b.
Proof.
  intros H. unfold TransitionState, Transition. rewrite H. unfold CompareAndSwap.
  by rewrite bool_decide_eq_true_2.
Qed.

(** A probe moves its backend only along the backend state machine: up after a
    success, down after a failure, only at the result that completes a run of the
    threshold, and no other backend is touched. *)
Theorem health_check_transitions now healthy h st h' st' :
  performCheck now healthy h st = (h', st') ->
  let p := cs_backend st in
  (forall q, q <> p -> h' q = h q) /\
  (state (h' p) = state (h p) \/
   CanTransitionTo (state (h p)) (state (h' p)) = true /\ status st' <> status st /\
   (state (h' p) = StateUp /\ healthy = true /\ status st' = StatusHealthy /\
      HealthyThreshold (cs_config st) <= consecutiveOK st' \/
    state (h' p) = StateDown /\ healthy = false /\ status st' = StatusUnhealthy /\
      UnhealthyThreshold (cs_config st) <= consecutiveFail st')).
Proof.
  intros H p. unfold performCheck in H.
  destruct healthy; repeat case_match; simplify_eq; b2p; cbn [cs_backend] in *;
    (split; [intros q Hne; unfold heap_set; by rewrite bool_decide_eq_false_2|]);
    unfold p in *; rewrite heap_set_eq; auto;
    rewrite TransitionState_ok by done; right; cbn; split_and!; auto; naive_solver.
Qed.

(** One success of a backend that is not yet healthy. *)
Lemma performCheck_success now h st h' st' :
  performCheck now true h st = (h', st') ->
  cs_backend st' = cs_backend st /\ cs_config st' = cs_config st /\
  consecutiveOK st' = i64 (consecutiveOK st + 1) /\
  (status st <> StatusHealthy ->
   if HealthyThreshold (cs_config st) <=? i64 (consecutiveOK st + 1)
   then status st' = StatusHealthy /\
        (CanTransitionTo (state (h (cs_backend st))) StateUp = true ->
           state (h' (cs_backend st)) = StateUp)
   else status st' = status st /\ state (h' (cs_backend st)) = state (h (cs_backend st))) /\
  (status st = StatusHealthy ->
   status st' = StatusHealthy /\ state (h' (cs_backend st)) = state (h (cs_backend st))).
Proof.
  unfold performCheck. case_bool_decide as Hs; cbn [negb andb].
  - intros [= <- <-]. cbn [cs_backend]. rewrite heap_set_eq. by split_and!.
  - destruct (HealthyThreshold _ <=? _) eqn:Et; intros [= <- <-]; cbn [cs_backend];
      rewrite heap_set_eq; split_and!; try done.
    split; [done|]. intros Hc. by rewrite Hc, TransitionState_ok.
Qed.

(** A backend that is starting or down and passes its probes comes up: after any
    history that left it not healthy, [HealthyThreshold] successes in a row make the checker
    report it healthy and put the backend in the up state. *)
Theorem health_recovery now n h st
  (Hs : status st <> StatusHealthy) (Hok : 0 <= consecutiveOK st)
  (Hmax : consecutiveOK st + Z.of_nat n < 2 ^ 63)
  (Hup : CanTransitionTo (state (h (cs_backend st))) StateUp = true)
  (Ht : 1 <= HealthyThreshold (cs_config st) <= consecutiveOK st + Z.of_nat n)
  (Hlow : consecutiveOK st < HealthyThreshold (cs_config st)) :
  let '(h', st') := run_results now (replicate n true) h st in
  status st' = StatusHealthy /\ state (h' (cs_backend st)) = StateUp.
Proof.
  assert (Hstay : forall n now h st, status st = StatusHealthy -> state (h (cs_backend st)) = StateUp ->
    status (run_results now (replicate n true) h st).2 = StatusHealthy /\
    state ((run_results now (replicate n true) h st).1 (cs_backend st)) = StateUp).
  { clear. induction n as [|n IH]; intros now h st Hs Hu; [done|]. cbn [replicate run_results].
    destruct (performCheck now true h st) as [h1 st1] eqn:E.
    destruct (performCheck_success _ _ _ _ _ E) as (E1 & _ & _ & _ & H5).
    destruct (H5 Hs) as [H6 H7]. rewrite <- E1. apply IH; [done|]. rewrite E1. congruence. }
  revert now h st Hs Hok Hmax Hup Ht Hlow. induction n as [|n IH]; intros now h st Hs Hok Hmax Hup Ht Hlow.
  - simpl in Ht. lia.
  - cbn [replicate run_results]. destruct (performCheck now true h st) as [h1 st1] eqn:E.
    destruct (performCheck_success _ _ _ _ _ E) as (E1 & E2 & E3 & H4 & _).
    specialize (H4 Hs). rewrite i64_small in * by (unfold in_i64; lia).
    destruct (Z.leb_spec (HealthyThreshold (cs_config st)) (consecutiveOK st + 1)) as [Hle|Hgt].
    + destruct H4 as [H4 H5]. specialize (Hstay n (now + 1) h1 st1 H4).
      destruct (run_results (now + 1) (replicate n true) h1 st1) as [h' st']. rewrite <- E1.
      apply Hstay. rewrite E1. auto.
    + destruct H4 as [H4 H5]. rewrite <- E1 in *. rewrite <- E2 in *.
      specialize (IH (now + 1) h1 st1). apply IH; rewrite ?E3, ?H4, ?H5; auto; lia.
Qed.

(** The checker resurrects a backend that was put into maintenance, although its
    comment says that this is forbidden: the run of successes that makes the checker report
    the backend healthy also moves it from maintenance to up. *)
Theorem maintenance_backend_resurrected now h st
  (Hm : state (h (cs_backend st)) = StateMaintenance) (Hs : status st <> StatusHealthy)
  (Ht : HealthyThreshold (cs_config st) <= i64 (consecutiveOK st + 1)) :
  state ((performCheck now true h st).1 (cs_backend st)) = StateUp.
Proof.
  destruct (performCheck now true h st) as [h' st'] eqn:E.
  destruct (performCheck_success _ _ _ _ _ E) as (_ & _ & _ & H4 & _). specialize (H4 Hs).
  rewrite (proj2 (Z.leb_le _ _)) in H4 by done. apply H4. by rewrite Hm.
Qed.

(** ** Examples *)

Definition demo_heap : heap := fun _ => NewBackend "a" "10.0.0.1:80".
Definition demo_check : Check := mkCheck "tcp" 10 5 "/" "GET" 200 ∅ "" [] 2 3.

(** A drained backend that fails its probes goes down, and comes back up when they pass. *)
Example drained_backend_resurrected :
  let h := heap_set demo_heap 0%nat (set_state StateDraining (demo_heap 0%nat)) in
  state ((run_results 0 [false; false; false; true; true] h (fresh 0%nat demo_check)).1 0%nat) = StateUp.
Proof. reflexivity. Qed.

(** The literal check misses the IPv4-mapped spelling of the metadata address, the dial
    guard does not. *)
Example mapped_metadata_address :
  isInternalAddress "::ffff:169.254.169.254" = false /\
  guardHealthDial "[::ffff:169.254.169.254]:80" = true.
Proof. split; reflexivity. Qed.

Lemma health_status_follows_runs_witness :
  status (run_results 0 [true; true; false; false] demo_heap (fresh 0%nat demo_check)).2 = StatusHealthy.
Proof.
  rewrite (health_status_follows_runs 0 [true; true; false; false] demo_heap 0%nat demo_check)
    by (vm_compute; reflexivity). reflexivity.
Defined.

Lemma health_check_transitions_witness :
  let r := performCheck 0 true demo_heap (mkState 0%nat demo_check StatusUnknown 1 0 None) in
  (forall q, q <> 0%nat -> r.1 q = demo_heap q) /\ state (r.1 0%nat) = StateUp.
Proof.
  intros r. split; [|reflexivity].
  destruct (health_check_transitions 0 true demo_heap (mkState 0%nat demo_check StatusUnknown 1 0 None)
    r.1 r.2 eq_refl) as [H _]. exact H.
Defined.

Lemma health_recovery_witness :
  let '(h', st') := run_results 0 [true; true] demo_heap (fresh 0%nat demo_check) in
  status st' = StatusHealthy /\ state (h' 0%nat) = StateUp.
Proof.
  apply (health_recovery 0 2 demo_heap (fresh 0%nat demo_check));
    [discriminate|cbn; lia|vm_compute; reflexivity|reflexivity|cbn; lia|cbn; lia].
Defined.

Lemma maintenance_backend_resurrected_witness :
  let h := heap_set demo_heap 0%nat (set_state StateMaintenance (demo_heap 0%nat)) in
  state ((performCheck 0 true h (mkState 0%nat demo_check StatusUnknown 1 0 None)).1 0%nat) = StateUp.
Proof.
  apply (maintenance_backend_resurrected 0
    (heap_set demo_heap 0%nat (set_state StateMaintenance (demo_heap 0%nat)))
    (mkState 0%nat demo_check StatusUnknown 1 0 None)); [reflexivity|discriminate|vm_compute; discriminate].
Defined.
