(* ===== verification/Passive.v ===== *)
(** * Passive health checks: [internal/health/passive.go]

    Health judged by the outcomes of real requests: a ring buffer of the latest results
    with a time window over it, a run of consecutive failures, and a cooldown.  Times are
    nanoseconds; the zero [time.Time] is [None].  The callbacks are the reported
    transitions. *)
From S2P Require Import Prelude GoFloat Health.

Record PassiveHealthConfig := mkPassiveConfig {
  ErrorRateThreshold : float64;
  WindowSize : Z;
  MinRequests : Z;
  CooldownPeriod : Z;
  ConsecutiveErrors : Z;
  EvalInterval : Z
}.

Definition DefaultPassiveHealthConfig : PassiveHealthConfig :=
  mkPassiveConfig (f64_div (f64_of_Z 1) (f64_of_Z 2)) 60000000000 10 30000000000 5 1000000000.

Record requestResult := mkResult { success : bool; timestamp : Z }.

Record SlidingWindow := mkWindow {
  results : list requestResult;
  w_size : Z;
  w_head : Z;
  w_count : Z
}.

Definition NewSlidingWindow (capacity : Z) : SlidingWindow :=
  let capacity := if capacity <=? 0 then 1024 else capacity in
  mkWindow (replicate (Z.to_nat capacity) (mkResult false 0)) capacity 0 0.

Definition Record_ (ok : bool) (ts : Z) (sw : SlidingWindow) : SlidingWindow :=
  mkWindow (<[Z.to_nat (w_head sw) := mkResult ok ts]> (results sw)) (w_size sw)
    (Z.rem (w_head sw + 1) (w_size sw))
    (if w_count sw <? w_size sw then w_count sw + 1 else w_count sw).

(** The loop of [Stats]: [n] entries are left, the next is the [i]-th newest. *)
Fixpoint stats_loop (n : nat) (sw : SlidingWindow) (cutoff i total failures : Z) : Z * Z :=
  match n with
  | O => (total, failures)
  | S n =>
      let idx := Z.rem (w_head sw - 1 - i + w_size sw) (w_size sw) in
      match slice_get (results sw) idx with
      | None => (total, failures)
      | Some r =>
          if timestamp r <? cutoff then (total, failures)
          else stats_loop n sw cutoff (i + 1) (total + 1) (if success r then failures else failures + 1)
      end
  end.

Definition Stats (windowSize now : Z) (sw : SlidingWindow) : Z * Z * float64 :=
  let '(total, failures) := stats_loop (Z.to_nat (w_count sw)) sw (now - windowSize) 0 0 0 in
  (total, failures,
   if 0 <? total then f64_div (f64_of_Z failures) (f64_of_Z total) else f64_of_Z 0).

Definition Reset (sw : SlidingWindow) : SlidingWindow := mkWindow (results sw) (w_size sw) 0 0.

(** ** The checker *)

Record backendState := mkBackendState {
  window : SlidingWindow;
  p_status : Status;
  consecutiveFails : Z;
  unhealthySince : option Z
}.

Definition PassiveChecker := gmap string backendState.

Definition new_backend : backendState := mkBackendState (NewSlidingWindow 1024) StatusHealthy 0 None.

Definition getOrCreateBackend (addr : string) (pc : PassiveChecker) : backendState :=
  default new_backend (pc !! addr).

Definition markUnhealthy (now : Z) (bs : backendState) : backendState :=
  if bool_decide (p_status bs = StatusUnhealthy) then bs
  else mkBackendState (window bs) StatusUnhealthy (consecutiveFails bs) (Some now).

Definition markRecovered (bs : backendState) : backendState :=
  if negb (bool_decide (p_status bs = StatusUnhealthy)) then bs
  else mkBackendState (Reset (window bs)) StatusHealthy 0 None.

Section Checker.
Variable config : PassiveHealthConfig.

Definition record_success (now : Z) (bs : backendState) : backendState :=
  mkBackendState (Record_ true now (window bs)) (p_status bs) 0 (unhealthySince bs).

(** The part of [RecordFailure] under the lock, and its end. *)
Definition record_failure (now : Z) (bs : backendState) : backendState :=
  mkBackendState (Record_ false now (window bs)) (p_status bs) (i64 (consecutiveFails bs + 1))
    (unhealthySince bs).

Definition failure (now : Z) (bs : backendState) : backendState :=
  let bs := record_failure now bs in
  if ConsecutiveErrors config <=? consecutiveFails bs then markUnhealthy now bs else bs.

Definition evaluate (now : Z) (bs : backendState) : backendState :=
  if bool_decide (p_status bs = StatusUnhealthy) then
    match unhealthySince bs with
    | Some t => if CooldownPeriod config <=? now - t then markRecovered bs else bs
    | None => bs
    end
  else
    let '(total, _, errorRate) := Stats (WindowSize config) now (window bs) in
    if (MinRequests config <=? total) && f64_ltb (ErrorRateThreshold config) errorRate
    then markUnhealthy now bs else bs.

Definition RecordSuccess (now : Z) (addr : string) (pc : PassiveChecker) : PassiveChecker :=
  <[addr := record_success now (getOrCreateBackend addr pc)]> pc.

Definition RecordFailure (now : Z) (addr : string) (pc : PassiveChecker) : PassiveChecker :=
  <[addr := failure now (getOrCreateBackend addr pc)]> pc.

Definition RecordResult (now : Z) (addr : string) (statusCode : Z) (err : bool) (pc : PassiveChecker)
    : PassiveChecker :=
  if err || (500 <=? statusCode) then RecordFailure now addr pc else RecordSuccess now addr pc.

Definition checkHealth (now : Z) (addr : string) (pc : PassiveChecker) : PassiveChecker :=
  match pc !! addr with
  | None => pc
  | Some bs => <[addr := evaluate now bs]> pc
  end.

Definition evaluateAll (now : Z) (pc : PassiveChecker) : PassiveChecker :=
  foldl (fun pc addr => checkHealth now addr pc) pc (map_to_list pc).*1.

Definition Passive_GetStatus (addr : string) (pc : PassiveChecker) : Status :=
  from_option p_status StatusUnknown (pc !! addr).

Record BackendPassiveStats := mkStats {
  s_Status : Status; TotalRequests : Z; Failures : Z; ErrorRate : float64;
  ConsecutiveFailures : Z; s_UnhealthySince : option Z }.

Definition GetStats (now : Z) (addr : string) (pc : PassiveChecker) : option BackendPassiveStats :=
  match pc !! addr with
  | None => None
  | Some bs =>
      let '(total, failures, rate) := Stats (WindowSize config) now (window bs) in
      Some (mkStats (p_status bs) total failures rate (consecutiveFails bs) (unhealthySince bs))
  end.

Definition Remove (addr : string) (pc : PassiveChecker) : PassiveChecker := delete addr pc.

Definition ListBackends (pc : PassiveChecker) : gset string := dom pc.

End Checker.

(** ** The window refines the list of the latest results, newest first *)

(** The [i]-th newest entry sits [i + 1] places before the head. *)
Definition slot_of (sw : SlidingWindow) (i : Z) : Z := (w_head sw - 1 - i) mod w_size sw.

Definition window_repr (sw : SlidingWindow) (l : list requestResult) : Prop :=
  0 < w_size sw /\ Z.of_nat (length (results sw)) = w_size sw /\
  0 <= w_head sw < w_size sw /\ w_count sw = Z.of_nat (length l) /\ w_count sw <= w_size sw /\
  forall i r, l !! i = Some r -> results sw !! Z.to_nat (slot_of sw (Z.of_nat i)) = Some r.

Fixpoint take_while (f : requestResult -> bool) (l : list requestResult) : list requestResult :=
  match l with
  | r :: l => if f r then r :: take_while f l else []
  | [] => []
  end.

Lemma repr_new capacity :
  let sw := NewSlidingWindow capacity in window_repr sw [] /\ (0 < capacity -> w_size sw = capacity).
Proof.
  unfold NewSlidingWindow, window_repr. cbn.
  destruct (Z.leb_spec capacity 0); rewrite length_replicate; split; try split_and!; try lia; done.
Qed.

Lemma repr_reset sw l : window_repr sw l -> window_repr (Reset sw) [].
Proof. intros (H1 & H2 & H3 & H4 & H5 & H6). unfold Reset. split_and!; simpl; try done; lia. Qed.

Lemma slot_range sw i : 0 < w_size sw -> 0 <= slot_of sw i < w_size sw.
Proof. intros H. apply Z.mod_pos_bound. done. Qed.

Lemma repr_record sw l ok ts :
  window_repr sw l ->
  window_repr (Record_ ok ts sw) (take (Z.to_nat (w_size sw)) (mkResult ok ts :: l)).
Proof.
  intros (H1 & H2 & H3 & H4 & H5 & H6).
  assert (Hhead : Z.rem (w_head sw + 1) (w_size sw) = (w_head sw + 1) mod w_size sw)
    by (apply Z.rem_mod_nonneg; lia).
  unfold window_repr. cbn [Record_ results w_size w_head w_count].
  rewrite length_insert, length_take. cbn [length].
  split_and!; [done|done|rewrite Hhead; apply Z.mod_pos_bound; lia
    |rewrite Hhead; apply Z.mod_pos_bound; lia| | |].
  - destruct (Z.ltb_spec (w_count sw) (w_size sw)); lia.
  - destruct (Z.ltb_spec (w_count sw) (w_size sw)); lia.
  - intros i r Hi. apply lookup_take_Some in Hi as [Hi Hlt].
    unfold slot_of. cbn [Record_ w_head w_size]. rewrite Hhead.
    replace (((w_head sw + 1) mod w_size sw - 1 - Z.of_nat i) mod w_size sw)
      with ((w_head sw - Z.of_nat i) mod w_size sw).
    2:{ rewrite <- Z.sub_add_distr, Zminus_mod_idemp_l. f_equal. lia. }
    destruct i as [|i]; cbn in Hi.
    + simplify_eq. rewrite Z.sub_0_r, Z.mod_small by lia. apply list_lookup_insert_eq. lia.
    + assert (Hne : Z.to_nat ((w_head sw - Z.of_nat (S i)) mod w_size sw) <> Z.to_nat (w_head sw)).
      { pose proof (Z.mod_pos_bound (w_head sw - Z.of_nat (S i)) (w_size sw) H1).
        intros E. assert (E' : (w_head sw - Z.of_nat (S i)) mod w_size sw = w_head sw) by lia.
        pose proof (Z.div_mod (w_head sw - Z.of_nat (S i)) (w_size sw) ltac:(lia)) as Hd.
        rewrite E' in Hd. set (q := (w_head sw - Z.of_nat (S i)) / w_size sw) in *.
        assert (w_size sw * q = - Z.of_nat (S i)) by lia.
        assert (Z.of_nat (S i) < w_size sw) by lia.
        assert (q < 0) by nia. nia. }
      rewrite list_lookup_insert_ne by done.
      specialize (H6 i r Hi). unfold slot_of in H6.
      replace (w_head sw - Z.of_nat (S i)) with (w_head sw - 1 - Z.of_nat i) by lia. done.
Qed.

Lemma stats_loop_spec sw l cutoff n i total failures :
  window_repr sw l -> (i + n)%nat = length l ->
  stats_loop n sw cutoff (Z.of_nat i) total failures =
  let recent := take_while (fun r => negb (timestamp r <? cutoff)) (drop i l) in
  (total + Z.of_nat (length recent), failures + Z.of_nat (countb (fun r => negb (success r)) recent)).
Proof.
  intros R. pose proof R as (H1 & H2 & H3 & H4 & H5 & H6). revert i total failures.
  induction n as [|n IH]; intros i total failures Hi.
  - cbn [stats_loop]. rewrite drop_ge by lia. cbn. f_equal; lia.
  - cbn [stats_loop].
    destruct (lookup_lt_is_Some_2 l i) as [r Hr]; [lia|].
    assert (Hidx : Z.rem (w_head sw - 1 - Z.of_nat i + w_size sw) (w_size sw) = slot_of sw (Z.of_nat i)).
    { rewrite Z.rem_mod_nonneg by lia. unfold slot_of.
      replace (w_head sw - 1 - Z.of_nat i + w_size sw) with (w_head sw - 1 - Z.of_nat i + 1 * w_size sw) by lia.
      apply Z_mod_plus_full. }
    rewrite Hidx. pose proof (slot_range sw (Z.of_nat i) H1).
    assert (Hg : slice_get (results sw) (slot_of sw (Z.of_nat i)) = Some r).
    { apply slice_get_Some. split; [lia|]. by apply H6. }
    rewrite Hg. rewrite (drop_S l r i Hr). cbn [take_while].
    destruct (timestamp r <? cutoff); cbn [negb]; [cbn; f_equal; lia|].
    replace (Z.of_nat i + 1) with (Z.of_nat (S i)) by lia. rewrite IH by lia. cbv zeta.
    cbn [length]. rewrite countb_cons. destruct (success r); cbn [negb]; f_equal; lia.
Qed.

(** A history of operations on a window and the list it stands for. *)
Inductive window_op := OpRecord (ok : bool) (ts : Z) | OpReset.

Definition apply_op (op : window_op) (sw : SlidingWindow) : SlidingWindow :=
  match op with OpRecord ok ts => Record_ ok ts sw | OpReset => Reset sw end.

(** The abstract window: the latest results, newest first, at most [cap] of them. *)
Definition spec_op (cap : Z) (op : window_op) (l : list requestResult) : list requestResult :=
  match op with
  | OpRecord ok ts => take (Z.to_nat cap) (mkResult ok ts :: l)
  | OpReset => []
  end.

Lemma window_ops_repr cap ops :
  0 < cap ->
  let sw := foldl (fun sw op => apply_op op sw) (NewSlidingWindow cap) ops in
  window_repr sw (foldl (fun l op => spec_op cap op l) [] ops) /\ w_size sw = cap.
Proof.
  intros Hc. induction ops as [|op ops IH] using rev_ind.
  - destruct (repr_new cap) as [H1 H2]. cbv zeta. cbn [foldl]. split; [exact H1|exact (H2 Hc)].
  - cbv zeta in *. rewrite !foldl_snoc. destruct IH as [IH1 IH2].
    set (sw := foldl _ (NewSlidingWindow cap) ops) in *. destruct op; cbn [apply_op spec_op].
    + split; [|done]. pose proof (repr_record sw _ ok ts IH1) as R. by rewrite IH2 in R.
    + split; [|done]. by eapply repr_reset.
Qed.

(** The sliding window refines the list of the latest results: after any sequence of
    records and resets, across the wrap-around of its ring buffer, [Stats] counts exactly
    the results from the newest back to the first one before the window, and the failures
    among them; at most the capacity of them. *)
Theorem sliding_window_refines cap ops windowSize now
  (Hc : 0 < cap) :
  let sw := foldl (fun sw op => apply_op op sw) (NewSlidingWindow cap) ops in
  let latest := foldl (fun l op => spec_op cap op l) [] ops in
  let recent := take_while (fun r => negb (timestamp r <? now - windowSize)) latest in
  (Stats windowSize now sw).1 =
    (Z.of_nat (length recent), Z.of_nat (countb (fun r => negb (success r)) recent)).
Proof.
  destruct (window_ops_repr cap ops Hc) as [R _]. cbv zeta in *.
  set (sw := foldl _ (NewSlidingWindow cap) ops) in *. set (l := foldl _ [] ops) in *.
  pose proof R as (_ & _ & _ & H4 & _). unfold Stats.
  pose proof (stats_loop_spec sw l (now - windowSize) (Z.to_nat (w_count sw)) 0 0 0 R ltac:(lia)) as E.
  rewrite drop_0 in E. change (Z.of_nat 0) with 0 in E. rewrite E. done.
Qed.

(** ** The checker *)

(** What can happen to the state of one backend. *)
Inductive event := Success (now : Z) | Failure (now : Z) | Evaluate (now : Z).

Definition event_time (e : event) : Z :=
  match e with Success t | Failure t | Evaluate t => t end.

Definition step (config : PassiveHealthConfig) (e : event) (bs : backendState) : backendState :=
  match e with
  | Success now => record_success now bs
  | Failure now => failure config now bs
  | Evaluate now => evaluate config now bs
  end.

Definition run (config : PassiveHealthConfig) (es : list event) (bs : backendState) : backendState :=
  foldl (fun bs e => step config e bs) bs es.

(** An unhealthy backend remembers since when, under every event. *)
Definition since_ok (bs : backendState) : Prop :=
  p_status bs = StatusUnhealthy <-> is_Some (unhealthySince bs).

Lemma markUnhealthy_since now bs : since_ok bs -> since_ok (markUnhealthy now bs).
Proof. unfold markUnhealthy, since_ok. case_bool_decide; [done|]. simpl. by eauto. Qed.

Lemma markRecovered_since bs : since_ok bs -> since_ok (markRecovered bs).
Proof.
  unfold markRecovered, since_ok. case_bool_decide; cbn [negb]; [|done]. intros _. simpl.
  split; [done|]. by intros [? ?].
Qed.

Lemma step_since config e bs : since_ok bs -> since_ok (step config e bs).
Proof.
  intros H. destruct e as [now|now|now]; cbn [step].
  - exact H.
  - unfold failure. case_match; [apply markUnhealthy_since|]; exact H.
  - unfold evaluate. repeat case_match; auto using markUnhealthy_since, markRecovered_since.
Qed.

Lemma step_unhealthy config e bs t :
  p_status bs = StatusUnhealthy -> unhealthySince bs = Some t ->
  event_time e < t + CooldownPeriod config ->
  p_status (step config e bs) = StatusUnhealthy /\ unhealthySince (step config e bs) = Some t.
Proof.
  intros Hs Ht He. destruct e as [now|now|now]; cbn [step event_time] in *.
  - done.
  - unfold failure. case_match; [|done]. unfold markUnhealthy. simpl.
    by rewrite bool_decide_eq_true_2.
  - unfold evaluate. rewrite bool_decide_eq_true_2, Ht by done.
    by rewrite (proj2 (Z.leb_gt _ _)) by lia.
Qed.

Lemma failure_counts config t bs :
  0 <= consecutiveFails bs < 2 ^ 63 - 1 ->
  consecutiveFails (failure config t bs) = consecutiveFails bs + 1.
Proof.
  intros H. unfold failure.
  assert (Ei : i64 (consecutiveFails bs + 1) = consecutiveFails bs + 1)
    by (apply i64_small; unfold in_i64; lia).
  case_match; simpl; [|exact Ei]. unfold markUnhealthy. by case_match.
Qed.

Lemma failure_since config t0 t bs :
  t0 <= t -> (p_status bs = StatusUnhealthy -> exists u, unhealthySince bs = Some u /\ t0 <= u) ->
  p_status (failure config t bs) = StatusUnhealthy ->
  exists u, unhealthySince (failure config t bs) = Some u /\ t0 <= u.
Proof.
  intros Ht Hb. unfold failure. case_match; simpl; [|exact Hb]. unfold markUnhealthy. simpl.
  case_bool_decide; simpl; eauto.
Qed.

(** A run of failures that reaches the threshold. *)
Lemma failures_mark config t0 es bs :
  Forall (fun e => exists t, e = Failure t) es -> es <> [] ->
  ConsecutiveErrors config <= consecutiveFails bs + Z.of_nat (length es) ->
  consecutiveFails bs + Z.of_nat (length es) < 2 ^ 63 -> 0 <= consecutiveFails bs ->
  Forall (fun e => t0 <= event_time e) es ->
  (p_status bs = StatusUnhealthy -> exists t, unhealthySince bs = Some t /\ t0 <= t) ->
  p_status (run config es bs) = StatusUnhealthy /\
  exists t, unhealthySince (run config es bs) = Some t /\ t0 <= t.
Proof.
  unfold run. revert bs. induction es as [|e es IH]; intros bs Hf Hne Hc Hm H0 Ht Hb; [done|].
  apply Forall_cons in Hf as [[t ->] Hf]. apply Forall_cons in Ht as [Ht Hts].
  cbn [foldl step event_time length] in *.
  pose proof (failure_counts config t bs ltac:(lia)) as E.
  pose proof (failure_since config t0 t bs Ht Hb) as Hst.
  destruct es as [|e' es]; [|apply IH; rewrite ?E; auto; lia].
  cbn [foldl] in *. assert (Hu : p_status (failure config t bs) = StatusUnhealthy); [|by auto].
  unfold failure, record_failure. cbn [consecutiveFails].
  rewrite i64_small by (unfold in_i64; simpl in Hm; lia).
  rewrite (proj2 (Z.leb_le _ _)) by (simpl in Hc; lia). unfold markUnhealthy. simpl.
  by case_bool_decide.
Qed.

Lemma unhealthy_holds config es bs t :
  p_status bs = StatusUnhealthy -> unhealthySince bs = Some t ->
  Forall (fun e => event_time e < t + CooldownPeriod config) es ->
  p_status (run config es bs) = StatusUnhealthy.
Proof.
  unfold run. revert bs. induction es as [|e es IH]; intros bs Hu Ht Hes; [done|].
  apply Forall_cons in Hes as [He Hes]. cbn [foldl].
  destruct (step_unhealthy config e bs t Hu Ht He) as [Hu' Ht']. by apply IH.
Qed.

(** A backend that fails is taken out and stays out: [ConsecutiveErrors] failures in
    a row mark it unhealthy whatever its history, and until the cooldown has passed no
    success, failure or evaluation makes it healthy again. *)
Theorem passive_marks_and_holds config fails later t0 bs
  (Hfail : Forall (fun e => exists t, e = Failure t) fails) (Hne : fails <> [])
  (Hn : ConsecutiveErrors config <= Z.of_nat (length fails)) (Hlen : Z.of_nat (length fails) < 2 ^ 62)
  (H0 : 0 <= consecutiveFails bs < 2 ^ 62) (Hs : p_status bs <> StatusUnhealthy)
  (Hlow : Forall (fun e => t0 <= event_time e) fails)
  (Hlater : Forall (fun e => event_time e < t0 + CooldownPeriod config) later) :
  p_status (run config (fails ++ later) bs) = StatusUnhealthy.
Proof.
  destruct (failures_mark config t0 fails bs) as [Hu (t & Ht & Hle)]; auto; try lia; [by intros ?|].
  unfold run. rewrite foldl_app. apply (unhealthy_holds config later _ t); [done..|].
  eapply Forall_impl; [exact Hlater|]. simpl. lia.
Qed.

(** Once the cooldown has passed, the next evaluation takes the backend back with a
    clean record: it is healthy and its window is empty, so old failures do not count. *)
Theorem passive_recovers config now bs t
  (Hs : p_status bs = StatusUnhealthy) (Ht : unhealthySince bs = Some t)
  (Hc : t + CooldownPeriod config <= now) :
  let bs' := evaluate config now bs in
  p_status bs' = StatusHealthy /\ consecutiveFails bs' = 0 /\ unhealthySince bs' = None /\
  forall w n, (Stats w n (window bs')).1 = (0, 0).
Proof.
  cbv zeta. unfold evaluate. rewrite bool_decide_eq_true_2, Ht by done.
  rewrite (proj2 (Z.leb_le _ _)) by lia. unfold markRecovered.
  rewrite bool_decide_eq_true_2 by done. done.
Qed.

(** ** Examples *)

Lemma sliding_window_refines_witness :
  let ops := [OpRecord true 1; OpRecord false 2; OpRecord false 3; OpRecord true 4] in
  (Stats 2 5 (foldl (fun sw op => apply_op op sw) (NewSlidingWindow 3) ops)).1 = (2, 1).
Proof.
  exact (sliding_window_refines 3 [OpRecord true 1; OpRecord false 2; OpRecord false 3; OpRecord true 4]
    2 5 ltac:(lia)).
Defined.

Definition demo_passive : PassiveHealthConfig := mkPassiveConfig (f64_of_Z 1) 60 10 30 2 1.

Lemma passive_marks_and_holds_witness :
  p_status (run demo_passive ([Failure 100; Failure 101] ++ [Success 120; Evaluate 129]) new_backend)
  = StatusUnhealthy.
Proof.
  apply (passive_marks_and_holds demo_passive [Failure 100; Failure 101] [Success 120; Evaluate 129] 100).
  - repeat constructor; eauto.
  - discriminate.
  - vm_compute. discriminate.
  - vm_compute. reflexivity.
  - vm_compute. split; [discriminate|reflexivity].
  - discriminate.
  - repeat constructor; simpl; lia.
  - repeat constructor; simpl; lia.
Defined.

Lemma passive_recovers_witness :
  let bs := run demo_passive [Failure 100; Failure 101] new_backend in
  p_status (evaluate demo_passive 131 bs) = StatusHealthy.
Proof.
  apply (passive_recovers demo_passive 131 (run demo_passive [Failure 100; Failure 101] new_backend) 101);
    vm_compute; reflexivity || discriminate.
Defined.
