(* ===== verification/L7Proxy.v ===== *)
(** * The HTTP proxy: [internal/proxy/l7/proxy.go]

    A request from the matched route to the answer: validation, the choice of a backend,
    the attempts with their retries, the accounting on the backend and in the passive health
    checker, and what the client is sent.  The state is shared: backends in a heap, pools
    by pointer.  The exchanges with the backends are inputs, one per attempt, and so is the
    work of the handlers for WebSocket, gRPC and event streams.  One request runs at a time.

    The response writer is the header map and the list of status codes written so far. *)
From S2P Require Import Prelude GoFloat Errors Http Bytes NetIP NetAddr GoStrings Backend BackendPool.
From S2P Require Import Radix Router Security.
From S2P Require Passive.
From Stdlib Require Import Ascii.

(** ** Headers *)

Definition hopByHopHeaders : list string :=
  ["Connection"; "Keep-Alive"; "Proxy-Authenticate"; "Proxy-Authorization"; "TE"; "Trailers";
   "Transfer-Encoding"; "Upgrade"].

Definition hopByHopSet : list string := ToLower <$> hopByHopHeaders.
Definition hopByHopCanonicalSet : list string := CanonicalMIMEHeaderKey <$> hopByHopHeaders.

Definition isHopByHopHeader (name : string) : bool := bool_decide (lower_text name ∈ hopByHopSet).

Definition copyHeaders (dst src : headers) : headers :=
  foldl (fun dst '(key, values) =>
    if bool_decide (key ∈ hopByHopCanonicalSet) || isHopByHopHeader key then dst
    else foldl (fun dst value => Header_Add key (SanitizeHeaderValue value) dst) dst values) dst (map_to_list src).

(** ** Requests *)

(** A request with the peer that sent it. *)
Record inbound := mkInbound { in_req : Request; in_remote : string; in_tls : bool; in_http11 : bool }.

Definition IsWebSocketUpgrade (r : Request) : bool :=
  strings_Contains (lower_text (Header_Get (Header r) "Connection")) "upgrade" &&
  bool_decide (fold_text (Header_Get (Header r) "Upgrade") = "websocket").
Definition IsGRPCRequest (r : Request) : bool := HasPrefix (Header_Get (Header r) "Content-Type") "application/grpc".
Definition IsGRPCWebRequest (r : Request) : bool :=
  HasPrefix (Header_Get (Header r) "Content-Type") "application/grpc-web".
Definition IsSSERequest (r : Request) : bool := strings_Contains (Header_Get (Header r) "Accept") "text/event-stream".

(** The requests that one of the protocol handlers takes. *)
Definition special (r : Request) : bool :=
  IsWebSocketUpgrade r || IsGRPCWebRequest r || IsGRPCRequest r || IsSSERequest r.

(** *** The address of the client *)

(** Networks that do not parse are skipped. *)
Definition parseTrustedProxies (cidrs : list string) : list IPNet :=
  omap (fun cidr =>
    if has_char "/"%char cidr then snd <$> ParseCIDR cidr
    else match ParseIP cidr with
         | None => None
         | Some ip => snd <$> ParseCIDR (cidr +:+ match IP_To4 ip with Some _ => "/32" | None => "/128" end)
         end) cidrs.

Definition isTrustedProxy (nets : list IPNet) (ipStr : string) : bool :=
  match ParseIP ipStr with
  | None => false
  | Some ip => existsb (fun n => Contains n ip) nets
  end.

Definition host_of (addr : string) : string := match SplitHostPort addr with Some (h, _) => h | None => addr end.

(** [strings.Cut] at the first comma. *)
Definition first_entry (s : string) : string := default "" (head (Split ","%char s)).

Definition getClientIP (nets : list IPNet) (x : inbound) : string :=
  let host := host_of (in_remote x) in
  let xff := Header_Get (Header (in_req x)) "X-Forwarded-For" in
  let xri := Header_Get (Header (in_req x)) "X-Real-IP" in
  if isTrustedProxy nets host then
    if negb (bool_decide (xff = "")) then TrimSpace (first_entry xff)
    else if negb (bool_decide (xri = "")) then TrimSpace xri
    else host
  else host.

(** *** The outbound request *)

Record outbound := mkOutbound {
  out_scheme : string; out_addr : string; out_host : string; out_path : string; out_header : headers
}.

(** [Backend.GetURL] for an address of a host and a port. *)
Definition GetURL (b : Backend) : string * string :=
  (if bool_decide (Scheme b = "") then "http" else Scheme b, Address b).

Definition forwarded (nets : list IPNet) (x : inbound) (h : headers) : headers :=
  let clientIP := getClientIP nets x in
  let prior := Header_Get h "X-Forwarded-For" in
  let h := Header_Set "X-Forwarded-For" (if negb (bool_decide (prior = "")) then prior +:+ ", " +:+ clientIP else clientIP) h in
  let h := Header_Set "X-Real-IP" clientIP h in
  let h := Header_Set "X-Forwarded-Proto" (if in_tls x then "https" else "http") h in
  Header_Set "X-Forwarded-Host" (Host (in_req x)) h.

(** The headers that the Connection header names, and the hop-by-hop headers. *)
Definition strip_connection (h : headers) : headers :=
  let connHeaders := Header_Get h "Connection" in
  if bool_decide (connHeaders = "") then h
  else foldl (fun h name => Header_Del (TrimSpace name) h) h (Split ","%char connHeaders).

Definition strip_hop_by_hop (h : headers) : headers := foldl (fun h name => Header_Del name h) h hopByHopHeaders.

Definition prepareOutboundRequest (nets : list IPNet) (x : inbound) (b : Backend) : outbound :=
  let '(scheme, host) := GetURL b in
  mkOutbound scheme host (Host (in_req x)) (URLPath (in_req x))
    (strip_hop_by_hop (strip_connection (forwarded nets x (Header (in_req x))))).

(** ** Exchanges and errors *)

(** A failed exchange: its text, and whether it is a network timeout, a refused or a reset
    connection. *)
Record failure := mkFailure { f_text : string; f_timeout : bool; f_refused : bool; f_reset : bool }.

(** What [client.Do] and the copying of the body come to: no answer, or an answer whose body
    breaks off ([Some gone]: whether the client is gone) or not. *)
Inductive exchange :=
  | Failed (f : failure)
  | Answered (status : Z) (header : headers) (latency bytes : Z) (broken : option bool).

Inductive proxy_error := AtMaxConns | ExchangeFailed (f : failure) | Committed.

Definition retryableStrings : list string :=
  ["connection refused"; "actively refused"; "connection reset"; "no such host"; "timeout"; "temporary failure"].

Definition isRetryableError (f : failure) : bool :=
  f_timeout f || f_refused f || f_reset f ||
  existsb (fun s => strings_Contains (lower_text (f_text f)) s) retryableStrings.

Definition max_conns_failure : failure := mkFailure "backend at max connections" false false false.

Definition failure_of (e : proxy_error) : failure :=
  match e with
  | AtMaxConns => max_conns_failure
  | ExchangeFailed f => f
  | Committed => mkFailure "response already committed to client" false false false
  end.

(** *** The error handler

    [timeout] is whether the error is a network timeout. *)
Definition error_status (e : error) (timeout : bool) : Z :=
  let code := match e with
    | OlbError CodeRouteNotFound _ _ _ => 404
    | OlbError CodePoolNotFound _ _ _ | OlbError CodePoolEmpty _ _ _ | OlbError CodeBackendUnavailable _ _ _
    | OlbError CodeBackendNotFound _ _ _ => 503
    | OlbError CodeConnectionRefused _ _ _ => 502
    | OlbError CodeConnectionTimeout _ _ _ | OlbError CodeTimeout _ _ _ => 504
    | _ => 500
    end in
  if timeout then 504 else code.

Record writer := mkWriter { w_header : headers; w_codes : list Z }.

Definition WriteHeader (code : Z) (w : writer) : writer := mkWriter (w_header w) (w_codes w ++ [code]).

Definition defaultErrorHandler (e : error) (timeout : bool) (w : writer) : writer :=
  WriteHeader (error_status e timeout) (mkWriter (Header_Set "Content-Type" "application/json" (w_header w)) (w_codes w)).

(** ** The proxy *)

(** The proxy's own settings; shadowing to targets is on when there is a [shadow]. *)
Record shadow := mkShadow { sh_percentage : float64; sh_counter : Z; sh_targets : list (nat * list ptr) }.

Record settings := mkSettings { maxRetries : Z; trustedNets : list IPNet; passive_config : Passive.PassiveHealthConfig }.

Definition resolve_retries (configured : Z) : Z := if configured =? 0 then 3 else configured.

Section Proxy.
Context {S : Type} `{Balancer S}.
Variable cfg : settings.

Record l7_state := mkL7 {
  l7_heap : heap; l7_pools : pool_heap S; l7_passive : option Passive.PassiveChecker; l7_shadow : option shadow
}.

Definition on_backend (f : Backend -> Backend) (b : ptr) (st : l7_state) : l7_state :=
  mkL7 (heap_set (l7_heap st) b (f (l7_heap st b))) (l7_pools st) (l7_passive st) (l7_shadow st).

Definition on_passive (f : Passive.PassiveChecker -> Passive.PassiveChecker) (st : l7_state) : l7_state :=
  mkL7 (l7_heap st) (l7_pools st) (f <$> l7_passive st) (l7_shadow st).

Definition set_pool (q : nat) (p : Pool S) (st : l7_state) : l7_state :=
  mkL7 (l7_heap st) (fun r => if bool_decide (r = q) then p else l7_pools st r) (l7_passive st) (l7_shadow st).

Definition passive_success (now : Z) (b : ptr) (st : l7_state) : l7_state :=
  on_passive (Passive.RecordSuccess now (Address (l7_heap st b))) st.

Definition passive_failure (now : Z) (b : ptr) (st : l7_state) : l7_state :=
  on_passive (Passive.RecordFailure (passive_config cfg) now (Address (l7_heap st b))) st.

(** [proxyRequest]: one attempt, whose exchange is [x]. *)
Definition proxyRequest (now : Z) (x : exchange) (b : ptr) (st : l7_state) (w : writer)
    : option proxy_error * l7_state * writer :=
  let '(ok, be) := AcquireConn (l7_heap st b) in
  if negb ok then (Some AtMaxConns, st, w)
  else
    let st := on_backend (fun _ => be) b st in
    match x with
    | Failed f => (Some (ExchangeFailed f), on_backend ReleaseConn b st, w)
    | Answered status header latency bytes broken =>
        let w := WriteHeader status (mkWriter (copyHeaders (w_header w) header) (w_codes w)) in
        let st := on_backend (RecordRequest latency bytes) b st in
        match broken with
        | None => (None, on_backend ReleaseConn b st, w)
        | Some true => (Some Committed, on_backend ReleaseConn b st, w)
        | Some false =>
            (Some Committed, on_backend ReleaseConn b (passive_failure now b (on_backend RecordError b st)), w)
        end
    end.

(** An error of a protocol handler: after the response was committed, or an error and
    whether it is a network timeout. *)
Inductive special_error := SpecialCommitted | SpecialFailed (e : error) (timeout : bool).

(** How a request ends: answered, or in a panic of the handler. *)
Inductive ending := Finished | Panicked.

(** The retry loop: [n] attempts are left, [k] have been made on the backends [attempted]
    (and [trace] as pointers), the last failure is [last]. *)
Fixpoint retry_loop (now : Z) (ctx : RequestContext) (xs : nat -> exchange) (q : nat) (n k : nat)
    (attempted : list string) (trace : list ptr) (last : option failure) (st : l7_state) (w : writer)
    : ending * list ptr * l7_state * writer :=
  match n with
  | O =>
      match last with
      | None => (Panicked, trace, st, w)
      | Some f => (Finished, trace, st, defaultErrorHandler (WithContext ErrBackendUnavailable "reason" (f_text f)) false w)
      end
  | Datatypes.S n =>
      let pool := l7_pools st q in
      let healthy := GetHealthyBackends (l7_heap st) pool in
      let available :=
        match k with
        | O => healthy
        | _ => List.filter (fun b => negb (bool_decide (ID (l7_heap st b) ∈ attempted))) healthy
        end in
      match available with
      | [] =>
          let err := if bool_decide (healthy = []) then WithContext ErrPoolEmpty "pool" (Name pool)
                     else WithContext ErrBackendUnavailable "reason" "all backends attempted" in
          (Finished, trace, st, defaultErrorHandler err false w)
      | _ =>
          match balancer pool with
          | None => (Panicked, trace, st, w)
          | Some bal =>
              let '(sel, bal) := bal_Next (l7_heap st) (Some ctx) available bal in
              let st := set_pool q (set_balancer (Some bal) pool) st in
              match sel with
              | None => (Finished, trace, st,
                         defaultErrorHandler (WithContext ErrBackendUnavailable "pool" (Name pool)) false w)
              | Some b =>
                  let '(err, st, w) := proxyRequest now (xs k) b st w in
                  let trace := trace ++ [b] in
                  match err with
                  | None => (Finished, trace, passive_success now b st, w)
                  | Some Committed => (Finished, trace, st, w)
                  | Some err =>
                      let f := failure_of err in
                      let st := passive_failure now b (on_backend RecordError b st) in
                      if isRetryableError f
                      then retry_loop now ctx xs q n (Datatypes.S k) (attempted ++ [ID (l7_heap st b)]) trace (Some f) st w
                      else (Finished, trace, st,
                            defaultErrorHandler (WithContext ErrBackendUnavailable "reason" (f_text f)) false w)
                  end
              end
          end
      end
  end.

(** [selectBackend]; a pool without a balancer panics. *)
Definition selectBackend (q : nat) (ctx : RequestContext) (st : l7_state) : option (option ptr * l7_state) :=
  let pool := l7_pools st q in
  match GetHealthyBackends (l7_heap st) pool with
  | [] => Some (None, st)
  | healthy =>
      match balancer pool with
      | None => None
      | Some bal => let '(sel, bal) := bal_Next (l7_heap st) (Some ctx) healthy bal in
                    Some (sel, set_pool q (set_balancer (Some bal) pool) st)
      end
  end.

(** *** Shadowing (shadow.go)

    The copies are sent in the background; what is left of the request here is the counter
    and the balancers, which the targets share with their pools. *)
Definition ShouldShadow (sm : shadow) : bool * shadow :=
  if bool_decide (sh_targets sm = []) then (false, sm)
  else if f64_leb (sh_percentage sm) (S754_zero false) then (false, sm)
  else if f64_leb (f64_of_Z 100) (sh_percentage sm) then (true, sm)
  else
    let n := u64 (sh_counter sm + 1) in
    let threshold := u64 (f64_to_Z (f64_div (f64_of_Z 100) (sh_percentage sm))) in
    (n mod threshold =? 1, mkShadow (sh_percentage sm) n (sh_targets sm)).

(** The selections of [ShadowRequest]. *)
Definition ShadowRequest (targets : list (nat * list ptr)) (st : l7_state) : l7_state :=
  foldl (fun st '(q, backends) =>
    match balancer (l7_pools st q) with
    | None => st
    | Some bal => set_pool q (set_balancer (Some (snd (bal_Next (l7_heap st) None backends bal))) (l7_pools st q)) st
    end) st targets.

Definition shadow_step (st : l7_state) : l7_state :=
  match l7_shadow st with
  | None => st
  | Some sm =>
      let '(yes, sm') := ShouldShadow sm in
      let st := mkL7 (l7_heap st) (l7_pools st) (l7_passive st) (Some sm') in
      if yes then ShadowRequest (sh_targets sm) st else st
  end.

(** *** The handler

    [handle] is the work of the handler for the protocol of a special request. *)
Definition proxyHandler (now : Z) (x : inbound) (pm : PoolManager) (route : Route) (xs : nat -> exchange)
    (handle : inbound -> ptr -> l7_state -> writer -> option special_error * l7_state * writer) (st : l7_state) (w : writer)
    : ending * list ptr * l7_state * writer :=
  match ValidateRequest (in_http11 x) (in_req x) with
  | inl text => (Finished, [], st,
      defaultErrorHandler (OlbError CodeInvalidRequest "request validation failed" (Some (StdError 1 text)) ∅) false w)
  | inr r =>
      let x := mkInbound r (in_remote x) (in_tls x) (in_http11 x) in
      match GetPool pm (BackendPool route) with
      | None => (Finished, [], st, defaultErrorHandler (WithContext ErrPoolNotFound "pool" (BackendPool route)) false w)
      | Some q =>
          let st := shadow_step st in
          (* [NewRequestContext] leaves the client address empty *)
          let ctx := mkRequestContext "" (Some r) in
          if special r then
            match selectBackend q ctx st with
            | None => (Panicked, [], st, w)
            | Some (None, st) => (Finished, [], st,
                defaultErrorHandler (WithContext ErrBackendUnavailable "pool" (Name (l7_pools st q))) false w)
            | Some (Some b, st) =>
                let '(err, st, w) := handle x b st w in
                match err with
                | None | Some SpecialCommitted => (Finished, [b], st, w)
                | Some (SpecialFailed err timeout) =>
                    let st := passive_failure now b (on_backend RecordError b st) in
                    (Finished, [b], st, defaultErrorHandler err timeout w)
                end
            end
          else retry_loop now ctx xs q (Z.to_nat (maxRetries cfg)) 0 [] [] None st w
      end
  end.

(** [ServeHTTP] of a proxy without middleware: the route is matched on the request as it
    came in. *)
Definition ServeHTTP (now : Z) (x : inbound) (rt : Router) (pm : PoolManager) (xs : nat -> exchange)
    (handle : inbound -> ptr -> l7_state -> writer -> option special_error * l7_state * writer) (st : l7_state) (w : writer)
    : ending * list ptr * l7_state * writer :=
  match Router_Match rt (in_req x) with
  | None => (Finished, [], st, defaultErrorHandler ErrRouteNotFound false w)
  | Some m => proxyHandler now x pm (rm_Route m) xs handle st w
  end.
End Proxy.
