(* ===== verification/L7ProxyFacts.v ===== *)
(** * What the HTTP proxy guarantees

    Each request is answered once, its attempts go to different available backends, only
    attempts that failed before anything was sent are repeated, and no connection slot is
    lost.  And where the proxy and its parts disagree. *)
From S2P Require Import Prelude GoFloat Errors Http Bytes NetIP NetAddr GoStrings Backend BackendPool.
From S2P Require Import GoHash Balancers BalancersFacts Radix Router Security SecurityFacts L7Proxy.
From S2P Require Passive.
From Stdlib Require Import Ascii.

(** ** Backends *)

(** Connections in the range of [int64], as they are while fewer goroutines than that run. *)
Definition conns_ok (h : heap) : Prop := forall b, in_i64 (activeConns (h b)).

(** What the accounting of requests leaves alone. *)
Record keeps (h h' : heap) : Prop := {
  k_ids : same_ids h h';
  k_state : forall b, state (h' b) = state (h b);
  k_address : forall b, Address (h' b) = Address (h b);
  k_limit : forall b, maxConns (h' b) = maxConns (h b);
  k_conns : conns_ok h -> forall b, activeConns (h' b) = activeConns (h b)
}.

Lemma heap_set_at h b x : heap_set h b x b = x.
Proof. unfold heap_set. by rewrite bool_decide_true. Qed.

Lemma keeps_refl h : keeps h h.
Proof. by split. Qed.

Lemma keeps_conns_ok h h' : keeps h h' -> conns_ok h -> conns_ok h'.
Proof. intros K Hc b. rewrite (k_conns _ _ K Hc). apply Hc. Qed.

Lemma keeps_trans h1 h2 h3 : keeps h1 h2 -> keeps h2 h3 -> keeps h1 h3.
Proof.
  intros K1 K2. split.
  - intros b. by rewrite (k_ids _ _ K2), (k_ids _ _ K1).
  - intros b. by rewrite (k_state _ _ K2), (k_state _ _ K1).
  - intros b. by rewrite (k_address _ _ K2), (k_address _ _ K1).
  - intros b. by rewrite (k_limit _ _ K2), (k_limit _ _ K1).
  - intros Hc b. rewrite (k_conns _ _ K2), (k_conns _ _ K1); [done..|]. by eapply keeps_conns_ok.
Qed.

(** A change of one backend that keeps these fields. *)
Lemma keeps_set h b x :
  ID x = ID (h b) -> state x = state (h b) -> Address x = Address (h b) -> maxConns x = maxConns (h b) ->
  (conns_ok h -> activeConns x = activeConns (h b)) -> keeps h (heap_set h b x).
Proof.
  intros H1 H2 H3 H4 H5. split; intros; try intros q; unfold heap_set; case_bool_decide; subst; auto.
Qed.

(** An attempt takes a slot and gives it back. *)
Lemma acquire_release b be : AcquireConn b = (true, be) -> in_i64 (activeConns b) -> i64 (activeConns be - 1) = activeConns b.
Proof.
  unfold AcquireConn. intros H Hr. assert (E : activeConns be = i64 (activeConns b + 1)).
  { destruct (0 <? GetMaxConns b); [destruct (GetMaxConns b <=? activeConns b)|]; by inversion H. }
  rewrite E. destruct (decide (activeConns b = 2 ^ 63 - 1)) as [->|Hne]; [done|].
  rewrite (i64_small (activeConns b + 1)) by (unfold in_i64 in *; lia). rewrite Z.add_simpl_r. by apply i64_small.
Qed.

Lemma AcquireConn_fields b be ok : AcquireConn b = (ok, be) ->
  ID be = ID b /\ state be = state b /\ Address be = Address b /\ maxConns be = maxConns b.
Proof. unfold AcquireConn. repeat case_match; by intros [= _ <-]. Qed.

Section Proxy.
Context {S : Type} `{HB : Balancer S}.
Variable cfg : settings.

Implicit Types (st : l7_state (S := S)).

(** What a request does to the state: accounting on backends, and new balancer states. *)
Record frame st st' : Prop := {
  fr_heap : keeps (l7_heap st) (l7_heap st');
  fr_order : forall q, order (l7_pools st' q) = order (l7_pools st q);
  fr_backends : forall q, Backends (l7_pools st' q) = Backends (l7_pools st q);
  fr_balancer : forall q, is_Some (balancer (l7_pools st q)) -> is_Some (balancer (l7_pools st' q))
}.

Lemma frame_refl st : frame st st.
Proof. split; [apply keeps_refl|done..]. Qed.

Lemma frame_trans st1 st2 st3 : frame st1 st2 -> frame st2 st3 -> frame st1 st3.
Proof.
  intros [A1 A2 A3 A4] [B1 B2 B3 B4]. split; [by eapply keeps_trans|intros; by rewrite B2|intros; by rewrite B3|auto].
Qed.

Lemma frame_set_pool q bal st : balancer (l7_pools st q) <> None ->
  frame st (set_pool q (set_balancer (Some bal) (l7_pools st q)) st).
Proof.
  intros Hb. split; [apply keeps_refl|..]; intros r; cbn; case_bool_decide; by subst.
Qed.

Lemma frame_passive f st : frame st (on_passive f st).
Proof. split; [apply keeps_refl|done..]. Qed.

Lemma frame_backend f b st :
  (forall x, ID (f x) = ID x /\ state (f x) = state x /\ Address (f x) = Address x /\ maxConns (f x) = maxConns x /\
             activeConns (f x) = activeConns x) -> frame st (on_backend f b st).
Proof.
  intros Hf. destruct (Hf (l7_heap st b)) as (H1 & H2 & H3 & H4 & H5). split; [|done..]. by apply keeps_set.
Qed.

Lemma frame_error b st : frame st (on_backend RecordError b st).
Proof. by apply frame_backend. Qed.

Lemma frame_failure now b st : frame st (passive_failure cfg now b st).
Proof. apply frame_passive. Qed.

#[local] Hint Resolve frame_refl frame_passive frame_error frame_failure : core.

(** An attempt keeps the frame, whether it fails or not, and writes a status exactly when
    the backend answered. *)
Lemma proxyRequest_spec now x b st w err st' w' :
  proxyRequest cfg now x b st w = (err, st', w') ->
  frame st st' /\
  match err with
  | Some AtMaxConns => w' = w /\ AcquireConn (l7_heap st b) = (false, l7_heap st b)
  | Some (ExchangeFailed f) => w' = w /\ x = Failed f
  | _ => exists status header latency bytes broken, x = Answered status header latency bytes broken /\
           w' = WriteHeader status (mkWriter (copyHeaders (w_header w) header) (w_codes w)) /\
           (err = None <-> broken = None)
  end.
Proof.
  unfold proxyRequest. destruct (AcquireConn (l7_heap st b)) as [[] be] eqn:Ea; cbn [negb].
  2: { intros [= <- <- <-]. split; [done|]. split; [done|]. f_equal.
       unfold AcquireConn in Ea. repeat case_match; by inversion Ea. }
  destruct (AcquireConn_fields _ _ _ Ea) as (A1 & A2 & A3 & A4).
  assert (Hc : conns_ok (l7_heap st) -> i64 (activeConns be - 1) = activeConns (l7_heap st b))
    by (intros Hok; by apply acquire_release).
  assert (Hb : forall h f, (forall x, ID (f x) = ID x /\ state (f x) = state x /\ Address (f x) = Address x /\
      maxConns (f x) = maxConns x /\ activeConns (f x) = i64 (activeConns x - 1)) ->
      (forall q, h q = if bool_decide (b = q) then f be else l7_heap st q) -> keeps (l7_heap st) h).
  { intros h f Hf Hh. destruct (Hf be) as (F1 & F2 & F3 & F4 & F5).
    split; intros; try intros q; rewrite Hh; case_bool_decide; subst; try done; try congruence. rewrite F5. auto. }
  destruct x as [f|status header latency bytes broken]; [|destruct broken as [[]|]]; intros [= <- <- <-].
  - split; [split; [|done..]|done]. apply (Hb _ ReleaseConn); [done|].
    intros q. cbn. unfold heap_set. by repeat case_bool_decide.
  - split; [split; [|done..]|by repeat eexists]. apply (Hb _ (fun x => ReleaseConn (RecordRequest latency bytes x))); [done|].
    intros q. cbn. unfold heap_set. by repeat case_bool_decide.
  - split; [split; [|done..]|by repeat eexists].
    apply (Hb _ (fun x => ReleaseConn (RecordError (RecordRequest latency bytes x)))); [done|].
    intros q. cbn. unfold heap_set. by repeat case_bool_decide.
  - split; [split; [|done..]|by repeat eexists]. apply (Hb _ (fun x => ReleaseConn (RecordRequest latency bytes x))); [done|].
    intros q. cbn. unfold heap_set. by repeat case_bool_decide.
Qed.

Context `{!BalancerLaws S}.

(** The IDs of a list of backends. *)
Definition ids (h : heap) (l : list ptr) : list string := (fun b => ID (h b)) <$> l.

Lemma ids_keeps h h' l : keeps h h' -> ids h' l = ids h l.
Proof. intros K. unfold ids. apply list_fmap_ext. intros _ b _. apply (k_ids _ _ K). Qed.

Lemma available_keeps h h' b : keeps h h' -> IsAvailable (h' b) = IsAvailable (h b).
Proof. intros K. unfold IsAvailable. by rewrite (k_state _ _ K). Qed.

(** What a run of the loop has done: the attempts it added, in order. *)
Record run_spec (xs : nat -> exchange) (q : nat) (n : nat) (trace : list ptr) st (w : writer) (e : ending)
    (trace' : list ptr) st' (w' : writer) : Prop := {
  rs_frame : frame st st';
  rs_new : exists new, trace' = trace ++ new /\ (length new <= n)%nat /\
    forall b, b ∈ new -> b ∈ order (l7_pools st q) /\ IsAvailable (l7_heap st b) = true;
  rs_distinct : NoDup (ids (l7_heap st) trace');
  rs_retried : forall i, (length trace <= i)%nat -> (Datatypes.S i < length trace')%nat ->
    exists f, xs i = Failed f /\ isRetryableError f = true;
  rs_finished : e = Finished -> exists code, w_codes w' = w_codes w ++ [code]
}.

(** A run without an attempt. *)
Lemma run_spec_stop xs q n trace st st' w e w' :
  frame st st' -> NoDup (ids (l7_heap st) trace) -> (e = Finished -> exists code, w_codes w' = w_codes w ++ [code]) ->
  run_spec xs q n trace st w e trace st' w'.
Proof.
  intros Hf Hnd Hc. split; [done| |done| |done].
  - exists []. rewrite app_nil_r. split_and!; [done|cbn; lia|]. intros b Hb. by apply elem_of_nil in Hb.
  - intros i H1 H2. lia.
Qed.

(** A run of one more attempt on a fresh available backend. *)
Lemma run_spec_last xs q n trace b st st' w e w' :
  frame st st' -> b ∈ order (l7_pools st q) -> IsAvailable (l7_heap st b) = true ->
  NoDup (ids (l7_heap st) (trace ++ [b])) -> (e = Finished -> exists code, w_codes w' = w_codes w ++ [code]) ->
  run_spec xs q (Datatypes.S n) trace st w e (trace ++ [b]) st' w'.
Proof.
  intros Hf Hb Ha Hnd Hc. split; [done| |done| |done].
  - exists [b]. split_and!; [done|cbn; lia|]. intros x ->%list_elem_of_singleton. done.
  - intros i H1 H2. rewrite length_app in H2. cbn in H2. lia.
Qed.

(** An attempt that failed retryably, before the rest of the run. *)
Lemma run_spec_cons xs q n trace b f st st1 st' w e trace' w' :
  frame st st1 -> b ∈ order (l7_pools st q) -> IsAvailable (l7_heap st b) = true ->
  xs (length trace) = Failed f -> isRetryableError f = true ->
  run_spec xs q n (trace ++ [b]) st1 w e trace' st' w' -> run_spec xs q (Datatypes.S n) trace st w e trace' st' w'.
Proof.
  intros Hf Hb Ha Hx Hr [R1 (new & -> & R2 & R3) R4 R5 R6]. split; [by eapply frame_trans| | | |done].
  - exists (b :: new). rewrite <- app_assoc. split_and!; [done|cbn; lia|].
    intros x [->|Hin]%elem_of_cons; [done|]. destruct (R3 x Hin) as [H1 H2].
    rewrite (fr_order _ _ Hf) in H1. by rewrite (available_keeps _ _ _ (fr_heap _ _ Hf)) in H2.
  - by rewrite <- (ids_keeps _ _ _ (fr_heap _ _ Hf)).
  - intros i H1 H2. destruct (decide (i = length trace)) as [->|Hne]; [by exists f|].
    apply R5; [|done]. rewrite length_app. cbn. lia.
Qed.

Lemma retry_loop_spec now ctx xs q n trace last st w e trace' st' w' :
  retry_loop cfg now ctx xs q n (length trace) (ids (l7_heap st) trace) trace last st w = (e, trace', st', w') ->
  NoDup (ids (l7_heap st) trace) ->
  run_spec xs q n trace st w e trace' st' w' /\
  (is_Some (balancer (l7_pools st q)) -> (is_Some last \/ n <> O) -> e = Finished).
Proof.
  revert trace last st w. induction n as [|n IH]; intros trace last st w; cbn [retry_loop].
  { intros Hl Hnd. destruct last; injection Hl as <- <- <- <-; (split; [apply run_spec_stop; [done|done|]|]);
      try done; [by eexists|]. intros _ [[]|]; done. }
  set (pool := l7_pools st q). set (healthy := GetHealthyBackends (l7_heap st) pool).
  set (available := match length trace with O => healthy | _ => _ end).
  assert (Hav : forall b, b ∈ available -> b ∈ order pool /\ IsAvailable (l7_heap st b) = true /\
    ID (l7_heap st b) ∉ ids (l7_heap st) trace).
  { intros b Hb. assert (Hh : b ∈ healthy /\ ID (l7_heap st b) ∉ ids (l7_heap st) trace).
    { unfold available in Hb. destruct trace as [|t trace]; [split; [done|apply not_elem_of_nil]|].
      cbn [length] in Hb. apply list_elem_of_In, List.filter_In in Hb as [H1 H2]. apply list_elem_of_In in H1.
      split; [done|]. by apply negb_true_iff, bool_decide_eq_false in H2. }
    destruct Hh as [Hh Hn]. by apply GetHealthyBackends_in in Hh as [? ?]. }
  intros Hl Hnd. destruct available as [|b0 rest] eqn:Eav.
  { injection Hl as <- <- <- <-. split; [apply run_spec_stop; [done|done|by eexists]|done]. }
  rewrite <- Eav in Hl, Hav. clear Eav b0 rest. destruct (balancer pool) as [bal|] eqn:Ebal.
  2: { injection Hl as <- <- <- <-. split; [by apply run_spec_stop|by intros []]. }
  destruct (bal_Next (l7_heap st) (Some ctx) available bal) as [sel bal'] eqn:En.
  set (st1 := set_pool q (set_balancer (Some bal') pool) st) in Hl.
  assert (F1 : frame st st1) by (apply frame_set_pool; fold pool; by rewrite Ebal).
  destruct sel as [b|]; [|injection Hl as <- <- <- <-; split; [apply run_spec_stop; [done|done|by eexists]|done]].
  destruct (Hav b (bal_Next_in _ _ _ _ _ _ En)) as (Hb1 & Hb2 & Hb3).
  assert (Hnd' : NoDup (ids (l7_heap st) (trace ++ [b]))).
  { unfold ids in *. rewrite fmap_app. apply NoDup_app. split_and!; [done| |apply NoDup_singleton].
    intros y Hy ->%list_elem_of_singleton. done. }
  destruct (proxyRequest cfg now (xs (length trace)) b st1 w) as [[err st2] w2] eqn:Ep.
  destruct (proxyRequest_spec _ _ _ _ _ _ _ _ Ep) as [F2 Hout]. assert (F3 := frame_trans _ _ _ F1 F2).
  assert (F4 : frame st (passive_failure cfg now b (on_backend RecordError b st2)))
    by (eapply frame_trans; [exact F3|]; eapply frame_trans; [apply frame_error|apply frame_failure]).
  destruct err as [[| f|]|].
  - cbn [failure_of] in Hl. change (isRetryableError max_conns_failure) with false in Hl. cbv iota in Hl.
    injection Hl as <- <- <- <-. destruct Hout as [-> _]. split; [|done]. apply run_spec_last; try done. by eexists.
  - destruct Hout as [-> Hx]. cbn [failure_of] in Hl. destruct (isRetryableError f) eqn:Er.
    + set (st3 := passive_failure cfg now b (on_backend RecordError b st2)) in *.
      assert (Hids : ids (l7_heap st) trace ++ [ID (l7_heap st3 b)] = ids (l7_heap st3) (trace ++ [b])).
      { rewrite (ids_keeps _ _ _ (fr_heap _ _ F4)). unfold ids. rewrite fmap_app. cbn [fmap list_fmap].
        by rewrite (k_ids _ _ (fr_heap _ _ F4)). }
      rewrite Hids in Hl. replace (Datatypes.S (length trace)) with (length (trace ++ [b])) in Hl
        by (rewrite length_app; cbn; lia).
      destruct (IH _ _ _ _ Hl) as [R Hfin]; [by rewrite (ids_keeps _ _ _ (fr_heap _ _ F4))|].
      split; [by eapply run_spec_cons|]. intros Hs _. apply Hfin; [|left; by eexists].
      apply (fr_balancer _ _ F4). fold pool. rewrite Ebal. by eexists.
    + injection Hl as <- <- <- <-. split; [|done]. apply run_spec_last; try done. by eexists.
  - injection Hl as <- <- <- <-. destruct Hout as (status & hdr & lat & bytes & br & _ & -> & _). split; [|done].
    apply run_spec_last; try done. by eexists.
  - injection Hl as <- <- <- <-. destruct Hout as (status & hdr & lat & bytes & br & _ & -> & _). split; [|done].
    apply run_spec_last; try done; [|by eexists]. eapply frame_trans; [exact F3|apply frame_passive].
Qed.

(** *** The handler *)

Lemma special_set_path p r : special (set_path p r) = special r.
Proof. done. Qed.

Lemma frame_shadow st : frame st (shadow_step st).
Proof.
  unfold shadow_step. destruct (l7_shadow st) as [sm|]; [|done]. destruct (ShouldShadow sm) as [yes sm'].
  set (st1 := mkL7 _ _ _ _). assert (F1 : frame st st1) by (split; [apply keeps_refl|done..]).
  destruct yes; [|done]. eapply frame_trans; [exact F1|]. clear F1. clearbody st1. unfold ShadowRequest.
  generalize (sh_targets sm) as ts. intros ts. revert st1. induction ts as [|[q backends] ts IH]; intros st1; [done|].
  cbn [foldl]. destruct (balancer (l7_pools st1 q)) as [bal|] eqn:Eb; [|apply IH].
  eapply frame_trans; [|apply IH]. apply frame_set_pool. by rewrite Eb.
Qed.

(** A plain request that gets as far as the pool of its route is the run of its attempts. *)
Lemma proxyHandler_plain now x pm route xs handle st w q :
  special (in_req x) = false -> GetPool pm (BackendPool route) = Some q ->
  (exists text, ValidateRequest (in_http11 x) (in_req x) = inl text) \/
  exists ctx, proxyHandler cfg now x pm route xs handle st w =
    retry_loop cfg now ctx xs q (Z.to_nat (maxRetries cfg)) 0 [] [] None (shadow_step st) w.
Proof.
  intros Hs Hq. unfold proxyHandler. destruct (ValidateRequest (in_http11 x) (in_req x)) as [text|r] eqn:Ev; [by left; exists text|].
  right. rewrite Hq. assert (Hr : special r = false).
  { apply validate_request_iff in Ev as [_ ->]. by rewrite special_set_path. }
  rewrite Hr. by eexists.
Qed.

(** The run of a plain request from its first attempt, or an answer without one. *)
Lemma proxyHandler_spec now x pm route xs handle st w e trace st' w' q :
  special (in_req x) = false -> GetPool pm (BackendPool route) = Some q ->
  proxyHandler cfg now x pm route xs handle st w = (e, trace, st', w') ->
  run_spec xs q (Z.to_nat (maxRetries cfg)) [] st w e trace st' w' /\
  (is_Some (balancer (l7_pools st q)) -> 0 < maxRetries cfg -> e = Finished).
Proof.
  intros Hs Hq Hh. destruct (proxyHandler_plain now x pm route xs handle st w q Hs Hq) as [[text Ev]|[ctx E]].
  - unfold proxyHandler in Hh. rewrite Ev in Hh. injection Hh as <- <- <- <-. split; [|done].
    apply run_spec_stop; [done|constructor|by eexists].
  - rewrite E in Hh. pose proof (frame_shadow st) as F. destruct (retry_loop_spec now ctx xs q _ [] None _ _ _ _ _ _ Hh) as [R Hfin]; [constructor|].
    split; [|intros Hb Hm; apply Hfin; [by apply (fr_balancer _ _ F)|right; lia]].
    destruct R as [R1 (new & E1 & R2 & R3) R4 R5 R6]. split; [by eapply frame_trans| |by rewrite <- (ids_keeps _ _ _ (fr_heap _ _ F))|done|done].
    exists new. split_and!; [done|done|]. intros b Hb. destruct (R3 b Hb) as [H1 H2].
    rewrite (fr_order _ _ F) in H1. by rewrite (available_keeps _ _ _ (fr_heap _ _ F)) in H2.
Qed.

(** C2: A plain request is answered exactly once: one status is written, by a backend or by the
    error handler, never two and never none.  Its attempts go to different backends of the
    pool that were available, at most as many as configured, and an attempt is repeated only
    when its exchange failed before anything was sent. *)
Theorem request_answered_once now x pm route xs handle st w e trace st' w' q
  (Hplain : special (in_req x) = false) (Hpool : GetPool pm (BackendPool route) = Some q)
  (Hbal : is_Some (balancer (l7_pools st q))) (Hretries : 0 < maxRetries cfg)
  (Hrun : proxyHandler cfg now x pm route xs handle st w = (e, trace, st', w')) :
  e = Finished /\ (exists code, w_codes w' = w_codes w ++ [code]) /\
  Z.of_nat (length trace) <= maxRetries cfg /\ NoDup (ids (l7_heap st) trace) /\
  (forall b, b ∈ trace -> b ∈ order (l7_pools st q) /\ IsAvailable (l7_heap st b) = true) /\
  (forall i, (Datatypes.S i < length trace)%nat -> exists f, xs i = Failed f /\ isRetryableError f = true).
Proof.
  destruct (proxyHandler_spec _ _ _ _ _ _ _ _ _ _ _ _ _ Hplain Hpool Hrun) as [[_ (new & -> & R2 & R3) R4 R5 R6] Hfin].
  specialize (Hfin Hbal Hretries). split_and!; [done|by apply R6|cbn; lia|done|done|]. intros i Hi. apply R5; [cbn; lia|done].
Qed.

(** C15: Whatever becomes of a plain request, every connection slot it took is given back. *)
Theorem request_returns_connections now x pm route xs handle st w e trace st' w' q
  (Hplain : special (in_req x) = false) (Hpool : GetPool pm (BackendPool route) = Some q)
  (Hrange : conns_ok (l7_heap st))
  (Hrun : proxyHandler cfg now x pm route xs handle st w = (e, trace, st', w')) :
  forall b, activeConns (l7_heap st' b) = activeConns (l7_heap st b) /\ state (l7_heap st' b) = state (l7_heap st b).
Proof.
  destruct (proxyHandler_spec _ _ _ _ _ _ _ _ _ _ _ _ _ Hplain Hpool Hrun) as [[R1 _ _ _ _] _].
  intros b. pose proof (fr_heap _ _ R1) as K. by rewrite (k_conns _ _ K Hrange), (k_state _ _ K).
Qed.

(** *** Reaching an answer *)

Lemma healthy_frame st st' q : frame st st' ->
  GetHealthyBackends (l7_heap st') (l7_pools st' q) = GetHealthyBackends (l7_heap st) (l7_pools st q).
Proof.
  intros F. unfold GetHealthyBackends. rewrite (fr_order _ _ F). apply List.filter_ext. intros b.
  apply (available_keeps _ _ _ (fr_heap _ _ F)).
Qed.

Lemma healthy_ids_NoDup h (p : Pool S) : pool_wf h p -> NoDup (ids h (GetHealthyBackends h p)).
Proof.
  intros Hwf. unfold ids. apply NoDup_fmap_2_strong.
  - intros b1 b2 [H1 _]%GetHealthyBackends_in [H2 _]%GetHealthyBackends_in E.
    apply (wf_order _ _ Hwf) in H1. apply (wf_order _ _ Hwf) in H2. rewrite E in H1. congruence.
  - unfold GetHealthyBackends. apply NoDup_ListNoDup, List.NoDup_filter, NoDup_ListNoDup, (wf_nodup _ _ Hwf).
Qed.

(** A backend with a free slot. *)
Definition has_slot (h : heap) (b : ptr) : Prop := maxConns (h b) <= 0 \/ activeConns (h b) < maxConns (h b).

Lemma has_slot_keeps h h' b : keeps h h' -> conns_ok h -> has_slot h b -> has_slot h' b.
Proof. intros K Hc. unfold has_slot. by rewrite (k_limit _ _ K), (k_conns _ _ K Hc). Qed.

Lemma has_slot_acquire b h : has_slot h b -> exists be, AcquireConn (h b) = (true, be).
Proof.
  unfold has_slot, AcquireConn, GetMaxConns. intros Hs. destruct (Z.ltb_spec 0 (maxConns (h b))); [|by eexists].
  destruct (Z.leb_spec (maxConns (h b)) (activeConns (h b))); [lia|by eexists].
Qed.

Lemma proxyRequest_slot now x b st w : has_slot (l7_heap st) b ->
  exists st', match x with
    | Failed f => proxyRequest cfg now x b st w = (Some (ExchangeFailed f), st', w)
    | Answered status header _ _ None =>
        proxyRequest cfg now x b st w = (None, st', WriteHeader status (mkWriter (copyHeaders (w_header w) header) (w_codes w)))
    | Answered _ _ _ _ (Some _) => True
    end.
Proof.
  intros Hs. destruct (has_slot_acquire _ _ Hs) as [be Ea]. unfold proxyRequest. rewrite Ea. cbn [negb].
  destruct x as [f|status header latency bytes [g|]]; by eexists.
Qed.

(** With more healthy backends than attempts made, one is left to try. *)
Lemma fresh_backend h healthy trace :
  NoDup (ids h healthy) -> (length trace < length healthy)%nat ->
  List.filter (fun b => negb (bool_decide (ID (h b) ∈ ids h trace))) healthy <> [].
Proof.
  intros Hnd Hlen He. assert (Hsub : ids h healthy ⊆ ids h trace).
  { intros y Hy. unfold ids in Hy. apply list_elem_of_fmap in Hy as (b & -> & Hb).
    destruct (decide (ID (h b) ∈ ids h trace)) as [|Hn]; [done|exfalso].
    assert (Hin : b ∈ List.filter (fun b => negb (bool_decide (ID (h b) ∈ ids h trace))) healthy).
    { apply list_elem_of_In, List.filter_In. split; [by apply list_elem_of_In|]. by rewrite bool_decide_false. }
    rewrite He in Hin. by apply elem_of_nil in Hin. }
  assert (Hle : (length (ids h healthy) <= length (ids h trace))%nat).
  { apply submseteq_length, NoDup_submseteq; [done|]. intros y Hy. by apply Hsub. }
  unfold ids in Hle. rewrite !length_fmap in Hle. lia.
Qed.

Context `{!BalancerTotal S}.

Lemma retry_loop_reaches now ctx xs q n m trace last st w status header latency bytes :
  xs (length trace + m)%nat = Answered status header latency bytes None -> (m < n)%nat ->
  (forall j, (length trace <= j < length trace + m)%nat -> exists f, xs j = Failed f /\ isRetryableError f = true) ->
  (length trace + m < length (GetHealthyBackends (l7_heap st) (l7_pools st q)))%nat ->
  NoDup (ids (l7_heap st) (GetHealthyBackends (l7_heap st) (l7_pools st q))) ->
  (forall b, b ∈ GetHealthyBackends (l7_heap st) (l7_pools st q) -> has_slot (l7_heap st) b) ->
  conns_ok (l7_heap st) -> is_Some (balancer (l7_pools st q)) ->
  exists trace' st', retry_loop cfg now ctx xs q n (length trace) (ids (l7_heap st) trace) trace last st w =
    (Finished, trace', st', WriteHeader status (mkWriter (copyHeaders (w_header w) header) (w_codes w))).
Proof.
  revert n trace last st. induction m as [|m IH]; intros n trace last st Hx Hmn Hf Hlen Hnd Hslot Hc [bal Hbal];
    (destruct n as [|n]; [lia|]); cbn [retry_loop]; set (healthy := GetHealthyBackends _ _) in *;
    set (available := match length trace with O => healthy | _ => _ end);
    (assert (Hav : available <> [] /\ forall b, b ∈ available -> b ∈ healthy);
     [unfold available; destruct (length trace) eqn:El;
      [split; [intros E; rewrite E in Hlen; cbn in Hlen; lia|done]
      |split; [apply fresh_backend; [done|lia]|intros b Hb; by apply list_elem_of_In, List.filter_In, proj1, list_elem_of_In in Hb]]|]);
    destruct Hav as [Hne Hsub]; (destruct available as [|b0 rest] eqn:Eav; [done|]);
    rewrite <- Eav in *; rewrite Hbal; destruct (bal_Next_some (l7_heap st) (Some ctx) available bal) as (b & bal' & En);
    [by rewrite Eav| |by rewrite Eav|]; rewrite En; clear Eav;
    pose proof (Hsub _ (bal_Next_in _ _ _ _ _ _ En)) as Hb;
    set (st1 := set_pool q (set_balancer (Some bal') (l7_pools st q)) st);
    destruct (proxyRequest_slot now (xs (length trace)) b st1 w (Hslot b Hb)) as [st2 Ep].
  - rewrite Nat.add_0_r in Hx. rewrite Hx in Ep |- *. rewrite Ep. by do 2 eexists.
  - destruct (Hf (length trace)) as (f & Ef & Er); [lia|]. rewrite Ef in Ep |- *. rewrite Ep. cbn [failure_of]. rewrite Er.
    set (st3 := passive_failure cfg now b (on_backend RecordError b st2)).
    assert (F : frame st st3).
    { destruct (proxyRequest_spec _ _ _ _ _ _ _ _ Ep) as [F2 _].
      eapply frame_trans; [apply (frame_set_pool q bal'); by rewrite Hbal|]. eapply frame_trans; [exact F2|].
      eapply frame_trans; [apply frame_error|apply frame_failure]. }
    assert (Hids : ids (l7_heap st) trace ++ [ID (l7_heap st3 b)] = ids (l7_heap st3) (trace ++ [b])).
    { rewrite (ids_keeps _ _ _ (fr_heap _ _ F)). unfold ids. rewrite fmap_app. cbn [fmap list_fmap].
      by rewrite (k_ids _ _ (fr_heap _ _ F)). }
    assert (Hl : length (trace ++ [b]) = Datatypes.S (length trace)) by (rewrite length_app; cbn; lia).
    rewrite Hids, <- Hl. apply IH; rewrite ?Hl.
    + by replace (Datatypes.S (length trace) + m)%nat with (length trace + Datatypes.S m)%nat by lia.
    + lia.
    + intros j Hj. apply Hf. lia.
    + rewrite (healthy_frame _ _ q F). fold healthy. lia.
    + rewrite (healthy_frame _ _ q F), (ids_keeps _ _ _ (fr_heap _ _ F)). done.
    + intros x Hx2. rewrite (healthy_frame _ _ q F) in Hx2. apply (has_slot_keeps _ _ _ (fr_heap _ _ F) Hc). by apply Hslot.
    + by apply (keeps_conns_ok _ _ (fr_heap _ _ F)).
    + apply (fr_balancer _ _ F). rewrite Hbal. by eexists.
Qed.

(** C14: A well-framed plain request reaches the first exchange that works: when the attempts
    before it fail retryably, enough backends are healthy, none is at its connection limit
    and the retries suffice, the client gets that answer. *)
Theorem request_reaches_answer now x pm route xs handle st w q m status header latency bytes
  (Hplain : special (in_req x) = false) (Hframed : well_framed (in_http11 x) (in_req x))
  (Hpool : GetPool pm (BackendPool route) = Some q) (Hbal : is_Some (balancer (l7_pools st q)))
  (Hwf : pool_wf (l7_heap st) (l7_pools st q)) (Hrange : conns_ok (l7_heap st))
  (Hslots : forall b, b ∈ order (l7_pools st q) -> has_slot (l7_heap st) b)
  (Hfails : forall j, (j < m)%nat -> exists f, xs j = Failed f /\ isRetryableError f = true)
  (Hanswer : xs m = Answered status header latency bytes None)
  (Hretries : Z.of_nat m < maxRetries cfg)
  (Hhealthy : (m < length (GetHealthyBackends (l7_heap st) (l7_pools st q)))%nat) :
  exists trace st', proxyHandler cfg now x pm route xs handle st w =
    (Finished, trace, st', WriteHeader status (mkWriter (copyHeaders (w_header w) header) (w_codes w))).
Proof.
  destruct (proxyHandler_plain now x pm route xs handle st w q Hplain Hpool) as [[text Ev]|[ctx ->]].
  { assert (Hok : ValidateRequest (in_http11 x) (in_req x) = inr (set_path (SanitizePath (URLPath (in_req x))) (in_req x)))
      by (by apply validate_request_iff). by rewrite Hok in Ev. }
  pose proof (frame_shadow st) as F. apply (retry_loop_reaches now ctx xs q _ m [] None) with latency bytes; cbn [length].
  - done.
  - lia.
  - intros j Hj. apply Hfails. lia.
  - rewrite (healthy_frame _ _ q F). lia.
  - rewrite (healthy_frame _ _ q F), (ids_keeps _ _ _ (fr_heap _ _ F)). apply healthy_ids_NoDup, Hwf.
  - intros b Hb. rewrite (healthy_frame _ _ q F) in Hb. apply GetHealthyBackends_in in Hb as [Hb _].
    apply (has_slot_keeps _ _ _ (fr_heap _ _ F) Hrange). by apply Hslots.
  - by apply (keeps_conns_ok _ _ (fr_heap _ _ F)).
  - by apply (fr_balancer _ _ F).
Qed.
End Proxy.

(** ** Outbound headers *)

Lemma Header_Del_fold names (h : headers) key :
  foldl (fun h name => Header_Del name h) h names !! key =
  if bool_decide (key ∈ CanonicalMIMEHeaderKey <$> names) then None else h !! key.
Proof.
  revert h. induction names as [|n names IH]; intros h; cbn [foldl]; [done|]. rewrite IH. unfold Header_Del.
  rewrite fmap_cons. destruct (decide (key ∈ CanonicalMIMEHeaderKey <$> names)) as [Hin|Hin].
  - rewrite !bool_decide_true; [done|by apply list_elem_of_further|done].
  - rewrite bool_decide_false by done. destruct (decide (key = CanonicalMIMEHeaderKey n)) as [->|Hne].
    + rewrite bool_decide_true by apply list_elem_of_here. by rewrite lookup_delete_eq.
    + rewrite bool_decide_false by (by intros [?|?]%elem_of_cons). by rewrite lookup_delete_ne.
Qed.

(** The canonical names of the headers that the Connection header lists. *)
Definition connection_tokens (h : headers) : list string :=
  if bool_decide (Header_Get h "Connection" = "") then []
  else (fun t => CanonicalMIMEHeaderKey (TrimSpace t)) <$> Split ","%char (Header_Get h "Connection").

Lemma strip_connection_lookup (h : headers) key :
  strip_connection h !! key = if bool_decide (key ∈ connection_tokens h) then None else h !! key.
Proof.
  unfold strip_connection, connection_tokens. case_bool_decide; [done|].
  assert (E : forall l (m : headers), foldl (fun h name => Header_Del (TrimSpace name) h) m l =
    foldl (fun h name => Header_Del name h) m (TrimSpace <$> l)).
  { induction l as [|x l IH]; intros m; [done|]. cbn. apply IH. }
  rewrite E, Header_Del_fold, <- list_fmap_compose. done.
Qed.

Lemma forwarded_lookup nets x h key :
  key ∉ ["X-Forwarded-For"; "X-Real-Ip"; "X-Forwarded-Proto"; "X-Forwarded-Host"] ->
  forwarded nets x h !! key = h !! key.
Proof.
  intros Hk. unfold forwarded, Header_Set.
  change (CanonicalMIMEHeaderKey "X-Forwarded-Host") with "X-Forwarded-Host".
  change (CanonicalMIMEHeaderKey "X-Forwarded-Proto") with "X-Forwarded-Proto".
  change (CanonicalMIMEHeaderKey "X-Real-IP") with "X-Real-Ip".
  change (CanonicalMIMEHeaderKey "X-Forwarded-For") with "X-Forwarded-For".
  rewrite !lookup_insert_ne; [done|intros E; apply Hk; rewrite <- E; set_solver..].
Qed.

Lemma forwarded_connection nets x h : connection_tokens (forwarded nets x h) = connection_tokens h.
Proof.
  unfold connection_tokens, Header_Get. change (CanonicalMIMEHeaderKey "Connection") with "Connection".
  rewrite forwarded_lookup; [done|]. rewrite !elem_of_cons. intros [?|[?|[?|[?|?%elem_of_nil]]]]; done.
Qed.


(** A client that names the forwarding headers in its Connection header takes them off the
    request: the backend then does not learn the client's address. *)
Theorem connection_header_hides_client nets x b
  (Hc : connection_tokens (Header (in_req x)) = ["X-Forwarded-For"; "X-Real-Ip"]) :
  let out := out_header (prepareOutboundRequest nets x b) in
  out !! "X-Forwarded-For" = None /\ out !! "X-Real-Ip" = None.
Proof.
  cbv zeta. unfold prepareOutboundRequest. destruct (GetURL b) as [scheme host]. cbn [out_header].
  unfold strip_hop_by_hop. rewrite !Header_Del_fold, !strip_connection_lookup, !forwarded_connection, Hc. done.
Qed.

(** ** Where the parts disagree *)

Section First.
Context {S : Type} `{HB : Balancer S} `{!BalancerLaws S}.
Variable cfg : settings.
Implicit Types (st : l7_state (S := S)).

(** The first attempt: the backend that the balancer picks of the healthy ones, with an
    empty client address. *)
Lemma first_attempt now ctx xs q n st w bal b bal' e trace st' w' :
  GetHealthyBackends (l7_heap st) (l7_pools st q) <> [] -> balancer (l7_pools st q) = Some bal ->
  bal_Next (l7_heap st) (Some ctx) (GetHealthyBackends (l7_heap st) (l7_pools st q)) bal = (Some b, bal') ->
  retry_loop cfg now ctx xs q (Datatypes.S n) 0 [] [] None st w = (e, trace, st', w') ->
  head trace = Some b.
Proof.
  intros Hne Hbal Hn Hr. cbn [retry_loop] in Hr.
  destruct (GetHealthyBackends (l7_heap st) (l7_pools st q)) as [|b0 l] eqn:Eh; [done|]. rewrite Hbal, Hn in Hr.
  set (st1 := set_pool _ _ st) in Hr. destruct (proxyRequest cfg now (xs 0%nat) b st1 w) as [[err st2] w2] eqn:Ep.
  destruct err as [[| f|]|]; [by injection Hr as _ <- _ _| |by injection Hr as _ <- _ _..]. cbn [failure_of] in Hr.
  destruct (isRetryableError f); [|by injection Hr as _ <- _ _].
  destruct (retry_loop_spec cfg now ctx xs q n [b] (Some f) _ _ _ _ _ _ Hr) as [[_ (new & -> & _) _ _ _] _];
    [apply NoDup_singleton|done].
Qed.
End First.

(** Behind the proxy the IP hash does not see the clients: whoever asks, and from wherever,
    the first attempt goes to the first healthy backend of the pool. *)
Theorem ip_hash_ignores_clients cfg now x pm route xs handle (st : l7_state (S := IPHash.t)) w q e trace st' w'
  (Hplain : special (in_req x) = false) (Hframed : well_framed (in_http11 x) (in_req x))
  (Hpool : GetPool pm (BackendPool route) = Some q) (Hbal : is_Some (balancer (l7_pools st q)))
  (Hretries : 0 < maxRetries cfg)
  (Hhealthy : 0 < Z.of_nat (length (GetHealthyBackends (l7_heap st) (l7_pools st q))) < 2 ^ 32)
  (Hrun : proxyHandler cfg now x pm route xs handle st w = (e, trace, st', w')) :
  head trace = head (GetHealthyBackends (l7_heap st) (l7_pools st q)).
Proof.
  unfold proxyHandler in Hrun.
  assert (Hok : ValidateRequest (in_http11 x) (in_req x) = inr (set_path (SanitizePath (URLPath (in_req x))) (in_req x)))
    by (by apply validate_request_iff).
  rewrite Hok, Hpool, special_set_path, Hplain in Hrun. pose proof (frame_shadow st) as F.
  rewrite <- (healthy_frame _ _ q F) in Hhealthy |- *. apply (fr_balancer _ _ F) in Hbal as [bal Hbal].
  destruct (Z.to_nat (maxRetries cfg)) as [|n] eqn:En; [lia|].
  destruct (GetHealthyBackends (l7_heap (shadow_step st)) (l7_pools (shadow_step st) q)) as [|b l] eqn:Eh; [cbn in Hhealthy; lia|].
  eapply (first_attempt cfg now _ xs q n (shadow_step st) w bal b bal); [by rewrite Eh|done| |exact Hrun].
  rewrite Eh. cbn [bal_Next IPHash.balancer]. unfold IPHash.Next. cbn [ClientIP].
  change (IPHash.hashIP "") with 0. rewrite Z.mod_0_l; [done|]. unfold u32. rewrite Z.mod_small by lia. lia.
Qed.

(** A backend at its connection limit ends the request although others have free slots: the
    client gets an error, the backend an error count and the passive checker a failure. *)
Theorem full_backend_ends_request {S} `{HB : Balancer S} cfg now ctx xs q n (st : l7_state (S := S)) w bal b bal'
  (Hhealthy : GetHealthyBackends (l7_heap st) (l7_pools st q) <> []) (Hbal : balancer (l7_pools st q) = Some bal)
  (Hnext : bal_Next (l7_heap st) (Some ctx) (GetHealthyBackends (l7_heap st) (l7_pools st q)) bal = (Some b, bal'))
  (Hfull : 0 < maxConns (l7_heap st b) <= activeConns (l7_heap st b)) :
  exists st', retry_loop cfg now ctx xs q (Datatypes.S n) 0 [] [] None st w =
    (Finished, [b], st', defaultErrorHandler (WithContext ErrBackendUnavailable "reason" "backend at max connections") false w) /\
    totalErrors (l7_heap st' b) = i64 (totalErrors (l7_heap st b) + 1) /\
    l7_passive st' = Passive.RecordFailure (passive_config cfg) now (Address (l7_heap st b)) <$> l7_passive st.
Proof.
  cbn [retry_loop]. destruct (GetHealthyBackends (l7_heap st) (l7_pools st q)) as [|b0 l] eqn:Eh; [done|].
  rewrite Hbal, Hnext. unfold proxyRequest, AcquireConn, GetMaxConns. cbn [set_pool l7_heap].
  rewrite (proj2 (Z.ltb_lt _ _)) by lia. rewrite (proj2 (Z.leb_le _ _)) by lia. cbn [negb].
  change (isRetryableError (failure_of AtMaxConns)) with false. cbv iota. eexists. split; [done|].
  cbn. rewrite heap_set_at. done.
Qed.

(** An answer counts as a success of the backend whatever its status: a backend that answers
    every request with a server error stays healthy for the passive checker. *)
Theorem server_errors_look_healthy {S} `{HB : Balancer S} cfg now ctx xs q n (st : l7_state (S := S)) w bal b bal'
    status header latency bytes
  (Hhealthy : GetHealthyBackends (l7_heap st) (l7_pools st q) <> []) (Hbal : balancer (l7_pools st q) = Some bal)
  (Hnext : bal_Next (l7_heap st) (Some ctx) (GetHealthyBackends (l7_heap st) (l7_pools st q)) bal = (Some b, bal'))
  (Hslot : has_slot (l7_heap st) b) (Hanswer : xs 0%nat = Answered status header latency bytes None) :
  exists st' w', retry_loop cfg now ctx xs q (Datatypes.S n) 0 [] [] None st w = (Finished, [b], st', w') /\
    w_codes w' = w_codes w ++ [status] /\ totalErrors (l7_heap st' b) = totalErrors (l7_heap st b) /\
    l7_passive st' = Passive.RecordSuccess now (Address (l7_heap st b)) <$> l7_passive st.
Proof.
  cbn [retry_loop]. destruct (GetHealthyBackends (l7_heap st) (l7_pools st q)) as [|b0 l] eqn:Eh; [done|].
  rewrite Hbal, Hnext, Hanswer. destruct (has_slot_acquire _ _ Hslot) as [be Ea]. unfold proxyRequest.
  cbn [set_pool l7_heap]. rewrite Ea. cbn [negb]. do 2 eexists. split; [done|]. split; [done|].
  destruct (AcquireConn_fields _ _ _ Ea) as (_ & _ & Haddr & _).
  assert (He : totalErrors be = totalErrors (l7_heap st b)) by (revert Ea; unfold AcquireConn; repeat case_match; by intros [= <-]).
  unfold passive_success, on_passive, on_backend. cbn [l7_heap l7_passive]. rewrite !heap_set_at. cbn.
  by rewrite He, Haddr.
Qed.

(** With a percentage above 50 and below 100, no request is shadowed. *)
Theorem shadow_majority_never sm
  (Htargets : sh_targets sm <> []) (Hlow : f64_leb (f64_of_Z 100) (sh_percentage sm) = false)
  (Hhigh : f64_to_Z (f64_div (f64_of_Z 100) (sh_percentage sm)) = 1) :
  fst (ShouldShadow sm) = false.
Proof.
  unfold ShouldShadow. rewrite bool_decide_false by done. case_match; [done|]. rewrite Hlow, Hhigh.
  change (u64 1) with 1. cbn [fst]. by rewrite Z.mod_1_r.
Qed.

(** ** Examples *)

Section Examples.

Definition up (id addr : string) (limit : Z) : Backend := SetState StateUp (SetMaxConns limit (NewBackend id addr)).

(** Three backends; the first takes one connection and has it. *)
Definition demo_l7_heap : heap := fun p =>
  match p with
  | 0%nat => set_conns 1 1 (up "a" "10.0.0.1:80" 1)
  | 1%nat => up "b" "10.0.0.2:80" 0
  | _ => up "c" "10.0.0.3:80" 0
  end.

Definition demo_l7_pool {S} `{Balancer S} (bal : S) (bs : list ptr) : Pool S :=
  foldl (fun p b => match AddBackend demo_l7_heap p (Some b) with inr p => p | inl _ => p end)
    (SetBalancer bal (NewPool "web" "")) bs.

Definition demo_l7 {S} `{Balancer S} (bal : S) (bs : list ptr) : l7_state (S := S) :=
  mkL7 demo_l7_heap (fun _ => demo_l7_pool bal bs) (Some ∅) None.

Definition demo_settings : settings := mkSettings 3 [] Passive.DefaultPassiveHealthConfig.

Definition demo_pm : PoolManager := mkPoolManager {["web" := 0%nat]}.

Definition demo_l7_route : Route := mkRoute "r" "" "/" [] ∅ "web" 0.

Definition demo_inbound (method path : string) (h : headers) : inbound :=
  mkInbound (mkRequest method "example.com" "" path h [] []) "203.0.113.7:5555" false true.

Definition refused : failure := mkFailure "dial tcp 10.0.0.2:80: connect: connection refused" false true false.

(** The first exchange is refused, the second answered. *)
Definition demo_exchanges (k : nat) : exchange :=
  match k with 0%nat => Failed refused | _ => Answered 200 {["Server" := ["demo"]]} 7 42 None end.

Definition no_handler {S} : inbound -> ptr -> l7_state (S := S) -> writer -> option special_error * l7_state * writer :=
  fun _ _ st w => (None, st, w).

Definition fresh_writer : writer := mkWriter ∅ [].

Definition demo_run :=
  proxyHandler demo_settings 100 (demo_inbound "POST" "/orders" ∅) demo_pm demo_l7_route demo_exchanges no_handler
    (demo_l7 RoundRobin.NewRoundRobin [1%nat; 2%nat]) fresh_writer.

Lemma request_answered_once_witness :
  fst (fst (fst demo_run)) = Finished /\ length (snd (fst (fst demo_run))) = 2%nat /\
  exists code, w_codes (snd demo_run) = [code].
Proof.
  destruct demo_run as [[[e trace] st'] w'] eqn:E. unfold demo_run in E.
  destruct (request_answered_once demo_settings 100 (demo_inbound "POST" "/orders" ∅) demo_pm demo_l7_route
    demo_exchanges no_handler (demo_l7 RoundRobin.NewRoundRobin [1%nat; 2%nat]) fresh_writer e trace st' w' 0)
    as (He & Hc & _); [reflexivity|reflexivity|by eexists|reflexivity|exact E|].
  split; [exact He|]. split; [|exact Hc]. apply (f_equal (fun r => length (snd (fst (fst r))))) in E.
  rewrite <- E. vm_compute. reflexivity.
Defined.

Lemma demo_conns_ok : conns_ok demo_l7_heap.
Proof. intros [|[|b]]; cbn; unfold in_i64; lia. Qed.

Lemma request_returns_connections_witness :
  activeConns (l7_heap (snd (fst demo_run)) 1%nat) = 0 /\ activeConns (l7_heap (snd (fst demo_run)) 2%nat) = 0.
Proof.
  destruct demo_run as [[[e trace] st'] w'] eqn:E. unfold demo_run in E.
  pose proof (request_returns_connections demo_settings 100 (demo_inbound "POST" "/orders" ∅) demo_pm demo_l7_route
    demo_exchanges no_handler (demo_l7 RoundRobin.NewRoundRobin [1%nat; 2%nat]) fresh_writer e trace st' w' 0
    eq_refl eq_refl demo_conns_ok E) as H.
  split; [exact (proj1 (H 1%nat))|exact (proj1 (H 2%nat))].
Defined.

Lemma demo_framed method path : well_framed true (mkRequest method "example.com" "" path ∅ [] []).
Proof.
  split; cbn [Header Host].
  - by left.
  - exists 0. split; [lia|]. intros part Hp. by apply elem_of_nil in Hp.
  - done.
  - intros enc He. by apply elem_of_nil in He.
  - done.
  - right. vm_compute. reflexivity.
Qed.

Lemma demo_l7_pool_wf {S} `{Balancer S} (bal : S) bs : pool_wf demo_l7_heap (demo_l7_pool bal bs).
Proof.
  unfold demo_l7_pool. assert (H0 : pool_wf demo_l7_heap (SetBalancer bal (NewPool "web" "")))
    by (apply pool_wf_balancer, pool_wf_new).
  revert H0. generalize (SetBalancer bal (NewPool "web" "")). induction bs as [|b bs IH]; intros p Hp; [done|].
  cbn [foldl]. apply IH. destruct (AddBackend demo_l7_heap p (Some b)) as [err|p'] eqn:E; [done|].
  by eapply pool_wf_add.
Qed.

(** A POST is sent again to another backend after the first refused it. *)
Lemma request_reaches_answer_witness :
  exists trace st', demo_run = (Finished, trace, st', mkWriter {["Server" := ["demo"]]} [200]).
Proof.
  unfold demo_run.
  destruct (request_reaches_answer demo_settings 100 (demo_inbound "POST" "/orders" ∅) demo_pm demo_l7_route
    demo_exchanges no_handler (demo_l7 RoundRobin.NewRoundRobin [1%nat; 2%nat]) fresh_writer 0 1 200
    {["Server" := ["demo"]]} 7 42) as (trace & st' & E).
  - reflexivity.
  - apply demo_framed.
  - reflexivity.
  - by eexists.
  - apply demo_l7_pool_wf.
  - apply demo_conns_ok.
  - intros b Hb. left. assert (Ho : order (demo_l7_pool RoundRobin.NewRoundRobin [1%nat; 2%nat]) = [1%nat; 2%nat])
      by (vm_compute; reflexivity).
    cbn [l7_pools demo_l7] in Hb. rewrite Ho, !elem_of_cons in Hb. destruct Hb as [->|[->|Hb%elem_of_nil]]; [done..|done].
  - intros [|j] Hj; [|lia]. exists refused. split; reflexivity.
  - reflexivity.
  - reflexivity.
  - vm_compute. lia.
  - exists trace, st'. rewrite E. reflexivity.
Defined.

Definition demo_ip_run (remote : string) :=
  proxyHandler demo_settings 100
    (mkInbound (mkRequest "GET" "example.com" "" "/" ∅ [] []) remote false true) demo_pm demo_l7_route
    (fun _ => Answered 200 ∅ 1 1 None) no_handler (demo_l7 IPHash.NewIPHash [1%nat; 2%nat]) fresh_writer.

Definition attempts_of {A B} (r : ending * list ptr * A * B) : list ptr := snd (fst (fst r)).

Lemma ip_hash_ignores_clients_witness :
  head (attempts_of (demo_ip_run "203.0.113.7:5555")) = Some 1%nat /\
  head (attempts_of (demo_ip_run "198.51.100.9:1")) = Some 1%nat.
Proof.
  split;
  (match goal with |- context [demo_ip_run ?r] =>
    set (remote := r); destruct (demo_ip_run remote) as [[[e trace] st'] w'] eqn:E end;
  unfold demo_ip_run in E; cbn [attempts_of fst snd];
  rewrite (ip_hash_ignores_clients demo_settings 100
    (mkInbound (mkRequest "GET" "example.com" "" "/" ∅ [] []) remote false true) demo_pm demo_l7_route
    (fun _ => Answered 200 ∅ 1 1 None) no_handler (demo_l7 IPHash.NewIPHash [1%nat; 2%nat]) fresh_writer 0 e trace st' w');
  [vm_compute; reflexivity|reflexivity|apply demo_framed|reflexivity|by eexists|reflexivity|vm_compute; split; done|exact E]).
Defined.

Definition demo_ctx : RequestContext := mkRequestContext "" None.

Lemma full_backend_ends_request_witness :
  exists st', retry_loop demo_settings 100 demo_ctx demo_exchanges 0 3 0 [] [] None
      (demo_l7 RoundRobin.NewRoundRobin [0%nat; 1%nat; 2%nat]) fresh_writer =
    (Finished, [0%nat], st', mkWriter {["Content-Type" := ["application/json"]]} [503]) /\
    totalErrors (l7_heap st' 0%nat) = 1.
Proof.
  destruct (full_backend_ends_request demo_settings 100 demo_ctx demo_exchanges 0 2
    (demo_l7 RoundRobin.NewRoundRobin [0%nat; 1%nat; 2%nat]) fresh_writer RoundRobin.NewRoundRobin 0%nat (RoundRobin.mk 1))
    as (st' & E & He & _).
  - vm_compute. discriminate.
  - reflexivity.
  - vm_compute. reflexivity.
  - vm_compute. split; done.
  - exists st'. split; [|exact He]. rewrite E. reflexivity.
Defined.

Lemma server_errors_look_healthy_witness :
  exists st' w', retry_loop demo_settings 100 demo_ctx (fun _ => Answered 500 ∅ 3 0 None) 0 3 0 [] [] None
      (demo_l7 RoundRobin.NewRoundRobin [1%nat; 2%nat]) fresh_writer = (Finished, [1%nat], st', w') /\
    w_codes w' = [500] /\ totalErrors (l7_heap st' 1%nat) = 0.
Proof.
  destruct (server_errors_look_healthy demo_settings 100 demo_ctx (fun _ => Answered 500 ∅ 3 0 None) 0 2
    (demo_l7 RoundRobin.NewRoundRobin [1%nat; 2%nat]) fresh_writer RoundRobin.NewRoundRobin 1%nat (RoundRobin.mk 1)
    500 ∅ 3 0) as (st' & w' & E & Hc & He & _).
  - vm_compute. discriminate.
  - reflexivity.
  - vm_compute. reflexivity.
  - by left.
  - reflexivity.
  - exists st', w'. split; [exact E|]. split; [exact Hc|exact He].
Defined.

Lemma connection_header_hides_client_witness :
  let x := demo_inbound "GET" "/" {["Connection" := ["x-forwarded-for, X-Real-IP"]]} in
  out_header (prepareOutboundRequest [] x (up "a" "10.0.0.1:80" 0)) !! "X-Forwarded-For" = None.
Proof. cbv zeta. apply connection_header_hides_client. vm_compute. reflexivity. Defined.

Lemma shadow_majority_never_witness :
  fst (ShouldShadow (mkShadow (f64_of_Z 60) 0 [(0%nat, [])])) = false /\
  fst (ShouldShadow (mkShadow (f64_of_Z 50) 0 [(0%nat, [])])) = true.
Proof.
  split; [|vm_compute; reflexivity]. apply shadow_majority_never; [discriminate|vm_compute; reflexivity..].
Defined.

(** The route is chosen by the path as it came in, the backend gets the sanitized one: a
    request for the public part reaches the private part of the pool's backends. *)
Definition public_router : Router :=
  snd (AddRoute NewRouter (Some (mkRoute "public" "" "/public/*rest" [] ∅ "web" 0))).

Example route_checked_before_sanitizing :
  let x := demo_inbound "GET" "/public/../admin/users" ∅ in
  Route_Name <$> (rm_Route <$> Router_Match public_router (in_req x)) = Some "public" /\
  Router_Match public_router (mkRequest "GET" "example.com" "" "/admin/users" ∅ [] []) = None /\
  URLPath <$> (match ValidateRequest true (in_req x) with inr r => Some r | inl _ => None end) = Some "/admin/users".
Proof. cbv zeta. split_and!; vm_compute; reflexivity. Qed.

(** A request with two lengths is refused as an error of the proxy. *)
Example smuggling_is_internal_error :
  w_codes (snd (proxyHandler demo_settings 100
    (demo_inbound "POST" "/" {["Content-Length" := ["3"]; "Transfer-Encoding" := ["chunked"]]}) demo_pm demo_l7_route
    demo_exchanges no_handler (demo_l7 RoundRobin.NewRoundRobin [1%nat; 2%nat]) fresh_writer)) = [500].
Proof. vm_compute. reflexivity. Qed.
End Examples.
