(* ===== verification/Engine.v ===== *)
(** * Applying a configuration: [internal/engine]

    Models [pools_routes.go], [config.go] and the state machine of [lifecycle.go]: how a
    validated configuration becomes pools, balancers, health checks and routes, at startup
    and on reload.  The parts are those of the other files: the registry of balancers, the
    pool manager over a heap of shared backends, the health checker and the router.

    The outcomes of what lies outside these parts are inputs: loading certificates and
    opening sockets at startup, reading the file and building the middleware chain on
    reload.  Times are in nanoseconds. *)
From S2P Require Import Prelude GoFloat Errors Http NetIP NetAddr GoTime Bytes GoHash Backend BackendPool.
From S2P Require Import Balancers HashRing HashRingFacts Latency Registry Radix Router Health Config.
From Stdlib Require Import Ascii.

(** ** What the engine builds

    Backends and pools are shared by pointer; [w_next] and [w_nextPool] are the next free
    ones. *)
Record world := mkWorld {
  w_heap : heap; w_next : nat; w_pools : pool_heap AnyBalancer; w_nextPool : nat;
  w_manager : PoolManager; w_checker : Checker
}.

Inductive engine_error :=
  | UnknownAlgorithm (pool : string)
  | WeightTooLarge (address : string)
  | AddBackendFailed (e : error)
  | AddPoolFailed (e : error)
  | AddRouteFailed (e : error)
  | ShadowPoolMissing (pool : string)
  | ChainFailed (msg : string)
  | ListenFailed (msg : string)
  | CertificateFailed (msg : string)
  | LoadFailed (msg : string)
  | InvalidConfig (msg : string)
  | RouteWithoutPool (pool : string)
  | WrongState
  | NilDereference.

Definition MaxInt32 : Z := 2147483647.

(** helpers.go *)
Definition parseDuration (s : string) (defaultVal : Z) : Z :=
  if empty s then defaultVal else default defaultVal (ParseDuration s).

(** The health check of the backends of a pool. *)
Definition check_of (hc : HealthCheck) : Check :=
  mkCheck (hc_Type hc) (parseDuration (hc_Interval hc) 10000000000) (parseDuration (hc_Timeout hc) 5000000000)
    (hc_Path hc) "" 0 ∅ (hc_Command hc) (hc_Args hc)
    (if 0 <? hc_HealthyThreshold hc then hc_HealthyThreshold hc else 2)
    (if 0 <? hc_UnhealthyThreshold hc then hc_UnhealthyThreshold hc else 3).

Definition backend_id (i : nat) (b : BackendConfig) : string :=
  if empty (b_ID b) then b_Address b +:+ "-" +:+ Itoa (Z.of_nat i) else b_ID b.

Definition set_scheme (s : string) (b : Backend) : Backend :=
  mkBackend (ID b) (Address b) s (weight b) (maxConns b) (state b) (activeConns b) (totalConns b)
    (totalRequests b) (totalErrors b) (totalBytes b) (avgLatency b) (lastLatency b) (lastCheck b)
    (checkFailCount b) (metadata b).

Section Engine.
Context `{!SliceSort ConsistentHash.ringNode ConsistentHash.hash}
        `{!SliceSort RingHash.ringHashNode RingHash.hash} `{!MapRange}.
(** The environment of the balancers, and the registry after [init]. *)
Context (e : env) (reg : gmap string Factory).

#[local] Existing Instance any_balancer.

(** ** Pools *)

(** The loop over the backends of a pool; [up] tells startup, which sets them up, from
    reload, which leaves them as [NewBackend] made them.  A backend that cannot be
    registered with the health checker is only reported.  What was built before an error
    stays. *)
Fixpoint add_backends (up : bool) (hc : HealthCheck) (i : nat) (bs : list BackendConfig) (pool : Pool AnyBalancer)
    (w : world) : (engine_error + Pool AnyBalancer) * world :=
  match bs with
  | [] => (inr pool, w)
  | b :: rest =>
      if MaxInt32 <? b_Weight b then (inl (WeightTooLarge (b_Address b)), w)
      else
        let be := SetWeight (i32 (b_Weight b)) (NewBackend (backend_id i b) (b_Address b)) in
        let be := if empty (b_Scheme b) then be else set_scheme (b_Scheme b) be in
        let be := if up then SetState StateUp be else be in
        let p := w_next w in
        let h := heap_set (w_heap w) p be in
        match AddBackend (H := any_balancer e) h pool (Some p) with
        | inl err => (inl (AddBackendFailed err), mkWorld h (S p) (w_pools w) (w_nextPool w) (w_manager w) (w_checker w))
        | inr pool =>
            let checker := match Health.Register h (Some p) (Some (check_of hc)) (w_checker w) with
                           | Ok c => c
                           | _ => w_checker w
                           end in
            add_backends up hc (S i) rest pool
              (mkWorld h (S p) (w_pools w) (w_nextPool w) (w_manager w) checker)
        end
  end.

(** Storing a finished pool and handing it to the manager. *)
Definition add_pool (pool : Pool AnyBalancer) (w : world) : option engine_error * world :=
  let q := w_nextPool w in
  let ph := fun r => if bool_decide (r = q) then pool else w_pools w r in
  match AddPool ph (w_manager w) (Some q) with
  | inl err => (Some (AddPoolFailed err), mkWorld (w_heap w) (w_next w) ph (S q) (w_manager w) (w_checker w))
  | inr pm => (None, mkWorld (w_heap w) (w_next w) ph (S q) pm (w_checker w))
  end.

(** The body both loops share once the balancer is chosen. *)
Definition fill_pool (up : bool) (hc : HealthCheck) (p : PoolConfig) (bal : AnyBalancer) (w : world)
    : option engine_error * world :=
  match add_backends up hc 0 (p_Backends p) (SetBalancer bal (NewPool (p_Name p) (p_Algorithm p))) w with
  | (inl err, w) => (Some err, w)
  | (inr pool, w) => add_pool pool w
  end.

(** One round of the loop of [initializePools]. *)
Definition init_pool (p : PoolConfig) (w : world) : option engine_error * world :=
  let hc := default DefaultHealthCheck (p_HealthCheck p) in
  match Registry.New e reg (p_Algorithm p) with
  | Some bal => fill_pool true hc p bal w
  | None => if negb (empty (p_Algorithm p)) then (Some (UnknownAlgorithm (p_Name p)), w)
            else fill_pool true hc p (BRoundRobin RoundRobin.NewRoundRobin) w
  end.

(** A loop over the pools that stops at the first error. *)
Fixpoint each_pool (f : PoolConfig -> world -> option engine_error * world) (ps : list PoolConfig) (w : world)
    : option engine_error * world :=
  match ps with
  | [] => (None, w)
  | p :: rest =>
      match f p w with
      | (Some err, w) => (Some err, w)
      | (None, w) => each_pool f rest w
      end
  end.

Definition initializePools : list PoolConfig -> world -> option engine_error * world := each_pool init_pool.

(** One round of the loop of [applyConfigInternal]: a missing health check is dereferenced
    at the first backend. *)
Definition reload_pool (p : PoolConfig) (w : world) : option engine_error * world :=
  let bal := default (BRoundRobin RoundRobin.NewRoundRobin) (Registry.New e reg (p_Algorithm p)) in
  match p_HealthCheck p, p_Backends p with
  | None, b :: _ =>
      if MaxInt32 <? b_Weight b then (Some (WeightTooLarge (b_Address b)), w) else (Some NilDereference, w)
  | None, [] => fill_pool false DefaultHealthCheck p bal w
  | Some hc, _ => fill_pool false hc p bal w
  end.

(** ** Routes *)

Definition route_name (l : Listener) (r : RouteConfig) : string := l_Name l +:+ "-" +:+ r_Path r.

Definition engine_route (l : Listener) (r : RouteConfig) : Route :=
  mkRoute (route_name l r) (r_Host r) (r_Path r) (r_Methods r) ∅ (r_Pool r) 0.

Definition routes_of (c : Config) : list Route := Listeners c ≫= fun l => engine_route l <$> l_Routes l.

Fixpoint add_routes (rs : list Route) (r : Router) : option engine_error * Router :=
  match rs with
  | [] => (None, r)
  | x :: rest =>
      match AddRoute r (Some x) with
      | (Some err, r) => (Some (AddRouteFailed err), r)
      | (None, r) => add_routes rest r
      end
  end.

Definition initializeRoutes (c : Config) (r : Router) : option engine_error * Router := add_routes (routes_of c) r.

(** ** The engine *)

Inductive EngineState := EStopped | EStarting | ERunning | EReloading | EStopping.

(** A target of the shadow manager: the pool whose balancer it shares, the backends of the
    pool when the target was added, and its own percentage. *)
Record shadow_target := mkTarget { tg_pool : nat; tg_backends : list ptr; tg_percentage : float64 }.

(** The proxy serves with the router and the pools it was created with; its shadow manager,
    if shadowing is enabled, mirrors to the targets. *)
Record proxy := mkProxy { px_router : Router; px_manager : PoolManager; px_targets : list shadow_target }.

(** A [time.Timer] field: nil, counting, or expired or stopped. *)
Inductive timer := TimerNil | TimerCounting | TimerDone.

(** [Timer.Stop]: whether it stopped a counting timer. *)
Definition timer_Stop (t : timer) : bool * timer :=
  match t with TimerCounting => (true, TimerDone) | _ => (false, t) end.

(** The fields that [rollbackMu] guards, and the number of finished reloads. *)
Record rollback := mkRollback {
  prevConfig : option Config; reloadTimestamp : Z; errorCount : Z;
  rollbackTimer : timer; rollbackTimer2 : timer; reloadCount : Z
}.

Record engine := mkEngine {
  e_config : Config; e_state : EngineState; e_router : Router; e_world : world; e_proxy : proxy;
  e_rollback : rollback
}.

Definition with_state (s : EngineState) (g : engine) : engine :=
  mkEngine (e_config g) s (e_router g) (e_world g) (e_proxy g) (e_rollback g).

Definition with_rollback (rb : rollback) (g : engine) : engine :=
  mkEngine (e_config g) (e_state g) (e_router g) (e_world g) (e_proxy g) rb.

(** [attachShadowTargets]: the proxy has a shadow manager when shadowing is enabled; the
    targets before a missing pool stay. *)
Fixpoint add_targets (w : world) (ts : list ShadowTarget) (acc : list shadow_target)
    : option engine_error * list shadow_target :=
  match ts with
  | [] => (None, acc)
  | t :: rest =>
      match GetPool (w_manager w) (st_Pool t) with
      | None => (Some (ShadowPoolMissing (st_Pool t)), acc)
      | Some q =>
          add_targets w rest (acc ++ [mkTarget q (GetAllBackends (w_pools w q)) (st_Percentage t)])
      end
  end.

Definition attachShadowTargets (c : Config) (w : world) (acc : list shadow_target)
    : option engine_error * list shadow_target :=
  match Shadow c with
  | Some s => if sh_Enabled s then add_targets w (sh_Targets s) acc else (None, acc)
  | None => (None, acc)
  end.

(** [Start]: [tls] is the outcome of loading the certificates, [listen] that of opening the
    sockets; what is started after the sockets are open is only reported when it fails.  The proxy was created by [New] with the engine's router and pool manager,
    which are filled in place: what an attempt has added stays when it fails. *)
Definition Start (tls listen : option string) (g : engine) : option engine_error * engine :=
  match e_state g, tls with
  | EStopped, Some msg => (Some (CertificateFailed msg), g)
  | EStopped, None =>
      let c := e_config g in
      let w0 := e_world g in
      let w1 := mkWorld (w_heap w0) (w_next w0) (w_pools w0) (w_nextPool w0) (w_manager w0) ∅ in
      let ts0 := px_targets (e_proxy g) in
      let filled w r ts s := mkEngine c s r w (mkProxy r (w_manager w) ts) (e_rollback g) in
      match initializePools (Pools c) w1 with
      | (Some err, w) => (Some err, filled w (e_router g) ts0 EStopped)
      | (None, w) =>
          match attachShadowTargets c w ts0 with
          | (Some err, ts) => (Some err, filled w (e_router g) ts EStopped)
          | (None, ts) =>
              match initializeRoutes c (e_router g) with
              | (Some err, r) => (Some err, filled w r ts EStopped)
              | (None, r) =>
                  match listen with
                  | Some msg => (Some (ListenFailed msg), filled w r ts EStopped)
                  | None => (None, filled w r ts ERunning)
                  end
              end
          end
      end
  | _, _ => (Some WrongState, g)
  end.

(** [applyConfigInternal]: [chain] is the outcome of building the middleware chain.  Pools
    and checks are built beside the running ones; the heap of backends is shared. *)
Definition applyConfigInternal (chain : option string) (c : Config) (g : engine) : option engine_error * engine :=
  match initializeRoutes c NewRouter with
  | (Some err, _) => (Some err, g)
  | (None, r) =>
      let w0 := e_world g in
      let w1 := mkWorld (w_heap w0) (w_next w0) (w_pools w0) (w_nextPool w0) NewPoolManager ∅ in
      match each_pool reload_pool (Pools c) w1 with
      | (Some err, _) => (Some err, g)
      | (None, w) =>
          match chain with
          | Some msg => (Some (ChainFailed msg), g)
          | None =>
              let swapped px := mkEngine c (e_state g) r w px (e_rollback g) in
              match attachShadowTargets c w [] with
              | (Some err, _) => (Some err, swapped (e_proxy g))
              | (None, ts) => (None, swapped (mkProxy r (w_manager w) ts))
              end
          end
      end
  end.

(** [validateConfig]. *)
Definition validateConfig (c : Config) : option engine_error :=
  match fst (Validate c) with
  | Some msg => Some (InvalidConfig msg)
  | None =>
      match List.find (fun p => negb (empty (p_Algorithm p)) &&
                                match Registry.Get reg (p_Algorithm p) with Some _ => false | None => true end) (Pools c) with
      | Some p => Some (UnknownAlgorithm (p_Name p))
      | None =>
          match List.find (fun r => negb (bool_decide (r_Pool r ∈ pool_names c))) (Listeners c ≫= l_Routes) with
          | Some r => Some (RouteWithoutPool (r_Pool r))
          | None => None
          end
      end
  end.

(** ** Reload and rollback *)

(** [applyConfig]: the running configuration is kept for a rollback, unless one from an
    earlier reload is still under observation. *)
Definition applyConfig (now : Z) (chain : option string) (c : Config) (g : engine) : option engine_error * engine :=
  let rb := e_rollback g in
  let '(overwrite, timer2) :=
    match prevConfig rb, rollbackTimer2 rb with
    | None, t => (true, t)
    | Some _, TimerNil => (false, TimerNil)
    | Some _, t => let '(active, t) := timer_Stop t in (negb active, t)
    end in
  let prev := if overwrite : bool then Some (e_config g) else prevConfig rb in
  let g := with_rollback (mkRollback prev now 0 (rollbackTimer rb) timer2 (reloadCount rb)) g in
  match applyConfigInternal chain c g with
  | (Some err, g) => (Some err, g)
  | (None, g) =>
      (* startRollbackGracePeriod *)
      let rb := e_rollback g in
      (None, with_rollback (mkRollback (prevConfig rb) (reloadTimestamp rb) (errorCount rb)
                              TimerCounting TimerCounting (reloadCount rb)) g)
  end.

(** [rollbackConfig]: no new grace period. *)
Definition rollbackConfig (chain : option string) (c : Config) (g : engine) : option engine_error * engine :=
  applyConfigInternal chain c g.

(** The pools of the manager with no healthy backend. *)
Definition emptyPools (w : world) : list (string * nat) :=
  List.filter (fun kv => match GetHealthyBackends (w_heap w) (w_pools w kv.2) with [] => true | _ => false end)
    (map_to_list (pools (w_manager w))).

(** [checkAndRollback]: the result of the rollback is only logged. *)
Definition checkAndRollback (now : Z) (chain : option string) (g : engine) : engine :=
  match prevConfig (e_rollback g) with
  | None => g
  | Some prev =>
      if 60000000000 <? now - reloadTimestamp (e_rollback g) then g
      else
        let totalPools := PoolCount (w_manager (e_world g)) in
        if totalPools =? 0 then g
        else
          let n := Z.of_nat (length (emptyPools (e_world g))) in
          if (totalPools / 2 <? n) && (0 <? n) then snd (rollbackConfig chain prev g) else g
  end.

(** The two timers; a timer that is not counting does not fire. *)
Definition fire_check (now : Z) (chain : option string) (g : engine) : engine :=
  let rb := e_rollback g in
  match rollbackTimer rb with
  | TimerCounting =>
      checkAndRollback now chain
        (with_rollback (mkRollback (prevConfig rb) (reloadTimestamp rb) (errorCount rb) TimerDone
                          (rollbackTimer2 rb) (reloadCount rb)) g)
  | _ => g
  end.

Definition fire_final (now : Z) (chain : option string) (g : engine) : engine :=
  let rb := e_rollback g in
  match rollbackTimer2 rb with
  | TimerCounting =>
      let g := checkAndRollback now chain
        (with_rollback (mkRollback (prevConfig rb) (reloadTimestamp rb) (errorCount rb) (rollbackTimer rb)
                          TimerDone (reloadCount rb)) g) in
      let rb := e_rollback g in
      with_rollback (mkRollback None (reloadTimestamp rb) (errorCount rb) (rollbackTimer rb)
                       (rollbackTimer2 rb) (reloadCount rb)) g
  | _ => g
  end.

Definition RecordReloadError (g : engine) : engine :=
  let rb := e_rollback g in
  with_rollback (mkRollback (prevConfig rb) (reloadTimestamp rb) (i64 (errorCount rb + 1)) (rollbackTimer rb)
                   (rollbackTimer2 rb) (reloadCount rb)) g.

Definition stopRollbackTimer (g : engine) : engine :=
  let rb := e_rollback g in
  with_rollback (mkRollback (prevConfig rb) (reloadTimestamp rb) (errorCount rb) TimerNil TimerNil (reloadCount rb)) g.

(** [Reload], undisturbed by other calls: [load] is what the loader returned. *)
Definition Reload (now : Z) (load : string + Config) (chain : option string) (g : engine)
    : option engine_error * engine :=
  match e_state g with
  | ERunning =>
      let counted g := let rb := e_rollback g in
        with_rollback (mkRollback (prevConfig rb) (reloadTimestamp rb) (errorCount rb) (rollbackTimer rb)
                         (rollbackTimer2 rb) (i64 (reloadCount rb + 1))) (with_state ERunning g) in
      let g := with_state EReloading g in
      match load with
      | inl msg => (Some (LoadFailed msg), counted g)
      | inr c =>
          match validateConfig c with
          | Some err => (Some err, counted g)
          | None =>
              let '(err, g) := applyConfig now chain (snd (Validate c)) g in
              (err, counted g)
          end
      end
  | _ => (Some WrongState, g)
  end.
End Engine.

(** ** The life cycle under concurrent calls

    The critical sections of [Start], [Reload] and [Shutdown] on the state; between them the
    calls overlap.  [lc_closed] records that a shutdown has closed the listeners. *)
Record lifecycle := mkLife {
  lc_state : EngineState; lc_reloading : bool; lc_stopping : bool; lc_closed : bool
}.

Inductive life_step : lifecycle -> lifecycle -> Prop :=
  | life_reload_begin c : life_step (mkLife ERunning false false c) (mkLife EReloading true false c)
  | life_reload_begin' c : life_step (mkLife ERunning false true c) (mkLife EReloading true true c)
  | life_reload_end s st c : life_step (mkLife s true st c) (mkLife ERunning false st c)
  | life_shutdown_begin s r c :
      s = ERunning \/ s = EReloading -> life_step (mkLife s r false c) (mkLife EStopping r true c)
  | life_shutdown_close s r c : life_step (mkLife s r true c) (mkLife s r true true)
  | life_shutdown_end s r c : life_step (mkLife s r true c) (mkLife EStopped r false c).
