(* ===== verification/EngineFacts.v ===== *)
(** * What applying a configuration guarantees

    Startup and reload build well-formed pools; a configuration with distinct names and
    identifiers can be started and serves; and the places where the two paths, or the
    validation and the engine, disagree. *)
From S2P Require Import Prelude GoFloat Errors Http NetIP NetAddr GoTime Bytes GoHash Backend BackendPool.
From S2P Require Import Balancers BalancersFacts HashRing HashRingFacts Latency Registry Radix RadixFacts Router.
From S2P Require Import Health Config ConfigFacts Engine.
From Stdlib Require Import Ascii.

(** ** Pools under construction *)

(** A pool of the world [w]: well formed, with a balancer, and all its backends allocated
    and in state [st]. *)
Record pool_ok (st : State) (w : world) (p : Pool AnyBalancer) : Prop := {
  po_wf : pool_wf (w_heap w) p;
  po_balancer : is_Some (balancer p);
  po_backends : forall b, b ∈ order p -> (b < w_next w)%nat /\ state (w_heap w b) = st
}.

(** [w'] extends [w] by new backends. *)
Record extends (w w' : world) : Prop := {
  ex_next : (w_next w <= w_next w')%nat;
  ex_heap : forall q, (q < w_next w)%nat -> w_heap w' q = w_heap w q;
  ex_pools : w_pools w' = w_pools w;
  ex_nextPool : w_nextPool w' = w_nextPool w;
  ex_manager : w_manager w' = w_manager w
}.

Lemma extends_refl w : extends w w.
Proof. by split. Qed.

Lemma extends_trans w1 w2 w3 : extends w1 w2 -> extends w2 w3 -> extends w1 w3.
Proof.
  intros [A1 A2 A3 A4 A5] [B1 B2 B3 B4 B5]. split; try congruence; [lia|].
  intros q Hq. rewrite B2 by lia. by apply A2.
Qed.

(** Allocated backends of a pool survive new allocations. *)
Lemma pool_wf_agree h h' (p : Pool AnyBalancer) n :
  (forall b, b ∈ order p -> (b < n)%nat) -> (forall q, (q < n)%nat -> h' q = h q) ->
  pool_wf h p -> pool_wf h' p.
Proof.
  intros Hlt Hag [H1 H2 H3].
  assert (Hold : forall id b, Backends p !! id = Some b -> (b < n)%nat).
  { intros id b Hb. apply Hlt, H2. destruct (H1 _ _ Hb) as [-> _]. done. }
  split; [|intros b; split|done].
  - intros id b Hb. rewrite Hag by (by eapply Hold). by apply H1.
  - intros Hb. rewrite Hag by (by apply Hlt). by apply H2.
  - intros Hb. rewrite Hag in Hb by (by eapply Hold). by apply H2.
Qed.

Lemma pool_ok_mono st w w' p :
  (w_next w <= w_next w')%nat -> (forall q, (q < w_next w)%nat -> w_heap w' q = w_heap w q) ->
  pool_ok st w p -> pool_ok st w' p.
Proof.
  intros Hn Hh [Hwf Hb Ho]. split; [|done|].
  - apply (pool_wf_agree (w_heap w) _ _ (w_next w)); [|done|done]. intros b Hin. by apply Ho.
  - intros b Hin. destruct (Ho b Hin) as [Hlt Hs]. rewrite Hh by done. split; [lia|done].
Qed.

Lemma pool_ok_extends st w w' p : extends w w' -> pool_ok st w p -> pool_ok st w' p.
Proof. intros [E1 E2 _ _ _]. by apply pool_ok_mono. Qed.

Section Facts.
Context `{!SliceSort ConsistentHash.ringNode ConsistentHash.hash}
        `{!SliceSort RingHash.ringHashNode RingHash.hash} `{!MapRange}.
Context (e : env) (reg : gmap string Factory).

(** The state of new backends: up at startup, starting on a reload. *)
Definition new_state (up : bool) : State := if up then StateUp else StateStarting.

Lemma add_backends_ok up hc i bs pool w pool' w' :
  pool_ok (new_state up) w pool ->
  add_backends e up hc i bs pool w = (inr pool', w') ->
  extends w w' /\ pool_ok (new_state up) w' pool' /\ Name pool' = Name pool /\
  exists new, order pool' = order pool ++ new /\ length new = length bs /\
    forall k b, bs !! k = Some b -> exists q, new !! k = Some q /\
      ID (w_heap w' q) = backend_id (i + k) b /\ Address (w_heap w' q) = b_Address b.
Proof.
  revert i pool w. induction bs as [|b bs IH]; intros i pool w Hok Ha; cbn [add_backends] in Ha.
  { injection Ha as <- <-. split_and!; [apply extends_refl|done|done|]. exists []. by rewrite app_nil_r. }
  case_match; [done|].
  set (be := if up then _ else _) in Ha. set (p := w_next w) in Ha. set (h := heap_set (w_heap w) p be) in Ha.
  assert (Hbe : ID be = backend_id i b /\ Address be = b_Address b /\ state be = new_state up).
  { unfold be. destruct up, (empty (b_Scheme b)); done. }
  assert (Hp : h p = be) by (unfold h, heap_set; by rewrite bool_decide_true).
  assert (Hq : forall q, (q < p)%nat -> h q = w_heap w q).
  { intros q Hlt. unfold h, heap_set. rewrite bool_decide_false by lia. done. }
  destruct (AddBackend h pool (Some p)) as [err|pool1] eqn:Eadd; [done|].
  set (w1 := mkWorld h (S p) _ _ _ _) in Ha.
  assert (Hex : extends w w1) by (split; cbn; [lia|done..]).
  assert (Hnew : order pool1 = order pool ++ [p] /\ Name pool1 = Name pool /\ is_Some (balancer pool1)).
  { unfold AddBackend in Eadd. case_bool_decide; [done|]. case_match; [done|]. injection Eadd as <-. simpl.
    split_and!; [done|done|]. by destruct (po_balancer _ _ _ Hok) as [bal ->]. }
  destruct Hnew as (Hord & Hname & Hbal).
  assert (Hok1 : pool_ok (new_state up) w1 pool1).
  { pose proof (pool_ok_extends _ _ _ _ Hex Hok) as Hok'. split; [|done|].
    - by apply (pool_wf_add (H := any_balancer e) _ pool (Some p)); [apply Hok'|].
    - intros x. rewrite Hord. intros [Hx|Hx]%elem_of_app; [by apply Hok'|].
      apply list_elem_of_singleton in Hx as ->. cbn. rewrite Hp. split; [lia|apply Hbe]. }
  destruct (IH _ _ _ Hok1 Ha) as (Hex' & Hok' & Hname' & new & Hord' & Hlen & Hall).
  split_and!; [by eapply extends_trans|done|congruence|].
  exists (p :: new). rewrite Hord', Hord, <- app_assoc. split_and!; [done|simpl; lia|].
  intros [|k] x Hx; simpl in Hx.
  - injection Hx as <-. exists p. rewrite (ex_heap _ _ Hex') by (cbn; lia). cbn. rewrite Hp, Nat.add_0_r.
    split; [done|split; apply Hbe].
  - destruct (Hall k x Hx) as (q & Hk & Hid & Haddr). exists q. rewrite <- Nat.add_succ_comm. done.
Qed.

(** ** The pools of a world *)

(** The manager has a pool for the configured one: well formed, with the configured backends
    in order and in state [st]. *)
Definition realizes (st : State) (w : world) (p : PoolConfig) : Prop :=
  exists q, GetPool (w_manager w) (p_Name p) = Some q /\ (q < w_nextPool w)%nat /\
    Name (w_pools w q) = p_Name p /\ pool_ok st w (w_pools w q) /\
    length (order (w_pools w q)) = length (p_Backends p) /\
    forall k b, p_Backends p !! k = Some b -> exists x, order (w_pools w q) !! k = Some x /\
      ID (w_heap w x) = backend_id k b /\ Address (w_heap w x) = b_Address b.

(** [w'] has the backends and pools of [w], and more. *)
Record grows (w w' : world) : Prop := {
  gr_next : (w_next w <= w_next w')%nat;
  gr_heap : forall q, (q < w_next w)%nat -> w_heap w' q = w_heap w q;
  gr_nextPool : (w_nextPool w <= w_nextPool w')%nat;
  gr_pools : forall q, (q < w_nextPool w)%nat -> w_pools w' q = w_pools w q;
  gr_manager : pools (w_manager w) ⊆ pools (w_manager w')
}.

Lemma grows_refl w : grows w w.
Proof. by split. Qed.

Lemma grows_trans w1 w2 w3 : grows w1 w2 -> grows w2 w3 -> grows w1 w3.
Proof.
  intros [A1 A2 A3 A4 A5] [B1 B2 B3 B4 B5]. split; [lia| |lia| |by etrans].
  - intros q Hq. rewrite B2 by lia. by apply A2.
  - intros q Hq. rewrite B4 by lia. by apply A4.
Qed.

Lemma pool_ok_grows st w w' p : grows w w' -> pool_ok st w p -> pool_ok st w' p.
Proof. intros [G1 G2 _ _ _]. by apply pool_ok_mono. Qed.

Lemma realizes_grows st w w' p : grows w w' -> realizes st w p -> realizes st w' p.
Proof.
  intros G (q & Hq & Hlt & Hn & Hok & Hlen & Hall). exists q.
  pose proof (gr_pools _ _ G q Hlt) as Ep. rewrite Ep. split_and!.
  - unfold GetPool in *. by eapply lookup_weaken, G.
  - pose proof (gr_nextPool _ _ G). lia.
  - done.
  - by eapply pool_ok_grows.
  - done.
  - intros k b Hk. destruct (Hall k b Hk) as (x & Hx & Hid & Ha). exists x.
    rewrite (gr_heap _ _ G) by (apply Hok; by eapply list_elem_of_lookup_2). done.
Qed.

Lemma new_pool_ok st w bal name alg : pool_ok st w (SetBalancer bal (NewPool name alg)).
Proof.
  split; [apply pool_wf_balancer, pool_wf_new|by eexists|]. intros b Hb. by apply elem_of_nil in Hb.
Qed.

(** The body of both loops: the pool is realized, or nothing is added to the manager. *)
Lemma fill_pool_spec up hc p bal w w' :
  fill_pool e up hc p bal w = (None, w') -> grows w w' /\ realizes (new_state up) w' p /\
  pools (w_manager w') = <[p_Name p := w_nextPool w]> (pools (w_manager w)).
Proof.
  unfold fill_pool.
  destruct (add_backends e up hc 0 (p_Backends p) _ w) as [[err|pool] w1] eqn:Ea; [done|].
  destruct (add_backends_ok _ _ _ _ _ _ _ _ (new_pool_ok (new_state up) w bal (p_Name p) (p_Algorithm p)) Ea)
    as ([X1 X2 X3 X4 X5] & Hok & Hname & new & Hord & Hlen & Hall). simpl in Hname, Hord.
  unfold add_pool, AddPool. rewrite (bool_decide_true (w_nextPool w1 = w_nextPool w1)), Hname by done.
  case_bool_decide as Hne; [done|]. destruct (pools (w_manager w1) !! p_Name p) eqn:Eold; [done|].
  intros [= <-]. rewrite X5 in Eold. split_and!; [|exists (w_nextPool w1)|].
  - split; cbn; [done|done|lia| |].
    + intros q Hq. rewrite bool_decide_false by lia. by rewrite X3.
    + rewrite X5. by apply insert_subseteq.
  - cbn. rewrite bool_decide_true by done. rewrite Hname. split_and!; [|lia|done| |by rewrite Hord, Hlen|].
    + unfold GetPool. cbn. by rewrite lookup_insert_eq.
    + destruct Hok as [A B C]. by split.
    + intros k b Hk. destruct (Hall k b Hk) as (x & Hx & Hid). exists x. by rewrite Hord.
  - cbn. by rewrite X4, X5.
Qed.

(** A loop whose rounds fill one pool each realizes all of them. *)
Lemma each_pool_realizes up f ps w w' :
  (forall p w w', f p w = (None, w') -> exists hc bal, fill_pool e up hc p bal w = (None, w')) ->
  each_pool f ps w = (None, w') ->
  grows w w' /\ (forall p, p ∈ ps -> realizes (new_state up) w' p) /\
  forall name, is_Some (pools (w_manager w') !! name) <->
    is_Some (pools (w_manager w) !! name) \/ name ∈ p_Name <$> ps.
Proof.
  intros Hf. revert w. induction ps as [|p ps IH]; intros w Hw; cbn [each_pool] in Hw.
  { injection Hw as <-. split_and!; [apply grows_refl|set_solver|]. intros name. set_solver. }
  destruct (f p w) as [[err|] w1] eqn:E; [done|]. apply Hf in E as (hc & bal & E).
  apply fill_pool_spec in E as (G1 & R1 & M1). destruct (IH w1 Hw) as (G2 & R2 & M2).
  split_and!; [by eapply grows_trans| |].
  - intros x [->|Hx]%elem_of_cons; [by eapply realizes_grows|by apply R2].
  - intros name. rewrite M2, M1, fmap_cons, elem_of_cons. rewrite lookup_insert_is_Some'.
    naive_solver.
Qed.

Lemma init_pool_fill p w w' :
  init_pool e reg p w = (None, w') -> exists hc bal, fill_pool e true hc p bal w = (None, w').
Proof. unfold init_pool. repeat case_match; intros; try done; eauto. Qed.

Lemma reload_pool_fill p w w' :
  reload_pool e reg p w = (None, w') -> exists hc bal, fill_pool e false hc p bal w = (None, w').
Proof. unfold reload_pool. repeat case_match; intros; try done; eauto. Qed.

End Facts.

(** ** Routes *)

(** Every route in the tables of a router. *)
Definition ht_all (P : Route -> Prop) (ht : hostTrie) : Prop :=
  forall p l x, ht_routes ht !! p = Some l -> x ∈ l -> P x.

Record all_routes (P : Route -> Prop) (r : Router) : Prop := {
  ar_exact : forall k ht, exactHosts r !! k = Some ht -> ht_all P ht;
  ar_wild : forall k ht, wildcardHosts r !! k = Some ht -> ht_all P ht;
  ar_default : forall ht, defaultTrie r = Some ht -> ht_all P ht
}.

Lemma all_routes_new P : all_routes P NewRouter.
Proof. split; simpl; try done; intros k ht; by rewrite lookup_empty. Qed.

Lemma all_routes_host P r host ht : all_routes P r -> host_trie r host = Some ht -> ht_all P ht.
Proof.
  intros [H1 H2 H3]. unfold host_trie. case_bool_decide; [by apply H3|].
  destruct (wildcard_domain host); [by apply H2|by apply H1].
Qed.

Lemma all_routes_set P r host ht : all_routes P r -> ht_all P ht -> all_routes P (set_host_trie r host ht).
Proof.
  intros [H1 H2 H3] Hht. unfold set_host_trie. case_bool_decide; [|destruct (wildcard_domain host)];
    split; cbn; try done; try (by intros ? [= <-]);
    intros k x [[_ <-]|[_ Hk]]%lookup_insert_Some; eauto.
Qed.

Lemma add_to_tables_all P r route :
  all_routes P r -> P route -> all_routes P (snd (add_to_tables r route)).
Proof.
  intros Hr HP. rewrite add_to_tables_eq. cbv zeta.
  set (ht0 := default (newHostTrie (Route_Host route)) (host_trie r (Route_Host route))).
  assert (H0 : ht_all P ht0).
  { unfold ht0. destruct (host_trie r _) eqn:E; simpl; [by eapply all_routes_host|].
    intros p l x Hp. simpl in Hp. by rewrite lookup_empty in Hp. }
  destruct (Insert _ _ _) as [[err|] trie]; [by apply all_routes_set|].
  assert (H1 : ht_all P (mkHostTrie (ht_host ht0) trie
    (<[Route_Path route := default [] (ht_routes ht0 !! Route_Path route) ++ [route]]> (ht_routes ht0)))).
  { intros p l x Hp Hx. simpl in Hp. apply lookup_insert_Some in Hp as [[<- <-]|[_ Hp]]; [|by eapply H0].
    apply elem_of_app in Hx as [Hx| ->%list_elem_of_singleton]; [|done].
    destruct (ht_routes ht0 !! Route_Path route) as [l|] eqn:El; [by eapply H0|set_solver]. }
  pose proof (all_routes_set _ _ (Route_Host route) _ Hr H1) as [A B C]. by split.
Qed.

Lemma AddRoute_all P r route :
  all_routes P r -> (forall p, P (set_path p route)) -> P route -> all_routes P (snd (AddRoute r (Some route))).
Proof.
  intros Hr Hp HP. unfold AddRoute, validate. do 3 (case_bool_decide; [done|]).
  destruct (starts_with _ _); destruct (routesByName r !! _); try done; by apply add_to_tables_all.
Qed.

Lemma add_routes_all P rs r :
  all_routes P r -> (forall x, x ∈ rs -> P x /\ forall p, P (set_path p x)) -> all_routes P (snd (add_routes rs r)).
Proof.
  revert r. induction rs as [|x rs IH]; intros r Hr Hall; [done|]. cbn [add_routes].
  destruct (Hall x ltac:(set_solver)) as [HP Hs]. pose proof (AddRoute_all P r x Hr Hs HP) as H1.
  destruct (AddRoute r (Some x)) as [[err|] r1]; [done|]. apply IH; [done|]. intros y Hy. apply Hall. set_solver.
Qed.

Lemma matchInHostTrie_all P ht path req m : ht_all P ht -> matchInHostTrie ht path req = Some m -> P (rm_Route m).
Proof.
  intros Hht. unfold matchInHostTrie. destruct (match Match _ _ with Some _ => _ | None => _ end) as [res|]; [|done].
  destruct (ht_routes ht !! _) as [l|] eqn:El; [|done].
  destruct (List.find _ l) as [x|] eqn:Ef; [|done]. intros [= <-]. apply List.find_some in Ef as [Hin _].
  apply list_elem_of_In in Hin. by eapply Hht.
Qed.

Lemma match_wildcards_all P r parts path req m :
  all_routes P r -> match_wildcards r parts path req = Some m -> P (rm_Route m).
Proof.
  intros Hr. induction parts as [|a parts IH]; [done|]. cbn [match_wildcards].
  destruct parts as [|b parts]; [done|].
  destruct (wildcardHosts r !! _) as [ht|] eqn:E; [|done].
  destruct (matchInHostTrie ht path req) eqn:Em; [|done]. intros [= <-].
  eapply matchInHostTrie_all; [|done]. by eapply ar_wild.
Qed.

(** A matched route is one of the routes in the tables. *)
Lemma Router_Match_all P r req m : all_routes P r -> Router_Match r req = Some m -> P (rm_Route m).
Proof.
  intros Hr. unfold Router_Match.
  destruct (exactHosts r !! request_host req ≫= _) as [m1|] eqn:E1.
  - intros [= <-]. destruct (exactHosts r !! _) as [ht|] eqn:E; [|done]. simpl in E1.
    eapply matchInHostTrie_all; [|done]. by eapply ar_exact.
  - destruct (match_wildcards r _ _ req) as [m2|] eqn:E2.
    + intros [= <-]. by eapply match_wildcards_all.
    + destruct (defaultTrie r) as [ht|] eqn:E; [|done]. simpl. intros Em.
      eapply matchInHostTrie_all; [|done]. by eapply ar_default.
Qed.

(** The index of a router after the routes of a configuration: their names are distinct. *)
Lemma AddRoute_names r x r' :
  AddRoute r (Some x) = (None, r') ->
  routesByName r !! Route_Name x = None /\ is_Some (routesByName r' !! Route_Name x) /\
  forall n, is_Some (routesByName r !! n) -> is_Some (routesByName r' !! n).
Proof.
  unfold AddRoute. destruct (validate (Some x)) as [err|y] eqn:Ev; [done|].
  assert (Hn : Route_Name y = Route_Name x) by (apply validate_name in Ev; by injection Ev).
  rewrite Hn. destruct (routesByName r !! Route_Name x) eqn:E; [done|].
  intros H. apply add_to_tables_names in H. rewrite H, Hn. split_and!; [done|by rewrite lookup_insert_eq; eauto|].
  intros n Hs. apply lookup_insert_is_Some'. by right.
Qed.

Lemma add_routes_names rs r r' :
  add_routes rs r = (None, r') ->
  NoDup (Route_Name <$> rs) /\ (forall n, n ∈ Route_Name <$> rs -> routesByName r !! n = None) /\
  forall n, is_Some (routesByName r !! n) \/ n ∈ Route_Name <$> rs -> is_Some (routesByName r' !! n).
Proof.
  revert r. induction rs as [|x rs IH]; intros r; cbn [add_routes].
  { intros [= <-]. split_and!; [constructor|set_solver|]. intros n [Hn|Hn]; [done|set_solver]. }
  destruct (AddRoute r (Some x)) as [[err|] r1] eqn:E; [done|]. intros H.
  destruct (AddRoute_names _ _ _ E) as (Hnew & Hx & Hkeep). destruct (IH r1 H) as (Hnd & Hfree & Hall).
  rewrite fmap_cons. split_and!.
  - apply NoDup_cons. split; [|done]. intros Hin. rewrite (Hfree _ Hin) in Hx. by destruct Hx.
  - intros n [->|Hin]%elem_of_cons; [done|]. destruct (routesByName r !! n) eqn:En; [|done].
    assert (Hs : is_Some (routesByName r1 !! n)) by (apply Hkeep; eauto). rewrite (Hfree _ Hin) in Hs. by destruct Hs.
  - intros n [Hn|[->|Hin]%elem_of_cons]; apply Hall; eauto.
Qed.
(** ** Startup and reload *)

Section Theorems.
Context `{!SliceSort ConsistentHash.ringNode ConsistentHash.hash}
        `{!SliceSort RingHash.ringHashNode RingHash.hash} `{MR : !MapRange}.
Context (e : env) (reg : gmap string Factory).

(** An engine as [New] makes it: no pools and no routes yet. *)
Definition fresh_engine (g : engine) : Prop :=
  e_state g = EStopped /\ pools (w_manager (e_world g)) = ∅ /\ e_router g = NewRouter.

(** What a successful [Start] has done. *)
Lemma Start_done tls listen g g' :
  Start e reg tls listen g = (None, g') ->
  e_state g = EStopped /\ e_state g' = ERunning /\ listen = None /\ e_config g' = e_config g /\
  (exists w1, w_manager w1 = w_manager (e_world g) /\
     initializePools e reg (Pools (e_config g)) w1 = (None, e_world g')) /\
  initializeRoutes (e_config g) (e_router g) = (None, e_router g') /\
  px_router (e_proxy g') = e_router g' /\ px_manager (e_proxy g') = w_manager (e_world g').
Proof.
  unfold Start. destruct (e_state g), tls; try done.
  destruct (initializePools e reg (Pools (e_config g)) _) as [[err|] w] eqn:Ep; [done|].
  destruct (attachShadowTargets _ _ _) as [[err|] ts]; [done|].
  destruct (initializeRoutes (e_config g) (e_router g)) as [[err|] r] eqn:Er; [done|].
  destruct listen; [done|]. intros [= <-]. split_and!; try done. eexists; split; [|exact Ep]. done.
Qed.

(** A started engine realizes its configuration: the manager has exactly the configured
    pools, each with the configured backends, in order and up, and the proxy serves with
    them. *)
Theorem start_realizes_config tls listen g g'
  (Hfresh : fresh_engine g) (Hs : Start e reg tls listen g = (None, g')) :
  (forall p, p ∈ Pools (e_config g) -> realizes StateUp (e_world g') p) /\
  (forall name, is_Some (GetPool (px_manager (e_proxy g')) name) <-> name ∈ p_Name <$> Pools (e_config g)).
Proof.
  destruct Hfresh as (_ & Hempty & _). destruct (Start_done _ _ _ _ Hs) as (_ & _ & _ & _ & (w1 & Hm & Hp) & _ & Hpr & Hpm).
  destruct (each_pool_realizes e true (init_pool e reg) (Pools (e_config g)) w1 (e_world g') (init_pool_fill e reg) Hp)
    as (_ & Hr & Hn).
  split; [done|]. intros name. rewrite Hpm. unfold GetPool. simpl. rewrite Hn, Hm, Hempty, lookup_empty.
  split; [intros [[? ?]|]; done|by right].
Qed.

Lemma round_robin_total : BalancerTotal RoundRobin.t.
Proof. apply _. Qed.

(** [AnyBalancer] values of round robin do not decline an offer. *)
Lemma round_robin_next e1 h bs s : bs <> [] ->
  exists b s', Registry.Next e1 h None bs (BRoundRobin s) = (Some b, BRoundRobin s').
Proof.
  intros Hbs. destruct (bal_Next_some h None bs s Hbs) as (b & s' & E). exists b, s'.
  cbn. unfold wrap. simpl in E. by rewrite E.
Qed.

(** A pool of available backends is entirely healthy. *)
Lemma healthy_all w p : pool_ok StateUp w p -> GetHealthyBackends (w_heap w) p = order p.
Proof.
  intros Hok. unfold GetHealthyBackends. assert (Hall : forall b, b ∈ order p -> IsAvailable (w_heap w b) = true).
  { intros b Hb. destruct (po_backends _ _ _ Hok b Hb) as [_ Hs]. unfold IsAvailable, State_IsAvailable.
    by rewrite bool_decide_true. }
  revert Hall. generalize (order p). intros l. induction l as [|x l IH]; intros Hall; simpl; [done|].
  rewrite Hall by set_solver. f_equal. apply IH. set_solver.
Qed.

Lemma healthy_none w p : pool_ok StateStarting w p -> GetHealthyBackends (w_heap w) p = [].
Proof.
  intros Hok. destruct (GetHealthyBackends (w_heap w) p) as [|x l] eqn:E; [done|].
  assert (Hx : x ∈ GetHealthyBackends (w_heap w) p) by (rewrite E; set_solver).
  apply GetHealthyBackends_in in Hx as [Hin Ha]. destruct (po_backends _ _ _ Hok x Hin) as [_ Hs].
  unfold IsAvailable, State_IsAvailable in Ha. b2p. congruence.
Qed.

(** C9: From a request to a backend: after a start with a validated configuration, every route
    the router can answer with names a configured pool; if that pool uses round robin and
    has a backend, the selection succeeds and answers with one of the configured
    backends. *)
Theorem started_engine_serves tls listen g g' req m e1
  (Hfresh : fresh_engine g) (Hvalid : valid (e_config g)) (Hs : Start e reg tls listen g = (None, g'))
  (Hm : Router_Match (px_router (e_proxy g')) req = Some m) :
  exists p q, p ∈ Pools (e_config g) /\ p_Name p = BackendPool (rm_Route m) /\
    GetPool (px_manager (e_proxy g')) (BackendPool (rm_Route m)) = Some q /\
    (p_Backends p <> [] -> forall s, balancer (w_pools (e_world g') q) = Some (BRoundRobin s) ->
      exists b pool' k cfg,
        NextBackend (H := any_balancer e1) (w_heap (e_world g')) false (w_pools (e_world g') q) = (inr b, pool') /\
        p_Backends p !! k = Some cfg /\ ID (w_heap (e_world g') b) = backend_id k cfg /\
        Address (w_heap (e_world g') b) = b_Address cfg).
Proof.
  destruct (start_realizes_config _ _ _ _ Hfresh Hs) as [Hreal _].
  destruct (Start_done _ _ _ _ Hs) as (_ & _ & _ & _ & _ & Hr & Hpr & Hpm).
  destruct Hfresh as (_ & _ & Hnew). rewrite Hpr in Hm. rewrite Hpm.
  assert (Hall : all_routes (fun x => BackendPool x ∈ p_Name <$> Pools (e_config g)) (e_router g')).
  { unfold initializeRoutes in Hr. rewrite Hnew in Hr.
    pose proof (add_routes_all (fun x => BackendPool x ∈ p_Name <$> Pools (e_config g)) (routes_of (e_config g))
      NewRouter (all_routes_new _)) as H. rewrite Hr in H. apply H. intros x Hx.
    unfold routes_of in Hx. apply list_elem_of_bind in Hx as (l & Hx & Hl).
    apply list_elem_of_fmap in Hx as (r & -> & Hin). simpl.
    pose proof (v_routes _ Hvalid l r Hl Hin). done. }
  pose proof (Router_Match_all _ _ _ _ Hall Hm) as Hpool. simpl in Hpool.
  apply list_elem_of_fmap in Hpool as (p & Hname & Hp). destruct (Hreal p Hp) as (q & Hq & _ & Hpn & Hok & Hlen & Hb).
  exists p, q. rewrite Hname. split_and!; [done|done|done|]. intros Hne s Hbal.
  unfold NextBackend. rewrite Hbal, (healthy_all _ _ Hok).
  assert (Hord : order (w_pools (e_world g') q) <> []).
  { intros E. rewrite E in Hlen. by destruct (p_Backends p). }
  destruct (round_robin_next e1 (w_heap (e_world g')) (order (w_pools (e_world g') q)) s Hord) as (b & s' & En).
  assert (Hbin : b ∈ order (w_pools (e_world g') q)).
  { exact (@bal_Next_in _ (any_balancer e1) (any_balancer_laws e1) _ _ _ _ _ _ En). }
  apply list_elem_of_lookup in Hbin as [k Hk].
  destruct (lookup_lt_is_Some_2 (p_Backends p) k) as [cfg Hcfg];
    [rewrite <- Hlen; by eapply lookup_lt_Some|].
  destruct (Hb k cfg Hcfg) as (x & Hx & Hid & Haddr). assert (x = b) as -> by congruence.
  destruct (order (w_pools (e_world g') q)) as [|o os] eqn:Eo; [done|].
  cbn [bal_Next any_balancer]. rewrite En. eexists b, _, k, cfg. split_and!; done.
Qed.

(** What a successful reload has done. *)
Lemma applyConfig_done chain c g g' :
  applyConfigInternal e reg chain c g = (None, g') ->
  (exists w1, w_checker w1 = ∅ /\ pools (w_manager w1) = ∅ /\
     each_pool (reload_pool e reg) (Pools c) w1 = (None, e_world g')) /\
  initializeRoutes c NewRouter = (None, e_router g') /\
  e_config g' = c /\ px_router (e_proxy g') = e_router g' /\ px_manager (e_proxy g') = w_manager (e_world g').
Proof.
  unfold applyConfigInternal. destruct (initializeRoutes c NewRouter) as [[err|] r] eqn:Er; [done|].
  destruct (each_pool (reload_pool e reg) (Pools c) _) as [[err|] w] eqn:Ep; [done|]. destruct chain; [done|].
  destruct (attachShadowTargets c _ _) as [[err|] ts]; [done|]. intros [= <-]. split_and!; try done.
  eexists. split; [|split; [|exact Ep]]; done.
Qed.

(** The pools after a reload: the configured ones, with every backend starting. *)
Lemma reload_pools_starting chain c g g' name q :
  applyConfigInternal e reg chain c g = (None, g') -> pools (w_manager (e_world g')) !! name = Some q ->
  name ∈ p_Name <$> Pools c /\ Name (w_pools (e_world g') q) = name /\
  pool_ok StateStarting (e_world g') (w_pools (e_world g') q).
Proof.
  intros Ha Hq. destruct (applyConfig_done _ _ _ _ Ha) as ((w1 & _ & Hempty & Hp) & _).
  destruct (each_pool_realizes e false (reload_pool e reg) (Pools c) w1 (e_world g') (reload_pool_fill e reg) Hp)
    as (_ & Hr & Hn).
  assert (Hin : name ∈ p_Name <$> Pools c).
  { destruct (proj1 (Hn name) ltac:(eauto)) as [[x Hx]|]; [|done]. by rewrite Hempty, lookup_empty in Hx. }
  split; [done|]. apply list_elem_of_fmap in Hin as (p & -> & Hin).
  destruct (Hr p Hin) as (q' & Hq' & _ & Hname & Hok & _). unfold GetPool in Hq'.
  by assert (q' = q) as -> by congruence.
Qed.

Lemma reload_has_pools chain c g g' :
  applyConfigInternal e reg chain c g = (None, g') -> Pools c <> [] -> pools (w_manager (e_world g')) <> ∅.
Proof.
  intros Ha Hne Hempty. destruct (applyConfig_done _ _ _ _ Ha) as ((w1 & _ & _ & Hp) & _).
  destruct (each_pool_realizes e false (reload_pool e reg) (Pools c) w1 (e_world g') (reload_pool_fill e reg) Hp)
    as (_ & Hr & _).
  destruct (Pools c) as [|p ps]; [done|]. destruct (Hr p ltac:(set_solver)) as (q & Hq & _).
  unfold GetPool in Hq. by rewrite Hempty, lookup_empty in Hq.
Qed.

(** A reload builds the configured pools, but leaves every backend in the starting state:
    until a health check has passed, no pool has a healthy backend and every selection
    fails, whatever the algorithm and however healthy the backends were before. *)
Theorem reload_serves_nothing_at_first chain c g g' name q e1
  (Ha : applyConfigInternal e reg chain c g = (None, g'))
  (Hq : GetPool (px_manager (e_proxy g')) name = Some q) :
  name ∈ p_Name <$> Pools c /\
  GetHealthyBackends (w_heap (e_world g')) (w_pools (e_world g') q) = [] /\
  NextBackend (H := any_balancer e1) (w_heap (e_world g')) false (w_pools (e_world g') q) =
    (inl (WithContext ErrPoolEmpty "pool" name), w_pools (e_world g') q).
Proof.
  destruct (applyConfig_done _ _ _ _ Ha) as (_ & _ & _ & Hpr & Hpm). rewrite Hpm in Hq.
  destruct (reload_pools_starting _ _ _ _ _ _ Ha Hq) as (Hin & Hname & Hok).
  rewrite (healthy_none _ _ Hok). split_and!; [done|done|].
  unfold NextBackend. destruct (po_balancer _ _ _ Hok) as [bal ->]. by rewrite (healthy_none _ _ Hok), Hname.
Qed.

(** Route names are made of the listener and the path alone: whatever hosts and methods they
    have, two routes of a listener with the same path make startup and reload fail. *)
Theorem same_path_routes_refused c r0 r l r1 r2
  (Hl : l ∈ Listeners c) (Hr : exists k1 k2, k1 <> k2 /\ l_Routes l !! k1 = Some r1 /\ l_Routes l !! k2 = Some r2)
  (Hpath : r_Path r1 = r_Path r2) :
  initializeRoutes c r0 <> (None, r).
Proof.
  intros H. apply add_routes_names in H as (Hnd & _).
  assert (Hsub : NoDup (Route_Name <$> (engine_route l <$> l_Routes l))).
  { apply list_elem_of_lookup in Hl as [i Hi]. unfold routes_of in Hnd.
    rewrite <- (take_drop_middle _ _ _ Hi), bind_app, bind_cons, !fmap_app in Hnd.
    apply NoDup_app in Hnd as (_ & _ & Hnd). by apply NoDup_app in Hnd as (? & _ & _). }
  destruct Hr as (k1 & k2 & Hne & H1 & H2). apply Hne.
  apply (NoDup_lookup _ k1 k2 (route_name l r1) Hsub).
  - by rewrite !list_lookup_fmap, H1.
  - rewrite !list_lookup_fmap, H2. simpl. unfold route_name. by rewrite Hpath.
Qed.

(** A pool name in use ends the initialization of the pools. *)
Lemma fill_pool_taken hc p bal w :
  is_Some (pools (w_manager w) !! p_Name p) -> exists err, fst (fill_pool e true hc p bal w) = Some err.
Proof.
  intros [x Hx]. destruct (fst (fill_pool e true hc p bal w)) as [err|] eqn:E; [by exists err|].
  destruct (fill_pool e true hc p bal w) as [r w'] eqn:Ef. simpl in E. subst r. exfalso. revert Ef. unfold fill_pool.
  destruct (add_backends e true hc 0 (p_Backends p) _ w) as [[err|pool] w1] eqn:Ea; [done|].
  destruct (add_backends_ok _ _ _ _ _ _ _ _ _ (new_pool_ok (new_state true) w bal (p_Name p) (p_Algorithm p)) Ea)
    as ([_ _ _ _ X5] & _ & Hname & _). simpl in Hname. unfold add_pool, AddPool.
  rewrite (bool_decide_true (w_nextPool w1 = w_nextPool w1)), Hname, X5, Hx by done. by case_bool_decide.
Qed.

(** An engine with pools cannot be started again after it has been stopped: the pools of the
    first start are still registered. *)
Theorem restart_fails tls listen tls' listen' g g1 g2
  (Hfresh : fresh_engine g) (Hpools : Pools (e_config g) <> [])
  (H1 : Start e reg tls listen g = (None, g1)) (H2 : g2 = with_state EStopped g1) :
  exists err, fst (Start e reg tls' listen' g2) = Some err.
Proof.
  destruct (start_realizes_config _ _ _ _ Hfresh H1) as [Hreal _].
  destruct (Start_done _ _ _ _ H1) as (_ & _ & _ & Hc & _). subst g2. unfold Start, with_state. cbn [e_state e_config e_world].
  destruct tls' as [msg|]; [by eexists|]. rewrite Hc. destruct (Pools (e_config g)) as [|p ps] eqn:Eps; [done|].
  destruct (Hreal p ltac:(set_solver)) as (q & Hq & _). unfold initializePools. cbn [each_pool].
  set (w1 := mkWorld _ _ _ _ (w_manager (e_world g1)) _).
  assert (Ht : exists err, fst (init_pool e reg p w1) = Some err).
  { unfold init_pool. assert (Hx : is_Some (pools (w_manager w1) !! p_Name p)) by (by exists q).
    destruct (Registry.New e reg (p_Algorithm p)); [by apply fill_pool_taken|].
    destruct (negb _); [by eexists|by apply fill_pool_taken]. }
  destruct Ht as [err Ht]. destruct (init_pool e reg p w1) as [r w2]. simpl in Ht. subst r. by exists err.
Qed.

(** A reload whose shadow targets cannot be attached is reported as failed after the swap:
    the engine then has the new configuration, router and pools, while the proxy still
    serves with the old ones. *)
Theorem failed_reload_leaves_mixture c g r w name
  (Hr : initializeRoutes c NewRouter = (None, r))
  (Hw : each_pool (reload_pool e reg) (Pools c)
          (mkWorld (w_heap (e_world g)) (w_next (e_world g)) (w_pools (e_world g)) (w_nextPool (e_world g))
             NewPoolManager ∅) = (None, w))
  (Hs : exists s, Shadow c = Some s /\ sh_Enabled s = true /\ fst (add_targets w (sh_Targets s) []) = Some (ShadowPoolMissing name)) :
  exists g', applyConfigInternal e reg None c g = (Some (ShadowPoolMissing name), g') /\
    e_config g' = c /\ e_router g' = r /\ e_world g' = w /\ e_proxy g' = e_proxy g.
Proof.
  destruct Hs as (s & Hsh & Hen & Hm). eexists. unfold applyConfigInternal, attachShadowTargets.
  rewrite Hr, Hw, Hsh, Hen. destruct (add_targets w (sh_Targets s) []) as [r0 ts]. cbn [fst] in Hm. subst r0.
  cbn. split_and!; reflexivity.
Qed.
End Theorems.

(** ** Startup succeeds *)

Lemma insertSegments_static {V} segs (node : radixNode V) i v :
  forallb is_static segs = true -> fst (insertSegments node segs i v) = None.
Proof.
  revert node i. induction segs as [|seg segs IH]; intros node i Hs; [done|]. cbn [forallb] in Hs. b2p.
  cbn [insertSegments]. assert (Hk : segment_key seg = (seg, "", false)).
  { unfold is_static in *. b2p. unfold segment_key. by rewrite H, H1. }
  rewrite Hk. assert (Hne : seg <> ":" /\ seg <> "*") by (split; intros ->; done).
  rewrite !bool_decide_false by (by destruct Hne). cbn [orb andb].
  destruct (children node !! seg) as [child|]; destruct segs as [|s' segs]; try done;
    match goal with |- context [insertSegments ?c (s' :: segs) (S i) v] => specialize (IH c (S i) ltac:(done)) end;
    by destruct (insertSegments _ (s' :: segs) (S i) v).
Qed.

Lemma wildcard_inside_static segs : forallb is_static segs = true -> wildcard_inside segs = None.
Proof.
  induction segs as [|seg segs IH]; [done|]. cbn [forallb wildcard_inside]. intros Hs. b2p.
  unfold is_static in *. b2p. rewrite H1. simpl. by apply IH.
Qed.

(** A literal path: it begins with a slash and has no parameters. *)
Definition literal (path : string) : Prop :=
  starts_with "/"%char path = true /\ forallb is_static (splitPath (trim_slash path)) = true.

Lemma Insert_static {V} (root : radixNode V) path v : literal path -> fst (Insert root path v) = None.
Proof.
  intros [Hp Hs]. unfold Insert. rewrite bool_decide_false by (by intros ->).
  unfold insert_path. rewrite Hp, (wildcard_inside_static _ Hs). by apply insertSegments_static.
Qed.

Lemma add_routes_succeeds rs r :
  (forall x, x ∈ rs -> Route_Name x <> "" /\ BackendPool x <> "" /\ literal (Route_Path x)) ->
  NoDup (Route_Name <$> rs) -> (forall x, x ∈ rs -> routesByName r !! Route_Name x = None) ->
  exists r', add_routes rs r = (None, r').
Proof.
  revert r. induction rs as [|x rs IH]; intros r Hok Hnd Hfree; [by exists r|].
  rewrite fmap_cons in Hnd. apply NoDup_cons in Hnd as [Hx Hnd]. cbn [add_routes].
  destruct (Hok x ltac:(set_solver)) as (Hn & Hp & Hl).
  assert (Ha : exists r1, AddRoute r (Some x) = (None, r1) /\ routesByName r1 = <[Route_Name x := x]> (routesByName r)).
  { unfold AddRoute, validate. rewrite !bool_decide_false by (done || (intros E; destruct Hl as [Hl _]; by rewrite E in Hl)).
    destruct Hl as [Hs Hst]. rewrite Hs, (Hfree x) by set_solver.
    destruct (add_to_tables r x) as [res r1] eqn:Et. assert (res = None) as ->.
    { revert Et. rewrite add_to_tables_eq. cbv zeta.
      pose proof (Insert_static (ht_trie (default (newHostTrie (Route_Host x)) (host_trie r (Route_Host x))))
        (Route_Path x) (Route_Path x) (conj Hs Hst)) as Hi.
      destruct (Insert _ _ _) as [[err|] trie]; [done|]. by intros [= <- _]. }
    exists r1. split; [reflexivity|exact (add_to_tables_names _ _ _ Et)]. }
  destruct Ha as (r1 & -> & Hby). apply IH; [by intros y Hy; apply Hok, list_elem_of_further|done|].
  intros y Hy. rewrite Hby, lookup_insert_ne; [apply Hfree; set_solver|].
  intros E. apply Hx. rewrite E. by apply list_elem_of_fmap_2.
Qed.

Lemma backend_id_nonempty i b : backend_id i b <> "".
Proof.
  unfold backend_id. destruct (empty (b_ID b)) eqn:E; [|by apply empty_false].
  destruct (b_Address b); [|done]. rewrite append_nil. done.
Qed.

Section Success.
Context `{!SliceSort ConsistentHash.ringNode ConsistentHash.hash}
        `{!SliceSort RingHash.ringHashNode RingHash.hash} `{MR : !MapRange}.
Context (e : env) (reg : gmap string Factory).

Lemma add_backends_succeeds up hc i bs pool w :
  (forall b, b ∈ bs -> b_Weight b <= MaxInt32) ->
  NoDup (imap (fun k b => backend_id (i + k) b) bs) ->
  (forall k b, bs !! k = Some b -> Backends pool !! backend_id (i + k) b = None) ->
  exists pool' w', add_backends e up hc i bs pool w = (inr pool', w').
Proof.
  revert i pool w. induction bs as [|b bs IH]; intros i pool w Hw Hnd Hfree; [by do 2 eexists|].
  cbn [add_backends]. rewrite (proj2 (Z.ltb_ge _ _)) by (apply Hw; set_solver).
  set (be := if up then _ else _). set (h := heap_set (w_heap w) (w_next w) be).
  assert (Hid : ID (h (w_next w)) = backend_id i b).
  { unfold h, heap_set. rewrite bool_decide_true by done. unfold be. by destruct up, (empty (b_Scheme b)). }
  specialize (Hfree 0%nat b eq_refl) as H0. rewrite Nat.add_0_r in H0.
  unfold AddBackend at 1. rewrite Hid, bool_decide_false, H0 by apply backend_id_nonempty.
  rewrite imap_cons in Hnd. apply NoDup_cons in Hnd as [Hnew Hnd].
  assert (Hext : forall k x, backend_id (S i + k) x = backend_id (i + S k) x)
    by (intros; by rewrite Nat.add_succ_comm).
  apply IH; [set_solver| |].
  - erewrite imap_ext; [exact Hnd|]. intros k x _. apply Hext.
  - intros k x Hk. cbn [Backends]. rewrite Hext, lookup_insert_ne; [by apply (Hfree (S k))|].
    intros E. apply Hnew. rewrite Nat.add_0_r, E. apply list_elem_of_lookup. exists k.
    by rewrite list_lookup_imap, Hk.
Qed.

(** The conditions startup needs beyond validation: known algorithms, distinct backend IDs
    within a pool, weights that fit [int32], distinct listener and path pairs, literal
    paths, and no shadowing. *)
Record startable (c : Config) : Prop := {
  st_valid : valid c;
  st_algorithms : forall p, p ∈ Pools c -> p_Algorithm p = "" \/ is_Some (reg !! p_Algorithm p);
  st_ids : forall p, p ∈ Pools c -> NoDup (imap backend_id (p_Backends p));
  st_weights : forall p b, p ∈ Pools c -> b ∈ p_Backends p -> b_Weight b <= MaxInt32;
  st_routes : NoDup (Route_Name <$> routes_of c);
  st_paths : forall l r, l ∈ Listeners c -> r ∈ l_Routes l -> literal (r_Path r);
  st_shadow : Shadow c = None
}.

Lemma fill_pool_succeeds hc p bal w :
  p_Name p <> "" -> pools (w_manager w) !! p_Name p = None -> NoDup (imap backend_id (p_Backends p)) ->
  (forall b, b ∈ p_Backends p -> b_Weight b <= MaxInt32) -> exists w', fill_pool e true hc p bal w = (None, w').
Proof.
  intros Hn Hfree Hids Hw. unfold fill_pool.
  destruct (add_backends_succeeds true hc 0 (p_Backends p) (SetBalancer bal (NewPool (p_Name p) (p_Algorithm p))) w)
    as (pool & w1 & E); [done|done|by intros; apply lookup_empty|]. rewrite E.
  destruct (add_backends_ok _ _ _ _ _ _ _ _ _ (new_pool_ok (new_state true) w bal (p_Name p) (p_Algorithm p)) E)
    as ([_ _ _ _ X5] & _ & Hname & _). simpl in Hname. unfold add_pool, AddPool.
  rewrite (bool_decide_true (w_nextPool w1 = w_nextPool w1)), Hname, X5, Hfree by done.
  rewrite bool_decide_false by done. by eexists.
Qed.

Lemma initializePools_succeeds ps w :
  NoDup (p_Name <$> ps) -> "" ∉ p_Name <$> ps -> (forall p, p ∈ ps -> pools (w_manager w) !! p_Name p = None) ->
  (forall p, p ∈ ps -> p_Algorithm p = "" \/ is_Some (reg !! p_Algorithm p)) ->
  (forall p, p ∈ ps -> NoDup (imap backend_id (p_Backends p))) ->
  (forall p b, p ∈ ps -> b ∈ p_Backends p -> b_Weight b <= MaxInt32) ->
  exists w', initializePools e reg ps w = (None, w').
Proof.
  revert w. induction ps as [|p ps IH]; intros w Hnd Hne Hfree Halg Hids Hw; [by eexists|].
  rewrite fmap_cons in *. apply NoDup_cons in Hnd as [Hp Hnd]. unfold initializePools. cbn [each_pool].
  assert (Hfill : forall hc bal, exists w1, fill_pool e true hc p bal w = (None, w1)).
  { intros hc bal. apply fill_pool_succeeds; [set_solver|apply Hfree; set_solver|apply Hids; set_solver|].
    intros b Hb. apply (Hw p); [set_solver|done]. }
  assert (Hinit : exists w1, init_pool e reg p w = (None, w1)).
  { unfold init_pool, Registry.New, Get. destruct (Halg p ltac:(set_solver)) as [Ha|[f Ha]].
    - rewrite Ha. destruct (reg !! ""); simpl; apply Hfill.
    - rewrite Ha. simpl. apply Hfill. }
  destruct Hinit as [w1 E]. rewrite E. destruct (init_pool_fill e reg p w w1 E) as (hc & bal & Ef).
  apply fill_pool_spec in Ef as (_ & _ & Hm). apply IH;
    [done|set_solver| |by intros x Hx; apply Halg, list_elem_of_further|by intros x Hx; apply Hids, list_elem_of_further|].
  - intros x Hx. rewrite Hm, lookup_insert_ne; [apply Hfree; set_solver|].
    intros Ex. apply Hp. rewrite Ex. by apply list_elem_of_fmap_2.
  - intros x b Hx Hb. apply (Hw x); [set_solver|done].
Qed.

End Success.

(** ** A health check without a type *)

Lemma run_check_untyped t id b h c p config s ok n r :
  c !! id = Some (mkState p config s ok n r) -> known_type config = false ->
  run_check t id b h c =
  let '(h', st') := performCheck t false h (mkState p config s ok n r) in (h', <[id := st']> c).
Proof. intros E Hk. unfold run_check. by rewrite E; cbn [cs_config]; rewrite Hk. Qed.

Lemma performCheck_below t h p config n r :
  n + 1 < UnhealthyThreshold config -> i64 (n + 1) = n + 1 ->
  performCheck t false h (mkState p config StatusUnknown 0 n r) =
  (heap_set h p (RecordHealthCheck t false (h p)), mkState p config StatusUnknown 0 (n + 1) (Some false)).
Proof.
  intros Hn Hi. unfold performCheck. cbn [cs_config cs_backend status consecutiveFail].
  rewrite Hi, (proj2 (Z.leb_gt _ _)) by lia. by rewrite andb_false_r.
Qed.

Lemma performCheck_reaches t h p config n r :
  n + 1 = UnhealthyThreshold config -> i64 (n + 1) = n + 1 -> state (h p) = StateUp ->
  performCheck t false h (mkState p config StatusUnknown 0 n r) =
  (heap_set h p (RecordHealthCheck t false (TransitionState StateDown (h p)).2),
   mkState p config StatusUnhealthy 0 (n + 1) (Some false)).
Proof.
  intros Hn Hi Hup. unfold performCheck. cbn [cs_config cs_backend status consecutiveFail].
  rewrite Hi, (proj2 (Z.leb_le _ _)) by lia. by rewrite Hup.
Qed.

Lemma GetStatus_insert id st (c : Checker) : GetStatus id (<[id := st]> c) = status st.
Proof. unfold GetStatus. by rewrite (lookup_insert_eq (M := gmap string) c id st). Qed.

(** A health check that leaves its type out passes validation, but no probe of it ever
    succeeds: whatever the backend answers, three checks take a backend that was up down. *)
Theorem untyped_check_fails hc h c id p probes t1 t2 t3
  (Htype : hc_Type hc = "") (Hthr : hc_UnhealthyThreshold hc <= 0)
  (Hc : c !! id = Some (mkState p (check_of hc) StatusUnknown 0 0 None)) (Hup : state (h p) = StateUp) :
  let '(b1, b2, b3) := probes in
  let '(h1, c1) := run_check t1 id b1 h c in
  let '(h2, c2) := run_check t2 id b2 h1 c1 in
  let '(h3, c3) := run_check t3 id b3 h2 c2 in
  state (h3 p) = StateDown /\ GetStatus id c3 = StatusUnhealthy.
Proof.
  destruct probes as [[b1 b2] b3].
  assert (Hk : known_type (check_of hc) = false) by (unfold known_type, check_of; cbn; by rewrite Htype).
  assert (Ht : UnhealthyThreshold (check_of hc) = 3) by (unfold check_of; cbn; by rewrite (proj2 (Z.ltb_ge _ _))).
  rewrite (run_check_untyped _ _ _ _ _ _ _ _ _ _ _ Hc Hk), performCheck_below by (done || lia).
  rewrite (run_check_untyped _ _ _ _ _ _ _ _ _ _ _ (lookup_insert_eq _ _ _) Hk), performCheck_below by (done || lia).
  rewrite (run_check_untyped _ _ _ _ _ _ _ _ _ _ _ (lookup_insert_eq _ _ _) Hk).
  rewrite performCheck_reaches by (done || (rewrite !heap_set_eq; done) || lia).
  cbv beta iota. rewrite GetStatus_insert, !heap_set_eq. split; [|done].
  unfold TransitionState. change (state (RecordHealthCheck t2 _ _)) with (state (h p)). by rewrite Hup.
Qed.

(** ** Overlapping reload and shutdown *)

(** A reload that is under way when the engine is shut down marks it as running again after
    the shutdown has closed the listeners and finished. *)
Theorem reload_revives_stopped_engine :
  rtc life_step (mkLife ERunning false false false) (mkLife ERunning false false true).
Proof.
  eapply rtc_l; [apply life_reload_begin|]. eapply rtc_l; [apply life_shutdown_begin; by right|].
  eapply rtc_l; [apply life_shutdown_close|]. eapply rtc_l; [apply life_shutdown_end|].
  eapply rtc_l; [apply life_reload_end|]. done.
Qed.

(** ** Examples *)

Section Examples.
#[local] Existing Instance gmap_range.
#[local] Instance demo_ring_sort : SliceSort ConsistentHash.ringNode ConsistentHash.hash := merge_slice_sort ConsistentHash.hash.
#[local] Instance demo_ring_hash_sort : SliceSort RingHash.ringHashNode RingHash.hash := merge_slice_sort RingHash.hash.

Definition demo_reg : gmap string Factory := {["round_robin" := fun _ => BRoundRobin RoundRobin.NewRoundRobin]}.

Definition demo_pool_config : PoolConfig :=
  mkPoolConfig "web" "round_robin" (Some DefaultHealthCheck)
    [mkBackendConfig "" "10.0.0.1:80" 1 ""; mkBackendConfig "b" "10.0.0.2:80" 2 "https"] None.

Definition demo_route (path host : string) : RouteConfig := mkRouteConfig "" path host [] "web" 0.

Definition demo_config_with (rs : list RouteConfig) (ps : list PoolConfig) (sh : option ShadowConfig) : Config :=
  mkConfig "1" [mkListener "http" ":8080" "http" None rs None ""] ps None None None None None None None None None sh None.

Definition demo_config : Config := demo_config_with [demo_route "/api" ""] [demo_pool_config] None.

Definition demo_world : world :=
  mkWorld (fun _ => NewBackend "" "") 0 (fun _ => NewPool "" "") 0 NewPoolManager ∅.

Definition demo_engine (c : Config) : engine :=
  mkEngine c EStopped NewRouter demo_world (mkProxy NewRouter NewPoolManager []) (mkRollback None 0 0 TimerNil TimerNil 0).

Definition demo_started : engine := snd (Start demo_env demo_reg None None (demo_engine demo_config)).

Lemma demo_valid : valid demo_config.
Proof. apply Validate_valid. vm_compute. reflexivity. Qed.

Lemma demo_fresh c : fresh_engine (demo_engine c).
Proof. done. Qed.

Lemma demo_starts : Start demo_env demo_reg None None (demo_engine demo_config) = (None, demo_started).
Proof. vm_compute. reflexivity. Qed.

Lemma start_realizes_config_witness :
  (forall p, p ∈ Pools demo_config -> realizes StateUp (e_world demo_started) p) /\
  (forall name, is_Some (GetPool (px_manager (e_proxy demo_started)) name) <-> name ∈ p_Name <$> Pools demo_config).
Proof. apply (start_realizes_config demo_env demo_reg None None _ _ (demo_fresh demo_config)), demo_starts. Defined.

Definition demo_request : Request := mkRequest "GET" "example.com" "" "/api" ∅ [] [].

Lemma started_engine_serves_witness :
  exists m q, Router_Match (px_router (e_proxy demo_started)) demo_request = Some m /\
    GetPool (px_manager (e_proxy demo_started)) (BackendPool (rm_Route m)) = Some q.
Proof.
  destruct (Router_Match (px_router (e_proxy demo_started)) demo_request) as [m|] eqn:Em; [|by vm_compute in Em].
  destruct (started_engine_serves demo_env demo_reg None None _ demo_started demo_request m demo_env (demo_fresh demo_config)
    demo_valid demo_starts Em) as (_ & q & _ & _ & Hq & _).
  by exists m, q.
Defined.

Definition demo_reloaded : engine := snd (applyConfigInternal demo_env demo_reg None demo_config demo_started).

Lemma reload_serves_nothing_at_first_witness :
  NextBackend (H := any_balancer demo_env) (w_heap (e_world demo_started)) false (w_pools (e_world demo_started) 0%nat) <>
    (inl (WithContext ErrPoolEmpty "pool" "web"), w_pools (e_world demo_started) 0%nat) /\
  NextBackend (H := any_balancer demo_env) (w_heap (e_world demo_reloaded)) false (w_pools (e_world demo_reloaded) 1%nat) =
    (inl (WithContext ErrPoolEmpty "pool" "web"), w_pools (e_world demo_reloaded) 1%nat).
Proof.
  split; [vm_compute; done|].
  apply (reload_serves_nothing_at_first demo_env demo_reg None demo_config demo_started demo_reloaded);
    vm_compute; reflexivity.
Defined.

(** Two hosts with the same path: accepted by the validation, refused by the engine. *)
Definition two_hosts : Config :=
  demo_config_with [demo_route "/" "a.example.com"; demo_route "/" "b.example.com"] [demo_pool_config] None.

Lemma same_path_routes_refused_witness :
  fst (Validate two_hosts) = None /\ forall r, initializeRoutes two_hosts NewRouter <> (None, r).
Proof.
  split; [vm_compute; reflexivity|]. intros r.
  apply (same_path_routes_refused two_hosts NewRouter r
    (mkListener "http" ":8080" "http" None [demo_route "/" "a.example.com"; demo_route "/" "b.example.com"] None "")
    (demo_route "/" "a.example.com") (demo_route "/" "b.example.com")).
  - apply list_elem_of_here.
  - exists 0%nat, 1%nat. split; [lia|split; reflexivity].
  - reflexivity.
Defined.

Lemma restart_fails_witness :
  exists err, fst (Start demo_env demo_reg None None (with_state EStopped demo_started)) = Some err.
Proof.
  apply (restart_fails demo_env demo_reg None None None None (demo_engine demo_config) demo_started);
    [apply demo_fresh|discriminate|apply demo_starts|reflexivity].
Defined.

(** Shadowing to a pool that does not exist: accepted by the validation. *)
Definition lost_shadow : Config :=
  demo_config_with [demo_route "/api" ""] [demo_pool_config]
    (Some (mkShadow true [mkShadowTarget "lost" (f64_of_Z 10)] "")).

Lemma failed_reload_leaves_mixture_witness :
  fst (Validate lost_shadow) = None /\
  exists g', applyConfigInternal demo_env demo_reg None lost_shadow demo_started = (Some (ShadowPoolMissing "lost"), g') /\
    e_config g' = lost_shadow /\ e_proxy g' = e_proxy demo_started.
Proof.
  split; [vm_compute; reflexivity|].
  destruct (failed_reload_leaves_mixture demo_env demo_reg lost_shadow demo_started
    (snd (initializeRoutes lost_shadow NewRouter))
    (snd (each_pool (reload_pool demo_env demo_reg) (Pools lost_shadow)
          (mkWorld (w_heap (e_world demo_started)) (w_next (e_world demo_started)) (w_pools (e_world demo_started))
             (w_nextPool (e_world demo_started)) NewPoolManager ∅))) "lost") as (g' & H1 & H2 & _ & _ & H3).
  - vm_compute. reflexivity.
  - vm_compute. reflexivity.
  - eexists. split; [reflexivity|]. split; vm_compute; reflexivity.
  - by exists g'.
Defined.


(** A health check that gives only a path. *)
Definition path_only : HealthCheck := mkHealthCheck "" "/health" "" "" "" [] false 0 0.

Example untyped_check_validates :
  fst (Validate (demo_config_with [demo_route "/api" ""]
    [mkPoolConfig "web" "round_robin" (Some path_only) [mkBackendConfig "b" "10.0.0.2:80" 1 ""] None] None)) = None.
Proof. vm_compute. reflexivity. Qed.

Lemma untyped_check_fails_witness :
  let h := fun _ : ptr => SetState StateUp (NewBackend "b" "10.0.0.2:80") in
  let c := {["b" := mkState 0%nat (check_of path_only) StatusUnknown 0 0 None]} : Checker in
  let '(h1, c1) := run_check 1 "b" true h c in
  let '(h2, c2) := run_check 2 "b" true h1 c1 in
  let '(h3, c3) := run_check 3 "b" true h2 c2 in
  state (h3 0%nat) = StateDown /\ GetStatus "b" c3 = StatusUnhealthy.
Proof.
  apply (untyped_check_fails path_only _ _ "b" 0%nat (true, true, true) 1 2 3); [reflexivity|cbn; lia|reflexivity..].
Defined.
End Examples.
