(* ===== verification/EngineRollback.v ===== *)
(** * The grace period after a reload

    What the rollback of [internal/engine/config.go] does when the health checks of the new
    configuration are slower than its timers. *)
From S2P Require Import Prelude GoFloat Errors Http NetIP NetAddr GoTime Bytes GoHash Backend BackendPool.
From S2P Require Import Balancers BalancersFacts HashRing HashRingFacts Latency Registry Radix Router.
From S2P Require Import Health Config ConfigFacts Engine EngineFacts.

(** ** Health checks of a world *)

(** One check: when it ran, the backend, and what the probe said. *)
Definition check_event : Type := Z * string * bool.

Definition health_check (w : world) (ev : check_event) : world :=
  let '(now, id, probe) := ev in
  let '(h, c) := run_check now id probe (w_heap w) (w_checker w) in
  mkWorld h (w_next w) (w_pools w) (w_nextPool w) (w_manager w) c.

Definition health_checks (evs : list check_event) (w : world) : world := fold_left health_check evs w.

(** No result yet, and more than one success is needed. *)
Definition unproven (st : checkState) : Prop :=
  status st = StatusUnknown /\ consecutiveOK st = 0 /\ 2 <= HealthyThreshold (cs_config st).

Lemma performCheck_unproven now r h st h' st' b :
  unproven st -> performCheck now r h st = (h', st') -> IsAvailable (h' b) = true -> IsAvailable (h b) = true.
Proof.
  intros (Hs & Hok & Hthr). unfold performCheck. rewrite Hs, Hok.
  destruct r; cbn [negb bool_decide andb].
  - rewrite (proj2 (Z.leb_gt _ _)) by (change (i64 (0 + 1)) with 1; lia). rewrite andb_false_r.
    intros [= <- _]. unfold heap_set. case_bool_decide as E; [subst|done]. by cbn.
  - destruct (_ && _); intros [= <- _]; unfold heap_set; (case_bool_decide as E; [subst|done]); [|by cbn].
    destruct (CanTransitionTo _ _) eqn:Et; [|by cbn].
    unfold TransitionState, Transition. rewrite Et. unfold CompareAndSwap. by rewrite bool_decide_true.
Qed.

Lemma health_checks_frame evs w :
  w_pools (health_checks evs w) = w_pools w /\ w_manager (health_checks evs w) = w_manager w.
Proof.
  unfold health_checks. revert w. induction evs as [|[[now id] r] evs IH]; intros w; [done|]. cbn [fold_left].
  destruct (IH (health_check w (now, id, r))) as [-> ->]. unfold health_check.
  by destruct (run_check now id r (w_heap w) (w_checker w)).
Qed.

(** One check of each backend makes none of them available. *)
Lemma health_checks_unproven evs w b :
  NoDup ((fun ev : check_event => ev.1.2) <$> evs) ->
  (forall id st, w_checker w !! id = Some st -> id ∈ (fun ev : check_event => ev.1.2) <$> evs -> unproven st) ->
  IsAvailable (w_heap (health_checks evs w) b) = true -> IsAvailable (w_heap w b) = true.
Proof.
  unfold health_checks. revert w. induction evs as [|[[now id] r] evs IH]; intros w Hnd Hun; [done|].
  rewrite fmap_cons in Hnd, Hun. apply NoDup_cons in Hnd as [Hnew Hnd]. cbn [fold_left]. intros Hav.
  assert (Hstep : IsAvailable (w_heap (health_check w (now, id, r)) b) = true -> IsAvailable (w_heap w b) = true).
  { unfold health_check, run_check. destruct (w_checker w !! id) as [st|] eqn:E; [|done].
    destruct (performCheck now _ (w_heap w) st) as [h' st'] eqn:Ep. cbn [w_heap].
    eapply performCheck_unproven; [|exact Ep]. apply (Hun id); [done|set_solver]. }
  apply Hstep, IH; [done| |done]. intros id' st' Hl Hin. apply (Hun id' st'); [|set_solver].
  assert (Hne : id <> id') by (intros ->; done). revert Hl. unfold health_check, run_check.
  destruct (w_checker w !! id) as [st|]; [|done]. destruct (performCheck _ _ _ _) as [h1 st1]. cbn [w_checker].
  intros Hl. by rewrite (lookup_insert_ne (M := gmap string) (w_checker w) id id' st1 Hne) in Hl.
Qed.

(** ** The checks of a reloaded configuration *)

Definition all_unproven (w : world) : Prop := forall id st, w_checker w !! id = Some st -> unproven st.

(** The configured threshold is not 1: left out, it is 2. *)
Definition patient (hc : HealthCheck) : Prop := hc_HealthyThreshold hc <> 1.

Lemma check_of_patient hc : patient hc -> 2 <= HealthyThreshold (check_of hc).
Proof. unfold patient, check_of. cbn. destruct (Z.ltb_spec 0 (hc_HealthyThreshold hc)); lia. Qed.

Section Rollback.
Context `{!SliceSort ConsistentHash.ringNode ConsistentHash.hash}
        `{!SliceSort RingHash.ringHashNode RingHash.hash} `{MR : !MapRange}.
Context (e : env) (reg : gmap string Factory).

Lemma add_backends_unproven up hc i bs pool w r w' :
  patient hc -> all_unproven w -> add_backends e up hc i bs pool w = (r, w') -> all_unproven w'.
Proof.
  intros Hhc. revert i pool w. induction bs as [|b bs IH]; intros i pool w Hw; cbn [add_backends];
    [by intros [= _ <-]|]. case_match; [by intros [= _ <-]|].
  set (h := heap_set _ _ _). destruct (AddBackend h pool _) as [err|pool1]; [by intros [= _ <-]|].
  apply IH. unfold all_unproven. cbn [w_checker]. unfold Register. cbn [default].
  destruct (w_checker w !! ID (h (w_next w))) as [st|] eqn:El; [done|].
  intros id st. destruct (decide (ID (h (w_next w)) = id)) as [<-|Hne].
  - rewrite (lookup_insert_eq (M := gmap string) (w_checker w)). intros [= <-]. split_and!; [done|done|]. by apply check_of_patient.
  - rewrite (lookup_insert_ne (M := gmap string) (w_checker w)) by done. apply Hw.
Qed.

Lemma fill_pool_unproven up hc p bal w r w' :
  patient hc -> all_unproven w -> fill_pool e up hc p bal w = (r, w') -> all_unproven w'.
Proof.
  intros Hhc Hw. unfold fill_pool. destruct (add_backends _ _ _ _ _ _ _) as [[err|pool] w1] eqn:Ea.
  - intros [= _ <-]. by eapply add_backends_unproven.
  - pose proof (add_backends_unproven _ _ _ _ _ _ _ _ Hhc Hw Ea) as H1. unfold add_pool.
    destruct (AddPool _ _ _); by intros [= _ <-].
Qed.

Lemma reload_unproven ps w w' :
  (forall p hc, p ∈ ps -> p_HealthCheck p = Some hc -> patient hc) -> all_unproven w ->
  each_pool (reload_pool e reg) ps w = (None, w') -> all_unproven w'.
Proof.
  revert w. induction ps as [|p ps IH]; intros w Hps Hw; cbn [each_pool]; [by intros [= <-]|].
  destruct (reload_pool e reg p w) as [[err|] w1] eqn:Er; [done|]. apply IH.
  { intros q hc Hq. apply Hps. set_solver. }
  revert Er. unfold reload_pool. destruct (p_HealthCheck p) as [hc|] eqn:Ehc.
  - apply fill_pool_unproven; [|done]. apply (Hps p); [set_solver|done].
  - destruct (p_Backends p); [by apply fill_pool_unproven|by case_match].
Qed.

(** Every pool of the manager is empty when its backends are unavailable. *)
Lemma emptyPools_all w :
  (forall name q, pools (w_manager w) !! name = Some q -> GetHealthyBackends (w_heap w) (w_pools w q) = []) ->
  Z.of_nat (length (emptyPools w)) = PoolCount (w_manager w).
Proof.
  intros Hall. unfold emptyPools, PoolCount. rewrite <- length_map_to_list. f_equal.
  assert (Hf : forall kv, kv ∈ map_to_list (pools (w_manager w)) -> GetHealthyBackends (w_heap w) (w_pools w kv.2) = []).
  { intros [name q] Hin. apply (Hall name), elem_of_map_to_list, Hin. }
  revert Hf. generalize (map_to_list (pools (w_manager w))). intros l.
  induction l as [|x l IH]; intros Hf; [done|]. cbn [List.filter length]. rewrite (Hf x) by set_solver.
  cbn [length]. by rewrite IH by set_solver.
Qed.

Lemma GetHealthyBackends_none h (p : Pool AnyBalancer) :
  (forall b, b ∈ order p -> IsAvailable (h b) <> true) -> GetHealthyBackends h p = [].
Proof.
  intros H. destruct (GetHealthyBackends h p) as [|x l] eqn:E; [done|].
  assert (Hx : x ∈ GetHealthyBackends h p) by (rewrite E; set_solver).
  apply GetHealthyBackends_in in Hx as [Hin Ha]. by destruct (H x Hin).
Qed.

(** After a reload, while every backend has been checked at most once, all pools are empty. *)
Lemma reloaded_pools_empty chain c g g' evs name q :
  applyConfigInternal e reg chain c g = (None, g') ->
  (forall p hc, p ∈ Pools c -> p_HealthCheck p = Some hc -> patient hc) ->
  NoDup ((fun ev : check_event => ev.1.2) <$> evs) ->
  let w := health_checks evs (e_world g') in
  pools (w_manager w) !! name = Some q -> GetHealthyBackends (w_heap w) (w_pools w q) = [].
Proof.
  intros Ha Hp Hnd w Hq. destruct (health_checks_frame evs (e_world g')) as [Ew Em].
  unfold w in *. rewrite Ew. rewrite Em in Hq.
  destruct (reload_pools_starting e reg _ _ _ _ _ _ Ha Hq) as (_ & _ & Hok).
  destruct (applyConfig_done e reg _ _ _ _ Ha) as ((w1 & Hc & _ & Hw) & _).
  apply GetHealthyBackends_none. intros b Hb Hav.
  apply health_checks_unproven in Hav; [| done |].
  - destruct (po_backends _ _ _ Hok b Hb) as [_ Hs]. unfold IsAvailable, State_IsAvailable in Hav. b2p. congruence.
  - intros id st Hl _. revert id st Hl. apply (reload_unproven _ w1 _ Hp); [|exact Hw].
    intros id st. rewrite Hc. intros Hl. by apply (lookup_empty_Some (M := gmap string) id st) in Hl.
Qed.

(** What a successful [applyConfig] leaves for the timers. *)
Lemma applyConfig_timers now chain c g g' :
  applyConfig e reg now chain c g = (None, g') ->
  exists prev g0, applyConfigInternal e reg chain c g0 = (None, with_rollback (e_rollback g0) g') /\
    e_rollback g' = mkRollback (Some prev) now 0 TimerCounting TimerCounting (reloadCount (e_rollback g)) /\
    (prevConfig (e_rollback g) = None -> prev = e_config g).
Proof.
  unfold applyConfig. destruct (match prevConfig (e_rollback g) with Some _ => _ | None => _ end) as [ow t2] eqn:Et.
  set (prev := if ow then _ else _). set (g0 := with_rollback _ g).
  destruct (applyConfigInternal e reg chain c g0) as [[err|] g1] eqn:Ea; [done|]. intros [= <-].
  assert (Hrb : e_rollback g1 = e_rollback g0).
  { revert Ea. unfold applyConfigInternal. repeat case_match; try done; by intros [= <-]. }
  assert (Hprev : exists c0, prev = Some c0 /\ (prevConfig (e_rollback g) = None -> c0 = e_config g)).
  { unfold prev. destruct ow; [by exists (e_config g)|].
    destruct (prevConfig (e_rollback g)) as [c0|]; [by exists c0|done]. }
  destruct Hprev as (c0 & Hc0 & Hnone). exists c0, g0. split_and!; [|cbn; by rewrite Hrb, <- Hc0|done].
  rewrite Ea. f_equal. destruct g1. cbn in *. by rewrite Hrb.
Qed.

Lemma checkAndRollback_empty now chain g prev :
  prevConfig (e_rollback g) = Some prev -> now - reloadTimestamp (e_rollback g) <= 60000000000 ->
  pools (w_manager (e_world g)) <> ∅ ->
  (forall name q, pools (w_manager (e_world g)) !! name = Some q ->
    GetHealthyBackends (w_heap (e_world g)) (w_pools (e_world g) q) = []) ->
  checkAndRollback e reg now chain g = snd (rollbackConfig e reg chain prev g).
Proof.
  intros Hp Ht Hne Hall. unfold checkAndRollback. rewrite Hp, (proj2 (Z.ltb_ge _ _)) by lia.
  rewrite (emptyPools_all _ Hall).
  assert (Hpos : 0 < PoolCount (w_manager (e_world g))).
  { unfold PoolCount. rewrite <- (map_size_empty_iff (pools (w_manager (e_world g)))) in Hne. lia. }
  rewrite (proj2 (Z.eqb_neq _ _)) by lia. rewrite (proj2 (Z.ltb_lt _ _)) by (apply Z.div_lt_upper_bound; lia).
  by rewrite (proj2 (Z.ltb_lt 0 _)) by lia.
Qed.

(** A reload is undone by its own grace period when the checks are slow: if every health
    check needs two successes and no backend has been checked a second time when the
    timer fires, then the engine goes back to the configuration it had before, even though
    no check has failed.  The pools it goes back to serve nothing either. *)
Theorem slow_checks_roll_back now later chain chain' c g g1 evs
  (Ha : applyConfig e reg now chain c g = (None, g1)) (Hpools : Pools c <> [])
  (Hpatient : forall p hc, p ∈ Pools c -> p_HealthCheck p = Some hc -> patient hc)
  (Honce : NoDup ((fun ev : check_event => ev.1.2) <$> evs))
  (Hlater : later - now <= 60000000000) (Hprev : prevConfig (e_rollback g) = None) :
  let checked := mkEngine (e_config g1) (e_state g1) (e_router g1) (health_checks evs (e_world g1)) (e_proxy g1)
                   (e_rollback g1) in
  let expired := with_rollback (mkRollback (Some (e_config g)) now 0 TimerDone TimerCounting
                                  (reloadCount (e_rollback g))) checked in
  let g2 := fire_check e reg later chain' checked in
  g2 = snd (rollbackConfig e reg chain' (e_config g) expired) /\
  (fst (rollbackConfig e reg chain' (e_config g) expired) = None ->
    e_config g2 = e_config g /\
    forall name q, pools (w_manager (e_world g2)) !! name = Some q ->
      GetHealthyBackends (w_heap (e_world g2)) (w_pools (e_world g2) q) = []).
Proof.
  destruct (applyConfig_timers _ _ _ _ _ Ha) as (prev & g0 & Hi & Hrb & Hp). rewrite (Hp Hprev) in Hrb. clear Hp prev.
  intros checked expired g2.
  assert (E : g2 = snd (rollbackConfig e reg chain' (e_config g) expired)).
  { unfold g2, fire_check. replace (e_rollback checked) with (e_rollback g1) by done. rewrite Hrb.
    cbn [rollbackTimer prevConfig reloadTimestamp errorCount rollbackTimer2 reloadCount].
    apply checkAndRollback_empty; [done|cbn; lia| |].
    - change (pools (w_manager (health_checks evs (e_world g1))) <> ∅). rewrite (proj2 (health_checks_frame evs (e_world g1))).
      exact (reload_has_pools e reg _ _ _ _ Hi Hpools).
    - intros name q. apply (reloaded_pools_empty chain c g0 _ evs name q Hi Hpatient Honce). }
  split; [exact E|]. rewrite E. unfold rollbackConfig.
  destruct (applyConfigInternal e reg chain' (e_config g) expired) as [r g3] eqn:E3. cbn [fst snd]. intros ->.
  destruct (applyConfig_done e reg _ _ _ _ E3) as (_ & _ & Hc & _). split; [done|].
  intros name q Hq. destruct (reload_pools_starting e reg _ _ _ _ _ _ E3 Hq) as (_ & _ & Hok). by apply healthy_none.
Qed.
End Rollback.

(** ** Example *)

Section Example.
#[local] Existing Instance gmap_range.
#[local] Existing Instances demo_ring_sort demo_ring_hash_sort.

(** The demo configuration with an interval the checks of which take longer than the timer. *)
Definition slow_pool : PoolConfig :=
  mkPoolConfig "web" "round_robin" (Some (mkHealthCheck "http" "/health" "30s" "5s" "" [] false 0 0))
    [mkBackendConfig "a" "10.0.0.1:80" 1 ""; mkBackendConfig "b" "10.0.0.2:80" 2 ""] None.

Definition slow_config : Config := demo_config_with [demo_route "/api" ""] [slow_pool] None.

Definition slow_reloaded : engine := snd (applyConfig demo_env demo_reg 0 None slow_config demo_started).

(** Both backends answer their first check. *)
Definition first_checks : list check_event := [(1, "a", true); (2, "b", true)].

Lemma slow_checks_roll_back_witness :
  let checked := mkEngine (e_config slow_reloaded) (e_state slow_reloaded) (e_router slow_reloaded)
                   (health_checks first_checks (e_world slow_reloaded)) (e_proxy slow_reloaded) (e_rollback slow_reloaded) in
  fst (Validate slow_config) = None /\ e_config checked = slow_config /\
  e_config (fire_check demo_env demo_reg 15000000000 None checked) = demo_config.
Proof.
  cbv zeta. split; [vm_compute; reflexivity|]. split; [vm_compute; reflexivity|].
  apply (slow_checks_roll_back demo_env demo_reg 0 15000000000 None None slow_config demo_started slow_reloaded
    first_checks).
  - vm_compute. reflexivity.
  - discriminate.
  - intros p hc Hp Hhc. apply list_elem_of_singleton in Hp as ->. injection Hhc as <-. discriminate.
  - apply (bool_decide_unpack _). vm_compute. done.
  - lia.
  - vm_compute. reflexivity.
  - vm_compute. reflexivity.
Defined.
End Example.
