(* ===== verification/GossipEncoding.v ===== *)
(** * Gossip messages: [internal/cluster/gossip_encoding.go]

    The binary format of the membership protocol: the framing of messages, the
    payload of every message type, compound messages, and their decoders.  Strings
    are encoded by writing into a buffer of the computed size, as the code does. *)
From S2P Require Import Prelude Http Bytes.

(** [type MessageType uint8]. *)
Definition MsgPing : Z := 1.
Definition MsgAck : Z := 2.
Definition MsgPingReq : Z := 3.
Definition MsgSuspect : Z := 4.
Definition MsgAlive : Z := 5.
Definition MsgDead : Z := 6.
Definition MsgJoin : Z := 7.
Definition MsgLeave : Z := 8.
Definition MsgCompound : Z := 9.

Definition MessageType_String (m : Z) : string :=
  if m =? MsgPing then "PING"
  else if m =? MsgAck then "ACK"
  else if m =? MsgPingReq then "PING_REQ"
  else if m =? MsgSuspect then "SUSPECT"
  else if m =? MsgAlive then "ALIVE"
  else if m =? MsgDead then "DEAD"
  else if m =? MsgJoin then "JOIN"
  else if m =? MsgLeave then "LEAVE"
  else if m =? MsgCompound then "COMPOUND"
  else "UNKNOWN".

(** ** Framing *)

Definition encodeUint16Length (length : Z) (e : string) : go unit :=
  check (65535 <? length) e (Ok tt).

Definition encodeMessage (msgType : Z) (payload : list Z) : go (list Z) :=
  let* _ := encodeUint16Length (len payload) "gossip: message payload too large: %w" in
  let buf := replicate (3 + length payload) 0 in
  let* buf := write_at buf 0 [u8 msgType] in
  let* buf := write_at buf 1 (PutUint16 (u16 (len payload))) in
  write_at buf 3 payload.

(** [length] is a [uint16], so [3+length] wraps around. *)
Definition decodeMessage (data : list Z) : go (Z * list Z * list Z) :=
  check (len data <? 3) "gossip: message too short: %d bytes" (
  let* msgType := index data 0 in
  let* hdr := slice data 1 3 in
  let* length := Uint16 hdr in
  check (len data - 3 <? length) "gossip: message payload truncated: want %d, have %d" (
  let* payload := slice data 3 (u16 (3 + length)) in
  let* remaining := slice_from data (u16 (3 + length)) in
  Ok (msgType, payload, remaining))).

(** ** PING and PING_REQ *)

(** The body that [encodePing] and [encodePingReq] share. *)
Definition encode_probe (msgType seqNo : Z) (senderID targetID : string)
    (es et : string) : go (list Z) :=
  let* _ := encodeUint16Length (slen senderID) es in
  let* _ := encodeUint16Length (slen targetID) et in
  let payload := replicate (4 + (2 + (String.length senderID + (2 + String.length targetID)))) 0 in
  let* payload := write_at payload 0 (PutUint32 seqNo) in
  let* payload := write_at payload 4 (PutUint16 (u16 (slen senderID))) in
  let* payload := write_at payload 6 (bytes_of senderID) in
  let off := 6 + slen senderID in
  let* payload := write_at payload off (PutUint16 (u16 (slen targetID))) in
  let* payload := write_at payload (off + 2) (bytes_of targetID) in
  encodeMessage msgType payload.

Definition encodePing (seqNo : Z) (senderID targetID : string) : go (list Z) :=
  encode_probe MsgPing seqNo senderID targetID
    "gossip: ping senderID: %w" "gossip: ping targetID: %w".

Definition encodePingReq (seqNo : Z) (senderID targetID : string) : go (list Z) :=
  encode_probe MsgPingReq seqNo senderID targetID
    "gossip: ping_req senderID: %w" "gossip: ping_req targetID: %w".

(** [payload\[6 : 6+senderLen\]] is computed in [uint16], the later offsets in [int]. *)
Definition decodePing (payload : list Z) : go (Z * string * string) :=
  check (len payload <? 8) "gossip: ping payload too short" (
  let* b := slice payload 0 4 in
  let* seqNo := Uint32 b in
  let* b := slice payload 4 6 in
  let* senderLen := Uint16 b in
  check (len payload <? 6 + senderLen + 2) "gossip: ping payload truncated at sender" (
  let* senderID := slice payload 6 (u16 (6 + senderLen)) in
  let off := 6 + senderLen in
  let* b := slice payload off (off + 2) in
  let* targetLen := Uint16 b in
  check (len payload <? off + 2 + targetLen) "gossip: ping payload truncated at target" (
  let* targetID := slice payload (off + 2) (off + 2 + targetLen) in
  Ok (seqNo, string_of senderID, string_of targetID)))).

Definition decodePingReq (payload : list Z) : go (Z * string * string) := decodePing payload.

(** ** ACK, SUSPECT and DEAD: a number and an identifier *)

Definition encode_num_id (msgType num : Z) (id : string) (e : string) : go (list Z) :=
  let* _ := encodeUint16Length (slen id) e in
  let payload := replicate (4 + (2 + String.length id)) 0 in
  let* payload := write_at payload 0 (PutUint32 num) in
  let* payload := write_at payload 4 (PutUint16 (u16 (slen id))) in
  let* payload := write_at payload 6 (bytes_of id) in
  encodeMessage msgType payload.

Definition decode_num_id (payload : list Z) (eshort etrunc : string) : go (Z * string) :=
  check (len payload <? 6) eshort (
  let* b := slice payload 0 4 in
  let* num := Uint32 b in
  let* b := slice payload 4 6 in
  let* idLen := Uint16 b in
  check (len payload <? 6 + idLen) etrunc (
  let* id := slice payload 6 (u16 (6 + idLen)) in
  Ok (num, string_of id))).

Definition encodeAck (seqNo : Z) (senderID : string) : go (list Z) :=
  encode_num_id MsgAck seqNo senderID "gossip: ack senderID: %w".

Definition decodeAck (payload : list Z) : go (Z * string) :=
  decode_num_id payload "gossip: ack payload too short" "gossip: ack payload truncated".

Definition encodeSuspect (incarnation : Z) (nodeID : string) : go (list Z) :=
  encode_num_id MsgSuspect incarnation nodeID "gossip: suspect nodeID: %w".

Definition decodeSuspect (payload : list Z) : go (Z * string) :=
  decode_num_id payload "gossip: suspect payload too short" "gossip: suspect payload truncated".

Definition encodeDead (incarnation : Z) (nodeID : string) : go (list Z) :=
  encode_num_id MsgDead incarnation nodeID "gossip: dead nodeID: %w".

Definition decodeDead (payload : list Z) : go (Z * string) := decodeSuspect payload.

(** ** Node payloads *)

(** The loop that checks the lengths of the metadata. *)
Fixpoint check_metadata (kvs : list (string * string)) : go unit :=
  match kvs with
  | [] => Ok tt
  | (k, v) :: kvs =>
      let* _ := encodeUint16Length (slen k) "gossip: node payload metadata key %q: %w" in
      let* _ := encodeUint16Length (slen v) "gossip: node payload metadata value for key %q: %w" in
      check_metadata kvs
  end.

Fixpoint metadata_size (kvs : list (string * string)) : nat :=
  match kvs with
  | [] => 0
  | (k, v) :: kvs =>
      (2 + (String.length k + (2 + (String.length v + metadata_size kvs))))%nat
  end.

(** The loop that writes the metadata from [off]. *)
Fixpoint write_metadata (payload : list Z) (off : Z) (kvs : list (string * string)) : go (list Z) :=
  match kvs with
  | [] => Ok payload
  | (k, v) :: kvs =>
      let* payload := write_at payload off (PutUint16 (u16 (slen k))) in
      let* payload := write_at payload (off + 2) (bytes_of k) in
      let off := off + 2 + slen k in
      let* payload := write_at payload off (PutUint16 (u16 (slen v))) in
      let* payload := write_at payload (off + 2) (bytes_of v) in
      write_metadata payload (off + 2 + slen v) kvs
  end.

Section Node.
Context `{!MapRange}.

Definition encodeNodePayload (incarnation : Z) (nodeID address : string) (port : Z)
    (metadata : gmap string string) : go (list Z) :=
  let* _ := encodeUint16Length (slen nodeID) "gossip: node payload nodeID: %w" in
  let* _ := encodeUint16Length (slen address) "gossip: node payload address: %w" in
  let* _ := encodeUint16Length (Z.of_nat (size metadata))
              "gossip: node payload metadata count %d exceeds uint16 max" in
  let kvs := map_range metadata in
  let* _ := check_metadata kvs in
  let payload := replicate (4 + (2 + (String.length nodeID + (2 + (String.length address
                   + (2 + (2 + metadata_size kvs))))))) 0 in
  let* payload := write_at payload 0 (PutUint32 incarnation) in
  let* payload := write_at payload 4 (PutUint16 (u16 (slen nodeID))) in
  let* payload := write_at payload 6 (bytes_of nodeID) in
  let off := 6 + slen nodeID in
  let* payload := write_at payload off (PutUint16 (u16 (slen address))) in
  let* payload := write_at payload (off + 2) (bytes_of address) in
  let off := off + (2 + slen address) in
  let* payload := write_at payload off (PutUint16 (u16 port)) in
  let off := off + 2 in
  let* payload := write_at payload off (PutUint16 (u16 (Z.of_nat (size metadata)))) in
  let off := off + 2 in
  write_metadata payload off kvs.

Definition encodeAlive (incarnation : Z) (nodeID address : string) (port : Z)
    (metadata : gmap string string) : go (list Z) :=
  let* nodePayload := encodeNodePayload incarnation nodeID address port metadata in
  encodeMessage MsgAlive nodePayload.

(** [encodeJoinMessage] and [encodeLeaveMessage] read the fields of a node. *)
Definition encodeJoinMessage (incarnation : Z) (nodeID address : string) (port : Z)
    (metadata : gmap string string) : go (list Z) :=
  let* nodePayload := encodeNodePayload incarnation nodeID address port metadata in
  encodeMessage MsgJoin nodePayload.

Definition encodeLeaveMessage (incarnation : Z) (nodeID address : string) (port : Z)
    (metadata : gmap string string) : go (list Z) :=
  let* nodePayload := encodeNodePayload incarnation nodeID address port metadata in
  encodeMessage MsgLeave nodePayload.

End Node.

(** The loop of [decodeNodePayload] over [metaCount] entries. *)
Fixpoint decode_metadata (count : nat) (payload : list Z) (off : Z)
    (metadata : gmap string string) : go (gmap string string) :=
  match count with
  | O => Ok metadata
  | S count =>
      check (len payload <? off + 2) "gossip: node payload truncated at meta key len" (
      let* b := slice payload off (off + 2) in
      let* kLen := Uint16 b in
      let off := off + 2 in
      check (len payload <? off + kLen + 2) "gossip: node payload truncated at meta key" (
      let* k := slice payload off (off + kLen) in
      let off := off + kLen in
      let* b := slice payload off (off + 2) in
      let* vLen := Uint16 b in
      let off := off + 2 in
      check (len payload <? off + vLen) "gossip: node payload truncated at meta value" (
      let* v := slice payload off (off + vLen) in
      let off := off + vLen in
      decode_metadata count payload off (<[string_of k := string_of v]> metadata))))
  end.

Definition decodeNodePayload (payload : list Z)
    : go (Z * string * string * Z * gmap string string) :=
  check (len payload <? 12) "gossip: node payload too short" (
  let* b := slice payload 0 4 in
  let* incarnation := Uint32 b in
  let* b := slice payload 4 6 in
  let* nodeIDLen := Uint16 b in
  check (len payload <? 6 + nodeIDLen + 2) "gossip: node payload truncated at nodeID" (
  let* nodeID := slice payload 6 (u16 (6 + nodeIDLen)) in
  let off := 6 + nodeIDLen in
  let* b := slice payload off (off + 2) in
  let* addrLen := Uint16 b in
  check (len payload <? off + 2 + addrLen + 2 + 2) "gossip: node payload truncated at address" (
  let* address := slice payload (off + 2) (off + 2 + addrLen) in
  let off := off + (2 + addrLen) in
  let* b := slice payload off (off + 2) in
  let* port := Uint16 b in
  let off := off + 2 in
  check (len payload <? off + 2) "gossip: node payload truncated at meta count" (
  let* b := slice payload off (off + 2) in
  let* metaCount := Uint16 b in
  let off := off + 2 in
  let* metadata := decode_metadata (Z.to_nat metaCount) payload off ∅ in
  Ok (incarnation, string_of nodeID, string_of address, port, metadata))))).

Definition decodeAlive := decodeNodePayload.

(** ** Compound messages *)

Fixpoint check_messages (messages : list (list Z)) : go unit :=
  match messages with
  | [] => Ok tt
  | m :: ms =>
      let* _ := encodeUint16Length (len m) "gossip: compound sub-message: %w" in
      check_messages ms
  end.

Fixpoint messages_size (messages : list (list Z)) : nat :=
  match messages with
  | [] => 0
  | m :: ms => (2 + (length m + messages_size ms))%nat
  end.

Fixpoint write_messages (payload : list Z) (off : Z) (messages : list (list Z)) : go (list Z) :=
  match messages with
  | [] => Ok payload
  | m :: ms =>
      let* payload := write_at payload off (PutUint16 (u16 (len m))) in
      let* payload := write_at payload (off + 2) m in
      write_messages payload (off + 2 + len m) ms
  end.

Definition encodeCompound (messages : list (list Z)) : go (list Z) :=
  let* _ := encodeUint16Length (len messages) "gossip: compound message count: %w" in
  let* _ := check_messages messages in
  let payload := replicate (2 + messages_size messages) 0 in
  let* payload := write_at payload 0 (PutUint16 (u16 (len messages))) in
  let* payload := write_messages payload 2 messages in
  encodeMessage MsgCompound payload.

Fixpoint decode_messages (count : nat) (payload : list Z) (off : Z) (messages : list (list Z))
    : go (list (list Z)) :=
  match count with
  | O => Ok messages
  | S count =>
      check (len payload <? off + 2) "gossip: compound truncated at message %d length" (
      let* b := slice payload off (off + 2) in
      let* msgLen := Uint16 b in
      let off := off + 2 in
      check (len payload <? off + msgLen) "gossip: compound truncated at message %d data" (
      let* m := slice payload off (off + msgLen) in
      decode_messages count payload (off + msgLen) (messages ++ [m])))
  end.

Definition decodeCompound (payload : list Z) : go (list (list Z)) :=
  check (len payload <? 2) "gossip: compound payload too short" (
  let* b := slice payload 0 2 in
  let* count := Uint16 b in
  decode_messages (Z.to_nat count) payload 2 []).

Example ping_bytes :
  encodePing 258 "ab" "c" =
  Ok [1; 0; 11; 0; 0; 1; 2; 0; 2; 97; 98; 0; 1; 99].
Proof. reflexivity. Qed.

(** ** Framing: lemmas *)

Lemma encodeUint16Length_ok n e : n <= 65535 -> encodeUint16Length n e = Ok tt.
Proof. intros. unfold encodeUint16Length. by chk. Qed.

Lemma encodeUint16Length_inv n e r : encodeUint16Length n e = Ok r -> n <= 65535.
Proof. unfold encodeUint16Length, check. case_match; [done|]. b2p. lia. Qed.

Lemma encodeMessage_ok ty p :
  0 <= ty < 256 -> len p <= 65535 ->
  encodeMessage ty p = Ok (ty :: PutUint16 (len p) ++ p).
Proof.
  intros Ht Hp. unfold encodeMessage. rewrite encodeUint16Length_ok by done. cbn [go_bind].
  change (3 + length p)%nat with (1 + (2 + length p))%nat. pose proof (len_nonneg p).
  unfold u8. rewrite Z.mod_small by lia. rewrite u16_small by lia. do 2 wr.
  rewrite write_at_fill_end; [done|by lens|done].
Qed.

Lemma encodeMessage_inv ty p m : encodeMessage ty p = Ok m -> len p <= 65535.
Proof.
  unfold encodeMessage. destruct (encodeUint16Length _ _) eqn:E; [|done..].
  intros _. by eapply encodeUint16Length_inv.
Qed.

Lemma decodeMessage_frame ty p r :
  len p <= 65532 ->
  decodeMessage (ty :: PutUint16 (len p) ++ p ++ r) = Ok (ty, p, r).
Proof.
  intros Hp. unfold decodeMessage. pose proof (len_nonneg p). chk.
  rewrite index_app_l. cbn [go_bind].
  change (ty :: PutUint16 (len p) ++ p ++ r) with ([ty] ++ PutUint16 (len p) ++ p ++ r).
  rd. rewrite Uint16_Put_end by lia. cbn [go_bind]. chk.
  rewrite u16_small by lia. rd. unfold slice_from. rd. done.
Qed.

Lemma decodeMessage_overflow ty p r :
  65533 <= len p <= 65535 ->
  decodeMessage (ty :: PutUint16 (len p) ++ p ++ r) = Panic.
Proof.
  intros Hp. unfold decodeMessage. chk. rewrite index_app_l. cbn [go_bind].
  change (ty :: PutUint16 (len p) ++ p ++ r) with ([ty] ++ PutUint16 (len p) ++ p ++ r).
  rd. rewrite Uint16_Put_end by lia. cbn [go_bind]. chk.
  rewrite slice_panic; [done|]. unfold u16.
  replace (3 + len p) with ((3 + len p - 65536) + 1 * 2 ^ 16) by lia.
  rewrite Z_mod_plus_full, Z.mod_small; lia.
Qed.

(** ** Payloads: the encoders write the fields one after the other *)

Lemma encode_probe_eq ty seqNo s t es et :
  slen s <= 65535 -> slen t <= 65535 ->
  encode_probe ty seqNo s t es et =
  encodeMessage ty (PutUint32 seqNo ++ PutUint16 (slen s) ++ bytes_of s
                    ++ PutUint16 (slen t) ++ bytes_of t).
Proof.
  intros Hs Ht. unfold encode_probe. rewrite !encodeUint16Length_ok by done. cbn [go_bind].
  pose proof (slen_nonneg s). pose proof (slen_nonneg t). rewrite !u16_small by lia.
  do 5 wr. by rewrite <- !app_assoc.
Qed.

Lemma encode_probe_inv ty seqNo s t es et m :
  encode_probe ty seqNo s t es et = Ok m -> slen s <= 65535 /\ slen t <= 65535.
Proof.
  unfold encode_probe. destruct (encodeUint16Length _ es) eqn:E1; [|done..].
  cbn [go_bind]. destruct (encodeUint16Length _ et) eqn:E2; [|done..]. intros _.
  split; by eapply encodeUint16Length_inv.
Qed.

Lemma decodePing_fields seqNo s t :
  0 <= seqNo < 2 ^ 32 -> slen s <= 65529 -> slen t <= 65535 ->
  decodePing (PutUint32 seqNo ++ PutUint16 (slen s) ++ bytes_of s
              ++ PutUint16 (slen t) ++ bytes_of t) = Ok (seqNo, s, t).
Proof.
  intros Hq Hs Ht. unfold decodePing. pose proof (slen_nonneg s). pose proof (slen_nonneg t).
  chk. rd. rewrite Uint32_Put_end by done. cbn [go_bind].
  rd. rewrite Uint16_Put_end by lia. cbn [go_bind]. chk.
  rewrite u16_small by lia. rd. rd. rewrite Uint16_Put_end by lia. cbn [go_bind]. chk.
  rd. by rewrite !string_of_bytes_of.
Qed.

Lemma encode_num_id_eq ty num id e :
  slen id <= 65535 ->
  encode_num_id ty num id e =
  encodeMessage ty (PutUint32 num ++ PutUint16 (slen id) ++ bytes_of id).
Proof.
  intros Hs. unfold encode_num_id. rewrite encodeUint16Length_ok by done. cbn [go_bind].
  pose proof (slen_nonneg id). rewrite u16_small by lia. do 3 wr. by rewrite <- app_assoc.
Qed.

Lemma decode_num_id_fields num id e1 e2 :
  0 <= num < 2 ^ 32 -> slen id <= 65529 ->
  decode_num_id (PutUint32 num ++ PutUint16 (slen id) ++ bytes_of id) e1 e2 = Ok (num, id).
Proof.
  intros Hq Hs. unfold decode_num_id. pose proof (slen_nonneg id).
  chk. rd. rewrite Uint32_Put_end by done. cbn [go_bind].
  rd. rewrite Uint16_Put_end by lia. cbn [go_bind]. chk.
  rewrite u16_small by lia. rd. by rewrite string_of_bytes_of.
Qed.

(** ** Node payloads *)

(** The metadata as it appears on the wire. *)
Fixpoint metadata_bytes (kvs : list (string * string)) : list Z :=
  match kvs with
  | [] => []
  | (k, v) :: kvs =>
      PutUint16 (slen k) ++ bytes_of k ++ PutUint16 (slen v) ++ bytes_of v ++ metadata_bytes kvs
  end.

Definition short_pair (kv : string * string) : Prop :=
  slen kv.1 <= 65535 /\ slen kv.2 <= 65535.

Lemma check_metadata_ok kvs : Forall short_pair kvs -> check_metadata kvs = Ok tt.
Proof.
  induction 1 as [|[k v] kvs [Hk Hv] _ IH]; simpl in *; [done|].
  by rewrite !encodeUint16Length_ok by done.
Qed.

Lemma check_metadata_inv kvs r : check_metadata kvs = Ok r -> Forall short_pair kvs.
Proof.
  induction kvs as [|[k v] kvs IH]; simpl; [constructor|].
  destruct (encodeUint16Length (slen k) _) eqn:E1; [|done..]. cbn [go_bind].
  destruct (encodeUint16Length (slen v) _) eqn:E2; [|done..]. cbn [go_bind].
  intros H. constructor; [|auto]. split; by eapply encodeUint16Length_inv.
Qed.

Lemma write_metadata_eq p off kvs :
  Forall short_pair kvs -> off = len p ->
  write_metadata (p ++ replicate (metadata_size kvs) 0) off kvs = Ok (p ++ metadata_bytes kvs).
Proof.
  intros H. revert p off.
  induction H as [|[k v] kvs [Hk Hv] _ IH]; intros p off ->;
    cbn [write_metadata metadata_size metadata_bytes fst snd replicate] in *; [done|].
  pose proof (slen_nonneg k). pose proof (slen_nonneg v). rewrite !u16_small by lia.
  do 4 wr. rewrite IH by len_lia. by rewrite <- !app_assoc.
Qed.

Lemma decode_metadata_bytes p kvs r m :
  Forall short_pair kvs -> forall off, off = len p ->
  decode_metadata (length kvs) (p ++ metadata_bytes kvs ++ r) off m =
  Ok (foldl (fun m kv => <[kv.1 := kv.2]> m) m kvs).
Proof.
  intros H. revert p m.
  induction H as [|[k v] kvs [Hk Hv] _ IH]; intros p m off ->;
    cbn [decode_metadata length metadata_bytes fst snd foldl] in *; [done|].
  pose proof (slen_nonneg k). pose proof (slen_nonneg v). rewrite <- !app_assoc.
  chk. rd. rewrite Uint16_Put_end by lia. cbn [go_bind]. chk.
  rd. rd. rewrite Uint16_Put_end by lia. cbn [go_bind]. chk. rd.
  rewrite !string_of_bytes_of.
  specialize (IH (p ++ PutUint16 (slen k) ++ bytes_of k ++ PutUint16 (slen v) ++ bytes_of v)).
  rewrite <- !app_assoc in IH. apply IH. len_lia.
Qed.

Definition node_bytes (incarnation : Z) (nodeID address : string) (port : Z)
    (kvs : list (string * string)) : list Z :=
  PutUint32 incarnation ++ PutUint16 (slen nodeID) ++ bytes_of nodeID
  ++ PutUint16 (slen address) ++ bytes_of address ++ PutUint16 (u16 port)
  ++ PutUint16 (Z.of_nat (length kvs)) ++ metadata_bytes kvs.

Section NodeFacts.
Context `{!MapRange}.

Lemma map_range_length {A} (m : gmap string A) : length (map_range m) = size m.
Proof. rewrite map_range_perm. apply length_map_to_list. Qed.

Lemma map_range_fold {A} (m : gmap string A) :
  foldl (fun m kv => <[kv.1 := kv.2]> m) ∅ (map_range m) = m.
Proof.
  transitivity (list_to_map (M := gmap string A) (reverse (map_range m))).
  - generalize (map_range m). intros l. induction l as [|[k v] l IH] using rev_ind; [done|].
    rewrite foldl_app, reverse_app, IH. done.
  - rewrite <- (list_to_map_to_list m) at 2. apply list_to_map_proper.
    + rewrite reverse_Permutation, map_range_perm. apply NoDup_fst_map_to_list.
    + by rewrite reverse_Permutation, map_range_perm.
Qed.

Lemma encodeNodePayload_eq inc id addr port meta :
  slen id <= 65535 -> slen addr <= 65535 -> Z.of_nat (size meta) <= 65535 ->
  Forall short_pair (map_range meta) ->
  encodeNodePayload inc id addr port meta = Ok (node_bytes inc id addr port (map_range meta)).
Proof.
  intros H1 H2 H3 H4. unfold encodeNodePayload, node_bytes.
  rewrite !encodeUint16Length_ok by done. cbn [go_bind].
  rewrite check_metadata_ok by done. cbn [go_bind].
  pose proof (slen_nonneg id). pose proof (slen_nonneg addr).
  rewrite map_range_length, (u16_small (slen id)), (u16_small (slen addr)),
    (u16_small (Z.of_nat (size meta))) by lia.
  do 7 wr. rewrite write_metadata_eq by (done || len_lia). by rewrite <- !app_assoc.
Qed.

Lemma encodeNodePayload_inv inc id addr port meta p :
  encodeNodePayload inc id addr port meta = Ok p ->
  slen id <= 65535 /\ slen addr <= 65535 /\ Z.of_nat (size meta) <= 65535 /\
  Forall short_pair (map_range meta).
Proof.
  unfold encodeNodePayload.
  destruct (encodeUint16Length (slen id) _) eqn:E1; [|done..]. cbn [go_bind].
  destruct (encodeUint16Length (slen addr) _) eqn:E2; [|done..]. cbn [go_bind].
  destruct (encodeUint16Length (Z.of_nat _) _) eqn:E3; [|done..]. cbn [go_bind].
  destruct (check_metadata _) eqn:E4; [|done..]. intros _.
  repeat split; eauto using encodeUint16Length_inv, check_metadata_inv.
Qed.

Lemma decodeNodePayload_bytes inc id addr port kvs :
  0 <= inc < 2 ^ 32 -> slen id <= 65529 -> slen addr <= 65535 ->
  Z.of_nat (length kvs) <= 65535 -> Forall short_pair kvs ->
  decodeNodePayload (node_bytes inc id addr port kvs) =
  Ok (inc, id, addr, u16 port, foldl (fun m kv => <[kv.1 := kv.2]> m) ∅ kvs).
Proof.
  intros Hi H1 H2 H3 H4. unfold decodeNodePayload, node_bytes.
  pose proof (slen_nonneg id). pose proof (slen_nonneg addr).
  assert (0 <= u16 port < 2 ^ 16) by (apply Z.mod_pos_bound; lia).
  chk. rd. rewrite Uint32_Put_end by done. cbn [go_bind].
  rd. rewrite Uint16_Put_end by lia. cbn [go_bind]. chk.
  rewrite (u16_small (6 + slen id)) by lia. rd. rd. rewrite Uint16_Put_end by lia. cbn [go_bind]. chk.
  rd. rd. rewrite Uint16_Put_end by done. cbn [go_bind]. chk.
  rd. rewrite Uint16_Put_end by lia. cbn [go_bind]. rewrite Nat2Z.id.
  pose proof (decode_metadata_bytes
    (PutUint32 inc ++ PutUint16 (slen id) ++ bytes_of id ++ PutUint16 (slen addr)
     ++ bytes_of addr ++ PutUint16 (u16 port) ++ PutUint16 (Z.of_nat (length kvs)))
    kvs [] ∅ H4) as D.
  rewrite <- !app_assoc, app_nil_r in D. rewrite D by len_lia. cbn [go_bind].
  by rewrite !string_of_bytes_of.
Qed.

End NodeFacts.

(** ** Compound messages *)

Fixpoint messages_bytes (ms : list (list Z)) : list Z :=
  match ms with
  | [] => []
  | m :: ms => PutUint16 (len m) ++ m ++ messages_bytes ms
  end.

Lemma check_messages_ok ms : Forall (fun m => len m <= 65535) ms -> check_messages ms = Ok tt.
Proof.
  induction 1 as [|m ms Hm _ IH]; simpl; [done|]. by rewrite encodeUint16Length_ok by done.
Qed.

Lemma check_messages_inv ms r : check_messages ms = Ok r -> Forall (fun m => len m <= 65535) ms.
Proof.
  induction ms as [|m ms IH]; simpl; [constructor|].
  destruct (encodeUint16Length (len m) _) eqn:E; [|done..]. cbn [go_bind].
  eauto using Forall_cons, encodeUint16Length_inv.
Qed.

Lemma write_messages_eq p off ms :
  Forall (fun m => len m <= 65535) ms -> off = len p ->
  write_messages (p ++ replicate (messages_size ms) 0) off ms = Ok (p ++ messages_bytes ms).
Proof.
  intros H. revert p off. induction H as [|m ms Hm _ IH]; intros p off ->;
    cbn [write_messages messages_size messages_bytes replicate]; [done|].
  pose proof (len_nonneg m). rewrite u16_small by lia.
  do 2 wr. rewrite IH by len_lia. by rewrite <- !app_assoc.
Qed.

Lemma decode_messages_bytes p ms acc :
  Forall (fun m => len m <= 65535) ms -> forall off, off = len p ->
  decode_messages (length ms) (p ++ messages_bytes ms) off acc = Ok (acc ++ ms).
Proof.
  intros H. revert p acc. induction H as [|m ms Hm _ IH]; intros p acc off ->;
    cbn [decode_messages length messages_bytes]; [by rewrite app_nil_r|].
  pose proof (len_nonneg m). chk. rd. rewrite Uint16_Put_end by lia. cbn [go_bind]. chk. rd.
  specialize (IH (p ++ PutUint16 (len m) ++ m) (acc ++ [m])).
  rewrite <- !app_assoc in IH. apply IH. len_lia.
Qed.

Lemma encodeCompound_eq ms :
  len ms <= 65535 -> Forall (fun m => len m <= 65535) ms ->
  encodeCompound ms = encodeMessage MsgCompound (PutUint16 (len ms) ++ messages_bytes ms).
Proof.
  intros H1 H2. unfold encodeCompound. rewrite encodeUint16Length_ok by done. cbn [go_bind].
  rewrite check_messages_ok by done. cbn [go_bind]. pose proof (len_nonneg ms).
  rewrite u16_small by lia. wr. by rewrite write_messages_eq by (done || len_lia).
Qed.

(** ** Whole messages *)

(** The messages of the protocol, and how [handleMessage] tells them apart. *)
Inductive message :=
  | Ping (seqNo : Z) (senderID targetID : string)
  | Ack (seqNo : Z) (senderID : string)
  | PingReq (seqNo : Z) (senderID targetID : string)
  | Suspect (incarnation : Z) (nodeID : string)
  | Alive (incarnation : Z) (nodeID address : string) (port : Z) (metadata : gmap string string)
  | Dead (incarnation : Z) (nodeID : string)
  | Join (incarnation : Z) (nodeID address : string) (port : Z) (metadata : gmap string string)
  | Leave (incarnation : Z) (nodeID address : string) (port : Z) (metadata : gmap string string)
  | Compound (messages : list (list Z)).

Definition encode `{!MapRange} (m : message) : go (list Z) :=
  match m with
  | Ping q s t => encodePing q s t
  | Ack q s => encodeAck q s
  | PingReq q s t => encodePingReq q s t
  | Suspect i n => encodeSuspect i n
  | Alive i n a p md => encodeAlive i n a p md
  | Dead i n => encodeDead i n
  | Join i n a p md => encodeJoinMessage i n a p md
  | Leave i n a p md => encodeLeaveMessage i n a p md
  | Compound ms => encodeCompound ms
  end.

Definition message_type (m : message) : Z :=
  match m with
  | Ping _ _ _ => MsgPing
  | Ack _ _ => MsgAck
  | PingReq _ _ _ => MsgPingReq
  | Suspect _ _ => MsgSuspect
  | Alive _ _ _ _ _ => MsgAlive
  | Dead _ _ => MsgDead
  | Join _ _ _ _ _ => MsgJoin
  | Leave _ _ _ _ _ => MsgLeave
  | Compound _ => MsgCompound
  end.

(** The switch of [handleMessage]: the payload is decoded by the message type. *)
Definition decode_payload (msgType : Z) (payload : list Z) : go message :=
  if msgType =? MsgPing then
    let* '(q, s, t) := decodePing payload in Ok (Ping q s t)
  else if msgType =? MsgAck then
    let* '(q, s) := decodeAck payload in Ok (Ack q s)
  else if msgType =? MsgPingReq then
    let* '(q, s, t) := decodePingReq payload in Ok (PingReq q s t)
  else if msgType =? MsgSuspect then
    let* '(i, n) := decodeSuspect payload in Ok (Suspect i n)
  else if msgType =? MsgAlive then
    let* '(i, n, a, p, md) := decodeAlive payload in Ok (Alive i n a p md)
  else if msgType =? MsgDead then
    let* '(i, n) := decodeDead payload in Ok (Dead i n)
  else if msgType =? MsgJoin then
    let* '(i, n, a, p, md) := decodeNodePayload payload in Ok (Join i n a p md)
  else if msgType =? MsgLeave then
    let* '(i, n, a, p, md) := decodeNodePayload payload in Ok (Leave i n a p md)
  else if msgType =? MsgCompound then
    let* ms := decodeCompound payload in Ok (Compound ms)
  else Err "unknown message type".

Definition decode (data : list Z) : go (message * list Z) :=
  let* '(msgType, payload, remaining) := decodeMessage data in
  let* m := decode_payload msgType payload in
  Ok (m, remaining).

(** The fields fit their Go types: [uint32] numbers, and ports a [uint16] can carry. *)
Definition fields_ok (m : message) : Prop :=
  match m with
  | Ping q _ _ | Ack q _ | PingReq q _ _ | Suspect q _ | Dead q _ => in_u32 q
  | Alive i _ _ p _ | Join i _ _ p _ | Leave i _ _ p _ => in_u32 i /\ 0 <= p < 2 ^ 16
  | Compound _ => True
  end.

Section Roundtrip.
Context `{!MapRange}.

Lemma probe_frame ty q s t es et bs :
  in_u32 q -> encode_probe ty q s t es et = Ok bs ->
  exists p, encodeMessage ty p = Ok bs /\ (len p <= 65532 -> decodePing p = Ok (q, s, t)).
Proof.
  intros Hq He. destruct (encode_probe_inv _ _ _ _ _ _ _ He) as [Hs Ht].
  rewrite encode_probe_eq in He by done. eexists. split; [exact He|]. intros Hl.
  apply decodePing_fields; [done| |done]. revert Hl. len_lia.
Qed.

Lemma num_id_frame ty q s e e1 e2 bs :
  in_u32 q -> encode_num_id ty q s e = Ok bs ->
  exists p, encodeMessage ty p = Ok bs /\ (len p <= 65532 -> decode_num_id p e1 e2 = Ok (q, s)).
Proof.
  intros Hq He. assert (Hs : slen s <= 65535).
  { unfold encode_num_id in He. destruct (encodeUint16Length _ _) eqn:E; [|done..].
    by eapply encodeUint16Length_inv. }
  rewrite encode_num_id_eq in He by done. eexists. split; [exact He|]. intros Hl.
  apply decode_num_id_fields; [done|]. revert Hl. len_lia.
Qed.

Lemma node_frame ty i n a p md bs :
  in_u32 i -> 0 <= p < 2 ^ 16 ->
  (let* np := encodeNodePayload i n a p md in encodeMessage ty np) = Ok bs ->
  exists np, encodeMessage ty np = Ok bs /\
    (len np <= 65532 -> decodeNodePayload np = Ok (i, n, a, p, md)).
Proof.
  intros Hi Hp He. destruct (encodeNodePayload _ _ _ _ _) as [np| |] eqn:E; [|done..].
  destruct (encodeNodePayload_inv _ _ _ _ _ _ E) as (Hn & Ha & Hm & Hs).
  rewrite encodeNodePayload_eq in E by done. injection E as <-.
  eexists. split; [exact He|]. intros Hl.
  rewrite decodeNodePayload_bytes, map_range_fold, u16_small;
    rewrite ?map_range_length; try done.
  unfold node_bytes in Hl. revert Hl. len_lia.
Qed.

Lemma compound_frame ms bs :
  encodeCompound ms = Ok bs ->
  exists p, encodeMessage MsgCompound p = Ok bs /\ decodeCompound p = Ok ms.
Proof.
  intros He. assert (len ms <= 65535 /\ Forall (fun m => len m <= 65535) ms) as [H1 H2].
  { unfold encodeCompound in He. destruct (encodeUint16Length _ _) eqn:E; [|done..].
    cbn [go_bind] in He. destruct (check_messages ms) eqn:E2; [|done..].
    eauto using encodeUint16Length_inv, check_messages_inv. }
  rewrite encodeCompound_eq in He by done. eexists. split; [exact He|].
  unfold decodeCompound. pose proof (len_nonneg ms). chk. rd.
  rewrite Uint16_Put_end by lia. cbn [go_bind]. unfold len at 1. rewrite Nat2Z.id.
  by apply (decode_messages_bytes (PutUint16 (len ms)) ms []).
Qed.

(** What [encode] produces: a frame whose payload decodes to the message. *)
Lemma encode_frame m bs :
  fields_ok m -> encode m = Ok bs ->
  exists p, encodeMessage (message_type m) p = Ok bs /\
    (len p <= 65532 -> decode_payload (message_type m) p = Ok m).
Proof.
  intros Hf He.
  destruct m as [q s t|q s|q s t|q s|i n a p md|q s|i n a p md|i n a p md|ms];
    cbn [encode fields_ok] in *.
  - destruct (probe_frame _ _ _ _ _ _ _ Hf He) as (p & Hp & Hd).
    exists p. split; [done|]. intros Hl. unfold decode_payload. cbn.
    by rewrite Hd by done.
  - destruct (num_id_frame _ _ _ _ "gossip: ack payload too short"
      "gossip: ack payload truncated" _ Hf He) as (p & Hp & Hd).
    exists p. split; [done|]. intros Hl. unfold decode_payload, decodeAck. cbn.
    by rewrite Hd by done.
  - destruct (probe_frame _ _ _ _ _ _ _ Hf He) as (p & Hp & Hd).
    exists p. split; [done|]. intros Hl.
    unfold decode_payload, decodePingReq. cbn. by rewrite Hd by done.
  - destruct (num_id_frame _ _ _ _ "gossip: suspect payload too short"
      "gossip: suspect payload truncated" _ Hf He) as (p & Hp & Hd).
    exists p. split; [done|]. intros Hl.
    unfold decode_payload, decodeSuspect. cbn. by rewrite Hd by done.
  - destruct Hf as [Hi Hp'].
    destruct (node_frame _ _ _ _ _ _ _ Hi Hp' He) as (np & Hp & Hd).
    exists np. split; [done|]. intros Hl.
    unfold decode_payload, decodeAlive. cbn. by rewrite Hd by done.
  - destruct (num_id_frame _ _ _ _ "gossip: suspect payload too short"
      "gossip: suspect payload truncated" _ Hf He) as (p & Hp & Hd).
    exists p. split; [done|]. intros Hl.
    unfold decode_payload, decodeDead, decodeSuspect. cbn. by rewrite Hd by done.
  - destruct Hf as [Hi Hp'].
    destruct (node_frame _ _ _ _ _ _ _ Hi Hp' He) as (np & Hp & Hd).
    exists np. split; [done|]. intros Hl.
    unfold decode_payload. cbn. by rewrite Hd by done.
  - destruct Hf as [Hi Hp'].
    destruct (node_frame _ _ _ _ _ _ _ Hi Hp' He) as (np & Hp & Hd).
    exists np. split; [done|]. intros Hl.
    unfold decode_payload. cbn. by rewrite Hd by done.
  - destruct (compound_frame _ _ He) as (p & Hp & Hd).
    exists p. split; [done|]. intros _.
    unfold decode_payload. cbn. by rewrite Hd.
Qed.

Lemma message_type_range m : 0 <= message_type m < 256.
Proof. by destruct m. Qed.


(** The encoders accept payloads of 65533 to 65535 bytes, but the decoder adds the
    header length in 16-bit arithmetic and panics on every such message. *)
Theorem oversized_gossip_message_panics m bs rest :
  fields_ok m -> encode m = Ok bs -> 65535 < len bs ->
  decode (bs ++ rest) = Panic.
Proof.
  intros Hf He Hl. destruct (encode_frame m bs Hf He) as (p & Hp & Hd).
  pose proof (message_type_range m) as Hty.
  pose proof (encodeMessage_inv _ _ _ Hp). rewrite encodeMessage_ok in Hp by done.
  assert (bs = message_type m :: PutUint16 (len p) ++ p) as -> by congruence. assert (65533 <= len p) by (revert Hl; len_lia).
  unfold decode. by rewrite <- app_comm_cons, <- app_assoc, decodeMessage_overflow by done.
Qed.

End Roundtrip.

(** ** Untrusted input *)

Lemma decode_metadata_no_panic count p off m :
  Forall is_byte p -> 0 <= off -> decode_metadata count p off m <> Panic.
Proof.
  intros Hp. revert off m. induction count as [|count IH]; intros off m Ho;
    cbn [decode_metadata]; [done|]. repeat np. apply IH. lia.
Qed.

Lemma decode_messages_no_panic count p off ms :
  Forall is_byte p -> 0 <= off -> decode_messages count p off ms <> Panic.
Proof.
  intros Hp. revert off ms. induction count as [|count IH]; intros off ms Ho;
    cbn [decode_messages]; [done|]. repeat np. apply IH. lia.
Qed.

Lemma decodePing_no_panic p : Forall is_byte p -> len p <= 65532 -> decodePing p <> Panic.
Proof.
  intros Hp Hl. unfold decodePing. repeat np. rewrite u16_small by lia. repeat np.
Qed.

Lemma decode_num_id_no_panic p e1 e2 :
  Forall is_byte p -> len p <= 65532 -> decode_num_id p e1 e2 <> Panic.
Proof.
  intros Hp Hl. unfold decode_num_id. repeat np. rewrite u16_small by lia. repeat np.
Qed.

Lemma decodeNodePayload_no_panic p :
  Forall is_byte p -> len p <= 65532 -> decodeNodePayload p <> Panic.
Proof.
  intros Hp Hl. unfold decodeNodePayload. repeat np. rewrite u16_small by lia. repeat np.
  destruct (decode_metadata _ _ _ _) eqn:E; [done..|].
  exfalso. eapply decode_metadata_no_panic; [exact Hp| |exact E]. lia.
Qed.

Lemma decodeCompound_no_panic p : Forall is_byte p -> decodeCompound p <> Panic.
Proof. intros Hp. unfold decodeCompound. repeat np. apply decode_messages_no_panic; [done|lia]. Qed.

Lemma go_bind_no_panic {A B} (m : go A) (k : A -> go B) :
  m <> Panic -> (forall a, k a <> Panic) -> go_bind m k <> Panic.
Proof. by destruct m; simpl. Qed.

Lemma decode_payload_no_panic ty p :
  Forall is_byte p -> len p <= 65532 -> decode_payload ty p <> Panic.
Proof.
  intros Hp Hl. unfold decode_payload, decodePingReq, decodeAck, decodeSuspect, decodeDead,
    decodeSuspect, decodeAlive.
  repeat case_step; try done; apply go_bind_no_panic; try (intros; by repeat case_step);
    auto using decodePing_no_panic, decode_num_id_no_panic, decodeNodePayload_no_panic,
      decodeCompound_no_panic.
Qed.

(** No datagram crashes the node: on any bytes that fit a datagram (at most 65535)
    the decoder of messages and the decoder of every payload return a message or an
    error, and never index or slice out of range. *)
Theorem gossip_datagram_never_panics data :
  Forall is_byte data -> len data <= 65535 -> decode data <> Panic.
Proof.
  intros Hd Hl. unfold decode, decodeMessage. cbn [check go_bind].
  unfold check at 1. destruct (len data <? 3) eqn:C; [done|]. b2p.
  destruct (index_total data 0) as (ty & -> & _); [done|lia|]. cbn [go_bind].
  destruct (slice_total data 1 3) as (h & -> & Hh & Hb); [done|lia..|]. cbn [go_bind].
  destruct (Uint16_total h) as (n & -> & Hn); [done|lia|]. cbn [go_bind].
  unfold check at 1. destruct (len data - 3 <? n) eqn:C2; [done|]. b2p.
  rewrite u16_small by lia.
  destruct (slice_total data 3 (3 + n)) as (p & -> & Hp & Hpb); [done|lia..|]. cbn [go_bind].
  unfold slice_from.
  destruct (slice_total data (3 + n) (len data)) as (r & -> & _); [done|lia..|]. cbn [go_bind].
  apply go_bind_no_panic; [|done]. apply decode_payload_no_panic; [done|lia].
Qed.

(** ** Witnesses *)


Lemma length_string_of bs : String.length (string_of bs) = length bs.
Proof. induction bs as [|b bs IH]; simpl; [done|]. by rewrite IH. Qed.

Lemma oversized_gossip_message_panics_witness :
  exists bs, @encode gmap_range (Suspect 7 (string_of (replicate (Z.to_nat 65527) 97))) = Ok bs /\
    decode (bs ++ []) = Panic.
Proof.
  assert (E : slen (string_of (replicate (Z.to_nat 65527) 97)) = 65527).
  { unfold slen. rewrite length_string_of, length_replicate. lia. }
  set (s := string_of _) in *. clearbody s.
  assert (H : encodeSuspect 7 s = Ok (MsgSuspect ::
    PutUint16 (len (PutUint32 7 ++ PutUint16 (slen s) ++ bytes_of s)) ++
    PutUint32 7 ++ PutUint16 (slen s) ++ bytes_of s)).
  { unfold encodeSuspect. rewrite encode_num_id_eq by lia.
    apply encodeMessage_ok; [done|]. lens. lia. }
  eexists. split; [exact H|].
  refine (@oversized_gossip_message_panics gmap_range (Suspect 7 s) _ [] _ H _).
  - unfold fields_ok, in_u32. lia.
  - lens. lia.
Defined.

Lemma gossip_datagram_never_panics_witness : decode [4; 0; 8; 0; 0; 0; 7; 0; 200; 110; 49] <> Panic.
Proof.
  apply gossip_datagram_never_panics; [|done].
  repeat constructor; unfold is_byte; lia.
Defined.
