(* ===== verification/Gossip.v ===== *)
(** * Membership and failure detection: [internal/cluster/gossip*.go]

    The SWIM protocol node: its member table, suspicion timers, pending
    acknowledgements and broadcast queue, and one function per message handler,
    probe phase, timer and API call.  A function takes the node and returns the
    changed node with the effects it has outside (packets, events, wake-ups).  The
    clock, the enumeration of maps and the random choices are arguments.  Every
    handler takes the member lock once, so it is one step.  A payload that does not
    decode is dropped; [GossipEncoding] shows that no payload of a message panics. *)
From S2P Require Import Prelude Http Bytes GoHash GossipEncoding.

(** ** Data *)

Inductive NodeState := StateAlive | StateSuspect | StateDead | StateLeft.

#[export] Instance NodeState_eq_dec : EqDecision NodeState.
Proof. solve_decision. Defined.

Definition NodeState_String (s : NodeState) : string :=
  match s with
  | StateAlive => "alive"
  | StateSuspect => "suspect"
  | StateDead => "dead"
  | StateLeft => "left"
  end.

Record GossipNode := mkNode {
  ID : string;
  Address : string;
  Port : Z;
  State : NodeState;
  Incarnation : Z;            (* uint32 *)
  LastSeen : Z;
  Metadata : gmap string string
}.

(** [fmt.Sprintf("%s:%d", n.Address, n.Port)]. *)
Definition Addr (n : GossipNode) : string := Address n +:+ ":" +:+ pretty (Port n).

Inductive EventType := EventJoin | EventLeave | EventUpdate.

Record broadcast := mkBroadcast { msg : list Z; retransmit : Z; created : Z }.

Record GossipConfig := mkConfig {
  BindAddr : string;
  BindPort : Z;
  ProbeInterval : Z;
  ProbeTimeout : Z;
  IndirectChecks : Z;
  SuspicionTimeout : Z;
  GossipNodes : Z;
  RetransmitMult : Z;
  MaxMessageSize : Z;
  NodeID : string
}.

(** Durations are in nanoseconds. *)
Definition DefaultGossipConfig : GossipConfig := {|
  BindAddr := "0.0.0.0"; BindPort := 7946;
  ProbeInterval := 1000000000; ProbeTimeout := 500000000; IndirectChecks := 3;
  SuspicionTimeout := 5000000000; GossipNodes := 3; RetransmitMult := 4;
  MaxMessageSize := 1400; NodeID := "" |}.

Definition Validate (c : GossipConfig) : go unit :=
  check ((BindPort c <=? 0) || (65535 <? BindPort c)) "gossip: invalid bind port: %d" (
  check (ProbeInterval c <=? 0) "gossip: probe interval must be positive" (
  check (ProbeTimeout c <=? 0) "gossip: probe timeout must be positive" (
  check (IndirectChecks c <? 0) "gossip: indirect checks must be non-negative" (
  check (SuspicionTimeout c <=? 0) "gossip: suspicion timeout must be positive" (
  check (MaxMessageSize c <=? 0) "gossip: max message size must be positive" (Ok tt)))))).

(** [suspicionTimers] holds the nodes with a running suspicion timer, [ackHandlers] the
    sequence numbers that wait for an acknowledgement. *)
Record Gossip := mkGossip {
  config : GossipConfig;
  localNode : GossipNode;
  members : gmap string GossipNode;
  seqNo : Z;                  (* uint32 *)
  ackHandlers : gset Z;
  broadcasts : list broadcast;
  suspicionTimers : gset string
}.

Definition set_localNode n g :=
  mkGossip (config g) n (members g) (seqNo g) (ackHandlers g) (broadcasts g) (suspicionTimers g).
Definition set_members ms g :=
  mkGossip (config g) (localNode g) ms (seqNo g) (ackHandlers g) (broadcasts g) (suspicionTimers g).
Definition set_acks q a g :=
  mkGossip (config g) (localNode g) (members g) q a (broadcasts g) (suspicionTimers g).
Definition set_broadcasts b g :=
  mkGossip (config g) (localNode g) (members g) (seqNo g) (ackHandlers g) b (suspicionTimers g).
Definition set_timers t g :=
  mkGossip (config g) (localNode g) (members g) (seqNo g) (ackHandlers g) (broadcasts g) t.

Definition node_set_state s n :=
  mkNode (ID n) (Address n) (Port n) s (Incarnation n) (LastSeen n) (Metadata n).
Definition node_set_inc i n :=
  mkNode (ID n) (Address n) (Port n) (State n) i (LastSeen n) (Metadata n).
Definition node_set_seen t n :=
  mkNode (ID n) (Address n) (Port n) (State n) (Incarnation n) t (Metadata n).

(** What a handler does outside the node.  [Signal q] wakes the goroutine that waits for
    the acknowledgement [q]; [Relay p q a id] is the goroutine of an indirect probe: when
    [p] is acknowledged, it sends the acknowledgement of [q] for [id] to [a]. *)
Inductive effect :=
  | SendUDP (addr : string) (msg : list Z)
  | SendTCP (addr : string) (msg : list Z)
  | Emit (event : EventType) (node : GossipNode)
  | Signal (seqNo : Z)
  | Relay (probeSeq seqNo : Z) (from targetID : string).

Section Handlers.
Context `{!MapRange} `{!SliceSort broadcast (fun b => - created b)}.

(** ** Broadcast queue *)

(** [RetransmitMult * ceil(log2(n+1))] where [n] counts the members and this node. *)
Definition retransmitLimit (g : Gossip) : Z :=
  RetransmitMult (config g) * Z.log2_up (Z.of_nat (size (members g)) + 1 + 1).

Definition queueBroadcast (now : Z) (m : list Z) (g : Gossip) : Gossip :=
  set_broadcasts (broadcasts g ++ [mkBroadcast m (retransmitLimit g) now]) g.

(** The loop of [getBroadcasts] over the sorted queue: the messages taken and the
    broadcasts kept. *)
Fixpoint take_broadcasts (limit used : Z) (bs : list broadcast) : list (list Z) * list broadcast :=
  match bs with
  | [] => ([], [])
  | b :: bs =>
      if used + len (msg b) <=? limit then
        let '(result, remaining) := take_broadcasts limit (used + len (msg b)) bs in
        let b' := mkBroadcast (msg b) (retransmit b - 1) (created b) in
        (msg b :: result, if 0 <? retransmit b' then b' :: remaining else remaining)
      else
        let '(result, remaining) := take_broadcasts limit used bs in
        (result, b :: remaining)
  end.

Definition getBroadcasts (limit : Z) (g : Gossip) : list (list Z) * Gossip :=
  match broadcasts g with
  | [] => ([], g)
  | _ =>
      let '(result, remaining) := take_broadcasts limit 0 (slice_sort (broadcasts g)) in
      (result, set_broadcasts remaining g)
  end.

(** An encoder's message, or nothing when it fails. *)
Definition encoded (m : go (list Z)) : option (list Z) :=
  match m with Ok bs => Some bs | _ => None end.

Definition queue_encoded (now : Z) (m : go (list Z)) (g : Gossip) : Gossip :=
  match encoded m with Some bs => queueBroadcast now bs g | None => g end.

(** ** Suspicion timers *)

Definition startSuspicion (nodeID : string) (g : Gossip) : Gossip :=
  set_timers ({[nodeID]} ∪ suspicionTimers g) g.

Definition cancelSuspicion (nodeID : string) (g : Gossip) : Gossip :=
  set_timers (suspicionTimers g ∖ {[nodeID]}) g.

(** The function of [startSuspicion]'s timer. *)
Definition suspicion_timeout (now : Z) (nodeID : string) (g : Gossip) : Gossip * list effect :=
  let '(g, effs) :=
    match members g !! nodeID with
    | Some m =>
        if bool_decide (State m = StateSuspect) then
          let m := node_set_state StateDead m in
          let g := set_members (<[nodeID := m]> (members g)) g in
          let g := queue_encoded now (encodeDead (Incarnation m) (ID m)) g in
          (g, [Emit EventLeave m])
        else (g, [])
    | None => (g, [])
    end in
  (cancelSuspicion nodeID g, effs).

(** ** Message handlers *)

Definition encode_alive_of (n : GossipNode) : go (list Z) :=
  encodeAlive (Incarnation n) (ID n) (Address n) (Port n) (Metadata n).

Definition markNodeAlive (now : Z) (nodeID : string) (g : Gossip) : Gossip :=
  if bool_decide (nodeID = ID (localNode g)) then g
  else match members g !! nodeID with
  | Some m => set_members (<[nodeID := node_set_seen now m]> (members g)) g
  | None => g
  end.

Definition handlePing (now : Z) (payload : list Z) (from : string) (g : Gossip)
    : Gossip * list effect :=
  match decodePing payload with
  | Ok (seqNo, senderID, _) =>
      let g := markNodeAlive now senderID g in
      match encoded (encodeAck seqNo (ID (localNode g))) with
      | None => (g, [])
      | Some ack =>
          let '(bs, g) := getBroadcasts (MaxMessageSize (config g) - len ack) g in
          (g, [SendUDP from (ack ++ concat bs)])
      end
  | _ => (g, [])
  end.

Definition handleAck (now : Z) (payload : list Z) (g : Gossip) : Gossip * list effect :=
  match decodeAck payload with
  | Ok (q, senderID) =>
      if bool_decide (q ∈ ackHandlers g) then
        let g := set_acks (seqNo g) (ackHandlers g ∖ {[q]}) g in
        match members g !! senderID with
        | Some m =>
            if bool_decide (State m = StateSuspect) then
              let m := node_set_state StateAlive m in
              let g := cancelSuspicion senderID g in
              (set_members (<[senderID := node_set_seen now m]> (members g)) g,
               [Signal q; Emit EventUpdate m])
            else (set_members (<[senderID := node_set_seen now m]> (members g)) g, [Signal q])
        | None => (g, [Signal q])
        end
      else (g, [])
  | _ => (g, [])
  end.

Definition nextSeqNo (g : Gossip) : Z := u32 (seqNo g + 1).

(** [udp_ok] is the result of the send. *)
Definition handlePingReq (udp_ok : bool) (payload : list Z) (from : string) (g : Gossip)
    : Gossip * list effect :=
  match decodePingReq payload with
  | Ok (q, _, targetID) =>
      match members g !! targetID with
      | None => (g, [])
      | Some target =>
          let probeSeq := nextSeqNo g in
          let g := set_acks probeSeq (ackHandlers g) g in
          match encoded (encodePing probeSeq (ID (localNode g)) targetID) with
          | None => (g, [])
          | Some ping =>
              let g := set_acks (seqNo g) ({[probeSeq]} ∪ ackHandlers g) g in
              (g, SendUDP (Addr target) ping ::
                  if udp_ok then [Relay probeSeq q from targetID] else [])
          end
      end
  | _ => (g, [])
  end.

(** The timer of an acknowledgement handler. *)
Definition ack_timeout (q : Z) (g : Gossip) : Gossip :=
  set_acks (seqNo g) (ackHandlers g ∖ {[q]}) g.

(** [incarnation + 1] is computed in [uint32]. *)
Definition refute (now incarnation : Z) (g : Gossip) : Gossip :=
  let n := node_set_inc (u32 (incarnation + 1)) (localNode g) in
  queue_encoded now (encode_alive_of n) (set_localNode n g).

Definition handleSuspect (now : Z) (payload : list Z) (g : Gossip) : Gossip * list effect :=
  match decodeSuspect payload with
  | Ok (incarnation, nodeID) =>
      if bool_decide (nodeID = ID (localNode g)) then
        if Incarnation (localNode g) <=? incarnation then (refute now incarnation g, []) else (g, [])
      else match members g !! nodeID with
      | None => (g, [])
      | Some m =>
          if bool_decide (State m = StateAlive) && (Incarnation m <=? incarnation) then
            let m := node_set_inc incarnation (node_set_state StateSuspect m) in
            let g := set_members (<[nodeID := m]> (members g)) g in
            (startSuspicion nodeID g, [Emit EventUpdate m])
          else (g, [])
      end
  | _ => (g, [])
  end.

Definition handleAlive (now : Z) (payload : list Z) (g : Gossip) : Gossip * list effect :=
  match decodeAlive payload with
  | Ok (incarnation, nodeID, address, port, metadata) =>
      if bool_decide (nodeID = ID (localNode g)) then (g, [])
      else
        let m' := mkNode nodeID address port StateAlive incarnation now metadata in
        match members g !! nodeID with
        | None => (set_members (<[nodeID := m']> (members g)) g, [Emit EventJoin m'])
        | Some m =>
            if Incarnation m <? incarnation then
              let m' := mkNode (ID m) address port StateAlive incarnation now metadata in
              let g := set_members (<[nodeID := m']> (members g)) g in
              if bool_decide (State m = StateSuspect) || bool_decide (State m = StateDead)
              then (cancelSuspicion nodeID g, [Emit EventUpdate m'])
              else (g, [])
            else (g, [])
        end
  | _ => (g, [])
  end.

Definition handleDead (now : Z) (payload : list Z) (g : Gossip) : Gossip * list effect :=
  match decodeDead payload with
  | Ok (incarnation, nodeID) =>
      if bool_decide (nodeID = ID (localNode g)) then (refute now incarnation g, [])
      else match members g !! nodeID with
      | None => (g, [])
      | Some m =>
          if (Incarnation m <=? incarnation) && negb (bool_decide (State m = StateDead))
             && negb (bool_decide (State m = StateLeft)) then
            let m := node_set_inc incarnation (node_set_state StateDead m) in
            let g := set_members (<[nodeID := m]> (members g)) g in
            (cancelSuspicion nodeID g, [Emit EventLeave m])
          else (g, [])
      end
  | _ => (g, [])
  end.

(** The messages of [sendMemberList]: this node, then the alive and suspect members. *)
Definition eligible (excludeID : option string) (g : Gossip) : list GossipNode :=
  List.filter (fun m => (bool_decide (State m = StateAlive) || bool_decide (State m = StateSuspect))
                     && negb (bool_decide (Some (ID m) = excludeID)))
         (snd <$> map_range (members g)).

Definition sendMemberList (addr : string) (g : Gossip) : list effect :=
  let messages := omap (fun n => encoded (encode_alive_of n)) (localNode g :: eligible None g) in
  match messages with
  | [] => []
  | _ => match encoded (encodeCompound messages) with
         | Some compound => [SendTCP addr compound]
         | None => []
         end
  end.

Definition handleJoin (now : Z) (payload : list Z) (from : string) (g : Gossip)
    : Gossip * list effect :=
  match decodeNodePayload payload with
  | Ok (incarnation, nodeID, address, port, metadata) =>
      if bool_decide (nodeID = ID (localNode g)) then (g, [])
      else
        let '(g, effs) :=
          match members g !! nodeID with
          | None =>
              let m := mkNode nodeID address port StateAlive incarnation now metadata in
              (set_members (<[nodeID := m]> (members g)) g, [Emit EventJoin m])
          | Some m =>
              if (Incarnation m <? incarnation) || bool_decide (State m = StateDead)
                 || bool_decide (State m = StateLeft) then
                let m := mkNode (ID m) address port StateAlive incarnation now metadata in
                (cancelSuspicion nodeID (set_members (<[nodeID := m]> (members g)) g),
                 [Emit EventUpdate m])
              else (g, [])
          end in
        (queue_encoded now (encodeAlive incarnation nodeID address port metadata) g,
         effs ++ sendMemberList from g)
  | _ => (g, [])
  end.

Definition handleLeaveMsg (payload : list Z) (g : Gossip) : Gossip * list effect :=
  match decodeNodePayload payload with
  | Ok (_, nodeID, _, _, _) =>
      if bool_decide (nodeID = ID (localNode g)) then (g, [])
      else match members g !! nodeID with
      | Some m =>
          if negb (bool_decide (State m = StateLeft)) then
            let m := node_set_state StateLeft m in
            (cancelSuspicion nodeID (set_members (<[nodeID := m]> (members g)) g),
             [Emit EventLeave m])
          else (g, [])
      | None => (g, [])
      end
  | _ => (g, [])
  end.

(** The switch over piggybacked messages. *)
Definition handle_piggyback (now : Z) (msgType : Z) (payload : list Z) (from : string) (g : Gossip)
    : Gossip * list effect :=
  if msgType =? MsgSuspect then handleSuspect now payload g
  else if msgType =? MsgAlive then handleAlive now payload g
  else if msgType =? MsgDead then handleDead now payload g
  else if msgType =? MsgJoin then handleJoin now payload from g
  else if msgType =? MsgLeave then handleLeaveMsg payload g
  else (g, []).

(** The loop over the bytes that follow the first message; each round removes at least
    the three bytes of a header, so the length bounds the rounds. *)
Fixpoint handle_remaining (fuel : nat) (now : Z) (remaining : list Z) (from : string) (g : Gossip)
    : option (Gossip * list effect) :=
  match fuel with
  | O => None
  | S fuel =>
      if len remaining <? 3 then Some (g, [])
      else match decodeMessage remaining with
      | Ok (msgType, payload, remaining) =>
          let '(g, e1) := handle_piggyback now msgType payload from g in
          match handle_remaining fuel now remaining from g with
          | Some (g, e2) => Some (g, e1 ++ e2)
          | None => None
          end
      | Err _ => Some (g, [])
      | Panic => None
      end
  end.

(** [handleMessage] and [handleCompound] call each other; the messages in a compound are
    shorter than it, so the length of the packet bounds the nesting.  [None] is a panic
    of [decodeMessage]. *)
Fixpoint handleMessage (fuel : nat) (now : Z) (udp_ok : bool) (data : list Z) (from : string)
    (g : Gossip) : option (Gossip * list effect) :=
  match fuel with
  | O => None
  | S fuel =>
      match decodeMessage data with
      | Err _ => Some (g, [])
      | Panic => None
      | Ok (msgType, payload, remaining) =>
          let first :=
            if msgType =? MsgPing then Some (handlePing now payload from g)
            else if msgType =? MsgAck then Some (handleAck now payload g)
            else if msgType =? MsgPingReq then Some (handlePingReq udp_ok payload from g)
            else if msgType =? MsgCompound then
              match decodeCompound payload with
              | Ok messages =>
                  foldl (fun acc m =>
                    match acc with
                    | Some (g, e1) =>
                        match handleMessage fuel now udp_ok m from g with
                        | Some (g, e2) => Some (g, e1 ++ e2)
                        | None => None
                        end
                    | None => None
                    end) (Some (g, [])) messages
              | _ => Some (g, [])
              end
            else Some (handle_piggyback now msgType payload from g) in
          match first with
          | Some (g, e1) =>
              match handle_remaining (S (length remaining)) now remaining from g with
              | Some (g, e2) => Some (g, e1 ++ e2)
              | None => None
              end
          | None => None
          end
      end
  end.

(** ** Probing *)

(** [randomMember]: [idx] is the random index. *)
Definition randomMember (idx : nat) (g : Gossip) : option GossipNode := eligible None g !! idx.

(** [randomMembers]: [shuffle] is the random permutation. *)
Definition randomMembers (shuffle : list GossipNode -> list GossipNode) (n : Z) (excludeID : string)
    (g : Gossip) : list GossipNode :=
  take (Z.to_nat n) (shuffle (eligible (Some excludeID) g)).

(** The start of [probe]: [probeNode] registers the handler and sends the PING. *)
Definition probe_start (target : GossipNode) (g : Gossip) : Gossip * list effect :=
  let q := nextSeqNo g in
  let g := set_acks q ({[q]} ∪ ackHandlers g) g in
  match encoded (encodePing q (ID (localNode g)) (ID target)) with
  | None => (g, [])
  | Some ping =>
      let '(bs, g) := getBroadcasts (MaxMessageSize (config g) - len ping) g in
      (g, [SendUDP (Addr target) (ping ++ concat bs)])
  end.

Definition suspectNode (now : Z) (node : GossipNode) (g : Gossip) : Gossip * list effect :=
  match members g !! ID node with
  | Some m =>
      if bool_decide (State m = StateAlive) then
        let m := node_set_state StateSuspect m in
        let g := startSuspicion (ID node) (set_members (<[ID node := m]> (members g)) g) in
        (queue_encoded now (encodeSuspect (Incarnation m) (ID m)) g, [Emit EventUpdate m])
      else (g, [])
  | None => (g, [])
  end.

(** The direct probe failed: ask [indirectTargets], or suspect at once. *)
Definition probe_indirect (now q : Z) (target : GossipNode) (indirectTargets : list GossipNode)
    (g : Gossip) : Gossip * list effect :=
  match indirectTargets with
  | [] => suspectNode now target g
  | _ =>
      let sends := omap (fun peer =>
        SendUDP (Addr peer) <$> encoded (encodePingReq q (ID (localNode g)) (ID target)))
        indirectTargets in
      (set_acks (seqNo g) ({[q]} ∪ ackHandlers g) g, sends)
  end.

(** ** Dissemination and the API *)

Definition gossip (targets : list GossipNode) (g : Gossip) : Gossip * list effect :=
  match targets with
  | [] => (g, [])
  | _ =>
      let '(bs, g) := getBroadcasts (MaxMessageSize (config g)) g in
      match bs with
      | [] => (g, [])
      | _ => (g, (fun t => SendUDP (Addr t) (concat bs)) <$> targets)
      end
  end.

Definition NewGossip (now : Z) (c : GossipConfig) : go Gossip :=
  let* _ := Validate c in
  let nodeID := if bool_decide (NodeID c = "")
                then BindAddr c +:+ ":" +:+ pretty (BindPort c) else NodeID c in
  Ok (mkGossip c (mkNode nodeID (BindAddr c) (BindPort c) StateAlive 0 now ∅) ∅ 0 ∅ [] ∅).

Definition Leave (now : Z) (g : Gossip) : Gossip * list effect :=
  let g := set_localNode (node_set_state StateLeft (localNode g)) g in
  let n := localNode g in
  let m := encodeLeaveMessage (Incarnation n) (ID n) (Address n) (Port n) (Metadata n) in
  let sends := (fun p => SendUDP (Addr p) (default [] (encoded m))) <$> eligible None g in
  (queue_encoded now m g, sends).

Definition Members (g : Gossip) : list GossipNode := eligible None g.

Definition NumMembers (g : Gossip) : nat := length (eligible None g).

Definition AllMembers (g : Gossip) : list GossipNode :=
  localNode g :: (snd <$> map_range (members g)).

Definition SetMetadata (key value : string) (g : Gossip) : Gossip :=
  let n := localNode g in
  set_localNode (mkNode (ID n) (Address n) (Port n) (State n) (Incarnation n) (LastSeen n)
                   (<[key := value]> (Metadata n))) g.

End Handlers.
