(* ===== verification/GossipFacts.v ===== *)
(** * Membership: invariants, state machine and refutation

    The member table and the suspicion timers agree, a node never lists itself, every
    change of a member follows the precedence rules of the protocol, a packet of
    several messages has the effect of its messages, and a suspected node that hears
    of the suspicion clears it at its peers. *)
From S2P Require Import Prelude Http Bytes GoHash GossipEncoding Gossip.

Section Facts.
Context `{!MapRange} `{!SliceSort broadcast (fun b => - created b)}.

(** ** Steps of a node *)

(** Everything that can change a node: a packet, an expired timer, the phases of a
    probe, a gossip round and the API. *)
Inductive gossip_step : Gossip -> Gossip -> Prop :=
  | step_packet fuel now ok data from g g' effs :
      handleMessage fuel now ok data from g = Some (g', effs) -> gossip_step g g'
  | step_suspicion_timeout now id g :
      id ∈ suspicionTimers g -> gossip_step g (suspicion_timeout now id g).1
  | step_ack_timeout q g : gossip_step g (ack_timeout q g)
  | step_probe target g : gossip_step g (probe_start target g).1
  | step_indirect now q target peers g : gossip_step g (probe_indirect now q target peers g).1
  | step_suspect now target g : gossip_step g (suspectNode now target g).1
  | step_gossip targets g : gossip_step g (gossip targets g).1
  | step_leave now g : gossip_step g (Leave now g).1
  | step_metadata k v g : gossip_step g (SetMetadata k v g).

Definition reachable (now : Z) (c : GossipConfig) (g : Gossip) : Prop :=
  exists g0, NewGossip now c = Ok g0 /\ rtc gossip_step g0 g.

(** ** Lifting a relation from the handlers to whole packets *)

Record handled (R : relation Gossip) : Prop := {
  h_ping now p f g : R g (handlePing now p f g).1;
  h_ack now p g : R g (handleAck now p g).1;
  h_pingreq ok p f g : R g (handlePingReq ok p f g).1;
  h_suspect now p g : R g (handleSuspect now p g).1;
  h_alive now p g : R g (handleAlive now p g).1;
  h_dead now p g : R g (handleDead now p g).1;
  h_join now p f g : R g (handleJoin now p f g).1;
  h_leave p g : R g (handleLeaveMsg p g).1
}.

Section Lift.
Variable R : relation Gossip.
Context `{!PreOrder R}.
Hypothesis HR : handled R.

Lemma handle_piggyback_rel now ty p f g : R g (handle_piggyback now ty p f g).1.
Proof using Type*.
  unfold handle_piggyback. destruct HR. repeat case_match; simpl; auto. reflexivity.
Qed.

Lemma handle_remaining_rel fuel now r f g g' e :
  handle_remaining fuel now r f g = Some (g', e) -> R g g'.
Proof using Type*.
  revert r g g' e. induction fuel as [|fuel IH]; intros r g g' e; cbn [handle_remaining]; [done|].
  case_match; [by intros [= <- <-]|].
  destruct (decodeMessage r) as [[[ty p] rest]|err|]; [|by intros [= <- <-]|done].
  pose proof (handle_piggyback_rel now ty p f g) as Hp.
  destruct (handle_piggyback now ty p f g) as [g1 e1]. simpl in Hp.
  destruct (handle_remaining fuel now rest f g1) as [[g2 e2]|] eqn:E; [|done].
  intros [= <- <-]. etransitivity; eauto.
Qed.

Lemma fold_messages_rel fuel now ok f ms :
  (forall m g g' e, handleMessage fuel now ok m f g = Some (g', e) -> R g g') ->
  forall g e0 g' e,
    foldl (fun acc m =>
      match acc with
      | Some (g, e1) =>
          match handleMessage fuel now ok m f g with
          | Some (g, e2) => Some (g, e1 ++ e2)
          | None => None
          end
      | None => None
      end) (Some (g, e0)) ms = Some (g', e) -> R g g'.
Proof using Type*.
  intros IH. induction ms as [|m ms IHm]; intros g e0 g' e; simpl; [by intros [= <- <-]|].
  destruct (handleMessage fuel now ok m f g) as [[g1 e1]|] eqn:E.
  - intros HF. etransitivity; eauto.
  - intros HF. exfalso. clear -HF. induction ms; simpl in HF; [done|auto].
Qed.

Lemma handleMessage_rel fuel now ok data f g g' e :
  handleMessage fuel now ok data f g = Some (g', e) -> R g g'.
Proof using Type*.
  revert data g g' e. induction fuel as [|fuel IH]; intros data g g' e;
    cbn [handleMessage]; [done|].
  destruct (decodeMessage data) as [[[ty p] rest]|err|]; [|by intros [= <- <-]|done].
  match goal with |- match ?F with _ => _ end = _ -> _ => destruct F as [[g1 e1]|] eqn:EF; [|done] end.
  destruct (handle_remaining _ now rest f g1) as [[g2 e2]|] eqn:E; [|done].
  intros [= <- <-]. transitivity g1; [|by eapply handle_remaining_rel].
  clear E. destruct HR.
  repeat match type of EF with
  | (if ?b then _ else _) = _ => destruct b
  end.
  - pose proof (h_ping0 now p f g). destruct (handlePing _ _ _ _). by simplify_eq.
  - pose proof (h_ack0 now p g). destruct (handleAck _ _ _). by simplify_eq.
  - pose proof (h_pingreq0 ok p f g). destruct (handlePingReq _ _ _ _). by simplify_eq.
  - destruct (decodeCompound p); [|by simplify_eq..]. by eapply fold_messages_rel.
  - pose proof (handle_piggyback_rel now ty p f g). destruct (handle_piggyback _ _ _ _ _).
    by simplify_eq.
Qed.
End Lift.

(** ** The changes of the member table *)

Abbreviation table := (gmap string GossipNode * gset string)%type.

Definition table_of (g : Gossip) : table := (members g, suspicionTimers g).

(** [member_change m m']: the state and incarnation of a member may go from those of [m]
    to those of [m'] (the precedence rules of the protocol). *)
Inductive member_change (m m' : GossipNode) : Prop :=
  | mc_suspect :             (* a probe failed, or SUSPECT with a current incarnation *)
      State m = StateAlive -> State m' = StateSuspect -> Incarnation m <= Incarnation m' ->
      member_change m m'
  | mc_refute :              (* ALIVE or JOIN with a newer incarnation *)
      State m' = StateAlive -> Incarnation m < Incarnation m' -> member_change m m'
  | mc_ack :                 (* the suspect acknowledged a probe *)
      State m = StateSuspect -> State m' = StateAlive -> Incarnation m' = Incarnation m ->
      member_change m m'
  | mc_dead :                (* DEAD with a current incarnation, or an expired suspicion *)
      State m <> StateDead -> State m <> StateLeft -> State m' = StateDead ->
      Incarnation m <= Incarnation m' -> member_change m m'
  | mc_left :                (* LEAVE *)
      State m <> StateLeft -> State m' = StateLeft -> Incarnation m' = Incarnation m ->
      member_change m m'
  | mc_rejoin :              (* JOIN of a node that was dead or had left *)
      State m = StateDead \/ State m = StateLeft -> State m' = StateAlive -> member_change m m'.

(** One change of the table of the node [self]. *)
Inductive table_step (self : string) : table -> table -> Prop :=
  | ts_join ms ts id m' :
      ms !! id = None -> id <> self -> ID m' = id -> State m' = StateAlive ->
      table_step self (ms, ts) (<[id := m']> ms, ts)
  | ts_seen ms ts id m m' :
      ms !! id = Some m -> ID m' = ID m -> State m' = State m -> Incarnation m' = Incarnation m ->
      table_step self (ms, ts) (<[id := m']> ms, ts)
  | ts_change ms ts ts' id m m' :
      ms !! id = Some m -> ID m' = ID m -> member_change m m' ->
      ts' = (if bool_decide (State m' = StateSuspect) then {[id]} ∪ ts else ts ∖ {[id]})
        \/ ts' = ts /\ State m <> StateSuspect /\ State m' <> StateSuspect ->
      table_step self (ms, ts) (<[id := m']> ms, ts').

Definition table_rel (g g' : Gossip) : Prop :=
  ID (localNode g') = ID (localNode g) /\
  rtc (table_step (ID (localNode g))) (table_of g) (table_of g').

#[local] Instance table_rel_preorder : PreOrder table_rel.
Proof.
  split; [by split|]. intros g1 g2 g3 [E1 S1] [E2 S2]. split; [congruence|].
  rewrite E1 in S2. by etransitivity.
Qed.

Lemma table_rel_same g g' :
  ID (localNode g') = ID (localNode g) -> members g' = members g ->
  suspicionTimers g' = suspicionTimers g -> table_rel g g'.
Proof. intros E1 E2 E3. split; [done|]. unfold table_of. by rewrite E2, E3. Qed.

Lemma table_rel_step g g' :
  ID (localNode g') = ID (localNode g) ->
  table_step (ID (localNode g)) (table_of g) (table_of g') -> table_rel g g'.
Proof. intros E1 E2. split; [done|]. by apply rtc_once. Qed.

(** Operations on the broadcast queue and on acknowledgements leave the table alone. *)
Lemma getBroadcasts_table limit g bs g' :
  getBroadcasts limit g = (bs, g') -> table_of g' = table_of g /\ localNode g' = localNode g.
Proof.
  unfold getBroadcasts. case_match; [by intros [= <- <-]|].
  destruct (take_broadcasts _ _ _). by intros [= <- <-].
Qed.

Lemma queue_encoded_table now m g :
  table_of (queue_encoded now m g) = table_of g /\
  localNode (queue_encoded now m g) = localNode g.
Proof. unfold queue_encoded. by destruct (encoded m). Qed.

Lemma table_rel_queue now m g g' : table_rel g g' -> table_rel g (queue_encoded now m g').
Proof.
  intros [E1 E2]. destruct (queue_encoded_table now m g') as [E3 E4].
  split; [by rewrite E4|by rewrite E3].
Qed.

Lemma table_rel_broadcasts limit g g' bs g'' :
  getBroadcasts limit g' = (bs, g'') -> table_rel g g' -> table_rel g g''.
Proof.
  intros E [E1 E2]. destruct (getBroadcasts_table _ _ _ _ E) as [E3 E4].
  split; [by rewrite E4|by rewrite E3].
Qed.

Lemma table_rel_change id m m' g ts' :
  members g !! id = Some m -> ID m' = ID m -> member_change m m' ->
  ts' = (if bool_decide (State m' = StateSuspect) then {[id]} ∪ suspicionTimers g
         else suspicionTimers g ∖ {[id]})
    \/ ts' = suspicionTimers g /\ State m <> StateSuspect /\ State m' <> StateSuspect ->
  table_rel g (set_timers ts' (set_members (<[id := m']> (members g)) g)).
Proof. intros. apply table_rel_step; [done|]. by eapply ts_change. Qed.

Lemma table_rel_join id m' g :
  members g !! id = None -> id <> ID (localNode g) -> ID m' = id -> State m' = StateAlive ->
  table_rel g (set_members (<[id := m']> (members g)) g).
Proof. intros. apply table_rel_step; [done|]. by eapply ts_join. Qed.

Lemma table_rel_seen id m m' g :
  members g !! id = Some m -> ID m' = ID m -> State m' = State m -> Incarnation m' = Incarnation m ->
  table_rel g (set_members (<[id := m']> (members g)) g).
Proof. intros. apply table_rel_step; [done|]. by eapply ts_seen. Qed.

Lemma handlePing_table now p f g : table_rel g (handlePing now p f g).1.
Proof.
  unfold handlePing. destruct (decodePing p) as [[[q s] t]| |]; [|reflexivity..].
  assert (H1 : table_rel g (markNodeAlive now s g)).
  { unfold markNodeAlive. case_match; [reflexivity|].
    destruct (members g !! s) eqn:E; [|reflexivity]. by eapply table_rel_seen. }
  destruct (encoded _); [|done]. destruct (getBroadcasts _ _) as [bs g'] eqn:E. simpl.
  by eapply table_rel_broadcasts.
Qed.

Lemma handleAck_table now p g : table_rel g (handleAck now p g).1.
Proof.
  unfold handleAck. destruct (decodeAck p) as [[q s]| |]; [|reflexivity..].
  case_match; [|reflexivity]. set (g1 := set_acks _ _ g).
  assert (E1 : table_rel g g1) by by apply table_rel_same.
  destruct (members g1 !! s) as [m|] eqn:E; [|done]. case_match; simpl; b2p.
  - transitivity g1; [done|].
    apply (table_rel_change s m (node_set_seen now (node_set_state StateAlive m)) g1
             (suspicionTimers g1 ∖ {[s]})); [done|done|by apply mc_ack|by left].
  - transitivity g1; [done|]. by apply (table_rel_seen s m (node_set_seen now m) g1).
Qed.

Lemma handlePingReq_table ok p f g : table_rel g (handlePingReq ok p f g).1.
Proof.
  unfold handlePingReq. destruct (decodePingReq p) as [[[q s] t]| |]; [|reflexivity..].
  destruct (members g !! t); [|reflexivity]. destruct (encoded _); by apply table_rel_same.
Qed.

Lemma refute_table now i g : table_rel g (refute now i g).
Proof. unfold refute. apply table_rel_queue. by apply table_rel_same. Qed.

Lemma handleSuspect_table now p g : table_rel g (handleSuspect now p g).1.
Proof.
  unfold handleSuspect. destruct (decodeSuspect p) as [[i n]| |]; [|reflexivity..].
  case_match; [case_match; [apply refute_table|reflexivity]|].
  destruct (members g !! n) as [m|] eqn:E; [|reflexivity].
  case_match; [|reflexivity]. b2p. simpl.
  apply (table_rel_change n m (node_set_inc i (node_set_state StateSuspect m)) g);
    [done|done|by apply mc_suspect|by left].
Qed.

Lemma handleAlive_table now p g : table_rel g (handleAlive now p g).1.
Proof.
  unfold handleAlive. destruct (decodeAlive p) as [[[[[i n] a] po] md]| |]; [|reflexivity..].
  case_match; [reflexivity|]. b2p.
  destruct (members g !! n) as [m|] eqn:E; [|by apply table_rel_join].
  case_match; [|reflexivity]. b2p.
  set (m' := mkNode (ID m) a po StateAlive i now md).
  destruct (bool_decide (State m = StateSuspect)) eqn:S1; simpl.
  - by apply (table_rel_change n m m' g); [|..|apply mc_refute|left].
  - destruct (bool_decide (State m = StateDead)) eqn:S2; simpl.
    + by apply (table_rel_change n m m' g); [|..|apply mc_refute|left].
    + b2p. by apply (table_rel_change n m m' g (suspicionTimers g)); [|..|apply mc_refute|right].
Qed.

Lemma handleDead_table now p g : table_rel g (handleDead now p g).1.
Proof.
  unfold handleDead. destruct (decodeDead p) as [[i n]| |]; [|reflexivity..].
  case_match; [apply refute_table|]. destruct (members g !! n) as [m|] eqn:E; [|reflexivity].
  case_match; [|reflexivity]. b2p. simpl.
  apply (table_rel_change n m (node_set_inc i (node_set_state StateDead m)) g);
    [done|done|by apply mc_dead|by left].
Qed.

Lemma handleJoin_table now p f g : table_rel g (handleJoin now p f g).1.
Proof.
  unfold handleJoin. destruct (decodeNodePayload p) as [[[[[i n] a] po] md]| |]; [|reflexivity..].
  case_match; [reflexivity|]. b2p.
  destruct (members g !! n) as [m|] eqn:E; simpl; [|by apply table_rel_queue, table_rel_join].
  destruct (Incarnation m <? i) eqn:C; simpl; b2p.
  - apply table_rel_queue. set (m' := mkNode (ID m) a po StateAlive i now md).
    by apply (table_rel_change n m m' g); [|..|apply mc_refute|left].
  - destruct (bool_decide (State m = StateDead) || bool_decide (State m = StateLeft)) eqn:S1;
      simpl; [|apply table_rel_queue; reflexivity].
    apply table_rel_queue. set (m' := mkNode (ID m) a po StateAlive i now md).
    apply (table_rel_change n m m' g); [done|done| |by left].
    apply mc_rejoin; [|done]. apply orb_true_iff in S1 as [S1|S1]; b2p; auto.
Qed.

Lemma handleLeaveMsg_table p g : table_rel g (handleLeaveMsg p g).1.
Proof.
  unfold handleLeaveMsg. destruct (decodeNodePayload p) as [[[[[i n] a] po] md]| |]; [|reflexivity..].
  case_match; [reflexivity|]. destruct (members g !! n) as [m|] eqn:E; [|reflexivity].
  case_match; [|reflexivity]. b2p. simpl.
  apply (table_rel_change n m (node_set_state StateLeft m) g);
    [done|done|by apply mc_left|by left].
Qed.

Lemma handled_table : handled table_rel.
Proof.
  split; intros; auto using handlePing_table, handleAck_table, handlePingReq_table,
    handleSuspect_table, handleAlive_table, handleDead_table, handleJoin_table,
    handleLeaveMsg_table.
Qed.

Lemma suspectNode_table now n g : table_rel g (suspectNode now n g).1.
Proof.
  unfold suspectNode. destruct (members g !! ID n) as [m|] eqn:E; [|reflexivity].
  case_match; [|reflexivity]. b2p. apply table_rel_queue.
  apply (table_rel_change (ID n) m (node_set_state StateSuspect m) g);
    [done|done|by apply mc_suspect|by left].
Qed.

(** ** The invariant *)

(** Entries are stored under their identifier, the node does not list itself, and exactly
    the suspects have a running timer. *)
Definition table_inv (self : string) (t : table) : Prop :=
  (forall id m, t.1 !! id = Some m -> ID m = id) /\
  t.1 !! self = None /\
  (forall id, id ∈ t.2 <-> exists m, t.1 !! id = Some m /\ State m = StateSuspect).

Definition gossip_inv (g : Gossip) : Prop := table_inv (ID (localNode g)) (table_of g).

Lemma table_step_inv self t t' : table_step self t t' -> table_inv self t -> table_inv self t'.
Proof.
  intros Hs (Hk & Hself & Ht). unfold table_inv in *.
  destruct Hs as [ms ts id m' Hn Hne Hid Hst|ms ts id m m' Hm Hid Hst Hinc
                 |ms ts ts' id m m' Hm Hid Hch Hts]; simpl in *.
  - split_and!.
    + intros j n [[<- <-]|[? ?]]%lookup_insert_Some; auto.
    + by rewrite lookup_insert_ne.
    + intros j. rewrite Ht. split; intros (n & E & S).
      * exists n. split; [|done]. rewrite lookup_insert_ne; [done|congruence].
      * apply lookup_insert_Some in E as [[<- <-]|[? ?]]; [congruence|eauto].
  - split_and!.
    + intros j n [[<- <-]|[? ?]]%lookup_insert_Some; [rewrite Hid|]; auto.
    + rewrite lookup_insert_ne; [done|congruence].
    + intros j. rewrite Ht. split; intros (n & E & S).
      * destruct (decide (j = id)) as [->|].
        -- exists m'. rewrite lookup_insert_eq. split; [done|]. congruence.
        -- exists n. by rewrite lookup_insert_ne.
      * apply lookup_insert_Some in E as [[<- <-]|[? ?]]; [|by eauto].
        exists m. split; [done|congruence].
  - split_and!.
    + intros j n [[<- <-]|[? ?]]%lookup_insert_Some; [rewrite Hid|]; auto.
    + rewrite lookup_insert_ne; [done|congruence].
    + intros j. destruct (decide (j = id)) as [->|Hj].
      * rewrite lookup_insert_eq. transitivity (State m' = StateSuspect);
          [|naive_solver]. destruct Hts as [->|(-> & S1 & S2)].
        -- case_bool_decide; set_solver.
        -- rewrite Ht. split; [intros (n & E & S); congruence|done].
      * rewrite lookup_insert_ne by done. rewrite <- Ht.
        destruct Hts as [->|(-> & _)]; [case_bool_decide|]; set_solver.
Qed.

Lemma table_rel_inv g g' : table_rel g g' -> gossip_inv g -> gossip_inv g'.
Proof.
  intros [E Hr]. unfold gossip_inv. rewrite E. revert Hr.
  generalize (table_of g), (table_of g'). intros t t' Hr.
  induction Hr; eauto using table_step_inv.
Qed.

(** Every step of a node changes its table by the rules. *)
Lemma gossip_step_table g g' : gossip_step g g' -> gossip_inv g -> table_rel g g'.
Proof.
  intros Hs Hinv. destruct Hs as [fuel now ok data from g g' effs Hm|now id g Hid|q g|target g
    |now q target peers g|now target g|targets g|now g|k v g].
  - exact (handleMessage_rel table_rel handled_table _ _ _ _ _ _ _ _ Hm).
  - unfold suspicion_timeout. destruct Hinv as (_ & _ & Ht).
    destruct (proj1 (Ht id) Hid) as (m & Hm & Hsus). simpl in Hm. rewrite Hm.
    rewrite bool_decide_true by done. apply table_rel_step.
    { simpl. by rewrite (proj2 (queue_encoded_table _ _ _)). }
    set (m' := node_set_state StateDead m).
    destruct (queue_encoded_table now (encodeDead (Incarnation m') (ID m'))
      (set_members (<[id := m']> (members g)) g)) as [E _].
    injection E as E1 E2. unfold table_of. simpl. rewrite E1, E2. simpl.
    apply (ts_change _ _ _ _ id m m'); [done|done| |by left].
    apply mc_dead; simpl; congruence || lia.
  - by apply table_rel_same.
  - unfold probe_start. destruct (encoded _); [|by apply table_rel_same].
    destruct (getBroadcasts _ _) as [bs g'] eqn:E. simpl.
    eapply table_rel_broadcasts; [exact E|]. by apply table_rel_same.
  - unfold probe_indirect. destruct peers; [apply suspectNode_table|by apply table_rel_same].
  - apply suspectNode_table.
  - unfold gossip. destruct targets; [reflexivity|].
    destruct (getBroadcasts _ _) as [bs g'] eqn:E.
    assert (table_rel g g') by (by eapply table_rel_broadcasts).
    by destruct bs.
  - unfold Leave. apply table_rel_queue. by apply table_rel_same.
  - by apply table_rel_same.
Qed.

Lemma reachable_inv now c g : reachable now c g -> gossip_inv g.
Proof.
  intros (g0 & Hnew & Hr).
  assert (gossip_inv g0) as H0.
  { unfold NewGossip in Hnew. destruct (Validate c); [|done..]. simpl in Hnew.
    injection Hnew as <-. unfold gossip_inv, table_inv. simpl. split_and!; [done|done|].
    intros id. rewrite elem_of_empty. split; [done|]. intros (m & E & _). done. }
  induction Hr as [|g0 g1 g2 Hs Hr IH] in H0, Hnew |- *; [done|].
  clear Hnew. revert H0. intros H0.
  assert (gossip_inv g1) by eauto using table_rel_inv, gossip_step_table. clear IH.
  clear H0 Hs. induction Hr; eauto using table_rel_inv, gossip_step_table.
Qed.


(** The state and incarnation of a member in a table, followed through its changes. *)
Inductive member_path : GossipNode -> GossipNode -> Prop :=
  | mp_same m m' : State m' = State m -> Incarnation m' = Incarnation m -> member_path m m'
  | mp_step m1 m2 m3 : member_path m1 m2 -> member_change m2 m3 -> member_path m1 m3
  | mp_keep m1 m2 m3 :
      member_path m1 m2 -> State m3 = State m2 -> Incarnation m3 = Incarnation m2 ->
      member_path m1 m3.

Lemma table_steps_member self t t' id m :
  rtc (table_step self) t t' -> t.1 !! id = Some m ->
  exists m', t'.1 !! id = Some m' /\ member_path m m'.
Proof.
  intros Hr Hm. revert t' Hr.
  refine (rtc_ind_r (fun t' => exists m', t'.1 !! id = Some m' /\ member_path m m') t _ _).
  { exists m. split; [done|by constructor]. }
  intros t1 t2 _ Hs (m1 & E1 & P1).
  destruct Hs as [ms ts j n Hn Hne Hid Hst|ms ts j n n' Hn Hid Hst Hinc
                 |ms ts ts' j n n' Hn Hid Hch Hts]; simpl in *.
  - exists m1. split; [|done]. rewrite lookup_insert_ne; [done|congruence].
  - destruct (decide (j = id)) as [->|].
    + exists n'. rewrite lookup_insert_eq. split; [done|].
      assert (n = m1) as -> by congruence. by eapply mp_keep.
    + exists m1. by rewrite lookup_insert_ne.
  - destruct (decide (j = id)) as [->|].
    + exists n'. rewrite lookup_insert_eq. split; [done|].
      assert (n = m1) as -> by congruence. by eapply mp_step.
    + exists m1. by rewrite lookup_insert_ne.
Qed.

(** A known member is never forgotten, and its recorded state changes only by the
    precedence rules of the protocol: only an alive member becomes suspect and only with
    a current incarnation; a suspect or dead member becomes alive again only by an
    acknowledgement (suspects), a newer incarnation, or a JOIN (dead or left members);
    dead and left members are not declared dead again. *)
Theorem gossip_member_transitions now c g g' id m :
  reachable now c g -> rtc gossip_step g g' -> members g !! id = Some m ->
  exists m', members g' !! id = Some m' /\ member_path m m'.
Proof.
  intros Hreach Hr Hm. pose proof (reachable_inv _ _ _ Hreach) as Hinv.
  assert (Ht : table_rel g g').
  { clear Hreach Hm. induction Hr as [|g1 g2 g3 Hs _ IH]; [reflexivity|].
    pose proof (gossip_step_table _ _ Hs Hinv) as H1.
    etransitivity; [exact H1|]. apply IH. by eapply table_rel_inv. }
  by apply (table_steps_member _ _ _ _ _ (proj2 Ht)).
Qed.

(** ** Packets *)

(** Processing packets one after the other. *)
Definition handle_all (fuel : nat) (now : Z) (ok : bool) (from : string)
    (acc : option (Gossip * list effect)) (packets : list (list Z)) : option (Gossip * list effect) :=
  foldl (fun acc b =>
    match acc with
    | Some (g, e1) =>
        match handleMessage fuel now ok b from g with
        | Some (g, e2) => Some (g, e1 ++ e2)
        | None => None
        end
    | None => None
    end) acc packets.

(** The message types that are queued as broadcasts. *)
Definition is_update (m : message) : Prop :=
  match m with
  | Suspect _ _ | Alive _ _ _ _ _ | Dead _ _ | Join _ _ _ _ _ | GossipEncoding.Leave _ _ _ _ _ => True
  | _ => False
  end.

(** A frame with an update, as it appears in a packet. *)
Definition update_frame (b : list Z) : Prop :=
  exists ty p, b = ty :: PutUint16 (len p) ++ p /\ len p <= 65532 /\ MsgSuspect <= ty <= MsgLeave.

Lemma encode_update m b :
  fields_ok m -> is_update m -> encode m = Ok b -> len b <= 65535 -> update_frame b.
Proof.
  intros Hf Hu He Hl. destruct (encode_frame m b Hf He) as (p & Hp & Hd).
  pose proof (encodeMessage_inv _ _ _ Hp).
  rewrite encodeMessage_ok in Hp by (done || apply message_type_range).
  assert (b = message_type m :: PutUint16 (len p) ++ p) as -> by congruence.
  exists (message_type m), p. split_and!; [done|revert Hl; len_lia|by destruct m..].
Qed.

Lemma handle_remaining_nil fuel now from g :
  handle_remaining (S fuel) now [] from g = Some (g, []).
Proof. done. Qed.

Lemma handle_remaining_frame fuel now ty p r from g :
  len p <= 65532 ->
  handle_remaining (S fuel) now (ty :: PutUint16 (len p) ++ p ++ r) from g =
  let '(g', e1) := handle_piggyback now ty p from g in
  match handle_remaining fuel now r from g' with
  | Some (g'', e2) => Some (g'', e1 ++ e2)
  | None => None
  end.
Proof.
  intros Hp. cbn [handle_remaining]. rewrite (proj2 (Z.ltb_ge _ _)) by len_lia.
  by rewrite decodeMessage_frame by done.
Qed.

(** A packet that starts with an update: the update, then the rest. *)
Lemma handleMessage_update fuel now ok ty p r from g :
  len p <= 65532 -> MsgSuspect <= ty <= MsgLeave ->
  handleMessage (S fuel) now ok (ty :: PutUint16 (len p) ++ p ++ r) from g =
  let '(g', e1) := handle_piggyback now ty p from g in
  match handle_remaining (S (length r)) now r from g' with
  | Some (g'', e2) => Some (g'', e1 ++ e2)
  | None => None
  end.
Proof.
  intros Hp Hty. unfold MsgSuspect, MsgLeave in Hty.
  cbn [handleMessage]. rewrite decodeMessage_frame by done.
  unfold MsgPing, MsgAck, MsgPingReq, MsgCompound.
  rewrite !(proj2 (Z.eqb_neq _ _)) by lia.
  by destruct (handle_piggyback now ty p from g).
Qed.

Lemma handle_all_None fuel now ok from bs : handle_all fuel now ok from None bs = None.
Proof. induction bs; simpl; auto. Qed.

Lemma handle_all_cons fuel now ok from g e b bs :
  handle_all fuel now ok from (Some (g, e)) (b :: bs) =
  match handleMessage fuel now ok b from g with
  | Some (g1, e1) => handle_all fuel now ok from (Some (g1, e ++ e1)) bs
  | None => None
  end.
Proof.
  unfold handle_all. cbn [foldl]. destruct (handleMessage fuel now ok b from g) as [[g1 e1]|]; [done|].
  apply handle_all_None.
Qed.

Lemma handle_all_acc fuel now ok from bs g e :
  handle_all fuel now ok from (Some (g, e)) bs =
  match handle_all fuel now ok from (Some (g, [])) bs with
  | Some (g', e') => Some (g', e ++ e')
  | None => None
  end.
Proof.
  revert g e. induction bs as [|b bs IH]; intros g e; [simpl; by rewrite app_nil_r|].
  rewrite !handle_all_cons. destruct (handleMessage fuel now ok b from g) as [[g1 e1]|]; [|done].
  rewrite (IH g1 (e ++ e1)), (IH g1 ([] ++ e1)).
  destruct (handle_all _ _ _ _ (Some (g1, [])) bs) as [[g2 e2]|]; [|done].
  by rewrite <- app_assoc.
Qed.

Lemma handleMessage_one fuel now ok ty p from g :
  len p <= 65532 -> MsgSuspect <= ty <= MsgLeave ->
  handleMessage (S fuel) now ok (ty :: PutUint16 (len p) ++ p) from g =
  Some (handle_piggyback now ty p from g).
Proof.
  intros Hp Hty. rewrite <- (app_nil_r p) at 2. rewrite handleMessage_update by done.
  destruct (handle_piggyback now ty p from g) as [g1 e1].
  rewrite handle_remaining_nil. by rewrite app_nil_r.
Qed.

Lemma handle_remaining_concat fuel fuel' now ok from bs g :
  Forall update_frame bs -> (length (concat bs) < fuel)%nat ->
  handle_remaining fuel now (concat bs) from g =
  handle_all (S fuel') now ok from (Some (g, [])) bs.
Proof.
  intros Hb. revert fuel g. induction Hb as [|b bs (ty & p & -> & Hp & Hty) _ IH];
    intros fuel g Hfuel; destruct fuel as [|fuel]; try (simpl in Hfuel; lia); [done|].
  cbn [concat]. rewrite <- app_comm_cons, <- app_assoc, handle_remaining_frame by done.
  rewrite handle_all_cons, handleMessage_one by done.
  destruct (handle_piggyback now ty p from g) as [g1 e1]. rewrite IH.
  - by rewrite (handle_all_acc _ _ _ _ _ g1 ([] ++ e1)).
  - simpl in Hfuel. rewrite !length_app in Hfuel. lia.
Qed.

(** A gossip packet, the concatenation of queued updates, is processed like its
    messages one by one: the first goes through the main switch, the others through the
    piggyback loop, and none is lost or changed. *)
Theorem gossip_packet_is_sequence fuel now ok from g ms bs :
  bs <> [] -> Forall2 (fun m b => encode m = Ok b) ms bs ->
  Forall (fun m => fields_ok m /\ is_update m) ms -> Forall (fun b => len b <= 65535) bs ->
  handleMessage (S fuel) now ok (concat bs) from g =
  handle_all (S fuel) now ok from (Some (g, [])) bs.
Proof.
  intros Hne He Hm Hl.
  assert (Hb : Forall update_frame bs).
  { clear Hne. revert Hm Hl. induction He as [|m b ms bs E _ IH]; [constructor|].
    intros [[Hf Hu] Hm]%Forall_cons [Hlb Hl]%Forall_cons.
    constructor; eauto using encode_update. }
  destruct Hb as [|b bs (ty & p & -> & Hp & Hty) Hb]; [done|].
  cbn [concat]. rewrite <- app_comm_cons, <- app_assoc, handleMessage_update by done.
  rewrite handle_all_cons, handleMessage_one by done.
  destruct (handle_piggyback now ty p from g) as [g1 e1].
  rewrite (handle_remaining_concat _ fuel now ok from bs g1 Hb) by lia.
  by rewrite (handle_all_acc _ _ _ _ _ g1 ([] ++ e1)).
Qed.

(** ** Refutation *)

(** A node that hears that it is suspected refutes it: it raises its incarnation
    above the suspicion's and queues an ALIVE message; every peer that processes the
    bytes of that message, and had recorded the suspected or any older incarnation,
    holds the node for alive again and stops its suspicion timer. *)
Theorem refutation_clears_suspicion now payload i bs g :
  decodeSuspect payload = Ok (i, ID (localNode g)) ->
  0 <= Incarnation (localNode g) <= i -> i + 1 < 2 ^ 32 -> 0 <= Port (localNode g) < 2 ^ 16 ->
  encode_alive_of (node_set_inc (i + 1) (localNode g)) = Ok bs -> len bs <= 65535 ->
  let g' := (handleSuspect now payload g).1 in
  Incarnation (localNode g') = i + 1 /\
  (exists b, broadcasts g' = broadcasts g ++ [b] /\ msg b = bs) /\
  forall peer m fuel now' ok from,
    gossip_inv peer -> ID (localNode peer) <> ID (localNode g) ->
    members peer !! ID (localNode g) = Some m -> Incarnation m <= i ->
    exists peer' effs m', handleMessage (S fuel) now' ok bs from peer = Some (peer', effs) /\
      members peer' !! ID (localNode g) = Some m' /\ State m' = StateAlive /\
      Incarnation m' = i + 1 /\ ID (localNode g) ∉ suspicionTimers peer'.
Proof.
  intros Hd Hinc Hmax Hport Henc Hlen.
  assert (Hg : (handleSuspect now payload g).1 =
    queueBroadcast now bs (set_localNode (node_set_inc (i + 1) (localNode g)) g)).
  { unfold handleSuspect. rewrite Hd, bool_decide_true by done.
    rewrite (proj2 (Z.leb_le _ _)) by lia. simpl. unfold refute.
    rewrite u32_small by (unfold in_u32; lia). unfold queue_encoded. by rewrite Henc. }
  rewrite Hg. split_and!; [done|by eexists|].
  intros peer m fuel now' ok from Hinv Hself Hm Hi.
  set (n := node_set_inc (i + 1) (localNode g)) in *.
  assert (Hframe : exists p, bs = MsgAlive :: PutUint16 (len p) ++ p /\ len p <= 65532 /\
    decode_payload MsgAlive p = Ok (Alive (i + 1) (ID n) (Address n) (Port n) (Metadata n))).
  { destruct (encode_frame (Alive (i + 1) (ID n) (Address n) (Port n) (Metadata n)) bs)
      as (p & Hp & Hdec); [unfold fields_ok, in_u32; simpl; lia|exact Henc|].
    pose proof (encodeMessage_inv _ _ _ Hp). rewrite encodeMessage_ok in Hp by done.
    assert (bs = MsgAlive :: PutUint16 (len p) ++ p) as -> by (cbn [message_type] in Hp; congruence).
    exists p. assert (len p <= 65532) by (revert Hlen; len_lia). auto. }
  destruct Hframe as (p & -> & Hp & Hdec). clear Hg Henc Hlen.
  rewrite handleMessage_one by done. unfold handle_piggyback. simpl.
  unfold decode_payload in Hdec. simpl in Hdec.
  unfold handleAlive. destruct (decodeAlive p) as [[[[[i' n'] a'] p'] md']| |]; [|done..].
  simpl in Hdec. injection Hdec as -> -> -> -> ->. simpl.
  rewrite bool_decide_false by congruence. rewrite Hm.
  rewrite (proj2 (Z.ltb_lt _ _)) by lia.
  set (m' := mkNode _ _ _ _ _ _ _).
  destruct Hinv as (_ & _ & Ht). simpl in Ht.
  destruct (bool_decide (State m = StateSuspect)) eqn:S1; simpl.
  { do 3 eexists. split; [done|]. simpl. rewrite lookup_insert_eq. split; [done|]. set_solver. }
  destruct (bool_decide (State m = StateDead)) eqn:S2; simpl.
  { do 3 eexists. split; [done|]. simpl. rewrite lookup_insert_eq. split; [done|]. set_solver. }
  do 3 eexists. split; [done|]. simpl. rewrite lookup_insert_eq. split_and!; [done..|].
  b2p. rewrite Ht. intros (m2 & E & S). simpl in E. congruence.
Qed.

(** The refutation of the largest incarnation wraps around to zero. *)
Theorem largest_incarnation_wraps now payload g :
  decodeSuspect payload = Ok (2 ^ 32 - 1, ID (localNode g)) ->
  Incarnation (localNode g) <= 2 ^ 32 - 1 ->
  Incarnation (localNode (handleSuspect now payload g).1) = 0.
Proof.
  intros Hd Hi. unfold handleSuspect. rewrite Hd, bool_decide_true by done.
  rewrite (proj2 (Z.leb_le _ _)) by lia. simpl. unfold refute.
  by rewrite (proj2 (queue_encoded_table _ _ _)).
Qed.

(** A DEAD message about the node itself is answered without comparing incarnations:
    a stale one lowers the node's incarnation. *)
Theorem stale_dead_lowers_incarnation now payload i g :
  decodeDead payload = Ok (i, ID (localNode g)) -> 0 <= i -> i + 1 < Incarnation (localNode g) ->
  Incarnation (localNode g) < 2 ^ 32 ->
  Incarnation (localNode (handleDead now payload g).1) = i + 1 /\
  Incarnation (localNode (handleDead now payload g).1) < Incarnation (localNode g).
Proof.
  intros Hd Hi Hlt Hmax. unfold handleDead. rewrite Hd, bool_decide_true by done. simpl.
  unfold refute. rewrite (proj2 (queue_encoded_table _ _ _)). simpl.
  rewrite u32_small; unfold in_u32; lia.
Qed.

(** ** Broadcast queue *)

Lemma take_broadcasts_bound limit used bs :
  used <= limit -> used + len (concat (take_broadcasts limit used bs).1) <= limit.
Proof.
  revert used. induction bs as [|b bs IH]; intros used Hu; simpl; [rewrite len_nil; lia|].
  destruct (Z.leb_spec (used + len (msg b)) limit) as [Hle|].
  - specialize (IH (used + len (msg b)) Hle).
    destruct (take_broadcasts limit (used + len (msg b)) bs) as [r k]. simpl in *.
    rewrite len_app. lia.
  - specialize (IH used Hu). by destruct (take_broadcasts limit used bs).
Qed.

(** Every packet of a gossip round fits the configured size. *)
Theorem gossip_packets_fit targets g :
  0 <= MaxMessageSize (config g) ->
  Forall (fun e => match e with SendUDP _ m => len m <= MaxMessageSize (config g) | _ => False end)
    (gossip targets g).2.
Proof.
  intros Hmax. unfold gossip. destruct targets as [|t ts]; [constructor|].
  unfold getBroadcasts. destruct (broadcasts g) as [|b0 bs0]; [constructor|].
  pose proof (take_broadcasts_bound (MaxMessageSize (config g)) 0 (slice_sort (b0 :: bs0)) Hmax).
  destruct (take_broadcasts _ _ _) as [r k]. destruct r as [|m r]; [constructor|].
  cbn [fst snd] in *. apply Forall_fmap, Forall_true. intros x. cbn [compose]. lia.
Qed.

(** ** Every packet is processed to its end *)

Lemma decodeMessage_inv data ty p r :
  Forall is_byte data -> len data <= 65535 -> decodeMessage data = Ok (ty, p, r) ->
  Forall is_byte p /\ Forall is_byte r /\ len data = 3 + len p + len r.
Proof.
  intros Hd Hl. unfold decodeMessage, check. destruct (len data <? 3) eqn:C; [done|]. b2p.
  destruct (index_total data 0) as (b & -> & _); [done|lia|]. cbn [go_bind].
  destruct (slice_total data 1 3) as (h & -> & Hh & Hb); [done|lia..|]. cbn [go_bind].
  destruct (Uint16_total h) as (n & -> & Hn); [done|lia|]. cbn [go_bind].
  destruct (len data - 3 <? n) eqn:C2; [done|]. b2p. rewrite u16_small by lia.
  destruct (slice_total data 3 (3 + n)) as (x & -> & Hx & Hxb); [done|lia..|]. cbn [go_bind].
  unfold slice_from.
  destruct (slice_total data (3 + n) (len data)) as (y & -> & Hy & Hyb); [done|lia..|].
  cbn [go_bind]. intros [= <- <- <-]. split_and!; [done..|]. lia.
Qed.

Lemma decodeMessage_no_panic data :
  Forall is_byte data -> len data <= 65535 -> decodeMessage data <> Panic.
Proof.
  intros Hd Hl. unfold decodeMessage. repeat np. rewrite u16_small by lia. repeat np.
Qed.

Lemma handle_remaining_total fuel now r from g :
  Forall is_byte r -> len r <= 65535 -> (length r < fuel)%nat ->
  handle_remaining fuel now r from g <> None.
Proof.
  revert r g. induction fuel as [|fuel IH]; intros r g Hr Hl Hf; [lia|].
  cbn [handle_remaining]. case_match; [done|].
  pose proof (decodeMessage_no_panic r Hr Hl) as Hnp.
  destruct (decodeMessage r) as [[[ty p] rest]|e|] eqn:E; [|done..].
  destruct (decodeMessage_inv _ _ _ _ Hr Hl E) as (_ & Hrest & Hlen).
  destruct (handle_piggyback now ty p from g) as [g1 e1].
  assert (handle_remaining fuel now rest from g1 <> None) as Hrec.
  { apply IH; [done|unfold len in *; lia..]. }
  by destruct (handle_remaining fuel now rest from g1) as [[? ?]|].
Qed.

Lemma decode_messages_inv count p off acc ms :
  Forall is_byte p -> 0 <= off -> Forall (fun m => Forall is_byte m /\ len m <= len p) acc ->
  decode_messages count p off acc = Ok ms ->
  Forall (fun m => Forall is_byte m /\ len m <= len p) ms.
Proof.
  intros Hp. revert off acc. induction count as [|count IH]; intros off acc Ho Hacc;
    cbn [decode_messages]; [by intros [= <-]|].
  unfold check. destruct (len p <? off + 2) eqn:C1; [done|]. b2p.
  destruct (slice_total p off (off + 2)) as (x & -> & Hx & Hxb); [done|lia..|]. cbn [go_bind].
  destruct (Uint16_total x) as (n & -> & Hn); [done|lia|]. cbn [go_bind].
  destruct (len p <? off + 2 + n) eqn:C2; [done|]. b2p.
  destruct (slice_total p (off + 2) (off + 2 + n)) as (m & -> & Hm & Hmb); [done|lia..|].
  cbn [go_bind]. apply IH; [lia|]. apply Forall_app. split; [done|]. repeat constructor; [done|lia].
Qed.

Lemma decodeCompound_inv p ms :
  Forall is_byte p -> decodeCompound p = Ok ms ->
  Forall (fun m => Forall is_byte m /\ len m <= len p) ms.
Proof.
  intros Hp. unfold decodeCompound, check. destruct (len p <? 2) eqn:C; [done|]. b2p.
  destruct (slice_total p 0 2) as (x & -> & Hx & Hxb); [done|lia..|]. cbn [go_bind].
  destruct (Uint16_total x) as (n & -> & Hn); [done|lia|]. cbn [go_bind].
  apply decode_messages_inv; [done|lia|constructor].
Qed.

Lemma handle_all_total fuel now ok from :
  (forall data g, Forall is_byte data -> len data <= 65535 ->
    (length data < fuel)%nat -> handleMessage fuel now ok data from g <> None) ->
  forall ms g e, Forall (fun m => Forall is_byte m /\ len m <= 65535 /\ (length m < fuel)%nat) ms ->
  handle_all fuel now ok from (Some (g, e)) ms <> None.
Proof.
  intros IH. induction ms as [|m ms IHm]; intros g e Hms; [done|].
  apply Forall_cons in Hms as [(Hmb & Hml & Hmf) Hms]. rewrite handle_all_cons.
  specialize (IH m g Hmb Hml Hmf).
  destruct (handleMessage fuel now ok m from g) as [[g2 e2]|]; [auto|done].
Qed.

Lemma handleMessage_total fuel now ok from data g :
  Forall is_byte data -> len data <= 65535 -> (length data < fuel)%nat ->
  handleMessage fuel now ok data from g <> None.
Proof.
  revert data g. induction fuel as [|fuel IH]; intros data g Hd Hl Hf; [lia|].
  cbn [handleMessage]. pose proof (decodeMessage_no_panic data Hd Hl) as Hnp.
  destruct (decodeMessage data) as [[[ty p] rest]|e|] eqn:E; [|done..].
  destruct (decodeMessage_inv _ _ _ _ Hd Hl E) as (Hp & Hrest & Hlen).
  match goal with |- match ?F with _ => _ end <> _ =>
    assert (HF : F <> None); [|destruct F as [[g1 e1]|]; [|done]] end.
  - repeat match goal with |- (if ?b then _ else _) <> None => destruct b; [done|] end.
    case_match; [|done]. destruct (decodeCompound p) as [ms| |] eqn:Ec; [|done..].
    apply (handle_all_total fuel now ok from IH ms g []).
    eapply Forall_impl; [exact (decodeCompound_inv p ms Hp Ec)|].
    intros m [Hm1 Hm2]. unfold len in *. split_and!; [done|lia..].
  - assert (handle_remaining (S (length rest)) now rest from g1 <> None) as Hrem.
    { apply handle_remaining_total; [done|unfold len in *; lia..]. }
    by destruct (handle_remaining _ _ _ _ g1) as [[? ?]|].
Qed.

(** Every packet is processed to its end: with the length of the packet as the bound
    on nested compound messages, [handleMessage] finishes on any bytes that fit a
    datagram, and no handler or decoder on the way panics. *)
Theorem gossip_packet_processed now ok data from g :
  Forall is_byte data -> len data <= 65535 ->
  exists g' effs, handleMessage (S (length data)) now ok data from g = Some (g', effs).
Proof.
  intros Hd Hl.
  pose proof (handleMessage_total (S (length data)) now ok from data g Hd Hl ltac:(lia)).
  destruct (handleMessage _ _ _ _ _ _) as [[g' e]|]; [eauto|done].
Qed.

End Facts.

(** ** Witnesses *)

#[local] Existing Instance gmap_range.
#[local] Instance broadcast_sort : SliceSort broadcast (fun b => - created b) :=
  merge_slice_sort _.

Definition node_cfg (id : string) : GossipConfig := {|
  BindAddr := "10.0.0.1"; BindPort := 7946;
  ProbeInterval := 1; ProbeTimeout := 1; IndirectChecks := 3; SuspicionTimeout := 5;
  GossipNodes := 3; RetransmitMult := 4; MaxMessageSize := 1400; NodeID := id |}.

Definition new_node (id : string) : Gossip :=
  mkGossip (node_cfg id) (mkNode id "10.0.0.1" 7946 StateAlive 0 0 ∅) ∅ 0 ∅ [] ∅.

(** JOIN of [n2], then SUSPECT of [n2], as packets. *)
Definition join_n2 : list Z :=
  default [] (encoded (encodeJoinMessage 3 "n2" "10.0.0.2" 7946 ∅)).
Definition suspect_n2 (i : Z) : list Z := default [] (encoded (encodeSuspect i "n2")).

Definition node_with_suspect : Gossip :=
  match handle_all 1 0 true "10.0.0.2:7946" (Some (new_node "n1", [])) [join_n2; suspect_n2 3] with
  | Some (g, _) => g
  | None => new_node "n1"
  end.

Lemma node_with_suspect_reachable : reachable 0 (node_cfg "n1") node_with_suspect.
Proof.
  exists (new_node "n1"). split; [done|].
  eapply rtc_l; [eapply (step_packet 1 0 true join_n2 "10.0.0.2:7946"); by vm_compute|].
  eapply rtc_l; [eapply (step_packet 1 0 true (suspect_n2 3) "10.0.0.2:7946"); by vm_compute|].
  apply rtc_refl.
Qed.


Lemma gossip_member_transitions_witness :
  exists m', members (suspicion_timeout 9 "n2" node_with_suspect).1 !! "n2" = Some m' /\
    member_path (mkNode "n2" "10.0.0.2" 7946 StateSuspect 3 0 ∅) m'.
Proof.
  apply (gossip_member_transitions 0 (node_cfg "n1") node_with_suspect).
  - exact node_with_suspect_reachable.
  - apply rtc_once. apply step_suspicion_timeout.
    rewrite <- (bool_decide_eq_true ("n2" ∈ suspicionTimers node_with_suspect)). by vm_compute.
  - by vm_compute.
Defined.

Lemma gossip_packet_is_sequence_witness :
  handleMessage 1 5 true (concat [suspect_n2 4; suspect_n2 5]) "10.0.0.3:7946" node_with_suspect =
  handle_all 1 5 true "10.0.0.3:7946" (Some (node_with_suspect, [])) [suspect_n2 4; suspect_n2 5].
Proof.
  apply (gossip_packet_is_sequence 0 5 true _ _ [Suspect 4 "n2"; Suspect 5 "n2"]).
  - done.
  - repeat constructor.
  - repeat constructor; unfold in_u32; lia.
  - repeat constructor; by vm_compute.
Defined.

Definition suspicion_of_n2 : list Z := PutUint32 3 ++ PutUint16 2 ++ bytes_of "n2".

Definition alive_n2 : list Z :=
  default [] (encoded (encode_alive_of (node_set_inc 4 (localNode (new_node "n2"))))).

Lemma refutation_clears_suspicion_witness :
  exists peer' effs m',
    handleMessage 1 6 true alive_n2 "10.0.0.2:7946" node_with_suspect = Some (peer', effs) /\
    members peer' !! "n2" = Some m' /\ State m' = StateAlive /\ Incarnation m' = 4 /\
    "n2" ∉ suspicionTimers peer'.
Proof.
  eapply (refutation_clears_suspicion 6 suspicion_of_n2 3 alive_n2 (new_node "n2")).
  - by vm_compute.
  - simpl. lia.
  - lia.
  - simpl. lia.
  - by vm_compute.
  - by vm_compute.
  - exact (reachable_inv _ _ _ node_with_suspect_reachable).
  - intros E. vm_compute in E. discriminate.
  - by vm_compute.
  - by vm_compute.
Defined.

Lemma gossip_packet_processed_witness :
  exists g' effs, handleMessage 4 0 true [9; 0; 200] "10.0.0.9:1" (new_node "n1") = Some (g', effs).
Proof.
  apply gossip_packet_processed; [|by vm_compute].
  repeat constructor; unfold is_byte; lia.
Defined.

Lemma stale_dead_lowers_incarnation_example :
  Incarnation (localNode (handleDead 0 suspicion_of_n2
    (set_localNode (node_set_inc 10 (localNode (new_node "n2"))) (new_node "n2"))).1) = 4.
Proof. by vm_compute. Qed.
