(* ===== verification/DistributedState.v ===== *)
(** * Shared state of the cluster: [internal/cluster/state.go]

    Health reports and session pins that the nodes exchange and merge by last writer
    wins.  A message is the value [encoding/json] decodes it to, in which a [null] entry is
    a nil pointer; the message authentication code is a parameter.  Times are
    nanoseconds.  Operations can crash (nil pointers) or loop forever. *)
From S2P Require Import Prelude.

(** What an operation does: it returns, panics, or does not return. *)
Inductive outcome (A : Type) :=
  | Done (a : A)
  | Crash
  | Hangs.
Arguments Done {A} a.
Arguments Crash {A}.
Arguments Hangs {A}.

Definition outcome_bind {A B} (m : outcome A) (k : A -> outcome B) : outcome B :=
  match m with Done a => k a | Crash => Crash | Hangs => Hangs end.

Record HealthStatus := mkHealth {
  hs_BackendAddr : string;
  Healthy : bool;
  LastCheck : Z;
  Latency : Z;
  CheckerNodeID : string;
  hs_Timestamp : Z
}.

Record SessionEntry := mkSession {
  Key : string;
  se_BackendAddr : string;
  Expires : Z;
  se_Timestamp : Z
}.

Inductive StateMessageType := StateMessageHealth | StateMessageSession | StateMessageFull | OtherType (t : string).

Record StateMessage := mkMessage {
  m_Type : StateMessageType;
  SenderID : string;
  m_Health : option (gmap string (option HealthStatus));
  m_Sessions : option (gmap string (option SessionEntry));
  m_Timestamp : Z;
  HMAC : list Z
}.

Record DistributedStateConfig := mkDSConfig {
  ds_NodeID : string;
  SyncInterval : Z;
  SessionDefaultTTL : Z;
  MaxSessionEntries : Z;
  HMACKey : list Z
}.

Definition DefaultDistributedStateConfig : DistributedStateConfig :=
  mkDSConfig "" 30000000000 1800000000000 100000 [].

Record DistributedState := mkDS {
  ds_config : DistributedStateConfig;
  healthState : gmap string HealthStatus;
  sessionState : gmap string SessionEntry;
  sync : bool        (* a transport is set *)
}.

Definition NewDistributedState (config : option DistributedStateConfig) : DistributedState :=
  let c := default DefaultDistributedStateConfig config in
  let c := if SessionDefaultTTL c <=? 0
           then mkDSConfig (ds_NodeID c) (SyncInterval c) 1800000000000 (MaxSessionEntries c) (HMACKey c)
           else c in
  mkDS c ∅ ∅ false.

Definition set_health h ds := mkDS (ds_config ds) h (sessionState ds) (sync ds).
Definition set_sessions s ds := mkDS (ds_config ds) (healthState ds) s (sync ds).

(** ** Merging *)

(** [if !ok || in.Timestamp.After(existing.Timestamp)] for every entry of the incoming map.
    The entries are independent of each other, so the order of the iteration does not
    matter. *)
Definition lww {V} (ts : V -> Z) (old new : V) : option V :=
  Some (if ts old <? ts new then new else old).

Definition merge_lww {V} (ts : V -> Z) (local incoming : gmap string V) : gmap string V :=
  union_with (lww ts) local incoming.

(** The entries of a decoded map; [None] when one of them is nil. *)
Definition non_nil {V} (m : gmap string (option V)) : option (gmap string V) :=
  if decide (map_Forall (fun _ v => is_Some v) m) then Some (omap id m) else None.

Definition MergeHealthStatus (incoming : gmap string (option HealthStatus)) (ds : DistributedState)
    : outcome DistributedState :=
  match non_nil incoming with
  | None => Crash
  | Some m => Done (set_health (merge_lww hs_Timestamp (healthState ds) m) ds)
  end.

(** ** The session limit *)

Section Sessions.
Context `{!MapRange}.

(** The scan for the oldest entry, in the order of the iteration. *)
Definition older (acc : option (string * Z)) (kv : string * SessionEntry) : option (string * Z) :=
  match acc with
  | None => Some (kv.1, se_Timestamp kv.2)
  | Some (_, t) => if se_Timestamp kv.2 <? t then Some (kv.1, se_Timestamp kv.2) else acc
  end.

Definition oldestKey (m : gmap string SessionEntry) : string :=
  from_option fst "" (foldl older None (map_range m)).

Definition evict (m : gmap string SessionEntry) : gmap string SessionEntry :=
  let k := oldestKey m in
  if bool_decide (k = "") then m else delete k m.

(** The loop; a run that needs more than [fuel] rounds does not return. *)
Fixpoint enforce_loop (fuel : nat) (max : Z) (m : gmap string SessionEntry)
    : outcome (gmap string SessionEntry) :=
  if max <? Z.of_nat (size m) then
    match fuel with
    | O => Hangs
    | S fuel => enforce_loop fuel max (evict m)
    end
  else Done m.

Definition enforceSessionLimit (ds : DistributedState) : outcome DistributedState :=
  let max := MaxSessionEntries (ds_config ds) in
  if max <=? 0 then Done ds
  else outcome_bind (enforce_loop (size (sessionState ds)) max (sessionState ds))
         (fun m => Done (set_sessions m ds)).

Definition MergeSessions (incoming : gmap string (option SessionEntry)) (ds : DistributedState)
    : outcome DistributedState :=
  match non_nil incoming with
  | None => Crash
  | Some m => enforceSessionLimit (set_sessions (merge_lww se_Timestamp (sessionState ds) m) ds)
  end.

(** ** Messages *)

(** HMAC-SHA256 over the serialized message. *)
Variable mac : list Z -> StateMessage -> list Z.

Definition computeStateHMAC (msg : StateMessage) (key : list Z) : list Z :=
  mac key (mkMessage (m_Type msg) (SenderID msg) (m_Health msg) (m_Sessions msg) (m_Timestamp msg) []).

Definition attachHMAC (ds : DistributedState) (msg : StateMessage) : StateMessage :=
  if bool_decide (HMACKey (ds_config ds) = []) then msg
  else mkMessage (m_Type msg) (SenderID msg) (m_Health msg) (m_Sessions msg) (m_Timestamp msg)
         (computeStateHMAC msg (HMACKey (ds_config ds))).

Definition verifyHMAC (ds : DistributedState) (msg : StateMessage) : bool :=
  if bool_decide (HMACKey (ds_config ds) = []) then true
  else if bool_decide (HMAC msg = []) then false
  else bool_decide (HMAC msg = computeStateHMAC msg (HMACKey (ds_config ds))).

Definition PropagateHealthStatus (now : Z) (addr : string) (healthy : bool) (latency : Z)
    (ds : DistributedState) : DistributedState * option StateMessage :=
  let st := mkHealth addr healthy now latency (ds_NodeID (ds_config ds)) now in
  let ds := set_health (<[addr := st]> (healthState ds)) ds in
  (ds, if sync ds
       then Some (attachHMAC ds (mkMessage StateMessageHealth (ds_NodeID (ds_config ds))
                                   (Some {[addr := Some st]}) None now []))
       else None).

Definition GetHealthStatus (addr : string) (ds : DistributedState) : option HealthStatus :=
  healthState ds !! addr.

Definition GetClusterHealthView (ds : DistributedState) : gmap string HealthStatus := healthState ds.

(** [expires = None] is the zero time. *)
Definition PropagateSession (now : Z) (key addr : string) (expires : option Z) (ds : DistributedState)
    : outcome (DistributedState * option StateMessage) :=
  let e := mkSession key addr (default (now + SessionDefaultTTL (ds_config ds)) expires) now in
  outcome_bind (enforceSessionLimit (set_sessions (<[key := e]> (sessionState ds)) ds)) (fun ds =>
  Done (ds, if sync ds
            then Some (attachHMAC ds (mkMessage StateMessageSession (ds_NodeID (ds_config ds))
                                        None (Some {[key := Some e]}) now []))
            else None)).

Definition GetSession (now : Z) (key : string) (ds : DistributedState) : option string :=
  match sessionState ds !! key with
  | Some e => if Expires e <? now then None else Some (se_BackendAddr e)
  | None => None
  end.

Definition GetAllSessions (now : Z) (ds : DistributedState) : gmap string SessionEntry :=
  filter (fun kv => now < Expires kv.2) (sessionState ds).

Definition full_message (now : Z) (ds : DistributedState) : StateMessage :=
  attachHMAC ds (mkMessage StateMessageFull (ds_NodeID (ds_config ds))
    (Some (Some <$> GetClusterHealthView ds)) (Some (Some <$> GetAllSessions now ds)) now []).

Definition broadcastFullState (now : Z) (ds : DistributedState) : option StateMessage :=
  if sync ds then Some (full_message now ds) else None.

Definition merge_message (msg : StateMessage) (health sessions : bool) (ds : DistributedState)
    : outcome DistributedState :=
  outcome_bind
    (match m_Health msg with
     | Some h => if health then MergeHealthStatus h ds else Done ds
     | None => Done ds
     end)
    (fun ds => match m_Sessions msg with
               | Some s => if sessions then MergeSessions s ds else Done ds
               | None => Done ds
               end).

Definition handleIncoming (msg : StateMessage) (ds : DistributedState) : outcome DistributedState :=
  if bool_decide (SenderID msg = ds_NodeID (ds_config ds)) then Done ds
  else if negb (verifyHMAC ds msg) then Done ds
  else match m_Type msg with
  | StateMessageHealth => merge_message msg true false ds
  | StateMessageSession => merge_message msg false true ds
  | StateMessageFull => merge_message msg true true ds
  | OtherType _ => Done ds
  end.

(** [None]: [ErrInvalidHMAC]. *)
Definition Deserialize (msg : StateMessage) (ds : DistributedState) : outcome (option DistributedState) :=
  if negb (verifyHMAC ds msg) then Done None
  else outcome_bind (merge_message msg true true ds) (fun ds => Done (Some ds)).

Definition cleanupExpiredSessions (now : Z) (ds : DistributedState) : DistributedState :=
  set_sessions (filter (fun kv => ~ Expires kv.2 < now) (sessionState ds)) ds.

Definition HealthCount (ds : DistributedState) : nat := size (healthState ds).
Definition SessionCount (ds : DistributedState) : nat := size (sessionState ds).

End Sessions.

(** ** Last writer wins *)

Section Lww.
Context {V : Type} (ts : V -> Z).
Implicit Types s m : gmap string V.

Lemma merge_lww_lookup s m k :
  merge_lww ts s m !! k =
  match s !! k, m !! k with
  | Some v, Some w => Some (if ts v <? ts w then w else v)
  | Some v, None => Some v
  | None, r => r
  end.
Proof. unfold merge_lww. rewrite lookup_union_with. by destruct (s !! k), (m !! k). Qed.

(** The values that were ever written to a key. *)
Definition written s (ms : list (gmap string V)) (k : string) (v : V) : Prop :=
  s !! k = Some v \/ exists m, m ∈ ms /\ m !! k = Some v.

Lemma merge_fold_spec s ms k :
  match foldl (merge_lww ts) s ms !! k with
  | Some v => written s ms k v /\ forall w, written s ms k w -> ts w <= ts v
  | None => forall w, ~ written s ms k w
  end.
Proof.
  induction ms as [|m ms IH] using rev_ind.
  - simpl. destruct (s !! k) as [v|] eqn:E.
    + split; [by left|]. intros w [Hw|(m & Hm & _)]; [simplify_eq; lia|set_solver].
    + intros w [Hw|(m & Hm & _)]; [congruence|set_solver].
  - rewrite foldl_snoc, merge_lww_lookup.
    assert (Hs : forall w, written s (ms ++ [m]) k w <-> written s ms k w \/ m !! k = Some w).
    { intros w. unfold written. set_unfold. naive_solver. }
    destruct (foldl _ s ms !! k) as [v|], (m !! k) as [w|] eqn:Em; cbv beta iota;
      setoid_rewrite Hs.
    + destruct IH as [IH1 IH2]. destruct (Z.ltb_spec (ts v) (ts w)).
      * split; [by right|]. intros u [Hu|Hu]; [specialize (IH2 u Hu); lia|simplify_eq; lia].
      * split; [by left|]. intros u [Hu|Hu]; [auto|simplify_eq; lia].
    + destruct IH as [IH1 IH2]. split; [by left|]. intros u [Hu|Hu]; [auto|done].
    + split; [by right|]. intros u [Hu|Hu]; [by destruct (IH u)|simplify_eq; lia].
    + intros u [Hu|Hu]; [by destruct (IH u)|done].
Qed.

(** Different values of a key have different timestamps. *)
Definition distinct_stamps s (ms : list (gmap string V)) : Prop :=
  forall k v w, written s ms k v -> written s ms k w -> ts v = ts w -> v = w.

Lemma merge_fold_unique s ms s' ms' :
  distinct_stamps s ms -> (forall k v, written s ms k v <-> written s' ms' k v) ->
  foldl (merge_lww ts) s ms = foldl (merge_lww ts) s' ms'.
Proof.
  intros Hd Hw. apply map_eq. intros k.
  pose proof (merge_fold_spec s ms k) as H1. pose proof (merge_fold_spec s' ms' k) as H2.
  destruct (foldl _ s ms !! k) as [v|], (foldl _ s' ms' !! k) as [w|].
  - destruct H1 as [H1 H1'], H2 as [H2 H2']. f_equal. apply (Hd k); [done|by apply Hw|].
    apply Hw in H1 as H3. apply Hw in H2 as H4. specialize (H1' _ H4). specialize (H2' _ H3). lia.
  - destruct H1 as [H1 _]. apply Hw in H1. by destruct (H2 v).
  - destruct H2 as [H2 _]. apply Hw in H2. by destruct (H1 w).
  - done.
Qed.
End Lww.

(** Health reports received one after the other. *)
Definition receive_all (reports : list (gmap string HealthStatus)) (ds : DistributedState)
    : outcome DistributedState :=
  foldl (fun r m => outcome_bind r (MergeHealthStatus (Some <$> m))) (Done ds) reports.

Lemma non_nil_Some {V} (m : gmap string V) : non_nil (Some <$> m) = Some m.
Proof.
  unfold non_nil. rewrite decide_True.
  - f_equal. apply map_eq. intros k. rewrite lookup_omap, lookup_fmap. by destruct (m !! k).
  - intros k v. rewrite lookup_fmap. destruct (m !! k); [|done]. intros [= <-]. eauto.
Qed.

Lemma receive_all_spec reports ds :
  receive_all reports ds = Done (set_health (foldl (merge_lww hs_Timestamp) (healthState ds) reports) ds).
Proof.
  unfold receive_all. induction reports as [|m reports IH] using rev_ind.
  - simpl. by destruct ds.
  - rewrite !foldl_snoc, IH. cbn [outcome_bind]. unfold MergeHealthStatus. by rewrite non_nil_Some.
Qed.

(** C10: Health reports converge: two nodes that start from the same view and receive the
    same reports, in any order, any number of times, end with the same view of every
    backend, provided different reports about a backend carry different timestamps. *)
Theorem health_views_converge ds1 ds2 reports1 reports2
  (Hinit : healthState ds1 = healthState ds2)
  (Hsame : forall m, m ∈ reports1 <-> m ∈ reports2)
  (Hstamps : distinct_stamps hs_Timestamp (healthState ds1) reports1) :
  exists ds1' ds2', receive_all reports1 ds1 = Done ds1' /\ receive_all reports2 ds2 = Done ds2' /\
    healthState ds1' = healthState ds2'.
Proof.
  rewrite !receive_all_spec. eexists _, _. split_and!; [done..|]. simpl.
  apply merge_fold_unique; [done|]. intros k v. unfold written. rewrite Hinit.
  split; intros [H|(m & Hm & H)]; auto; right; exists m; split; auto; by apply Hsame.
Qed.

(** Reports with equal timestamps do not converge: each node keeps what it heard first. *)
Example equal_timestamps_diverge :
  let up := mkHealth "b" true 5 1 "n1" 5 in
  let down := mkHealth "b" false 5 1 "n2" 5 in
  let view r := match receive_all r (NewDistributedState None) with
                | Done ds => GetHealthStatus "b" ds | _ => None end in
  view [{["b" := up]}; {["b" := down]}] = Some up /\ view [{["b" := down]}; {["b" := up]}] = Some down.
Proof. split; vm_compute; reflexivity. Qed.

(** ** The session limit *)

Section Limit.
Context `{!MapRange}.
Implicit Types m : gmap string SessionEntry.

Definition older_spec (l : list (string * SessionEntry)) (r : option (string * Z)) : Prop :=
  match r with
  | None => l = []
  | Some (k, t) => (exists e, (k, e) ∈ l /\ se_Timestamp e = t) /\
                   forall k' e', (k', e') ∈ l -> t <= se_Timestamp e'
  end.

Lemma older_fold l : older_spec l (foldl older None l).
Proof.
  induction l as [|[k e] l IH] using rev_ind; [done|]. rewrite foldl_snoc.
  destruct (foldl older None l) as [[k0 t0]|]; cbn [older].
  - destruct IH as [(e0 & He0 & Ht0) IH2]. cbn [fst snd]. destruct (Z.ltb_spec (se_Timestamp e) t0); split.
    + exists e. set_solver.
    + intros k' e' [H'|H']%elem_of_app; [specialize (IH2 _ _ H'); lia|].
      apply list_elem_of_singleton in H'. simplify_eq. lia.
    + exists e0. set_solver.
    + intros k' e' [H'|H']%elem_of_app; [eauto|].
      apply list_elem_of_singleton in H'. simplify_eq. lia.
  - simpl in IH. subst l. cbn. split; [exists e; set_solver|].
    intros k' e' H'. apply list_elem_of_singleton in H'. simplify_eq. lia.
Qed.

Lemma elem_of_map_range m k e : (k, e) ∈ map_range m <-> m !! k = Some e.
Proof. by rewrite map_range_perm, elem_of_map_to_list. Qed.

Lemma oldestKey_spec m :
  m <> ∅ -> exists e, m !! oldestKey m = Some e /\
    forall k' e', m !! k' = Some e' -> se_Timestamp e <= se_Timestamp e'.
Proof.
  intros Hne. unfold oldestKey. pose proof (older_fold (map_range m)) as Ho.
  destruct (foldl older None (map_range m)) as [[k t]|]; cbn in *.
  - destruct Ho as [(e & He & <-) H2]. exists e. split; [by apply elem_of_map_range|].
    intros k' e' He'. apply (H2 k'). by apply elem_of_map_range.
  - exfalso. apply Hne. apply map_to_list_empty_iff, Permutation_nil.
    rewrite <- map_range_perm, Ho. done.
Qed.

Lemma size_pos_nonempty m : (0 < size m)%nat -> m <> ∅.
Proof. intros Hs ->. rewrite map_size_empty in Hs. lia. Qed.

(** The entries that are dropped are the oldest ones. *)
Definition keeps_newest m m' : Prop :=
  m' ⊆ m /\
  forall k e k' e', m !! k = Some e -> m' !! k = None -> m' !! k' = Some e' ->
    se_Timestamp e <= se_Timestamp e'.

Lemma enforce_loop_spec fuel max m :
  m !! "" = None -> 0 < max -> (size m <= fuel)%nat ->
  exists m', enforce_loop fuel max m = Done m' /\ keeps_newest m m' /\
    Z.of_nat (size m') = Z.min (Z.of_nat (size m)) max.
Proof.
  intros H0 Hmax. revert m H0. induction fuel as [|fuel IH]; intros m H0 Hf; cbn [enforce_loop].
  - rewrite (proj2 (Z.ltb_ge _ _)) by lia. exists m. split_and!; [done| |lia].
    split; [done|]. intros. congruence.
  - destruct (Z.ltb_spec max (Z.of_nat (size m))) as [Hlt|Hge].
    2:{ exists m. split_and!; [done| |lia]. split; [done|]. intros. congruence. }
    destruct (oldestKey_spec m) as (e & He & Hmin); [apply size_pos_nonempty; lia|].
    assert (Ek : oldestKey m <> "") by (intros E; rewrite E in He; congruence).
    unfold evict. rewrite bool_decide_eq_false_2 by done.
    assert (Hsz : size (delete (oldestKey m) m) = (size m - 1)%nat)
      by (rewrite map_size_delete, He; lia).
    destruct (IH (delete (oldestKey m) m)) as (m' & E1 & [E2 E3] & E4);
      [by rewrite lookup_delete_None; right|lia|].
    exists m'. split_and!; [done| |lia]. split; [by etrans; [exact E2|apply delete_subseteq]|].
    intros k e1 k' e1' Hk Hk' Hk1. destruct (decide (k = oldestKey m)) as [->|Hne].
    + simplify_eq. apply (Hmin k'). eapply lookup_weaken; [exact Hk1|].
      by etrans; [exact E2|apply delete_subseteq].
    + eapply (E3 k); [|done..]. by rewrite lookup_delete_ne.
Qed.

Lemma keeps_newest_refl m : keeps_newest m m.
Proof. split; [done|]. intros. congruence. Qed.

(** Merging sessions respects the limit: the call returns, at most
    [MaxSessionEntries] entries remain, and those that were dropped are not newer than
    those that were kept, for every order in which the map is iterated. *)
Theorem merge_sessions_limited incoming ds
  (Hlim : 0 < MaxSessionEntries (ds_config ds))
  (Hlocal : sessionState ds !! "" = None) (Hin : incoming !! "" = None) :
  exists ds', MergeSessions (Some <$> incoming) ds = Done ds' /\
    let all := merge_lww se_Timestamp (sessionState ds) incoming in
    keeps_newest all (sessionState ds') /\
    Z.of_nat (size (sessionState ds')) = Z.min (Z.of_nat (size all)) (MaxSessionEntries (ds_config ds)).
Proof.
  unfold MergeSessions. rewrite non_nil_Some. unfold enforceSessionLimit. cbn [ds_config set_sessions
    sessionState]. rewrite (proj2 (Z.leb_gt _ _)) by done.
  destruct (enforce_loop_spec (size (merge_lww se_Timestamp (sessionState ds) incoming))
    (MaxSessionEntries (ds_config ds)) (merge_lww se_Timestamp (sessionState ds) incoming))
    as (m' & E1 & E2 & E3); [by rewrite merge_lww_lookup, Hlocal, Hin|done|lia|].
  rewrite E1. cbn [outcome_bind]. eexists. split; [done|]. split; [exact E2|exact E3].
Qed.

(** A session with the empty key stops the node: when it is the oldest of more
    sessions than the limit, the eviction loop finds it in every round, does not delete it
    and never ends, with the lock on the sessions held. *)
Theorem empty_session_key_hangs fuel max m e
  (Hmax : max < Z.of_nat (size m)) (He : m !! "" = Some e)
  (Hold : forall k e', m !! k = Some e' -> k <> "" -> se_Timestamp e < se_Timestamp e') :
  enforce_loop fuel max m = Hangs.
Proof.
  assert (Hk : oldestKey m = "").
  { destruct (oldestKey_spec m) as (e1 & He1 & Hmin); [by intros ->|].
    destruct (decide (oldestKey m = "")) as [|Hne]; [done|].
    specialize (Hold _ _ He1 Hne). specialize (Hmin _ _ He). lia. }
  assert (Hev : evict m = m) by (unfold evict; by rewrite Hk).
  induction fuel as [|fuel IH]; cbn [enforce_loop]; rewrite (proj2 (Z.ltb_lt _ _)) by done;
    [done|by rewrite Hev].
Qed.

(** A report that is the JSON [null] crashes the receiver. *)
Theorem null_report_crashes k incoming ds :
  incoming !! k = Some None -> MergeHealthStatus incoming ds = Crash.
Proof.
  intros Hn. unfold MergeHealthStatus, non_nil. rewrite decide_False; [done|].
  intros Hf. by destruct (Hf k None Hn).
Qed.

(** With a key configured, a message changes the state only when it carries the
    code of its own content under that key; every other message is dropped. *)
Theorem unauthenticated_message_dropped mac msg ds ds'
  (Hkey : HMACKey (ds_config ds) <> [])
  (Hmac : HMAC msg <> computeStateHMAC mac msg (HMACKey (ds_config ds)))
  (Hdone : handleIncoming mac msg ds = Done ds') : ds' = ds.
Proof.
  unfold handleIncoming, verifyHMAC in Hdone.
  rewrite (bool_decide_eq_false_2 (HMACKey _ = _)) in Hdone by done.
  rewrite (bool_decide_eq_false_2 (HMAC msg = computeStateHMAC _ _ _)) in Hdone by done.
  destruct (bool_decide (SenderID msg = _)); [by simplify_eq|].
  destruct (bool_decide (HMAC msg = [])); cbn [negb] in Hdone; by simplify_eq.
Qed.
End Limit.

(** ** Examples *)

Definition demo_report (h : bool) (t : Z) : gmap string HealthStatus :=
  {["b" := mkHealth "b" h t 1 "n" t]}.

Lemma health_views_converge_witness :
  exists ds1' ds2',
    receive_all [demo_report true 1; demo_report false 2] (NewDistributedState None) = Done ds1' /\
    receive_all [demo_report false 2; demo_report true 1; demo_report true 1] (NewDistributedState None)
      = Done ds2' /\ healthState ds1' = healthState ds2'.
Proof.
  apply health_views_converge; [reflexivity|set_solver|].
  assert (Hw : forall k v, written (healthState (NewDistributedState None))
    [demo_report true 1; demo_report false 2] k v ->
    v = mkHealth "b" true 1 1 "n" 1 \/ v = mkHealth "b" false 2 1 "n" 2).
  { intros k v [Hv|(m & Hm & Hv)]; [cbn in Hv; by rewrite lookup_empty in Hv|].
    apply elem_of_cons in Hm as [->|Hm]; [|apply list_elem_of_singleton in Hm as ->];
      unfold demo_report in Hv; apply lookup_singleton_Some in Hv as [_ <-]; auto. }
  intros k v w Hv Hw' Ht. apply Hw in Hv, Hw'.
  destruct Hv as [-> | ->], Hw' as [-> | ->]; simpl in Ht; done || lia.
Defined.

Definition demo_ds : DistributedState :=
  mkDS (mkDSConfig "n1" 0 60 2 [1; 2; 3]) ∅
    (list_to_map [("a", mkSession "a" "x" 9 1); ("b", mkSession "b" "x" 9 2)]) true.

Lemma merge_sessions_limited_witness :
  exists ds', MergeSessions (H := gmap_range) (Some <$> {["c" := mkSession "c" "y" 9 3]}) demo_ds = Done ds' /\
    Z.of_nat (size (sessionState ds')) = 2.
Proof.
  destruct (merge_sessions_limited (H := gmap_range) {["c" := mkSession "c" "y" 9 3]} demo_ds)
    as (ds' & H1 & _ & H2); [reflexivity|reflexivity|reflexivity|].
  exists ds'. split; [exact H1|exact H2].
Defined.

Lemma empty_session_key_hangs_witness :
  enforce_loop (H := gmap_range) 1000 1
    (list_to_map [("", mkSession "" "x" 9 1); ("b", mkSession "b" "x" 9 2)]) = Hangs.
Proof.
  apply (empty_session_key_hangs (H := gmap_range) 1000 1 _ (mkSession "" "x" 9 1)).
  - reflexivity.
  - reflexivity.
  - intros k e' Hk Hne. apply elem_of_list_to_map in Hk; [|vm_compute; repeat constructor; set_solver].
    apply elem_of_cons in Hk as [Hk|Hk]; [by simplify_eq|].
    apply list_elem_of_singleton in Hk. simplify_eq. simpl. lia.
Defined.

Lemma unauthenticated_message_dropped_witness :
  let mac (key : list Z) (_ : StateMessage) := key in
  let msg := mkMessage StateMessageHealth "n2" (Some {["b" := Some (mkHealth "b" true 1 1 "n2" 1)]}) None 1 [7] in
  handleIncoming (H := gmap_range) mac msg demo_ds = Done demo_ds /\ demo_ds = demo_ds.
Proof.
  intros mac msg. split; [reflexivity|].
  apply (unauthenticated_message_dropped (H := gmap_range) mac msg demo_ds demo_ds);
    [discriminate|discriminate|reflexivity].
Defined.
