(* ===== verification/Raft.v ===== *)
(** * Consensus: [internal/cluster/cluster.go] and [snapshot_ops.go]

    One node of the Raft cluster: its term, vote, log, snapshot watermark, indices and
    member table, and one function per RPC handler and per phase of the operations that
    wait for peers (elections, heartbeats, commands).  The replicated state machine is
    the class [StateMachine], the Go interface.  Timers and channels only decide when an
    operation runs, so they are not part of the state; the RPC handlers are single
    steps.  The node has a transport ([SetTransport]).  Log indices and terms are
    [uint64]. *)
From S2P Require Import Prelude Http Bytes NetIP NetAddr.

Inductive RaftState := StateFollower | StateCandidate | StateLeader.

#[export] Instance RaftState_eq_dec : EqDecision RaftState.
Proof. solve_decision. Defined.

Record Config := mkConfig {
  NodeID : string;
  BindAddr : string;
  BindPort : Z;
  Peers : list string;
  ElectionTick : Z;
  HeartbeatTick : Z
}.

Definition DefaultConfig : Config := mkConfig "" "" 7946 [] 2000000000 500000000.

(** [Config.Validate] also fills in the defaults. *)
Definition Validate (c : Config) : go Config :=
  check (bool_decide (NodeID c = "")) "node ID is required" (
  Ok (mkConfig (NodeID c)
        (if bool_decide (BindAddr c = "") then "0.0.0.0" else BindAddr c)
        (if BindPort c <=? 0 then 7946 else BindPort c)
        (Peers c)
        (if ElectionTick c <=? 0 then 2000000000 else ElectionTick c)
        (if HeartbeatTick c <=? 0 then 500000000 else HeartbeatTick c))).

Record Node := mkNode { Node_ID : string; Node_Address : string; IsLeader : bool }.

Record LogEntry := mkEntry { Index : Z; Term : Z; Command : string }.

#[export] Instance LogEntry_eq_dec : EqDecision LogEntry.
Proof. solve_decision. Defined.

Inductive ChangeType := AddNodeChange | RemoveNodeChange.
Record MembershipChange := mkChange { ch_Type : ChangeType; ch_NodeID : string; ch_Address : string }.

Record membershipConfig := mkMembership {
  pending : option MembershipChange;
  inTransition : bool;
  jointCommitID : Z
}.

(** [type StateMachine interface]. *)
Class StateMachine (S : Type) := {
  Apply : string -> S -> option string * S;      (* [None]: an error *)
  Snapshot : S -> option string;
  Restore : string -> S -> option S
}.

Section Raft.
Context {S : Type} `{!StateMachine S}.

Record Cluster := mkCluster {
  config : Config;
  state : RaftState;
  currentTerm : Z;
  votedFor : string;
  leaderID : string;
  log : list LogEntry;
  logStartIndex : Z;
  logStartTerm : Z;
  commitIndex : Z;
  lastApplied : Z;
  nodes : gmap string Node;
  peerAck : option (gmap string Z);
  membership : membershipConfig;
  sm : S
}.

(** Field updates. *)
Definition set_state v c := mkCluster (config c) v (currentTerm c) (votedFor c) (leaderID c) (log c)
  (logStartIndex c) (logStartTerm c) (commitIndex c) (lastApplied c) (nodes c) (peerAck c)
  (membership c) (sm c).
Definition set_term t c := mkCluster (config c) (state c) t (votedFor c) (leaderID c) (log c)
  (logStartIndex c) (logStartTerm c) (commitIndex c) (lastApplied c) (nodes c) (peerAck c)
  (membership c) (sm c).
Definition set_vote v c := mkCluster (config c) (state c) (currentTerm c) v (leaderID c) (log c)
  (logStartIndex c) (logStartTerm c) (commitIndex c) (lastApplied c) (nodes c) (peerAck c)
  (membership c) (sm c).
Definition set_leader l c := mkCluster (config c) (state c) (currentTerm c) (votedFor c) l (log c)
  (logStartIndex c) (logStartTerm c) (commitIndex c) (lastApplied c) (nodes c) (peerAck c)
  (membership c) (sm c).
Definition set_log l c := mkCluster (config c) (state c) (currentTerm c) (votedFor c) (leaderID c) l
  (logStartIndex c) (logStartTerm c) (commitIndex c) (lastApplied c) (nodes c) (peerAck c)
  (membership c) (sm c).
Definition set_start i t c := mkCluster (config c) (state c) (currentTerm c) (votedFor c)
  (leaderID c) (log c) i t (commitIndex c) (lastApplied c) (nodes c) (peerAck c)
  (membership c) (sm c).
Definition set_applied ci la s c := mkCluster (config c) (state c) (currentTerm c) (votedFor c)
  (leaderID c) (log c) (logStartIndex c) (logStartTerm c) ci la (nodes c) (peerAck c)
  (membership c) s.
Definition set_nodes ns c := mkCluster (config c) (state c) (currentTerm c) (votedFor c)
  (leaderID c) (log c) (logStartIndex c) (logStartTerm c) (commitIndex c) (lastApplied c) ns
  (peerAck c) (membership c) (sm c).
Definition set_acks a c := mkCluster (config c) (state c) (currentTerm c) (votedFor c)
  (leaderID c) (log c) (logStartIndex c) (logStartTerm c) (commitIndex c) (lastApplied c) (nodes c)
  a (membership c) (sm c).
Definition set_membership m c := mkCluster (config c) (state c) (currentTerm c) (votedFor c)
  (leaderID c) (log c) (logStartIndex c) (logStartTerm c) (commitIndex c) (lastApplied c) (nodes c)
  (peerAck c) m (sm c).

Definition me (c : Cluster) : string := NodeID (config c).

Definition New (cfg : Config) (s : S) : go Cluster :=
  let* cfg := Validate cfg in
  let self := mkNode (NodeID cfg) (JoinHostPort (BindAddr cfg) (pretty (BindPort cfg))) false in
  let ns := foldl (fun ns p => <[p := mkNode p p false]> ns) {[NodeID cfg := self]} (Peers cfg) in
  Ok (mkCluster cfg StateFollower 0 "" "" [] 0 0 0 0 ns None (mkMembership None false 0) s).

(** ** The log *)

(** The loop of [findLogSlotLocked] and [getLogTermByIndexLocked]: the first position in
    [\[lo, hi)] whose index is at least [index].  The interval shrinks every round. *)
Fixpoint find_loop (fuel : nat) (l : list LogEntry) (index : Z) (lo hi : nat) : nat :=
  match fuel with
  | O => lo
  | Datatypes.S fuel =>
      if (lo <? hi)%nat then
        let mid := (lo + (hi - lo) / 2)%nat in
        match l !! mid with
        | Some e => if Index e <? index then find_loop fuel l index (mid + 1) hi
                    else find_loop fuel l index lo mid
        | None => lo
        end
      else lo
  end.

(** [None] stands for the position [-1]. *)
Definition find_slot (l : list LogEntry) (index : Z) : option nat :=
  let lo := find_loop (length l) l index 0 (length l) in
  match l !! lo with
  | Some e => if Index e =? index then Some lo else None
  | None => None
  end.

Definition findLogSlotLocked (c : Cluster) (index : Z) : option nat := find_slot (log c) index.

Definition getLogTermByIndexLocked (c : Cluster) (index : Z) : Z :=
  match find_slot (log c) index with
  | Some slot => from_option Term 0 (log c !! slot)
  | None => 0
  end.

Definition getLastLogTermForIndex (c : Cluster) (index : Z) : Z :=
  if index =? 0 then 0 else getLogTermByIndexLocked c index.

(** 0 on an empty log, also after a full compaction. *)
Definition getLastLogIndex (c : Cluster) : Z := from_option Index 0 (last (log c)).

(** The watermark on an empty log. *)
Definition getLastLogIndexLocked (c : Cluster) : Z :=
  from_option Index (logStartIndex c) (last (log c)).

Definition getLastLogTerm (c : Cluster) : Z := from_option Term (logStartTerm c) (last (log c)).

Definition GetLogEntries (startIndex : Z) (c : Cluster) : list LogEntry :=
  List.filter (fun e => startIndex <=? Index e) (log c).

(** ** Snapshots and compaction *)

Record SnapshotData := mkSnapshot {
  LastIncludedIndex : Z; LastIncludedTerm : Z; Data : string }.

Definition compactLog (compactIndex : Z) (c : Cluster) : Cluster :=
  let startTerm :=
    match findLogSlotLocked c compactIndex with
    | Some slot => from_option Term 0 (log c !! slot)
    | None => 0
    end in
  let c' := set_log (List.filter (fun e => compactIndex <? Index e) (log c)) c in
  if logStartIndex c <? compactIndex then set_start compactIndex startTerm c' else c'.

Definition CreateSnapshot (c : Cluster) : go (SnapshotData * Cluster) :=
  match Snapshot (sm c) with
  | None => Err "state machine snapshot: %w"
  | Some data =>
      let lastIndex := getLastLogIndexLocked c in
      Ok (mkSnapshot lastIndex (getLastLogTerm c) data, compactLog lastIndex c)
  end.

Definition LogCompactionThreshold : Z := 10000.

(** The goroutine of [maybeCompactLog], when the threshold is reached. *)
Definition maybeCompactLog (c : Cluster) : Cluster :=
  if len (log c) <? LogCompactionThreshold then c
  else match CreateSnapshot c with Ok (_, c') => c' | _ => c end.

Definition RestoreSnapshot (snapshot : SnapshotData) (c : Cluster) : go Cluster :=
  match Restore (Data snapshot) (sm c) with
  | None => Err "restore state machine: %w"
  | Some s =>
      let c := set_log [] c in
      let c := if logStartIndex c <? LastIncludedIndex snapshot
               then set_start (LastIncludedIndex snapshot) (LastIncludedTerm snapshot) c else c in
      let c := set_applied (LastIncludedIndex snapshot) (LastIncludedIndex snapshot) s c in
      Ok (if currentTerm c <? LastIncludedTerm snapshot
          then set_term (LastIncludedTerm snapshot) c else c)
  end.

Record InstallSnapshotRequest := mkInstall {
  is_Term : Z; is_LeaderID : string; is_LastIncludedIndex : Z; is_LastIncludedTerm : Z;
  is_Data : string }.

(** [if req.Term > c.GetTerm()]: adopt the term, step down, forget the vote. *)
Definition step_down (term : Z) (c : Cluster) : Cluster :=
  if currentTerm c <? term then set_vote "" (set_state StateFollower (set_term term c)) else c.

(** The response is the term and the success flag. *)
Definition HandleInstallSnapshot (req : InstallSnapshotRequest) (c : Cluster)
    : (Z * bool) * Cluster :=
  if is_Term req <? currentTerm c then ((currentTerm c, false), c)
  else
    let c := set_leader (is_LeaderID req) (step_down (is_Term req) c) in
    match RestoreSnapshot (mkSnapshot (is_LastIncludedIndex req) (is_LastIncludedTerm req)
                             (is_Data req)) c with
    | Ok c' => ((currentTerm c', true), c')
    | _ => ((currentTerm c, false), c)
    end.

Definition ShouldSendSnapshot (followerNextIndex : Z) (c : Cluster) : bool :=
  match log c with
  | [] => followerNextIndex <=? logStartIndex c
  | e :: _ => followerNextIndex <? Index e
  end.

Definition BuildInstallSnapshotRequest (c : Cluster) : go (InstallSnapshotRequest * Cluster) :=
  let* r := CreateSnapshot c in
  let '(snapshot, c) := r in
  Ok (mkInstall (currentTerm c) (me c) (LastIncludedIndex snapshot) (LastIncludedTerm snapshot)
        (Data snapshot), c).

(** ** Votes *)

Record RequestVote := mkRequestVote {
  rv_Term : Z; rv_CandidateID : string; rv_LastLogIndex : Z; rv_LastLogTerm : Z }.

Record RequestVoteResponse := mkVoteResponse { rvr_Term : Z; VoteGranted : bool }.

(** The candidate is compared with the in-memory log: an empty log counts as index 0 and
    term 0. *)
Definition isLogUpToDate (lastLogIndex lastLogTerm : Z) (c : Cluster) : bool :=
  let myLastLogIndex := getLastLogIndex c in
  let myLastLogTerm := from_option Term 0 (last (log c)) in
  if negb (lastLogTerm =? myLastLogTerm) then myLastLogTerm <? lastLogTerm
  else myLastLogIndex <=? lastLogIndex.

Definition HandleRequestVote (req : RequestVote) (c : Cluster) : RequestVoteResponse * Cluster :=
  if rv_Term req <? currentTerm c then (mkVoteResponse (currentTerm c) false, c)
  else
    let c := step_down (rv_Term req) c in
    let c :=
      if bool_decide (votedFor c = me c) && (rv_Term req =? currentTerm c)
         && String.ltb (me c) (rv_CandidateID req)
      then set_vote "" (set_state StateFollower c) else c in
    if (bool_decide (votedFor c = "") || bool_decide (votedFor c = rv_CandidateID req))
       && isLogUpToDate (rv_LastLogIndex req) (rv_LastLogTerm req) c
    then (mkVoteResponse (currentTerm c) true, set_vote (rv_CandidateID req) c)
    else (mkVoteResponse (currentTerm c) false, c).

(** ** Elections *)

Definition peer_ids (c : Cluster) : gset string := dom (nodes c) ∖ {[me c]}.

(** [len(c.nodes)/2 + 1]. *)
Definition needed (c : Cluster) : Z := Z.of_nat (size (nodes c)) / 2 + 1.

(** The start of [startElection]: the node votes for itself and sends the request. *)
Definition election_request (c : Cluster) : RequestVote :=
  mkRequestVote (currentTerm c) (me c) (getLastLogIndex c) (getLastLogTerm c).

Definition startElection (c : Cluster) : Cluster :=
  set_vote (me c) (set_term (u64 (currentTerm c + 1)) (set_state StateCandidate c)).

(** A response to the election of [term]: the votes counted after it. *)
Definition election_response (term : Z) (resp : RequestVoteResponse) (votes : Z) (c : Cluster)
    : Z * Cluster :=
  if term <? rvr_Term resp then (votes, set_state StateFollower (set_term (rvr_Term resp) c))
  else if VoteGranted resp then (votes + 1, c) else (votes, c).

Definition becomeLeader (now : Z) (c : Cluster) : Cluster :=
  let acks := list_to_map
    ((fun p => (Node_Address p.2, now)) <$>
       List.filter (fun p => negb (bool_decide (p.1 = me c))) (map_to_list (nodes c))) in
  let c := set_leader (me c) (set_state StateLeader (set_acks (Some acks) c)) in
  set_nodes ((fun n => mkNode (Node_ID n) (Node_Address n) (bool_decide (Node_ID n = me c)))
               <$> nodes c) c.

(** The end of [startElection], after all answers, a majority or the timeout.  [required]
    is [needed] at the start of the election. *)
Definition election_end (now : Z) (timeout : bool) (votes required : Z) (c : Cluster) : Cluster :=
  if negb (bool_decide (state c = StateCandidate)) then c
  else if negb timeout && (required <=? votes) then becomeLeader now c
  else set_state StateFollower c.

(** ** Heartbeats *)

Record AppendEntries := mkAppend {
  ae_Term : Z; ae_LeaderID : string; PrevLogIndex : Z; PrevLogTerm : Z;
  Entries : list LogEntry; LeaderCommit : Z }.

Record AppendEntriesResponse := mkAppendResponse {
  aer_Term : Z; Success : bool; ConflictIndex : Z; ConflictTerm : Z }.

Definition peer_addrs (c : Cluster) : list string :=
  (fun p => Node_Address p.2) <$>
    List.filter (fun p => negb (bool_decide (p.1 = me c))) (map_to_list (nodes c)).

Definition hasQuorumContact (now : Z) (peerAddrs : list string) (c : Cluster) : bool :=
  match peerAddrs with
  | [] => true
  | _ =>
      let cutoff := now - ElectionTick (config c) in
      match peerAck c with
      | None => true
      | Some acks =>
          let reachable := 1 + Z.of_nat (countb (fun a =>
            match acks !! a with Some t => cutoff <? t | None => false end) peerAddrs) in
          (len peerAddrs + 1) / 2 + 1 <=? reachable
      end
  end.

(** The messages of [sendHeartbeats], or the step-down of a leader without a quorum. *)
Definition heartbeat_request (c : Cluster) : AppendEntries :=
  mkAppend (currentTerm c) (me c) (getLastLogIndex c) (getLastLogTerm c) [] (commitIndex c).

Definition sendHeartbeats (now : Z) (c : Cluster) : list (string * AppendEntries) * Cluster :=
  if negb (hasQuorumContact now (peer_addrs c) c)
  then ([], set_leader "" (set_state StateFollower c))
  else ((fun a => (a, heartbeat_request c)) <$> peer_addrs c, c).

(** The answer of [addr] to a heartbeat of [term]. *)
Definition heartbeat_response (now term : Z) (addr : string) (resp : AppendEntriesResponse)
    (c : Cluster) : Cluster :=
  let c := match peerAck c with
           | Some acks => set_acks (Some (<[addr := now]> acks)) c
           | None => c
           end in
  if term <? aer_Term resp then set_state StateFollower (set_term (aer_Term resp) c) else c.

(** ** Commands *)

(** The first part of [handleCommand] on the leader: the entry is appended. *)
Definition new_entry (command : string) (c : Cluster) : LogEntry :=
  mkEntry (u64 (getLastLogIndex c + 1)) (currentTerm c) command.

Definition command_append (command : string) (c : Cluster) : go (LogEntry * Cluster) :=
  check (negb (bool_decide (state c = StateLeader))) "not leader, forward to %s" (
  let entry := new_entry command c in
  Ok (entry, set_log (log c ++ [entry]) c)).

(** [totalNodes/2 + 1]. *)
Definition quorum (c : Cluster) : Z := (Z.of_nat (size (peer_ids c)) + 1) / 2 + 1.

(** What is sent to each peer. *)
Definition replicate_request (entry : LogEntry) (c : Cluster) : AppendEntries :=
  mkAppend (currentTerm c) (me c) (u64 (Index entry - 1))
    (getLastLogTermForIndex c (u64 (Index entry - 1))) [entry] (commitIndex c).

Definition replicate_response (resp : AppendEntriesResponse) (successCount : Z) (c : Cluster)
    : Z * Cluster :=
  if currentTerm c <? aer_Term resp
  then (successCount, set_state StateFollower (set_term (aer_Term resp) c))
  else if Success resp then (successCount + 1, c) else (successCount, c).

(** The majority has the entry: apply it and advance the indices. *)
Definition command_commit (entry : LogEntry) (c : Cluster) : option string * Cluster :=
  let '(output, s) := Apply (Command entry) (sm c) in
  (output, maybeCompactLog (set_applied (Index entry) (Index entry) s c)).

(** A single-node cluster commits at once. *)
Definition handleCommand_single (command : string) (c : Cluster)
    : go (LogEntry * option string * Cluster) :=
  let* r := command_append command c in
  let '(entry, c) := r in
  let '(output, c) := command_commit entry c in
  Ok (entry, output, c).

(** ** AppendEntries *)

(** The log consistency check: [Some resp] rejects the request. *)
Definition consistency_check (req : AppendEntries) (c : Cluster) : option AppendEntriesResponse :=
  if 0 <? PrevLogIndex req then
    if PrevLogIndex req <=? logStartIndex c then
      if (PrevLogIndex req =? logStartIndex c) && negb (PrevLogTerm req =? logStartTerm c)
      then Some (mkAppendResponse (currentTerm c) false (logStartIndex c) (logStartTerm c))
      else None
    else if getLastLogIndexLocked c <? PrevLogIndex req then
      Some (mkAppendResponse (currentTerm c) false (getLastLogIndexLocked c) 0)
    else match findLogSlotLocked c (PrevLogIndex req) with
    | None => Some (mkAppendResponse (currentTerm c) false (getLastLogIndexLocked c) 0)
    | Some slot =>
        match log c !! slot with
        | Some prevEntry =>
            if negb (Term prevEntry =? PrevLogTerm req)
            then Some (mkAppendResponse (currentTerm c) false (PrevLogIndex req) (Term prevEntry))
            else None
        | None => None
        end
    end
  else None.

(** One round of the loop over the new entries. *)
Definition append_entry (start : Z) (l : list LogEntry) (entry : LogEntry) : list LogEntry :=
  if Index entry <=? start then l
  else match find_slot l (Index entry) with
  | Some slot =>
      match l !! slot with
      | Some old => if negb (Term old =? Term entry) then take slot l ++ [entry] else l
      | None => l
      end
  | None => l ++ [entry]
  end.

(** The commands at [i], [i+1], ... up to [n] of them, until one is missing. *)
Fixpoint collect_committed (n : nat) (l : list LogEntry) (i : Z) : list string :=
  match n with
  | O => []
  | Datatypes.S n =>
      match find_slot l i with
      | None => []
      | Some slot =>
          match l !! slot with
          | Some e => Command e :: collect_committed n l (i + 1)
          | None => []
          end
      end
  end.

(** [Apply] of the collected commands; an error is logged and skipped. *)
Definition apply_all (cmds : list string) (s : S) : S := foldl (fun s cmd => (Apply cmd s).2) s cmds.

(** Advancing the commit index.  [make(\[\]\[\]byte, 0, commitIdx-lastApplied)] computes the
    capacity in [uint64]: it panics when the commit index falls below the applied one. *)
Definition advance_commit (leaderCommit : Z) (c : Cluster) : go Cluster :=
  if commitIndex c <? leaderCommit then
    let lastNewIndex := getLastLogIndex c in
    let newCommit := if lastNewIndex <? leaderCommit then lastNewIndex else leaderCommit in
    if newCommit <? lastApplied c then Panic
    else
      let toApply := collect_committed (Z.to_nat (newCommit - lastApplied c)) (log c)
                       (lastApplied c + 1) in
      Ok (set_applied newCommit (u64 (lastApplied c + len toApply)) (apply_all toApply (sm c)) c)
  else Ok c.

Definition HandleAppendEntries (req : AppendEntries) (c : Cluster)
    : go (AppendEntriesResponse * Cluster) :=
  if ae_Term req <? currentTerm c then Ok (mkAppendResponse (currentTerm c) false 0 0, c)
  else
    let c := set_leader (ae_LeaderID req) (step_down (ae_Term req) c) in
    match consistency_check req c with
    | Some resp => Ok (resp, c)
    | None =>
        let c := set_log (foldl (append_entry (logStartIndex c)) (log c) (Entries req)) c in
        let* c := advance_commit (LeaderCommit req) c in
        Ok (mkAppendResponse (currentTerm c) true 0 0, c)
    end.

(** ** Membership *)

Definition AddNode (nodeID address : string) (c : Cluster) : Cluster :=
  set_nodes (<[nodeID := mkNode nodeID address false]> (nodes c)) c.

Definition RemoveNode (nodeID : string) (c : Cluster) : Cluster :=
  set_nodes (delete nodeID (nodes c)) c.

Definition applyMembershipChange (change : MembershipChange) (c : Cluster) : Cluster :=
  match ch_Type change with
  | AddNodeChange => AddNode (ch_NodeID change) (ch_Address change) c
  | RemoveNodeChange => RemoveNode (ch_NodeID change) c
  end.

Definition clearMembershipTransition (c : Cluster) : Cluster :=
  set_membership (mkMembership None false 0) c.

(** [ProposeMembershipChange]: [propose1] and [propose2] are the two calls of [Propose],
    which answer the index of the committed entry or fail. *)
Definition ProposeMembershipChange (change : MembershipChange)
    (propose1 propose2 : Cluster -> option Z * Cluster) (c : Cluster) : go unit * Cluster :=
  if negb (bool_decide (state c = StateLeader)) then (Err "not leader, current leader is %s", c)
  else if inTransition (membership c) then (Err "membership change already in progress", c)
  else
    let c := set_membership (mkMembership (Some change) true (jointCommitID (membership c))) c in
    match propose1 c with
    | (None, c) => (Err "propose joint config: %w", clearMembershipTransition c)
    | (Some idx, c) =>
        let c := set_membership (mkMembership (pending (membership c)) (inTransition (membership c)) idx) c in
        let c := applyMembershipChange change c in
        match propose2 c with
        | (None, c) => (Err "propose final config: %w", clearMembershipTransition c)
        | (Some _, c) => (Ok tt, clearMembershipTransition c)
        end
    end.

End Raft.

Arguments Cluster S : clear implicits.
