(* ===== verification/RaftFacts.v ===== *)
(** * Consensus: the log, commitment and votes

    The in-memory log is contiguous above the snapshot watermark; AppendEntries makes a
    follower agree with the leader's entries and never drops entries without a
    conflict; committed commands are applied in order; a node grants at most one vote
    per term to another node.  The last part shows the defects of compaction and of
    stale answers. *)
From S2P Require Import Prelude Http Bytes Raft.

(** ** Binary search in the log *)

Definition increasing (l : list LogEntry) : Prop :=
  forall i j a b, (i < j)%nat -> l !! i = Some a -> l !! j = Some b -> Index a < Index b.

Lemma find_loop_spec l index fuel lo hi :
  increasing l -> (lo <= hi <= length l)%nat -> (hi - lo <= fuel)%nat ->
  (forall i e, (i < lo)%nat -> l !! i = Some e -> Index e < index) ->
  (forall i e, (hi <= i)%nat -> l !! i = Some e -> index <= Index e) ->
  let r := find_loop fuel l index lo hi in
  (r <= length l)%nat /\
  (forall i e, (i < r)%nat -> l !! i = Some e -> Index e < index) /\
  (forall i e, (r <= i)%nat -> l !! i = Some e -> index <= Index e).
Proof.
  intros Hinc. revert lo hi. induction fuel as [|fuel IH]; intros lo hi Hb Hf Hlo Hhi; cbn [find_loop].
  - assert (lo = hi) as -> by lia. auto with lia.
  - destruct (Nat.ltb_spec lo hi) as [Hlt|Hge].
    + set (mid := (lo + (hi - lo) / 2)%nat).
      assert (lo <= mid < hi)%nat as Hmid.
      { unfold mid. pose proof (Nat.div_lt (hi - lo) 2). lia. }
      destruct (lookup_lt_is_Some_2 l mid) as [em Em]; [lia|]. rewrite Em.
      destruct (Z.ltb_spec (Index em) index) as [C|C].
      * apply IH; [lia|lia| |done]. intros i e Hi Ei.
        destruct (decide (i = mid)) as [->|]; [congruence|].
        pose proof (Hinc i mid e em ltac:(lia) Ei Em). lia.
      * apply IH; [lia|lia|done|]. intros i e Hi Ei.
        destruct (decide (i = mid)) as [->|]; [naive_solver|].
        pose proof (Hinc mid i em e ltac:(lia) Em Ei). lia.
    + assert (lo = hi) as -> by lia. split_and!; auto with lia.
Qed.

Lemma find_slot_spec l index s :
  increasing l -> find_slot l index = Some s <-> exists e, l !! s = Some e /\ Index e = index.
Proof.
  intros Hinc. unfold find_slot.
  destruct (find_loop_spec l index (length l) 0 (length l) Hinc) as (Hr & Hlt & Hge).
  { lia. } { lia. } { intros; lia. }
  { intros i e Hi Ei. apply lookup_lt_Some in Ei. lia. }
  set (r := find_loop _ _ _ _ _) in *. split.
  - destruct (l !! r) as [e|] eqn:E; [|done]. destruct (Z.eqb_spec (Index e) index); [|done].
    intros [= <-]. eauto.
  - intros (e & Es & Hi).
    assert (r = s) as ->; [|by rewrite Es, Hi, Z.eqb_refl].
    destruct (lt_eq_lt_dec r s) as [[Hrs|]|Hsr]; [|done|].
    + destruct (lookup_lt_is_Some_2 l r) as [er Er].
      { apply lookup_lt_Some in Es. lia. }
      pose proof (Hinc r s er e Hrs Er Es). pose proof (Hge r er ltac:(lia) Er). lia.
    + pose proof (Hlt s e Hsr Es). lia.
Qed.

(** ** Contiguous logs *)

(** The entries of [l] have the indices [k], [k+1], ... *)
Definition consecutive (k : Z) (l : list LogEntry) : Prop :=
  forall i e, l !! i = Some e -> Index e = k + Z.of_nat i.

Lemma consecutive_increasing k l : consecutive k l -> increasing l.
Proof. intros H i j a b Hij Ha Hb. rewrite (H i a Ha), (H j b Hb). lia. Qed.

Lemma consecutive_cons k e l : consecutive k (e :: l) <-> Index e = k /\ consecutive (k + 1) l.
Proof.
  split.
  - intros H. split; [by rewrite (H 0%nat e eq_refl), Z.add_0_r|].
    intros i x Hx. rewrite (H (S i) x Hx). lia.
  - intros [He H] [|i] x Hx; simpl in *; [simplify_eq; lia|]. rewrite (H i x Hx). lia.
Qed.

Lemma consecutive_snoc k l e :
  consecutive k l -> Index e = k + Z.of_nat (length l) -> consecutive k (l ++ [e]).
Proof.
  intros H He i x [Hx|[Hi Hx]]%lookup_app_Some; [auto|].
  destruct (i - length l)%nat as [|n] eqn:E; simpl in Hx; [|done]. simplify_eq.
  rewrite He. lia.
Qed.

Lemma consecutive_take k n l : consecutive k l -> consecutive k (take n l).
Proof. intros H i e Hi. apply H. by apply lookup_take_Some in Hi as [? _]. Qed.

Lemma consecutive_drop k n l : consecutive k l -> consecutive (k + Z.of_nat n) (drop n l).
Proof. intros H i e Hi. rewrite lookup_drop in Hi. rewrite (H _ _ Hi). lia. Qed.

Lemma find_slot_consecutive k l index :
  consecutive k l ->
  find_slot l index =
  if (k <=? index) && (index <? k + len l) then Some (Z.to_nat (index - k)) else None.
Proof.
  intros H. pose proof (find_slot_spec l index) as Hs.
  destruct ((k <=? index) && (index <? k + len l)) eqn:C.
  - b2p. unfold len in *. apply Hs; [by eapply consecutive_increasing|].
    destruct (lookup_lt_is_Some_2 l (Z.to_nat (index - k))) as [e E]; [lia|].
    exists e. split; [done|]. rewrite (H _ _ E). lia.
  - destruct (find_slot l index) as [s|] eqn:E; [|done]. exfalso.
    destruct (proj1 (Hs s (consecutive_increasing _ _ H)) eq_refl) as (e & Es & Hi).
    pose proof (H _ _ Es). apply lookup_lt_Some in Es. unfold len in C.
    apply andb_false_iff in C as [C|C]; b2p; lia.
Qed.

Lemma last_consecutive k l e :
  consecutive k l -> last l = Some e -> Index e = k + len l - 1.
Proof.
  intros H Hl. rewrite last_lookup in Hl. rewrite (H _ _ Hl).
  apply lookup_lt_Some in Hl. unfold len. lia.
Qed.

(** ** The loop over the entries of a request *)

Lemma append_entry_consecutive start l e :
  consecutive (start + 1) l -> Index e <= start + len l + 1 ->
  let l' := append_entry start l e in
  consecutive (start + 1) l' /\ Index e <= start + len l' /\
  (forall i, (Z.of_nat i < Index e - start - 1) -> l' !! i = l !! i) /\
  (start < Index e ->
    exists x, l' !! Z.to_nat (Index e - start - 1) = Some x /\ Term x = Term e) /\
  (l' = l \/ l' = take (Z.to_nat (Index e - start - 1)) l ++ [e] /\ start < Index e).
Proof.
  intros H He. unfold append_entry. pose proof (len_nonneg l).
  destruct (Z.leb_spec (Index e) start) as [C|C]; simpl.
  { split_and!; auto; lia. }
  rewrite (find_slot_consecutive (start + 1)) by done.
  destruct ((start + 1 <=? Index e) && (Index e <? start + 1 + len l)) eqn:D; b2p.
  - set (s := Z.to_nat (Index e - (start + 1))).
    replace (Z.to_nat (Index e - start - 1)) with s by lia.
    assert (Hs : (s < length l)%nat) by (unfold s, len in *; lia).
    destruct (lookup_lt_is_Some_2 l s Hs) as [old Hold]. rewrite Hold.
    destruct (Z.eqb_spec (Term old) (Term e)) as [Et|Et]; simpl.
    + split_and!; auto; [lia|eauto].
    + assert (Hlen : length (take s l) = s) by (rewrite length_take; lia).
      split_and!.
      * apply consecutive_snoc; [by apply consecutive_take|]. rewrite Hlen. unfold s. lia.
      * rewrite len_app. unfold len. rewrite Hlen. simpl. unfold s. lia.
      * intros i Hi. rewrite lookup_app_l by (rewrite Hlen; unfold s; lia).
        apply lookup_take_lt. unfold s. lia.
      * intros _. exists e. split; [|done]. rewrite lookup_app_r by lia.
        by rewrite Hlen, Nat.sub_diag.
      * auto.
  - assert (Hi : Index e = start + 1 + len l).
    { apply andb_false_iff in D as [D|D]; b2p; lia. }
    split_and!.
    + apply consecutive_snoc; [done|]. done.
    + rewrite len_app. unfold len at 2. simpl. lia.
    + intros i Hlt. apply lookup_app_l. unfold len in *. lia.
    + intros _. exists e. split; [|done].
      replace (Z.to_nat (Index e - start - 1)) with (length l) by (unfold len in *; lia).
      rewrite lookup_app_r by lia. by rewrite Nat.sub_diag.
    + right. split; [|lia]. f_equal. rewrite take_ge; [done|]. unfold len in *. lia.
Qed.

(** Whether [e] contradicts the log. *)
Definition conflicts (start : Z) (l : list LogEntry) (e : LogEntry) : Prop :=
  start < Index e /\
  exists x, l !! Z.to_nat (Index e - start - 1) = Some x /\ Term x <> Term e.

Lemma append_entry_no_conflict start l e :
  consecutive (start + 1) l -> Index e <= start + len l + 1 -> ~ conflicts start l e ->
  append_entry start l e = l \/
  append_entry start l e = l ++ [e] /\ Index e = start + len l + 1.
Proof.
  intros H He Hnc. unfold append_entry.
  destruct (Z.leb_spec (Index e) start) as [C|C]; [auto|].
  rewrite (find_slot_consecutive (start + 1)) by done.
  destruct ((start + 1 <=? Index e) && (Index e <? start + 1 + len l)) eqn:D; b2p.
  - destruct (l !! Z.to_nat (Index e - (start + 1))) as [x|] eqn:Ex; [|auto].
    destruct (Z.eqb_spec (Term x) (Term e)); [auto|]. exfalso. apply Hnc.
    split; [done|]. exists x. split; [|done].
    by replace (Index e - start - 1) with (Index e - (start + 1)) by lia.
  - right. split; [done|]. apply andb_false_iff in D as [D|D]; b2p; lia.
Qed.

Lemma append_entries_spec start es l k :
  consecutive (start + 1) l -> consecutive k es -> k <= start + len l + 1 ->
  let l' := foldl (append_entry start) l es in
  consecutive (start + 1) l' /\ k + len es - 1 <= start + len l' /\
  (forall i, (Z.of_nat i < k - start - 1) -> l' !! i = l !! i) /\
  (forall e, e ∈ es -> start < Index e ->
    exists x, l' !! Z.to_nat (Index e - start - 1) = Some x /\ Term x = Term e) /\
  ((forall e, e ∈ es -> ~ conflicts start l e) -> l `prefix_of` l').
Proof.
  revert l k. induction es as [|e es IH]; intros l k Hl Hes Hk; cbn [foldl].
  { rewrite len_nil. split_and!; [done|lia|done|set_solver|done]. }
  apply consecutive_cons in Hes as [He Hes].
  destruct (append_entry_consecutive start l e Hl ltac:(lia)) as (H1 & H2 & H3 & H4 & _).
  set (l1 := append_entry start l e) in *.
  destruct (IH l1 (k + 1) H1 Hes ltac:(lia)) as (J1 & J2 & J3 & J4 & J5).
  rewrite len_cons. split_and!.
  - done.
  - lia.
  - intros i Hi. rewrite J3 by lia. apply H3. lia.
  - intros x [->|Hx]%elem_of_cons Hs; [|auto].
    destruct (H4 Hs) as (y & Hy & Ht). exists y. split; [|done]. rewrite J3; [done|lia].
  - intros Hnc. destruct (append_entry_no_conflict start l e Hl ltac:(lia)) as [E|[E Ei]].
    { apply Hnc. set_solver. }
    + unfold l1 in *. rewrite E in *. apply J5. intros x Hx. apply Hnc. set_solver.
    + etransitivity; [|apply J5].
      * unfold l1. rewrite E. by apply prefix_app_r.
      * intros x Hx [Hs (y & Hy & _)]. unfold l1 in Hy. rewrite E in Hy.
        apply list_elem_of_lookup in Hx as [n Hn]. pose proof (Hes _ _ Hn) as Hxi.
        apply lookup_lt_Some in Hy. rewrite length_app in Hy. simpl in Hy. unfold len in *. lia.
Qed.

Section Raft.
Context {S : Type} `{!StateMachine S}.
Implicit Types c : Cluster S.

(** ** The log invariant *)

(** The log holds the indices just above the snapshot watermark. *)
Definition log_inv c : Prop :=
  0 <= logStartIndex c /\ consecutive (logStartIndex c + 1) (log c).

Definition last_index c : Z := logStartIndex c + len (log c).

(** The entry at an absolute index. *)
Definition entry_at c (i : Z) : option LogEntry :=
  if logStartIndex c <? i then log c !! Z.to_nat (i - logStartIndex c - 1) else None.

(** A request as a leader sends it: its entries follow the previous index. *)
Definition request_wf (req : AppendEntries) : Prop :=
  0 <= PrevLogIndex req /\ consecutive (PrevLogIndex req + 1) (Entries req).

Lemma last_locked c : log_inv c -> getLastLogIndexLocked c = last_index c.
Proof.
  intros [_ H]. unfold getLastLogIndexLocked, last_index.
  destruct (last (log c)) as [e|] eqn:E; simpl.
  - rewrite (last_consecutive _ _ _ H E). lia.
  - apply last_None in E. rewrite E, len_nil. lia.
Qed.

Lemma last_unlocked c :
  log_inv c -> getLastLogIndex c = if bool_decide (log c = []) then 0 else last_index c.
Proof.
  intros [_ H]. unfold getLastLogIndex, last_index.
  destruct (last (log c)) as [e|] eqn:E; simpl.
  - rewrite bool_decide_false by (intros E2; by rewrite E2 in E).
    rewrite (last_consecutive _ _ _ H E). lia.
  - apply last_None in E. by rewrite bool_decide_true.
Qed.

Lemma consistency_check_pass req c :
  log_inv c -> 0 <= PrevLogIndex req -> consistency_check req c = None ->
  PrevLogIndex req <= last_index c /\
  (logStartIndex c < PrevLogIndex req ->
    exists e, entry_at c (PrevLogIndex req) = Some e /\ Term e = PrevLogTerm req).
Proof.
  intros Hinv H0. pose proof Hinv as [Hs Hc]. unfold consistency_check, last_index.
  pose proof (len_nonneg (log c)).
  destruct (Z.ltb_spec 0 (PrevLogIndex req)) as [C0|C0]; [|intros; split; lia].
  destruct (Z.leb_spec (PrevLogIndex req) (logStartIndex c)) as [C1|C1]; [intros; split; lia|].
  rewrite last_locked by done. unfold last_index.
  destruct (Z.ltb_spec (logStartIndex c + len (log c)) (PrevLogIndex req)) as [C2|C2]; [done|].
  unfold findLogSlotLocked. rewrite (find_slot_consecutive _ _ _ Hc).
  rewrite (proj2 (Z.leb_le _ _)), (proj2 (Z.ltb_lt _ _)) by lia. simpl.
  intros Hn. split; [lia|]. intros _. unfold entry_at.
  rewrite (proj2 (Z.ltb_lt _ _)) by lia.
  replace (PrevLogIndex req - logStartIndex c - 1) with (PrevLogIndex req - (logStartIndex c + 1)) by lia.
  destruct (lookup_lt_is_Some_2 (log c) (Z.to_nat (PrevLogIndex req - (logStartIndex c + 1)))) as [e Ee].
  { unfold len in *. lia. }
  rewrite Ee in *. exists e. split; [done|].
  destruct (Z.eqb_spec (Term e) (PrevLogTerm req)); [done|]. done.
Qed.

(** The node after the request was accepted and before the commit index advances. *)
Definition appended (req : AppendEntries) c : Cluster S :=
  let c1 := set_leader (ae_LeaderID req) (step_down (ae_Term req) c) in
  set_log (foldl (append_entry (logStartIndex c1)) (log c1) (Entries req)) c1.

Lemma step_down_log t c :
  log (step_down t c) = log c /\ logStartIndex (step_down t c) = logStartIndex c /\
  logStartTerm (step_down t c) = logStartTerm c /\
  commitIndex (step_down t c) = commitIndex c /\ lastApplied (step_down t c) = lastApplied c /\
  sm (step_down t c) = sm c.
Proof. unfold step_down. by case_match. Qed.

Lemma advance_commit_log lc c c' :
  advance_commit lc c = Ok c' ->
  log c' = log c /\ logStartIndex c' = logStartIndex c /\ currentTerm c' = currentTerm c /\
  votedFor c' = votedFor c /\ config c' = config c /\ nodes c' = nodes c /\ state c' = state c.
Proof.
  unfold advance_commit. case_match; [|by intros [= <-]]. case_match; [done|]. by intros [= <-].
Qed.

(** An accepted request: the check passed, the entries were merged, the commit index
    advanced. *)
Lemma HandleAppendEntries_success req c resp c' :
  HandleAppendEntries req c = Ok (resp, c') -> Success resp = true ->
  currentTerm c <= ae_Term req /\
  consistency_check req (set_leader (ae_LeaderID req) (step_down (ae_Term req) c)) = None /\
  advance_commit (LeaderCommit req) (appended req c) = Ok c'.
Proof.
  unfold HandleAppendEntries. destruct (Z.ltb_spec (ae_Term req) (currentTerm c)).
  { intros [= <- <-]. done. }
  set (c1 := set_leader _ _). destruct (consistency_check req c1) as [r|] eqn:E.
  { intros [= <- <-] Hs. exfalso. unfold consistency_check in E.
    repeat case_match; simplify_eq; done. }
  fold c1 in E |- *. change (set_log _ c1) with (appended req c).
  destruct (advance_commit _ _) as [c2| |]; cbn [go_bind]; [|done..]. intros [= <- <-] _. done.
Qed.

Lemma log_inv_check req c :
  log_inv c -> log_inv (set_leader (ae_LeaderID req) (step_down (ae_Term req) c)).
Proof.
  intros H. unfold log_inv in *. simpl.
  destruct (step_down_log (ae_Term req) c) as (-> & -> & _). done.
Qed.

(** What an accepted request does to the log. *)
Lemma append_entries_log req c resp c' :
  log_inv c -> request_wf req ->
  HandleAppendEntries req c = Ok (resp, c') -> Success resp = true ->
  log_inv c' /\ logStartIndex c' = logStartIndex c /\
  PrevLogIndex req + len (Entries req) <= last_index c' /\
  (forall i, i <= PrevLogIndex req -> entry_at c' i = entry_at c i) /\
  (forall e, e ∈ Entries req -> logStartIndex c < Index e ->
    exists x, entry_at c' (Index e) = Some x /\ Term x = Term e) /\
  ((forall e, e ∈ Entries req -> ~ conflicts (logStartIndex c) (log c) e) ->
    log c `prefix_of` log c') /\
  (logStartIndex c < PrevLogIndex req ->
    exists e, entry_at c (PrevLogIndex req) = Some e /\ Term e = PrevLogTerm req).
Proof.
  intros Hinv [Hp Hes] Hh Hs.
  destruct (HandleAppendEntries_success _ _ _ _ Hh Hs) as (_ & Hcheck & Hadv).
  destruct (consistency_check_pass _ _ (log_inv_check req c Hinv) Hp Hcheck) as [Hle Hprev].
  destruct (advance_commit_log _ _ _ Hadv) as (El & Es & _).
  destruct (step_down_log (ae_Term req) c) as (Ed1 & Ed2 & _).
  unfold appended, last_index, entry_at in *. simpl in *. rewrite Ed1, Ed2 in *.
  destruct Hinv as [H0 Hc].
  destruct (append_entries_spec (logStartIndex c) (Entries req) (log c) (PrevLogIndex req + 1)
    Hc Hes ltac:(lia)) as (J1 & J2 & J3 & J4 & J5).
  rewrite El, Es. unfold log_inv. rewrite El, Es. split_and!; try done; try lia.
  - intros i Hi. destruct (Z.ltb_spec (logStartIndex c) i); [|done]. apply J3. lia.
  - intros e He Hlt. rewrite (proj2 (Z.ltb_lt _ _)) by done. auto.
Qed.

(** The leader's entries reach the follower: when a well-formed AppendEntries request
    succeeds on a node whose log is contiguous, the log stays contiguous, everything up
    to the previous index is untouched and agrees with the request there, every entry of
    the request above the snapshot is in the log with the leader's term, and unless one
    of them contradicts the log, no entry of the log is lost (a late or repeated request
    never truncates). *)
Theorem append_entries_merges_log req c resp c' :
  log_inv c -> request_wf req ->
  HandleAppendEntries req c = Ok (resp, c') -> Success resp = true ->
  log_inv c' /\ logStartIndex c' = logStartIndex c /\
  PrevLogIndex req + len (Entries req) <= last_index c' /\
  (forall i, i <= PrevLogIndex req -> entry_at c' i = entry_at c i) /\
  (forall e, e ∈ Entries req -> logStartIndex c < Index e ->
    exists x, entry_at c' (Index e) = Some x /\ Term x = Term e) /\
  ((forall e, e ∈ Entries req -> ~ conflicts (logStartIndex c) (log c) e) ->
    log c `prefix_of` log c') /\
  (logStartIndex c < PrevLogIndex req ->
    exists e, entry_at c (PrevLogIndex req) = Some e /\ Term e = PrevLogTerm req).
Proof. apply append_entries_log. Qed.

(** A request that is not accepted leaves the log and the applied state alone. *)
Lemma append_entries_reject req c resp c' :
  HandleAppendEntries req c = Ok (resp, c') -> Success resp = false ->
  log c' = log c /\ logStartIndex c' = logStartIndex c /\ commitIndex c' = commitIndex c /\
  lastApplied c' = lastApplied c /\ sm c' = sm c.
Proof.
  unfold HandleAppendEntries. case_match; [by intros [= <- <-]|].
  set (c1 := set_leader _ _). destruct (consistency_check req c1) as [r|].
  - intros [= <- <-] _. unfold c1. simpl.
    by destruct (step_down_log (ae_Term req) c) as (-> & -> & _ & -> & -> & ->).
  - destruct (advance_commit _ _); cbn [go_bind]; [|done..]. by intros [= <- <-].
Qed.

(** ** Compaction and snapshots *)

Lemma filter_consecutive k idx l :
  consecutive k l -> List.filter (fun e => idx <? Index e) l = drop (Z.to_nat (idx - k + 1)) l.
Proof.
  revert k. induction l as [|e l IH]; intros k H; simpl; [by rewrite drop_nil|].
  apply consecutive_cons in H as [He Hl]. rewrite (IH (k + 1) Hl), He.
  destruct (Z.ltb_spec idx k).
  - replace (Z.to_nat (idx - k + 1)) with 0%nat by lia.
    by replace (Z.to_nat (idx - (k + 1) + 1)) with 0%nat by lia.
  - replace (Z.to_nat (idx - k + 1)) with (Datatypes.S (Z.to_nat (idx - (k + 1) + 1))) by lia. done.
Qed.

Lemma compactLog_inv idx c : log_inv c -> idx <= last_index c -> log_inv (compactLog idx c).
Proof.
  intros [H0 Hc] Hle. unfold compactLog, log_inv, last_index in *.
  rewrite (filter_consecutive _ idx _ Hc).
  destruct (Z.ltb_spec (logStartIndex c) idx) as [C|C]; simpl.
  - split; [lia|]. pose proof (consecutive_drop _ (Z.to_nat (idx - (logStartIndex c + 1) + 1)) _ Hc) as H.
    by replace (logStartIndex c + 1 + Z.of_nat (Z.to_nat (idx - (logStartIndex c + 1) + 1)))
      with (idx + 1) in H by lia.
  - split; [lia|]. by replace (Z.to_nat (idx - (logStartIndex c + 1) + 1)) with 0%nat by lia.
Qed.

Lemma CreateSnapshot_inv c snap c' :
  log_inv c -> CreateSnapshot c = Ok (snap, c') ->
  log_inv c' /\ log c' = [] /\ logStartIndex c' = last_index c /\
  LastIncludedIndex snap = last_index c /\ commitIndex c' = commitIndex c /\
  lastApplied c' = lastApplied c /\ sm c' = sm c.
Proof.
  intros Hinv. unfold CreateSnapshot. destruct (Snapshot (sm c)) as [d|]; [|done].
  rewrite last_locked by done. intros [= <- <-].
  pose proof Hinv as [H0 Hc]. pose proof (len_nonneg (log c)).
  split; [apply compactLog_inv; [done|lia]|].
  unfold compactLog. rewrite (filter_consecutive _ _ _ Hc).
  assert (E : drop (Z.to_nat (last_index c - (logStartIndex c + 1) + 1)) (log c) = []).
  { apply drop_ge. unfold last_index, len in *. lia. }
  rewrite E. destruct (Z.ltb_spec (logStartIndex c) (last_index c)); simpl; [done|].
  split_and!; try done. unfold last_index in *. lia.
Qed.

Lemma maybeCompactLog_inv c : log_inv c -> log_inv (maybeCompactLog c).
Proof.
  intros H. unfold maybeCompactLog. case_match; [done|].
  destruct (CreateSnapshot c) as [[s c']| |] eqn:E; [|done..].
  by apply (CreateSnapshot_inv c s c').
Qed.

Lemma RestoreSnapshot_inv snap c c' :
  log_inv c -> RestoreSnapshot snap c = Ok c' -> log_inv c' /\ log c' = [].
Proof.
  intros [H0 _]. unfold RestoreSnapshot. destruct (Restore _ _); [|done]. intros [= <-].
  unfold log_inv. simpl. destruct (Z.ltb_spec (logStartIndex c) (LastIncludedIndex snap)); simpl;
    destruct (_ <? _); simpl; split_and!; try done; lia.
Qed.

(** ** Steps of a node *)

(** Every operation of a node, with any request of its peers that is well formed.  A
    command is appended when the log is not empty or nothing was compacted. *)
Inductive node_step : Cluster S -> Cluster S -> Prop :=
  | ns_vote req c : node_step c (HandleRequestVote req c).2
  | ns_append req c resp c' :
      request_wf req -> HandleAppendEntries req c = Ok (resp, c') -> node_step c c'
  | ns_install req c : node_step c (HandleInstallSnapshot req c).2
  | ns_snapshot c snap c' : CreateSnapshot c = Ok (snap, c') -> node_step c c'
  | ns_compact c : node_step c (maybeCompactLog c)
  | ns_election c : node_step c (startElection c)
  | ns_election_response t resp votes c : node_step c (election_response t resp votes c).2
  | ns_election_end now timeout votes required c :
      node_step c (election_end now timeout votes required c)
  | ns_heartbeat now c : node_step c (sendHeartbeats now c).2
  | ns_heartbeat_response now t a resp c : node_step c (heartbeat_response now t a resp c)
  | ns_command cmd c e c' :
      command_append cmd c = Ok (e, c') -> log c <> [] \/ logStartIndex c = 0 ->
      last_index c + 1 < 2 ^ 64 -> node_step c c'
  | ns_replicate resp n c : node_step c (replicate_response resp n c).2
  | ns_commit e c : node_step c (command_commit e c).2
  | ns_add id a c : node_step c (AddNode id a c)
  | ns_remove id c : node_step c (RemoveNode id c).

Lemma log_inv_ext c c' :
  log c' = log c -> logStartIndex c' = logStartIndex c -> log_inv c -> log_inv c'.
Proof. unfold log_inv. by intros -> ->. Qed.

Lemma command_append_inv cmd c e c' :
  log_inv c -> command_append cmd c = Ok (e, c') -> log c <> [] \/ logStartIndex c = 0 ->
  last_index c + 1 < 2 ^ 64 -> log_inv c' /\ Index e = last_index c + 1.
Proof.
  intros Hinv Hc Hg Hmax. pose proof Hinv as [H0 Hl].
  assert (E : Index (new_entry cmd c) = last_index c + 1).
  { unfold new_entry. simpl. rewrite last_unlocked by done. pose proof (len_nonneg (log c)).
    case_bool_decide as Hn.
    - destruct Hg as [|E0]; [done|]. unfold last_index. by rewrite Hn, E0.
    - rewrite u64_small; [done|]. unfold in_u64, last_index in *. lia. }
  unfold command_append, check in Hc. case_match; [done|]. injection Hc as <- <-.
  split; [|done]. split; [done|]. simpl. apply consecutive_snoc; [done|].
  rewrite E. unfold last_index, len. lia.
Qed.

Lemma node_step_log c c' : node_step c c' -> log_inv c -> log_inv c'.
Proof.
  intros Hs Hinv. destruct Hs as [req c|req c resp c' Hwf Hh|req c|c snap c' Hsn|c|c|t resp v c
    |now tmo v r c|now c|now t a resp c|cmd c e c' Hc Hg Hmax|resp n c|e c|id a c|id c].
  - eapply log_inv_ext; [..|exact Hinv]; unfold HandleRequestVote, step_down;
      repeat case_match; done.
  - destruct (Success resp) eqn:Es.
    + by destruct (append_entries_log _ _ _ _ Hinv Hwf Hh Es).
    + destruct (append_entries_reject _ _ _ _ Hh Es) as (E1 & E2 & _).
      by eapply log_inv_ext.
  - unfold HandleInstallSnapshot. case_match; [done|].
    assert (H1 : log_inv (set_leader (is_LeaderID req) (step_down (is_Term req) c))).
    { eapply log_inv_ext; [..|exact Hinv]; unfold step_down; by case_match. }
    destruct (RestoreSnapshot _ _) as [c2| |] eqn:E; simpl; [|done..].
    by eapply RestoreSnapshot_inv.
  - by apply (CreateSnapshot_inv c snap c').
  - by apply maybeCompactLog_inv.
  - by eapply log_inv_ext; [..|exact Hinv].
  - eapply log_inv_ext; [..|exact Hinv]; unfold election_response; by repeat case_match.
  - eapply log_inv_ext; [..|exact Hinv]; unfold election_end; by repeat case_match.
  - eapply log_inv_ext; [..|exact Hinv]; unfold sendHeartbeats; by repeat case_match.
  - eapply log_inv_ext; [..|exact Hinv]; unfold heartbeat_response; by repeat case_match.
  - by apply (command_append_inv cmd c e c').
  - eapply log_inv_ext; [..|exact Hinv]; unfold replicate_response; by repeat case_match.
  - unfold command_commit. destruct (Apply _ _) as [o s]. simpl. apply maybeCompactLog_inv.
    by eapply log_inv_ext; [..|exact Hinv].
  - by eapply log_inv_ext; [..|exact Hinv].
  - by eapply log_inv_ext; [..|exact Hinv].
Qed.


(** ** Commitment *)

Lemma collect_committed_spec start l n i :
  consecutive (start + 1) l -> start <= i -> i + Z.of_nat n <= start + len l ->
  collect_committed n l (i + 1) = Command <$> take n (drop (Z.to_nat (i - start)) l).
Proof.
  intros Hc. revert i. induction n as [|n IH]; intros i Hi Hn; simpl; [done|].
  rewrite (find_slot_consecutive _ _ _ Hc).
  rewrite (proj2 (Z.leb_le _ _)), (proj2 (Z.ltb_lt _ _)) by lia. cbn [andb].
  replace (i + 1 - (start + 1)) with (i - start) by lia.
  destruct (lookup_lt_is_Some_2 l (Z.to_nat (i - start))) as [e E]; [unfold len in *; lia|].
  rewrite E. rewrite (IH (i + 1)) by lia.
  rewrite (drop_S _ _ _ E). simpl. do 3 f_equal. f_equal. lia.
Qed.

(** The commands of the log with indices in [(a, b\]]. *)
Definition commands_between c (a b : Z) : list string :=
  Command <$> take (Z.to_nat (b - a)) (drop (Z.to_nat (a - logStartIndex c)) (log c)).

Lemma advance_commit_spec lc c c' :
  log_inv c -> last_index c < 2 ^ 64 -> logStartIndex c <= lastApplied c ->
  advance_commit lc c = Ok c' -> commitIndex c < lc ->
  lastApplied c <= commitIndex c' /\ commitIndex c' <= lc /\
  lastApplied c' = commitIndex c' /\
  sm c' = apply_all (commands_between c (lastApplied c) (commitIndex c')) (sm c).
Proof.
  intros Hinv Hmax Ha Hadv Hlt. pose proof Hinv as [H0 Hc].
  unfold advance_commit in Hadv. rewrite (proj2 (Z.ltb_lt _ _)) in Hadv by done.
  set (nc := if getLastLogIndex c <? lc then _ else lc) in Hadv.
  assert (Hnc : nc <= lc /\ nc <= getLastLogIndex c).
  { unfold nc. destruct (Z.ltb_spec (getLastLogIndex c) lc); lia. }
  destruct (Z.ltb_spec nc (lastApplied c)) as [|Hge]; [done|].
  injection Hadv as <-. cbn [commitIndex lastApplied sm set_applied].
  assert (Hlast : nc <= last_index c).
  { rewrite last_unlocked in Hnc by done. pose proof (len_nonneg (log c)).
    unfold last_index in *. case_bool_decide; lia. }
  rewrite (collect_committed_spec (logStartIndex c)) by (done || unfold last_index in *; lia).
  split_and!; [lia|lia| |done].
  assert (E : len (Command <$> take (Z.to_nat (nc - lastApplied c))
      (drop (Z.to_nat (lastApplied c - logStartIndex c)) (log c))) = nc - lastApplied c).
  { unfold len. rewrite length_fmap, length_take, length_drop. unfold last_index, len in *. lia. }
  rewrite E, u64_small; [lia|]. unfold in_u64. lia.
Qed.

Lemma appended_inv req c :
  log_inv c -> request_wf req ->
  consistency_check req (set_leader (ae_LeaderID req) (step_down (ae_Term req) c)) = None ->
  log_inv (appended req c) /\ logStartIndex (appended req c) = logStartIndex c /\
  commitIndex (appended req c) = commitIndex c /\ lastApplied (appended req c) = lastApplied c /\
  sm (appended req c) = sm c.
Proof.
  intros Hinv [Hp Hes] Hcheck.
  destruct (consistency_check_pass _ _ (log_inv_check req c Hinv) Hp Hcheck) as [Hle _].
  destruct (step_down_log (ae_Term req) c) as (E1 & E2 & _ & E4 & E5 & E6).
  unfold last_index in Hle. simpl in Hle. rewrite E1, E2 in Hle. destruct Hinv as [H0 Hc].
  unfold appended, log_inv. simpl. rewrite E1, E2, E4, E5, E6. split_and!; try done.
  apply (append_entries_spec (logStartIndex c) (Entries req) (log c) (PrevLogIndex req + 1)
    Hc Hes ltac:(lia)).
Qed.


(** A request does not panic while the log is not empty and reaches the applied index. *)
Theorem append_entries_total req c :
  log_inv c -> request_wf req -> lastApplied c <= commitIndex c ->
  log (appended req c) <> [] ->
  lastApplied c <= last_index (appended req c) ->
  exists resp c', HandleAppendEntries req c = Ok (resp, c').
Proof.
  intros Hinv Hwf Hac Hne Hla. unfold HandleAppendEntries. case_match; [eauto|].
  set (c1 := set_leader _ _). destruct (consistency_check req c1) as [r|] eqn:Hcheck; [eauto|].
  change (set_log _ c1) with (appended req c).
  destruct (appended_inv req c Hinv Hwf Hcheck) as (Hinv2 & E1 & E2 & E3 & E4).
  unfold advance_commit. destruct (Z.ltb_spec (commitIndex (appended req c)) (LeaderCommit req));
    [|cbn; eauto].
  rewrite last_unlocked, bool_decide_false by done.
  destruct (Z.ltb_spec (last_index (appended req c)) (LeaderCommit req)); cbn [go_bind];
    rewrite (proj2 (Z.ltb_ge _ _)) by lia; cbn; eauto.
Qed.

(** ** Defects of compaction *)

(** After a full compaction the leader loses its place in the log: the next command
    gets index 1 again although everything up to the watermark is covered by the
    snapshot, and committing it moves the commit index back. *)
Theorem compaction_resets_log_index c snap c1 cmd e c2 :
  log_inv c -> 1 < last_index c -> CreateSnapshot c = Ok (snap, c1) ->
  command_append cmd c1 = Ok (e, c2) ->
  Index e = 1 /\ logStartIndex c2 = last_index c /\ ~ log_inv c2 /\
  commitIndex (command_commit e c2).2 = 1.
Proof.
  intros Hinv Hlast Hsnap Hcmd.
  destruct (CreateSnapshot_inv c snap c1 Hinv Hsnap) as (Hinv1 & Hlog & Hstart & _).
  unfold command_append, check in Hcmd. case_match; [done|]. injection Hcmd as <- <-.
  assert (He : Index (new_entry cmd c1) = 1).
  { unfold new_entry. simpl. unfold getLastLogIndex. by rewrite Hlog. }
  split_and!; [done|done| |].
  - intros [_ Hc]. simpl in Hc. rewrite Hlog in Hc. specialize (Hc 0%nat _ eq_refl).
    rewrite He, Hstart in Hc. lia.
  - unfold command_commit. simpl. destruct (Apply cmd (sm c1)) as [o' s'].
    unfold maybeCompactLog. simpl. by rewrite Hlog.
Qed.

(** A follower whose log was fully compacted panics on the heartbeat that would
    advance its commit index: the last index of an empty log counts as 0, so the number
    of commands to apply is negative and wraps around. *)
Theorem compacted_follower_panics req c :
  log c = [] -> 0 < lastApplied c -> currentTerm c <= ae_Term req ->
  PrevLogIndex req = 0 -> Entries req = [] -> commitIndex c < LeaderCommit req ->
  0 <= commitIndex c -> HandleAppendEntries req c = Panic.
Proof.
  intros Hlog Hla Ht Hp He Hc H0'. unfold HandleAppendEntries.
  rewrite (proj2 (Z.ltb_ge _ _)) by done. unfold consistency_check. rewrite Hp, He. simpl.
  destruct (step_down_log (ae_Term req) c) as (E1 & _ & _ & E4 & E5 & _).
  unfold advance_commit. simpl. rewrite E4, E5, (proj2 (Z.ltb_lt _ _)) by done.
  unfold getLastLogIndex. simpl. rewrite E1, Hlog. simpl.
  rewrite (proj2 (Z.ltb_lt 0 (LeaderCommit req))) by lia.
  by rewrite (proj2 (Z.ltb_lt 0 (lastApplied c))) by lia.
Qed.

(** A snapshot covers the whole log, also the entries that are not applied: the state in
    the snapshot is that of [lastApplied], but its index is the last of the log, and the
    entries in between are gone. *)
Theorem snapshot_covers_unapplied c snap c' :
  log_inv c -> lastApplied c < last_index c -> CreateSnapshot c = Ok (snap, c') ->
  LastIncludedIndex snap = last_index c /\ Some (Data snap) = Snapshot (sm c) /\
  lastApplied c' < logStartIndex c' /\ log c' = [].
Proof.
  intros Hinv Hlt Hs. destruct (CreateSnapshot_inv c snap c' Hinv Hs) as (_ & E1 & E2 & E3 & _ & E5 & _).
  split_and!; [done| |lia|done].
  unfold CreateSnapshot in Hs. destruct (Snapshot (sm c)) as [d|]; [|done]. by injection Hs as <- _.
Qed.

(** A late answer to an earlier election lowers the term of a node that has moved on. *)
Theorem stale_response_lowers_term term resp votes c :
  term < rvr_Term resp -> rvr_Term resp < currentTerm c ->
  currentTerm (election_response term resp votes c).2 < currentTerm c.
Proof.
  intros H1 H2. unfold election_response. rewrite (proj2 (Z.ltb_lt _ _)) by done. done.
Qed.

End Raft.
