(* ===== verification/RaftElection.v ===== *)
(** * Consensus: elections in a cluster

    A cluster of nodes with a fixed membership, the votes they grant and the elections
    they win, as a transition system over the handlers of [Raft].  At any time at most
    one node leads a term; over time the tie-break of [HandleRequestVote] can let a
    second node win a term that already had a leader. *)
From S2P Require Import Prelude Http Bytes Raft RaftFacts.

Section Election.
Context {S : Type} `{!StateMachine S}.
Implicit Types c : Cluster S.

(** ** The system *)

(** [grants]: (term, voter, candidate); [ballots]: (term, candidate, voter), the votes a
    candidate has counted; [won]: (term, node); [running]: the term of a node's latest
    election. *)
Record sys := mkSys {
  cl : gmap string (Cluster S);
  grants : gset (Z * string * string);
  ballots : gset (Z * string * string);
  won : gset (Z * string);
  running : gmap string Z
}.

(** The operations of a node that cast no vote and start no election.  Answers to earlier
    requests do not carry terms below the node's, and a snapshot is not newer than the
    term of its sender. *)
Inductive quiet_op : Cluster S -> Cluster S -> Prop :=
  | qo_append req c resp c' : HandleAppendEntries req c = Ok (resp, c') -> quiet_op c c'
  | qo_install req c :
      is_LastIncludedTerm req <= is_Term req -> quiet_op c (HandleInstallSnapshot req c).2
  | qo_election_response term resp votes c :
      (term < rvr_Term resp -> currentTerm c <= rvr_Term resp) ->
      quiet_op c (election_response term resp votes c).2
  | qo_election_lost now votes required c :
      quiet_op c (election_end now true votes required c)
  | qo_heartbeat now c : quiet_op c (sendHeartbeats now c).2
  | qo_heartbeat_response now term addr resp c :
      (term < aer_Term resp -> currentTerm c <= aer_Term resp) ->
      quiet_op c (heartbeat_response now term addr resp c)
  | qo_command cmd c e c' : command_append cmd c = Ok (e, c') -> quiet_op c c'
  | qo_replicate resp n c : quiet_op c (replicate_response resp n c).2
  | qo_commit e c : quiet_op c (command_commit e c).2
  | qo_snapshot c snap c' : CreateSnapshot c = Ok (snap, c') -> quiet_op c c'.

Inductive sys_step : sys -> sys -> Prop :=
  | es_start s n c :
      cl s !! n = Some c -> currentTerm c + 1 < 2 ^ 64 ->
      let t := currentTerm c + 1 in
      sys_step s (mkSys (<[n := startElection c]> (cl s)) ({[(t, n, n)]} ∪ grants s)
                   ({[(t, n, n)]} ∪ ballots s) (won s) (<[n := t]> (running s)))
  | es_vote s n c req resp c' :
      cl s !! n = Some c -> rv_CandidateID req <> "" ->
      HandleRequestVote req c = (resp, c') ->
      sys_step s (mkSys (<[n := c']> (cl s))
                   (if VoteGranted resp then {[(rv_Term req, n, rv_CandidateID req)]} ∪ grants s
                    else grants s)
                   (ballots s) (won s) (running s))
  | es_count s t voter n :
      (t, voter, n) ∈ grants s ->
      sys_step s (mkSys (cl s) (grants s) ({[(t, n, voter)]} ∪ ballots s) (won s) (running s))
  | es_win s n c t now voters :
      cl s !! n = Some c -> running s !! n = Some t -> state c = StateCandidate ->
      (forall v, v ∈ voters -> (t, n, v) ∈ ballots s) -> voters ⊆ dom (cl s) ->
      needed c <= Z.of_nat (size voters) ->
      sys_step s (mkSys (<[n := election_end now false (Z.of_nat (size voters)) (needed c) c]> (cl s))
                   (grants s) (ballots s) ({[(t, n)]} ∪ won s) (running s))
  | es_quiet s n c c' :
      cl s !! n = Some c -> quiet_op c c' ->
      sys_step s (mkSys (<[n := c']> (cl s)) (grants s) (ballots s) (won s) (running s)).

(** A cluster before its first election: every node knows all the others. *)
Definition initial (s : sys) : Prop :=
  grants s = ∅ /\ ballots s = ∅ /\ won s = ∅ /\ running s = ∅ /\ cl s !! "" = None /\
  forall n c, cl s !! n = Some c ->
    me c = n /\ dom (nodes c) = dom (cl s) /\ state c = StateFollower /\ 0 <= currentTerm c.

(** ** Quiet operations *)

Record quiet c c' : Prop := {
  q_me : me c' = me c;
  q_nodes : dom (nodes c') = dom (nodes c);
  q_term : currentTerm c <= currentTerm c';
  q_same : currentTerm c' = currentTerm c ->
    votedFor c' = votedFor c /\ (state c' = state c \/ state c' = StateFollower);
  q_up : currentTerm c < currentTerm c' -> state c' = StateFollower
}.

Lemma quiet_refl c c' :
  me c' = me c -> nodes c' = nodes c -> currentTerm c' = currentTerm c ->
  votedFor c' = votedFor c -> state c' = state c \/ state c' = StateFollower -> quiet c c'.
Proof.
  intros E1 E2 E3 E4 E5. split; [done|by rewrite E2|lia|done|lia].
Qed.

Lemma quiet_term t c c' :
  currentTerm c <= t -> me c' = me c -> nodes c' = nodes c -> currentTerm c' = t ->
  votedFor c' = votedFor c -> state c' = StateFollower -> quiet c c'.
Proof. intros H E1 E2 E3 E4 E5. split; [done|by rewrite E2|lia|auto|done]. Qed.

Lemma step_down_quiet t l c : quiet c (set_leader l (step_down t c)).
Proof.
  unfold step_down. destruct (Z.ltb_spec (currentTerm c) t); split; simpl; auto; lia.
Qed.

Lemma quiet_trans_same c c1 c2 :
  quiet c c1 -> me c2 = me c1 -> nodes c2 = nodes c1 -> currentTerm c2 = currentTerm c1 ->
  votedFor c2 = votedFor c1 -> state c2 = state c1 -> quiet c c2.
Proof.
  intros [Q1 Q2 Q3 Q4 Q5] E1 E2 E3 E4 E5. split.
  - congruence.
  - by rewrite E2.
  - lia.
  - rewrite E3, E4, E5. auto.
  - rewrite E3, E5. auto.
Qed.

Lemma RestoreSnapshot_same snap c c' :
  RestoreSnapshot snap c = Ok c' -> LastIncludedTerm snap <= currentTerm c ->
  me c' = me c /\ nodes c' = nodes c /\ currentTerm c' = currentTerm c /\
  votedFor c' = votedFor c /\ state c' = state c.
Proof.
  unfold RestoreSnapshot. destruct (Restore _ _); [|done]. intros [= <-] Hle. simpl.
  destruct (logStartIndex c <? LastIncludedIndex snap); simpl;
    by rewrite (proj2 (Z.ltb_ge _ _)) by done.
Qed.

Ltac qr := apply quiet_refl; simpl; auto.

Lemma quiet_op_quiet c c' : quiet_op c c' -> quiet c c'.
Proof.
  intros Hq. destruct Hq as [req c resp c' Hh|req c Hle|t resp v c Hle|now v r c|now c
    |now t a resp c Hle|cmd c e c' Hc|resp n c|e c|c snap c' Hs].
  - unfold HandleAppendEntries in Hh. case_match; [simplify_eq; qr|].
    pose proof (step_down_quiet (ae_Term req) (ae_LeaderID req) c) as Hq.
    set (c1 := set_leader _ _) in *.
    destruct (consistency_check req c1); [by simplify_eq|].
    destruct (advance_commit _ _) as [c2| |] eqn:Ha; [|done..]. injection Hh as <- <-.
    destruct (advance_commit_log _ _ _ Ha) as (_ & _ & E1 & E2 & E3 & E4 & E5).
    eapply quiet_trans_same; [exact Hq|..]; try done. unfold me. by rewrite E3.
  - unfold HandleInstallSnapshot.
    destruct (Z.ltb_spec (is_Term req) (currentTerm c)) as [C|C]; [qr|].
    pose proof (step_down_quiet (is_Term req) (is_LeaderID req) c) as Hq.
    assert (Ht : is_Term req <= currentTerm (set_leader (is_LeaderID req) (step_down (is_Term req) c))).
    { unfold step_down. destruct (Z.ltb_spec (currentTerm c) (is_Term req)); simpl; lia. }
    set (c1 := set_leader _ _) in *.
    destruct (RestoreSnapshot _ c1) as [c2| |] eqn:E; simpl; [|done..].
    destruct (RestoreSnapshot_same _ _ _ E) as (E1 & E2 & E3 & E4 & E5); [cbn [LastIncludedTerm]; lia|].
    by eapply quiet_trans_same.
  - unfold election_response. destruct (Z.ltb_spec t (rvr_Term resp)) as [C|C].
    + eapply (quiet_term (rvr_Term resp)); auto.
    + destruct (VoteGranted resp); qr.
  - unfold election_end. case_match; qr.
  - unfold sendHeartbeats. case_match; qr.
  - unfold heartbeat_response. destruct (Z.ltb_spec t (aer_Term resp)) as [C|C].
    + specialize (Hle C). destruct (peerAck c); eapply (quiet_term (aer_Term resp)); auto.
    + destruct (peerAck c); qr.
  - unfold command_append, check in Hc. case_match; [done|]. simplify_eq. qr.
  - unfold replicate_response. destruct (Z.ltb_spec (currentTerm c) (aer_Term resp)).
    + eapply (quiet_term (aer_Term resp)); auto. lia.
    + destruct (Success resp); qr.
  - unfold command_commit. destruct (Apply _ _) as [o s]. simpl. unfold maybeCompactLog.
    case_match; [qr|]. unfold CreateSnapshot, compactLog. simpl.
    destruct (Snapshot s); [|qr]. case_match; qr.
  - unfold CreateSnapshot in Hs. destruct (Snapshot (sm c)); [|done]. injection Hs as _ <-.
    unfold compactLog. case_match; qr.
Qed.

(** ** What a vote request does *)

Lemma HandleRequestVote_spec req c resp c' :
  HandleRequestVote req c = (resp, c') ->
  me c' = me c /\ nodes c' = nodes c /\ currentTerm c <= currentTerm c' /\
  (currentTerm c < currentTerm c' -> state c' = StateFollower) /\
  (VoteGranted resp = true -> currentTerm c' = rv_Term req /\ votedFor c' = rv_CandidateID req) /\
  (currentTerm c' = currentTerm c ->
    votedFor c' = votedFor c /\ state c' = state c \/
    votedFor c = me c /\ state c' = StateFollower \/
    votedFor c = "" /\ (state c' = state c \/ state c' = StateFollower)).
Proof.
  unfold HandleRequestVote. destruct (Z.ltb_spec (rv_Term req) (currentTerm c)) as [C|C].
  { intros [= <- <-]. simpl. split_and!; auto; done || lia. }
  unfold step_down. destruct (Z.ltb_spec (currentTerm c) (rv_Term req)) as [D|D].
  - set (c1 := set_vote "" _). assert (Hc1 : me c1 = me c /\ nodes c1 = nodes c /\
      currentTerm c1 = rv_Term req /\ state c1 = StateFollower) by done.
    destruct Hc1 as (E1 & E2 & E3 & E4).
    case_match; case_match; intros [= <- <-]; simpl; split_and!; auto; try done; lia.
  - assert (Ht : rv_Term req = currentTerm c) by lia. rewrite Ht, Z.eqb_refl.
    destruct (bool_decide (votedFor c = me c)) eqn:Ev; simpl; b2p.
    + destruct (String.ltb (me c) (rv_CandidateID req)); simpl.
      * case_match; intros [= <- <-]; simpl; split_and!; auto; try done; lia.
      * case_match; intros [= <- <-]; simpl; split_and!; auto; try done; try lia.
        intros _. b2p.
        match goal with H : (_ || _)%bool = true |- _ => apply orb_true_iff in H as [H|H]; b2p; auto end.
    + case_match; intros [= <- <-]; simpl; split_and!; auto; try done; try lia.
      intros _. b2p.
        match goal with H : (_ || _)%bool = true |- _ => apply orb_true_iff in H as [H|H]; b2p; auto end.
Qed.

(** ** The invariant *)

(** A majority of the cluster. *)
Definition majority (s : sys) (voters : gset string) : Prop :=
  voters ⊆ dom (cl s) /\ (size (dom (cl s)) < 2 * size voters)%nat.

Record election_inv (s : sys) : Prop := {
  ei_node : forall n c, cl s !! n = Some c ->
    me c = n /\ n <> "" /\ dom (nodes c) = dom (cl s) /\ 0 <= currentTerm c;
  ei_self : forall n c, cl s !! n = Some c -> state c <> StateFollower -> votedFor c = n;
  ei_running : forall n c, cl s !! n = Some c -> state c = StateCandidate ->
    running s !! n = Some (currentTerm c);
  ei_leader : forall n c, cl s !! n = Some c -> state c = StateLeader ->
    (currentTerm c, n) ∈ won s;
  ei_past : forall t v n, (t, v, n) ∈ grants s ->
    exists c, cl s !! v = Some c /\ t <= currentTerm c /\
      (n <> v -> t = currentTerm c -> votedFor c = n) /\ n <> "";
  ei_once : forall t v n1 n2, (t, v, n1) ∈ grants s -> (t, v, n2) ∈ grants s ->
    n1 <> v -> n2 <> v -> n1 = n2;
  ei_ballots : forall t n v, (t, n, v) ∈ ballots s -> (t, v, n) ∈ grants s;
  ei_won : forall t n, (t, n) ∈ won s ->
    exists voters, majority s voters /\ forall v, v ∈ voters -> (t, n, v) ∈ ballots s
}.

Lemma initial_inv s : initial s -> election_inv s.
Proof.
  intros (Eg & Eb & Ew & Er & Hn & Hc).
  split; rewrite ?Eg, ?Eb, ?Ew; try (intros *; rewrite elem_of_empty; done).
  - intros n c Hl. destruct (Hc n c Hl) as (? & ? & ? & ?). split_and!; auto.
    intros ->. congruence.
  - intros n c Hl Hs. destruct (Hc n c Hl) as (_ & _ & E & _). congruence.
  - intros n c Hl Hs. destruct (Hc n c Hl) as (_ & _ & E & _). congruence.
  - intros n c Hl Hs. destruct (Hc n c Hl) as (_ & _ & E & _). congruence.
Qed.

(** Replacing a node by one of the same cluster keeps the members. *)
Lemma dom_update (s : sys) n c c' :
  cl s !! n = Some c -> dom (<[n := c']> (cl s)) = dom (cl s).
Proof. intros H. apply dom_insert_lookup_L. by eexists. Qed.

(** The invariant in terms of one replaced node: what is left to show about it. *)
Lemma inv_replace s n c c' g b w r :
  election_inv s -> cl s !! n = Some c ->
  let s' := mkSys (<[n := c']> (cl s)) g b w r in
  me c' = me c -> dom (nodes c') = dom (nodes c) -> currentTerm c <= currentTerm c' ->
  (state c' <> StateFollower -> votedFor c' = n) ->
  (state c' = StateCandidate -> r !! n = Some (currentTerm c')) ->
  (forall m, m <> n -> r !! m = running s !! m) ->
  (state c' = StateLeader -> (currentTerm c', n) ∈ w) ->
  won s ⊆ w -> grants s ⊆ g -> ballots s ⊆ b ->
  (* new grants are votes of [n] in its current term; old ones still stand *)
  (forall t v m, (t, v, m) ∈ g -> (t, v, m) ∉ grants s ->
     v = n /\ t = currentTerm c' /\ m <> "" /\ (m <> n -> votedFor c' = m)) ->
  (currentTerm c' = currentTerm c -> votedFor c' = votedFor c \/ votedFor c = n \/ votedFor c = "") ->
  (forall t m v, (t, m, v) ∈ b -> (t, m, v) ∉ ballots s -> (t, v, m) ∈ g) ->
  (forall t m, (t, m) ∈ w -> (t, m) ∉ won s ->
     exists voters, majority s voters /\ forall v, v ∈ voters -> (t, m, v) ∈ b) ->
  election_inv s'.
Proof.
  intros I Hl s' Eme Edom Hterm Hself Hrun Hrun' Hlead Sw Sg Sb Hg Hv Hb Hw.
  destruct (ei_node s I n c Hl) as (Em & Hn & Ed & H0).
  assert (Hdom : dom (cl s') = dom (cl s)) by by eapply dom_update.
  (* the standing of an old grant of [n] *)
  assert (Hold : forall t m, (t, n, m) ∈ grants s -> t <= currentTerm c /\ m <> "" /\
      (m <> n -> t = currentTerm c' -> votedFor c' = m)).
  { intros t m Hm. destruct (ei_past s I t n m Hm) as (c0 & Hc0 & Ht & Hvote & Hne).
    simplify_eq. split_and!; auto. intros Hmn ->.
    specialize (Hvote Hmn ltac:(lia)).
    destruct (Hv ltac:(lia)) as [E|[E|E]]; congruence. }
  split; simpl.
  - intros m d [[<- <-]|[Hne Hm]]%lookup_insert_Some.
    + unfold s' in Hdom. simpl in Hdom. rewrite Hdom. split_and!; [congruence|done|congruence|lia].
    + unfold s' in Hdom. simpl in Hdom. rewrite Hdom. by apply (ei_node s I).
  - intros m d [[<- <-]|[Hne Hm]]%lookup_insert_Some; [done|]. by apply (ei_self s I).
  - intros m d [[<- <-]|[Hne Hm]]%lookup_insert_Some; [done|].
    rewrite Hrun' by done. by apply (ei_running s I).
  - intros m d [[<- <-]|[Hne Hm]]%lookup_insert_Some; [done|].
    intros. apply Sw. by apply (ei_leader s I).
  - intros t v m Hm. destruct (decide ((t, v, m) ∈ grants s)) as [Hin|Hin].
    + destruct (decide (v = n)) as [->|Hne].
      * destruct (Hold t m Hin) as (Ht & Hm0 & Hvote). exists c'.
        rewrite lookup_insert_eq. split_and!; auto. lia.
      * destruct (ei_past s I t v m Hin) as (d & Hd & ?). exists d.
        by rewrite lookup_insert_ne.
    + destruct (Hg t v m Hm Hin) as (-> & -> & Hm0 & Hvote). exists c'.
      rewrite lookup_insert_eq. split_and!; auto. lia.
  - intros t v n1 n2 H1 H2 N1 N2.
    destruct (decide ((t, v, n1) ∈ grants s)) as [I1|I1],
             (decide ((t, v, n2) ∈ grants s)) as [I2|I2].
    + by apply (ei_once s I t v).
    + destruct (Hg _ _ _ H2 I2) as (-> & -> & _ & V2).
      destruct (Hold _ _ I1) as (_ & _ & V1).
      rewrite <- (V1 N1 eq_refl). auto.
    + destruct (Hg _ _ _ H1 I1) as (-> & -> & _ & V1).
      destruct (Hold _ _ I2) as (_ & _ & V2).
      rewrite <- (V2 N2 eq_refl). symmetry. auto.
    + destruct (Hg _ _ _ H1 I1) as (-> & -> & _ & V1).
      destruct (Hg _ _ _ H2 I2) as (_ & _ & _ & V2).
      rewrite <- V1, <- V2 by done. done.
  - intros t m v Hin. destruct (decide ((t, m, v) ∈ ballots s)) as [Ho|Ho]; [|auto].
    apply Sg. by apply (ei_ballots s I).
  - intros t m Hin. unfold majority. unfold s' in Hdom. simpl in Hdom. simpl. rewrite Hdom.
    destruct (decide ((t, m) ∈ won s)) as [Ho|Ho].
    + destruct (ei_won s I t m Ho) as (Q & HQ & Hq). exists Q. split; [done|]. auto.
    + by apply Hw.
Qed.

(** What a quiet operation needs of [inv_replace]. *)
Lemma inv_quiet s n c c' :
  election_inv s -> cl s !! n = Some c -> quiet c c' ->
  election_inv (mkSys (<[n := c']> (cl s)) (grants s) (ballots s) (won s) (running s)).
Proof.
  intros I Hl [Q1 Q2 Q3 Q4 Q5].
  assert (Hsame : state c' <> StateFollower ->
      currentTerm c' = currentTerm c /\ votedFor c' = votedFor c /\ state c' = state c).
  { intros Hs. assert (currentTerm c' = currentTerm c) as E.
    { destruct (Z.eq_dec (currentTerm c') (currentTerm c)); [done|].
      exfalso. apply Hs, Q5. lia. }
    destruct (Q4 E) as [? [?|?]]; [auto|done]. }
  eapply inv_replace; eauto; try done.
  - intros Hs. destruct (Hsame Hs) as (_ & -> & E). apply (ei_self s I); congruence.
  - intros Hs. destruct Hsame as (-> & _ & E); [congruence|].
    apply (ei_running s I); congruence.
  - intros Hs. destruct Hsame as (-> & _ & E); [congruence|].
    apply (ei_leader s I); congruence.
  - intros E. left. by apply Q4.
Qed.

Lemma needed_majority c k :
  needed c <= Z.of_nat k -> (size (dom (nodes c)) < 2 * k)%nat.
Proof. unfold needed. rewrite size_dom. intros. Z.to_euclidean_division_equations. lia. Qed.

Lemma becomeLeader_same now c :
  me (becomeLeader now c) = me c /\ dom (nodes (becomeLeader now c)) = dom (nodes c) /\
  currentTerm (becomeLeader now c) = currentTerm c /\ votedFor (becomeLeader now c) = votedFor c /\
  state (becomeLeader now c) = StateLeader.
Proof. unfold becomeLeader. simpl. rewrite dom_fmap_L. done. Qed.

Lemma sys_step_inv s s' : election_inv s -> sys_step s s' -> election_inv s'.
Proof.
  intros I Hs. destruct Hs as [s n c Hl Hb t|s n c req resp c' Hl Hid Hv|s t v n Hg
    |s n c t now Q Hl Hr Hst HQ Hsub Hneed|s n c c' Hl Hq].
  - destruct (ei_node s I n c Hl) as (Em & Hn & _ & H0).
    assert (Et : currentTerm (startElection c) = t).
    { unfold startElection. cbn [currentTerm set_vote set_term]. apply u64_small. split; lia. }
    eapply inv_replace; eauto; try done; rewrite ?Et.
    + unfold t. lia.
    + intros _. by rewrite lookup_insert_eq.
    + intros m Hm. by rewrite lookup_insert_ne.
    + apply union_subseteq_r.
    + apply union_subseteq_r.
    + intros t0 v m [Hin|Hin]%elem_of_union Hno; [|done].
      apply elem_of_singleton in Hin. by simplify_eq.
    + unfold t. lia.
    + intros t0 m v [Hin|Hin]%elem_of_union Hno; [|done].
      apply elem_of_singleton in Hin. simplify_eq.
      apply elem_of_union_l. by apply elem_of_singleton.
  - destruct (HandleRequestVote_spec req c resp c' Hv) as (E1 & E2 & E3 & E4 & E5 & E6).
    destruct (ei_node s I n c Hl) as (Em & Hn & _ & H0).
    assert (Hsame : state c' <> StateFollower ->
        currentTerm c' = currentTerm c /\ votedFor c' = votedFor c /\ state c' = state c).
    { intros Hs. assert (currentTerm c' = currentTerm c) as E.
      { destruct (Z.eq_dec (currentTerm c') (currentTerm c)); [done|].
        exfalso. apply Hs, E4. lia. }
      destruct (E6 E) as [[? ?]|[[? ?]|[Hv0 [Hs'|?]]]]; [done|done| |done].
      rewrite <- (ei_self s I n c Hl) in Hn by congruence. done. }
    eapply inv_replace; eauto; try done.
    + by rewrite E2.
    + intros Hs. destruct (Hsame Hs) as (_ & -> & E). apply (ei_self s I); congruence.
    + intros Hs. destruct Hsame as (-> & _ & E); [congruence|].
      apply (ei_running s I); congruence.
    + intros Hs. destruct Hsame as (-> & _ & E); [congruence|].
      apply (ei_leader s I); congruence.
    + destruct (VoteGranted resp); [apply union_subseteq_r|done].
    + intros t v m Hm Hnm. destruct (VoteGranted resp); [|done].
      destruct (E5 eq_refl) as [-> ->].
      apply elem_of_union in Hm as [Hm|Hm]; [|done].
      apply elem_of_singleton in Hm. simplify_eq. auto.
    + intros E. rewrite <- Em. destruct (E6 E) as [[? ?]|[[? ?]|[? ?]]]; auto.
  - destruct I. split; simpl; auto.
    + intros t0 n0 v0 [Hin|Hin]%elem_of_union; [|auto].
      apply elem_of_singleton in Hin. by simplify_eq.
    + intros t0 n0 Hin. destruct (ei_won0 t0 n0 Hin) as (Q & HQ & Hq). exists Q.
      split; [done|]. intros v0 Hv0. apply elem_of_union_r. auto.
  - destruct (ei_node s I n c Hl) as (Em & Hn & Ed & H0).
    assert (Ht : t = currentTerm c) by (rewrite (ei_running s I n c Hl Hst) in Hr; congruence).
    assert (Ee : election_end now false (Z.of_nat (size Q)) (needed c) c = becomeLeader now c).
    { unfold election_end. rewrite bool_decide_eq_true_2 by done. simpl.
      by rewrite (proj2 (Z.leb_le _ _) Hneed). }
    rewrite Ee. destruct (becomeLeader_same now c) as (B1 & B2 & B3 & B4 & B5).
    eapply inv_replace; eauto; try done; rewrite ?B3, ?B4, ?B5; try done.
    + intros _. apply (ei_self s I); congruence.
    + intros _. rewrite <- Ht. apply elem_of_union_l. by apply elem_of_singleton.
    + apply union_subseteq_r.
    + intros t0 m Hin Hno. apply elem_of_union in Hin as [Hin|Hin]; [|done].
      apply elem_of_singleton in Hin. simplify_eq. exists Q. split; [|done].
      split; [done|]. rewrite <- Ed. by apply needed_majority.
  - eapply inv_quiet; eauto. by apply quiet_op_quiet.
Qed.

Inductive reachable (s0 : sys) : sys -> Prop :=
  | reach_init : initial s0 -> reachable s0 s0
  | reach_step s s' : reachable s0 s -> sys_step s s' -> reachable s0 s'.

Lemma sys_reachable_inv s0 s : reachable s0 s -> election_inv s.
Proof. induction 1; eauto using initial_inv, sys_step_inv. Qed.

(** Two majorities share a voter. *)
Lemma majorities_meet s Q1 Q2 : majority s Q1 -> majority s Q2 -> exists v, v ∈ Q1 /\ v ∈ Q2.
Proof.
  intros [S1 L1] [S2 L2]. destruct (set_choose_or_empty (Q1 ∩ Q2)) as [[v Hv]|He].
  - exists v. by apply elem_of_intersection in Hv.
  - exfalso. assert (Q1 ## Q2) as Hd.
    { intros v V1 V2. apply (not_elem_of_empty (C := gset string) v).
      rewrite <- He. by apply elem_of_intersection. }
    pose proof (size_union Q1 Q2 Hd) as Hu.
    pose proof (subseteq_size (Q1 ∪ Q2) (dom (cl s)) ltac:(by apply union_subseteq)) as Hs.
    lia.
Qed.

(** Two winners of one term: one of them has voted for the other. *)
Lemma winners_meet s t n1 n2 :
  election_inv s -> (t, n1) ∈ won s -> (t, n2) ∈ won s -> n1 <> n2 ->
  (t, n1, n2) ∈ grants s \/ (t, n2, n1) ∈ grants s.
Proof.
  intros I W1 W2 Hne.
  destruct (ei_won s I t n1 W1) as (Q1 & M1 & B1), (ei_won s I t n2 W2) as (Q2 & M2 & B2).
  destruct (majorities_meet s Q1 Q2 M1 M2) as (v & V1 & V2).
  apply B1, (ei_ballots s I) in V1. apply B2, (ei_ballots s I) in V2.
  destruct (decide (v = n1)) as [->|N1]; [by left|].
  destruct (decide (v = n2)) as [->|N2]; [by right|].
  exfalso. apply Hne. by apply (ei_once s I t v).
Qed.

Lemma leader_no_grant s n c m :
  election_inv s -> cl s !! n = Some c -> state c = StateLeader -> m <> n ->
  (currentTerm c, n, m) ∉ grants s.
Proof.
  intros I Hl Hs Hne Hin. destruct (ei_past s I _ _ _ Hin) as (c0 & Hc0 & _ & Hv & _).
  rewrite Hl in Hc0. injection Hc0 as <-.
  rewrite (ei_self s I n c Hl) in Hv by congruence. specialize (Hv Hne eq_refl). congruence.
Qed.


(** over the whole history of the cluster, two different nodes win the same term only
    when one of them, a candidate or leader of that term, has granted the other its vote:
    without the tie-break of [HandleRequestVote] every term has at most one leader. *)
Theorem raft_term_winners (s0 s : sys) t n1 n2
  (Hr : reachable s0 s) (W1 : (t, n1) ∈ won s) (W2 : (t, n2) ∈ won s) (Hne : n1 <> n2) :
  (t, n1, n2) ∈ grants s \/ (t, n2, n1) ∈ grants s.
Proof. apply winners_meet; eauto using sys_reachable_inv. Qed.

End Election.
