(* ===== verification/RaftExamples.v ===== *)
(** * Consensus: a concrete cluster

    The theorems about [Raft] at concrete nodes: the state machine is the list of the
    commands it has received, the cluster has the three members ["a"], ["b"], ["c"]. *)
From S2P Require Import Prelude Http Bytes Raft RaftFacts RaftElection.

#[export] Instance command_list : StateMachine (list string) := {
  Apply cmd s := (Some cmd, s ++ [cmd]);
  Snapshot s := Some (foldr String.append "" s);
  Restore d s := Some [d]
}.

Definition demo_node (id : string) : Cluster (list string) :=
  mkCluster (mkConfig id "0.0.0.0" 7946 (List.filter (fun p => negb (bool_decide (p = id))) ["a"; "b"; "c"])
               2000000000 500000000)
    StateFollower 0 "" "" [] 0 0 0 0
    (list_to_map ((fun p => (p, mkNode p p false)) <$> ["a"; "b"; "c"])) None
    (mkMembership None false 0) [].

Definition demo_config : Config :=
  mkConfig "a" "" 0 ["b"; "c"] 0 0.

Definition demo_new : Cluster (list string) :=
  match New demo_config [] with Ok c => c | _ => demo_node "a" end.

(** Two entries of term 1 from the leader ["b"], the first of them committed. *)
Definition demo_append : AppendEntries :=
  mkAppend 1 "b" 0 0 [mkEntry 1 1 "x"; mkEntry 2 1 "y"] 1.

Definition demo_appended : Cluster (list string) :=
  match HandleAppendEntries demo_append demo_new with Ok (_, c) => c | _ => demo_new end.

Lemma demo_append_ok :
  HandleAppendEntries demo_append demo_new = Ok (mkAppendResponse 1 true 0 0, demo_appended).
Proof. vm_compute. reflexivity. Qed.

Lemma demo_append_wf : request_wf demo_append.
Proof.
  split; [vm_compute; discriminate|]. intros [|[|i]] e H; simpl in H; by simplify_eq.
Qed.

Lemma demo_new_log : log_inv demo_new.
Proof. split; [vm_compute; discriminate|]. intros i e H. vm_compute in H. discriminate. Qed.


Lemma append_entries_merges_log_witness :
  2 <= last_index demo_appended /\
  exists x, entry_at demo_appended 2 = Some x /\ Term x = 1.
Proof.
  destruct (append_entries_merges_log demo_append demo_new _ _ demo_new_log demo_append_wf
    demo_append_ok eq_refl) as (_ & _ & H1 & _ & H2 & _).
  split; [exact H1|]. apply (H2 (mkEntry 2 1 "y")); [set_solver|reflexivity].
Defined.


(** ** Compaction *)

(** A leader with two entries, its log compacted, and the next command. *)
Definition demo_leader : Cluster (list string) := set_state StateLeader demo_appended.

Definition demo_compacted : SnapshotData * Cluster (list string) :=
  match CreateSnapshot demo_leader with Ok r => r | _ => (mkSnapshot 0 0 "", demo_leader) end.

Definition demo_next : LogEntry * Cluster (list string) :=
  match command_append "z" (demo_compacted.2) with
  | Ok r => r | _ => (mkEntry 0 0 "", demo_leader) end.

Lemma demo_leader_log : log_inv demo_leader.
Proof.
  split; [vm_compute; discriminate|]. intros [|[|i]] e H; vm_compute in H; by simplify_eq.
Qed.

Lemma compaction_resets_log_index_witness :
  Index demo_next.1 = 1 /\ logStartIndex demo_next.2 = 2.
Proof.
  destruct (compaction_resets_log_index demo_leader demo_compacted.1 demo_compacted.2 "z"
    demo_next.1 demo_next.2 demo_leader_log) as (H1 & H2 & _);
    [vm_compute; reflexivity|vm_compute; reflexivity|vm_compute; reflexivity|].
  split; [exact H1|]. rewrite H2. vm_compute. reflexivity.
Defined.

Lemma compacted_follower_panics_witness :
  HandleAppendEntries (mkAppend 1 "b" 0 0 [] 2) demo_compacted.2 = Panic.
Proof.
  apply compacted_follower_panics; vm_compute; reflexivity || discriminate.
Defined.

(** ** Elections *)

Definition demo_cluster : sys (S := list string) :=
  mkSys (list_to_map ((fun p => (p, demo_node p)) <$> ["a"; "b"; "c"])) ∅ ∅ ∅ ∅.

Lemma demo_initial : initial demo_cluster.
Proof.
  split_and!; try reflexivity. intros n c Hc.
  apply elem_of_list_to_map in Hc; [|vm_compute; repeat constructor; set_solver].
  apply list_elem_of_fmap in Hc as (p & [= -> ->] & Hp).
  split_and!; [done| |done|done].
  apply leibniz_equiv. set_solver.
Qed.

(** The states of an election of ["a"] for term 1 with the vote of ["c"], and of a late
    election of ["b"] for the same term. *)
Definition node (s : sys (S := list string)) (n : string) : Cluster (list string) :=
  default (demo_node n) (cl s !! n).

Definition do_start (n : string) (s : sys (S := list string)) :=
  let t := currentTerm (node s n) + 1 in
  mkSys (<[n := startElection (node s n)]> (cl s)) ({[(t, n, n)]} ∪ grants s)
    ({[(t, n, n)]} ∪ ballots s) (won s) (<[n := t]> (running s)).

Definition do_vote (n from : string) (s : sys (S := list string)) :=
  let r := HandleRequestVote (election_request (node s from)) (node s n) in
  mkSys (<[n := r.2]> (cl s))
    (if VoteGranted r.1 then {[(currentTerm (node s from), n, from)]} ∪ grants s else grants s)
    (ballots s) (won s) (running s).

Definition do_count (t : Z) (voter n : string) (s : sys (S := list string)) :=
  mkSys (cl s) (grants s) ({[(t, n, voter)]} ∪ ballots s) (won s) (running s).

Definition do_win (n : string) (voters : gset string) (s : sys (S := list string)) :=
  let c := node s n in
  mkSys (<[n := election_end 0 false (Z.of_nat (size voters)) (needed c) c]> (cl s))
    (grants s) (ballots s) ({[(currentTerm c, n)]} ∪ won s) (running s).

Definition a_leads : sys :=
  do_win "a" {["a"; "c"]} (do_count 1 "c" "a" (do_vote "c" "a" (do_start "a" demo_cluster))).

Definition b_leads : sys :=
  do_win "b" {["a"; "b"]} (do_count 1 "a" "b" (do_vote "a" "b" (do_start "b" a_leads))).

Section Steps.
Variable s : sys (S := list string).
Hypothesis R : reachable demo_cluster s.

Lemma start_reachable n :
  cl s !! n = Some (node s n) -> (currentTerm (node s n) + 1 <? 2 ^ 64) = true ->
  reachable demo_cluster (do_start n s).
Proof. intros Hn Ht. eapply reach_step; [exact R|]. apply es_start; [done|lia]. Qed.

Lemma vote_reachable n from :
  cl s !! n = Some (node s n) -> me (node s from) <> "" -> me (node s from) = from ->
  reachable demo_cluster (do_vote n from s).
Proof.
  intros Hn Hf He. eapply reach_step; [exact R|]. unfold do_vote.
  destruct (HandleRequestVote _ _) as [resp c'] eqn:E.
  pose proof (es_vote s n _ (election_request (node s from)) _ _ Hn Hf E) as Hs. simpl in Hs. by rewrite He in Hs.
Qed.

Lemma count_reachable t voter n :
  bool_decide ((t, voter, n) ∈ grants s) = true -> reachable demo_cluster (do_count t voter n s).
Proof. intros H%bool_decide_eq_true. eapply reach_step; [exact R|]. by apply es_count. Qed.

Lemma win_reachable n voters :
  cl s !! n = Some (node s n) -> running s !! n = Some (currentTerm (node s n)) ->
  state (node s n) = StateCandidate ->
  bool_decide (set_Forall (fun v => (currentTerm (node s n), n, v) ∈ ballots s) voters) = true ->
  bool_decide (voters ⊆ dom (cl s)) = true ->
  (needed (node s n) <=? Z.of_nat (size voters)) = true ->
  reachable demo_cluster (do_win n voters s).
Proof.
  intros H1 H2 H3 H4%bool_decide_eq_true H5%bool_decide_eq_true H6%Z.leb_le.
  eapply reach_step; [exact R|]. by apply es_win.
Qed.
End Steps.

Ltac run := vm_compute; reflexivity || discriminate.

Lemma a_leads_reachable : reachable demo_cluster a_leads.
Proof.
  unfold a_leads. apply win_reachable; [|run..].
  apply count_reachable; [|run]. apply vote_reachable; [|run..].
  apply start_reachable; [|run..]. apply reach_init, demo_initial.
Qed.

Lemma b_leads_reachable : reachable demo_cluster b_leads.
Proof.
  unfold b_leads. apply win_reachable; [|run..].
  apply count_reachable; [|run]. apply vote_reachable; [|run..].
  apply start_reachable; [|run..]. exact a_leads_reachable.
Qed.


Lemma raft_term_winners_witness :
  (1, "a", "b") ∈ grants b_leads \/ (1, "b", "a") ∈ grants b_leads.
Proof.
  apply (raft_term_winners demo_cluster b_leads 1 "a" "b" b_leads_reachable);
    [apply (bool_decide_eq_true_1 _); run|apply (bool_decide_eq_true_1 _); run|discriminate].
Defined.

(** The tie-break of [HandleRequestVote] breaks election safety: ["a"] wins term 1 with
    the votes of ["a"] and ["c"]; the late candidate ["b"] of the same term then gets the vote
    of the sitting leader ["a"], which steps down, and wins term 1 as well, although ["c"] still
    follows ["a"] in that term. *)
Theorem two_leaders_in_one_term :
  reachable demo_cluster b_leads /\
  state (node a_leads "a") = StateLeader /\ currentTerm (node a_leads "a") = 1 /\
  state (node b_leads "b") = StateLeader /\ currentTerm (node b_leads "b") = 1 /\
  (1, "a") ∈ won b_leads /\ (1, "b") ∈ won b_leads.
Proof.
  split; [exact b_leads_reachable|].
  split_and!; [run..|apply (bool_decide_eq_true_1 _); run|apply (bool_decide_eq_true_1 _); run].
Qed.
